(* ===== verification/_CoqProject ===== *)
-Q . S2P
Prelude.v
GoSort.v
GoStrings.v
GoPath.v
Api.v
Scheduler.v
Fleet.v
EgressNames.v
Sni.v
Dns.v
Proxy.v
Frames.v
GuestSession.v
OutputLog.v
PolicyEnv.v
Spec.v
Records.v
Sandboxes.v
Captures.v
Daemon.v
Keep.v
ServiceSpec.v
Services.v
Rollout.v
Converge.v
ServiceWorld.v
NodeRoom.v
Access.v
Sessions.v
Identity.v
IdentityKeys.v
SandboxStore.v
Revocation.v
ImageRef.v
Secrets.v
Requests.v
Creates.v
Quota.v
Agents.v
Config.v
ConfigTrust.v
ConfigLoad.v
ConfigSafe.v
RunConfig.v
RunSafe.v
PublicNet.v
Jobs.v
JobRun.v
JobEnds.v
JobSubmit.v
GatewayExamples.v
CreateExamples.v
JobExamples.v
HostFs.v
Unpack.v
UnpackSafe.v
ConfigExamples.v
UnpackExamples.v
SignIns.v
Base64.v
SshKeys.v
Accounts.v
AccountsSafe.v
AccountExamples.v
