(* ===== verification/Prelude.v ===== *)
(** * sandbox-cli, verified: what is modelled and what is proved

    sandbox-cli runs agents and commands in virtual machines. Four programs
    share the code under src/internal: [sandbox-cli], the client; [sandboxd],
    the server of one host, which keeps sandboxes and drives a backend of VMs;
    [sandbox-guestd], the agent inside a VM; and [sandbox-gateway], which
    fronts many sandboxds for many users, with their keys, quotas, services
    and jobs in a database. This library models the decisions those programs
    make, in the order they make them, and proves what they promise.

    ** How the parts call each other

    A request reaches the gateway, which finds its key's user and tenant
    ([Access], over the interface [Store] that [Identity] and [SandboxStore]
    implement), checks it ([Requests], with [Secrets], [ImageRef] and
    [EgressNames]), holds quota ([Quota]) and a node's room ([NodeRoom]),
    chooses the node ([Scheduler], over what [Fleet] combines), asks it, and
    records the result or deletes it ([Creates]). The node checks it again
    ([Spec]), keeps its record ([Records], [Sandboxes], [Captures]) among other
    handlers ([Daemon]) and across restarts ([Keep]), and relays what runs in
    the VM ([Frames], [GuestSession], [OutputLog]), whose names and connections
    pass the host's proxy ([Sni], [Dns], [Proxy]). Services ([Services],
    [Rollout], [Converge], [ServiceWorld]) and jobs ([Jobs], [JobRun],
    [JobEnds]) are loops of the gateway that make creates of their own. What a
    user's own files may change of a run is [Config]'s, and what an image's
    layers may do to the host's disk [Unpack]'s.

    ** The files, and the sources they model

    - Shared: [Prelude] (the result monad and its inversion lemmas, sums over
      maps, 64-bit wrap-around, doubles as SpecFloat, bytes); [GoSort]
      (sort.SliceStable); [GoStrings] (the strings and strconv functions
      the sources use), [GoPath] (paths and durations); [Api] (api/types.go).
    - The host's network: [EgressNames] (egressproxy/host.go), [Sni] (sni.go),
      [Dns] (dns.go), [Proxy] (server.go, open.go), [PublicNet]
      (publicnet/publicnet.go, the notify URL of gateway/jobs.go).
    - The guest's processes: [Frames] (guestproto/proto.go), [GuestSession]
      (session.go, client.go), [OutputLog] (server/outputlog.go).
    - The server: [PolicyEnv] (policy/config.go's reserved names), [Spec]
      (spec/spec.go), [Records], [Sandboxes], [Captures], [Daemon]
      (server/server.go, lifecycle.go, gpu.go, volumes.go, pool.go,
      schedule.go: each section a lock makes of a handler is one step), [Keep]
      (server/keep.go).
    - The fleet: [Scheduler] (gateway/schedule.go), [Fleet] (resources.go),
      [NodeRoom] (nodes.go, drain.go, lost.go).
    - The gateway's accounts: [Access] (contracts.go, http.go, gateway.go,
      orgs.go), [Sessions] (ssh_auth.go, live.go), [Identity],
      [IdentityKeys], [Revocation] (sql_ids.go, sql_keys.go, sql_orgs.go,
      keys_suspend.go, keys_personal.go), [SandboxStore] (sql_sandboxes.go),
      [Quota] (gateway.go, lost.go), [Secrets] (secrets.go,
      registry_logins.go, sql_jobs.go); [SignIns] (accounts.go's throttle),
      [Base64] and [SshKeys] (sshkey.go), [Accounts] (the handlers of
      accounts.go, access.go, orgs.go, keys_suspend.go, keys_personal.go and
      policies.go, as programs of steps) and [AccountsSafe] (a logic of such
      programs, and what no request does).
    - Creates: [ImageRef] (image/registry.go), [Requests] and [Creates]
      (sandboxes.go, egress_groups.go, policies.go, metrics_export.go).
    - Services: [ServiceSpec], [Services], [Rollout], [Converge],
      [ServiceWorld] (services.go, services_controller.go,
      services_health.go, services_store.go, router_http.go).
    - Jobs: [Agents] (agents/), [Jobs] (jobs.go, sql_jobs.go,
      api/jobs_types.go), [JobRun] and [JobEnds] (jobrun.go as a step
      relation, and what holds over it), [JobSubmit].
    - The user's side: [Config] (policy/config.go, profile.go), [ConfigTrust]
      (trust.go), [ConfigLoad] (load.go, keys.go), [ConfigSafe] (what the layers
      may do), [RunConfig] (cli/config.go, timezone.go, creds/creds.go and
      run.go's buildEnv), [RunSafe] (from the files to the request).
    - Images: [HostFs] (the file system calls as they resolve paths), [Unpack]
      (image/unpack.go, and what rootfs.go writes into the tree) and
      [UnpackSafe] (that it stays in the tree).
    - [GatewayExamples], [CreateExamples], [JobExamples], [ConfigExamples],
      [UnpackExamples], [AccountExamples]: theorems applied to small concrete
      states, and concrete runs that show what the code does.

    ** How state and operations correspond to the code

    A Go struct is a Record with its fields; a slice whose nil and empty
    differ is an option; a map is a [gmap], visited in an order that is an
    argument ([range]); a pointer that two goroutines hold is an index into a
    heap. A handler is a function to a [result] of its status code. What a lock
    makes one section is one step; between two steps anything else may happen,
    so interleavings are lists of events ([Daemon], [NodeRoom], [ServiceWorld],
    [JobRun], [Quota], [GuestSession], [Accounts]). A database transaction is
    one step, and a statement what it does to the rows. Machine integers wrap where the code
    lets them ([wrap64], [secs]). A handler of [Accounts] is a tree of the
    transactions, reads and looks at the clock it makes ([prog]): each is given
    a moment ([instant]), at which the database may answer, fail, or commit and
    not be heard, and a state that any other request may have changed.

    ** What the theorems show

    - Confinement: what a request or a project's file may widen
      ([network_never_widens], [project_file_tightens],
      [project_cannot_widen_a_run], [prod_holds]), what a
      sandbox reaches by name, address and lookup ([proxy_only_permitted],
      [dns_no_exfiltration]), and where an image's layers and a kit write
      ([unpack_stays_in_root], [resolve_is_the_guests]).
    - Isolation of users: [forwarded_is_authorised], [router_reveals_nothing],
      [tenant_wall], [create_uses_only_its_own], [sealed_value_stays_put],
      [revoked_for_good], [keys_never_outlive_root].
    - Who gets in and what they come to: [sign_in_is_proven], [no_escalation],
      [members_change_by_owners], [guesses_bounded], [kept_line_is_the_key].
    - State that stays sound under any interleaving: [live_sandboxes_exclusive],
      [services_sound], [node_never_overcommitted], [quota_never_exceeded].
    - Nothing lost and nothing left: [created_is_owned_or_deleted],
      [no_replica_forgotten], [job_leaves_no_sandbox], [session_delivery],
      [restore_matches].
    - Ends: [create_ends], [job_ends], [pass_settles], [service_converges].

    ** Bounds and fuel

    Loops that Go bounds are bounded as it bounds them: a create's attempts by
    the nodes it has not tried ([create_ends] shows one more than there are
    nodes is enough), a pass's steps by its own constant ([pass_settles] shows
    it is never reached), symbolic links by forty hops. Parsers recurse on the
    bytes that remain ([sni_terminates]). No definition is partial for want of
    fuel in a theorem's statement without a theorem that enough fuel gives the
    result.

    ** What is assumed, and why

    Cryptography, randomness, clocks, net/url, net/netip's parser, YAML and
    JSON decoding, the backend, the store's failures and the nodes' replies
    are arguments or events. AES-GCM is a class with the two laws the code
    relies on ([AEADLaws]); PBKDF2 and SHA-256 are functions of which nothing
    is assumed; Unicode's tables a class with ASCII's ([Unicode]).
    A row count does not overflow; ids are unique as their keys in the schema
    make them.

    ** Not modelled

    The command line and Studio (text, prompts and HTML over the API); HTTP
    decoding and encoding, TLS, x/crypto's SSH; the Firecracker, macOS and
    fake backends (processes, ioctls and files of the host); registry pulls,
    mkfs and the cache of built disks; metrics and their export; mail;
    migrations and the file store they came from; src/_old, which nothing
    builds. Each is listed in the manifest with its reason. *)
From Stdlib Require Export Ascii.
From stdpp Require Export base tactics list gmap strings sorting.
From Stdlib Require Export ZArith Lia SpecFloat Zify ZifyBool ZifyNat ZifyInst.

Open Scope Z_scope.

(** ** Results

    Go's [(T, error)] pairs. [Ok v] is [(v, nil)] and [Err e] is [(_, e)]
    with [e] not nil; the error types are inductive types with one
    constructor per error the code makes. *)
Inductive result (E A : Type) : Type :=
| Ok (v : A)
| Err (e : E).
Arguments Ok {E A} v.
Arguments Err {E A} e.

#[export] Instance result_ret {E} : MRet (result E) := fun A v => Ok v.
#[export] Instance result_bind {E} : MBind (result E) :=
  fun A B f r => match r with Ok v => f v | Err e => Err e end.

Definition is_ok {E A} (r : result E A) : bool :=
  match r with Ok _ => true | Err _ => false end.

(** [if cond { return err }]. *)
Definition reject_if {E} (cond : bool) (e : E) : result E unit :=
  if cond then Err e else Ok tt.

Definition of_option {E A} (o : option A) (e : E) : result E A :=
  match o with Some v => Ok v | None => Err e end.

(** Proves one disjunct of the goal by arithmetic. *)
Ltac pick_lia :=
  lazymatch goal with
  | |- _ ∨ _ => first [left; pick_lia | right; pick_lia]
  | _ => lia
  end.

Lemma bind_ok {E A B} (r : result E A) (f : A → result E B) b :
  r ≫= f = Ok b ↔ ∃ a, r = Ok a ∧ f a = Ok b.
Proof. destruct r; cbn; naive_solver. Qed.

Lemma bind_err {E A B} (r : result E A) (f : A → result E B) e :
  r ≫= f = Err e ↔ r = Err e ∨ ∃ a, r = Ok a ∧ f a = Err e.
Proof. destruct r; cbn; naive_solver. Qed.

Lemma reject_if_ok {E} c (e : E) u : reject_if c e = Ok u ↔ c = false.
Proof. destruct c, u; cbn; naive_solver. Qed.

Lemma reject_if_err {E} c (e e' : E) : reject_if c e = Err e' ↔ c = true ∧ e = e'.
Proof. destruct c; cbn; naive_solver. Qed.

(** A guard, then the rest. *)
Lemma guard_ok {E A} c (e : E) (r : result E A) v :
  (reject_if c e ≫= λ _, r) = Ok v ↔ c = false ∧ r = Ok v.
Proof. destruct c; cbn; naive_solver. Qed.

Lemma of_option_ok {E A} (o : option A) (e : E) v : of_option o e = Ok v ↔ o = Some v.
Proof. destruct o; cbn; naive_solver. Qed.

Lemma of_option_err {E A} (o : option A) (e e' : E) :
  of_option o e = Err e' ↔ o = None ∧ e = e'.
Proof. destruct o; cbn; naive_solver. Qed.

(** ** Lists *)

(** A boolean filter is a sublist, element by element. *)
Lemma bfilter_sublist {A} (f : A → bool) l : List.filter f l `sublist_of` l.
Proof. induction l as [|x l IH]; cbn; [constructor|]. by destruct (f x); constructor. Qed.

Lemma bfilter_nodup {A} (f : A → bool) l : NoDup l → NoDup (List.filter f l).
Proof. intros H. exact (sublist_NoDup _ _ H (bfilter_sublist f l)). Qed.

Lemma bfilter_nodup_key {A B} (g : A → B) (f : A → bool) l :
  NoDup (g <$> l) → NoDup (g <$> List.filter f l).
Proof.
  induction l as [|x l IH]; cbn; [done|]. intros [Hx Hl]%NoDup_cons.
  destruct (f x); cbn; [|auto]. apply NoDup_cons. split; [|auto].
  intros (y & Hgy & Hy)%list_elem_of_fmap. apply Hx, list_elem_of_fmap. exists y.
  split; [done|]. apply list_elem_of_In, filter_In in Hy as [Hy _]. by apply list_elem_of_In.
Qed.

Lemma elem_of_bfilter {A} (f : A → bool) l x : x ∈ List.filter f l ↔ x ∈ l ∧ f x = true.
Proof. rewrite !list_elem_of_In. apply filter_In. Qed.

Create HintDb go discriminated.
Create Rewrite HintDb go_results.
#[export] Hint Rewrite @guard_ok @bind_ok @bind_err @reject_if_ok @reject_if_err
  @of_option_ok @of_option_err : go_results.

(** Takes a hypothesis [r = Ok v] (or [Err e]) about a chain of guards apart. *)
Ltac inv_result H :=
  repeat first
    [ progress simplify_eq/=
    | rewrite bind_ok in H; destruct H as (? & ? & H)
    | rewrite reject_if_ok in H ];
  simplify_eq/=.

(** Splits on the innermost [match] of the goal or of a hypothesis. *)
Ltac split_match :=
  match goal with
  | |- context [match ?x with _ => _ end] =>
      lazymatch x with context [match _ with _ => _ end] => fail | _ => destruct x eqn:? end
  end.
Ltac split_match_in H :=
  match type of H with
  | context [match ?x with _ => _ end] =>
      lazymatch x with context [match _ with _ => _ end] => fail | _ => destruct x eqn:? end
  end.
Ltac split_matches := repeat (split_match; try done).
Ltac split_matches_in H := repeat (split_match_in H; simplify_eq/=; try done).

(** Turns boolean hypotheses and goals into propositions. *)
Ltac bool_simpl :=
  repeat match goal with
  | H : negb _ = true |- _ => apply negb_true_iff in H
  | H : negb _ = false |- _ => apply negb_false_iff in H
  | H : (_ && _) = true |- _ => apply andb_true_iff in H as [? ?]
  | H : (_ || _) = false |- _ => apply orb_false_iff in H as [? ?]
  | H : bool_decide _ = true |- _ => apply bool_decide_eq_true in H
  | H : bool_decide _ = false |- _ => apply bool_decide_eq_false in H
  | H : (_ =? _)%Z = true |- _ => apply Z.eqb_eq in H
  | H : (_ =? _)%Z = false |- _ => apply Z.eqb_neq in H
  | H : (_ <? _)%Z = true |- _ => apply Z.ltb_lt in H
  | H : (_ <? _)%Z = false |- _ => apply Z.ltb_ge in H
  | H : (_ <=? _)%Z = true |- _ => apply Z.leb_le in H
  | H : (_ <=? _)%Z = false |- _ => apply Z.leb_gt in H
  | H : (_ >? _)%Z = true |- _ => apply Z.gtb_lt in H
  | H : (_ >? _)%Z = false |- _ => rewrite Z.gtb_ltb in H; apply Z.ltb_ge in H
  end.

(** Decides the test of the goal's first [if] by arithmetic. *)
Ltac if_false :=
  match goal with |- context [if ?b then _ else _] =>
    assert (b = false) as -> by lia end.
Ltac if_true :=
  match goal with |- context [if ?b then _ else _] =>
    assert (b = true) as -> by lia end.

(** ** Sums over maps *)
Definition msum {K A} `{Countable K} (f : K → A → Z) (m : gmap K A) : Z :=
  foldr Z.add 0 ((λ kx, f kx.1 kx.2) <$> map_to_list m).

Lemma foldr_add_perm (l k : list Z) : l ≡ₚ k → foldr Z.add 0 l = foldr Z.add 0 k.
Proof. induction 1; cbn; lia. Qed.

Section msum.
Context {K A : Type} `{Countable K}.
Implicit Types (f g : K → A → Z) (m : gmap K A).

Lemma msum_empty f : msum f ∅ = 0.
Proof. unfold msum. by rewrite map_to_list_empty. Qed.

Lemma msum_insert f m k x : m !! k = None → msum f (<[k := x]> m) = f k x + msum f m.
Proof.
  intros Hk. unfold msum. by rewrite (foldr_add_perm _ _ (fmap_Permutation _ _ _ (map_to_list_insert m k x Hk))).
Qed.

Lemma msum_delete f m k x : m !! k = Some x → msum f m = f k x + msum f (delete k m).
Proof.
  intros Hk. rewrite <- (insert_delete_id m k x Hk) at 1. apply msum_insert, lookup_delete_eq.
Qed.

Lemma msum_insert_over f m k x y : m !! k = Some x → msum f (<[k := y]> m) = msum f m - f k x + f k y.
Proof.
  intros Hk. rewrite (msum_delete f m k x Hk). rewrite <- insert_delete_eq. rewrite msum_insert by apply lookup_delete_eq. lia.
Qed.

Lemma msum_le f g m : (∀ k x, m !! k = Some x → f k x ≤ g k x) → msum f m ≤ msum g m.
Proof.
  induction m as [|k x m Hk IH] using map_ind; intros Hle; [done|]. rewrite !msum_insert by done.
  specialize (Hle k x (lookup_insert_eq m k x)) as Hx.
  assert (msum f m ≤ msum g m); [|lia]. apply IH. intros k' x' Hk'. apply Hle. rewrite lookup_insert_ne; [done|]. congruence.
Qed.

Lemma msum_ext f g m : (∀ k x, m !! k = Some x → f k x = g k x) → msum f m = msum g m.
Proof. intros He. apply Z.le_antisymm; apply msum_le; intros k x Hk; by rewrite (He k x Hk). Qed.

Lemma msum_nonneg f m : (∀ k x, m !! k = Some x → 0 ≤ f k x) → 0 ≤ msum f m.
Proof.
  intros Hf. transitivity (msum (λ _ _, 0) m); [|by apply msum_le].
  induction m as [|k x m Hk IH] using map_ind; [by rewrite msum_empty|]. rewrite msum_insert by done.
  assert (0 ≤ msum (λ _ _, 0) m); [|lia]. apply IH. intros k' x' Hk'. apply Hf. rewrite lookup_insert_ne; [done|]. congruence.
Qed.

(** A map that lost keys, and whose values weigh no more. *)
Lemma msum_sub f g m m' :
  (∀ k x, m !! k = Some x → 0 ≤ g k x) → (∀ k x', m' !! k = Some x' → ∃ x, m !! k = Some x ∧ f k x' ≤ g k x) → msum f m' ≤ msum g m.
Proof.
  revert m. induction m' as [|k x' m' Hk IH] using map_ind; intros m Hf Hm; [rewrite msum_empty; by apply msum_nonneg|].
  destruct (Hm k x' (lookup_insert_eq _ _ _)) as (x & Hx & Hle). rewrite msum_insert, (msum_delete g m k x) by done.
  assert (msum f m' ≤ msum g (delete k m)); [|lia]. apply IH.
  - intros j y [_ Hy]%lookup_delete_Some. by apply Hf.
  - intros j y' Hy'. assert (k ≠ j) by congruence. destruct (Hm j y') as (y & Hy & ?); [by rewrite lookup_insert_ne|].
    exists y. by rewrite lookup_delete_ne.
Qed.
End msum.

(** ** Integers

    Go's [int] and [int64] are 64-bit two's complement. [wrap64] is the value
    an operation leaves when its mathematical result is [z]. *)
Definition min_int64 : Z := - 2 ^ 63.
Definition max_int64 : Z := 2 ^ 63 - 1.
Definition wrap64 (z : Z) : Z := (z + 2 ^ 63) mod 2 ^ 64 - 2 ^ 63.
Definition in_int64 (z : Z) : Prop := min_int64 ≤ z ≤ max_int64.

Lemma wrap64_id z : in_int64 z → wrap64 z = z.
Proof.
  unfold in_int64, wrap64, min_int64, max_int64. intros ?.
  rewrite Z.mod_small; lia.
Qed.

Lemma wrap64_range z : in_int64 (wrap64 z).
Proof.
  unfold in_int64, wrap64, min_int64, max_int64.
  pose proof (Z.mod_pos_bound (z + 2 ^ 63) (2 ^ 64) ltac:(lia)). lia.
Qed.

(** Go integer subtraction and addition on [int]. *)
Definition int_sub (a b : Z) : Z := wrap64 (a - b).
Definition int_add (a b : Z) : Z := wrap64 (a + b).

(** Big-endian unsigned integers, as [encoding/binary]. *)
Definition byte_at (z : Z) (k : Z) : Z := Z.land (Z.shiftr z (8 * k)) 255.
Definition be16 (z : Z) : list Z := [byte_at z 1; byte_at z 0].
Definition be32 (z : Z) : list Z := [byte_at z 3; byte_at z 2; byte_at z 1; byte_at z 0].
Definition be64 (z : Z) : list Z :=
  [byte_at z 7; byte_at z 6; byte_at z 5; byte_at z 4;
   byte_at z 3; byte_at z 2; byte_at z 1; byte_at z 0].
Definition from_be (bs : list Z) : Z := foldl (λ acc b, acc * 256 + b) 0 bs.

(** [len(b)]. *)
Definition blen (b : list Z) : Z := Z.of_nat (length b).

Lemma blen_nonneg b : 0 ≤ blen b.
Proof. unfold blen. lia. Qed.

Lemma blen_app a b : blen (a ++ b) = blen a + blen b.
Proof. unfold blen. rewrite length_app. lia. Qed.

Lemma blen_cons x b : blen (x :: b) = 1 + blen b.
Proof. unfold blen. rewrite length_cons. lia. Qed.

Definition is_byte (b : Z) : Prop := 0 ≤ b < 256.

Lemma byte_at_div z k : 0 ≤ k → byte_at z k = (z / 2 ^ (8 * k)) mod 256.
Proof.
  intros. unfold byte_at. rewrite Z.shiftr_div_pow2 by lia.
  change 255 with (Z.ones 8). by rewrite Z.land_ones.
Qed.

Lemma byte_at_range z k : 0 ≤ k → is_byte (byte_at z k).
Proof. intros. rewrite byte_at_div by done. apply Z.mod_pos_bound; lia. Qed.

Lemma from_be16 z : from_be (be16 z) = z mod 2 ^ 16.
Proof.
  unfold from_be, be16; cbn. rewrite !byte_at_div by lia.
  Z.to_euclidean_division_equations; lia.
Qed.

Lemma from_be32 z : from_be (be32 z) = z mod 2 ^ 32.
Proof.
  unfold from_be, be32; cbn. rewrite !byte_at_div by lia.
  Z.to_euclidean_division_equations; lia.
Qed.

(** The low [n] bytes of [z]. *)
Fixpoint be_bytes (n : nat) (z : Z) : list Z :=
  match n with
  | O => []
  | S n => be_bytes n (z / 256) ++ [z mod 256]
  end.

Lemma from_be_bytes n z : from_be (be_bytes n z) = z mod 256 ^ Z.of_nat n.
Proof.
  revert z. induction n as [|n IH]; intros z; [by rewrite Z.mod_1_r|].
  cbn [be_bytes]. unfold from_be in *. rewrite foldl_app, IH. cbn [foldl].
  rewrite Nat2Z.inj_succ, Z.pow_succ_r, Z.rem_mul_r by lia. lia.
Qed.

Lemma from_be64 z : from_be (be64 z) = z mod 2 ^ 64.
Proof.
  change (2 ^ 64) with (256 ^ Z.of_nat 8). rewrite <- from_be_bytes. f_equal.
  cbn [be_bytes app]. unfold be64. rewrite !byte_at_div by lia.
  rewrite !Z.div_div by lia. change (2 ^ (8 * 0)) with 1. by rewrite Z.div_1_r.
Qed.

Lemma be16_bytes z : Forall is_byte (be16 z).
Proof. unfold be16. repeat constructor; apply byte_at_range; lia. Qed.

Lemma be32_bytes z : Forall is_byte (be32 z).
Proof. unfold be32. repeat constructor; apply byte_at_range; lia. Qed.

Lemma land_shiftl_low a b k : 0 ≤ k → 0 ≤ b < 2 ^ k → Z.land (Z.shiftl a k) b = 0.
Proof.
  intros Hk Hb. apply Z.bits_inj'. intros n Hn.
  rewrite Z.land_spec, Z.bits_0. destruct (Z.lt_ge_cases n k).
  - by rewrite Z.shiftl_spec_low.
  - rewrite <- (Z.mod_small b (2 ^ k)) by done.
    by rewrite Z.mod_pow2_bits_high, andb_false_r by lia.
Qed.

(** [hi<<k | lo] with [lo] in the low [k] bits. *)
Lemma lor_shiftl a b k : 0 ≤ k → 0 ≤ b < 2 ^ k → Z.lor (Z.shiftl a k) b = a * 2 ^ k + b.
Proof.
  intros Hk Hb. pose proof (Z.add_lor_land (Z.shiftl a k) b) as H.
  rewrite land_shiftl_low in H by done. rewrite Z.shiftl_mul_pow2 in * by done. lia.
Qed.

#[export] Hint Resolve be16_bytes be32_bytes wrap64_range : go.

(** ** Time

    A [time.Time] is its distance in nanoseconds from the zero [Time], so
    [IsZero] is [t = 0]; a [time.Duration] is an [int64] of nanoseconds.
    [Time.Sub] saturates, a product of durations wraps. *)
Definition second : Z := 10 ^ 9.
Definition minute : Z := 60 * second.
Definition zero_time : Z := 0.
Definition time_sub (a b : Z) : Z := Z.max min_int64 (Z.min max_int64 (a - b)).
(** [time.Duration(n) * time.Second]. *)
Definition secs (n : Z) : Z := wrap64 (n * second).

Lemma secs_small n : 0 ≤ n ≤ 9 * 10 ^ 9 → secs n = n * second.
Proof.
  intros. unfold secs. apply wrap64_id.
  unfold in_int64, min_int64, max_int64.
  change second with 1000000000. lia.
Qed.

Lemma time_sub_ge a b d : in_int64 d → d ≠ min_int64 → d ≤ time_sub a b ↔ d ≤ a - b.
Proof. unfold time_sub, in_int64, min_int64, max_int64. lia. Qed.

(** ** IEEE 754 doubles

    [float64] is the standard library's binary64 specification. *)
Abbreviation float64 := spec_float.
Definition fadd : float64 → float64 → float64 := SFadd 53 1024.
Definition fsub : float64 → float64 → float64 := SFsub 53 1024.
Definition fltb : float64 → float64 → bool := SFltb.
Definition fleb : float64 → float64 → bool := SFleb.
Definition feqb : float64 → float64 → bool := SFeqb.
Definition fzero : float64 := S754_zero false.
(** The integer [z], [|z| < 2^53], as a double. *)
Definition float_of_Z (z : Z) : float64 := binary_normalize 53 1024 z 0 false.
(** Go's [min] on two doubles: NaN if either is, and [-0 < +0]. *)
Definition fmin (a b : float64) : float64 :=
  match a, b with
  | S754_nan, _ | _, S754_nan => S754_nan
  | S754_zero sa, S754_zero sb => S754_zero (sa || sb)
  | _, _ => if fltb b a then b else a
  end.
Definition is_nan (a : float64) : bool :=
  match a with S754_nan => true | _ => false end.

#[export] Instance float64_eq_dec : EqDecision float64.
Proof. solve_decision. Defined.

(** Comparisons of doubles that are not NaN are reflexive and transitive. *)
Lemma fleb_refl a : is_nan a = false → fleb a a = true.
Proof.
  destruct a as [s|s| |s m e]; try done; intros _; unfold fleb, SFleb; cbn.
  - by destruct s.
  - rewrite Z.compare_refl.
    change (Pos.compare_cont Eq m m) with (Pos.compare m m).
    rewrite Pos.compare_refl. by destruct s.
Qed.

Lemma fleb_nan_l a b : fleb a b = true → is_nan a = false ∧ is_nan b = false.
Proof. by destruct a, b. Qed.

Lemma fleb_trans a b c : fleb a b = true → fleb b c = true → fleb a c = true.
Proof.
  unfold fleb, SFleb.
  destruct a as [s1|s1| |s1 m1 e1], b as [s2|s2| |s2 m2 e2], c as [s3|s3| |s3 m3 e3];
    cbn; try done;
    try (destruct s1, s2; cbn; done); try (destruct s2, s3; cbn; done);
    try (destruct s1, s3; cbn; done);
    try (destruct s1, s2, s3; cbn; done).
  change (Pos.compare_cont Eq m1 m2) with (Pos.compare m1 m2).
  change (Pos.compare_cont Eq m2 m3) with (Pos.compare m2 m3).
  change (Pos.compare_cont Eq m1 m3) with (Pos.compare m1 m3).
  destruct s1, s2, s3; cbn; try done;
    destruct (Z.compare_spec e1 e2), (Z.compare_spec e2 e3), (Z.compare_spec e1 e3);
    try done; try lia;
    destruct (Pos.compare_spec m1 m2), (Pos.compare_spec m2 m3), (Pos.compare_spec m1 m3);
    cbn; try done; lia.
Qed.

Lemma fmin_le_l a b : is_nan a = false → is_nan b = false → fleb (fmin a b) a = true.
Proof.
  intros Ha Hb. unfold fmin.
  destruct (fltb b a) eqn:E.
  - assert (fleb b a = true).
    { unfold fltb, fleb, SFltb, SFleb in *. by destruct (SFcompare b a) as [[]|]. }
    destruct a as [[]| | |], b as [[]| | |]; done.
  - pose proof (fleb_refl a Ha).
    destruct a as [[]| | |], b as [[]| | |]; done.
Qed.

(** Not less, the other way round. *)
Lemma fltb_false a b :
  is_nan a = false → is_nan b = false → fltb b a = false → fleb a b = true.
Proof.
  intros Ha Hb. unfold fltb, fleb, SFltb, SFleb.
  destruct a as [s1|s1| |s1 m1 e1], b as [s2|s2| |s2 m2 e2]; cbn in *; try done;
    try (by destruct s1, s2); try (by destruct s1); try (by destruct s2).
  change (Pos.compare_cont Eq m1 m2) with (Pos.compare m1 m2).
  change (Pos.compare_cont Eq m2 m1) with (Pos.compare m2 m1).
  destruct s1, s2; cbn; try done;
    destruct (Z.compare_spec e1 e2), (Z.compare_spec e2 e1); try done; try lia;
    destruct (Pos.compare_spec m1 m2), (Pos.compare_spec m2 m1); cbn; try done; lia.
Qed.

Lemma fmin_le_r a b : is_nan a = false → is_nan b = false → fleb (fmin a b) b = true.
Proof.
  intros Ha Hb. unfold fmin.
  destruct (fltb b a) eqn:E.
  - pose proof (fleb_refl b Hb).
    destruct a as [[]| | |], b as [[]| | |]; done.
  - pose proof (fltb_false a b Ha Hb E).
    destruct a as [[]| | |], b as [[]| | |]; done.
Qed.

Lemma fmin_not_nan a b : is_nan a = false → is_nan b = false → is_nan (fmin a b) = false.
Proof.
  intros Ha Hb. destruct (fleb_nan_l _ _ (fmin_le_l a b Ha Hb)). done.
Qed.
