(* ===== verification/GoSort.v ===== *)
(** * Go's stable sort

    [sort.SliceStable] and [slices.SortFunc] with a [less] that is a strict
    weak order: the result is the one list that is sorted, a permutation and
    keeps equivalent elements in order, which insertion sort computes. *)
From S2P Require Import Prelude.

(** A [less] function as the sort package requires it. *)
Class StrictWeakOrder {A} (less : A → A → bool) : Prop := {
  swo_irrefl x : less x x = false;
  swo_trans x y z : less x y = true → less y z = true → less x z = true;
  swo_incomp x y z : less x y = false → less y z = false → less x z = false
}.

Section sort.
Context {A : Type} (less : A → A → bool).

Fixpoint insert_stable (x : A) (l : list A) : list A :=
  match l with
  | [] => [x]
  | y :: t => if less y x then y :: insert_stable x t else x :: y :: t
  end.

Definition sort_stable (l : list A) : list A := foldr insert_stable [] l.

Definition not_after (x y : A) : Prop := less y x = false.

Lemma insert_stable_perm x l : insert_stable x l ≡ₚ x :: l.
Proof.
  induction l as [|y t IH]; cbn; [done|].
  destruct (less y x); [|done]. rewrite IH. constructor.
Qed.

Lemma sort_stable_perm l : sort_stable l ≡ₚ l.
Proof.
  induction l as [|x t IH]; cbn; [done|].
  by rewrite insert_stable_perm, IH.
Qed.

Lemma elem_of_sort_stable x l : x ∈ sort_stable l ↔ x ∈ l.
Proof. by rewrite sort_stable_perm. Qed.

Lemma sort_stable_length l : length (sort_stable l) = length l.
Proof. by rewrite sort_stable_perm. Qed.

Lemma sort_stable_nil_inv l : sort_stable l = [] → l = [].
Proof.
  intros H. pose proof (sort_stable_perm l) as Hp.
  rewrite H in Hp. by apply Permutation_nil in Hp.
Qed.

Context `{!StrictWeakOrder less}.

#[local] Instance not_after_trans : Transitive not_after.
Proof. intros x y z H1 H2. unfold not_after in *. eapply swo_incomp; eauto. Qed.

Lemma less_asym x y : less x y = true → less y x = false.
Proof.
  intros H. destruct (less y x) eqn:E; [|done].
  pose proof (swo_trans _ _ _ H E) as H'. by rewrite swo_irrefl in H'.
Qed.

Lemma insert_stable_sorted x l :
  StronglySorted not_after l → StronglySorted not_after (insert_stable x l).
Proof.
  induction l as [|y t IH]; cbn; intros Hs; [repeat constructor|].
  apply StronglySorted_cons in Hs as [Hf Hs].
  destruct (less y x) eqn:E.
  - apply StronglySorted_cons. split; [|auto].
    rewrite insert_stable_perm. constructor; [|done]. by apply less_asym.
  - apply StronglySorted_cons. split; [|by apply StronglySorted_cons].
    constructor; [done|]. eapply Forall_impl; [done|]. cbn; intros z Hz.
    by apply (not_after_trans x y z).
Qed.

Lemma sort_stable_sorted l : StronglySorted not_after (sort_stable l).
Proof. induction l; cbn; [constructor|by apply insert_stable_sorted]. Qed.

(** Nothing in the list sorts before the first of the sorted list. *)
Lemma sort_stable_head l h t :
  sort_stable l = h :: t → h ∈ l ∧ ∀ y, y ∈ l → less y h = false.
Proof.
  intros H. pose proof (sort_stable_sorted l) as Hs. rewrite H in Hs.
  apply StronglySorted_cons in Hs as [Hf _]. rewrite Forall_forall in Hf.
  split.
  - apply elem_of_sort_stable. rewrite H. constructor.
  - intros y Hy. apply elem_of_sort_stable in Hy. rewrite H in Hy.
    apply list_elem_of_In in Hy as [->|Hy]; [apply swo_irrefl|].
    apply Hf. by apply list_elem_of_In.
Qed.

(** Where elements that compare equal are equal, the order of the input
    does not matter. *)
Lemma sort_stable_unique l l' :
  (∀ x y, x ∈ l → y ∈ l → less x y = false → less y x = false → x = y) →
  l ≡ₚ l' → sort_stable l = sort_stable l'.
Proof.
  intros Heq Hp. apply (StronglySorted_unique_strong not_after).
  - intros x1 x2 H1 H2 H12 H21.
    rewrite elem_of_sort_stable in H1. rewrite elem_of_sort_stable, <- Hp in H2.
    by apply Heq.
  - apply sort_stable_sorted.
  - apply sort_stable_sorted.
  - by rewrite !sort_stable_perm.
Qed.

(** The sort is what [sort.Slice] gives too when no two elements are
    equivalent: any sorted permutation is this one. *)
Lemma sorted_perm_is_sort l l' :
  (∀ x y, x ∈ l → y ∈ l → less x y = false → less y x = false → x = y) →
  l' ≡ₚ l → StronglySorted not_after l' → l' = sort_stable l.
Proof.
  intros Heq Hp Hs. apply (StronglySorted_unique_strong not_after); auto.
  - intros x1 x2 H1 H2 H12 H21.
    rewrite Hp in H1. rewrite elem_of_sort_stable in H2. by apply Heq.
  - apply sort_stable_sorted.
  - by rewrite sort_stable_perm.
Qed.
End sort.

(** Orders built from keys: compare a [Z] key (greater first), then another
    order. *)
Lemma swo_lex_gt {A} (key : A → Z) (less : A → A → bool) :
  StrictWeakOrder less →
  StrictWeakOrder (λ a b, if negb (key a =? key b) then key a >? key b else less a b).
Proof.
  intros Hs. split.
  - intros x. rewrite Z.eqb_refl. apply swo_irrefl.
  - intros x y z.
    destruct (Z.eqb_spec (key x) (key y)), (Z.eqb_spec (key y) (key z)),
      (Z.eqb_spec (key x) (key z)); cbn; try congruence; try lia; eauto using swo_trans.
  - intros x y z.
    destruct (Z.eqb_spec (key x) (key y)), (Z.eqb_spec (key y) (key z)),
      (Z.eqb_spec (key x) (key z)); cbn; try congruence; try lia; eauto using swo_incomp.
Qed.

(** The same with a boolean key, true first. *)
Lemma swo_lex_bool {A} (key : A → bool) (less : A → A → bool) :
  StrictWeakOrder less →
  StrictWeakOrder (λ a b, if negb (eqb (key a) (key b)) then key a else less a b).
Proof.
  intros Hs. split.
  - intros x. rewrite eqb_reflx. apply swo_irrefl.
  - intros x y z. pose proof (swo_trans x y z).
    destruct (key x), (key y), (key z); cbn; eauto; congruence.
  - intros x y z. pose proof (swo_incomp x y z).
    destruct (key x), (key y), (key z); cbn; eauto; congruence.
Qed.

(** Go's [<] on strings, bytewise. *)
Definition str_ltb (a b : string) : bool := String.ltb a b.

Lemma str_ltb_leb a b : str_ltb a b = negb (String.leb b a).
Proof.
  unfold str_ltb, String.ltb, String.leb. rewrite String.compare_antisym.
  by destruct (String.compare b a).
Qed.

Lemma str_ltb_false a b : str_ltb a b = false ↔ String.le b a.
Proof.
  rewrite str_ltb_leb, negb_false_iff. unfold String.le.
  destruct (String.leb b a); naive_solver.
Qed.

Lemma str_ltb_true a b : str_ltb a b = true ↔ ¬ String.le b a.
Proof. rewrite <- str_ltb_false. destruct (str_ltb a b); naive_solver. Qed.

#[export] Instance str_ltb_swo : StrictWeakOrder str_ltb.
Proof.
  assert (∀ x y z, str_ltb x y = false → str_ltb y z = false → str_ltb x z = false) as Hi.
  { intros x y z. rewrite !str_ltb_false. intros. by etrans. }
  split; [|  |done].
  - intros x. by apply str_ltb_false.
  - intros x y z Hxy Hyz. destruct (str_ltb x z) eqn:E; [done|].
    assert (str_ltb z y = false).
    { apply str_ltb_false. apply str_ltb_true in Hyz.
      destruct (total String.le y z); [done|]. done. }
    by rewrite (Hi x z y) in Hxy.
Qed.

Lemma str_ltb_total a b : str_ltb a b = false → str_ltb b a = false → a = b.
Proof. rewrite !str_ltb_false. intros. by apply (anti_symm String.le). Qed.

Lemma swo_on {A B} (f : A → B) (less : B → B → bool) :
  StrictWeakOrder less → StrictWeakOrder (λ a b, less (f a) (f b)).
Proof.
  intros H. split; intros *;
    [apply swo_irrefl | apply swo_trans | apply swo_incomp].
Qed.
