(* ===== verification/GoStrings.v ===== *)
(** * Go strings

    A Go string is a sequence of bytes: Rocq's [string], whose characters are
    bytes. This file models what the sources use of the [strings] package and
    the character classes of their regular expressions. The two functions
    that consult the Unicode tables when a string has a byte above 0x7f,
    [strings.ToLower] and [strings.TrimSpace], take that part from the class
    [Unicode]; on ASCII strings they are defined here. *)
From S2P Require Import Prelude.

Abbreviation chars := String.list_ascii_of_string.
Abbreviation of_chars := String.string_of_list_ascii.

Lemma chars_of_chars l : chars (of_chars l) = l.
Proof. apply String.list_ascii_of_string_of_list_ascii. Qed.

Lemma of_chars_chars s : of_chars (chars s) = s.
Proof. apply String.string_of_list_ascii_of_string. Qed.

Lemma chars_app a b : chars (a +:+ b) = chars a ++ chars b.
Proof.
  induction a as [|c a IH]; [done|].
  change (c :: chars (a +:+ b) = c :: (chars a ++ chars b)). by rewrite IH.
Qed.

#[export] Instance chars_inj : Inj (=) (=) chars.
Proof. intros a b H. by rewrite <- (of_chars_chars a), H, of_chars_chars. Qed.

Lemma of_chars_app a b : of_chars (a ++ b) = of_chars a +:+ of_chars b.
Proof. apply (inj chars). by rewrite chars_app, !chars_of_chars. Qed.

Lemma str_app_assoc (a b c : string) : a +:+ b +:+ c = (a +:+ b) +:+ c.
Proof. apply (inj chars). by rewrite !chars_app, (assoc_L (++)). Qed.

Lemma length_chars s : length (chars s) = String.length s.
Proof. induction s; cbn; congruence. Qed.

Create Rewrite HintDb chars.
#[export] Hint Rewrite chars_of_chars of_chars_chars chars_app of_chars_app : chars.

Definition strlen (s : string) : Z := Z.of_nat (String.length s).

(** ** Bytes and character classes *)
Definition code (c : ascii) : Z := Z.of_N (N_of_ascii c).
Definition char_of (z : Z) : ascii := ascii_of_N (Z.to_N z).

Lemma code_range c : 0 ≤ code c < 256.
Proof.
  unfold code. pose proof (N_ascii_bounded c). lia.
Qed.

Lemma char_of_code c : char_of (code c) = c.
Proof. unfold char_of, code. rewrite N2Z.id. apply ascii_N_embedding. Qed.

Lemma code_char_of z : 0 ≤ z < 256 → code (char_of z) = z.
Proof. intros. unfold char_of, code. rewrite N_ascii_embedding; lia. Qed.

Definition in_range (lo hi : Z) (c : ascii) : bool := (lo <=? code c) && (code c <=? hi).
Definition is_lower : ascii → bool := in_range 97 122.
Definition is_upper : ascii → bool := in_range 65 90.
Definition is_digit : ascii → bool := in_range 48 57.
Definition is_hex_lower (c : ascii) : bool := is_digit c || in_range 97 102 c.
Definition is_char (d c : ascii) : bool := bool_decide (c = d).
Definition is_lower_alnum (c : ascii) : bool := is_lower c || is_digit c.
Definition is_alpha (c : ascii) : bool := is_lower c || is_upper c.
Definition is_alnum (c : ascii) : bool := is_alpha c || is_digit c.

Definition ascii_char (c : ascii) : bool := code c <? 128.
Definition is_ascii (s : string) : bool := forallb ascii_char (chars s).

(** The six ASCII characters [strings.TrimSpace] trims. *)
Definition ascii_space (c : ascii) : bool := in_range 9 13 c || (code c =? 32).

Definition lower_char (c : ascii) : ascii := if is_upper c then char_of (code c + 32) else c.

Lemma lower_char_idem c : lower_char (lower_char c) = lower_char c.
Proof. by destruct c as [[] [] [] [] [] [] [] []]. Qed.

Lemma lower_char_ascii c : ascii_char (lower_char c) = ascii_char c.
Proof. by destruct c as [[] [] [] [] [] [] [] []]. Qed.

Lemma lower_char_space c : ascii_space (lower_char c) = ascii_space c.
Proof. by destruct c as [[] [] [] [] [] [] [] []]. Qed.

Lemma lower_char_id c : is_upper c = false → lower_char c = c.
Proof. unfold lower_char. by intros ->. Qed.

(** A character that lowers to something that is not a letter is itself. *)
Lemma lower_char_inv c d : is_lower d = false → lower_char c = d → c = d.
Proof.
  intros Hd Hc. unfold lower_char in Hc. destruct (is_upper c) eqn:E; [|done].
  exfalso. subst d. revert Hd E. by destruct c as [[] [] [] [] [] [] [] []].
Qed.

(** ** Prefixes and suffixes *)
Definition has_prefix (s p : string) : bool := bool_decide (chars p `prefix_of` chars s).
Definition has_suffix (s p : string) : bool := bool_decide (chars p `suffix_of` chars s).
(** [strings.CutPrefix]: the rest, when [s] has the prefix. *)
Definition cut_prefix (s p : string) : option string :=
  if has_prefix s p then Some (of_chars (drop (String.length p) (chars s))) else None.
Definition trim_suffix (s p : string) : string :=
  if has_suffix s p then of_chars (take (String.length s - String.length p) (chars s)) else s.

Lemma has_prefix_true s p : has_prefix s p = true ↔ ∃ r, s = p +:+ r.
Proof.
  unfold has_prefix. rewrite bool_decide_eq_true. split.
  - intros [r Hr]. exists (of_chars r). apply (inj chars).
    by rewrite chars_app, chars_of_chars.
  - intros [r ->]. rewrite chars_app. by apply prefix_app_r.
Qed.

Lemma has_suffix_true s p : has_suffix s p = true ↔ ∃ r, s = r +:+ p.
Proof.
  unfold has_suffix. rewrite bool_decide_eq_true. split.
  - intros [r Hr]. exists (of_chars r). apply (inj chars).
    by rewrite chars_app, chars_of_chars.
  - intros [r ->]. rewrite chars_app. by apply suffix_app_r.
Qed.

Lemma cut_prefix_some s p r : cut_prefix s p = Some r ↔ s = p +:+ r.
Proof.
  unfold cut_prefix. split.
  - destruct (has_prefix s p) eqn:E; [|done]. intros [= <-].
    apply has_prefix_true in E as [q ->]. rewrite chars_app, <- length_chars.
    by rewrite drop_app_length, of_chars_chars.
  - intros ->. rewrite (proj2 (has_prefix_true _ _)) by eauto.
    by rewrite chars_app, <- length_chars, drop_app_length, of_chars_chars.
Qed.

Lemma cut_prefix_none s p : cut_prefix s p = None ↔ has_prefix s p = false.
Proof. unfold cut_prefix. by destruct (has_prefix s p). Qed.

Lemma trim_suffix_app r p : trim_suffix (r +:+ p) p = r.
Proof.
  unfold trim_suffix. rewrite (proj2 (has_suffix_true _ _)) by eauto.
  rewrite chars_app, <- !length_chars, chars_app, length_app, Nat.add_sub.
  by rewrite take_app_length, of_chars_chars.
Qed.

Lemma trim_suffix_none s p : has_suffix s p = false → trim_suffix s p = s.
Proof. unfold trim_suffix. by intros ->. Qed.

(** ** Searching and splitting on one byte *)
Definition contains_char (c : ascii) (s : string) : bool := bool_decide (c ∈ chars s).

(** [strings.LastIndexByte]. *)
Fixpoint last_index_chars (c : ascii) (l : list ascii) : option nat :=
  match l with
  | [] => None
  | x :: t =>
      match last_index_chars c t with
      | Some i => Some (S i)
      | None => if decide (x = c) then Some O else None
      end
  end.
Definition last_index_byte (s : string) (c : ascii) : option nat := last_index_chars c (chars s).

Lemma last_index_chars_none c l : last_index_chars c l = None ↔ c ∉ l.
Proof.
  induction l as [|x t IH]; cbn; [split; [intros _; apply not_elem_of_nil|done]|].
  rewrite not_elem_of_cons.
  destruct (last_index_chars c t) eqn:E; [naive_solver|].
  case_decide; naive_solver.
Qed.

Lemma last_index_chars_some c l i :
  last_index_chars c l = Some i ↔ l !! i = Some c ∧ c ∉ drop (S i) l.
Proof.
  revert i. induction l as [|x t IH]; intros i; cbn.
  { split; [done|]. rewrite lookup_nil. naive_solver. }
  destruct (last_index_chars c t) as [j|] eqn:E.
  - destruct i as [|i]; cbn.
    + split; [done|]. intros [_ H]. rewrite drop_0 in H.
      apply last_index_chars_none in H. congruence.
    + rewrite <- IH. naive_solver.
  - apply last_index_chars_none in E.
    case_decide; destruct i as [|i]; cbn; rewrite ?drop_0; split; try naive_solver.
    all: intros [H' _]; apply list_elem_of_lookup_2 in H'; done.
Qed.

Fixpoint split_chars (c : ascii) (l : list ascii) : list (list ascii) :=
  match l with
  | [] => [[]]
  | x :: t =>
      if decide (x = c) then [] :: split_chars c t
      else match split_chars c t with
           | [] => [[x]]
           | h :: r => (x :: h) :: r
           end
  end.
(** [strings.Split] with a one-byte separator. *)
Definition split (c : ascii) (s : string) : list string := of_chars <$> split_chars c (chars s).

Fixpoint join_chars (c : ascii) (ls : list (list ascii)) : list ascii :=
  match ls with
  | [] => []
  | [l] => l
  | l :: r => l ++ c :: join_chars c r
  end.
(** [strings.Join] with a one-byte separator. *)
Definition join (c : ascii) (ss : list string) : string := of_chars (join_chars c (chars <$> ss)).

Lemma split_chars_nonempty c l : split_chars c l ≠ [].
Proof. destruct l as [|x t]; cbn; [done|]. case_decide; [done|]. by destruct (split_chars c t). Qed.

Lemma split_chars_free c l p : p ∈ split_chars c l → c ∉ p.
Proof.
  revert p. induction l as [|x t IH]; cbn; intros p.
  { rewrite list_elem_of_singleton. intros ->. apply not_elem_of_nil. }
  case_decide.
  - rewrite elem_of_cons. intros [->|?]; [apply not_elem_of_nil|auto].
  - destruct (split_chars c t) as [|h r] eqn:E.
    { by destruct (split_chars_nonempty c t). }
    rewrite elem_of_cons. intros [->|?]; [|apply IH; set_solver].
    rewrite not_elem_of_cons. split; [congruence|]. apply IH. set_solver.
Qed.

Lemma join_split_chars c l : join_chars c (split_chars c l) = l.
Proof.
  induction l as [|x t IH]; cbn; [done|].
  case_decide; subst.
  - destruct (split_chars c t) eqn:E; [by destruct (split_chars_nonempty c t)|].
    cbn. f_equal. exact IH.
  - destruct (split_chars c t) as [|h r] eqn:E; [by destruct (split_chars_nonempty c t)|].
    destruct r; cbn in *; congruence.
Qed.

Lemma split_chars_free_id c l : c ∉ l → split_chars c l = [l].
Proof.
  induction l as [|x t IH]; cbn; [done|]. rewrite not_elem_of_cons. intros [? ?].
  rewrite decide_False by congruence. by rewrite IH.
Qed.

Lemma split_chars_app c l t : c ∉ l → split_chars c (l ++ c :: t) = l :: split_chars c t.
Proof.
  induction l as [|x l IH]; cbn; intros Hl.
  - by rewrite decide_True.
  - apply not_elem_of_cons in Hl as [? ?].
    rewrite decide_False by congruence. by rewrite IH.
Qed.

Lemma split_join_chars c ls :
  ls ≠ [] → Forall (λ p, c ∉ p) ls → split_chars c (join_chars c ls) = ls.
Proof.
  induction ls as [|l r IH]; [done|]. intros _ Hf.
  apply Forall_cons in Hf as [Hl Hr]. destruct r as [|l' r].
  - by apply split_chars_free_id.
  - change (join_chars c (l :: l' :: r)) with (l ++ c :: join_chars c (l' :: r)).
    rewrite split_chars_app by done. f_equal. by apply IH.
Qed.

(** [strings.Cut] at the first [c]. *)
Fixpoint cut_chars (c : ascii) (l : list ascii) : option (list ascii * list ascii) :=
  match l with
  | [] => None
  | x :: t =>
      if decide (x = c) then Some ([], t)
      else match cut_chars c t with
           | Some (a, b) => Some (x :: a, b)
           | None => None
           end
  end.
Definition cut (s : string) (c : ascii) : option (string * string) :=
  match cut_chars c (chars s) with
  | Some (a, b) => Some (of_chars a, of_chars b)
  | None => None
  end.

Lemma cut_chars_some c l a b : cut_chars c l = Some (a, b) ↔ l = a ++ c :: b ∧ c ∉ a.
Proof.
  revert a b. induction l as [|x t IH]; intros a b; cbn.
  { split; [done|]. intros [H _]. by destruct a. }
  case_decide; subst.
  - split; [intros [= <- <-]; split; [done|apply not_elem_of_nil]|].
    intros [H Hn]. destruct a as [|y a]; cbn in H; simplify_eq; [done|].
    by destruct Hn; constructor.
  - destruct (cut_chars c t) as [[a' b']|] eqn:E; split.
    + intros [= <- <-]. destruct (proj1 (IH a' b') eq_refl) as [-> Hn].
      split; [done|]. by apply not_elem_of_cons.
    + intros [H' Hn']. destruct a as [|y a]; cbn in H'; simplify_eq.
      apply not_elem_of_cons in Hn' as [_ Hn'].
      assert (Some (a', b') = Some (a, b)) as E1 by (by apply IH). congruence.
    + done.
    + intros [H' Hn']. destruct a as [|y a]; cbn in H'; simplify_eq.
      apply not_elem_of_cons in Hn' as [_ Hn'].
      assert (None = Some (a, b)) as E1 by (by apply IH). congruence.
Qed.

(** ** ToLower and TrimSpace *)
Class Unicode : Type := {
  uni_to_lower : string → string;    (** [strings.Map(unicode.ToLower, s)] *)
  uni_trim_space : string → string;  (** [strings.TrimFunc(s, unicode.IsSpace)] *)
  uni_fields : string → list string; (** [strings.FieldsFunc(s, unicode.IsSpace)] *)
  uni_equal_fold : string → string → bool (** [strings.EqualFold] past ASCII *)
}.

(** An instance for concrete inputs: what the tables say of ASCII strings
    only. *)
Definition ascii_unicode : Unicode := {|
  uni_to_lower s := s; uni_trim_space s := s; uni_fields s := [s]; uni_equal_fold := String.eqb |}.

Fixpoint drop_spaces (l : list ascii) : list ascii :=
  match l with
  | [] => []
  | c :: t => if ascii_space c then drop_spaces t else l
  end.
Definition trim_spaces (l : list ascii) : list ascii :=
  reverse (drop_spaces (reverse (drop_spaces l))).

Section unicode.
Context `{Unicode}.

Definition to_lower (s : string) : string :=
  if is_ascii s then of_chars (lower_char <$> chars s) else uni_to_lower s.

Definition trim_space (s : string) : string :=
  if is_ascii s then of_chars (trim_spaces (chars s)) else uni_trim_space s.

Definition equal_fold (s t : string) : bool :=
  if is_ascii s && is_ascii t then String.eqb (to_lower s) (to_lower t) else uni_equal_fold s t.
End unicode.

Lemma drop_spaces_suffix l : drop_spaces l `suffix_of` l.
Proof.
  induction l as [|c t IH]; cbn; [done|].
  destruct (ascii_space c); [|done]. by apply suffix_cons_r.
Qed.

Lemma drop_spaces_id l : (∀ c, head l = Some c → ascii_space c = false) → drop_spaces l = l.
Proof. destruct l as [|c t]; cbn; [done|]. intros H. by rewrite (H c). Qed.

Lemma drop_spaces_head l c : head (drop_spaces l) = Some c → ascii_space c = false.
Proof.
  induction l as [|x t IH]; cbn; [done|].
  destruct (ascii_space x) eqn:E; [done|]. intros [= <-]. exact E.
Qed.

(** A string with no space at either end is left alone. *)
Lemma trim_spaces_id l :
  (∀ c, head l = Some c → ascii_space c = false) →
  (∀ c, last l = Some c → ascii_space c = false) → trim_spaces l = l.
Proof.
  intros H1 H2. unfold trim_spaces. rewrite (drop_spaces_id l H1).
  rewrite drop_spaces_id by (intros c; rewrite head_reverse; apply H2).
  apply reverse_involutive.
Qed.

Lemma trim_spaces_no_space l :
  Forall (λ c, ascii_space c = false) l → trim_spaces l = l.
Proof.
  rewrite Forall_forall. intros H. apply trim_spaces_id; intros c Hc; apply H.
  - destruct l; cbn in Hc; simplify_eq. constructor.
  - by apply last_Some_elem_of.
Qed.

Lemma trim_spaces_sublist l : trim_spaces l `sublist_of` l.
Proof.
  unfold trim_spaces.
  destruct (drop_spaces_suffix l) as [p Hp].
  destruct (drop_spaces_suffix (reverse (drop_spaces l))) as [q Hq].
  rewrite Hp at 2. apply (f_equal reverse) in Hq. rewrite reverse_involutive in Hq.
  rewrite Hq at 2. rewrite reverse_app.
  rewrite <- (app_nil_r (reverse _)) at 1.
  rewrite <- (app_nil_l (reverse _ ++ _)).
  apply sublist_app; [apply sublist_nil_l|].
  apply sublist_app; [done|apply sublist_nil_l].
Qed.

Lemma trim_spaces_idem l : trim_spaces (trim_spaces l) = trim_spaces l.
Proof.
  unfold trim_spaces at 2 3. set (m := drop_spaces l).
  apply trim_spaces_id; intros c Hc.
  - rewrite head_reverse in Hc. destruct (drop_spaces_suffix (reverse m)) as [p Hp].
    apply (f_equal reverse) in Hp. rewrite reverse_involutive, reverse_app in Hp.
    apply (drop_spaces_head l). fold m. rewrite Hp.
    destruct (drop_spaces (reverse m)) as [|x t] using rev_ind; [done|].
    rewrite last_snoc in Hc. by rewrite reverse_snoc.
  - rewrite last_reverse in Hc. by apply drop_spaces_head in Hc.
Qed.

(** ** Bytes on the wire *)

(** [string(b)]. *)
Definition string_of_bytes (b : list Z) : string := of_chars (char_of <$> b).
(** [[]byte(s)]. *)
Definition bytes_of_string (s : string) : list Z := code <$> chars s.

Lemma string_of_bytes_of_string s : string_of_bytes (bytes_of_string s) = s.
Proof.
  unfold string_of_bytes, bytes_of_string. rewrite <- list_fmap_compose.
  rewrite (list_fmap_ext _ id); [by rewrite list_fmap_id, of_chars_chars|].
  intros. apply char_of_code.
Qed.

Lemma bytes_of_string_of_bytes b : Forall is_byte b → bytes_of_string (string_of_bytes b) = b.
Proof.
  intros Hb. unfold string_of_bytes, bytes_of_string. rewrite chars_of_chars.
  rewrite <- list_fmap_compose. induction Hb as [|x l Hx Hl IH]; cbn; [done|].
  rewrite IH. f_equal. by apply code_char_of.
Qed.

Lemma length_bytes_of_string s : length (bytes_of_string s) = String.length s.
Proof. unfold bytes_of_string. by rewrite length_fmap, length_chars. Qed.

Lemma bytes_of_string_bytes s : Forall is_byte (bytes_of_string s).
Proof. apply Forall_fmap, Forall_true. intros c. apply code_range. Qed.

Lemma length_string_of_bytes b : String.length (string_of_bytes b) = length b.
Proof. unfold string_of_bytes. by rewrite <- length_chars, chars_of_chars, length_fmap. Qed.
#[export] Hint Resolve bytes_of_string_bytes : go.

Lemma is_ascii_chars s : is_ascii s = true ↔ Forall (λ c, ascii_char c = true) (chars s).
Proof. unfold is_ascii. rewrite forallb_forall, Forall_forall. by setoid_rewrite list_elem_of_In. Qed.

Lemma trim_idem_ascii s : trim_space (H := ascii_unicode) (trim_space (H := ascii_unicode) s) = trim_space (H := ascii_unicode) s.
Proof.
  unfold trim_space. destruct (is_ascii s) eqn:E; cbn [uni_trim_space ascii_unicode]; [|by rewrite E].
  rewrite chars_of_chars, trim_spaces_idem. by destruct (is_ascii (of_chars (trim_spaces (chars s)))).
Qed.

Lemma is_ascii_app a b : is_ascii (a +:+ b) = is_ascii a && is_ascii b.
Proof. unfold is_ascii. by rewrite chars_app, forallb_app. Qed.

Lemma chars_to_lower `{Unicode} s :
  is_ascii s = true → chars (to_lower s) = lower_char <$> chars s.
Proof. unfold to_lower. intros ->. by rewrite chars_of_chars. Qed.

Lemma is_ascii_lower `{Unicode} s : is_ascii s = true → is_ascii (to_lower s) = true.
Proof.
  intros Hs. rewrite is_ascii_chars, chars_to_lower by done.
  apply Forall_fmap. apply is_ascii_chars in Hs. eapply Forall_impl; [done|].
  intros c. cbn. by rewrite lower_char_ascii.
Qed.

Lemma to_lower_idem `{Unicode} s : is_ascii s = true → to_lower (to_lower s) = to_lower s.
Proof.
  intros Hs. apply (inj chars).
  rewrite !chars_to_lower by auto using is_ascii_lower. rewrite <- list_fmap_compose.
  apply list_fmap_ext. intros. apply lower_char_idem.
Qed.

(** ** Fields, lines and numbers *)

(** The runs of characters that are not spaces; [cur] is the run being read,
    reversed. *)
Fixpoint fields_chars (cur : list ascii) (l : list ascii) : list (list ascii) :=
  let out := match cur with [] => [] | _ => [reverse cur] end in
  match l with
  | [] => out
  | c :: t => if ascii_space c then out ++ fields_chars [] t else fields_chars (c :: cur) t
  end.

(** [strings.Fields]. *)
Definition fields `{Unicode} (s : string) : list string :=
  if is_ascii s then of_chars <$> fields_chars [] (chars s) else uni_fields s.

Definition cr : ascii := "013".
Definition lf : ascii := "010".

(** [bytes.Cut] at the first "\r\n". *)
Fixpoint cut_crlf (l : list ascii) : option (list ascii * list ascii) :=
  match l with
  | [] => None
  | c :: t =>
      match t with
      | d :: t' =>
          if decide (c = cr ∧ d = lf) then Some ([], t')
          else match cut_crlf t with Some (a, b) => Some (c :: a, b) | None => None end
      | [] => None
      end
  end.

(** [strings.Split] on "\r\n"; the fuel is the length, which each piece
    shortens. *)
Fixpoint split_crlf (fuel : nat) (l : list ascii) : list (list ascii) :=
  match fuel with
  | O => [l]
  | S fuel =>
      match cut_crlf l with
      | None => [l]
      | Some (a, b) => a :: split_crlf fuel b
      end
  end.

Definition digit_value (c : ascii) : Z := code c - 48.

(** The value of a run of decimal digits. *)
Definition digits_value (l : list ascii) : Z := foldl (λ acc c, acc * 10 + digit_value c) 0 l.

(** [strconv.Atoi]. *)
Definition Atoi (s : string) : option Z :=
  let '(neg, ds) :=
    match chars s with
    | c :: t => if is_char "-" c then (true, t) else if is_char "+" c then (false, t) else (false, c :: t)
    | [] => (false, [])
    end in
  if bool_decide (ds = []) || negb (forallb is_digit ds) then None
  else
    let v := if neg then - digits_value ds else digits_value ds in
    if (v <? min_int64) || (v >? max_int64) then None else Some v.

(** [net.SplitHostPort]. *)
Definition SplitHostPort (s : string) : option (string * string) :=
  let l := chars s in
  match last_index_byte s ":" with
  | None => None
  | Some i =>
      let port := of_chars (drop (S i) l) in
      match l with
      | c :: t =>
          if is_char "[" c then
            match cut_chars "]" t with
            | None => None
            | Some (host, after) =>
                (* [host] ends before index [end]; the colon must follow it *)
                if bool_decide (i = length host + 2)%nat &&
                   negb (bool_decide (("["%char : ascii) ∈ t)) &&
                   negb (bool_decide (("]"%char : ascii) ∈ after))
                then Some (of_chars host, port) else None
            end
          else
            let host := take i l in
            if bool_decide ((":"%char : ascii) ∈ host) || bool_decide (("["%char : ascii) ∈ l) ||
               bool_decide (("]"%char : ascii) ∈ l)
            then None else Some (of_chars host, port)
      | [] => None
      end
  end.

Example split_host_port :
  (SplitHostPort "github.com:443", SplitHostPort "[::1]:80", SplitHostPort "::1",
   SplitHostPort "[::1]", Atoi "+443", Atoi "4x") =
  (Some ("github.com", "443"), Some ("::1", "80"), None, None, Some 443, None)%string.
Proof. vm_compute. reflexivity. Qed.

(** ** UTF-8 *)
Definition cont (c : ascii) : bool := in_range 128 191 c.
Definition bits6 (c : ascii) : Z := Z.land (code c) 63.

(** The runes of a string, or [None] where it is not valid UTF-8: no overlong
    form, no surrogate, nothing past U+10FFFF. *)
Fixpoint runes (l : list ascii) : option (list Z) :=
  match l with
  | [] => Some []
  | c :: t =>
      if code c <? 128 then r ← runes t; Some (code c :: r)
      else if in_range 194 223 c then
        match t with
        | c1 :: t => if cont c1
            then r ← runes t; Some (Z.lor (Z.shiftl (Z.land (code c) 31) 6) (bits6 c1) :: r)
            else None
        | _ => None
        end
      else if in_range 224 239 c then
        match t with
        | c1 :: c2 :: t =>
            let v := Z.lor (Z.shiftl (Z.land (code c) 15) 12)
                           (Z.lor (Z.shiftl (bits6 c1) 6) (bits6 c2)) in
            if cont c1 && cont c2 && (2048 <=? v) && negb ((55296 <=? v) && (v <=? 57343))
            then r ← runes t; Some (v :: r) else None
        | _ => None
        end
      else if in_range 240 244 c then
        match t with
        | c1 :: c2 :: c3 :: t =>
            let v := Z.lor (Z.shiftl (Z.land (code c) 7) 18)
                      (Z.lor (Z.shiftl (bits6 c1) 12)
                        (Z.lor (Z.shiftl (bits6 c2) 6) (bits6 c3))) in
            if cont c1 && cont c2 && cont c3 && (65536 <=? v) && (v <=? 1114111)
            then r ← runes t; Some (v :: r) else None
        | _ => None
        end
      else None
  end.
