(* ===== verification/GoPath.v ===== *)
(** * Go paths and durations

    What the sources use of [path], [path/filepath] on a Unix host, and
    [time.ParseDuration]. A path is a string; the components of an absolute
    one, innermost first, are what its walks recurse on. *)
From S2P Require Import Prelude GoStrings.

(** ** Cleaning *)

(** [path.Clean] of a path that starts with a slash. *)
Definition clean_step (acc : list string) (seg : string) : list string :=
  if String.eqb seg "" || String.eqb seg "." then acc
  else if String.eqb seg ".." then match acc with [] => [] | _ :: acc => acc end
  else seg :: acc.
Definition segments (path : string) : list string := split "/" path.
Definition clean_rooted (path : string) : string :=
  "/" +:+ join "/" (reverse (foldl clean_step [] (segments path))).


(** A relative path keeps the [".."]s it starts with. *)
Definition clean_rel_step (acc : list string) (seg : string) : list string :=
  if String.eqb seg "" || String.eqb seg "." then acc
  else if String.eqb seg ".." then
    match acc with x :: rest => if String.eqb x ".." then seg :: acc else rest | [] => [seg] end
  else seg :: acc.

Definition IsAbs (p : string) : bool := has_prefix p "/".
Definition Clean (p : string) : string :=
  if IsAbs p then clean_rooted p
  else let s := join "/" (reverse (foldl clean_rel_step [] (segments p))) in
       if String.eqb s "" then "." else s.

(** [filepath.Join]: the empty elements at the front are skipped. *)
Fixpoint Join (elems : list string) : string :=
  match elems with
  | [] => ""
  | e :: rest => if String.eqb e "" then Join rest else Clean (join "/" elems)
  end.

(** [filepath.Dir]: all but the last element, cleaned. *)
Definition Dir (p : string) : string :=
  Clean match last_index_byte p "/" with
        | Some i => of_chars (take (S i) (chars p))
        | None => ""%string
        end.

(** [filepath.Ext]: from the last dot of the last element. *)
Definition Ext (p : string) : string :=
  match last_index_byte p ".", last_index_byte p "/" with
  | Some i, Some j => if decide (j < i)%nat then of_chars (drop i (chars p)) else ""
  | Some i, None => of_chars (drop i (chars p))
  | None, _ => ""
  end.

(** *** An absolute, clean path by its components, innermost first *)
Definition components (p : string) : list string := foldl clean_step [] (segments p).
Definition path_of (d : list string) : string := "/" +:+ join "/" (reverse d).
(** [filepath.Dir] of one. *)
Definition parent (d : list string) : list string := tail d.

(** [filepath.Abs], given what [os.Getwd] says. *)
Definition Abs (cwd : option string) (p : string) : option (list string) :=
  if IsAbs p then Some (components p)
  else wd ← cwd; Some (components (wd +:+ "/" +:+ p)).

Definition plain_segment (s : string) : Prop := s ≠ ""%string ∧ s ≠ "."%string ∧ s ≠ ".."%string.

Lemma clean_steps_plain segs : ∀ acc, Forall plain_segment acc → Forall plain_segment (foldl clean_step acc segs).
Proof.
  induction segs as [|s segs IH]; intros acc Hacc; [done|]. cbn. apply IH. unfold clean_step.
  destruct (String.eqb_spec s ""), (String.eqb_spec s "."), (String.eqb_spec s ".."); cbn; try done.
  - destruct acc; [done|]. by apply Forall_cons in Hacc as [_ ?].
  - by constructor.
Qed.

Lemma segments_free path : Forall (λ s, ("/"%char : ascii) ∉ chars s) (segments path).
Proof.
  unfold segments, split. apply Forall_fmap, Forall_forall. intros s Hs. cbn. rewrite chars_of_chars.
  by eapply split_chars_free.
Qed.

Lemma clean_steps_free segs : ∀ acc,
  Forall (λ s, ("/"%char : ascii) ∉ chars s) segs → Forall (λ s, ("/"%char : ascii) ∉ chars s) acc →
  Forall (λ s, ("/"%char : ascii) ∉ chars s) (foldl clean_step acc segs).
Proof.
  induction segs as [|s segs IH]; intros acc Hs Ha; [done|]. apply Forall_cons in Hs as [Hs Hss]. cbn. apply IH; [done|].
  unfold clean_step. destruct (_ || _); [done|]. destruct (String.eqb s ".."); [|by constructor].
  destruct acc; [done|]. by apply Forall_cons in Ha as [_ ?].
Qed.

(** A path that is already clean has only plain segments. *)
Lemma clean_segments path :
  clean_rooted path = path → path ≠ "/"%string → ∃ segs, segments path = ""%string :: segs ∧ Forall plain_segment segs.
Proof.
  intros Hc Hne. unfold clean_rooted in Hc. set (l := reverse (foldl clean_step [] (segments path))) in *.
  assert (Forall plain_segment l) as Hp by (apply Forall_reverse, clean_steps_plain; constructor).
  assert (Forall (λ s, ("/"%char : ascii) ∉ chars s) l) as Hf
    by (apply Forall_reverse, clean_steps_free; [apply segments_free|constructor]).
  exists l. split; [|done]. rewrite <- Hc at 1. unfold segments, split, join.
  assert (l ≠ []) as Hl by (intros E; apply Hne; rewrite <- Hc, E; reflexivity).
  rewrite chars_app, chars_of_chars. change (chars "/" ++ ?x) with (("/"%char : ascii) :: x). cbn [split_chars].
  rewrite decide_True by done. cbn [fmap list_fmap]. f_equal.
  rewrite split_join_chars.
  - rewrite <- list_fmap_compose. rewrite <- (list_fmap_id l) at 2. apply list_fmap_ext. intros i s _. cbn. apply of_chars_chars.
  - by destruct l.
  - by apply Forall_fmap.
Qed.

Lemma components_plain p : Forall plain_segment (components p).
Proof. apply clean_steps_plain. constructor. Qed.

Lemma components_free p : Forall (λ s, ("/"%char : ascii) ∉ chars s) (components p).
Proof. apply clean_steps_free; [apply segments_free|constructor]. Qed.

Lemma clean_rooted_components p : clean_rooted p = path_of (components p).
Proof. done. Qed.

Lemma clean_steps_id segs : ∀ acc, Forall plain_segment segs → foldl clean_step acc segs = reverse segs ++ acc.
Proof.
  induction segs as [|s segs IH]; intros acc Hp; [done|].
  apply Forall_cons in Hp as [(H1 & H2 & H3) Hp]. cbn [foldl]. rewrite IH by done. unfold clean_step.
  rewrite (proj2 (String.eqb_neq _ _) H1), (proj2 (String.eqb_neq _ _) H2), (proj2 (String.eqb_neq _ _) H3).
  cbn [orb]. rewrite (reverse_cons segs s), <- app_assoc. done.
Qed.

(** The components of a path made of plain ones are those. *)
Lemma components_path_of d :
  Forall plain_segment d → Forall (λ s, ("/"%char : ascii) ∉ chars s) d → components (path_of d) = d.
Proof.
  intros Hp Hf. unfold components, path_of, segments, split, join.
  rewrite chars_app, chars_of_chars. change (chars "/" ++ ?x) with (("/"%char : ascii) :: x). cbn [split_chars].
  rewrite decide_True by done. cbn [fmap list_fmap foldl]. change (clean_step [] (of_chars [])) with (@nil string).
  destruct d as [|x d]; [done|].
  rewrite split_join_chars.
  - rewrite <- list_fmap_compose. rewrite (list_fmap_ext _ id) by (intros; apply of_chars_chars). rewrite list_fmap_id.
    rewrite clean_steps_id by (by apply Forall_reverse). rewrite reverse_involutive. apply app_nil_r.
  - intros E. apply fmap_nil_inv in E. rewrite reverse_cons in E. by destruct (reverse d).
  - by apply Forall_fmap, Forall_reverse.
Qed.

(** ** time.ParseDuration *)

(** [leadingInt]: the digits at the front, or [None] past 2^63. *)
Fixpoint leadingInt (x : Z) (l : list ascii) : option (Z * list ascii) :=
  match l with
  | c :: t =>
      if is_digit c then
        if 922337203685477580 <? x then None
        else let x' := x * 10 + digit_value c in
             if 2 ^ 63 <? x' then None else leadingInt x' t
      else Some (x, l)
  | [] => Some (x, [])
  end.

(** [leadingFraction]: digits that no longer fit are passed over. *)
Fixpoint leadingFraction (x : Z) (scale : float64) (over : bool) (l : list ascii) : Z * float64 * list ascii :=
  match l with
  | c :: t =>
      if is_digit c then
        if over then leadingFraction x scale true t
        else if 922337203685477580 <? x then leadingFraction x scale true t
        else let y := x * 10 + digit_value c in
             if 2 ^ 63 <? y then leadingFraction x scale true t
             else leadingFraction y (SFmul 53 1024 scale (float_of_Z 10)) false t
      else (x, scale, l)
  | [] => (x, scale, [])
  end.

Definition units : gmap string Z := list_to_map
  [("ns", 1); ("us", 1000); ("µs", 1000); ("μs", 1000); ("ms", 10 ^ 6); ("s", second);
   ("m", minute); ("h", 60 * minute)]%string.

(** [uint64(f)] of a double that is not negative. *)
Definition trunc (f : float64) : Z :=
  match f with
  | S754_finite false m e => Z.shiftl (Zpos m) e
  | _ => 0
  end.

Fixpoint take_unit (l : list ascii) : list ascii * list ascii :=
  match l with
  | c :: t => if is_char "." c || is_digit c then ([], l)
              else let '(u, r) := take_unit t in (c :: u, r)
  | [] => ([], [])
  end.

(** One number and its unit: the nanoseconds it stands for, and the rest. *)
Definition duration_term (l : list ascii) : option (Z * list ascii) :=
  c ← head l;
  if negb (is_char "." c || is_digit c) then None else
  '(v, l1) ← leadingInt 0 l;
  let pre := negb (length l1 =? length l)%nat in
  let '(f, scale, l2, post) :=
    match l1 with
    | c1 :: t => if is_char "." c1
                 then let '(f, sc, r) := leadingFraction 0 (float_of_Z 1) false t in
                      (f, sc, r, negb (length r =? length t)%nat)
                 else (0, float_of_Z 1, l1, false)
    | [] => (0, float_of_Z 1, [], false)
    end in
  if negb pre && negb post then None else
  let '(u, rest) := take_unit l2 in
  if bool_decide (u = []) then None else
  unit ← units !! of_chars u;
  if 2 ^ 63 / unit <? v then None else
  let v := v * unit in
  let v := if 0 <? f then v + trunc (SFmul 53 1024 (float_of_Z f) (SFdiv 53 1024 (float_of_Z unit) scale)) else v in
  if (0 <? f) && (2 ^ 63 <? v) then None else Some (v, rest).

Fixpoint duration_terms (fuel : nat) (d : Z) (l : list ascii) : option Z :=
  match l, fuel with
  | [], _ => Some d
  | _, O => None
  | _, S fuel => '(v, rest) ← duration_term l;
                 let d := (d + v) mod 2 ^ 64 in
                 if 2 ^ 63 <? d then None else duration_terms fuel d rest
  end.

(** The value in nanoseconds, or [None] for the error. *)
Definition ParseDuration (s : string) : option Z :=
  let '(neg, l) := match chars s with
                   | c :: t => if is_char "-" c || is_char "+" c then (is_char "-" c, t) else (false, c :: t)
                   | [] => (false, [])
                   end in
  if bool_decide (l = ["0"%char : ascii]) then Some 0
  else if bool_decide (l = []) then None
  else d ← duration_terms (length l) 0 l;
       if neg : bool then Some (- d) else if max_int64 <? d then None else Some d.

Example durations :
  ParseDuration "2m" = Some (2 * minute) ∧ ParseDuration "1.5h" = Some (90 * minute) ∧
  ParseDuration "-336h0.25s" = Some (- (336 * 60 * minute + 250000000)) ∧ ParseDuration "2" = None ∧
  ParseDuration "3000000h" = None ∧ ParseDuration ".s" = None.
Proof. by vm_compute. Qed.
