(* ===== verification/Api.v ===== *)
(** * The wire types (internal/api/types.go)

    The part of the API's data model the modelled components share, with the
    functions the package defines on it. A Go struct field [F] of type [T] is
    the projection [t_F] of the record for [T]. A slice whose [nil] and empty
    values mean different things ([NetworkPolicy.Allow], and [Want.Spread] of
    the scheduler) is an [option]; any other slice is a list. *)
From S2P Require Import Prelude GoStrings.

(** ** Sandbox states and idle actions *)
Definition StatePending : string := "pending".
Definition StateRunning : string := "running".
Definition StateSuspended : string := "suspended".
Definition StateTerminated : string := "terminated".
Definition IdleTerminate : string := "terminate".
Definition IdleSuspend : string := "suspend".

(** ** Network modes *)
Definition NetworkNone : string := "none".
Definition NetworkAllowlist : string := "allowlist".
Definition NetworkOpen : string := "open".

Definition NetworkRank (mode : string) : Z :=
  if decide (mode = NetworkNone) then 0
  else if decide (mode = NetworkAllowlist) then 1
  else if decide (mode = NetworkOpen) then 2
  else -1.

Record NetworkPolicy := {
  np_Mode : string;
  np_Allow : option (list string);
  np_Deny : list string;
  np_Groups : list string
}.

(** The slice as a [range] over it sees it. *)
Definition allow_list (p : NetworkPolicy) : list string := default [] (np_Allow p).

#[export] Instance NetworkPolicy_eq_dec : EqDecision NetworkPolicy.
Proof. solve_decision. Defined.

(** ** Capabilities *)
Record Limits := {
  lim_MaxCPUs : float64;
  lim_MaxMemoryMB : Z;
  lim_MaxDiskMB : Z;
  lim_MaxIdleTimeoutSecs : Z;
  lim_MaxLifetimeSecs : Z;
  lim_MinSnapshotEverySecs : Z;
  lim_MaxSnapshotKeep : Z;
  lim_MinMetricsExportSecs : Z;
  lim_MaxGPUs : Z
}.

Record NetworkCeiling := {
  nc_Default : NetworkPolicy;
  nc_Ceiling : string;
  nc_MayAllow : list string
}.

Record Capabilities := {
  caps_APIVersion : string;
  caps_Backend : string;
  caps_Capabilities : gmap string bool;
  caps_Limits : Limits;
  caps_Network : NetworkCeiling
}.

(** A Go map lookup that yields the zero value for an absent key. *)
Definition Has (c : Capabilities) (name : string) : bool :=
  default false (caps_Capabilities c !! name).

Definition CapNetworkPolicyUpdate : string := "network_policy_update".
Definition CapSuspend : string := "suspend".
Definition CapMemorySnapshot : string := "memory_snapshot".
Definition CapDiskSnapshot : string := "disk_snapshot".
Definition CapEgressAllowlist : string := "egress_allowlist".
Definition CapEgressOpen : string := "egress_open".
Definition CapTunnel : string := "tunnel".
Definition CapVolumes : string := "volumes".
Definition CapMetrics : string := "metrics".
Definition CapAudit : string := "audit".
Definition CapImages : string := "images".
Definition CapRegistryLogin : string := "registry_login".
Definition CapResize : string := "resize".
Definition CapMetricsExport : string := "metrics_export".
Definition CapGPU : string := "gpu".

Definition Version : string := "v1".

(** ** Requests *)
Record SnapshotSchedule := {
  ss_EverySecs : Z;
  ss_Keep : Z
}.

#[export] Instance SnapshotSchedule_eq_dec : EqDecision SnapshotSchedule.
Proof. solve_decision. Defined.

Record VolumeMount := {
  vm_Name : string;
  vm_Path : string;
  vm_ReadOnly : bool
}.

#[export] Instance VolumeMount_eq_dec : EqDecision VolumeMount.
Proof. solve_decision. Defined.

Record RegistryLogin := {
  rl_Registry : string;
  rl_Username : string;
  rl_Password : string
}.

Record MetricsExport := {
  me_Endpoint : string;
  me_IntervalSecs : Z;
  me_Headers : gmap string string;
  me_HeaderSecrets : gmap string string
}.

Record CreateSandboxRequest := {
  cr_Name : string;
  cr_Image : string;
  cr_CPUs : float64;
  cr_MemoryMB : Z;
  cr_DiskMB : Z;
  cr_Env : gmap string string;
  cr_Network : option NetworkPolicy;
  cr_IdleTimeoutSecs : Z;
  cr_IdleAction : string;
  cr_LifetimeSecs : Z;
  cr_SnapshotID : string;
  cr_SnapshotEverySecs : Z;
  cr_SnapshotKeep : Z;
  cr_Labels : gmap string string;
  cr_Volumes : list VolumeMount;
  cr_RegistryLogin : option RegistryLogin;
  cr_MetricsExport : option MetricsExport;
  cr_GPUs : Z
}.

(** The request with nothing set: Go's [CreateSandboxRequest{}]. *)
Definition empty_create : CreateSandboxRequest := {|
  cr_Name := ""; cr_Image := ""; cr_CPUs := fzero; cr_MemoryMB := 0; cr_DiskMB := 0;
  cr_Env := ∅; cr_Network := None; cr_IdleTimeoutSecs := 0; cr_IdleAction := "";
  cr_LifetimeSecs := 0; cr_SnapshotID := ""; cr_SnapshotEverySecs := 0;
  cr_SnapshotKeep := 0; cr_Labels := ∅; cr_Volumes := []; cr_RegistryLogin := None;
  cr_MetricsExport := None; cr_GPUs := 0 |}.

Record ResizeSandboxRequest := {
  rz_CPUs : float64;
  rz_MemoryMB : Z;
  rz_DiskMB : Z
}.

Record UpdateSandboxRequest := {
  up_Network : option NetworkPolicy;
  up_Name : option string;
  up_Labels : option (gmap string string);
  up_IdleTimeoutSecs : option Z;
  up_IdleAction : option string;
  up_LifetimeSecs : option Z;
  up_MetricsExport : option MetricsExport
}.

(** ** A sandbox as the API reports it

    [SnapshotProgress] and [MetricsExportStatus], which decide nothing here,
    are left out. *)
Record Sandbox := {
  sb_ID : string;
  sb_Name : string;
  sb_State : string;
  sb_Image : string;
  sb_CPUs : float64;
  sb_MemoryMB : Z;
  sb_DiskMB : Z;
  sb_EnvNames : list string;
  sb_Network : NetworkPolicy;
  sb_CreatedAt : Z;
  sb_IdleTimeoutSecs : Z;
  sb_IdleAction : string;
  sb_IdleSuspended : bool;
  sb_LifetimeSecs : Z;
  sb_ExpiresAt : option Z;
  sb_SnapshotEverySecs : Z;
  sb_SnapshotKeep : Z;
  sb_Labels : gmap string string;
  sb_Volumes : list VolumeMount;
  sb_GPUs : list string
}.

Record Snapshot := {
  sn_ID : string;
  sn_Sandbox : string;
  sn_Image : string;
  sn_Kind : string;
  sn_Scheduled : bool;
  sn_Bytes : Z;
  sn_CreatedAt : Z
}.

Definition SnapshotMemory : string := "memory".
Definition SnapshotDisk : string := "disk".

(** ** Nodes *)
Record NodeResources := {
  nr_CPUs : float64;
  nr_MemoryMB : Z;
  nr_DiskMB : Z;
  nr_GPUs : Z
}.

Record NodeStatus := {
  ns_Node : string;
  ns_Version : string;
  ns_Capabilities : Capabilities;
  ns_Capacity : NodeResources;
  ns_Free : NodeResources;
  ns_Running : Z;
  ns_Pooled : gmap string Z;
  ns_Images : list string;
  ns_Labels : gmap string string;
  ns_Cordoned : bool
}.

(** [^[a-z0-9][a-z0-9-]{0,30}$]. *)
Definition node_id_char (c : ascii) : bool := is_lower_alnum c || is_char "-" c.
Definition ValidNodeID (s : string) : bool :=
  match chars s with
  | [] => false
  | c :: t => is_lower_alnum c && forallb node_id_char t && (length t <=? 30)%nat
  end.

Definition NodeOfID (id : string) : option string :=
  match cut_prefix id "sbx_" with
  | None => None
  | Some rest =>
      match cut rest "_" with
      | None => None
      | Some (node, hex) =>
          if negb (ValidNodeID node) || negb (String.length hex =? 16)%nat then None
          else Some node
      end
  end.

(** ** Facts about the shared functions *)
Lemma NetworkRank_range m : -1 ≤ NetworkRank m ≤ 2.
Proof. unfold NetworkRank. repeat case_decide; lia. Qed.

Lemma NetworkRank_inj a b : 0 ≤ NetworkRank a → NetworkRank a = NetworkRank b → a = b.
Proof. unfold NetworkRank. repeat case_decide; subst; auto; lia. Qed.

Lemma ValidNodeID_no_underscore s : ValidNodeID s = true → ("_"%char : ascii) ∉ chars s.
Proof.
  unfold ValidNodeID. destruct (chars s) as [|c t]; [done|].
  intros H Hin. bool_simpl. rewrite elem_of_cons in Hin. destruct Hin as [<-|Hin]; [done|].
  match goal with H : forallb _ _ = true |- _ => rewrite forallb_forall in H end.
  apply list_elem_of_In in Hin. by apply H1 in Hin.
Qed.

(** A node's ids name it, and no other node. *)
Theorem NodeOfID_spec id node :
  NodeOfID id = Some node ↔
  ValidNodeID node = true ∧
  ∃ hex, id = "sbx_" +:+ node +:+ "_" +:+ hex ∧ String.length hex = 16%nat.
Proof.
  unfold NodeOfID. split.
  - destruct (cut_prefix id "sbx_") as [rest|] eqn:E1; [|done].
    apply cut_prefix_some in E1 as ->. unfold cut.
    destruct (cut_chars "_" (chars rest)) as [[a b]|] eqn:E2; [|done].
    apply cut_chars_some in E2 as [E2 Hn].
    destruct (ValidNodeID (of_chars a)) eqn:Hv, (Nat.eqb_spec (String.length (of_chars b)) 16);
      cbn; try done.
    intros [= <-]. split; [done|]. exists (of_chars b). split; [|done].
    f_equal. apply (inj chars).
    by rewrite !chars_app, !chars_of_chars, E2.
  - intros (Hv & hex & -> & Hl).
    rewrite (proj2 (cut_prefix_some _ _ (node +:+ "_" +:+ hex)) eq_refl). unfold cut.
    assert (cut_chars "_" (chars (node +:+ "_" +:+ hex)) = Some (chars node, chars hex)) as ->.
    { apply cut_chars_some. rewrite !chars_app. split; [done|].
      by apply ValidNodeID_no_underscore. }
    rewrite !of_chars_chars, Hv, Hl. done.
Qed.
