(* ===== verification/Scheduler.v ===== *)
(** * The fleet scheduler (internal/gateway/schedule.go)

    [Schedule] picks the node a create goes to and [Fallback] the node that is
    to refuse one no node can run. Both are pure functions of the candidate
    list, as in the source. The errors are a type of three constructors. *)
From S2P Require Import Prelude GoSort GoStrings Api.

Record Candidate := {
  cand_Name : string;
  cand_Status : NodeStatus;
  cand_Reserved : NodeResources
}.

Record Want := {
  w_Image : string;
  w_CPUs : float64;
  w_MemoryMB : Z;
  w_DiskMB : Z;
  w_GPUs : Z;
  w_Caps : list string;
  w_NetworkMode : string;
  w_Node : string;
  w_Exclude : list string;
  w_Spread : option (gmap string Z)
}.

Inductive sched_error := errNoCandidate | errNoCapable | errNoRoom.

(** [1e-9] as a double. *)
Definition epsilon_1e9 : float64 := S754_finite false 0x112e0be826d695 (-82).

Definition canRun (st : NodeStatus) (w : Want) : bool :=
  let caps := ns_Capabilities st in
  let l := caps_Limits caps in
  if negb (forallb (Has caps) (w_Caps w)) then false
  else if negb (String.eqb (w_NetworkMode w) "") &&
      (NetworkRank (w_NetworkMode w) >? NetworkRank (nc_Ceiling (caps_Network caps))) then false
  else if (w_GPUs w >? 0) && (negb (Has caps CapGPU) || (w_GPUs w >? lim_MaxGPUs l)) then false
  else fleb (w_CPUs w) (lim_MaxCPUs l) && (w_MemoryMB w <=? lim_MaxMemoryMB l) &&
       (w_DiskMB w <=? lim_MaxDiskMB l).

Definition free (c : Candidate) : NodeResources :=
  let f := ns_Free (cand_Status c) in
  let r := cand_Reserved c in
  {| nr_CPUs := fsub (nr_CPUs f) (nr_CPUs r);
     nr_MemoryMB := int_sub (nr_MemoryMB f) (nr_MemoryMB r);
     nr_DiskMB := int_sub (nr_DiskMB f) (nr_DiskMB r);
     nr_GPUs := int_sub (nr_GPUs f) (nr_GPUs r) |}.

Definition hasRoom (c : Candidate) (w : Want) : bool :=
  let f := free c in
  if fltb (fadd (nr_CPUs f) epsilon_1e9) (w_CPUs w) || (nr_MemoryMB f <? w_MemoryMB w) ||
     (nr_GPUs f <? w_GPUs w) then false
  else (nr_DiskMB (ns_Capacity (cand_Status c)) =? 0) || (w_DiskMB w <=? nr_DiskMB f).

Definition pooled (img : string) (c : Candidate) : bool :=
  default 0 (ns_Pooled (cand_Status c) !! img) >? 0.
Definition cached (img : string) (c : Candidate) : bool :=
  bool_decide (img ∈ ns_Images (cand_Status c)).

Definition better_memory (a b : Candidate) : bool :=
  if negb (nr_MemoryMB (free a) =? nr_MemoryMB (free b))
  then nr_MemoryMB (free a) >? nr_MemoryMB (free b)
  else str_ltb (cand_Name a) (cand_Name b).

Definition better (w : Want) (a b : Candidate) : bool :=
  if negb (String.eqb (w_Image w) "") then
    if negb (eqb (pooled (w_Image w) a) (pooled (w_Image w) b)) then pooled (w_Image w) a
    else if negb (eqb (cached (w_Image w) a) (cached (w_Image w) b)) then cached (w_Image w) a
    else better_memory a b
  else better_memory a b.

Definition holds (spread : gmap string Z) (c : Candidate) : Z :=
  default 0 (spread !! cand_Name c).

(** The first loop of [Schedule]: nodes the request may go to at all. *)
Definition may_take (w : Want) (c : Candidate) : bool :=
  negb (ns_Cordoned (cand_Status c)) && negb (bool_decide (cand_Name c ∈ w_Exclude w)) &&
  (String.eqb (w_Node w) "" || String.eqb (cand_Name c) (w_Node w)).

(** [least], as the loop over the nodes that fit computes it. *)
Definition least_held (spread : gmap string Z) (fits : list Candidate) : Z :=
  match fits with
  | [] => 0
  | c :: _ => foldl (λ m d, Z.min m (holds spread d)) (holds spread c) fits
  end.

Definition spread_out (w : Want) (fits : list Candidate) : list Candidate :=
  match w_Spread w with
  | None => fits
  | Some s => List.filter (λ c, negb (holds s c >? least_held s fits)) fits
  end.

Definition Schedule (cands : list Candidate) (w : Want) : result sched_error string :=
  match List.filter (may_take w) cands with
  | [] => Err errNoCandidate
  | live =>
      match List.filter (λ c, canRun (cand_Status c) w) live with
      | [] => Err errNoCapable
      | capable =>
          match List.filter (λ c, hasRoom c w) capable with
          | [] => Err errNoRoom
          | fits =>
              match sort_stable (better w) (spread_out w fits) with
              | c :: _ => Ok (cand_Name c)
              | [] => Err errNoRoom (* not reached: [least] is some node's count *)
              end
          end
      end
  end.

Definition nearness (st : NodeStatus) (w : Want) : Z :=
  Z.of_nat (length (List.filter (Has (ns_Capabilities st)) (w_Caps w))) +
  (if (w_GPUs w >? 0) && Has (ns_Capabilities st) CapGPU then 1 else 0).

(** The comparison of [Fallback]'s sort, as a [less]. *)
Definition nearer (w : Want) (a b : Candidate) : bool :=
  if negb (nearness (cand_Status a) w =? nearness (cand_Status b) w)
  then nearness (cand_Status a) w >? nearness (cand_Status b) w
  else str_ltb (cand_Name a) (cand_Name b).

Definition may_refuse (exclude : list string) (c : Candidate) : bool :=
  negb (ns_Cordoned (cand_Status c)) && negb (bool_decide (cand_Name c ∈ exclude)).

Definition Fallback (cands : list Candidate) (exclude : list string) (w : Want)
    : option string :=
  match sort_stable (nearer w) (List.filter (may_refuse exclude) cands) with
  | [] => None
  | c :: _ => Some (cand_Name c)
  end.

(** ** The orders are strict weak orders *)
#[export] Instance better_memory_swo : StrictWeakOrder better_memory.
Proof.
  apply (swo_lex_gt (λ c, nr_MemoryMB (free c)) (λ a b, str_ltb (cand_Name a) (cand_Name b))).
  apply (swo_on cand_Name str_ltb), _.
Qed.

#[export] Instance better_swo w : StrictWeakOrder (better w).
Proof.
  unfold better. destruct (negb (String.eqb (w_Image w) "")); [|apply _].
  apply (swo_lex_bool (pooled (w_Image w))
    (λ a b, if negb (eqb (cached (w_Image w) a) (cached (w_Image w) b))
            then cached (w_Image w) a else better_memory a b)).
  apply (swo_lex_bool (cached (w_Image w)) better_memory), _.
Qed.

#[export] Instance nearer_swo w : StrictWeakOrder (nearer w).
Proof.
  apply (swo_lex_gt (λ c, nearness (cand_Status c) w)
    (λ a b, str_ltb (cand_Name a) (cand_Name b))).
  apply (swo_on cand_Name str_ltb), _.
Qed.

Lemma better_memory_name a b :
  better_memory a b = false → better_memory b a = false → cand_Name a = cand_Name b.
Proof.
  unfold better_memory.
  destruct (Z.eqb_spec (nr_MemoryMB (free a)) (nr_MemoryMB (free b))) as [->|];
    [rewrite Z.eqb_refl; apply str_ltb_total|].
  destruct (Z.eqb_spec (nr_MemoryMB (free b)) (nr_MemoryMB (free a))); [congruence|].
  cbn [negb]. lia.
Qed.

(** Two nodes neither of which is better have one name. *)
Lemma better_name w a b :
  better w a b = false → better w b a = false → cand_Name a = cand_Name b.
Proof.
  unfold better. destruct (negb (String.eqb (w_Image w) "")); [|apply better_memory_name].
  destruct (pooled (w_Image w) a), (pooled (w_Image w) b); cbn; try done;
    destruct (cached (w_Image w) a), (cached (w_Image w) b); cbn; try done;
    apply better_memory_name.
Qed.

Lemma nearer_name w a b :
  nearer w a b = false → nearer w b a = false → cand_Name a = cand_Name b.
Proof.
  unfold nearer.
  destruct (Z.eqb_spec (nearness (cand_Status a) w) (nearness (cand_Status b) w)) as [->|];
    [rewrite Z.eqb_refl; apply str_ltb_total|].
  destruct (Z.eqb_spec (nearness (cand_Status b) w) (nearness (cand_Status a) w));
    [congruence|]. cbn [negb]. lia.
Qed.

(** ** The spread *)
Lemma foldl_min_le (f : Candidate → Z) l m :
  foldl (λ m d, Z.min m (f d)) m l ≤ m ∧
  (∀ c, c ∈ l → foldl (λ m d, Z.min m (f d)) m l ≤ f c) ∧
  (foldl (λ m d, Z.min m (f d)) m l = m ∨
   ∃ c, c ∈ l ∧ foldl (λ m d, Z.min m (f d)) m l = f c).
Proof.
  revert m. induction l as [|x l IH]; intros m; cbn.
  - split_and!; [lia|intros c Hc; by apply not_elem_of_nil in Hc|by left].
  - destruct (IH (Z.min m (f x))) as (H1 & H2 & H3). split_and!.
    + lia.
    + intros c [->|Hc]%elem_of_cons; [lia|auto].
    + destruct H3 as [H3|(c & Hc & H3)].
      * destruct (Z.le_ge_cases m (f x)); [left; lia|right].
        exists x. split; [constructor|lia].
      * right. exists c. split; [by constructor|done].
Qed.

Lemma least_held_spec s fits :
  fits ≠ [] →
  (∀ c, c ∈ fits → least_held s fits ≤ holds s c) ∧
  ∃ c, c ∈ fits ∧ holds s c = least_held s fits.
Proof.
  destruct fits as [|x l]; [done|]. intros _. unfold least_held.
  destruct (foldl_min_le (holds s) (x :: l) (holds s x)) as (H1 & H2 & H3).
  split; [done|]. destruct H3 as [H3|(c & Hc & H3)].
  - exists x. split; [constructor|done].
  - by exists c.
Qed.

(** What a candidate must satisfy to be given the sandbox. *)
Definition fit (w : Want) (c : Candidate) : bool :=
  may_take w c && canRun (cand_Status c) w && hasRoom c w.

(** How many of the sandboxes this one is kept apart from it holds. *)
Definition crowd (w : Want) (c : Candidate) : Z :=
  match w_Spread w with None => 0 | Some s => holds s c end.

Lemma spread_out_spec w fits c :
  c ∈ spread_out w fits ↔
  c ∈ fits ∧ ∀ d, d ∈ fits → crowd w c ≤ crowd w d.
Proof.
  unfold spread_out, crowd. destruct (w_Spread w) as [s|]; [|naive_solver lia].
  rewrite elem_of_bfilter. split; intros [Hc H]; (split; [done|]).
  - intros d Hd. destruct (least_held_spec s fits) as [Hle _]; [by intros ->; inversion Hc|].
    specialize (Hle d Hd). lia.
  - destruct (least_held_spec s fits) as [_ (d & Hd & He)]; [by intros ->; inversion Hc|].
    specialize (H d Hd). lia.
Qed.

Lemma spread_out_nonempty w fits : fits ≠ [] → spread_out w fits ≠ [].
Proof.
  intros Hf Hn. unfold spread_out in Hn. destruct (w_Spread w) as [s|]; [|done].
  destruct (least_held_spec s fits Hf) as [_ (c & Hc & He)].
  assert (c ∈ @nil Candidate) as Hin.
  { rewrite <- Hn. apply elem_of_bfilter. split; [done|]. lia. }
  by apply not_elem_of_nil in Hin.
Qed.

Lemma elem_of_stages w cands c :
  c ∈ List.filter (λ c, hasRoom c w)
        (List.filter (λ c, canRun (cand_Status c) w) (List.filter (may_take w) cands)) ↔
  c ∈ cands ∧ fit w c = true.
Proof. rewrite !elem_of_bfilter. unfold fit. rewrite !andb_true_iff. naive_solver. Qed.

(** ** What [Schedule] answers *)
Lemma bfilter_nil {A} (f : A → bool) l : List.filter f l = [] ↔ ∀ x, x ∈ l → f x = false.
Proof.
  split.
  - intros H x Hx. destruct (f x) eqn:E; [|done].
    assert (x ∈ @nil A) as Hn by (rewrite <- H; by apply elem_of_bfilter).
    by apply not_elem_of_nil in Hn.
  - intros H. destruct (List.filter f l) as [|x t] eqn:E; [done|].
    assert (x ∈ List.filter f l) as [Hx Hf]%elem_of_bfilter by (rewrite E; constructor).
    by rewrite H in Hf.
Qed.

Lemma bfilter_cons {A} (f : A → bool) l x t :
  List.filter f l = x :: t → ∃ y, y ∈ l ∧ f y = true.
Proof.
  intros E. exists x. apply elem_of_bfilter. rewrite E. constructor.
Qed.

#[export] Instance bfilter_perm {A} (f : A → bool) :
  Proper ((≡ₚ) ==> (≡ₚ)) (List.filter f).
Proof.
  induction 1 as [|x l l' H IH|x y l|l l' l'' H1 IH1 H2 IH2]; cbn; [done| | |].
  - by destruct (f x); rewrite IH.
  - destruct (f x), (f y); try done. constructor.
  - by etrans.
Qed.

(** The four outcomes, each with what it says of the candidates. *)
Variant schedule_case (cands : list Candidate) (w : Want) : result sched_error string → Prop :=
| case_no_candidate :
    (∀ c, c ∈ cands → may_take w c = false) →
    schedule_case cands w (Err errNoCandidate)
| case_no_capable :
    (∃ c, c ∈ cands ∧ may_take w c = true) →
    (∀ c, c ∈ cands → may_take w c = true → canRun (cand_Status c) w = false) →
    schedule_case cands w (Err errNoCapable)
| case_no_room :
    (∃ c, c ∈ cands ∧ may_take w c = true ∧ canRun (cand_Status c) w = true) →
    (∀ c, c ∈ cands → fit w c = false) →
    schedule_case cands w (Err errNoRoom)
| case_ok c :
    c ∈ cands → fit w c = true →
    (∀ d, d ∈ cands → fit w d = true → crowd w c ≤ crowd w d) →
    (∀ d, d ∈ cands → fit w d = true → crowd w d = crowd w c → better w d c = false) →
    schedule_case cands w (Ok (cand_Name c)).

Lemma Schedule_cases cands w : schedule_case cands w (Schedule cands w).
Proof.
  unfold Schedule. pose proof (elem_of_stages w cands) as Hst.
  destruct (List.filter (may_take w) cands) as [|l1 live] eqn:E1.
  { apply case_no_candidate. by apply bfilter_nil. }
  destruct (bfilter_cons _ _ _ _ E1) as (c1 & Hc1 & Ht1). rewrite <- E1 in *.
  set (live' := List.filter (may_take w) cands) in *.
  destruct (List.filter _ live') as [|l2 cap] eqn:E2.
  { apply case_no_capable; [by eauto|]. intros c Hc Ht.
    apply (proj1 (bfilter_nil _ _) E2). by apply elem_of_bfilter. }
  destruct (bfilter_cons _ _ _ _ E2) as (c2 & [Hc2 Ht2]%elem_of_bfilter & Hr2).
  rewrite <- E2 in *. set (cap' := List.filter _ live') in *.
  destruct (List.filter _ cap') as [|l3 fits] eqn:E3.
  { apply case_no_room; [by eauto|]. intros c Hc.
    destruct (fit w c) eqn:Hf; [|done].
    assert (c ∈ @nil Candidate) as Hn by (by apply Hst). by apply not_elem_of_nil in Hn. }
  rewrite <- E3 in *. set (fits' := List.filter _ cap') in *.
  destruct (sort_stable (better w) (spread_out w fits')) as [|c t] eqn:Es.
  { apply sort_stable_nil_inv, spread_out_nonempty in Es; [done|]. by rewrite E3. }
  apply sort_stable_head in Es as [Hin Hbest]; [|apply _].
  apply spread_out_spec in Hin as [Hin Hle]. apply Hst in Hin as [Hin Hf].
  apply case_ok; [done|done| |].
  - intros d Hd Hfd. apply Hle, Hst. done.
  - intros d Hd Hfd Hcr. apply Hbest, spread_out_spec. split; [by apply Hst|].
    intros d' Hd'. rewrite Hcr. by apply Hle.
Qed.

Lemma fit_inv w c :
  fit w c = true → may_take w c = true ∧ canRun (cand_Status c) w = true.
Proof. unfold fit. rewrite !andb_true_iff. tauto. Qed.

(** The outcome depends on the set of candidates alone. *)
Lemma schedule_case_perm cands cands' w r :
  cands ≡ₚ cands' → schedule_case cands w r → schedule_case cands' w r.
Proof.
  intros Hp H. destruct H as [H1|(c & Hc & H1) H2|(c & Hc & H1) H2|c Hc Hf Hle Hb].
  - constructor. intros c Hc. apply H1. by rewrite Hp.
  - constructor; [exists c; by rewrite <- Hp|]. intros d. rewrite <- Hp. apply H2.
  - constructor; [exists c; by rewrite <- Hp|]. intros d. rewrite <- Hp. apply H2.
  - constructor; [by rewrite <- Hp|done| |]; intros d; rewrite <- Hp; auto.
Qed.

Lemma schedule_case_det cands w r r' :
  schedule_case cands w r → schedule_case cands w r' → r = r'.
Proof.
  pose proof (fit_inv w) as Hfit.
  intros [H1|(c & Hc & H1) H2|(c & Hc & Ht & Hr) H2|c Hc Hf Hle Hb]
    [H1'|(c' & Hc' & H1') H2'|(c' & Hc' & Ht' & Hr') H2'|c' Hc' Hf' Hle' Hb'];
    try done;
    try (apply Hfit in Hf as Hf2); try (apply Hfit in Hf' as Hf2');
    try (exfalso; match goal with
      Hc : ?c ∈ cands, H : ∀ _, _ ∈ cands → _ |- _ =>
        pose proof (H c Hc); intuition congruence end).
  f_equal. apply (better_name w).
  - apply Hb'; [done|done|]. apply Z.le_antisymm; auto.
  - apply Hb; [done|done|]. apply Z.le_antisymm; auto.
Qed.

(** The node [Schedule] picks is one of the candidates, may take the
    sandbox, can run it and has room for it; among the candidates of which
    that holds it is one that holds the fewest of the sandboxes this one is
    spread from, and of those none is better (a pool for the image, then the
    image built, then more free memory, then the name). *)
Theorem schedule_sound cands w n :
  Schedule cands w = Ok n →
  ∃ c, c ∈ cands ∧ cand_Name c = n ∧ fit w c = true ∧
    ∀ d, d ∈ cands → fit w d = true →
      crowd w c ≤ crowd w d ∧ (crowd w d = crowd w c → better w d c = false).
Proof.
  destruct (Schedule_cases cands w) as [| | |c Hin Hf Hle Hb]; try done.
  intros [= <-]. exists c. repeat split; auto.
Qed.

(** [Schedule] gives a node exactly when some candidate may take the
    sandbox, can run it and has room; otherwise its error says which of the
    three the fleet as a whole lacks. *)
Theorem schedule_errors cands w :
  (Schedule cands w = Err errNoCandidate ↔ ∀ c, c ∈ cands → may_take w c = false) ∧
  (Schedule cands w = Err errNoCapable ↔
     (∃ c, c ∈ cands ∧ may_take w c = true) ∧
     ∀ c, c ∈ cands → may_take w c = true → canRun (cand_Status c) w = false) ∧
  (Schedule cands w = Err errNoRoom ↔
     (∃ c, c ∈ cands ∧ may_take w c = true ∧ canRun (cand_Status c) w = true) ∧
     ∀ c, c ∈ cands → fit w c = false) ∧
  (is_ok (Schedule cands w) = true ↔ ∃ c, c ∈ cands ∧ fit w c = true).
Proof.
  pose proof (Schedule_cases cands w) as Hs.
  assert (∀ r, schedule_case cands w r → Schedule cands w = r) as Hd
    by (intros r; by apply schedule_case_det).
  split_and!; split.
  - intros E. rewrite E in Hs. by inversion Hs.
  - intros H. by apply Hd, case_no_candidate.
  - intros E. rewrite E in Hs. by inversion Hs.
  - intros [H1 H2]. by apply Hd, case_no_capable.
  - intros E. rewrite E in Hs. by inversion Hs.
  - intros [H1 H2]. by apply Hd, case_no_room.
  - destruct Hs; try done. by eauto.
  - intros (c & Hc & Hf). pose proof (fit_inv _ _ Hf) as [Ht Hr].
    destruct Hs as [H|_ H|_ H|]; [| | |done]; specialize (H c Hc);
      [|specialize (H Ht)|]; congruence.
Qed.

(** The order in which the nodes are listed does not decide where a
    sandbox goes: any permutation of the candidates gives the same answer. *)
Theorem schedule_order_independent cands cands' w :
  cands ≡ₚ cands' → Schedule cands w = Schedule cands' w.
Proof.
  intros Hp. apply (schedule_case_det cands' w); [|apply Schedule_cases].
  eapply schedule_case_perm; [done|apply Schedule_cases].
Qed.

(** [Fallback] answers exactly when some candidate is neither cordoned nor
    excluded, with one that has the most of what the request needs and, of
    those that do, the name that sorts first. *)
Theorem fallback_nearest cands exclude w n :
  Fallback cands exclude w = Some n ↔
  ∃ c, c ∈ cands ∧ cand_Name c = n ∧ may_refuse exclude c = true ∧
    ∀ d, d ∈ cands → may_refuse exclude d = true →
      nearness (cand_Status d) w ≤ nearness (cand_Status c) w ∧
      (nearness (cand_Status d) w = nearness (cand_Status c) w →
       str_ltb (cand_Name d) n = false).
Proof.
  assert (∀ c d, nearer w d c = false ↔
    nearness (cand_Status d) w ≤ nearness (cand_Status c) w ∧
    (nearness (cand_Status d) w = nearness (cand_Status c) w →
     str_ltb (cand_Name d) (cand_Name c) = false)) as Hn.
  { intros c d. unfold nearer.
    destruct (Z.eqb_spec (nearness (cand_Status d) w) (nearness (cand_Status c) w)) as [E|E];
      cbn [negb]; [rewrite E; naive_solver lia|].
    split; [intros H; split; [lia|done]|intros [H _]; lia]. }
  unfold Fallback. set (live := List.filter (may_refuse exclude) cands).
  assert (∀ c, c ∈ live ↔ c ∈ cands ∧ may_refuse exclude c = true) as Hl
    by (intros c; apply elem_of_bfilter).
  destruct (sort_stable (nearer w) live) as [|h t] eqn:Es.
  - apply sort_stable_nil_inv in Es. split; [done|]. intros (c & Hc & _ & Hr & _).
    assert (c ∈ live) as H by (by apply Hl). rewrite Es in H. by apply not_elem_of_nil in H.
  - apply sort_stable_head in Es as [Hh Hb]; [|apply _]. apply Hl in Hh as [Hh Hr].
    split.
    + intros [= <-]. exists h. split_and!; try done. intros d Hd Hrd.
      apply Hn, Hb. by apply Hl.
    + intros (c & Hc & <- & Hrc & H). f_equal. apply (nearer_name w).
      * apply Hn. by apply H.
      * apply Hb. by apply Hl.
Qed.

(** ** Concrete nodes, for the witnesses *)
Section witnesses.
Let limits : Limits := {|
  lim_MaxCPUs := float_of_Z 8; lim_MaxMemoryMB := 16384; lim_MaxDiskMB := 65536;
  lim_MaxIdleTimeoutSecs := 0; lim_MaxLifetimeSecs := 0; lim_MinSnapshotEverySecs := 60;
  lim_MaxSnapshotKeep := 10; lim_MinMetricsExportSecs := 10; lim_MaxGPUs := 0 |}.
Let ceiling : NetworkCeiling := {|
  nc_Default := {| np_Mode := NetworkAllowlist; np_Allow := Some ["pypi.org"]%string;
                   np_Deny := []; np_Groups := [] |};
  nc_Ceiling := NetworkAllowlist; nc_MayAllow := [] |}.
Let node_caps : Capabilities := {|
  caps_APIVersion := Version; caps_Backend := "firecracker";
  caps_Capabilities := {[ CapSuspend := true ]}; caps_Limits := limits;
  caps_Network := ceiling |}.
Let room (mem : Z) : NodeResources :=
  {| nr_CPUs := float_of_Z 8; nr_MemoryMB := mem; nr_DiskMB := 0; nr_GPUs := 0 |}.
Let none : NodeResources :=
  {| nr_CPUs := fzero; nr_MemoryMB := 0; nr_DiskMB := 0; nr_GPUs := 0 |}.

Definition example_node (name : string) (mem : Z) : Candidate := {|
  cand_Name := name;
  cand_Status := {| ns_Node := name; ns_Version := "1"; ns_Capabilities := node_caps;
    ns_Capacity := room 16384; ns_Free := room mem; ns_Running := 0; ns_Pooled := ∅;
    ns_Images := []; ns_Labels := ∅; ns_Cordoned := false |};
  cand_Reserved := none |}.

Definition example_want (spread : option (gmap string Z)) : Want := {|
  w_Image := ""; w_CPUs := float_of_Z 2; w_MemoryMB := 1024; w_DiskMB := 0; w_GPUs := 0;
  w_Caps := [CapSuspend]; w_NetworkMode := NetworkAllowlist; w_Node := ""; w_Exclude := [];
  w_Spread := spread |}.
End witnesses.

Lemma schedule_sound_witness :
  let cands := [example_node "n1" 8192; example_node "n2" 4096; example_node "n3" 512] in
  let w := example_want (Some {[ "n1"%string := 1 ]}) in
  ∃ c, c ∈ cands ∧ cand_Name c = "n2"%string ∧ fit w c = true ∧
    ∀ d, d ∈ cands → fit w d = true →
      crowd w c ≤ crowd w d ∧ (crowd w d = crowd w c → better w d c = false).
Proof. intros cands w. apply (schedule_sound cands w "n2"). vm_compute. reflexivity. Defined.

Lemma schedule_order_independent_witness :
  Schedule [example_node "n1" 8192; example_node "n2" 8192] (example_want None) =
  Schedule [example_node "n2" 8192; example_node "n1" 8192] (example_want None).
Proof. apply schedule_order_independent. apply Permutation_swap. Defined.
