(* ===== verification/Fleet.v ===== *)
(** * The fleet's capabilities (internal/gateway/resources.go)

    [CombineCapabilities] folds the nodes' capabilities into what the gateway
    says of itself. The loop over the nodes is [combine_step], whose state is
    the part of [out] the loop writes. *)
From S2P Require Import Prelude GoSort GoStrings Api Scheduler.

Definition intersectAllow (a b : list string) : list string :=
  if bool_decide ("*"%string ∈ a) then b
  else if bool_decide ("*"%string ∈ b) then a
  else List.filter (λ x, bool_decide (x ∈ b)) a.

Record combined := {
  co_Limits : Limits;
  co_Ceiling : string;
  co_MayAllow : list string;
  co_Keys : gmap string bool;
  co_Backends : list string
}.

(** 0 is "no bound". *)
Definition tighter_bound (l c : Z) : Z :=
  if (l =? 0) || ((0 <? c) && (c <? l)) then c else l.

Definition combine_limits (l c : Limits) : Limits := {|
  lim_MaxCPUs := fmin (lim_MaxCPUs l) (lim_MaxCPUs c);
  lim_MaxMemoryMB := Z.min (lim_MaxMemoryMB l) (lim_MaxMemoryMB c);
  lim_MaxDiskMB := Z.min (lim_MaxDiskMB l) (lim_MaxDiskMB c);
  lim_MaxIdleTimeoutSecs := tighter_bound (lim_MaxIdleTimeoutSecs l) (lim_MaxIdleTimeoutSecs c);
  lim_MaxLifetimeSecs := tighter_bound (lim_MaxLifetimeSecs l) (lim_MaxLifetimeSecs c);
  lim_MinSnapshotEverySecs := lim_MinSnapshotEverySecs l;
  lim_MaxSnapshotKeep := lim_MaxSnapshotKeep l;
  lim_MinMetricsExportSecs := Z.max (lim_MinMetricsExportSecs l) (lim_MinMetricsExportSecs c);
  lim_MaxGPUs := lim_MaxGPUs l |}.

Definition combine_step (out : combined) (st : NodeStatus) : combined :=
  let c := ns_Capabilities st in
  {| co_Limits := combine_limits (co_Limits out) (caps_Limits c);
     co_Ceiling :=
       if NetworkRank (nc_Ceiling (caps_Network c)) <? NetworkRank (co_Ceiling out)
       then nc_Ceiling (caps_Network c) else co_Ceiling out;
     co_MayAllow := intersectAllow (co_MayAllow out) (nc_MayAllow (caps_Network c));
     co_Keys := ((λ _, true) <$> caps_Capabilities c) ∪ co_Keys out;
     co_Backends :=
       if bool_decide (caps_Backend c ∈ co_Backends out) then co_Backends out
       else co_Backends out ++ [caps_Backend c] |}.

Definition combine_init (first : Capabilities) : combined := {|
  co_Limits := caps_Limits first; co_Ceiling := nc_Ceiling (caps_Network first);
  co_MayAllow := nc_MayAllow (caps_Network first); co_Keys := ∅; co_Backends := [] |}.

Definition combine_loop (first : Capabilities) (sts : list NodeStatus) : combined :=
  foldl combine_step (combine_init first) sts.

(** The second loop: a capability one node lacks is not the fleet's. *)
Definition shared_keys (sts : list NodeStatus) (keys : gmap string bool) : gmap string bool :=
  map_imap (λ k v, Some (v && forallb (λ st, Has (ns_Capabilities st) k) sts)) keys.

(** The GPU loop. *)
Definition gpu_step (acc : gmap string bool * Z) (st : NodeStatus) : gmap string bool * Z :=
  if Has (ns_Capabilities st) CapGPU
  then (<[CapGPU := true]> (fst acc),
        Z.max (snd acc) (lim_MaxGPUs (caps_Limits (ns_Capabilities st))))
  else acc.

Definition set_MaxGPUs (n : Z) (l : Limits) : Limits := {|
  lim_MaxCPUs := lim_MaxCPUs l; lim_MaxMemoryMB := lim_MaxMemoryMB l;
  lim_MaxDiskMB := lim_MaxDiskMB l; lim_MaxIdleTimeoutSecs := lim_MaxIdleTimeoutSecs l;
  lim_MaxLifetimeSecs := lim_MaxLifetimeSecs l;
  lim_MinSnapshotEverySecs := lim_MinSnapshotEverySecs l;
  lim_MaxSnapshotKeep := lim_MaxSnapshotKeep l;
  lim_MinMetricsExportSecs := lim_MinMetricsExportSecs l; lim_MaxGPUs := n |}.

(** The combined capabilities of [sts], whose first element's are [first]. *)
Definition combine_all (first : Capabilities) (sts : list NodeStatus) : Capabilities :=
  let out := combine_loop first sts in
  let keys := <[CapImages := false]> (shared_keys sts (co_Keys out)) in
  let gpus := foldl gpu_step (keys, 0) sts in
  let default := nc_Default (caps_Network first) in
  {| caps_APIVersion := Version;
     caps_Backend := join "+" (sort_stable str_ltb (co_Backends out));
     caps_Capabilities := fst gpus;
     caps_Limits := set_MaxGPUs (snd gpus) (co_Limits out);
     caps_Network := {|
       nc_Default :=
         if NetworkRank (np_Mode default) >? NetworkRank (co_Ceiling out)
         then {| np_Mode := co_Ceiling out; np_Allow := Some []; np_Deny := [];
                 np_Groups := [] |}
         else default;
       nc_Ceiling := co_Ceiling out;
       nc_MayAllow := co_MayAllow out |} |}.

(** [sts[0]] is out of range on an empty slice; the caller never passes one. *)
Definition CombineCapabilities (sts : list NodeStatus) : option Capabilities :=
  match sts with
  | [] => None
  | st0 :: _ => Some (combine_all (ns_Capabilities st0) sts)
  end.

(** [combinedCapabilities]: none where no node is answering. *)
Definition combinedCapabilities (cands : list Candidate) : option Capabilities :=
  CombineCapabilities (cand_Status <$> cands).

(** ** What a list of allowed names permits *)
Definition permits (l : list string) (x : string) : Prop := "*"%string ∈ l ∨ x ∈ l.

Lemma permits_intersect a b x :
  permits (intersectAllow a b) x ↔ permits a x ∧ permits b x.
Proof.
  unfold permits, intersectAllow. repeat case_bool_decide; try naive_solver.
  rewrite !elem_of_bfilter, !bool_decide_eq_true. naive_solver.
Qed.

(** ** Each step only tightens *)

(** A node whose limits are numbers and whose bounds are not negative. *)
Definition sane_limits (l : Limits) : Prop :=
  is_nan (lim_MaxCPUs l) = false ∧ 0 ≤ lim_MaxIdleTimeoutSecs l ∧ 0 ≤ lim_MaxLifetimeSecs l.

(** The bound [a] is at least as tight as [b], 0 being no bound. *)
Definition bound_within (a b : Z) : Prop := b = 0 ∨ (0 < a ∧ a ≤ b).

(** What [l] admits, [m] admits. *)
Definition limits_within (l m : Limits) : Prop :=
  fleb (lim_MaxCPUs l) (lim_MaxCPUs m) = true ∧
  lim_MaxMemoryMB l ≤ lim_MaxMemoryMB m ∧ lim_MaxDiskMB l ≤ lim_MaxDiskMB m ∧
  bound_within (lim_MaxIdleTimeoutSecs l) (lim_MaxIdleTimeoutSecs m) ∧
  bound_within (lim_MaxLifetimeSecs l) (lim_MaxLifetimeSecs m) ∧
  lim_MinMetricsExportSecs m ≤ lim_MinMetricsExportSecs l.

#[export] Instance bound_within_trans : Transitive bound_within.
Proof. intros x y z. unfold bound_within. lia. Qed.

#[export] Instance limits_within_trans : Transitive limits_within.
Proof.
  intros x y z (?&?&?&?&?&?) (?&?&?&?&?&?). split_and!; try lia;
    [by eapply fleb_trans | by etrans | by etrans].
Qed.

Lemma tighter_bound_nonneg l c : 0 ≤ l → 0 ≤ c → 0 ≤ tighter_bound l c.
Proof. unfold tighter_bound. case_match; lia. Qed.

Lemma tighter_bound_within l c :
  0 ≤ l → 0 ≤ c → bound_within (tighter_bound l c) l ∧ bound_within (tighter_bound l c) c.
Proof. unfold tighter_bound, bound_within. case_match; lia. Qed.

Lemma combine_limits_within l c :
  sane_limits l → sane_limits c →
  limits_within (combine_limits l c) l ∧ limits_within (combine_limits l c) c ∧
  sane_limits (combine_limits l c).
Proof.
  intros (Hn & Hi & Hl) (Hn' & Hi' & Hl').
  unfold limits_within, sane_limits, combine_limits; cbn.
  destruct (tighter_bound_within _ _ Hi Hi'), (tighter_bound_within _ _ Hl Hl').
  split_and!; try done; try lia;
    auto using fmin_le_l, fmin_le_r, fmin_not_nan, tighter_bound_nonneg.
Qed.

Lemma limits_within_refl l : sane_limits l → limits_within l l.
Proof.
  intros (Hn & Hi & Hl). unfold limits_within, bound_within.
  split_and!; try lia. by apply fleb_refl.
Qed.

(** The loop's state is within [m] in limits, ceiling and names. *)
Definition within_caps (o : combined) (c : Capabilities) : Prop :=
  limits_within (co_Limits o) (caps_Limits c) ∧
  NetworkRank (co_Ceiling o) ≤ NetworkRank (nc_Ceiling (caps_Network c)).

Lemma combine_loop_spec sts : ∀ o,
  sane_limits (co_Limits o) →
  Forall (λ st, sane_limits (caps_Limits (ns_Capabilities st))) sts →
  let o' := foldl combine_step o sts in
  limits_within (co_Limits o') (co_Limits o) ∧
  NetworkRank (co_Ceiling o') ≤ NetworkRank (co_Ceiling o) ∧
  ∀ st, st ∈ sts → within_caps o' (ns_Capabilities st).
Proof.
  induction sts as [|st sts IH]; cbn; intros o Ho Hs.
  { split_and!; [by apply limits_within_refl|lia|].
    intros st Hst. by apply not_elem_of_nil in Hst. }
  apply Forall_cons in Hs as [Hst Hs].
  destruct (combine_limits_within _ _ Ho Hst) as (H1 & H2 & H3).
  destruct (IH (combine_step o st) H3 Hs) as (I1 & I2 & I3).
  assert (NetworkRank (co_Ceiling (combine_step o st)) ≤ NetworkRank (co_Ceiling o) ∧
          NetworkRank (co_Ceiling (combine_step o st)) ≤
            NetworkRank (nc_Ceiling (caps_Network (ns_Capabilities st)))) as [R1 R2].
  { cbn. case_match eqn:E; lia. }
  split_and!; [by etrans|lia|].
  intros st' [->|Hin]%elem_of_cons; [|by apply I3].
  split; [etrans; [exact I1|exact H2]|lia].
Qed.

Lemma combine_loop_permits sts x : ∀ o,
  permits (co_MayAllow (foldl combine_step o sts)) x ↔
  permits (co_MayAllow o) x ∧
  ∀ st, st ∈ sts → permits (nc_MayAllow (caps_Network (ns_Capabilities st))) x.
Proof.
  induction sts as [|st sts IH]; cbn; intros o.
  - split; [|tauto]. intros H. split; [done|]. intros st Hst. by apply not_elem_of_nil in Hst.
  - rewrite IH. cbn. rewrite permits_intersect. split.
    + intros [[H1 H2] H3]. split; [done|]. intros st' [->|Hin]%elem_of_cons; auto.
    + intros [H1 H2]. split_and!; [done|apply H2; constructor|].
      intros st' Hin. apply H2. by constructor.
Qed.

Lemma gpu_fold_other sts k : ∀ acc,
  k ≠ CapGPU → fst (foldl gpu_step acc sts) !! k = fst acc !! k.
Proof.
  induction sts as [|st sts IH]; cbn; intros acc Hk; [done|].
  rewrite IH by done. unfold gpu_step. case_match; cbn [fst]; [|done]. by rewrite lookup_insert_ne.
Qed.

Lemma gpu_fold_spec sts : ∀ keys m,
  let acc := foldl gpu_step (keys, m) sts in
  (m ≤ snd acc) ∧
  (∀ st, st ∈ sts → Has (ns_Capabilities st) CapGPU = true →
     lim_MaxGPUs (caps_Limits (ns_Capabilities st)) ≤ snd acc) ∧
  (snd acc = m ∨ ∃ st, st ∈ sts ∧ Has (ns_Capabilities st) CapGPU = true ∧
     snd acc = lim_MaxGPUs (caps_Limits (ns_Capabilities st))).
Proof.
  induction sts as [|st sts IH]; cbn; intros keys m.
  { split_and!; [lia| |by left]. intros st Hst. by apply not_elem_of_nil in Hst. }
  unfold gpu_step at 2 4 6 8. cbn [fst snd].
  destruct (Has (ns_Capabilities st) CapGPU) eqn:E.
  - destruct (IH (<[CapGPU:=true]> keys)
      (Z.max m (lim_MaxGPUs (caps_Limits (ns_Capabilities st))))) as (I1 & I2 & I3).
    split_and!; [lia| |].
    + intros st' [->|Hin]%elem_of_cons Hg; [lia|auto].
    + destruct I3 as [I3|(st' & Hin & Hg & I3)].
      * destruct (Z.le_ge_cases m (lim_MaxGPUs (caps_Limits (ns_Capabilities st)))).
        -- right. exists st. split_and!; [constructor|done|]. rewrite I3. lia.
        -- left. rewrite I3. lia.
      * right. exists st'. split_and!; [by constructor|done|done].
  - destruct (IH keys m) as (I1 & I2 & I3). split_and!; [done| |].
    + intros st' [->|Hin]%elem_of_cons Hg; [congruence|auto].
    + destruct I3 as [I3|(st' & Hin & Hg & I3)]; [by left|].
      right. exists st'. split_and!; [by constructor|done|done].
Qed.

Lemma gpu_fold_has sts : ∀ acc st,
  st ∈ sts → Has (ns_Capabilities st) CapGPU = true →
  fst (foldl gpu_step acc sts) !! CapGPU = Some true.
Proof.
  assert (∀ l acc, fst acc !! CapGPU = Some true →
    fst (foldl gpu_step acc l) !! CapGPU = Some true) as Hkeep.
  { induction l as [|x l IH]; intros acc H; [done|]. cbn [foldl]. apply IH.
    unfold gpu_step. case_match; cbn [fst]; [|done]. by rewrite lookup_insert_eq. }
  induction sts as [|x sts IH]; intros acc st Hst Hg; [by apply not_elem_of_nil in Hst|].
  cbn [foldl]. apply elem_of_cons in Hst as [->|Hst]; [|by eapply IH].
  apply Hkeep. unfold gpu_step. rewrite Hg. cbn [fst]. by rewrite lookup_insert_eq.
Qed.

(** ** The fleet's promise *)

(** The combined capabilities as the scheduler's check reads them. *)
Definition fleet_status (c : Capabilities) : NodeStatus := {|
  ns_Node := ""; ns_Version := ""; ns_Capabilities := c;
  ns_Capacity := {| nr_CPUs := fzero; nr_MemoryMB := 0; nr_DiskMB := 0; nr_GPUs := 0 |};
  ns_Free := {| nr_CPUs := fzero; nr_MemoryMB := 0; nr_DiskMB := 0; nr_GPUs := 0 |};
  ns_Running := 0; ns_Pooled := ∅; ns_Images := []; ns_Labels := ∅; ns_Cordoned := false |}.

Lemma combined_Has sts caps k st :
  CombineCapabilities sts = Some caps → st ∈ sts → k ≠ CapGPU →
  Has caps k = true → Has (ns_Capabilities st) k = true.
Proof.
  destruct sts as [|st0 sts0]; [done|]. set (sts := st0 :: sts0).
  intros [= <-] Hst Hk. unfold Has at 1, combine_all; cbn [caps_Capabilities].
  rewrite gpu_fold_other by done. cbn [fst].
  destruct (decide (k = CapImages)) as [->|Hi]; [by rewrite lookup_insert_eq|].
  rewrite lookup_insert_ne by done. unfold shared_keys. rewrite map_lookup_imap.
  destruct (co_Keys (combine_loop (ns_Capabilities st0) sts) !! k) as [v|]; [|done].
  cbn [mbind option_bind default id]. intros H. bool_simpl.
  match goal with H : forallb _ _ = true |- _ => rewrite forallb_forall in H; apply H end.
  by apply list_elem_of_In.
Qed.

Lemma combined_within sts caps st :
  CombineCapabilities sts = Some caps →
  Forall (λ st, sane_limits (caps_Limits (ns_Capabilities st))) sts →
  st ∈ sts →
  limits_within (set_MaxGPUs 0 (caps_Limits caps)) (caps_Limits (ns_Capabilities st)) ∧
  NetworkRank (nc_Ceiling (caps_Network caps)) ≤
    NetworkRank (nc_Ceiling (caps_Network (ns_Capabilities st))).
Proof.
  destruct sts as [|st0 sts0]; [done|]. set (sts := st0 :: sts0). intros [= <-] Hs Hst.
  destruct (combine_loop_spec sts (combine_init (ns_Capabilities st0))) as (_ & _ & H).
  { unfold sts in Hs. by apply Forall_cons in Hs as [? _]. }
  { done. }
  apply (H st Hst).
Qed.

(** What the fleet says it can run, every node can: a request for no GPU
    that is within the combined capabilities, limits and network ceiling is
    within those of each node, so whichever node it lands on does not refuse
    it for them. *)
Theorem combined_conservative sts caps w st :
  CombineCapabilities sts = Some caps →
  Forall (λ st, sane_limits (caps_Limits (ns_Capabilities st))) sts →
  w_GPUs w ≤ 0 → CapGPU ∉ w_Caps w →
  canRun (fleet_status caps) w = true →
  st ∈ sts → canRun st w = true.
Proof.
  intros Hc Hs Hg Hn Hr Hst.
  destruct (combined_within sts caps st Hc Hs Hst) as [(Hcpu & Hmem & Hdisk & _) Hnet].
  cbn in Hcpu, Hmem, Hdisk.
  unfold canRun in *; cbn [fleet_status ns_Capabilities] in Hr.
  assert ((w_GPUs w >? 0) = false) as HG by lia. rewrite HG in *. cbn [andb] in *.
  split_matches_in Hr. bool_simpl.
  assert (forallb (Has (ns_Capabilities st)) (w_Caps w) = true) as ->.
  { apply forallb_forall. intros k Hk.
    assert (k ∈ w_Caps w) by (by apply list_elem_of_In).
    eapply combined_Has; [done|done|by intros ->|].
    match goal with H : forallb _ _ = true |- _ => rewrite forallb_forall in H; by apply H end. }
  cbn [negb]. rewrite !(proj2 (Z.leb_le _ _)) by lia.
  erewrite fleb_trans by done.
  destruct (negb (String.eqb (w_NetworkMode w) "")); cbn [andb] in *; [|done].
  case_match; [|done]. bool_simpl. lia.
Qed.

(** The fleet offers GPUs exactly when some node has them, and as many as
    the best of those gives: a request for more than none of them, within
    what the fleet offers, is within what some node offers. *)
Theorem combined_gpus sts caps n :
  CombineCapabilities sts = Some caps → 0 < n →
  (Has caps CapGPU = true ∧ n ≤ lim_MaxGPUs (caps_Limits caps) ↔
   ∃ st, st ∈ sts ∧ Has (ns_Capabilities st) CapGPU = true ∧
     n ≤ lim_MaxGPUs (caps_Limits (ns_Capabilities st))).
Proof.
  destruct sts as [|st0 sts0]; [done|]. set (sts := st0 :: sts0). intros [= <-] Hn.
  fold sts. unfold combine_all. cbn [caps_Limits set_MaxGPUs lim_MaxGPUs].
  match goal with |- context [foldl gpu_step (?k, 0) sts] => set (keys := k) end.
  destruct (gpu_fold_spec sts keys 0) as (H1 & H2 & H3). split.
  - intros [_ Hle]. destruct H3 as [H3|(st & Hst & Hg & H3)]; [lia|].
    exists st. split_and!; [done|done|lia].
  - intros (st & Hst & Hg & Hle). specialize (H2 st Hst Hg). split; [|lia].
    unfold Has; cbn [caps_Capabilities]. by rewrite (gpu_fold_has sts _ st).
Qed.

(** A name is one the fleet's ceiling permits exactly when every node's
    does, "*" standing for every name on either side. *)
Theorem combined_may_allow sts caps x :
  CombineCapabilities sts = Some caps →
  permits (nc_MayAllow (caps_Network caps)) x ↔
  ∀ st, st ∈ sts → permits (nc_MayAllow (caps_Network (ns_Capabilities st))) x.
Proof.
  destruct sts as [|st0 sts0]; [done|]. intros [= <-].
  cbn [combine_all caps_Network nc_MayAllow]. unfold combine_loop. rewrite combine_loop_permits.
  cbn [combine_init co_MayAllow]. split; [tauto|]. intros H. split; [apply H; constructor|done].
Qed.

(** The snapshot limits are the first node's: the loop folds every other
    limit and leaves these. *)
Lemma combined_snapshot_limits st sts caps :
  CombineCapabilities (st :: sts) = Some caps →
  lim_MinSnapshotEverySecs (caps_Limits caps) =
    lim_MinSnapshotEverySecs (caps_Limits (ns_Capabilities st)) ∧
  lim_MaxSnapshotKeep (caps_Limits caps) =
    lim_MaxSnapshotKeep (caps_Limits (ns_Capabilities st)).
Proof.
  intros [= <-]. cbn [combine_all caps_Limits set_MaxGPUs lim_MinSnapshotEverySecs lim_MaxSnapshotKeep].
  unfold combine_loop. generalize (st :: sts) as l.
  assert (∀ l o,
    lim_MinSnapshotEverySecs (co_Limits (foldl combine_step o l)) =
      lim_MinSnapshotEverySecs (co_Limits o) ∧
    lim_MaxSnapshotKeep (co_Limits (foldl combine_step o l)) =
      lim_MaxSnapshotKeep (co_Limits o)) as H.
  { induction l as [|x l IH]; intros o; [done|]. cbn [foldl].
    by destruct (IH (combine_step o x)) as [-> ->]. }
  intros l. by destruct (H l (combine_init (ns_Capabilities st))) as [-> ->].
Qed.

(** ** Witnesses *)
Definition example_gpu_status (n : Z) : NodeStatus :=
  let base := cand_Status (example_node "g1" 8192) in
  let c := ns_Capabilities base in
  {| ns_Node := "g1"; ns_Version := "1";
     ns_Capabilities := {| caps_APIVersion := Version; caps_Backend := "firecracker";
       caps_Capabilities := {[ CapSuspend := true; CapGPU := true ]};
       caps_Limits := set_MaxGPUs n (caps_Limits c); caps_Network := caps_Network c |};
     ns_Capacity := ns_Capacity base; ns_Free := ns_Free base; ns_Running := 0;
     ns_Pooled := ∅; ns_Images := []; ns_Labels := ∅; ns_Cordoned := false |}.

Definition example_fleet : list NodeStatus :=
  [cand_Status (example_node "n1" 8192); example_gpu_status 2].

Lemma combined_conservative_witness :
  canRun (example_gpu_status 2) (example_want None) = true.
Proof.
  apply (combined_conservative example_fleet
           (combine_all (ns_Capabilities (cand_Status (example_node "n1" 8192))) example_fleet)).
  - reflexivity.
  - repeat constructor; vm_compute; congruence.
  - vm_compute; congruence.
  - intros H. apply (bool_decide_pack _) in H. vm_compute in H. exact H.
  - vm_compute. reflexivity.
  - right. left.
Defined.

Lemma combined_gpus_witness :
  ∃ st, st ∈ example_fleet ∧ Has (ns_Capabilities st) CapGPU = true ∧
    2 ≤ lim_MaxGPUs (caps_Limits (ns_Capabilities st)).
Proof.
  apply (combined_gpus example_fleet
    (combine_all (ns_Capabilities (cand_Status (example_node "n1" 8192))) example_fleet));
    [reflexivity | lia |].
  split; [vm_compute; reflexivity | vm_compute; congruence].
Defined.

Lemma combined_may_allow_witness :
  permits (nc_MayAllow (caps_Network
    (combine_all (ns_Capabilities (example_gpu_status 1)) [example_gpu_status 1]))) "pypi.org" ↔
  ∀ st, st ∈ [example_gpu_status 1] →
    permits (nc_MayAllow (caps_Network (ns_Capabilities st))) "pypi.org".
Proof. apply combined_may_allow. reflexivity. Defined.
