(* ===== verification/EgressNames.v ===== *)
(** * Egress by name (internal/egressproxy/host.go)

    The allowlist matcher. [normalizeHost] is the one form names are compared
    in; a [Matcher] holds exact names, suffixes from "*." patterns, a deny
    matcher and the flag of open egress. A Go [map[string]bool] that only ever
    stores [true] is a [gset]. *)
From S2P Require Import Prelude GoStrings.

Section names.
Context `{Unicode}.

(** [h[:i]] where [i] is the last colon, unless the colon is inside an IPv6
    literal. *)
Definition strip_port (h : string) : string :=
  match last_index_byte h ":" with
  | None => h
  | Some i =>
      let head := take i (chars h) in
      let tail := drop i (chars h) in
      if negb (bool_decide (("]"%char : ascii) ∈ tail)) &&
         (negb (bool_decide ((":"%char : ascii) ∈ head)) || has_suffix (of_chars head) "]")
      then of_chars head else h
  end.

Definition normalizeHost (h : string) : string :=
  to_lower (trim_suffix (strip_port (trim_space h)) ".").

Inductive Matcher :=
| mk_Matcher (exact : gset string) (suffixes : list string) (deny : option Matcher) (all : bool).

Definition m_exact (m : Matcher) : gset string := match m with mk_Matcher e _ _ _ => e end.
Definition m_suffixes (m : Matcher) : list string := match m with mk_Matcher _ s _ _ => s end.
Definition m_deny (m : Matcher) : option Matcher := match m with mk_Matcher _ _ d _ => d end.

(** One turn of [NewMatcher]'s loop. *)
Definition add_pattern (acc : gset string * list string) (p : string)
    : gset string * list string :=
  let p := normalizeHost p in
  if String.eqb p "" then acc
  else match cut_prefix p "*." with
       | Some rest =>
           if negb (String.eqb rest "") then (fst acc, snd acc ++ ["." +:+ rest])
           else ({[ p ]} ∪ fst acc, snd acc)
       | None => ({[ p ]} ∪ fst acc, snd acc)
       end.

Definition NewMatcher (patterns : list string) : Matcher :=
  let acc := foldl add_pattern (∅, []) patterns in
  mk_Matcher (fst acc) (snd acc) None false.

Definition Len (m : Matcher) : Z :=
  Z.of_nat (size (m_exact m)) + Z.of_nat (length (m_suffixes m)).

Definition with_deny (m : Matcher) (d : Matcher) : Matcher :=
  match m with mk_Matcher e s d0 a => if Len d >? 0 then mk_Matcher e s (Some d) a else m end.

Definition NewPolicyMatcher (allow deny : list string) : Matcher :=
  with_deny (NewMatcher allow) (NewMatcher deny).

Definition NewDenyMatcher (deny : list string) : Matcher :=
  match NewPolicyMatcher [] deny with mk_Matcher e s d _ => mk_Matcher e s d true end.

Definition suffix_allows (h suf : string) : bool :=
  has_suffix h suf && (strlen suf <? strlen h).

Fixpoint Allows (m : Matcher) (host : string) : bool :=
  match m with
  | mk_Matcher exact suffixes deny all =>
      let h := normalizeHost host in
      if String.eqb h "" then false
      else if match deny with Some d => Allows d h | None => false end then false
      else if all || bool_decide (h ∈ exact) then true
      else existsb (suffix_allows h) suffixes
  end.

(** [Decision], without its [Reason] text's formatting: the reasons are the
    constants the callers write. *)
Record Decision := {
  d_Host : string;
  d_Port : Z;
  d_Allowed : bool;
  d_Reason : string
}.

(** ** What a pattern means *)

(** The pattern [p], as configured, names the normalized host [h]: itself, or
    "*." and a suffix of which [h] is a proper subdomain. *)
Definition names (p h : string) : Prop :=
  let q := normalizeHost p in
  q ≠ ""%string ∧
  ((∃ rest sub, rest ≠ ""%string ∧ q = "*." +:+ rest ∧ sub ≠ ""%string ∧
      h = sub +:+ "." +:+ rest) ∨
   ((∀ rest, q = "*." +:+ rest → rest = ""%string) ∧ h = q)).

Definition named (ps : list string) (h : string) : Prop := ∃ p, p ∈ ps ∧ names p h.

Lemma named_app a b h : named (a ++ b) h ↔ named a h ∨ named b h.
Proof. unfold named. setoid_rewrite elem_of_app. naive_solver. Qed.

Lemma suffix_allows_true h rest :
  suffix_allows h ("." +:+ rest) = true ↔ ∃ sub, sub ≠ ""%string ∧ h = sub +:+ "." +:+ rest.
Proof.
  unfold suffix_allows, strlen. rewrite andb_true_iff, has_suffix_true, Z.ltb_lt. split.
  - intros [[sub ->] Hl]. exists sub. split; [|done]. intros ->. exact (Z.lt_irrefl _ Hl).
  - intros (sub & Hs & ->). split; [by eexists|].
    rewrite <- !length_chars, !chars_app, !length_app.
    destruct sub as [|c sub]; [done|].
    change (chars (String c sub)) with (c :: chars sub). rewrite length_cons. lia.
Qed.

Lemma str_eqb_true a b : String.eqb a b = true ↔ a = b.
Proof. apply String.eqb_eq. Qed.

(** What the matcher's two fields hold after the loop. *)
Lemma add_patterns_spec ps h : ∀ acc,
  let acc' := foldl add_pattern acc ps in
  (h ∈ fst acc' ∨ existsb (suffix_allows h) (snd acc') = true) ↔
  (h ∈ fst acc ∨ existsb (suffix_allows h) (snd acc) = true) ∨ named ps h.
Proof.
  induction ps as [|p ps IH]; intros acc; cbn.
  { unfold named. split; [tauto|]. intros [?|(p & Hp & _)]; [done|].
    by apply not_elem_of_nil in Hp. }
  rewrite IH. clear IH.
  assert (named (p :: ps) h ↔ names p h ∨ named ps h) as ->.
  { unfold named. setoid_rewrite elem_of_cons. naive_solver. }
  assert ((h ∈ fst (add_pattern acc p) ∨
           existsb (suffix_allows h) (snd (add_pattern acc p)) = true) ↔
          (h ∈ fst acc ∨ existsb (suffix_allows h) (snd acc) = true) ∨ names p h) as ->;
    [|tauto].
  unfold add_pattern, names. set (q := normalizeHost p).
  destruct (String.eqb q "") eqn:Eq.
  { apply str_eqb_true in Eq. rewrite Eq. naive_solver. }
  assert (q ≠ ""%string) as Hq by (by intros E; apply str_eqb_true in E; congruence).
  destruct (cut_prefix q "*.") as [rest|] eqn:Ec.
  - apply cut_prefix_some in Ec. destruct (String.eqb rest "") eqn:Er; cbn [negb fst snd].
    + apply str_eqb_true in Er as ->. rewrite elem_of_union, elem_of_singleton.
      split; [|intros [?|[_ [(rest & sub & Hr & Hq' & _)|[_ ->]]]]; [tauto| |tauto]].
      * intros [[->|?]|?]; [|tauto|tauto]. right. split; [done|right].
        split; [|done]. intros r Hr. rewrite Ec in Hr.
        apply (f_equal (λ s, cut_prefix s "*.")) in Hr.
        rewrite !(proj2 (cut_prefix_some _ _ _) eq_refl) in Hr. by simplify_eq.
      * rewrite Ec in Hq'. exfalso. apply Hr.
        apply (f_equal (λ s, cut_prefix s "*.")) in Hq'.
        rewrite !(proj2 (cut_prefix_some _ _ _) eq_refl) in Hq'. by simplify_eq.
    + assert (rest ≠ ""%string) by (by intros E; apply str_eqb_true in E; congruence).
      rewrite existsb_app, orb_true_iff. cbn [existsb]. rewrite orb_false_r, suffix_allows_true.
      split; [intros [?|[?|(sub & Hs & ->)]]; [tauto|tauto|]|].
      * right. split; [done|left]. exists rest, sub. done.
      * intros [?|[_ [(r & sub & Hr & Hq' & Hs & ->)|[Hno _]]]]; [tauto| |].
        -- rewrite Ec in Hq'. apply (f_equal (λ s, cut_prefix s "*.")) in Hq'.
           rewrite !(proj2 (cut_prefix_some _ _ _) eq_refl) in Hq'. simplify_eq. eauto.
        -- by destruct (Hno rest Ec).
  - cbn [fst snd]. rewrite elem_of_union, elem_of_singleton.
    assert (∀ rest, q ≠ "*." +:+ rest) as Hno.
    { intros rest E. apply cut_prefix_some in E. congruence. }
    split; [|naive_solver].
    intros [[->|?]|?]; [|tauto|tauto]. right. split; [done|right]. split; [|done].
    intros rest E. by destruct (Hno rest).
Qed.

Lemma new_matcher_named ps h :
  (h ∈ m_exact (NewMatcher ps) ∨ existsb (suffix_allows h) (m_suffixes (NewMatcher ps)) = true) ↔
  named ps h.
Proof.
  unfold NewMatcher; cbn [m_exact m_suffixes]. rewrite add_patterns_spec. cbn.
  split; [|tauto]. intros [[H'|?]|?]; [|done|done]. by apply not_elem_of_empty in H'.
Qed.

Lemma allows_lists e s d a host :
  Allows (mk_Matcher e s d a) host = true ↔
  let h := normalizeHost host in
  h ≠ ""%string ∧
  (match d with Some d' => Allows d' h | None => false end) = false ∧
  (a = true ∨ h ∈ e ∨ existsb (suffix_allows h) s = true).
Proof.
  cbn [Allows]. set (h := normalizeHost host).
  destruct (String.eqb h "") eqn:E.
  { apply str_eqb_true in E. rewrite E. naive_solver. }
  assert (h ≠ ""%string) by (by intros E'; apply str_eqb_true in E'; congruence).
  destruct (match d with Some d' => Allows d' h | None => false end); [naive_solver|].
  destruct a; cbn [orb]; [naive_solver|].
  case_bool_decide; naive_solver.
Qed.

Lemma new_matcher_allows ps host :
  Allows (NewMatcher ps) host = true ↔
  normalizeHost host ≠ ""%string ∧ named ps (normalizeHost host).
Proof.
  pose proof (new_matcher_named ps (normalizeHost host)) as Hn.
  unfold NewMatcher in *. rewrite allows_lists. cbn [m_exact m_suffixes] in Hn. naive_solver.
Qed.

Lemma Len_zero ps h : (Len (NewMatcher ps) >? 0) = false → ¬ named ps h.
Proof.
  intros Hl Hn. apply new_matcher_named in Hn. unfold Len in Hl.
  assert (size (m_exact (NewMatcher ps)) = 0%nat ∧ length (m_suffixes (NewMatcher ps)) = 0%nat)
    as [He Hs] by lia.
  apply size_empty_inv in He. apply nil_length_inv in Hs.
  destruct Hn as [Hn|Hn]; [set_solver|]. by rewrite Hs in Hn.
Qed.

Lemma policy_deny allow deny host :
  (match m_deny (NewPolicyMatcher allow deny) with
   | Some d => Allows d host | None => false end) = true ↔
  normalizeHost host ≠ ""%string ∧ named deny (normalizeHost host).
Proof.
  rewrite <- new_matcher_allows. unfold NewPolicyMatcher, with_deny.
  destruct (Len (NewMatcher deny) >? 0) eqn:E; cbn [m_deny NewMatcher]; [done|].
  split; [done|]. intros [_ Hn]%new_matcher_allows. by apply (Len_zero _ _ E) in Hn.
Qed.

Lemma NewPolicyMatcher_eq allow deny :
  NewPolicyMatcher allow deny =
  mk_Matcher (m_exact (NewMatcher allow)) (m_suffixes (NewMatcher allow))
    (m_deny (NewPolicyMatcher allow deny)) false.
Proof.
  unfold NewPolicyMatcher, with_deny, NewMatcher at 1.
  by destruct (Len (NewMatcher deny) >? 0).
Qed.

(** A policy's matcher permits a connection exactly when the name it asks
    for, in the one form names are compared in, is one the allowlist names and
    none the deny list does: deny wins over any allowlist entry, a wildcard
    among them. *)
Theorem policy_allows_spec allow deny host :
  let h := normalizeHost host in
  Allows (NewPolicyMatcher allow deny) host = true ↔
  h ≠ ""%string ∧ named allow h ∧
  ¬ (normalizeHost h ≠ ""%string ∧ named deny (normalizeHost h)).
Proof.
  intros h. rewrite <- (policy_deny allow deny h), <- (new_matcher_named allow h).
  rewrite NewPolicyMatcher_eq, allows_lists, not_true_iff_false. fold h.
  cbn [m_deny]. naive_solver.
Qed.

(** Open egress permits every name except those the deny list names. *)
Theorem open_allows_spec deny host :
  let h := normalizeHost host in
  Allows (NewDenyMatcher deny) host = true ↔
  h ≠ ""%string ∧ ¬ (normalizeHost h ≠ ""%string ∧ named deny (normalizeHost h)).
Proof.
  intros h. rewrite <- (policy_deny [] deny h). unfold NewDenyMatcher.
  destruct (NewPolicyMatcher [] deny) as [e s d a]. cbn [m_deny].
  rewrite allows_lists, not_true_iff_false. fold h. naive_solver.
Qed.

(** No subdomain is implied: where no pattern is a wildcard, a permitted
    name is one of the patterns. *)
Theorem no_implied_subdomains allow deny host :
  (∀ p rest, p ∈ allow → normalizeHost p ≠ "*." +:+ rest) →
  Allows (NewPolicyMatcher allow deny) host = true →
  normalizeHost host ∈ normalizeHost <$> allow.
Proof.
  intros Hlit Ha.
  assert (named allow (normalizeHost host)) as (p & Hp & Hq & Hn).
  { apply new_matcher_named. rewrite NewPolicyMatcher_eq, allows_lists in Ha. naive_solver. }
  destruct Hn as [(rest & sub & _ & E & _)|[_ ->]]; [by destruct (Hlit p rest Hp)|].
  apply list_elem_of_fmap. eauto.
Qed.

(** ** Spellings of one name *)
Definition plain_char (c : ascii) : bool :=
  ascii_char c && negb (ascii_space c) && negb (is_char ":" c) && negb (is_char "]" c).

(** A host name as a person writes one: ASCII, no space, colon or bracket, and
    no trailing dot. *)
Definition plain_host (s : string) : bool :=
  forallb plain_char (chars s) && negb (has_suffix s ".").

Lemma plain_chars s : (forallb plain_char (chars s) = true) →
  is_ascii s = true ∧ Forall (λ c, ascii_space c = false) (chars s) ∧
  ¬ (":"%char ∈ chars s) ∧ ¬ ("]"%char ∈ chars s).
Proof.
  rewrite forallb_forall. unfold plain_char. intros Hp.
  split_and!.
  - apply is_ascii_chars, Forall_forall. intros c Hin%list_elem_of_In%Hp. by bool_simpl.
  - apply Forall_forall. intros c Hin%list_elem_of_In%Hp. by bool_simpl.
  - intros Hin%list_elem_of_In%Hp. by bool_simpl.
  - intros Hin%list_elem_of_In%Hp. by bool_simpl.
Qed.

Lemma trim_space_plain s :
  is_ascii s = true → Forall (λ c, ascii_space c = false) (chars s) → trim_space s = s.
Proof.
  intros Ha Hs. unfold trim_space. rewrite Ha, trim_spaces_no_space by done.
  apply of_chars_chars.
Qed.

Lemma strip_port_none s : (":"%char : ascii) ∉ chars s → strip_port s = s.
Proof.
  intros Hc. unfold strip_port, last_index_byte.
  by rewrite (proj2 (last_index_chars_none _ _) Hc).
Qed.

(** A [:port] is not part of the name. *)
Lemma strip_port_port s p :
  (":"%char : ascii) ∉ chars s → (":"%char : ascii) ∉ chars p → ("]"%char : ascii) ∉ chars p →
  strip_port (s +:+ ":" +:+ p) = s.
Proof.
  intros Hs Hp Hb. unfold strip_port, last_index_byte.
  assert (chars (s +:+ ":" +:+ p) = chars s ++ ":"%char :: chars p) as Hc
    by (rewrite !chars_app; done).
  assert (last_index_chars ":" (chars (s +:+ ":" +:+ p)) = Some (length (chars s))) as ->.
  { rewrite Hc. apply last_index_chars_some. split.
    - by rewrite list_lookup_middle.
    - rewrite <- (Nat.add_1_r (length _)), drop_app_add. done. }
  rewrite Hc, take_app_length, drop_app_length.
  rewrite (bool_decide_eq_false_2 (":"%char ∈ chars s)) by done.
  rewrite bool_decide_eq_false_2; [by rewrite of_chars_chars|].
  by rewrite not_elem_of_cons.
Qed.

Lemma normalizeHost_plain s : plain_host s = true → normalizeHost s = to_lower s.
Proof.
  unfold plain_host. intros [Hp Hd]%andb_true_iff. destruct (plain_chars s Hp) as (Ha & Hs & Hc & _).
  apply negb_true_iff in Hd. unfold normalizeHost.
  by rewrite trim_space_plain, strip_port_none, trim_suffix_none.
Qed.

Lemma plain_app a b :
  forallb plain_char (chars (a +:+ b)) = forallb plain_char (chars a) && forallb plain_char (chars b).
Proof. by rewrite chars_app, forallb_app. Qed.

Lemma normalizeHost_dot s : plain_host s = true → normalizeHost (s +:+ ".") = to_lower s.
Proof.
  unfold plain_host. intros [Hp _]%andb_true_iff.
  assert (forallb plain_char (chars (s +:+ ".")) = true) as Hp' by (rewrite plain_app, Hp; done).
  destruct (plain_chars _ Hp') as (Ha & Hs & Hc & _). unfold normalizeHost.
  by rewrite trim_space_plain, strip_port_none, trim_suffix_app.
Qed.

Lemma digits_plain p : forallb is_digit (chars p) = true → forallb plain_char (chars p) = true.
Proof.
  rewrite !forallb_forall. intros Hp c Hc. specialize (Hp c Hc). revert Hp.
  by destruct c as [[] [] [] [] [] [] [] []].
Qed.

Lemma normalizeHost_port s p :
  plain_host s = true → forallb is_digit (chars p) = true →
  normalizeHost (s +:+ ":" +:+ p) = to_lower s.
Proof.
  unfold plain_host. intros [Hp Hd]%andb_true_iff Hdig%digits_plain.
  destruct (plain_chars _ Hp) as (Ha & Hs & Hc & _).
  destruct (plain_chars _ Hdig) as (Ha' & Hs' & Hc' & Hb').
  apply negb_true_iff in Hd. unfold normalizeHost.
  rewrite trim_space_plain, strip_port_port, trim_suffix_none; try done.
  - by rewrite !is_ascii_app, Ha, Ha'.
  - rewrite !chars_app. apply Forall_app_2; [done|]. apply Forall_app_2; [|done].
    repeat constructor.
Qed.

Lemma normalizeHost_space s : plain_host s = true → normalizeHost (String " " s) = to_lower s.
Proof.
  intros Hp. rewrite <- (normalizeHost_plain s Hp). unfold normalizeHost. do 3 f_equal.
  unfold plain_host in Hp. apply andb_true_iff in Hp as [Hp _].
  destruct (plain_chars _ Hp) as (Ha & _). unfold trim_space, is_ascii in *.
  change (chars (String " " s)) with (" "%char :: chars s). cbn [forallb]. rewrite Ha. done.
Qed.

Lemma plain_lower s : plain_host s = true → plain_host (to_lower s) = true.
Proof.
  unfold plain_host. intros [Hp Hd]%andb_true_iff. destruct (plain_chars _ Hp) as (Ha & _).
  apply andb_true_iff. rewrite chars_to_lower by done. split.
  - rewrite forallb_forall in *. intros c Hc.
    apply list_elem_of_In, list_elem_of_fmap in Hc as (d & -> & Hd').
    apply list_elem_of_In, Hp in Hd'. revert Hd'.
    by destruct d as [[] [] [] [] [] [] [] []].
  - apply negb_true_iff. apply negb_true_iff in Hd.
    destruct (has_suffix (to_lower s) ".") eqn:E; [|done].
    unfold has_suffix in *. bool_simpl. destruct Hd.
    destruct E as [r Hr]. rewrite chars_to_lower in Hr by done.
    destruct (chars s) as [|x l _] using rev_ind; [by destruct r|].
    rewrite fmap_app in Hr. apply app_inj_tail in Hr as [_ Hx].
    apply lower_char_inv in Hx as ->; [|done]. by eexists.
Qed.

(** A policy cannot be gone around by how a name is spelled: in any case,
    written absolutely, with a port or a leading space it is decided on as
    the same name. *)
Theorem spelling_irrelevant m s port :
  plain_host s = true → forallb is_digit (chars port) = true →
  Forall (λ s', Allows m s' = Allows m s)
    [to_lower s; s +:+ "."; s +:+ ":" +:+ port; String " " s].
Proof.
  intros Hp Hport.
  assert (∀ s', normalizeHost s' = to_lower s → Allows m s' = Allows m s) as Hn.
  { intros s' E. destruct m as [e suf d a]. cbn [Allows].
    by rewrite E, (normalizeHost_plain s Hp). }
  repeat constructor; apply Hn.
  - rewrite normalizeHost_plain by (by apply plain_lower). apply to_lower_idem.
    unfold plain_host in Hp. apply andb_true_iff in Hp as [Hp _]. by destruct (plain_chars _ Hp).
  - by apply normalizeHost_dot.
  - by apply normalizeHost_port.
  - by apply normalizeHost_space.
Qed.
End names.

(** ** Witnesses *)
#[local] Existing Instance ascii_unicode.

Lemma no_implied_subdomains_witness :
  normalizeHost "GitHub.com." ∈ normalizeHost <$> ["github.com"; "pypi.org"]%string.
Proof.
  apply (no_implied_subdomains _ ["gist.github.com"%string]).
  - intros p rest Hp E. apply (f_equal (λ s, cut_prefix s "*.")) in E.
    rewrite (proj2 (cut_prefix_some _ _ _) eq_refl) in E.
    repeat (apply elem_of_cons in Hp as [->|Hp]; [vm_compute in E; discriminate|]).
    by apply not_elem_of_nil in Hp.
  - vm_compute. reflexivity.
Defined.

Lemma spelling_irrelevant_witness :
  let m := NewPolicyMatcher ["github.com"]%string [] in
  Forall (λ s', Allows m s' = Allows m "GitHub.com")
    [to_lower "GitHub.com"; "GitHub.com" +:+ "."; "GitHub.com" +:+ ":" +:+ "443";
     String " " "GitHub.com"].
Proof. intros m. apply spelling_irrelevant; vm_compute; reflexivity. Defined.

(** A wildcard asks for the breadth a literal name does not have, and deny
    wins over it. *)
Example github_names :
  let m := NewPolicyMatcher ["github.com"; "*.example.com"]%string ["gist.example.com"]%string in
  (Allows m "GITHUB.com.", Allows m "gist.github.com", Allows m "a.b.example.com",
   Allows m "example.com", Allows m "evil-example.com", Allows m "gist.example.com")
  = (true, false, true, false, false, false).
Proof. vm_compute. reflexivity. Qed.
