(* ===== verification/Sni.v ===== *)
(** * The name in a TLS handshake (internal/egressproxy/sni.go)

    A parser over bytes a hostile peer chose. A [reader] is the bytes that are
    left; each read returns the value and the rest, or [None] where the code
    returns [ok = false]. The two loops take fuel; [None] is a loop that did
    not end, which [sni_terminates] shows never happens with the fuel given. *)
From S2P Require Import Prelude GoStrings EgressNames.

Definition maxClientHello : Z := 16 * 1024.

Inductive name_error :=
| errNotClientHello
| ErrNoHostname
| errShortRecord      (** "short TLS record" *)
| errTruncatedRecord  (** "truncated TLS record" *)
| errNoData.

#[export] Instance name_error_eq_dec : EqDecision name_error.
Proof. solve_decision. Defined.

(** ** The cursor *)
Definition u8 (r : list Z) : option (Z * list Z) :=
  match r with
  | v :: t => Some (v, t)
  | [] => None
  end.

Definition u16 (r : list Z) : option (Z * list Z) :=
  match r with
  | hi :: lo :: t => Some (Z.lor (Z.shiftl hi 8) lo, t)
  | _ => None
  end.

Definition skip (n : Z) (r : list Z) : option (list Z * list Z) :=
  if (n <? 0) || (blen r <? n) then None
  else Some (take (Z.to_nat n) r, drop (Z.to_nat n) r).

Definition vector (lenBytes : Z) (r : list Z) : option (list Z * list Z) :=
  if lenBytes =? 1 then '(n, r) ← u8 r; skip n r
  else if lenBytes =? 2 then '(n, r) ← u16 r; skip n r
  else if lenBytes =? 3 then
    '(hi, r) ← u8 r; '(lo, r) ← u16 r; skip (Z.lor (Z.shiftl hi 16) lo) r
  else None.

Arguments vector : simpl never.
Arguments u8 : simpl never.
Arguments u16 : simpl never.
Arguments skip : simpl never.

Section sni.
Context `{Unicode}.

(** [strings.ContainsAny(h, " \t\r\n/\\@")]. *)
Definition junk_char (c : ascii) : bool :=
  bool_decide (c ∈ [" "; "009"; "013"; "010"; "/"; "\"; "@"]%char).

Definition plausibleHostname (h : string) : bool :=
  if (strlen h >? 253) || existsb junk_char (chars h) then false
  else forallb (λ label, negb (String.eqb label "") && negb (strlen label >? 63)) (split "." h).

Fixpoint name_list_loop (fuel : nat) (l : list Z) : option (result name_error string) :=
  match fuel with
  | O => None
  | S fuel =>
      match u8 l with
      | None => Some (Err ErrNoHostname)
      | Some (typ, l) =>
          match vector 2 l with
          | None => Some (Err ErrNoHostname)
          | Some (name, l) =>
              if negb (typ =? 0) then name_list_loop fuel l
              else
                let h := normalizeHost (string_of_bytes name) in
                if String.eqb h "" || negb (plausibleHostname h)
                then Some (Err ErrNoHostname) else Some (Ok h)
          end
      end
  end.

Definition parseServerNameList (b : list Z) : option (result name_error string) :=
  match vector 2 b with
  | None => Some (Err ErrNoHostname)
  | Some (list, _) => name_list_loop (S (length list)) list
  end.

Fixpoint extension_loop (fuel : nat) (e : list Z) : option (result name_error string) :=
  match fuel with
  | O => None
  | S fuel =>
      match u16 e with
      | None => Some (Err ErrNoHostname)
      | Some (typ, e) =>
          match vector 2 e with
          | None => Some (Err ErrNoHostname)
          | Some (body, e) =>
              if negb (typ =? 0) then extension_loop fuel e else parseServerNameList body
          end
      end
  end.

(** The handshake after the record header. *)
Definition hello_body (r : list Z) : option (result name_error string) :=
  match
    '(t, r) ← u8 r;
    (if negb (t =? 1) then None
     else '(_, r) ← skip (3 + 2 + 32) r;
          '(_, r) ← vector 1 r;
          '(_, r) ← vector 2 r;
          '(_, r) ← vector 1 r;
          Some r)
  with
  | None => Some (Err errNotClientHello)
  | Some r =>
      match vector 2 r with
      | None => Some (Err ErrNoHostname)
      | Some (ext, _) => extension_loop (S (length ext)) ext
      end
  end.

Definition SNIFromClientHello (b : list Z) : option (result name_error string) :=
  match b with
  | b0 :: _ :: _ :: b3 :: b4 :: rest =>
      if negb (b0 =? 22) then Some (Err errNotClientHello)
      else
        let recLen := Z.lor (Z.shiftl b3 8) b4 in
        if (recLen <=? 0) || (recLen >? maxClientHello) then Some (Err errNotClientHello)
        else hello_body (if recLen <? blen rest then take (Z.to_nat recLen) rest else rest)
  | _ => Some (Err errNotClientHello)
  end.

(** ** Reads consume *)
Lemma skip_spec n r v r' : skip n r = Some (v, r') → r = v ++ r' ∧ blen v = n.
Proof.
  unfold skip, blen. destruct ((n <? 0) || (Z.of_nat (length r) <? n)) eqn:E; [done|].
  intros [= <- <-]. bool_simpl. rewrite take_drop, length_take. split; [done|lia].
Qed.

Lemma vector_spec k r v r' :
  vector k r = Some (v, r') → ∃ hdr, r = hdr ++ v ++ r' ∧ (0 < length hdr)%nat.
Proof.
  unfold vector.
  destruct (k =? 1); [|destruct (k =? 2); [|destruct (k =? 3); [|done]]].
  - destruct r as [|x r]; [done|]. unfold u8. cbn. intros [-> _]%skip_spec. exists [x]. cbn. split; [done|lia].
  - destruct r as [|x [|y r]]; try done. unfold u16. cbn. intros [-> _]%skip_spec.
    exists [x; y]. cbn. split; [done|lia].
  - destruct r as [|x [|y [|z r]]]; try done. unfold u8, u16. cbn. intros [-> _]%skip_spec.
    exists [x; y; z]. cbn. split; [done|lia].
Qed.

Lemma vector_shorter k r v r' : vector k r = Some (v, r') → (length r' < length r)%nat.
Proof. intros (hdr & -> & Hh)%vector_spec. rewrite !length_app. lia. Qed.

Lemma u8_shorter r v r' : u8 r = Some (v, r') → r = v :: r'.
Proof. destruct r; [done|]. by intros [= <- <-]. Qed.

Lemma u16_shorter r v r' : u16 r = Some (v, r') → ∃ hdr, r = hdr ++ r' ∧ length hdr = 2%nat.
Proof. destruct r as [|x [|y r]]; try done. intros [= _ <-]. by exists [x; y]. Qed.

(** ** The loops end *)
Lemma name_list_loop_terminates fuel l :
  (length l < fuel)%nat → name_list_loop fuel l ≠ None.
Proof.
  revert l. induction fuel as [|fuel IH]; intros l Hl; [lia|]. cbn.
  destruct (u8 l) as [[typ l1]|] eqn:E1; [|done]. apply u8_shorter in E1 as ->.
  destruct (vector 2 l1) as [[name l2]|] eqn:E2; [|done]. apply vector_shorter in E2.
  destruct (negb (typ =? 0)); [apply IH; cbn in Hl; lia|]. by case_match.
Qed.

Lemma parseServerNameList_terminates b : parseServerNameList b ≠ None.
Proof.
  unfold parseServerNameList. destruct (vector 2 b) as [[l r]|]; [|done].
  apply name_list_loop_terminates. lia.
Qed.

Lemma extension_loop_terminates fuel e :
  (length e < fuel)%nat → extension_loop fuel e ≠ None.
Proof.
  revert e. induction fuel as [|fuel IH]; intros e He; [lia|]. cbn.
  destruct (u16 e) as [[typ e1]|] eqn:E1; [|done]. apply u16_shorter in E1 as (hdr & -> & Hh).
  destruct (vector 2 e1) as [[body e2]|] eqn:E2; [|done]. apply vector_shorter in E2.
  rewrite length_app in He.
  destruct (negb (typ =? 0)); [apply IH; lia|]. apply parseServerNameList_terminates.
Qed.

(** The parser returns on every input, whatever its length fields say. *)
Theorem sni_terminates b : ∃ r, SNIFromClientHello b = Some r.
Proof.
  assert (∀ r, hello_body r ≠ None) as Hb.
  { intros r. unfold hello_body. case_match; [|done]. case_match; [|done]. case_match.
    apply extension_loop_terminates. lia. }
  apply not_eq_None_Some. unfold SNIFromClientHello.
  destruct b as [|b0 [|? [|? [|b3 [|b4 rest]]]]]; try done.
  case_match; [done|]. case_match; [done|]. apply Hb.
Qed.

(** ** What a name is *)

(** [v] is a run of the bytes of [b]. *)
Definition within (v b : list Z) : Prop := ∃ p q, b = p ++ v ++ q.

Lemma within_trans u v w : within u v → within v w → within u w.
Proof.
  intros (p & q & ->) (p' & q' & ->). exists (p' ++ p), (q ++ q').
  by rewrite <- !app_assoc.
Qed.

Lemma within_refl v : within v v.
Proof. exists [], []. by rewrite app_nil_r. Qed.

Lemma vector_within k r v r' : vector k r = Some (v, r') → within v r ∧ within r' r.
Proof.
  intros (hdr & -> & _)%vector_spec. split; [by exists hdr, r'|].
  exists (hdr ++ v), []. by rewrite app_nil_r, <- app_assoc.
Qed.

Lemma suffix_within r hdr : within r (hdr ++ r).
Proof. exists hdr, []. by rewrite app_nil_r. Qed.

(** What the parser may answer of the bytes [b]. *)
Definition named_in (b : list Z) (h : string) : Prop :=
  ∃ name, within name b ∧ h = normalizeHost (string_of_bytes name) ∧ h ≠ ""%string ∧
    plausibleHostname h = true.

Lemma named_in_mono b b' h : named_in b h → within b b' → named_in b' h.
Proof. intros (n & Hn & Hr) Hb. exists n. split; [by eapply within_trans|done]. Qed.

Lemma name_list_loop_sound fuel l h :
  name_list_loop fuel l = Some (Ok h) → named_in l h.
Proof.
  revert l. induction fuel as [|fuel IH]; intros l; [done|]. cbn.
  destruct (u8 l) as [[typ l1]|] eqn:E1; [|done]. apply u8_shorter in E1 as ->.
  destruct (vector 2 l1) as [[name l2]|] eqn:E2; [|done].
  apply vector_within in E2 as [Hn Hr].
  assert (within l1 (typ :: l1)) as Hl by (apply (suffix_within l1 [typ])).
  destruct (negb (typ =? 0)).
  - intros Hh%IH. eapply named_in_mono; [done|]. by eapply within_trans.
  - destruct (String.eqb _ "") eqn:Ee; [done|]. cbn [orb].
    destruct (plausibleHostname _) eqn:Ep; [|done]. intros [= <-].
    exists name. split_and!; [by eapply within_trans|done| |done].
    intros E. apply String.eqb_eq in E. congruence.
Qed.

Lemma extension_loop_sound fuel e h :
  extension_loop fuel e = Some (Ok h) → named_in e h.
Proof.
  revert e. induction fuel as [|fuel IH]; intros e; [done|]. cbn.
  destruct (u16 e) as [[typ e1]|] eqn:E1; [|done]. apply u16_shorter in E1 as (hdr & -> & _).
  destruct (vector 2 e1) as [[body e2]|] eqn:E2; [|done].
  apply vector_within in E2 as [Hb Hr].
  pose proof (suffix_within e1 hdr) as He.
  destruct (negb (typ =? 0)).
  - intros Hh%IH. eapply named_in_mono; [done|]. by eapply within_trans.
  - unfold parseServerNameList. destruct (vector 2 body) as [[l r]|] eqn:E3; [|done].
    apply vector_within in E3 as [Hl _]. intros Hh%name_list_loop_sound.
    eapply named_in_mono; [done|]. eapply within_trans; [done|]. by eapply within_trans.
Qed.

Lemma hello_body_sound r h : hello_body r = Some (Ok h) → named_in r h.
Proof.
  unfold hello_body.
  destruct (u8 r) as [[t r1]|] eqn:E1; cbn; [|done]. apply u8_shorter in E1 as ->.
  destruct (negb (t =? 1)); [done|].
  destruct (skip _ r1) as [[s r2]|] eqn:E2; cbn; [|done]. apply skip_spec in E2 as [-> _].
  destruct (vector 1 r2) as [[v1 r3]|] eqn:E3; cbn; [|done]. apply vector_within in E3 as [_ E3].
  destruct (vector 2 r3) as [[v2 r4]|] eqn:E4; cbn; [|done]. apply vector_within in E4 as [_ E4].
  destruct (vector 1 r4) as [[v3 r5]|] eqn:E5; cbn; [|done]. apply vector_within in E5 as [_ E5].
  destruct (vector 2 r5) as [[ext r6]|] eqn:E6; [|done]. apply vector_within in E6 as [E6 _].
  intros Hh. apply (extension_loop_sound (S (length ext))) in Hh. eapply named_in_mono; [done|].
  eapply within_trans; [done|]. eapply within_trans; [done|].
  eapply within_trans; [done|]. eapply within_trans; [done|].
  exists (t :: s), []. by rewrite app_nil_r.
Qed.

(** A name the parser answers is one the handshake carries: a run of its
    bytes, normalized, not empty and plausible as a host name. *)
Theorem sni_sound b h :
  SNIFromClientHello b = Some (Ok h) → named_in b h.
Proof.
  unfold SNIFromClientHello.
  destruct b as [|b0 [|? [|? [|b3 [|b4 rest]]]]]; try done.
  case_match; [done|]. case_match; [done|]. intros Hh%hello_body_sound.
  eapply named_in_mono; [done|].
  eapply within_trans; [|apply (suffix_within rest [b0; _; _; b3; b4])].
  case_match; [|apply within_refl].
  exists [], (drop (Z.to_nat (Z.lor (Z.shiftl b3 8) b4)) rest). by rewrite take_drop.
Qed.

(** ** The handshake a client writes *)
Definition vec1 (v : list Z) : list Z := blen v :: v.
Definition vec2 (v : list Z) : list Z := be16 (blen v) ++ v.

(** A handshake extension, and the server_name one. *)
Definition extension (e : Z * list Z) : list Z := be16 (fst e) ++ vec2 (snd e).
Definition server_name (name : list Z) : list Z := vec2 (0 :: vec2 name).

(** [pre] is the handshake's length, version and random. *)
Definition client_hello (pre sid ciphers comps exts : list Z) : list Z :=
  1 :: pre ++ vec1 sid ++ vec2 ciphers ++ vec1 comps ++ vec2 exts.

Definition tls_record (v1 v2 : Z) (hs : list Z) : list Z :=
  22 :: v1 :: v2 :: be16 (blen hs) ++ hs.

Lemma u16_be16 n r : 0 ≤ n < 2 ^ 16 → u16 (be16 n ++ r) = Some (n, r).
Proof.
  intros Hn. unfold u16, be16; cbn [app].
  rewrite lor_shiftl by (try apply byte_at_range; lia). rewrite !byte_at_div by lia.
  do 2 f_equal. Z.to_euclidean_division_equations; lia.
Qed.

Lemma skip_app v r : skip (blen v) (v ++ r) = Some (v, r).
Proof.
  unfold skip, blen. rewrite length_app.
  if_false. by rewrite Nat2Z.id, take_app_length, drop_app_length.
Qed.

Lemma vector1_app v r : vector 1 (vec1 v ++ r) = Some (v, r).
Proof. unfold vector, vec1, u8. cbn. apply skip_app. Qed.

Lemma vector2_app v r : blen v < 2 ^ 16 → vector 2 (vec2 v ++ r) = Some (v, r).
Proof.
  intros Hv. unfold vector, vec2. cbn [Z.eqb Pos.eqb].
  rewrite <- app_assoc, u16_be16 by (unfold blen in *; lia). apply skip_app.
Qed.

Lemma vector2_whole v : blen v < 2 ^ 16 → vector 2 (vec2 v) = Some (v, []).
Proof. intros Hv. rewrite <- (app_nil_r (vec2 v)). by apply vector2_app. Qed.

Definition sni_answer (name : list Z) : result name_error string :=
  let h := normalizeHost (string_of_bytes name) in
  if String.eqb h "" || negb (plausibleHostname h) then Err ErrNoHostname else Ok h.

Lemma parse_server_name name :
  blen name + 3 < 2 ^ 16 → parseServerNameList (server_name name) = Some (sni_answer name).
Proof.
  intros Hn. unfold parseServerNameList, server_name.
  assert (blen (0 :: vec2 name) < 2 ^ 16).
  { unfold blen, vec2 in *. rewrite length_cons, length_app. cbn [length be16]. lia. }
  rewrite vector2_whole by done. cbn [name_list_loop].
  change (u8 (0 :: vec2 name)) with (Some (0, vec2 name)). cbv beta iota.
  rewrite vector2_whole by (unfold blen in *; lia). cbn [Z.eqb negb].
  unfold sni_answer. by case_match.
Qed.

(** An extension that is not server_name and fits its length field. *)
Definition other_extension (e : Z * list Z) : Prop :=
  0 < fst e < 2 ^ 16 ∧ blen (snd e) < 2 ^ 16.

Lemma extension_loop_skip before name after : ∀ fuel,
  Forall other_extension before → blen name + 5 < 2 ^ 16 → (length before < fuel)%nat →
  extension_loop fuel
    (concat (extension <$> before) ++ extension (0, server_name name) ++ after) =
  Some (sni_answer name).
Proof.
  induction before as [|[typ body] before IH]; intros fuel Hb Hn Hf;
    (destruct fuel as [|fuel]; [cbn in Hf; lia|]); cbn [fmap list_fmap concat app].
  - cbn [extension_loop]. unfold extension; cbn [fst snd]. rewrite <- !app_assoc.
    rewrite u16_be16 by lia.
    rewrite vector2_app.
    + cbn [Z.eqb negb]. apply parse_server_name. lia.
    + unfold server_name, blen, vec2 in *. repeat rewrite ?length_app, ?length_cons.
      cbn [length be16]. lia.
  - apply Forall_cons in Hb as [[Ht Hl] Hb]. cbn [fst snd] in Ht, Hl.
    cbn [extension_loop]. unfold extension at 1; cbn [fst snd]. rewrite <- !app_assoc.
    rewrite u16_be16 by lia. rewrite vector2_app by done.
    rewrite (proj2 (Z.eqb_neq typ 0)) by lia. cbn [negb]. apply IH; [done|done|cbn in Hf; lia].
Qed.

Lemma extensions_length before :
  (length before ≤ length (concat (extension <$> before)))%nat.
Proof.
  induction before as [|[typ body] before IH]; [done|]. cbn [fmap list_fmap concat].
  rewrite length_app. unfold extension at 1, vec2; cbn [fst snd].
  rewrite !length_app. cbn [length be16]. lia.
Qed.

(** Of a well-formed handshake the parser reads the name its server_name
    extension carries, wherever among the extensions it is and whatever
    follows the record; a name that is empty or not plausible is refused
    rather than replaced by another. *)
Theorem sni_roundtrip v1 v2 pre sid ciphers comps before name after trailing :
  length pre = 37%nat → blen ciphers < 2 ^ 16 →
  Forall other_extension before → blen name + 5 < 2 ^ 16 →
  let exts := concat (extension <$> before) ++ extension (0, server_name name) ++ after in
  let hs := client_hello pre sid ciphers comps exts in
  blen exts < 2 ^ 16 → blen hs ≤ maxClientHello →
  SNIFromClientHello (tls_record v1 v2 hs ++ trailing) = Some (sni_answer name).
Proof.
  intros Hpre Hciph Hbefore Hname exts hs Hexts Hhs.
  assert (0 < blen hs) as Hpos by (unfold hs, client_hello, blen; rewrite length_cons; lia).
  unfold SNIFromClientHello, tls_record, be16. cbn [app].
  cbn [Z.eqb Pos.eqb negb]. unfold maxClientHello in *.
  rewrite lor_shiftl by (try apply byte_at_range; lia). rewrite !byte_at_div by lia.
  assert ((blen hs / 2 ^ (8 * 1)) mod 256 * 2 ^ 8 + (blen hs / 2 ^ (8 * 0)) mod 256 = blen hs) as ->
    by (Z.to_euclidean_division_equations; lia).
  if_false.
  assert ((if blen hs <? blen (hs ++ trailing) then take (Z.to_nat (blen hs)) (hs ++ trailing)
           else hs ++ trailing) = hs) as ->.
  { unfold blen. rewrite Nat2Z.id, length_app. case_match.
    - by rewrite take_app_length.
    - destruct trailing; [by rewrite app_nil_r|]. bool_simpl. cbn in *. lia. }
  unfold hello_body, hs, client_hello, u8. cbn [mbind option_bind Z.eqb Pos.eqb negb].
  change (3 + 2 + 32) with (Z.of_nat 37). rewrite <- Hpre. fold (blen pre).
  rewrite skip_app. cbn [mbind option_bind]. rewrite vector1_app. cbn [mbind option_bind].
  rewrite vector2_app by done. cbn [mbind option_bind]. rewrite vector1_app.
  cbn [mbind option_bind]. rewrite vector2_whole by done.
  apply extension_loop_skip; [done|done|].
  unfold exts. rewrite length_app. pose proof (extensions_length before). lia.
Qed.
End sni.

(** ** Witnesses: a handshake naming GitHub.com after an ALPN extension *)
#[local] Existing Instance ascii_unicode.

Definition example_pre : list Z := replicate 37 0.
Definition example_alpn : Z * list Z := (16, [0; 3; 2; 104; 50]).
Definition example_hello : list Z :=
  tls_record 3 1 (client_hello example_pre [] [19; 1] [0]
    (concat (extension <$> [example_alpn]) ++
     extension (0, server_name (bytes_of_string "GitHub.com")) ++ [])).

Lemma sni_sound_witness : named_in example_hello "github.com".
Proof. apply sni_sound. vm_compute. reflexivity. Defined.

Lemma sni_roundtrip_witness :
  SNIFromClientHello (example_hello ++ [1; 2; 3]) =
  Some (sni_answer (bytes_of_string "GitHub.com")).
Proof.
  apply sni_roundtrip.
  - reflexivity.
  - vm_compute. reflexivity.
  - repeat constructor; vm_compute; reflexivity.
  - vm_compute. reflexivity.
  - vm_compute. reflexivity.
  - vm_compute. discriminate.
Defined.

(** A handshake with no server_name extension names nothing. *)
Example no_sni :
  SNIFromClientHello (tls_record 3 1 (client_hello example_pre [] [19; 1] [0]
    (extension example_alpn))) = Some (Err ErrNoHostname).
Proof. vm_compute. reflexivity. Qed.
