(* ===== verification/Dns.v ===== *)
(** * The sandboxes' resolver (internal/egressproxy/dns.go)

    [answer] builds the reply to one packet. What it does besides is its
    effects, in order: a line logged, a name resolved on the host. An index or
    slice out of range, which panics in Go, is the error [errPanic], so that
    no packet causing one is a theorem. *)
From S2P Require Import Prelude GoStrings EgressNames Sni.

Inductive parse_error := errShort | errBadLabel | errNameTooLong | errPanic.

#[export] Instance parse_error_eq_dec : EqDecision parse_error.
Proof. solve_decision. Defined.

(** Go's [b[i]] and [b[i:j]]. *)
Definition index (b : list Z) (i : Z) : result parse_error Z :=
  if i <? 0 then Err errPanic else of_option (b !! Z.to_nat i) errPanic.
Definition slice (b : list Z) (i j : Z) : result parse_error (list Z) :=
  if (i <? 0) || (j <? i) || (blen b <? j) then Err errPanic
  else Ok (take (Z.to_nat (j - i)) (drop (Z.to_nat i) b)).
(** [binary.BigEndian.Uint16]. *)
Definition uint16 (b : list Z) : Z := Z.land (from_be (take 2 b)) 65535.

Definition maxAnswers : Z := 8.
Definition typeA : Z := 1.
Definition classIN : Z := 1.
Definition rcodeOK : Z := 0.
Definition rcodeFail : Z := 2.
Definition rcodeNX : Z := 3.
Definition rcodeImpl : Z := 4.

(** A [net.IP]: nil or its bytes. [To4] is the four bytes of an IPv4 address,
    written as such or mapped into IPv6. *)
Definition To4 (ip : list Z) : option (list Z) :=
  if bool_decide (length ip = 4%nat) then Some ip
  else if bool_decide (length ip = 16%nat) && bool_decide (take 12 ip = replicate 10 0 ++ [255; 255])
  then Some (drop 12 ip) else None.

Section dns.
Context `{Unicode}.

Record dns_question := {
  q_name : string;
  q_type : Z;
  q_class : Z;
  q_end : Z
}.

(** The label loop of [parseQuestion]: [off], [total] and [labels] are its
    variables. *)
Fixpoint label_loop (fuel : nat) (b : list Z) (off total : Z) (labels : list (list Z))
    : option (result parse_error (Z * list (list Z))) :=
  match fuel with
  | O => None
  | S fuel =>
      if off >=? blen b then Some (Err errShort)
      else match index b off with
      | Err e => Some (Err e)
      | Ok l =>
          let off := off + 1 in
          if l =? 0 then Some (Ok (off, labels))
          else if negb (Z.land l 192 =? 0) || (l >? 63) then Some (Err errBadLabel)
          else if off + l >? blen b then Some (Err errShort)
          else
            let total := total + (l + 1) in
            if total >? 255 then Some (Err errNameTooLong)
            else match slice b off (off + l) with
            | Err e => Some (Err e)
            | Ok label => label_loop fuel b (off + l) total (labels ++ [label])
            end
      end
  end.

Definition finish_question (b : list Z) (off : Z) (labels : list (list Z))
    : result parse_error dns_question :=
  reject_if (off + 4 >? blen b) errShort;;
  qtype ← slice b off (off + 2);
  qclass ← slice b (off + 2) (off + 4);
  Ok {| q_name := to_lower (join "." (string_of_bytes <$> labels));
        q_type := uint16 qtype; q_class := uint16 qclass; q_end := off + 4 |}.

Definition parseQuestion (b : list Z) (off : Z) : option (result parse_error dns_question) :=
  match label_loop (S (length b)) b off 0 [] with
  | None => None
  | Some (Err e) => Some (Err e)
  | Some (Ok (off, labels)) => Some (finish_question b off labels)
  end.

(** One A record of a reply: the question's name by reference, then type,
    class, a TTL of 30 and the address. *)
Definition a_record (typ : Z) (ip : list Z) : list Z :=
  [192; 12] ++ be16 typ ++ be16 classIN ++ be32 30 ++ be16 4 ++ ip.

Definition reply_flags (qflags rcode : Z) : Z :=
  Z.lor (Z.lor (Z.lor 32768 (Z.land qflags 256)) 128) rcode.

Definition reply (id : list Z) (qflags rcode : Z) (question : option (list Z))
    (ips : list (list Z)) (typ : Z) : list Z :=
  id ++ be16 (reply_flags qflags rcode) ++
  be16 (match question with Some _ => 1 | None => 0 end) ++
  be16 (Z.of_nat (length ips)) ++ [0; 0; 0; 0] ++
  default [] question ++ concat (a_record typ <$> ips).

Inductive resolve_error := errNotFound | errResolver.

Variant dns_effect := Logged (d : Decision) | Resolved (name : string).

(** The resolver, for queriers of type [Addr]. A nil function is [None];
    [Log] is the [Logged] effects. *)
Record DNS (Addr : Type) := {
  dns_MatchFor : option (Addr → option Matcher);
  dns_Sinkhole : Addr → list Z;
  dns_Open : option (Addr → bool);
  dns_Resolve : option (string → result resolve_error (list (list Z)))
}.
#[global] Arguments dns_MatchFor {Addr}.
#[global] Arguments dns_Sinkhole {Addr}.
#[global] Arguments dns_Open {Addr}.
#[global] Arguments dns_Resolve {Addr}.

(** The first [maxAnswers] IPv4 addresses. *)
Definition first_v4 (ips : list (list Z)) : list (list Z) :=
  foldl (λ v4 ip, match To4 ip with
    | Some a => if Z.of_nat (length v4) <? maxAnswers then v4 ++ [a] else v4
    | None => v4 end) [] ips.

Definition resolved {Addr} (d : DNS Addr) (id : list Z) (flags : Z) (question : list Z)
    (name : string) : list dns_effect * list Z :=
  match dns_Resolve d with
  | None => ([], reply id flags rcodeFail (Some question) [] 0)
  | Some resolve =>
      ([Resolved name],
       match resolve name with
       | Err errNotFound => reply id flags rcodeNX (Some question) [] 0
       | Err errResolver => reply id flags rcodeFail (Some question) [] 0
       | Ok ips => reply id flags rcodeOK (Some question) (first_v4 ips) typeA
       end)
  end.

(** The matcher for the querier: none where [MatchFor] is nil or has none. *)
Definition matcher_for {Addr} (d : DNS Addr) (remote : Addr) : option Matcher :=
  match dns_MatchFor d with Some f => f remote | None => None end.
Definition is_open {Addr} (d : DNS Addr) (remote : Addr) : bool :=
  match dns_Open d with Some f => f remote | None => false end.
Definition matcher_allows (m : option Matcher) (name : string) : bool :=
  match m with Some m => Allows m name | None => false end.

Definition dns_refused (name : string) : Decision :=
  {| d_Host := name; d_Port := 0; d_Allowed := false;
     d_Reason := "DNS: not on the egress allowlist" |}.

(** From the parsed question on. *)
Definition answer_question {Addr} (d : DNS Addr) (remote : Addr) (id : list Z) (flags : Z)
    (question : list Z) (q : dns_question) : list dns_effect * list Z :=
  if negb (Z.land (Z.shiftr flags 11) 15 =? 0) || negb (q_class q =? classIN)
  then ([], reply id flags rcodeImpl (Some question) [] 0)
  else if negb (matcher_allows (matcher_for d remote) (q_name q))
  then ([Logged (dns_refused (q_name q))], reply id flags rcodeNX (Some question) [] 0)
  else if negb (q_type q =? typeA) then ([], reply id flags rcodeOK (Some question) [] 0)
  else if is_open d remote then resolved d id flags question (q_name q)
  else match To4 (dns_Sinkhole d remote) with
       | None => ([], reply id flags rcodeFail (Some question) [] 0)
       | Some ip => ([], reply id flags rcodeOK (Some question) [ip] typeA)
       end.

(** [Ok (effects, None)] is silence; [None] is a loop that does not end. *)
Definition answer {Addr} (d : DNS Addr) (q : list Z) (remote : Addr)
    : option (result parse_error (list dns_effect * option (list Z))) :=
  if blen q <? 12 then Some (Ok ([], None))
  else match
    id ← slice q 0 2; flags ← slice q 2 4; qd ← slice q 4 6; Ok (id, uint16 flags, uint16 qd)
  with
  | Err e => Some (Err e)
  | Ok (id, flags, qd) =>
      if negb (Z.land flags 32768 =? 0) then Some (Ok ([], None))
      else if negb (qd =? 1) then Some (Ok ([], Some (reply id flags rcodeFail None [] 0)))
      else match parseQuestion q 12 with
      | None => None
      | Some (Err errPanic) => Some (Err errPanic)
      | Some (Err _) => Some (Ok ([], None))
      | Some (Ok pq) =>
          Some (question ← slice q 12 (q_end pq);
                let '(eff, out) := answer_question d remote id flags question pq in
                Ok (eff, Some out))
      end
  end.

(** ** In bounds, and bounded *)
Lemma index_in b i : 0 ≤ i < blen b → ∃ v, index b i = Ok v ∧ v ∈ b.
Proof.
  intros Hi. unfold index. if_false. unfold blen in Hi.
  destruct (b !! Z.to_nat i) as [v|] eqn:E.
  - exists v. split; [done|]. by eapply list_elem_of_lookup_2.
  - apply lookup_ge_None in E. lia.
Qed.

Lemma slice_in b i j : 0 ≤ i → i ≤ j → j ≤ blen b → ∃ v, slice b i j = Ok v ∧ blen v = j - i.
Proof.
  intros Hi Hj Hb. unfold slice. if_false. eexists. split; [done|].
  unfold blen in *. rewrite length_take, length_drop. lia.
Qed.

(** The loop ends, in bounds, within the length it allows a name. *)
Lemma label_loop_ok b : Forall is_byte b → ∀ fuel off total labels,
  0 ≤ off ≤ blen b → 0 ≤ total ≤ 255 → blen b - off < Z.of_nat fuel →
  ∃ r, label_loop fuel b off total labels = Some r ∧ r ≠ Err errPanic ∧
    ∀ off' ls, r = Ok (off', ls) → off < off' ≤ blen b ∧ off' - off ≤ 256 - total.
Proof.
  intros Hb. induction fuel as [|fuel IH]; intros off total labels Ho Ht Hf.
  - exfalso. lia.
  - cbn [label_loop].
    destruct (off >=? blen b) eqn:E1; [by eexists|].
    destruct (index_in b off) as (l & -> & Hl); [lia|].
    rewrite Forall_forall in Hb. specialize (Hb l Hl). unfold is_byte in Hb.
    destruct (l =? 0) eqn:E2.
    { eexists. split_and!; [done|done|]. intros off' ls [= <- <-]. lia. }
    destruct (negb (Z.land l 192 =? 0) || (l >? 63)) eqn:E3; [by eexists|].
    destruct (off + 1 + l >? blen b) eqn:E4; [by eexists|].
    destruct (total + (l + 1) >? 255) eqn:E5; [by eexists|].
    destruct (slice_in b (off + 1) (off + 1 + l)) as (v & -> & _); [lia..|].
    destruct (IH (off + 1 + l) (total + (l + 1)) (labels ++ [v])) as (r & -> & Hn & Hr); [lia..|].
    exists r. split_and!; [done|done|]. intros off' ls E. specialize (Hr off' ls E). lia.
Qed.

Lemma parseQuestion_ok b off : Forall is_byte b → 0 ≤ off ≤ blen b →
  ∃ r, parseQuestion b off = Some r ∧ r ≠ Err errPanic ∧
    ∀ q, r = Ok q → off < q_end q ≤ blen b ∧ q_end q - off ≤ 260.
Proof.
  intros Hb Ho. unfold parseQuestion.
  destruct (label_loop_ok b Hb (S (length b)) off 0 []) as (r & -> & Hn & Hr);
    [lia|lia|unfold blen in *; lia|].
  destruct r as [[off' ls]|e]; [|by exists (Err e); naive_solver].
  destruct (Hr off' ls eq_refl) as [H1 H2]. eexists. split; [done|].
  unfold finish_question. destruct (off' + 4 >? blen b) eqn:E; [done|]. cbn [reject_if mbind result_bind].
  destruct (slice_in b off' (off' + 2)) as (v & -> & _); [lia..|].
  destruct (slice_in b (off' + 2) (off' + 4)) as (w & -> & _); [lia..|].
  cbn. split; [done|]. intros q [= <-]. cbn. lia.
Qed.

Lemma To4_length ip a : To4 ip = Some a → length a = 4%nat.
Proof.
  unfold To4. case_bool_decide; [by intros [= <-]|].
  destruct (bool_decide (length ip = 16%nat)) eqn:E; [|done]. cbn [andb].
  case_match; [|done]. intros [= <-]. bool_simpl. rewrite length_drop. lia.
Qed.

Lemma first_v4_spec ips :
  (length (first_v4 ips) ≤ 8)%nat ∧ Forall (λ a, length a = 4%nat) (first_v4 ips).
Proof.
  unfold first_v4, maxAnswers.
  assert (∀ acc, (length acc ≤ 8)%nat ∧ Forall (λ a : list Z, length a = 4%nat) acc →
    let v4 := foldl (λ v4 ip, match To4 ip with
      | Some a => if Z.of_nat (length v4) <? 8 then v4 ++ [a] else v4
      | None => v4 end) acc ips in
    (length v4 ≤ 8)%nat ∧ Forall (λ a, length a = 4%nat) v4) as Hf.
  { induction ips as [|ip ips IH]; intros acc Hacc; [done|]. cbn [foldl]. apply IH.
    destruct (To4 ip) as [a|] eqn:E; [|done]. case_match; [|done].
    rewrite length_app. cbn [length]. split; [lia|].
    apply Forall_app_2; [apply Hacc|]. constructor; [by eapply To4_length|done]. }
  apply (Hf []). cbn. split; [lia|done].
Qed.

Lemma reply_length id qf rc q ips typ :
  Forall (λ a, length a = 4%nat) ips →
  length (reply id qf rc q ips typ) =
    (length id + 10 + length (default [] q) + 16 * length ips)%nat.
Proof.
  intros Hips. unfold reply. rewrite !length_app. cbn [length be16].
  assert (length (concat (a_record typ <$> ips)) = 16 * length ips)%nat as ->; [|lia].
  induction Hips as [|ip ips Hip Hips IH]; [done|]. cbn [fmap list_fmap concat length].
  rewrite length_app, IH. unfold a_record. rewrite !length_app, Hip. cbn [length be16 be32]. lia.
Qed.

Lemma reply_bounded id qf rc qs ips typ :
  Forall (λ a, length a = 4%nat) ips → (length ips ≤ 8)%nat →
  (length (reply id qf rc (Some qs) ips typ) ≤ length id + 10 + length qs + 128)%nat.
Proof. intros Hips Hl. rewrite reply_length by done. change (default [] (Some qs)) with qs. lia. Qed.

Lemma answer_question_length {Addr} (d : DNS Addr) remote id flags qs q :
  (length (answer_question d remote id flags qs q).2 ≤ length id + 10 + length qs + 128)%nat.
Proof.
  unfold answer_question, resolved. repeat case_match; cbn [snd];
    apply reply_bounded; try apply first_v4_spec; try (cbn; lia); try by constructor.
  constructor; [by eapply To4_length|done].
Qed.

Lemma answer_cases {Addr} (d : DNS Addr) q remote : Forall is_byte q →
  ∃ eff out, answer d q remote = Some (Ok (eff, out)) ∧
    ∀ r, out = Some r → (length r ≤ 512)%nat.
Proof.
  intros Hq. unfold answer. destruct (blen q <? 12) eqn:E; [by eexists _, _|].
  destruct (slice_in q 0 2) as (id & -> & Hid); [lia..|].
  destruct (slice_in q 2 4) as (fl & -> & _); [lia..|].
  destruct (slice_in q 4 6) as (qd & -> & _); [lia..|]. cbn [mbind result_bind].
  case_match; [by eexists _, _|]. case_match.
  { eexists _, _. split; [done|]. intros r [= <-]. rewrite reply_length by done.
    unfold blen in *. cbn. lia. }
  destruct (parseQuestion_ok q 12) as (r & -> & Hn & Hr); [done|lia|].
  destruct r as [pq|[]]; [|by eexists _, _..|done].
  destruct (Hr pq eq_refl) as [Hend Hlen].
  destruct (slice_in q 12 (q_end pq)) as (qs & -> & Hqs); [lia..|]. cbn [mbind result_bind].
  pose proof (answer_question_length d remote id (uint16 fl) qs pq) as Hl.
  destruct (answer_question d remote id (uint16 fl) qs pq) as [eff out]. cbn [snd] in Hl.
  eexists _, _. split; [done|]. intros r [= <-]. unfold blen in *. lia.
Qed.

(** No packet makes the resolver index out of range or loop: each is
    answered or dropped. *)
Theorem dns_always_returns {Addr} (d : DNS Addr) q remote :
  Forall is_byte q → ∃ eff out, answer d q remote = Some (Ok (eff, out)).
Proof. intros Hq. destruct (answer_cases d q remote Hq) as (eff & out & E & _). eauto. Qed.

(** Every reply fits the 512 bytes of a UDP message. *)
Theorem dns_reply_bounded {Addr} (d : DNS Addr) q remote eff r :
  Forall is_byte q → answer d q remote = Some (Ok (eff, Some r)) → (length r ≤ 512)%nat.
Proof.
  intros Hq E. destruct (answer_cases d q remote Hq) as (eff' & out & E' & Hl).
  apply Hl. congruence.
Qed.

(** ** What leaves the host *)
Definition with_resolve {Addr} (d : DNS Addr)
    (r : option (string → result resolve_error (list (list Z)))) : DNS Addr :=
  {| dns_MatchFor := dns_MatchFor d; dns_Sinkhole := dns_Sinkhole d;
     dns_Open := dns_Open d; dns_Resolve := r |}.

Lemma answer_question_resolved {Addr} (d : DNS Addr) remote id flags qs q name :
  Resolved name ∈ (answer_question d remote id flags qs q).1 →
  is_open d remote = true ∧ matcher_allows (matcher_for d remote) name = true.
Proof.
  unfold answer_question, resolved. repeat case_match; cbn [fst];
    rewrite ?elem_of_nil, ?list_elem_of_singleton; try done.
  all: intros [= ->]; bool_simpl; done.
Qed.

Lemma answer_question_closed {Addr} (d : DNS Addr) remote id flags qs q r :
  is_open d remote = false →
  answer_question (with_resolve d r) remote id flags qs q =
  answer_question d remote id flags qs q.
Proof.
  intros Ho. unfold answer_question.
  change (is_open (with_resolve d r) remote) with (is_open d remote). by rewrite Ho.
Qed.

(** C38. DNS is no way out of a sandbox under an allowlist: a name is resolved
    on the host only for a querier with open egress whose deny list does not
    name it, and for any other the reply is a function of the packet and the
    allowlist alone, whatever the host's resolver would say. *)
Theorem dns_no_exfiltration {Addr} (d : DNS Addr) q remote eff out :
  answer d q remote = Some (Ok (eff, out)) →
  (∀ name, Resolved name ∈ eff →
     is_open d remote = true ∧ matcher_allows (matcher_for d remote) name = true) ∧
  (is_open d remote = false → ∀ r, answer (with_resolve d r) q remote = Some (Ok (eff, out))).
Proof.
  unfold answer. intros E.
  destruct (blen q <? 12); [by simplify_eq; split; [intros name []%not_elem_of_nil|]|].
  destruct (slice q 0 2) as [id|]; [|done].
  destruct (slice q 2 4) as [fl|]; [|done].
  destruct (slice q 4 6) as [qd|]; [|done]. cbn [mbind result_bind] in *.
  case_match; [by simplify_eq; split; [intros name []%not_elem_of_nil|]|].
  case_match; [by simplify_eq; split; [intros name []%not_elem_of_nil|]|].
  destruct (parseQuestion q 12) as [[pq|[]]|]; try done;
    try (by simplify_eq; split; [intros name []%not_elem_of_nil|]).
  destruct (slice q 12 (q_end pq)) as [qs|]; [|done]. cbn [mbind result_bind] in *.
  pose proof (answer_question_resolved d remote id (uint16 fl) qs pq) as Hres.
  pose proof (answer_question_closed d remote id (uint16 fl) qs pq) as Hcl.
  destruct (answer_question d remote id (uint16 fl) qs pq) as [e o]. simplify_eq/=.
  split; [done|]. intros Ho r. by rewrite Hcl.
Qed.

(** ** The query a client writes *)
Definition encode_labels (labels : list (list Z)) : list Z :=
  concat ((λ l, blen l :: l) <$> labels) ++ [0].

(** [rest] is what follows the question: additional records. *)
Definition query (id : list Z) (flags : Z) (counts : list Z) (labels : list (list Z))
    (qtype qclass : Z) (rest : list Z) : list Z :=
  id ++ be16 flags ++ be16 1 ++ counts ++ encode_labels labels ++ be16 qtype ++ be16 qclass ++ rest.

Definition name_length (labels : list (list Z)) : Z :=
  foldr (λ l n, blen l + 1 + n) 0 labels.

Definition label_ok (l : list Z) : Prop := 1 ≤ blen l ≤ 63.

Lemma index_app p x r : index (p ++ x :: r) (blen p) = Ok x.
Proof.
  unfold index, blen. if_false. rewrite Nat2Z.id.
  by rewrite list_lookup_middle.
Qed.

Lemma slice_app p v r : slice (p ++ v ++ r) (blen p) (blen p + blen v) = Ok v.
Proof.
  unfold slice, blen. rewrite !length_app. if_false.
  assert (Z.to_nat (Z.of_nat (length p) + Z.of_nat (length v) - Z.of_nat (length p)) = length v)
    as -> by lia.
  by rewrite Nat2Z.id, drop_app_length, take_app_length.
Qed.

Lemma name_length_cons l ls : name_length (l :: ls) = blen l + 1 + name_length ls.
Proof. done. Qed.

Lemma label_loop_encode labels rest : ∀ fuel pre total acc,
  Forall label_ok labels → 0 ≤ total → total + name_length labels ≤ 255 →
  (length labels < fuel)%nat →
  label_loop fuel (pre ++ encode_labels labels ++ rest) (blen pre) total acc =
  Some (Ok (blen pre + name_length labels + 1, acc ++ labels)).
Proof.
  induction labels as [|l labels IH]; intros fuel pre total acc Hl Ht Hn Hf;
    (destruct fuel as [|fuel]; [lia|]); cbn [label_loop].
  - unfold encode_labels. cbn [fmap list_fmap concat app].
    rewrite blen_app, blen_cons. unfold blen at 1 2 3. if_false. fold (blen pre).
    rewrite index_app. cbn [Z.eqb]. rewrite app_nil_r. cbn [name_length foldr].
    by rewrite Z.add_0_r.
  - apply Forall_cons in Hl as [Hl Hls]. unfold label_ok in Hl.
    rewrite name_length_cons in Hn.
    assert (0 ≤ name_length labels) as Hpos.
    { clear. unfold name_length. induction labels; cbn; [done|]. unfold blen in *. lia. }
    assert (pre ++ encode_labels (l :: labels) ++ rest =
            pre ++ blen l :: l ++ encode_labels labels ++ rest) as ->.
    { unfold encode_labels. cbn [fmap list_fmap concat app]. by rewrite <- !app_assoc. }
    assert (∀ x, blen (pre ++ blen l :: l ++ x) = blen pre + 1 + blen l + blen x) as Hlen.
    { intros x. rewrite blen_app, blen_cons, blen_app. lia. }
    rewrite Hlen. pose proof (Nat2Z.is_nonneg (length (encode_labels labels ++ rest))) as Hx.
    fold (blen (encode_labels labels ++ rest)) in Hx.
    if_false. rewrite index_app. if_false.
    assert (Z.land (blen l) 192 = 0) as ->.
    { rewrite Z.land_comm. apply (land_shiftl_low 3 (blen l) 6); lia. }
    cbn [Z.eqb negb orb]. if_false. if_false. if_false.
    assert (pre ++ blen l :: l ++ encode_labels labels ++ rest =
            (pre ++ [blen l]) ++ l ++ encode_labels labels ++ rest) as ->
      by (by rewrite <- app_assoc).
    assert (blen pre + 1 = blen (pre ++ [blen l])) as -> by (by rewrite blen_app).
    rewrite slice_app. rewrite app_assoc. rewrite <- blen_app.
    rewrite IH; [|done|lia|lia|cbn in Hf; lia].
    assert (blen ((pre ++ [blen l]) ++ l) + name_length labels + 1 =
            blen pre + name_length (l :: labels) + 1) as ->
      by (rewrite name_length_cons, !blen_app; change (blen [blen l]) with 1; lia).
    by rewrite <- (app_assoc acc).
Qed.

Lemma uint16_be16 n r : 0 ≤ n < 2 ^ 16 → uint16 (be16 n ++ r) = n.
Proof.
  intros Hn. unfold uint16. change (take 2 (be16 n ++ r)) with (be16 n).
  rewrite from_be16. change 65535 with (Z.ones 16). rewrite Z.land_ones by lia.
  rewrite Zmod_mod. by apply Z.mod_small.
Qed.

Lemma encode_length labels : blen (encode_labels labels) = name_length labels + 1.
Proof.
  unfold encode_labels. rewrite blen_app. change (blen [0]) with 1. f_equal.
  induction labels as [|l ls IH]; [done|]. cbn [fmap list_fmap concat name_length foldr].
  rewrite blen_app, blen_cons, IH. unfold name_length. lia.
Qed.

Lemma encode_count labels : (length labels ≤ length (encode_labels labels))%nat.
Proof.
  unfold encode_labels. rewrite length_app. cbn [length].
  induction labels as [|l ls IH]; [cbn; lia|]. cbn [fmap list_fmap concat].
  rewrite length_app. cbn [length]. lia.
Qed.

(** The name the resolver decides on is the one the packet's question spells:
    its labels, joined by dots, in lower case. *)
Lemma question_roundtrip pre labels qtype qclass rest :
  Forall label_ok labels → name_length labels ≤ 255 →
  0 ≤ qtype < 2 ^ 16 → 0 ≤ qclass < 2 ^ 16 →
  parseQuestion (pre ++ encode_labels labels ++ be16 qtype ++ be16 qclass ++ rest) (blen pre) =
  Some (Ok {| q_name := to_lower (join "." (string_of_bytes <$> labels));
              q_type := qtype; q_class := qclass;
              q_end := blen pre + name_length labels + 5 |}).
Proof.
  intros Hl Hn Ht Hc. unfold parseQuestion. rewrite label_loop_encode; [|done|lia|lia|].
  2: { rewrite !length_app. pose proof (encode_count labels). lia. }
  cbn [app]. unfold finish_question. set (b := pre ++ _).
  assert (blen pre + name_length labels + 1 = blen (pre ++ encode_labels labels)) as Ho
    by (rewrite blen_app, encode_length; lia).
  assert (b = (pre ++ encode_labels labels) ++ be16 qtype ++ be16 qclass ++ rest) as Hb
    by (unfold b; by rewrite <- app_assoc).
  rewrite Ho. set (pre' := pre ++ encode_labels labels) in *.
  assert (blen b = blen pre' + 4 + blen rest) as Hbl.
  { rewrite Hb, !blen_app. change (blen (be16 qtype)) with 2.
    change (blen (be16 qclass)) with 2. lia. }
  assert (slice b (blen pre') (blen pre' + 2) = Ok (be16 qtype)) as Hs1
    by (rewrite Hb; apply (slice_app pre' (be16 qtype))).
  assert (slice b (blen pre' + 2) (blen pre' + 2 + 2) = Ok (be16 qclass)) as Hs2.
  { rewrite Hb, app_assoc. change (blen pre' + 2) with (blen pre' + blen (be16 qtype)).
    rewrite <- (blen_app pre' (be16 qtype)). apply (slice_app _ (be16 qclass)). }
  assert ((blen pre' + 4 >? blen b) = false) as -> by (unfold blen in *; lia).
  replace (blen pre' + 4) with (blen pre' + 2 + 2) by lia.
  cbn [reject_if mbind result_bind]. rewrite Hs1. cbn [mbind result_bind].
  rewrite Hs2. cbn [mbind result_bind].
  rewrite <- (app_nil_r (be16 qtype)), <- (app_nil_r (be16 qclass)).
  rewrite !uint16_be16 by done. do 3 f_equal. lia.
Qed.

Lemma answer_query {Addr} (d : DNS Addr) remote id flags counts labels qtype qclass rest :
  Forall label_ok labels → name_length labels ≤ 255 →
  0 ≤ qtype < 2 ^ 16 → 0 ≤ qclass < 2 ^ 16 →
  length id = 2%nat → length counts = 6%nat → 0 ≤ flags < 2 ^ 15 →
  ∃ pq, q_name pq = to_lower (join "." (string_of_bytes <$> labels)) ∧
    q_type pq = qtype ∧ q_class pq = qclass ∧
    answer d (query id flags counts labels qtype qclass rest) remote =
    Some (let '(eff, out) := answer_question d remote id flags
            (encode_labels labels ++ be16 qtype ++ be16 qclass) pq in Ok (eff, Some out)).
Proof.
  intros Hl Hn Ht Hc Hid Hco Hf. unfold answer.
  destruct id as [|i1 [|i2 [|]]]; try done. unfold query. cbn [app].
  set (tail := counts ++ _).
  assert (∃ hdr, length hdr = 12%nat ∧
    i1 :: i2 :: be16 flags ++ be16 1 ++ tail =
    hdr ++ encode_labels labels ++ be16 qtype ++ be16 qclass ++ rest) as (hdr & Hh & Hq).
  { exists (i1 :: i2 :: be16 flags ++ be16 1 ++ counts). unfold tail. cbn [app].
    rewrite <- !app_assoc. split; [|done]. cbn [length]. rewrite !length_app, Hco. done. }
  clear Hid. set (q := i1 :: i2 :: be16 flags ++ be16 1 ++ tail) in *.
  assert (blen q = 12 + blen (encode_labels labels) + 4 + blen rest) as Hb.
  { rewrite Hq, !blen_app. change (blen (be16 qtype)) with 2.
    change (blen (be16 qclass)) with 2. unfold blen at 1. rewrite Hh. lia. }
  rewrite Hb. pose proof (Nat2Z.is_nonneg (length rest)). fold (blen rest) in *.
  pose proof (Nat2Z.is_nonneg (length (encode_labels labels))) as Hel.
  fold (blen (encode_labels labels)) in Hel. if_false.
  assert (slice q 0 2 = Ok [i1; i2]) as -> by (apply (slice_app [] [i1; i2])).
  assert (slice q 2 4 = Ok (be16 flags)) as -> by (apply (slice_app [i1; i2] (be16 flags))).
  assert (slice q 4 6 = Ok (be16 1)) as ->.
  { apply (slice_app (i1 :: i2 :: be16 flags) (be16 1)). }
  cbn [mbind result_bind].
  rewrite <- (app_nil_r (be16 flags)), <- (app_nil_r (be16 1)), !uint16_be16 by lia.
  assert (Z.land flags 32768 = 0) as ->.
  { rewrite Z.land_comm. apply (land_shiftl_low 1 flags 15); lia. }
  cbn [Z.eqb Pos.eqb negb].
  assert (blen hdr = 12) as Hhd by (unfold blen; lia).
  clearbody q. subst q.
  rewrite <- Hhd, question_roundtrip by done.
  eexists. split_and!; [| | |]; cycle 3.
  - cbn [q_end].
    assert (slice (hdr ++ encode_labels labels ++ be16 qtype ++ be16 qclass ++ rest)
        (blen hdr) (blen hdr + name_length labels + 5) =
      Ok (encode_labels labels ++ be16 qtype ++ be16 qclass)) as ->; [|done].
    assert (blen hdr + name_length labels + 5 =
      blen hdr + blen (encode_labels labels ++ be16 qtype ++ be16 qclass)) as ->.
    { rewrite !blen_app, encode_length. change (blen (be16 qtype)) with 2.
      change (blen (be16 qclass)) with 2. lia. }
    rewrite (app_assoc (be16 qtype)), (app_assoc (encode_labels labels)). apply slice_app.
  - done.
  - done.
  - done.
Qed.

(** A sandbox under an allowlist that asks for an address gets NXDOMAIN for
    a name its policy does not permit, which is logged, and for one it does
    the host's side of its link: nothing is resolved in either case. *)
Theorem dns_allowlist_answer {Addr} (d : DNS Addr) remote id flags counts labels rest ip :
  Forall label_ok labels → name_length labels ≤ 255 →
  length id = 2%nat → length counts = 6%nat → 0 ≤ flags < 2 ^ 11 →
  is_open d remote = false → To4 (dns_Sinkhole d remote) = Some ip →
  let name := to_lower (join "." (string_of_bytes <$> labels)) in
  let question := encode_labels labels ++ be16 typeA ++ be16 classIN in
  answer d (query id flags counts labels typeA classIN rest) remote =
  Some (Ok (if matcher_allows (matcher_for d remote) name
    then ([], Some (reply id flags rcodeOK (Some question) [ip] typeA))
    else ([Logged (dns_refused name)], Some (reply id flags rcodeNX (Some question) [] 0)))).
Proof.
  intros Hl Hn Hid Hco Hf Ho Hip name question.
  destruct (answer_query d remote id flags counts labels typeA classIN rest)
    as (pq & Hqn & Hqt & Hqc & ->); [done..|unfold typeA; lia|unfold classIN; lia|done|done|lia|].
  unfold answer_question. rewrite Hqc, Hqt, Hqn, Ho, Hip. fold name. fold question.
  assert (Z.shiftr flags 11 = 0) as ->.
  { rewrite Z.shiftr_div_pow2 by lia. apply Z.div_small. lia. }
  cbn [Z.land Z.eqb Pos.eqb negb orb classIN typeA].
  by destruct (matcher_allows (matcher_for d remote) name).
Qed.
End dns.

(** ** Witnesses *)
#[local] Existing Instance ascii_unicode.

(** One querier, allowed github.com, whose sinkhole is 10.0.0.1. *)
Definition example_dns : DNS unit := {|
  dns_MatchFor := Some (λ _, Some (NewMatcher ["github.com"%string]));
  dns_Sinkhole := λ _, [10; 0; 0; 1]%Z; dns_Open := None; dns_Resolve := None |}.
Definition example_labels : list (list Z) := [bytes_of_string "GitHub"; bytes_of_string "com"].
Definition example_query : list Z := query [1; 2]%Z 256 (replicate 6 0) example_labels 1 1 [].

Lemma dns_always_returns_witness :
  ∃ eff out, answer example_dns (example_query ++ [255]%Z) tt = Some (Ok (eff, out)).
Proof.
  apply dns_always_returns. apply (bool_decide_unpack _). vm_compute. exact I.
Defined.

Lemma dns_reply_bounded_witness :
  (length (reply [1; 2]%Z 256 0 (Some (encode_labels example_labels ++ be16 1 ++ be16 1))
     [[10; 0; 0; 1]%Z] 1) ≤ 512)%nat.
Proof.
  apply (dns_reply_bounded example_dns example_query tt []).
  - apply (bool_decide_unpack _). vm_compute. exact I.
  - vm_compute. reflexivity.
Defined.

Lemma dns_no_exfiltration_witness :
  (∀ name, Resolved name ∈ @nil dns_effect →
     is_open example_dns tt = true ∧
     matcher_allows (matcher_for example_dns tt) name = true) ∧
  (is_open example_dns tt = false → ∀ r,
     answer (with_resolve example_dns r) example_query tt =
     Some (Ok ([], Some (reply [1; 2]%Z 256 0
       (Some (encode_labels example_labels ++ be16 1 ++ be16 1)) [[10; 0; 0; 1]%Z] 1)))).
Proof. apply dns_no_exfiltration. vm_compute. reflexivity. Defined.

Lemma dns_allowlist_answer_witness :
  answer example_dns example_query tt =
  Some (Ok ([], Some (reply [1; 2]%Z 256 0
    (Some (encode_labels example_labels ++ be16 1 ++ be16 1)) [[10; 0; 0; 1]%Z] 1))).
Proof.
  apply (dns_allowlist_answer example_dns tt [1; 2]%Z 256 (replicate 6 0) example_labels []);
    try reflexivity; try lia; try (vm_compute; discriminate).
  repeat constructor; vm_compute; discriminate.
Defined.

(** The longest question the parser takes: labels of 63, 63, 63 and 62 bytes,
    256 bytes of name with its root, 260 in all. *)
Example longest_question :
  match parseQuestion (encode_labels [replicate 63 97; replicate 63 97; replicate 63 97;
      replicate 62 97] ++ be16 1 ++ be16 1) 0 with
  | Some (Ok q) => q_end q = 260
  | _ => False
  end.
Proof. vm_compute. reflexivity. Qed.
