(* ===== verification/Proxy.v ===== *)
(** * The egress proxy and the open-egress forwarder
      (internal/egressproxy/server.go, open.go)

    A client connection is what it sends until it stops: the chunks its
    successive reads return, then the end of the stream or the deadline. What
    [handle] does to the world is the list of its effects, in order; name
    resolution, dialling and the kernel's record of the original destination
    are arguments. *)
From S2P Require Import Prelude GoStrings EgressNames Sni Dns.

(** [bufio.NewReaderSize(client, maxClientHello+512)]. *)
Definition reader_size : nat := Z.to_nat (maxClientHello + 512).

(** Reads until [n] bytes are buffered, the buffer is full or the client stops. *)
Fixpoint fill (n : nat) (buf : list Z) (chunks : list (list Z)) : list Z * list (list Z) :=
  if (n <=? length buf)%nat then (buf, chunks)
  else match chunks with
       | [] => (buf, [])
       | c :: cs => fill n (take reader_size (buf ++ c)) cs
       end.

Definition peekRecord (buf : list Z) (chunks : list (list Z)) : result name_error (list Z) :=
  let '(buf, chunks) := fill 5 buf chunks in
  match take 5 buf with
  | [_; _; _; h3; h4] =>
      let n := Z.lor (Z.shiftl h3 8) h4 in
      if (n <=? 0) || (n >? maxClientHello) then Err errNotClientHello
      else
        let total := Nat.min (5 + Z.to_nat n) reader_size in
        let '(buf, _) := fill total buf chunks in
        let b := take total buf in
        if bool_decide (length b < total)%nat && bool_decide (length b < 6)%nat
        then Err errTruncatedRecord else Ok b
  | _ => Err errShortRecord
  end.

(** [bytes.Contains] of the blank line that ends a request's head. *)
Fixpoint has_head (b : list Z) : bool :=
  match b with
  | [] => false
  | _ :: t =>
      bool_decide (take 4 b = [13; 10; 13; 10]) || bool_decide (take 2 b = [10; 10]) || has_head t
  end.

Fixpoint peekHeaders (buf : list Z) (chunks : list (list Z)) : result name_error (list Z) :=
  if has_head buf || (reader_size <=? length buf)%nat then Ok buf
  else match chunks with
       | [] => if bool_decide (buf = []) then Err errNoData else Ok buf
       | c :: cs => peekHeaders (take reader_size (buf ++ c)) cs
       end.

Section proxy.
Context `{Unicode}.

Definition parseConnect (b : list Z) : option (string * Z) :=
  match cut_crlf (chars (string_of_bytes b)) with
  | None => None
  | Some (line, _) =>
      match fields (of_chars line) with
      | verb :: hostport :: _ =>
          if negb (equal_fold verb "CONNECT") then None
          else
            let '(hostport, port) :=
              match SplitHostPort hostport with
              | Some (h, p) => (h, default 443 (Atoi p))
              | None => (hostport, 443)
              end in
            let h := normalizeHost hostport in
            if String.eqb h "" || negb (plausibleHostname h) then None else Some (h, port)
      | _ => None
      end
  end.

Fixpoint host_lines (lines : list (list ascii)) : option string :=
  match lines with
  | [] => None
  | line :: lines =>
      match cut_chars ":" line with
      | None => host_lines lines
      | Some (name, value) =>
          if negb (equal_fold (trim_space (of_chars name)) "host") then host_lines lines
          else
            let h := normalizeHost (of_chars value) in
            if String.eqb h "" || negb (plausibleHostname h) then None else Some h
      end
  end.

Definition hostHeader (b : list Z) : option string :=
  host_lines (split_crlf (length b) (chars (string_of_bytes b))).

(** What [peek] learns: the host, the port and whether it was an explicit
    CONNECT. *)
Record target := {
  t_host : string;
  t_port : Z;
  t_explicit : bool
}.

Definition peek (chunks : list (list Z)) : result name_error target :=
  let '(buf, chunks) := fill 1 [] chunks in
  match buf with
  | [] => Err errNoData
  | first :: _ =>
      if first =? 22 then
        hello ← peekRecord buf chunks;
        match SNIFromClientHello hello with
        | Some (Ok h) => Ok {| t_host := h; t_port := 443; t_explicit := false |}
        | Some (Err e) => Err e
        | None => Err errNotClientHello (* the parser always returns *)
        end
      else
        line ← peekHeaders buf chunks;
        match parseConnect line with
        | Some (h, p) => Ok {| t_host := h; t_port := p; t_explicit := true |}
        | None =>
            match hostHeader line with
            | Some h => Ok {| t_host := h; t_port := 80; t_explicit := false |}
            | None => Err ErrNoHostname
            end
        end
  end.

Variant effect :=
| ELog (d : Decision)
| EWrite (status : string)
| EResolve (host : string)
| EDial (ip : list Z) (port : Z)
| ESplice.

#[export] Instance Decision_eq_dec : EqDecision EgressNames.Decision.
Proof. solve_decision. Defined.
#[export] Instance effect_eq_dec : EqDecision effect.
Proof. solve_decision. Defined.

Definition forbidden : string := "HTTP/1.1 403 Forbidden".
Definition established : string := "HTTP/1.1 200 Connection established".

(** The text of an error [peek] returns, as [Decision.Reason] has it. *)
Definition error_text (e : name_error) : string :=
  match e with
  | errNotClientHello => "not a TLS ClientHello"
  | ErrNoHostname => "connection carries no hostname to check"
  | errShortRecord => "short TLS record"
  | errTruncatedRecord => "truncated TLS record"
  | errNoData => "connection sent no data"
  end.

Definition decision (host : string) (port : Z) (allowed : bool) (reason : string) : Decision :=
  {| d_Host := host; d_Port := port; d_Allowed := allowed; d_Reason := reason |}.

(** The proxy, for clients of type [Addr]. *)
Record Server (Addr : Type) := {
  sv_Match : option Matcher;
  sv_MatchFor : option (Addr → option Matcher);
  sv_Resolve : string → option (list (list Z));
  (** the error's text, or nothing once connected *)
  sv_Dial : list Z → Z → option string
}.
#[global] Arguments sv_Match {Addr}.
#[global] Arguments sv_MatchFor {Addr}.
#[global] Arguments sv_Resolve {Addr}.
#[global] Arguments sv_Dial {Addr}.

(** The addresses tried in turn: the effects, and the last error if none
    connects. *)
Fixpoint dial_each (dial : list Z → Z → option string) (ips : list (list Z)) (port : Z)
    (last : string) : list effect * option string :=
  match ips with
  | [] => ([], Some last)
  | ip :: ips =>
      match dial ip port with
      | None => ([EDial ip port], None)
      | Some e =>
          let '(eff, r) := dial_each dial ips port e in (EDial ip port :: eff, r)
      end
  end.

Definition dialHost {Addr} (s : Server Addr) (host : string) (port : Z)
    : list effect * option string :=
  match sv_Resolve s host with
  | None | Some [] => ([EResolve host], Some ("cannot resolve " +:+ host))
  | Some ips => let '(eff, r) := dial_each (sv_Dial s) ips port "" in (EResolve host :: eff, r)
  end.

Definition server_matcher {Addr} (s : Server Addr) (remote : Addr) : option Matcher :=
  match sv_MatchFor s with Some f => f remote | None => sv_Match s end.

Definition permits_host (m : option Matcher) (host : string) : bool :=
  match m with Some m => Allows m host | None => false end.

(** From the decision on: [t] is the target with the port settled. *)
Definition serve_target {Addr} (s : Server Addr) (remote : Addr) (write_ok : bool) (t : target)
    : list effect :=
  let refuse := if t_explicit t then [EWrite forbidden] else [] in
  if t_explicit t && negb (t_port t =? 80) && negb (t_port t =? 443) then
    ELog (decision (t_host t) (t_port t) false "CONNECT to a port outside 80/443") :: refuse
  else if negb (permits_host (server_matcher s remote) (t_host t)) then
    ELog (decision (t_host t) (t_port t) false "not on the egress allowlist") :: refuse
  else
    let '(eff, r) := dialHost s (t_host t) (t_port t) in
    eff ++
    match r with
    | Some e => [ELog (decision (t_host t) (t_port t) true ("upstream: " +:+ e))]
    | None =>
        ELog (decision (t_host t) (t_port t) true "") ::
        (if t_explicit t then EWrite established :: (if write_ok then [ESplice] else [])
         else [ESplice])
    end.

(** [origPort] is what [OriginalDestination] reports, if it can. *)
Definition settle_port (origPort : option Z) (t : target) : target :=
  match origPort with
  | Some p => if negb (t_explicit t) && (p >? 0)
              then {| t_host := t_host t; t_port := p; t_explicit := t_explicit t |} else t
  | None => t
  end.

Definition handle {Addr} (s : Server Addr) (remote : Addr) (chunks : list (list Z))
    (origPort : option Z) (write_ok : bool) : list effect :=
  match peek chunks with
  | Err errNoData => []
  | Err e => [ELog (decision "" 0 false (error_text e))]
  | Ok t => serve_target s remote write_ok (settle_port origPort t)
  end.

(** ** Open egress *)

(** [notPublic]: networks as their first address and prefix length. *)
Definition notPublic : list (list Z * Z) :=
  [([0; 0; 0; 0], 8); ([10; 0; 0; 0], 8); ([100; 64; 0; 0], 10); ([127; 0; 0; 0], 8);
   ([169; 254; 0; 0], 16); ([172; 16; 0; 0], 12); ([192; 0; 0; 0], 24); ([192; 0; 2; 0], 24);
   ([192; 88; 99; 0], 24); ([192; 168; 0; 0], 16); ([198; 18; 0; 0], 15);
   ([198; 51; 100; 0], 24); ([203; 0; 113; 0], 24); ([224; 0; 0; 0], 4); ([240; 0; 0; 0], 4)].

(** [IPNet.Contains], on IPv4: the bits of the prefix agree. *)
Definition net_contains (n : list Z * Z) (ip : list Z) : bool :=
  Z.shiftr (from_be ip) (32 - snd n) =? Z.shiftr (from_be (fst n)) (32 - snd n).

(** Why an address may not be connected to; [None] is the empty string. *)
Definition Unreachable (ip : list Z) (local : list (list Z)) : option string :=
  match To4 ip with
  | None => Some "open egress: not an IPv4 address"%string
  | Some v4 =>
      if existsb (λ n, net_contains n v4) notPublic
      then Some "open egress: not a public address"%string
      else if existsb (λ l, bool_decide (To4 l = Some v4)) local
      then Some "open egress: one of the host's own addresses"%string
      else None
  end.

Record Forwarder (Addr : Type) := {
  (** the matcher, and whether the client is a sandbox with open egress *)
  fw_For : Addr → option Matcher * bool;
  fw_Unreachable : list Z → option string;
  fw_Dial : list Z → Z → option string
}.
#[global] Arguments fw_For {Addr}.
#[global] Arguments fw_Unreachable {Addr}.
#[global] Arguments fw_Dial {Addr}.

(** [NewForwarder]'s check, [local] being the host's addresses now, if they
    can be read. *)
Definition unreachable_now (local : option (list (list Z))) (ip : list Z) : option string :=
  match local with
  | None => Some "open egress: cannot read the host's addresses"%string
  | Some local => Unreachable ip local
  end.

(** The name a connection gives that the deny list refuses. *)
Definition denied_name (m : Matcher) (port : Z) (chunks : list (list Z)) : option string :=
  match m_deny m with
  | Some _ =>
      if (port =? 80) || (port =? 443) then
        match peek chunks with
        | Ok t => if Allows m (t_host t) then None else Some (t_host t)
        | Err _ => None
        end
      else None
  | None => None
  end.

(** [dest] is what [Dest] reports: an address, nil as [], and a port. *)
Definition forward {Addr} (f : Forwarder Addr) (remote : Addr) (dest : option (list Z * Z))
    (show : list Z → string) (chunks : list (list Z)) : list effect :=
  match fw_For f remote with
  | (Some m, true) =>
      match dest with
      | Some (ip, port) =>
          if bool_decide (ip = []) || (port <=? 0)
          then [ELog (decision "" 0 false "open egress: no original destination")]
          else match fw_Unreachable f ip with
          | Some why => [ELog (decision (show ip) port false why)]
          | None =>
              match denied_name m port chunks with
              | Some host => [ELog (decision host port false "on the deny list")]
              | None =>
                  EDial ip port ::
                  match fw_Dial f ip port with
                  | Some e => [ELog (decision (show ip) port true ("upstream: " +:+ e))]
                  | None => [ESplice]
                  end
              end
          end
      | None => [ELog (decision "" 0 false "open egress: no original destination")]
      end
  | _ => []
  end.

(** ** Nothing is dialled before the decision *)

(** Refutes membership in a list of effects none of which is the one at hand. *)
Ltac not_among :=
  let Hx := fresh in
  intros Hx; repeat (apply elem_of_cons in Hx as [Hx|Hx]; [discriminate Hx|]);
  apply not_elem_of_nil in Hx; destruct Hx.

Lemma dial_each_dials dial ips port last ip p :
  EDial ip p ∈ (dial_each dial ips port last).1 → ip ∈ ips ∧ p = port.
Proof.
  revert last. induction ips as [|x ips IH]; intros last; cbn; [by intros H'%not_elem_of_nil|].
  destruct (dial x port) as [e|]; cbn.
  - destruct (dial_each dial ips port e) as [eff r] eqn:E. cbn.
    intros [[= -> ->]|Hin]%elem_of_cons; [split; [constructor|done]|].
    specialize (IH e). rewrite E in IH. destruct (IH Hin). split; [by constructor|done].
  - intros [= -> ->]%list_elem_of_singleton. split; [constructor|done].
Qed.

Lemma dialHost_dials {Addr} (s : Server Addr) host port ip p :
  EDial ip p ∈ (dialHost s host port).1 →
  p = port ∧ ∃ ips, sv_Resolve s host = Some ips ∧ ip ∈ ips.
Proof.
  unfold dialHost. destruct (sv_Resolve s host) as [[|x ips]|]; cbn [fst].
  - by intros [=]%list_elem_of_singleton.
  - destruct (dial_each (sv_Dial s) (x :: ips) port "") as [eff r] eqn:E. cbn [fst].
    intros [[=]|Hin]%elem_of_cons.
    pose proof (dial_each_dials (sv_Dial s) (x :: ips) port "" ip p) as Hd. rewrite E in Hd.
    destruct (Hd Hin). eauto.
  - by intros [=]%list_elem_of_singleton.
Qed.

Lemma settle_port_spec origPort t :
  t_host (settle_port origPort t) = t_host t ∧
  t_explicit (settle_port origPort t) = t_explicit t ∧
  (t_explicit t = true → t_port (settle_port origPort t) = t_port t).
Proof.
  unfold settle_port. destruct origPort as [p|]; [|done].
  destruct (t_explicit t) eqn:E; cbn; [done|]. by destruct (p >? 0).
Qed.

Lemma serve_target_dials {Addr} (s : Server Addr) remote wok t ip port :
  EDial ip port ∈ serve_target s remote wok t →
  permits_host (server_matcher s remote) (t_host t) = true ∧ port = t_port t ∧
  (∃ ips, sv_Resolve s (t_host t) = Some ips ∧ ip ∈ ips) ∧
  (t_explicit t = true → port = 80 ∨ port = 443).
Proof.
  unfold serve_target.
  destruct (t_explicit t && negb (t_port t =? 80) && negb (t_port t =? 443)) eqn:E1.
  { destruct (t_explicit t); not_among. }
  destruct (permits_host (server_matcher s remote) (t_host t)) eqn:E2; cbn [negb].
  2: { destruct (t_explicit t); not_among. }
  pose proof (dialHost_dials s (t_host t) (t_port t) ip port) as Hd.
  destruct (dialHost s (t_host t) (t_port t)) as [eff r]. cbn [fst] in Hd.
  rewrite elem_of_app. intros [Hin|Hin].
  - destruct (Hd Hin) as [-> Hips]. split_and!; try done. intros He. rewrite He in E1. lia.
  - revert Hin. destruct r, (t_explicit t), wok; not_among.
Qed.

(** C3. The proxy connects only for a connection that named a host its
    sandbox's policy permits, to an address that name resolves to now; an
    explicit CONNECT only reaches ports 80 and 443. *)
Theorem proxy_only_permitted {Addr} (s : Server Addr) remote chunks origPort write_ok ip port :
  EDial ip port ∈ handle s remote chunks origPort write_ok →
  ∃ t ips, peek chunks = Ok t ∧
    permits_host (server_matcher s remote) (t_host t) = true ∧
    sv_Resolve s (t_host t) = Some ips ∧ ip ∈ ips ∧
    (t_explicit t = true → port = t_port t ∧ (port = 80 ∨ port = 443)).
Proof.
  unfold handle. destruct (peek chunks) as [t|[]]; try not_among.
  intros Hd. apply serve_target_dials in Hd as (Hp & -> & (ips & Hr & Hin) & Hx).
  destruct (settle_port_spec origPort t) as (Eh & Ee & Ep).
  rewrite Eh in Hp, Hr. rewrite Ee in Hx. exists t, ips. split_and!; auto.
Qed.

(** A connection whose name the policy does not permit touches nothing:
    no name is resolved and nothing dialled; the refusal is logged. *)
Theorem proxy_refuses {Addr} (s : Server Addr) remote chunks origPort write_ok t :
  peek chunks = Ok t → permits_host (server_matcher s remote) (t_host t) = false →
  ∃ port why, handle s remote chunks origPort write_ok =
    ELog (decision (t_host t) port false why) ::
    (if t_explicit t then [EWrite forbidden] else []).
Proof.
  intros Hp Hm. unfold handle. rewrite Hp. unfold serve_target.
  destruct (settle_port_spec origPort t) as (Eh & Ee & Ep). rewrite Eh, Ee, Hm.
  cbn [negb]. case_match; eauto.
Qed.

(** ** How the bytes arrive does not matter *)
Lemma fill_take n : ∀ chunks buf, (n ≤ reader_size)%nat →
  take n (fill n buf chunks).1 = take n (buf ++ concat chunks) ∧
  ∀ m, (m ≤ reader_size)%nat →
    take m ((fill n buf chunks).1 ++ concat (fill n buf chunks).2) = take m (buf ++ concat chunks).
Proof.
  induction chunks as [|c cs IH]; intros buf Hn; cbn [fill].
  - destruct (n <=? length buf)%nat; cbn [fst snd concat]; rewrite app_nil_r; done.
  - destruct (Nat.leb_spec n (length buf)); cbn [fst snd].
    + split; [|done]. by rewrite take_app_le.
    + destruct (IH (take reader_size (buf ++ c)) Hn) as [IH1 IH2].
      assert (∀ m, (m ≤ reader_size)%nat →
        take m (take reader_size (buf ++ c) ++ concat cs) = take m (buf ++ concat (c :: cs)))
        as Ht.
      { intros m Hm. cbn [concat]. rewrite app_assoc.
        destruct (Nat.le_ge_cases (length (buf ++ c)) reader_size).
        - by rewrite (take_ge (buf ++ c)).
        - rewrite (take_app_le (take _ _)) by (rewrite length_take; lia).
          rewrite (take_app_le (buf ++ c)) by lia. rewrite take_take. by rewrite Nat.min_l. }
      split; [by rewrite IH1, Ht|]. intros m Hm. by rewrite IH2, Ht.
Qed.

(** What [peekRecord] answers of a stream. *)
Definition record_of (stream : list Z) : result name_error (list Z) :=
  match take 5 stream with
  | [_; _; _; h3; h4] =>
      let n := Z.lor (Z.shiftl h3 8) h4 in
      if (n <=? 0) || (n >? maxClientHello) then Err errNotClientHello
      else
        let total := Nat.min (5 + Z.to_nat n) reader_size in
        let b := take total stream in
        if bool_decide (length b < total)%nat && bool_decide (length b < 6)%nat
        then Err errTruncatedRecord else Ok b
  | _ => Err errShortRecord
  end.

Lemma reader_size_5 : (5 ≤ reader_size)%nat.
Proof. unfold reader_size, maxClientHello. lia. Qed.

Lemma peekRecord_stream buf chunks : peekRecord buf chunks = record_of (buf ++ concat chunks).
Proof.
  unfold peekRecord, record_of.
  destruct (fill_take 5 chunks buf reader_size_5) as [H5 Hs].
  destruct (fill 5 buf chunks) as [buf1 ch1]. cbn [fst snd] in *. rewrite H5.
  destruct (take 5 (buf ++ concat chunks)) as [|? [|? [|? [|h3 [|h4 [|]]]]]]; try done.
  case_match; [done|]. set (total := Nat.min _ _).
  assert (total ≤ reader_size)%nat as Ht by (unfold total; lia).
  destruct (fill_take total ch1 buf1 Ht) as [Hf _].
  destruct (fill total buf1 ch1) as [buf2 ch2]. cbn [fst] in Hf.
  by rewrite Hf, Hs.
Qed.

Lemma record_of_take s s' :
  (∀ m, (m ≤ reader_size)%nat → take m s = take m s') → record_of s = record_of s'.
Proof.
  intros Hs. unfold record_of. rewrite (Hs 5%nat reader_size_5).
  destruct (take 5 s') as [|? [|? [|? [|h3 [|h4 [|]]]]]]; try done.
  case_match; [done|]. rewrite Hs by lia. done.
Qed.

Lemma peek_tls_stream chunks rest :
  concat chunks = 22 :: rest →
  peek chunks =
    (hello ← record_of (22 :: rest);
     match SNIFromClientHello hello with
     | Some (Ok h) => Ok {| t_host := h; t_port := 443; t_explicit := false |}
     | Some (Err e) => Err e
     | None => Err errNotClientHello
     end).
Proof.
  intros Hc. unfold peek.
  assert (1 ≤ reader_size)%nat as H1 by (pose proof reader_size_5; lia).
  destruct (fill_take 1 chunks [] H1) as [Hb Hs].
  destruct (fill 1 [] chunks) as [buf ch]. cbn [fst snd app] in *. rewrite Hc in *.
  destruct buf as [|b0 buf]; [done|]. injection Hb as ->. cbn [Z.eqb Pos.eqb].
  rewrite peekRecord_stream. by rewrite (record_of_take _ _ Hs).
Qed.

(** A handshake is read the same however the client's bytes arrive: the
    decision on a TLS connection is a function of the stream, not of how it
    is cut into packets. *)
Theorem proxy_chunking {Addr} (s : Server Addr) remote chunks chunks' rest origPort write_ok :
  concat chunks = 22 :: rest → concat chunks' = 22 :: rest →
  handle s remote chunks origPort write_ok = handle s remote chunks' origPort write_ok.
Proof.
  intros H1 H2. unfold handle.
  by rewrite (peek_tls_stream _ _ H1), (peek_tls_stream _ _ H2).
Qed.

(** ** Open egress reaches the public internet alone *)

(** The addresses no sandbox reaches, byte by byte. *)
Definition private_ipv4 (a b c : Z) : bool :=
  (a =? 0) || (a =? 10) || (a =? 127) || (a >=? 224) ||
  ((a =? 100) && (64 <=? b) && (b <? 128)) || ((a =? 169) && (b =? 254)) ||
  ((a =? 172) && (16 <=? b) && (b <? 32)) || ((a =? 192) && (b =? 168)) ||
  ((a =? 192) && (b =? 0) && ((c =? 0) || (c =? 2))) || ((a =? 192) && (b =? 88) && (c =? 99)) ||
  ((a =? 198) && ((b =? 18) || (b =? 19))) || ((a =? 198) && (b =? 51) && (c =? 100)) ||
  ((a =? 203) && (b =? 0) && (c =? 113)).

Lemma net_contains_range n len ip sz :
  0 ≤ len ≤ 32 → 2 ^ (32 - len) = sz →
  net_contains (n, len) ip = ((from_be n / sz * sz <=? from_be ip) &&
                              (from_be ip <? from_be n / sz * sz + sz)).
Proof.
  intros Hl Hsz. unfold net_contains. cbn [fst snd]. rewrite !Z.shiftr_div_pow2 by lia.
  rewrite Hsz. assert (0 < sz) by (subst sz; apply Z.pow_pos_nonneg; lia).
  apply eq_true_iff_eq. rewrite Z.eqb_eq, andb_true_iff, Z.leb_le, Z.ltb_lt. split.
  - intros <-. pose proof (Z.div_mod (from_be ip) sz).
    pose proof (Z.mod_pos_bound (from_be ip) sz). lia.
  - intros Hb. symmetry.
    apply (Z.div_unique_pos _ _ _ (from_be ip - from_be n / sz * sz)); lia.
Qed.

(** [notPublic] as ranges of addresses: first and size. *)
Definition not_public_ranges : list (Z * Z) :=
  Eval vm_compute in
  (λ n : list Z * Z, (from_be (fst n) / 2 ^ (32 - snd n) * 2 ^ (32 - snd n), 2 ^ (32 - snd n)))
    <$> notPublic.

Lemma notPublic_ranges ip :
  existsb (λ n, net_contains n ip) notPublic =
  existsb (λ r, (fst r <=? from_be ip) && (from_be ip <? fst r + snd r)) not_public_ranges.
Proof.
  unfold notPublic, not_public_ranges. cbn [existsb fst snd].
  repeat (erewrite net_contains_range; [|lia|reflexivity]).
  reflexivity.
Qed.

Lemma notPublic_private a b c d :
  is_byte a → is_byte b → is_byte c → is_byte d →
  existsb (λ n, net_contains n [a; b; c; d]) notPublic = private_ipv4 a b c.
Proof.
  unfold is_byte. intros Ha Hb Hc Hd. rewrite notPublic_ranges.
  unfold not_public_ranges, private_ipv4, from_be. cbn [existsb fst snd foldl].
  apply eq_true_iff_eq. rewrite !orb_true_iff, !andb_true_iff, !orb_true_iff.
  rewrite !Z.eqb_eq, !Z.leb_le, !Z.ltb_lt, Z.geb_le, ?or_False.
  assert (a < 240 ∨ 240 ≤ a) as Hsplit by lia.
  split; intros Hr; destruct_or?; destruct_and?; destruct_or?; pick_lia.
Qed.

(** Open egress reaches an IPv4 address exactly when it is public — in
    none of the private, loopback, link-local, shared, documentation,
    multicast or reserved ranges — and none of the host's own. *)
Theorem unreachable_spec a b c d local :
  is_byte a → is_byte b → is_byte c → is_byte d →
  Unreachable [a; b; c; d] local = None ↔
  private_ipv4 a b c = false ∧ ∀ l, l ∈ local → To4 l ≠ Some [a; b; c; d].
Proof.
  intros Ha Hb Hc Hd. unfold Unreachable. change (To4 [a; b; c; d]) with (Some [a; b; c; d]).
  cbv beta iota. rewrite notPublic_private by done.
  destruct (private_ipv4 a b c); [naive_solver|].
  destruct (existsb _ local) eqn:E.
  - split; [done|]. intros [_ Hl]. apply existsb_exists in E as (l & Hin & Hl').
    bool_simpl. by destruct (Hl l); [apply list_elem_of_In|].
  - split; [intros _; split; [done|]|done]. intros l Hin Heq.
    assert (existsb (λ l, bool_decide (To4 l = Some [a; b; c; d])) local = true); [|congruence].
    apply existsb_exists. exists l. split; [by apply list_elem_of_In|]. by apply bool_decide_eq_true.
Qed.

(** The forwarder connects only for a sandbox with open egress, only to
    where its connection was going, only where that is reachable, and, on
    ports 80 and 443, not when the connection names a host its deny list
    refuses. *)
Theorem forward_only_public {Addr} (f : Forwarder Addr) remote dest show chunks ip port :
  EDial ip port ∈ forward f remote dest show chunks →
  ∃ m, fw_For f remote = (Some m, true) ∧ dest = Some (ip, port) ∧ 0 < port ∧
    fw_Unreachable f ip = None ∧
    (∀ d t, m_deny m = Some d → port = 80 ∨ port = 443 → peek chunks = Ok t →
       Allows m (t_host t) = true).
Proof.
  unfold forward. destruct (fw_For f remote) as [[m|] []]; try not_among.
  destruct dest as [[ip' port']|]; [|not_among].
  destruct (bool_decide (ip' = []) || (port' <=? 0)) eqn:E1; [not_among|].
  destruct (fw_Unreachable f ip') eqn:E2; [not_among|].
  destruct (denied_name m port' chunks) eqn:E3; [not_among|].
  intros Hin. assert (ip' = ip ∧ port' = port) as [-> ->].
  { apply elem_of_cons in Hin as [[= -> ->]|Hin]; [done|].
    revert Hin. destruct (fw_Dial f ip' port'); not_among. }
  exists m. split_and!; try done; [lia|].
  intros d t Hd Hp Ht. unfold denied_name in E3. rewrite Hd, Ht in E3.
  assert (((port =? 80) || (port =? 443)) = true) as Hpp by lia. rewrite Hpp in E3.
  by destruct (Allows m (t_host t)).
Qed.
End proxy.

(** ** Witnesses *)
#[local] Existing Instance ascii_unicode.

Definition example_server : Server unit := {|
  sv_Match := Some (NewPolicyMatcher ["github.com"%string] []); sv_MatchFor := None;
  sv_Resolve := λ _, Some [[140; 82; 121; 3]%Z]; sv_Dial := λ _ _, None |}.

Definition example_request (line : string) : list (list Z) :=
  [bytes_of_string line ++ [13; 10]%Z; [13; 10]%Z].

Lemma proxy_only_permitted_witness :
  ∃ t ips, peek [example_hello] = Ok t ∧
    permits_host (server_matcher example_server tt) (t_host t) = true ∧
    sv_Resolve example_server (t_host t) = Some ips ∧ [140; 82; 121; 3]%Z ∈ ips ∧
    (t_explicit t = true → 8443 = t_port t ∧ (8443 = 80 ∨ 8443 = 443)).
Proof.
  apply (proxy_only_permitted example_server tt [example_hello] (Some 8443) true).
  apply (bool_decide_unpack _). vm_compute. exact I.
Defined.

Lemma proxy_refuses_witness :
  ∃ port why, handle example_server tt (example_request "CONNECT gist.github.com:443 HTTP/1.1")
      None true =
    ELog (decision "gist.github.com" port false why) :: [EWrite forbidden].
Proof.
  apply (proxy_refuses example_server tt _ None true
    {| t_host := "gist.github.com"; t_port := 443; t_explicit := true |});
    vm_compute; reflexivity.
Defined.

Lemma proxy_chunking_witness :
  handle example_server tt [example_hello] None true =
  handle example_server tt [take 7 example_hello; drop 7 example_hello] None true.
Proof. apply (proxy_chunking example_server tt _ _ (drop 1 example_hello)); vm_compute; reflexivity. Defined.

Lemma unreachable_spec_witness :
  Unreachable [8; 8; 8; 8]%Z [[192; 0; 2; 7]%Z] = None ↔
  private_ipv4 8 8 8 = false ∧ ∀ l, l ∈ [[192; 0; 2; 7]%Z] → To4 l ≠ Some [8; 8; 8; 8]%Z.
Proof. apply unreachable_spec; unfold is_byte; lia. Defined.

Definition example_forwarder : Forwarder unit := {|
  fw_For := λ _, (Some (NewDenyMatcher ["pastebin.com"%string]), true);
  fw_Unreachable := unreachable_now (Some []); fw_Dial := λ _ _, None |}.

Lemma forward_only_public_witness :
  ∃ m, fw_For example_forwarder tt = (Some m, true) ∧
    Some ([140; 82; 121; 3]%Z, 443) = Some ([140; 82; 121; 3]%Z, 443) ∧ 0 < 443 ∧
    fw_Unreachable example_forwarder [140; 82; 121; 3]%Z = None ∧
    (∀ d t, m_deny m = Some d → 443 = 80 ∨ 443 = 443 → peek [example_hello] = Ok t →
       Allows m (t_host t) = true).
Proof.
  apply (forward_only_public example_forwarder tt (Some ([140; 82; 121; 3]%Z, 443))
    (λ _, ""%string) [example_hello]).
  apply (bool_decide_unpack _). vm_compute. exact I.
Defined.
