(* ===== verification/Frames.v ===== *)
(** * Frames between the host and the guest agent (internal/guestproto/proto.go)

    A frame is a type byte, a big-endian uint32 length and that many bytes.
    [WriteFrame] is what it appends to the stream, [ReadFrame] what it makes
    of one: the frame and the bytes after it. *)
From S2P Require Import Prelude GoStrings.

Definition MaxFrame : Z := 2 ^ 20.

Definition FrameStdin : Z := 105.
Definition FrameStdinEOF : Z := 101.
Definition FrameSignal : Z := 115.
Definition FrameResize : Z := 114.
Definition FrameStdout : Z := 111.
Definition FrameStderr : Z := 69.
Definition FrameExit : Z := 120.
Definition FrameDropped : Z := 100.

Inductive frame_error :=
| errFrameTooLarge (n : Z)
| errShortRead.

(** The header and the payload. *)
Definition frame_bytes (typ : Z) (payload : list Z) : list Z :=
  (typ :: be32 (blen payload)) ++ payload.

Definition WriteFrame (typ : Z) (payload : list Z) : result frame_error (list Z) :=
  if blen payload >? MaxFrame then Err (errFrameTooLarge (blen payload))
  else Ok (frame_bytes typ payload).

(** [io.ReadFull] of [n] bytes. *)
Definition read_full (n : nat) (r : list Z) : result frame_error (list Z * list Z) :=
  if (length r <? n)%nat then Err errShortRead else Ok (take n r, drop n r).

Definition ReadFrame (r : list Z) : result frame_error (Z * list Z * list Z) :=
  '(hdr, r) ← read_full 5 r;
  let n := from_be (drop 1 hdr) in
  reject_if (n >? MaxFrame) (errFrameTooLarge n);;
  '(buf, r) ← read_full (Z.to_nat n) r;
  Ok (default 0 (head hdr), buf, r).

(** Frames read until the stream ends or breaks the protocol. *)
Fixpoint read_frames (fuel : nat) (r : list Z) : list (Z * list Z) :=
  match fuel with
  | O => []
  | S fuel =>
      match ReadFrame r with
      | Ok (typ, p, r) => (typ, p) :: read_frames fuel r
      | Err _ => []
      end
  end.

Definition session_id_char (c : ascii) : bool := is_alnum c || is_char "-" c || is_char "_" c.

Definition SessionIDOK (s : string) : bool :=
  negb (strlen s =? 0) && negb (strlen s >? 64) && forallb session_id_char (chars s).

(** ** Round trip and bounds *)
Lemma read_full_app n a r : length a = n → read_full n (a ++ r) = Ok (a, r).
Proof.
  intros <-. unfold read_full. rewrite length_app.
  assert ((length a + length r <? length a)%nat = false) as -> by (apply Nat.ltb_ge; lia).
  by rewrite take_app_length, drop_app_length.
Qed.

Lemma read_full_inv n r a r' : read_full n r = Ok (a, r') → r = a ++ r' ∧ length a = n.
Proof.
  unfold read_full. destruct (Nat.ltb_spec (length r) n); [done|]. intros [= <- <-].
  rewrite take_drop, length_take. split; [done|lia].
Qed.

Lemma frame_roundtrip typ payload bytes rest :
  WriteFrame typ payload = Ok bytes → ReadFrame (bytes ++ rest) = Ok (typ, payload, rest).
Proof.
  unfold WriteFrame. destruct (blen payload >? MaxFrame) eqn:E; [done|]. intros [= <-].
  unfold ReadFrame, frame_bytes. rewrite <- app_assoc.
  rewrite read_full_app by done. cbn [mbind result_bind drop head default id].
  rewrite drop_0, from_be32. unfold MaxFrame in *.
  rewrite Z.mod_small by (pose proof (blen_nonneg payload); lia).
  rewrite E. cbn [reject_if mbind result_bind]. unfold blen. rewrite Nat2Z.id.
  by rewrite read_full_app.
Qed.

Lemma be32_from a b c d :
  is_byte a → is_byte b → is_byte c → is_byte d → be32 (from_be [a; b; c; d]) = [a; b; c; d].
Proof.
  unfold is_byte. intros. unfold be32, from_be. cbn [foldl]. rewrite !byte_at_div by lia.
  repeat f_equal; Z.to_euclidean_division_equations; lia.
Qed.

(** A frame that is read is within the limit and is exactly one a peer
    wrote: what precedes the rest of the stream is its encoding. *)
Theorem read_frame_exact r typ payload rest :
  Forall is_byte r → ReadFrame r = Ok (typ, payload, rest) →
  blen payload ≤ MaxFrame ∧ ∃ bytes, WriteFrame typ payload = Ok bytes ∧ r = bytes ++ rest.
Proof.
  intros Hr H. unfold ReadFrame in H.
  destruct (read_full 5 r) as [[hdr r1]|] eqn:E1; [|done].
  apply read_full_inv in E1 as [-> Hh]. apply Forall_app in Hr as [Hhdr _].
  destruct hdr as [|t [|a [|b [|c [|d [|]]]]]]; try done.
  cbn [mbind result_bind drop head default id] in H.
  destruct (from_be [a; b; c; d] >? MaxFrame) eqn:E2; [done|].
  cbn [reject_if mbind result_bind] in H.
  destruct (read_full _ r1) as [[buf r2]|] eqn:E3; [|done].
  apply read_full_inv in E3 as [-> Hb]. cbn in H. simplify_eq.
  repeat (apply Forall_cons in Hhdr as [? Hhdr]).
  assert (0 ≤ from_be [a; b; c; d]) by (unfold from_be, is_byte in *; cbn; lia).
  assert (blen payload = from_be [a; b; c; d]) as Hl by (unfold blen; lia).
  split; [lia|]. unfold WriteFrame. rewrite Hl, E2.
  eexists. split; [done|]. unfold frame_bytes. by rewrite Hl, be32_from, <- app_assoc.
Qed.
