(* ===== verification/GuestSession.v ===== *)
(** * Kept processes (internal/guestproto/session.go, client.go)

    The guest's buffer of a kept process's output, its replay to a connection
    that attaches, and the table of sessions. A byte of output is a pair of
    the stream's frame type and its value; what a process wrote is the list of
    its writes, in order.

    Three layers: [Buffer], one session's frames; [Serve], what one connection
    is sent and what the host makes of it; [Table], the server's map of
    sessions as a step relation, one step per critical section. *)
From S2P Require Import Prelude GoSort GoStrings Frames.

Definition keptBytes : Z := 2 ^ 20.
Definition keptExited : nat := 64.

Record kept_frame := {
  kf_typ : Z;
  kf_data : list Z;
  kf_pos : Z
}.

(** The fields of [session] that are not channels, pipes or locks; [cmd] is
    only ever compared with nil. *)
Record session := {
  s_id : string;
  s_started : bool;
  s_frames : list kept_frame;
  s_bytes : Z;
  s_total : Z;
  s_exit : option Z;
  s_done : Z;
  s_gen : Z
}.

Definition new_session (id : string) : session := {|
  s_id := id; s_started := false; s_frames := []; s_bytes := 0; s_total := 0;
  s_exit := None; s_done := 0; s_gen := 0 |}.

(** ** The buffer *)
Fixpoint drop_old (frames : list kept_frame) (bytes : Z) : list kept_frame * Z :=
  match frames with
  | f :: ((_ :: _) as rest) =>
      if bytes >? keptBytes then drop_old rest (bytes - blen (kf_data f)) else (frames, bytes)
  | _ => (frames, bytes)
  end.

Definition session_write (typ : Z) (p : list Z) (s : session) : session :=
  let frames := s_frames s ++ [{| kf_typ := typ; kf_data := p; kf_pos := s_total s |}] in
  let '(frames, bytes) := drop_old frames (s_bytes s + blen p) in
  {| s_id := s_id s; s_started := s_started s; s_frames := frames; s_bytes := bytes;
     s_total := s_total s + blen p; s_exit := s_exit s; s_done := s_done s; s_gen := s_gen s |}.

Definition session_finish (code : Z) (s : session) : session := {|
  s_id := s_id s; s_started := s_started s; s_frames := s_frames s; s_bytes := s_bytes s;
  s_total := s_total s; s_exit := Some code; s_done := s_done s; s_gen := s_gen s |}.

Definition session_info (s : session) : string * bool * option Z :=
  (s_id s, bool_decide (s_exit s = None), s_exit s).

Definition bytes_of (typ : Z) (p : list Z) : list (Z * Z) := (λ b, (typ, b)) <$> p.
(** What the writes [h] put on the streams, in order. *)
Definition output (h : list (Z * list Z)) : list (Z * Z) :=
  concat ((λ w, bytes_of (fst w) (snd w)) <$> h).
Definition held (frames : list kept_frame) : list (Z * Z) :=
  concat ((λ f, bytes_of (kf_typ f) (kf_data f)) <$> frames).

Fixpoint frames_at (pos : Z) (frames : list kept_frame) : Prop :=
  match frames with
  | [] => True
  | f :: rest => kf_pos f = pos ∧ frames_at (pos + blen (kf_data f)) rest
  end.

(** The buffer holds the newest of [h]'s output, at its place in the stream,
    and no more than its bound (one write may exceed it alone). *)
Definition buffer_ok (h : list (Z * list Z)) (s : session) : Prop :=
  ∃ gone, output h = gone ++ held (s_frames s) ∧
    s_total s = Z.of_nat (length (output h)) ∧
    s_bytes s = Z.of_nat (length (held (s_frames s))) ∧
    frames_at (Z.of_nat (length gone)) (s_frames s) ∧
    (s_frames s = [] → gone = []) ∧
    (s_bytes s ≤ keptBytes ∨ (length (s_frames s) ≤ 1)%nat).

Lemma length_bytes_of typ p : length (bytes_of typ p) = length p.
Proof. apply length_fmap. Qed.

Lemma held_cons f fs : held (f :: fs) = bytes_of (kf_typ f) (kf_data f) ++ held fs.
Proof. done. Qed.

Lemma held_one f : held [f] = bytes_of (kf_typ f) (kf_data f).
Proof. apply app_nil_r. Qed.

Lemma held_app a b : held (a ++ b) = held a ++ held b.
Proof. unfold held. by rewrite fmap_app, concat_app. Qed.

Lemma output_snoc h typ p : output (h ++ [(typ, p)]) = output h ++ bytes_of typ p.
Proof. unfold output. rewrite fmap_app, concat_app. cbn. by rewrite app_nil_r. Qed.

Lemma frames_at_snoc pos fs f :
  frames_at pos fs → kf_pos f = pos + Z.of_nat (length (held fs)) → frames_at pos (fs ++ [f]).
Proof.
  revert pos. induction fs as [|x fs IH]; intros pos Hf Hp; cbn [frames_at app] in *.
  - cbn in Hp. split; [lia|done].
  - destruct Hf as [Hx Hf]. split; [done|]. apply IH; [done|].
    rewrite Hp, held_cons, length_app, length_bytes_of. unfold blen. lia.
Qed.

Lemma drop_old_spec frames : ∀ bytes pos,
  bytes = Z.of_nat (length (held frames)) → frames_at pos frames →
  let r := drop_old frames bytes in
  ∃ gone, held frames = gone ++ held (fst r) ∧ snd r = Z.of_nat (length (held (fst r))) ∧
    frames_at (pos + Z.of_nat (length gone)) (fst r) ∧ (fst r = [] → frames = []) ∧
    (snd r ≤ keptBytes ∨ (length (fst r) ≤ 1)%nat).
Proof.
  induction frames as [|f [|g rest] IH]; intros bytes pos Hb Hat; cbn [drop_old fst snd].
  1-2: exists []; cbn [length]; rewrite Z.add_0_r; split_and!; try done; right; cbn; lia.
  - destruct (bytes >? keptBytes) eqn:E.
    + cbn [frames_at] in Hat. destruct Hat as [Hf Hat].
      destruct (IH (bytes - blen (kf_data f)) (pos + blen (kf_data f)))
        as (gone & H1 & H2 & H3 & H4 & H5); [|done|].
      { rewrite Hb, held_cons, length_app, length_bytes_of. unfold blen. lia. }
      exists (bytes_of (kf_typ f) (kf_data f) ++ gone).
      rewrite held_cons, H1, <- app_assoc. split_and!; try done.
      * rewrite length_app, length_bytes_of. unfold blen in H3.
        replace (pos + Z.of_nat (length (kf_data f) + length gone))
          with (pos + Z.of_nat (length (kf_data f)) + Z.of_nat (length gone)) by lia. done.
      * intros Hn. by specialize (H4 Hn).
    + exists []. cbn [length fst snd]. rewrite Z.add_0_r. split_and!; try done. left. lia.
Qed.

Lemma buffer_ok_new id : buffer_ok [] (new_session id).
Proof. exists []. cbn. split_and!; try done. by left. Qed.

(** Every write keeps the buffer the newest part of the output. *)
Lemma buffer_ok_write h s typ p :
  buffer_ok h s → buffer_ok (h ++ [(typ, p)]) (session_write typ p s).
Proof.
  intros (gone & Ho & Ht & Hb & Hat & Hg & _). unfold session_write.
  set (f := {| kf_typ := typ; kf_data := p; kf_pos := s_total s |}).
  destruct (drop_old_spec (s_frames s ++ [f]) (s_bytes s + blen p) (Z.of_nat (length gone)))
    as (gone' & H1 & H2 & H3 & H4 & H5).
  { rewrite held_app, length_app, Hb, held_one, length_bytes_of. unfold blen. cbn. lia. }
  { apply frames_at_snoc; [done|]. cbn. rewrite Ht, Ho, length_app. lia. }
  destruct (drop_old (s_frames s ++ [f]) (s_bytes s + blen p)) as [frames bytes]. cbn [fst snd] in *.
  assert (held (s_frames s ++ [f]) = held (s_frames s) ++ bytes_of typ p) as Hh
    by (by rewrite held_app, held_one).
  exists (gone ++ gone'). cbn [s_frames s_total s_bytes]. split_and!; try done.
  - by rewrite output_snoc, Ho, <- app_assoc, <- Hh, H1, app_assoc.
  - rewrite output_snoc, length_app, Ht, length_bytes_of. unfold blen. lia.
  - rewrite length_app. by rewrite Nat2Z.inj_add.
  - intros Hn. apply H4 in Hn. by destruct (s_frames s).
Qed.

Lemma buffer_ok_finish h s code : buffer_ok h s → buffer_ok h (session_finish code s).
Proof. done. Qed.

(** ** Serving a connection *)
Record conn := {
  c_gen : Z;
  c_pos : Z;
  c_first : bool
}.

Inductive serve_outcome := Superseded | Delivered | Waiting.

(** The frames past [pos], the first cut to what the host does not have. *)
Definition pending (pos : Z) (frames : list kept_frame) : list kept_frame :=
  flat_map (λ f,
    if kf_pos f + blen (kf_data f) <=? pos then []
    else if kf_pos f <? pos
    then [{| kf_typ := kf_typ f; kf_data := drop (Z.to_nat (pos - kf_pos f)) (kf_data f);
             kf_pos := pos |}]
    else [f]) frames.

Definition dropped (pos : Z) (frames : list kept_frame) : Z :=
  match frames with
  | f :: _ => if pos <? kf_pos f then kf_pos f - pos else 0
  | [] => 0
  end.

(** One turn of [serveSession]'s loop: the frames sent, how it ends and the
    connection after it. *)
Definition serve_turn (s : session) (c : conn) : list (Z * list Z) * serve_outcome * conn :=
  if negb (s_gen s =? c_gen c) then ([], Superseded, c)
  else
    let d := dropped (c_pos c) (s_frames s) in
    let marker := if c_first c && (d >? 0) then [(FrameDropped, be64 d)] else [] in
    let out := marker ++ ((λ f, (kf_typ f, kf_data f)) <$> pending (c_pos c) (s_frames s)) in
    let c' := {| c_gen := c_gen c; c_pos := Z.max (c_pos c) (s_total s); c_first := false |} in
    match s_exit s with
    | Some code => (out ++ [(FrameExit, be32 code)], Delivered, c')
    | None => (out, Waiting, c')
    end.

Lemma held_pending pos : ∀ frames start,
  frames_at start frames →
  held (pending pos frames) = drop (Z.to_nat (pos - start)) (held frames).
Proof.
  induction frames as [|f fs IH]; intros start Hat; cbn [pending flat_map].
  - change (held []) with (@nil (Z * Z)). by rewrite drop_nil.
  - destruct Hat as [Hp Hat]. specialize (IH _ Hat). unfold pending in IH.
    rewrite held_app, IH, held_cons, Hp. unfold blen.
    destruct (start + Z.of_nat (length (kf_data f)) <=? pos) eqn:E1.
    + change (held []) with (@nil (Z * Z)). cbn [app].
      rewrite drop_app_ge by (rewrite length_bytes_of; lia).
      rewrite length_bytes_of. f_equal. lia.
    + rewrite (drop_app_le (bytes_of _ _)) by (rewrite length_bytes_of; lia).
      assert (Z.to_nat (pos - (start + Z.of_nat (length (kf_data f)))) = 0%nat) as -> by lia.
      rewrite drop_0. f_equal.
      destruct (start <? pos) eqn:E2; cbn; rewrite app_nil_r; unfold bytes_of.
      * by rewrite fmap_drop.
      * assert (Z.to_nat (pos - start) = 0%nat) as -> by lia. by rewrite drop_0.
Qed.

(** The place in the stream of the oldest byte held. *)
Definition oldest (s : session) : Z := s_total s - s_bytes s.

Lemma serve_turn_pending h s c :
  buffer_ok h s →
  held (pending (c_pos c) (s_frames s)) =
    drop (Z.to_nat (Z.max (c_pos c) (oldest s))) (output h) ∧
  (0 ≤ c_pos c → dropped (c_pos c) (s_frames s) = Z.max 0 (oldest s - c_pos c)).
Proof.
  intros (gone & Ho & Ht & Hb & Hat & Hg & _).
  assert (oldest s = Z.of_nat (length gone)) as Hold
    by (unfold oldest; rewrite Ht, Hb, Ho, length_app; lia).
  split.
  - rewrite (held_pending _ _ _ Hat), Ho, Hold.
    destruct (Z.le_ge_cases (c_pos c) (Z.of_nat (length gone))).
    + rewrite Z.max_r, Nat2Z.id, drop_app_length by done.
      replace (Z.to_nat _) with 0%nat by lia. apply drop_0.
    + rewrite Z.max_l by done. rewrite drop_app_ge by lia. f_equal. lia.
  - intros Hp. rewrite Hold. unfold dropped. destruct (s_frames s) as [|f fs].
    + rewrite Hg by done. cbn. lia.
    + destruct Hat as [-> _]. case_match; lia.
Qed.

(** ** What the host makes of it *)

(** The host's end: the writes to its two streams in order, what it was told
    was dropped, and the exit code, -1 until it has one. *)
Record host_out := {
  ho_writes : list (Z * list Z);
  ho_dropped : list Z;
  ho_code : Z
}.

(** [int32(Uint32(b))]. *)
Definition int32 (b : list Z) : Z :=
  let n := from_be b in if n >=? 2 ^ 31 then n - 2 ^ 32 else n.

Fixpoint pump (frames : list (Z * list Z)) (writes : list (Z * list Z)) (dropped : list Z)
    : host_out :=
  match frames with
  | [] => {| ho_writes := writes; ho_dropped := dropped; ho_code := -1 |}
  | (typ, p) :: frames =>
      if (typ =? FrameStdout) || (typ =? FrameStderr) then pump frames (writes ++ [(typ, p)]) dropped
      else if typ =? FrameExit then
        {| ho_writes := writes; ho_dropped := dropped;
           ho_code := if blen p =? 4 then int32 p else -1 |}
      else if typ =? FrameDropped then
        pump frames writes
          (if blen p =? 8 then dropped ++ [Z.land (from_be p) (Z.ones 62)] else dropped)
      else {| ho_writes := writes; ho_dropped := dropped; ho_code := -1 |}
  end.

(** The bytes of frames on the connection. *)
Definition wire (frames : list (Z * list Z)) : list Z :=
  concat ((λ f, frame_bytes (fst f) (snd f)) <$> frames).

Lemma read_frames_wire frames : ∀ fuel,
  Forall (λ f, blen (snd f) ≤ MaxFrame) frames → (length frames < fuel)%nat →
  read_frames fuel (wire frames) = frames.
Proof.
  induction frames as [|[typ p] frames IH]; intros fuel Hf Hl;
    (destruct fuel as [|fuel]; [lia|]); [done|].
  apply Forall_cons in Hf as [Hp Hf]. cbn [snd] in Hp.
  change (wire ((typ, p) :: frames)) with (frame_bytes typ p ++ wire frames).
  cbn [read_frames]. rewrite (frame_roundtrip typ p (frame_bytes typ p)).
  - rewrite IH; [done|done|cbn in Hl; lia].
  - unfold WriteFrame. by if_false.
Qed.

Lemma wire_length frames : (length frames ≤ length (wire frames))%nat.
Proof.
  induction frames as [|[typ p] frames IH]; [done|].
  change (wire ((typ, p) :: frames)) with (frame_bytes typ p ++ wire frames).
  rewrite length_app. unfold frame_bytes. cbn [length app]. lia.
Qed.

(** A write the server makes: one of the two streams, at most a frame. *)
Definition write_ok (w : Z * list Z) : Prop :=
  (fst w = FrameStdout ∨ fst w = FrameStderr) ∧ blen (snd w) ≤ MaxFrame.

Lemma pump_writes ws rest writes dropped :
  Forall write_ok ws → pump (ws ++ rest) writes dropped = pump rest (writes ++ ws) dropped.
Proof.
  revert writes. induction ws as [|[typ p] ws IH]; intros writes Hw; cbn [app pump].
  - by rewrite app_nil_r.
  - apply Forall_cons in Hw as [[Ht _] Hw]. cbn [fst] in Ht.
    assert (((typ =? FrameStdout) || (typ =? FrameStderr)) = true) as -> by lia.
    rewrite IH by done. by rewrite <- app_assoc.
Qed.

Lemma int32_be32 code : - 2 ^ 31 ≤ code < 2 ^ 31 → int32 (be32 code) = code.
Proof.
  intros Hc. unfold int32. rewrite from_be32.
  destruct (Z.lt_ge_cases code 0).
  - rewrite <- (Z.mod_unique code (2 ^ 32) (-1) (code + 2 ^ 32)) by lia. if_true. lia.
  - rewrite Z.mod_small by lia. by if_false.
Qed.

Lemma pending_writes pos frames :
  Forall (λ f, write_ok (kf_typ f, kf_data f)) frames →
  Forall write_ok ((λ f, (kf_typ f, kf_data f)) <$> pending pos frames).
Proof.
  intros Hf. apply Forall_fmap. unfold pending.
  induction Hf as [|f fs Hw Hf IH]; cbn [flat_map]; [done|].
  apply Forall_app_2; [|done]. case_match; [done|]. case_match; constructor; try done.
  destruct Hw as [Ht Hl]. split; [done|]. cbn in *. unfold blen in *. rewrite length_drop. lia.
Qed.

Lemma output_held frames : output ((λ f, (kf_typ f, kf_data f)) <$> frames) = held frames.
Proof. unfold output, held. by rewrite <- list_fmap_compose. Qed.

(** The writes of a history are the server's, and few enough to count. *)
Definition history_ok (h : list (Z * list Z)) : Prop :=
  Forall write_ok h ∧ Z.of_nat (length (output h)) < 2 ^ 62.

Lemma frames_write_ok frames : ∀ bytes,
  Forall (λ f, write_ok (kf_typ f, kf_data f)) frames →
  Forall (λ f, write_ok (kf_typ f, kf_data f)) (drop_old frames bytes).1.
Proof.
  induction frames as [|f [|g rest] IH]; intros bytes Hf; cbn [drop_old]; try done.
  case_match; [|done]. apply IH. by apply Forall_cons in Hf as [_ Hf].
Qed.

(** A host that attaches to a finished session with [pos] bytes of its
    output reads off the connection exactly the output from there on, in
    order and on the right streams, then the exit code; if the guest no longer
    has all of it, the host is told first how many bytes it has lost, and
    reads everything from there. *)
Theorem session_delivery h s c code :
  buffer_ok h s → history_ok h → Forall (λ f, write_ok (kf_typ f, kf_data f)) (s_frames s) →
  s_exit s = Some code → - 2 ^ 31 ≤ code < 2 ^ 31 →
  c_gen c = s_gen s → c_first c = true → 0 ≤ c_pos c →
  let sent := (serve_turn s c).1.1 in
  let lost := oldest s - c_pos c in
  let host := pump (read_frames (S (length (wire sent))) (wire sent)) [] [] in
  output (ho_writes host) = drop (Z.to_nat (Z.max (c_pos c) (oldest s))) (output h) ∧
  ho_dropped host = (if lost >? 0 then [lost] else []) ∧
  ho_code host = code.
Proof.
  intros Hb [_ Hlen] Hw Hexit Hcode Hgen Hfirst Hpos sent lost host.
  destruct (serve_turn_pending h s c Hb) as [Hpend Hdrop]. specialize (Hdrop Hpos).
  set (ws := (λ f, (kf_typ f, kf_data f)) <$> pending (c_pos c) (s_frames s)).
  set (marker := if lost >? 0 then [(FrameDropped, be64 lost)] else []).
  assert (sent = marker ++ ws ++ [(FrameExit, be32 code)]) as Hsent.
  { unfold sent, serve_turn. rewrite Hgen, Z.eqb_refl, Hexit, Hfirst, Hdrop. cbn [negb andb fst].
    unfold marker, lost, ws. rewrite app_assoc. repeat f_equal.
    destruct (Z.le_gt_cases (oldest s - c_pos c) 0); [if_false; by if_false|].
    by rewrite Z.max_r by lia. }
  assert (Forall write_ok ws) as Hws by (by apply pending_writes).
  assert (0 < 2 ^ 62) by lia.
  assert (lost < 2 ^ 62) as Hlost.
  { destruct Hb as (gone & Ho & Ht & Hbb & _). unfold lost, oldest. rewrite Ht, Hbb. lia. }
  assert (host = pump (marker ++ ws ++ [(FrameExit, be32 code)]) [] []) as ->.
  { unfold host. rewrite read_frames_wire; [by rewrite Hsent| |pose proof (wire_length sent); lia].
    rewrite Hsent. apply Forall_app_2; [|apply Forall_app_2].
    - unfold marker. case_match; [|done]. apply Forall_singleton.
      change (8 ≤ 2 ^ 20). lia.
    - eapply Forall_impl; [done|]. by intros w [_ ?].
    - apply Forall_singleton. change (4 ≤ 2 ^ 20). lia. }
  assert (pump (marker ++ ws ++ [(FrameExit, be32 code)]) [] [] =
    {| ho_writes := ws; ho_dropped := if lost >? 0 then [lost] else []; ho_code := code |}) as ->.
  { assert (∀ d, pump (ws ++ [(FrameExit, be32 code)]) [] d =
      {| ho_writes := ws; ho_dropped := d; ho_code := code |}) as Hp.
    { intros d. rewrite pump_writes by done. cbn [pump app].
      change (blen (be32 code) =? 4) with true. cbn. by rewrite int32_be32. }
    unfold marker. destruct (lost >? 0) eqn:El; [|by apply Hp].
    cbn [app pump]. change (blen (be64 lost) =? 8) with true. cbn [Z.eqb orb FrameDropped
      FrameStdout FrameStderr FrameExit Pos.eqb].
    rewrite Hp. do 2 f_equal. rewrite from_be64, Z.mod_small by lia.
    rewrite Z.land_ones by lia. rewrite Z.mod_small by lia. done. }
  cbn [ho_writes ho_dropped ho_code]. split_and!; try done.
  unfold ws. by rewrite output_held.
Qed.

(** Once a connection is live, falling behind is silent: what was dropped
    before it was sent is skipped, and no frame says so. *)
Lemma live_gap_silent h s c :
  buffer_ok h s → Forall (λ f, write_ok (kf_typ f, kf_data f)) (s_frames s) →
  c_first c = false → c_gen c = s_gen s → c_pos c < oldest s →
  let sent := (serve_turn s c).1.1 in
  (∀ p, (FrameDropped, p) ∉ sent) ∧
  held (pending (c_pos c) (s_frames s)) = drop (Z.to_nat (oldest s)) (output h).
Proof.
  intros Hb Hw Hf Hg Hlt sent.
  destruct (serve_turn_pending h s c Hb) as [Hp _]. rewrite Z.max_r in Hp by lia.
  split; [|done]. intros p Hin.
  pose proof (pending_writes (c_pos c) _ Hw) as Hpw. rewrite Forall_forall in Hpw.
  assert ((FrameDropped, p) ∈ ((λ f, (kf_typ f, kf_data f)) <$> pending (c_pos c) (s_frames s)))
    as Hin'.
  { unfold sent, serve_turn in Hin. rewrite Hg, Z.eqb_refl, Hf in Hin.
    cbn [negb andb app fst] in Hin. destruct (s_exit s); [|done].
    cbn [fst] in Hin. apply elem_of_app in Hin as [Hin|Hin]; [done|].
    by apply list_elem_of_singleton in Hin. }
  apply Hpw in Hin' as [[Ht|Ht] _]; done.
Qed.

(** ** The table of sessions

    [tb_heap] is the session objects, by an address; [tb_ids] the server's
    map. A step is one critical section of the code. [tb_hist] is no part of
    the program: what each process has written so far. *)
Record table := {
  tb_heap : gmap nat session;
  tb_ids : gmap string nat;
  tb_finished : Z;
  tb_hist : gmap nat (list (Z * list Z))
}.

Definition empty_table : table := {|
  tb_heap := ∅; tb_ids := ∅; tb_finished := 0; tb_hist := ∅ |}.

Definition set_session (h : nat) (s : session) (t : table) : table := {|
  tb_heap := <[h := s]> (tb_heap t); tb_ids := tb_ids t; tb_finished := tb_finished t;
  tb_hist := tb_hist t |}.

Definition set_ids (ids : gmap string nat) (t : table) : table := {|
  tb_heap := tb_heap t; tb_ids := ids; tb_finished := tb_finished t; tb_hist := tb_hist t |}.

(** [reserve]: the table with the new session at [h], or nothing if the id is
    taken. *)
Definition reserve (id : string) (h : nat) (t : table) : option table :=
  match tb_ids t !! id with
  | Some _ => None
  | None => Some {|
      tb_heap := <[h := new_session id]> (tb_heap t); tb_ids := <[id := h]> (tb_ids t);
      tb_finished := tb_finished t; tb_hist := <[h := []]> (tb_hist t) |}
  end.

(** [delete(s.sessions, ks.id)] where the id still names [h]: [release] and
    [forget]. *)
Definition drop_id (id : string) (h : nat) (t : table) : table :=
  if bool_decide (tb_ids t !! id = Some h) then set_ids (delete id (tb_ids t)) t else t.

(** The reservation is given back, and nothing else refers to it. *)
Definition release (id : string) (h : nat) (t : table) : table :=
  let t := drop_id id h t in
  {| tb_heap := delete h (tb_heap t); tb_ids := tb_ids t; tb_finished := tb_finished t;
     tb_hist := tb_hist t |}.

Definition started (s : session) : session := {|
  s_id := s_id s; s_started := true; s_frames := s_frames s; s_bytes := s_bytes s;
  s_total := s_total s; s_exit := s_exit s; s_done := s_done s; s_gen := s_gen s |}.
Definition stamped (n : Z) (s : session) : session := {|
  s_id := s_id s; s_started := s_started s; s_frames := s_frames s; s_bytes := s_bytes s;
  s_total := s_total s; s_exit := s_exit s; s_done := n; s_gen := s_gen s |}.
Definition attached (s : session) : session := {|
  s_id := s_id s; s_started := s_started s; s_frames := s_frames s; s_bytes := s_bytes s;
  s_total := s_total s; s_exit := s_exit s; s_done := s_done s; s_gen := s_gen s + 1 |}.

Definition has_exited (t : table) (e : string * nat) : bool :=
  match tb_heap t !! e.2 with
  | Some s => negb (bool_decide (s_exit s = None))
  | None => false
  end.

Definition done_of (t : table) (e : string * nat) : Z :=
  match tb_heap t !! e.2 with Some s => s_done s | None => 0 end.

(** [done] of [pruneExited], in the order [sort.Slice] leaves it: any that is
    sorted, for equal keys may come either way. *)
Definition prune_order (t : table) (order : list (string * nat)) : Prop :=
  order ≡ₚ List.filter (has_exited t) (map_to_list (tb_ids t)) ∧
  StronglySorted (λ a b, done_of t a ≤ done_of t b) order.

Definition prune (order : list (string * nat)) (t : table) : table :=
  set_ids (foldr (λ e ids, delete e.1 ids) (tb_ids t) (take (length order - keptExited) order)) t.

Inductive step : table → table → Prop :=
| step_reserve id h t t' :
    tb_heap t !! h = None → reserve id h t = Some t' → step t t'
| step_release h s t :
    tb_heap t !! h = Some s → s_started s = false → step t (release (s_id s) h t)
| step_start h s t :
    tb_heap t !! h = Some s → s_started s = false → step t (set_session h (started s) t)
| step_write h s typ p hist t :
    tb_heap t !! h = Some s → s_started s = true → s_exit s = None → tb_hist t !! h = Some hist →
    step t {| tb_heap := <[h := session_write typ p s]> (tb_heap t); tb_ids := tb_ids t;
              tb_finished := tb_finished t; tb_hist := <[h := hist ++ [(typ, p)]]> (tb_hist t) |}
| step_finish h s code t :
    tb_heap t !! h = Some s → s_started s = true → s_exit s = None →
    step t (set_session h (session_finish code s) t)
| step_stamp h s t :
    tb_heap t !! h = Some s → s_exit s ≠ None →
    step t {| tb_heap := <[h := stamped (tb_finished t + 1) s]> (tb_heap t); tb_ids := tb_ids t;
              tb_finished := tb_finished t + 1; tb_hist := tb_hist t |}
| step_prune order t : prune_order t order → step t (prune order t)
| step_attach h s t :
    tb_heap t !! h = Some s → s_started s = true → step t (set_session h (attached s) t)
| step_forget h s t :
    tb_heap t !! h = Some s → s_exit s ≠ None → step t (drop_id (s_id s) h t).

Definition reachable : table → Prop := rtc step empty_table.

Record table_ok (t : table) : Prop := {
  ok_buffer h s : tb_heap t !! h = Some s →
    ∃ hist, tb_hist t !! h = Some hist ∧ buffer_ok hist s;
  ok_ids id h : tb_ids t !! id = Some h → ∃ s, tb_heap t !! h = Some s ∧ s_id s = id;
  ok_running h s : tb_heap t !! h = Some s → s_exit s = None → tb_ids t !! s_id s = Some h;
  ok_exited h s : tb_heap t !! h = Some s → s_exit s ≠ None → s_started s = true
}.

Lemma table_ok_empty : table_ok empty_table.
Proof. split; cbn; intros *; rewrite lookup_empty; done. Qed.

(** Changing a session in place, its id kept. *)
Lemma table_ok_set h s s' hist t n :
  table_ok t → tb_heap t !! h = Some s → s_id s' = s_id s →
  (s_exit s' = None → s_exit s = None) → (s_exit s' ≠ None → s_started s' = true) →
  buffer_ok hist s' →
  table_ok {| tb_heap := <[h := s']> (tb_heap t); tb_ids := tb_ids t; tb_finished := n;
              tb_hist := <[h := hist]> (tb_hist t) |}.
Proof.
  intros [Hb Hi Hr He] Hs Hid Hx Hst Hbuf. split; cbn [tb_heap tb_ids tb_hist].
  - intros h' s0 [[<- <-]|[Hne Hs0]]%lookup_insert_Some.
    + exists hist. by rewrite lookup_insert_eq.
    + destruct (Hb h' s0 Hs0) as (hist0 & Hh0 & ?). exists hist0.
      by rewrite lookup_insert_ne.
  - intros id h' Hid'. destruct (Hi id h' Hid') as (s0 & Hs0 & Hs0').
    destruct (decide (h = h')) as [<-|Hne].
    + exists s'. rewrite lookup_insert_eq. split; [done|]. congruence.
    + exists s0. by rewrite lookup_insert_ne.
  - intros h' s0 [[<- <-]|[Hne Hs0]]%lookup_insert_Some Hn; [|by apply Hr].
    rewrite Hid. apply Hr; [done|]. by apply Hx.
  - intros h' s0 [[<- <-]|[Hne Hs0]]%lookup_insert_Some Hn; [by apply Hst|by eapply He].
Qed.

(** Dropping ids none of which names a running session. *)
Lemma table_ok_ids ids t :
  table_ok t → ids ⊆ tb_ids t →
  (∀ h s, tb_heap t !! h = Some s → s_exit s = None → ids !! s_id s = Some h) →
  table_ok (set_ids ids t).
Proof.
  intros [Hb Hi Hr He] Hsub Hrun. split; cbn; try done.
  intros id h Hid. apply Hi. by eapply lookup_weaken.
Qed.

Lemma drop_id_ok h s t :
  table_ok t → tb_heap t !! h = Some s → s_exit s ≠ None → table_ok (drop_id (s_id s) h t).
Proof.
  intros Ht Hs Hx. unfold drop_id. case_bool_decide as Hid; [|done].
  apply table_ok_ids; [done|apply delete_subseteq|].
  intros h' s' Hs' Hn. pose proof (ok_running t Ht h' s' Hs' Hn) as Hr.
  rewrite lookup_delete_ne; [done|]. intros E. rewrite E, Hr in Hid. simplify_eq.
Qed.

Lemma foldr_delete_lookup (l : list (string * nat)) (ids : gmap string nat) id :
  foldr (λ e ids, delete e.1 ids) ids l !! id = if bool_decide (id ∈ l.*1) then None else ids !! id.
Proof.
  induction l as [|[x h] l IH]; cbn.
  - by rewrite bool_decide_eq_false_2 by apply not_elem_of_nil.
  - destruct (decide (x = id)) as [->|Hne].
    + rewrite lookup_delete_eq, bool_decide_eq_true_2 by constructor. done.
    + rewrite lookup_delete_ne, IH by done.
      assert (bool_decide (id ∈ x :: l.*1) = bool_decide (id ∈ l.*1)) as ->; [|done].
      apply bool_decide_ext. rewrite elem_of_cons. naive_solver.
Qed.

Lemma elem_of_order t order e :
  prune_order t order → e ∈ order ↔ tb_ids t !! e.1 = Some e.2 ∧ has_exited t e = true.
Proof.
  intros [Hp _]. rewrite Hp, elem_of_bfilter.
  destruct e as [id h]. by rewrite elem_of_map_to_list.
Qed.

Lemma prune_lookup t order id :
  tb_ids (prune order t) !! id =
  if bool_decide (id ∈ (take (length order - keptExited) order).*1) then None else tb_ids t !! id.
Proof. unfold prune, set_ids; cbn [tb_ids]. apply foldr_delete_lookup. Qed.

Lemma prune_ok order t : table_ok t → prune_order t order → table_ok (prune order t).
Proof.
  intros Ht Hord. apply table_ok_ids; [done| |].
  - apply map_subseteq_spec. intros id h. rewrite foldr_delete_lookup. by case_bool_decide.
  - intros h s Hs Hx. rewrite foldr_delete_lookup.
    pose proof (ok_running t Ht h s Hs Hx) as Hr.
    rewrite bool_decide_eq_false_2; [done|]. intros ([id' h'] & Hid & Hin)%list_elem_of_fmap.
    assert ((id', h') ∈ order) as Hin'
      by (rewrite <- (take_drop (length order - keptExited) order); apply elem_of_app; by left).
    apply (elem_of_order _ _ _ Hord) in Hin' as [Hi Hex]. cbn in *. subst id'.
    rewrite Hr in Hi. simplify_eq. unfold has_exited in Hex. cbn in Hex. by rewrite Hs, Hx in Hex.
Qed.

Lemma session_write_fields typ p s :
  s_id (session_write typ p s) = s_id s ∧ s_started (session_write typ p s) = s_started s ∧
  s_exit (session_write typ p s) = s_exit s.
Proof. unfold session_write. by destruct (drop_old _ _). Qed.

Lemma step_ok t t' : step t t' → table_ok t → table_ok t'.
Proof.
  intros Hst Ht. pose proof Ht as [Hb Hi Hr He].
  destruct Hst as [id h t t' Hh Hres|h s t Hs Hn|h s t Hs Hn|h s typ p hist t Hs Hst Hx Hhist|
    h s code t Hs Hst Hx|h s t Hs Hx|order t Hord|h s t Hs Hst|h s t Hs Hx].
  - unfold reserve in Hres. destruct (tb_ids t !! id) eqn:Eid; [done|]. simplify_eq.
    split; cbn [tb_heap tb_ids tb_hist].
    + intros h' s [[<- <-]|[Hne Hs]]%lookup_insert_Some.
      * exists []. rewrite lookup_insert_eq. split; [done|apply buffer_ok_new].
      * destruct (Hb h' s Hs) as (hist & ? & ?). exists hist. by rewrite lookup_insert_ne.
    + intros id' h' [[<- <-]|[Hne Hid]]%lookup_insert_Some.
      * exists (new_session id). by rewrite lookup_insert_eq.
      * destruct (Hi id' h' Hid) as (s & Hs & ?). exists s. rewrite lookup_insert_ne; [done|congruence].
    + intros h' s [[<- <-]|[Hne Hs]]%lookup_insert_Some Hx; [by rewrite lookup_insert_eq|].
      rewrite lookup_insert_ne; [by apply Hr|]. intros E. rewrite E, (Hr h' s Hs Hx) in Eid. done.
    + intros h' s [[<- <-]|[Hne Hs]]%lookup_insert_Some Hx; [done|by eapply He].
  - assert (s_exit s = None) as Hx.
    { destruct (s_exit s) eqn:E; [|done]. exfalso.
      rewrite (He h s Hs) in Hn; [done|]. by rewrite E. }
    pose proof (Hr h s Hs Hx) as Hid.
    unfold release, drop_id. rewrite bool_decide_eq_true_2 by done.
    split; cbn [tb_heap tb_ids tb_hist set_ids].
    + intros h' s' [Hne Hs']%lookup_delete_Some. by apply Hb.
    + intros id h' [Hne Hid']%lookup_delete_Some. destruct (Hi id h' Hid') as (s' & Hs' & E).
      exists s'. split; [|done]. apply lookup_delete_Some. split; [|done].
      intros <-. rewrite Hs in Hs'. by simplify_eq.
    + intros h' s' [Hne Hs']%lookup_delete_Some Hx'. apply lookup_delete_Some.
      pose proof (Hr h' s' Hs' Hx') as Hr'. split; [|done]. intros E. rewrite E in Hid. congruence.
    + intros h' s' [Hne Hs']%lookup_delete_Some. by eapply He.
  - destruct (Hb h s Hs) as (hist & Hh & Hbuf).
    pose proof (table_ok_set h s (started s) hist t (tb_finished t) Ht Hs) as H.
    rewrite (insert_id (tb_hist t)) in H by done. by apply H.
  - destruct (Hb h s Hs) as (hist' & Hh & Hbuf). simplify_eq.
    destruct (session_write_fields typ p s) as (Eid & Est & Eex).
    apply (table_ok_set h s); rewrite ?Eid, ?Est, ?Eex; auto using buffer_ok_write.
  - destruct (Hb h s Hs) as (hist & Hh & Hbuf).
    pose proof (table_ok_set h s (session_finish code s) hist t (tb_finished t) Ht Hs) as H.
    rewrite (insert_id (tb_hist t)) in H by done. apply H; try done.
  - destruct (Hb h s Hs) as (hist & Hh & Hbuf).
    pose proof (table_ok_set h s (stamped (tb_finished t + 1) s) hist t (tb_finished t + 1) Ht Hs) as H.
    rewrite (insert_id (tb_hist t)) in H by done. apply H; try done. intros Hx'. by apply (He h s Hs).
  - by apply prune_ok.
  - destruct (Hb h s Hs) as (hist & Hh & Hbuf).
    pose proof (table_ok_set h s (attached s) hist t (tb_finished t) Ht Hs) as H.
    rewrite (insert_id (tb_hist t)) in H by done. by apply H.
  - by apply drop_id_ok.
Qed.

Lemma reachable_ok t : reachable t → table_ok t.
Proof.
  unfold reachable. intros H.
  assert (∀ t0, table_ok t0 → rtc step t0 t → table_ok t) as Hgen.
  { intros t0 H0 Hr. induction Hr; [done|]. apply IHHr; [done|]. by eapply step_ok. }
  by apply (Hgen _ table_ok_empty).
Qed.

(** Whatever the order of reservations, writes, exits, prunes and
    attaches, a process that is running is in the table under its id, so a
    host that comes back finds it, and what is held for it is the newest of
    its output, at its true place in the stream and within the bound. *)
Theorem running_session_kept t h s :
  reachable t → tb_heap t !! h = Some s → s_exit s = None →
  tb_ids t !! s_id s = Some h ∧
  ∃ hist, tb_hist t !! h = Some hist ∧ buffer_ok hist s.
Proof.
  intros Ht Hs Hx. apply reachable_ok in Ht. split; [by apply ok_running|by apply ok_buffer].
Qed.

Lemma order_nodup t order : prune_order t order → NoDup (order.*1) ∧ NoDup order.
Proof.
  intros [Hp _].
  assert (NoDup (order.*1)) as Hn
    by (rewrite Hp; apply bfilter_nodup_key, NoDup_fst_map_to_list).
  split; [done|]. by eapply NoDup_fmap_1.
Qed.

Lemma prune_finished t order :
  prune_order t order →
  List.filter (has_exited (prune order t)) (map_to_list (tb_ids (prune order t))) ≡ₚ
    drop (length order - keptExited) order.
Proof.
  intros Hord. destruct (order_nodup t order Hord) as [Hk Hn].
  set (n := (length order - keptExited)%nat).
  rewrite <- (take_drop n order) in Hk, Hn.
  rewrite fmap_app in Hk. apply NoDup_app in Hk as (_ & Hdisj & _).
  apply NoDup_app in Hn as (_ & _ & Hnd).
  apply NoDup_Permutation.
  - apply bfilter_nodup, NoDup_map_to_list.
  - done.
  - intros [id h]. rewrite elem_of_bfilter, elem_of_map_to_list.
    rewrite prune_lookup. fold n. change (has_exited (prune order t)) with (has_exited t).
    split.
    + intros [Hid Hx]. case_bool_decide as Hin; [done|].
      assert ((id, h) ∈ order) as Ho by (by apply (elem_of_order _ _ _ Hord)).
      rewrite <- (take_drop n order) in Ho. apply elem_of_app in Ho as [Ho|Ho]; [|done].
      destruct Hin. by apply (list_elem_of_fmap_2 fst) in Ho.
    + intros Ho. assert ((id, h) ∈ order) as Ho'.
      { rewrite <- (take_drop n order). apply elem_of_app. by right. }
      apply (elem_of_order _ _ _ Hord) in Ho' as [Hid Hx]. split; [|done].
      rewrite bool_decide_eq_false_2; [done|]. intros Hin. apply (Hdisj id Hin).
      by apply (list_elem_of_fmap_2 fst) in Ho.
Qed.

(** A prune leaves at most 64 finished sessions, and none it drops
    finished after one it keeps. *)
Theorem prune_keeps_newest t order :
  prune_order t order →
  let left := List.filter (has_exited (prune order t)) (map_to_list (tb_ids (prune order t))) in
  (length left ≤ keptExited)%nat ∧
  (length left = length order ∨ length left = keptExited) ∧
  ∀ e e', e ∈ order → tb_ids (prune order t) !! e.1 = None → e' ∈ left →
    done_of t e ≤ done_of t e'.
Proof.
  intros Hord left. pose proof (prune_finished t order Hord) as Hp. fold left in Hp.
  assert (length left = length order - (length order - keptExited))%nat as Hl
    by (rewrite Hp; apply length_drop).
  split_and!; [lia|lia|].
  intros e e' He Hgone He'. rewrite Hp in He'. rewrite prune_lookup in Hgone.
  destruct Hord as [Hperm Hs]. pose proof (proj1 (elem_of_order t order e (conj Hperm Hs)) He) as [Hid _].
  case_bool_decide as Hin; [|congruence].
  apply list_elem_of_fmap in Hin as ([id h] & Hk & Hin).
  assert ((id, h) = e) as <-.
  { destruct (order_nodup t order (conj Hperm Hs)) as [Hnd _].
    assert ((id, h) ∈ order) as Hin'.
    { rewrite <- (take_drop (length order - keptExited) order). apply elem_of_app. by left. }
    apply (proj1 (elem_of_order t order _ (conj Hperm Hs))) in Hin' as [Hid' _].
    destruct e as [id' h']. cbn in *. congruence. }
  rewrite <- (take_drop (length order - keptExited) order) in Hs.
  apply StronglySorted_app in Hs as (Hs & _ & _). by apply Hs.
Qed.

(** ** Witnesses *)
Definition example_session : session :=
  attached (session_finish 3 (session_write FrameStderr [98; 99]%Z
    (session_write FrameStdout [97]%Z (started (new_session "run-1"))))).
Definition example_history : list (Z * list Z) := [(FrameStdout, [97]%Z); (FrameStderr, [98; 99]%Z)].

Lemma read_frame_exact_witness :
  blen [7]%Z ≤ MaxFrame ∧
  ∃ bytes, WriteFrame 111 [7]%Z = Ok bytes ∧ [111; 0; 0; 0; 1; 7; 9]%Z = bytes ++ [9]%Z.
Proof.
  apply (read_frame_exact [111; 0; 0; 0; 1; 7; 9]%Z).
  - apply (bool_decide_unpack _). vm_compute. exact I.
  - vm_compute. reflexivity.
Defined.

Lemma session_delivery_witness :
  let c := {| c_gen := 1; c_pos := 2; c_first := true |} in
  let sent := (serve_turn example_session c).1.1 in
  let host := pump (read_frames (S (length (wire sent))) (wire sent)) [] [] in
  output (ho_writes host) = drop 2 (output example_history) ∧
  ho_dropped host = [] ∧ ho_code host = 3.
Proof.
  intros c. apply (session_delivery example_history example_session c 3); try reflexivity.
  - unfold example_session. apply (buffer_ok_finish example_history).
    apply (buffer_ok_write [(FrameStdout, [97]%Z)]).
    apply (buffer_ok_write []). apply (buffer_ok_new "run-1").
  - split; [|vm_compute; reflexivity].
    repeat constructor; try (left; reflexivity); try (right; reflexivity); vm_compute; discriminate.
  - repeat constructor; try (left; reflexivity); try (right; reflexivity); vm_compute; discriminate.
  - lia.
  - vm_compute. discriminate.
Defined.

(** A table holding one running process. *)
Definition example_table : table :=
  set_session 0 (started (new_session "run-1")) {|
    tb_heap := {[ 0%nat := new_session "run-1" ]}; tb_ids := {[ "run-1"%string := 0%nat ]};
    tb_finished := 0; tb_hist := {[ 0%nat := [] ]} |}.

Lemma running_session_kept_witness :
  tb_ids example_table !! "run-1"%string = Some 0%nat ∧
  ∃ hist, tb_hist example_table !! 0%nat = Some hist ∧
    buffer_ok hist (started (new_session "run-1")).
Proof.
  apply (running_session_kept example_table 0 (started (new_session "run-1"))).
  - eapply rtc_l; [apply (step_reserve "run-1" 0); reflexivity|].
    eapply rtc_l; [|apply rtc_refl].
    apply (step_start 0 (new_session "run-1")); reflexivity.
  - reflexivity.
  - reflexivity.
Defined.

(** The same after the process finished. *)
Definition example_done : table :=
  set_session 0 (session_finish 0 (started (new_session "run-1"))) example_table.

Lemma prune_keeps_newest_witness :
  let t := example_done in
  let order := [("run-1"%string, 0%nat)] in
  let left := List.filter (has_exited (prune order t)) (map_to_list (tb_ids (prune order t))) in
  (length left ≤ keptExited)%nat ∧
  (length left = length order ∨ length left = keptExited) ∧
  ∀ e e', e ∈ order → tb_ids (prune order t) !! e.1 = None → e' ∈ left →
    done_of t e ≤ done_of t e'.
Proof.
  apply prune_keeps_newest. split; [vm_compute; reflexivity|repeat constructor].
Defined.
