(* ===== verification/OutputLog.v ===== *)
(** * A process's output log (internal/server/outputlog.go)

    What sandboxd keeps of a process's output for those who follow it. The log
    is one critical section per operation, so an execution is a list of
    operations in order; a follower's turn is one pass of [follow]'s loop. *)
From S2P Require Import Prelude.

Definition maxStreamBytes : Z := 8 * 2 ^ 20.

Definition stdout : string := "stdout".
Definition stderr : string := "stderr".

Record output_log := {
  ol_events : list (string * list Z);
  ol_size : gmap string Z;
  ol_truncated : bool;
  ol_exit : option Z
}.

Definition newOutputLog : output_log := {|
  ol_events := []; ol_size := ∅; ol_truncated := false; ol_exit := None |}.

Definition size_of (l : output_log) (stream : string) : Z := default 0 (ol_size l !! stream).

(** [streamWriter.Write]; it always reports the whole write as accepted. *)
Definition log_write (stream : string) (p : list Z) (l : output_log) : output_log :=
  let room := maxStreamBytes - size_of l stream in
  let '(data, cut) :=
    if blen p >? room then (take (Z.to_nat (Z.max room 0)) p, true) else (p, ol_truncated l) in
  if blen data >? 0 then {|
    ol_events := ol_events l ++ [(stream, data)];
    ol_size := <[stream := size_of l stream + blen data]> (ol_size l);
    ol_truncated := cut; ol_exit := ol_exit l |}
  else {| ol_events := ol_events l; ol_size := ol_size l; ol_truncated := cut;
          ol_exit := ol_exit l |}.

Definition markTruncated (l : output_log) : output_log := {|
  ol_events := ol_events l; ol_size := ol_size l; ol_truncated := true; ol_exit := ol_exit l |}.

Definition log_finish (code : Z) (l : output_log) : output_log := {|
  ol_events := ol_events l; ol_size := ol_size l; ol_truncated := ol_truncated l;
  ol_exit := Some code |}.

(** The bytes of one stream among events or writes. *)
Definition stream_bytes (stream : string) (evs : list (string * list Z)) : list Z :=
  concat ((λ e, if String.eqb (fst e) stream then snd e else []) <$> evs).

Definition collect (l : output_log) : list Z * list Z * bool :=
  (stream_bytes stdout (ol_events l), stream_bytes stderr (ol_events l), ol_truncated l).

(** A follower: [next], what its function was given, and the exit code once
    it was given that. *)
Record follower := {
  f_next : nat;
  f_given : list (string * list Z);
  f_exit : option Z
}.

Definition new_follower : follower := {| f_next := 0; f_given := []; f_exit := None |}.

Definition follow_turn (l : output_log) (f : follower) : follower :=
  match f_exit f with
  | Some _ => f
  | None => {| f_next := length (ol_events l);
               f_given := f_given f ++ drop (f_next f) (ol_events l);
               f_exit := ol_exit l |}
  end.

Variant log_op :=
| OWrite (stream : string) (p : list Z)
| OMark
| OFinish (code : Z)
| OTurn.

(** What one operation does to the log and to a follower, and to the list of
    writes, which is no part of the program. A process writes nothing once it
    has exited. *)
Definition log_step (op : log_op) (st : output_log * follower * list (string * list Z))
    : output_log * follower * list (string * list Z) :=
  let '(l, f, ws) := st in
  match op with
  | OWrite stream p =>
      match ol_exit l with
      | Some _ => st
      | None => (log_write stream p l, f, ws ++ [(stream, p)])
      end
  | OMark => (markTruncated l, f, ws)
  | OFinish code => match ol_exit l with Some _ => st | None => (log_finish code l, f, ws) end
  | OTurn => (l, follow_turn l f, ws)
  end.

Definition log_run (ops : list log_op) : output_log * follower * list (string * list Z) :=
  foldl (λ st op, log_step op st) (newOutputLog, new_follower, []) ops.

(** ** The log is a prefix of each stream *)
Record log_ok (l : output_log) (ws : list (string * list Z)) : Prop := {
  lo_prefix s : stream_bytes s (ol_events l) =
    take (Z.to_nat maxStreamBytes) (stream_bytes s ws);
  lo_size s : size_of l s = blen (stream_bytes s (ol_events l));
  lo_cut s : maxStreamBytes < blen (stream_bytes s ws) → ol_truncated l = true
}.

Lemma stream_bytes_app s a b : stream_bytes s (a ++ b) = stream_bytes s a ++ stream_bytes s b.
Proof. unfold stream_bytes. by rewrite fmap_app, concat_app. Qed.

Lemma stream_bytes_one s t p :
  stream_bytes s [(t, p)] = if String.eqb t s then p else [].
Proof. unfold stream_bytes. cbn. apply app_nil_r. Qed.

Lemma log_ok_new : log_ok newOutputLog [].
Proof. split; intros s; cbn; done. Qed.

Lemma size_insert l s t n : default 0 (<[t := n]> (ol_size l) !! s) =
  if String.eqb t s then n else size_of l s.
Proof.
  destruct (String.eqb_spec t s) as [->|Hne].
  - by rewrite lookup_insert_eq.
  - by rewrite lookup_insert_ne.
Qed.

Lemma log_ok_write l ws t p : log_ok l ws → log_ok (log_write t p l) (ws ++ [(t, p)]).
Proof.
  intros [Hp Hs Hc].
  assert (blen (stream_bytes t (ol_events l)) ≤ maxStreamBytes) as Hmax.
  { rewrite Hp. unfold blen. rewrite length_take. unfold maxStreamBytes. lia. }
  set (room := maxStreamBytes - size_of l t) in *.
  assert (∃ data cut, log_write t p l =
    (if blen data >? 0 then {|
      ol_events := ol_events l ++ [(t, data)];
      ol_size := <[t := size_of l t + blen data]> (ol_size l);
      ol_truncated := cut; ol_exit := ol_exit l |}
    else {| ol_events := ol_events l; ol_size := ol_size l; ol_truncated := cut;
            ol_exit := ol_exit l |}) ∧
    data = take (Z.to_nat room) p ∧ (room < blen p → cut = true) ∧
    (ol_truncated l = true → cut = true)) as (data & cut & -> & Hd & Hcut & Hold).
  { unfold log_write. fold room. destruct (blen p >? room) eqn:E.
    - exists (take (Z.to_nat (Z.max room 0)) p), true. split_and!; try done.
      f_equal. unfold room. rewrite Hs. lia.
    - exists p, (ol_truncated l). split_and!; try done; [|lia].
      rewrite take_ge; [done|]. unfold blen in E. lia. }
  assert (∀ s, stream_bytes s (ol_events l ++ [(t, data)]) =
    take (Z.to_nat maxStreamBytes) (stream_bytes s (ws ++ [(t, p)]))) as Hpre.
  { intros s. rewrite !stream_bytes_app, !stream_bytes_one, Hp.
    destruct (String.eqb_spec t s) as [<-|]; [|by rewrite !app_nil_r].
    rewrite take_app, Hd. f_equal. f_equal. unfold room. rewrite Hs, Hp.
    unfold blen. rewrite length_take. unfold maxStreamBytes in *. lia. }
  assert (∀ s, maxStreamBytes < blen (stream_bytes s (ws ++ [(t, p)])) → cut = true) as Hcut'.
  { intros s. rewrite stream_bytes_app, stream_bytes_one, blen_app.
    destruct (String.eqb_spec t s) as [<-|]; [|rewrite Z.add_0_r; intros H; by eapply Hold, Hc].
    intros H. destruct (Z.lt_ge_cases maxStreamBytes (blen (stream_bytes t ws))) as [Hlt|Hge].
    - by eapply Hold, Hc.
    - apply Hcut. unfold room. rewrite Hs, Hp. rewrite take_ge; [lia|]. unfold blen in Hge. lia. }
  destruct (blen data >? 0) eqn:E; split; cbn [ol_events ol_truncated]; try done.
  - intros s. unfold size_of. cbn [ol_size]. rewrite size_insert, stream_bytes_app, blen_app.
    rewrite stream_bytes_one, <- Hs.
    destruct (String.eqb_spec t s) as [->|]; [done|]. unfold blen. cbn. lia.
  - intros s. rewrite <- Hpre, stream_bytes_app, stream_bytes_one.
    assert (data = []) as -> by (destruct data; [done|unfold blen in E; cbn in E; lia]).
    by destruct (String.eqb t s); rewrite app_nil_r.
Qed.

Lemma log_run_ok ops l f ws :
  log_run ops = (l, f, ws) →
  log_ok l ws ∧ f_given f = take (f_next f) (ol_events l) ∧ (f_next f ≤ length (ol_events l))%nat ∧
  ∀ code, f_exit f = Some code → ol_exit l = Some code ∧ f_next f = length (ol_events l).
Proof.
  revert l f ws. induction ops as [|op ops IH] using rev_ind; intros l f ws.
  { intros [= <- <- <-]. split_and!; [apply log_ok_new|done..]. }
  unfold log_run in *. rewrite foldl_app. cbn [foldl].
  destruct (foldl _ _ ops) as [[l0 f0] ws0]. destruct (IH l0 f0 ws0 eq_refl) as (Hok & Hg & Hn & Hx).
  destruct op as [t p| |code|]; cbn [log_step].
  - destruct (ol_exit l0) eqn:Ex; intros [= <- <- <-]; [split_and!; eauto|].
    { intros c Hc. rewrite Ex. by apply Hx. }
    assert (∃ extra, ol_events (log_write t p l0) = ol_events l0 ++ extra ∧
      ol_exit (log_write t p l0) = ol_exit l0) as (extra & He & Hxe).
    { unfold log_write. destruct (blen p >? _); destruct (blen _ >? 0); cbn;
        eexists; split; try done; by rewrite app_nil_r. }
    split_and!; [by apply log_ok_write| | |].
    + by rewrite He, take_app_le.
    + rewrite He, length_app. lia.
    + intros c Hc. destruct (Hx c Hc). congruence.
  - intros [= <- <- <-]. split_and!; try done. destruct Hok. by split.
  - destruct (ol_exit l0) eqn:Ex; intros [= <- <- <-]; [split_and!; eauto|].
    { intros c Hc. rewrite Ex. by apply Hx. }
    split_and!; try done; [by destruct Hok|]. intros c Hc. destruct (Hx c Hc). congruence.
  - intros [= <- <- <-]. split; [done|]. unfold follow_turn.
    destruct (f_exit f0) eqn:Ef; [split_and!; [done|done|]; rewrite Ef; done|].
    cbn [f_given f_next f_exit]. split_and!; [|done|done].
    by rewrite Hg, take_drop, firstn_all.
Qed.

(** C40. However writes, the exit and a follower's turns interleave, the log
    keeps exactly the first 8 MiB of each stream and says so if any was more;
    a follower who is given the exit code was given exactly that, from the
    beginning, whenever it joined. *)
Theorem follower_sees_everything ops l f ws code :
  log_run ops = (l, f, ws) → f_exit f = Some code →
  ol_exit l = Some code ∧
  (∀ s, stream_bytes s (f_given f) = take (Z.to_nat maxStreamBytes) (stream_bytes s ws)) ∧
  collect l = (stream_bytes stdout (f_given f), stream_bytes stderr (f_given f), ol_truncated l) ∧
  ∀ s, maxStreamBytes < blen (stream_bytes s ws) → ol_truncated l = true.
Proof.
  intros Hrun Hx. destruct (log_run_ok ops l f ws Hrun) as (Hok & Hg & _ & Hf).
  destruct (Hf code Hx) as [Hexit Hnext].
  assert (f_given f = ol_events l) as He by (by rewrite Hg, Hnext, firstn_all).
  rewrite He. split_and!; [done|apply Hok|done|apply Hok].
Qed.

Lemma follower_sees_everything_witness :
  let ops := [OWrite stdout [1; 2]%Z; OTurn; OWrite stderr [3]%Z; OFinish 7; OTurn] in
  let '(l, f, ws) := log_run ops in
  ol_exit l = Some 7 ∧
  (∀ s, stream_bytes s (f_given f) = take (Z.to_nat maxStreamBytes) (stream_bytes s ws)) ∧
  collect l = (stream_bytes stdout (f_given f), stream_bytes stderr (f_given f), ol_truncated l) ∧
  ∀ s, maxStreamBytes < blen (stream_bytes s ws) → ol_truncated l = true.
Proof.
  intros ops. destruct (log_run ops) as [[l f] ws] eqn:E.
  apply (follower_sees_everything ops l f ws 7 E).
  apply (f_equal (λ st, f_exit st.1.2)) in E. vm_compute in E. exact (eq_sym E).
Defined.
