(* ===== verification/PolicyEnv.v ===== *)
(** * Reserved environment and the built-in egress list (internal/policy/config.go) *)
From S2P Require Import Prelude GoStrings.

Definition reservedEnvNames : gset string := list_to_set
  ["SANDBOX_RUN_AS"; "SANDBOX_EGRESS_ALLOW"; "SANDBOX_INGRESS_PORTS"; "SANDBOX_PROXY_PORT";
   "SANDBOX_UMASK"; "BASH_ENV"; "ENV"; "LD_PRELOAD"; "LD_LIBRARY_PATH"; "LD_AUDIT";
   "SHELLOPTS"; "BASHOPTS"; "PS4"; "IFS"; "GLOBIGNORE"; "DOCKER_HOST"; "DOCKER_CONFIG";
   "DOCKER_CERT_PATH"; "DOCKER_TLS_VERIFY"; "DOCKER_CONTEXT"]%string.

Definition IsReservedEnv `{Unicode} (name : string) : bool :=
  bool_decide (trim_space name ∈ reservedEnvNames).

Definition BaselineEgress : list string :=
  ["api.anthropic.com"; "api.openai.com"; "registry.npmjs.org"; "pypi.org";
   "files.pythonhosted.org"; "github.com"; "codeload.github.com";
   "objects.githubusercontent.com"; "raw.githubusercontent.com"]%string.

(** The image a build without its own names; the linker may set another. *)
Definition DefaultImage : string := "ghcr.io/amitgb14/sandbox-base:edge".
