(* ===== verification/Spec.v ===== *)
(** * From a request to a resolved spec (internal/spec/spec.go)

    Where isolation is decided: a request may tighten what the server's policy
    decided, never loosen it. Errors are the two types of the source, with one
    constructor per message; a message's arguments that decide nothing are
    left out. Go's iteration order over a map is arbitrary, so it is the
    variable [range], of which the theorems only use that it lists the map. *)
From S2P Require Import Prelude GoSort GoStrings Api EgressNames PolicyEnv.

(** ** Errors *)
Inductive invalid_reason :=
| bad_image | bad_name | too_many_volumes | bad_volume_name (n : string)
| volume_twice (n : string) | bad_volume_path (n : string) | volume_reserved (n : string)
| volume_nested (a b : string) | too_many_labels | bad_label_key (k : string)
| label_too_long (k : string) | label_not_utf8 (k : string) | label_control (k : string)
| bad_cpus | bad_memory | bad_disk | gpus_negative | gpus_none | gpus_too_many
| gpus_suspend | gpus_schedule | gpus_snapshot | idle_negative | idle_never | idle_too_long
| bad_idle_action | lifetime_negative | lifetime_too_short | lifetime_too_long
| schedule_negative | keep_without_every | every_too_short | keep_too_many
| bad_env_name (k : string) | env_nul (k : string) | network_required | network_groups
| bad_mode (m : string) | mode_takes_no_allow (m : string) | bad_host (field raw : string)
| disk_shrinks.

Inductive refused_reason :=
| image_not_permitted (img : string) | env_reserved (k : string)
| above_ceiling (mode ceiling : string) | may_not_allow (name : string) | empty_allowlist.

Inductive spec_error :=
| Refused (r : refused_reason)
| Invalid (r : invalid_reason).

Abbreviation checked := (result spec_error).

(** ** The policy *)
Record Pool := {
  pool_Image : string;
  pool_Size : Z
}.

Record PolicyNetwork := {
  pn_Default : NetworkPolicy;
  pn_Ceiling : string;
  pn_MayAllow : list string
}.

Record Policy := {
  pol_DefaultImage : string;
  pol_Images : list string;
  pol_DefaultCPUs : float64;
  pol_DefaultMemoryMB : Z;
  pol_DefaultDiskMB : Z;
  pol_DefaultIdleSecs : Z;
  pol_Limits : Limits;
  pol_Network : PolicyNetwork;
  pol_Pools : list Pool
}.

Definition MaxPoolSize : Z := 32.

Definition DefaultMinMetricsExportSecs : Z := 10.

Definition DefaultPolicy : Policy := {|
  pol_DefaultImage := DefaultImage; pol_Images := [];
  pol_DefaultCPUs := float_of_Z 1; pol_DefaultMemoryMB := 1024; pol_DefaultDiskMB := 10240;
  pol_DefaultIdleSecs := 1800;
  pol_Limits := {|
    lim_MaxCPUs := float_of_Z 8; lim_MaxMemoryMB := 16384; lim_MaxDiskMB := 102400;
    lim_MaxIdleTimeoutSecs := 7 * 24 * 3600; lim_MaxLifetimeSecs := 0;
    lim_MinSnapshotEverySecs := 300; lim_MaxSnapshotKeep := 5;
    lim_MinMetricsExportSecs := DefaultMinMetricsExportSecs; lim_MaxGPUs := 8 |};
  pol_Network := {|
    pn_Default := {| np_Mode := NetworkOpen; np_Allow := None; np_Deny := []; np_Groups := [] |};
    pn_Ceiling := NetworkOpen; pn_MayAllow := ["*"%string] |};
  pol_Pools := [] |}.

(** The resolved spec ([backend.Spec]). *)
Record BackendSpec := {
  bs_ID : string;
  bs_Image : string;
  bs_CPUs : float64;
  bs_MemoryMB : Z;
  bs_DiskMB : Z;
  bs_Env : gmap string string;
  bs_Network : NetworkPolicy;
  bs_IdleTimeoutSecs : Z;
  bs_IdleAction : string;
  bs_LifetimeSecs : Z;
  bs_SnapshotEverySecs : Z;
  bs_SnapshotKeep : Z;
  bs_FromSnapshot : string;
  bs_Volumes : list VolumeMount;
  bs_GPUs : list string
}.

(** ** The regular expressions *)

(** [^F R{0,n}$]: a first character and at most [n] more. *)
Definition shape (first rest : ascii → bool) (n : nat) (s : string) : bool :=
  match chars s with
  | [] => false
  | c :: t => first c && forallb rest t && (length t <=? n)%nat
  end.

Definition nameRE : string → bool := shape is_lower_alnum (λ c, is_lower_alnum c || is_char "-" c) 62.
Definition imageRE : string → bool :=
  shape is_alnum (λ c, is_alnum c || bool_decide (c ∈ ["."; "_"; "/"; ":"; "@"; "-"]%char)) 254.
Definition labelKeyRE : string → bool :=
  shape is_lower_alnum (λ c, is_lower_alnum c || bool_decide (c ∈ ["."; "_"; "/"; "-"]%char)) 62.

Definition envNameRE (s : string) : bool :=
  match chars s with
  | [] => false
  | c :: t => (is_alpha c || is_char "_" c) && forallb (λ c, is_alnum c || is_char "_" c) t
  end.

Definition path_char (c : ascii) : bool :=
  is_alnum c || bool_decide (c ∈ ["."; "_"; "-"]%char).

(** [^(/[A-Za-z0-9._-]+)+$]: a slash, then segments between slashes. *)
Definition volumePathRE (s : string) : bool :=
  match chars s with
  | c :: t => is_char "/" c &&
      forallb (λ seg, negb (bool_decide (seg = [])) && forallb path_char seg) (split_chars "/" t)
  | [] => false
  end.

(** One DNS label: 1 to 63 characters, no dash at either end. *)
Definition host_label (l : list ascii) : bool :=
  match l with
  | [] => false
  | c :: _ => is_lower_alnum c && forallb (λ c, is_lower_alnum c || is_char "-" c) l &&
      (match last l with Some d => is_lower_alnum d | None => false end) && (length l <=? 63)%nat
  end.

Definition hostRE (s : string) : bool :=
  let rest := match cut_prefix s "*." with Some r => r | None => s end in
  forallb host_label (split_chars "." (chars rest)).

Definition ValidName (s : string) : bool := nameRE s.

(** [^sbx_([a-z0-9][a-z0-9-]{0,30}_)?[0-9a-f]{16}$] *)
Definition hex16 (s : string) : bool :=
  forallb is_hex_lower (chars s) && (String.length s =? 16)%nat.
Definition ValidID (s : string) : bool :=
  match cut_prefix s "sbx_" with
  | None => false
  | Some rest =>
      hex16 rest ||
      match cut rest "_" with
      | Some (node, hex) => ValidNodeID node && hex16 hex
      | None => false
      end
  end.

(** ** Checks *)
Definition CheckImage (img : string) (pol : Policy) : checked () :=
  reject_if (negb (imageRE img)) (Invalid bad_image);;
  reject_if (negb (bool_decide (pol_Images pol = [])) && negb (bool_decide (img ∈ pol_Images pol)))
    (Refused (image_not_permitted img)).

Definition CheckName (name : string) : checked () :=
  reject_if (negb (String.eqb name "") && negb (ValidName name)) (Invalid bad_name).

Definition MaxVolumeMounts : Z := 8.

Definition reservedMountRoots : list string :=
  ["/proc"; "/sys"; "/dev"; "/run"; "/etc"; "/usr"; "/bin"; "/sbin"; "/lib"; "/lib32"; "/lib64";
   "/libx32"; "/boot"; "/tmp"]%string.

(** [strings.Contains]. *)
Fixpoint contains_chars (sub l : list ascii) : bool :=
  bool_decide (sub `prefix_of` l) ||
  match l with [] => false | _ :: t => contains_chars sub t end.
Definition contains_str (s sub : string) : bool := contains_chars (chars sub) (chars s).

Definition inside (path root : string) : bool :=
  String.eqb path root || has_prefix path (root +:+ "/").

Definition check_mount (before : list VolumeMount) (m : VolumeMount) : checked () :=
  reject_if (negb (ValidName (vm_Name m))) (Invalid (bad_volume_name (vm_Name m)));;
  reject_if (bool_decide (vm_Name m ∈ vm_Name <$> before)) (Invalid (volume_twice (vm_Name m)));;
  reject_if (negb (volumePathRE (vm_Path m)) || contains_str (vm_Path m) "/./" ||
             contains_str (vm_Path m) "/../" || has_suffix (vm_Path m) "/." ||
             has_suffix (vm_Path m) "/..") (Invalid (bad_volume_path (vm_Name m)));;
  reject_if (existsb (inside (vm_Path m)) reservedMountRoots) (Invalid (volume_reserved (vm_Name m)));;
  match List.find (λ o, inside (vm_Path m) (vm_Path o) || has_prefix (vm_Path o) (vm_Path m +:+ "/"))
          before with
  | Some o => Err (Invalid (volume_nested (vm_Name o) (vm_Name m)))
  | None => Ok ()
  end.

Fixpoint check_mounts (before mounts : list VolumeMount) : checked () :=
  match mounts with
  | [] => Ok ()
  | m :: rest => check_mount before m;; check_mounts (before ++ [m]) rest
  end.

Definition ValidateVolumeMounts (mounts : list VolumeMount) : checked () :=
  reject_if (Z.of_nat (length mounts) >? MaxVolumeMounts) (Invalid too_many_volumes);;
  check_mounts [] mounts.

Definition MaxLabels : Z := 32.
Definition MaxLabelValueBytes : Z := 256.

Definition control_rune (r : Z) : bool :=
  (r <? 32) || (r =? 127) || ((128 <=? r) && (r <=? 159)).

Definition check_label (k v : string) : checked () :=
  reject_if (negb (labelKeyRE k)) (Invalid (bad_label_key k));;
  reject_if (strlen v >? MaxLabelValueBytes) (Invalid (label_too_long k));;
  match runes (chars v) with
  | None => Err (Invalid (label_not_utf8 k))
  | Some rs => reject_if (existsb control_rune rs) (Invalid (label_control k))
  end.

(** Runs a check over a list until the first error. *)
Fixpoint check_each {A} (f : A → checked ()) (l : list A) : checked () :=
  match l with
  | [] => Ok ()
  | x :: t => f x;; check_each f t
  end.

Definition checkGPUs (req : CreateSandboxRequest) (l : Limits) : checked () :=
  let n := cr_GPUs req in
  if n =? 0 then Ok ()
  else if n <? 0 then Err (Invalid gpus_negative)
  else if lim_MaxGPUs l =? 0 then Err (Invalid gpus_none)
  else if n >? lim_MaxGPUs l then Err (Invalid gpus_too_many)
  else if String.eqb (cr_IdleAction req) IdleSuspend then Err (Invalid gpus_suspend)
  else if cr_SnapshotEverySecs req >? 0 then Err (Invalid gpus_schedule)
  else if negb (String.eqb (cr_SnapshotID req) "") then Err (Invalid gpus_snapshot)
  else Ok ().

Definition ResolveIdleAction (action : string) : checked string :=
  if String.eqb action "" || String.eqb action IdleTerminate then Ok ""%string
  else if String.eqb action IdleSuspend then Ok IdleSuspend
  else Err (Invalid bad_idle_action).

Definition ResolveIdleUpdate (idle : Z) (pol : Policy) : checked Z :=
  let max := lim_MaxIdleTimeoutSecs (pol_Limits pol) in
  if idle <? 0 then Err (Invalid idle_negative)
  else if (idle =? 0) && (max >? 0) then Err (Invalid idle_never)
  else if (max >? 0) && (idle >? max) then Err (Invalid idle_too_long)
  else Ok idle.

Definition ResolveLifetimeUpdate (life : Z) (pol : Policy) : checked Z :=
  let max := lim_MaxLifetimeSecs (pol_Limits pol) in
  if life <=? 0 then Err (Invalid lifetime_too_short)
  else if (max >? 0) && (life >? max) then Err (Invalid lifetime_too_long)
  else Ok life.

Definition minMemoryMB : Z := 128.

Definition ResolveResize (req : ResizeSandboxRequest) (cur : NodeResources) (pol : Policy)
    : checked NodeResources :=
  let l := pol_Limits pol in
  let out := {|
    nr_CPUs := if feqb (rz_CPUs req) fzero then nr_CPUs cur else rz_CPUs req;
    nr_MemoryMB := if rz_MemoryMB req =? 0 then nr_MemoryMB cur else rz_MemoryMB req;
    nr_DiskMB := if rz_DiskMB req =? 0 then nr_DiskMB cur else rz_DiskMB req;
    nr_GPUs := nr_GPUs cur |} in
  if fleb (nr_CPUs out) fzero || fltb (lim_MaxCPUs l) (nr_CPUs out) then Err (Invalid bad_cpus)
  else if (nr_MemoryMB out <? minMemoryMB) || (nr_MemoryMB out >? lim_MaxMemoryMB l)
  then Err (Invalid bad_memory)
  else if nr_DiskMB out >? lim_MaxDiskMB l then Err (Invalid bad_disk)
  else if nr_DiskMB out <? nr_DiskMB cur then Err (Invalid disk_shrinks)
  else Ok out.

Definition ResolveSchedule (s : SnapshotSchedule) (l : Limits) : checked SnapshotSchedule :=
  if (ss_EverySecs s <? 0) || (ss_Keep s <? 0) then Err (Invalid schedule_negative)
  else if (ss_EverySecs s =? 0) && negb (ss_Keep s =? 0) then Err (Invalid keep_without_every)
  else if ss_EverySecs s =? 0 then Ok {| ss_EverySecs := 0; ss_Keep := 0 |}
  else if ss_EverySecs s <? lim_MinSnapshotEverySecs l then Err (Invalid every_too_short)
  else
    let keep := if ss_Keep s =? 0 then 1 else ss_Keep s in
    if keep >? lim_MaxSnapshotKeep l then Err (Invalid keep_too_many)
    else Ok {| ss_EverySecs := ss_EverySecs s; ss_Keep := keep |}.

(** The idle timeout and the lifetime of [Resolve]. *)
Definition resolve_idle (idle : Z) (pol : Policy) : checked Z :=
  let max := lim_MaxIdleTimeoutSecs (pol_Limits pol) in
  if idle <? 0 then Err (Invalid idle_negative)
  else if idle =? 0 then Ok (pol_DefaultIdleSecs pol)
  else if (max >? 0) && (idle >? max) then Err (Invalid idle_too_long)
  else Ok idle.

Definition resolve_lifetime (life : Z) (pol : Policy) : checked Z :=
  let max := lim_MaxLifetimeSecs (pol_Limits pol) in
  if life <? 0 then Err (Invalid lifetime_negative)
  else if life =? 0 then Ok max
  else if (max >? 0) && (life >? max) then Err (Invalid lifetime_too_long)
  else Ok life.

(** ** Environment and network *)
Section resolve.
Context `{Unicode}.
(** The order in which a [range] over a map visits it. *)
Context (range : gmap string string → list (string * string)).

Definition ValidateLabels (labels : gmap string string) : checked () :=
  reject_if (Z.of_nat (size labels) >? MaxLabels) (Invalid too_many_labels);;
  check_each (λ kv, check_label (fst kv) (snd kv)) (range labels).

Definition check_env (k v : string) : checked () :=
  reject_if (negb (envNameRE k)) (Invalid (bad_env_name k));;
  reject_if (IsReservedEnv k) (Refused (env_reserved k));;
  reject_if (contains_char "000" v) (Invalid (env_nul k)).

Definition ResolveEnv (env : gmap string string) : checked (gmap string string) :=
  check_each (λ kv, check_env (fst kv) (snd kv)) (range env);; Ok env.

(** One name of a list, as the comparison is made. *)
Definition normalize_name (raw : string) : string :=
  trim_suffix (to_lower (trim_space raw)) ".".

Definition good_host (n : string) : bool :=
  negb (String.eqb n "*") && hostRE n && negb (strlen n >? 253).

Fixpoint normalize_loop (field : string) (out ins : list string) : checked (list string) :=
  match ins with
  | [] => Ok out
  | raw :: rest =>
      let n := normalize_name raw in
      if negb (good_host n) then Err (Invalid (bad_host field raw))
      else normalize_loop field (if bool_decide (n ∈ out) then out else out ++ [n]) rest
  end.

Definition normalizeNames (field : string) (ins : list string) : checked (list string) :=
  out ← normalize_loop field [] ins; Ok (sort_stable str_ltb out).

(** A wildcard entry falls within a wildcard at least as broad. *)
Definition wildcard_within (rest m : string) : bool :=
  match cut_prefix m "*." with
  | Some mr => String.eqb rest mr || has_suffix rest ("." +:+ mr)
  | None => false
  end.

Definition permitted (name : string) (mayAllow : list string) : bool :=
  if bool_decide ("*"%string ∈ mayAllow) then true
  else match cut_prefix name "*." with
       | Some rest => existsb (wildcard_within rest) mayAllow
       | None => Allows (NewMatcher mayAllow) name
       end.

Definition defaultAllow (pol : PolicyNetwork) : list string :=
  if String.eqb (np_Mode (pn_Default pol)) NetworkAllowlist
  then allow_list (pn_Default pol) else BaselineEgress.

(** [append([]string(nil), s...)] is nil where [s] is empty. *)
Definition copy_slice (s : option (list string)) : option (list string) :=
  match s with Some (x :: t) => Some (x :: t) | _ => None end.

Definition copyPolicy (p : NetworkPolicy) : NetworkPolicy :=
  {| np_Mode := np_Mode p; np_Allow := copy_slice (np_Allow p); np_Deny := np_Deny p;
     np_Groups := [] |}.

(** The allow list of an allowlist request; [allow] is its own, normalized. *)
Definition resolve_allow (given : option (list string)) (allow : list string) (pol : PolicyNetwork)
    : checked (list string) :=
  allow ← match given with
          | None => Ok (defaultAllow pol)
          | Some _ =>
              check_each (λ name,
                reject_if (negb (bool_decide (name ∈ defaultAllow pol)) &&
                           negb (permitted name (pn_MayAllow pol)))
                  (Refused (may_not_allow name))) allow;;
              Ok allow
          end;
  reject_if (bool_decide (allow = [])) (Refused empty_allowlist);;
  Ok allow.

Definition resolve_mode (p : NetworkPolicy) (pol : PolicyNetwork) : string :=
  if String.eqb (np_Mode p) "" then np_Mode (pn_Default pol) else np_Mode p.

Definition resolveNetwork (p : option NetworkPolicy) (pol : PolicyNetwork)
    : checked NetworkPolicy :=
  match p with
  | None => Ok (copyPolicy (pn_Default pol))
  | Some p =>
      reject_if (negb (bool_decide (np_Groups p = []))) (Invalid network_groups);;
      let mode := resolve_mode p pol in
      reject_if (NetworkRank mode <? 0) (Invalid (bad_mode (np_Mode p)));;
      reject_if (NetworkRank mode >? NetworkRank (pn_Ceiling pol))
        (Refused (above_ceiling mode (pn_Ceiling pol)));;
      deny ← normalizeNames "deny" (np_Deny p);
      allow ← normalizeNames "allow" (allow_list p);
      if String.eqb mode NetworkNone || String.eqb mode NetworkOpen then
        reject_if (negb (bool_decide (allow = []))) (Invalid (mode_takes_no_allow mode));;
        Ok {| np_Mode := mode; np_Allow := None;
              np_Deny := if String.eqb mode NetworkNone then [] else deny; np_Groups := [] |}
      else
        allow ← resolve_allow (np_Allow p) allow pol;
        Ok {| np_Mode := mode; np_Allow := Some allow; np_Deny := deny; np_Groups := [] |}
  end.

Definition ResolveNetworkUpdate (p : option NetworkPolicy) (pol : Policy) : checked NetworkPolicy :=
  match p with
  | None => Err (Invalid network_required)
  | Some _ => resolveNetwork p (pol_Network pol)
  end.

(** ** Resolve *)
Definition or_default (n d : Z) : Z := if n =? 0 then d else n.

Definition Resolve (req : CreateSandboxRequest) (pol : Policy) (id : string)
    : checked BackendSpec :=
  let l := pol_Limits pol in
  CheckName (cr_Name req);;
  ValidateLabels (cr_Labels req);;
  ValidateVolumeMounts (cr_Volumes req);;
  let img := if String.eqb (cr_Image req) "" then pol_DefaultImage pol else cr_Image req in
  CheckImage img pol;;
  let cpus := if feqb (cr_CPUs req) fzero then pol_DefaultCPUs pol else cr_CPUs req in
  let mem := or_default (cr_MemoryMB req) (pol_DefaultMemoryMB pol) in
  let disk := or_default (cr_DiskMB req) (pol_DefaultDiskMB pol) in
  reject_if (fltb cpus fzero || fltb (lim_MaxCPUs l) cpus) (Invalid bad_cpus);;
  reject_if ((mem <? 0) || (mem >? lim_MaxMemoryMB l)) (Invalid bad_memory);;
  reject_if ((disk <? 0) || (disk >? lim_MaxDiskMB l)) (Invalid bad_disk);;
  checkGPUs req l;;
  idle ← resolve_idle (cr_IdleTimeoutSecs req) pol;
  action ← ResolveIdleAction (cr_IdleAction req);
  life ← resolve_lifetime (cr_LifetimeSecs req) pol;
  sched ← ResolveSchedule {| ss_EverySecs := cr_SnapshotEverySecs req;
                             ss_Keep := cr_SnapshotKeep req |} l;
  env ← ResolveEnv (cr_Env req);
  net ← resolveNetwork (cr_Network req) (pol_Network pol);
  Ok {| bs_ID := id; bs_Image := img; bs_CPUs := cpus; bs_MemoryMB := mem; bs_DiskMB := disk;
        bs_Env := env; bs_Network := net; bs_IdleTimeoutSecs := idle; bs_IdleAction := action;
        bs_LifetimeSecs := life; bs_SnapshotEverySecs := ss_EverySecs sched;
        bs_SnapshotKeep := ss_Keep sched; bs_FromSnapshot := ""; bs_Volumes := cr_Volumes req;
        bs_GPUs := [] |}.

(** ** Validate and FitTo *)
Inductive policy_error :=
| default_image_empty | ceiling_not_mode | max_gpus_negative | max_lifetime_negative
| default_not_permitted (e : spec_error) | pool_size (img : string) | pool_twice (img : string)
| pool_image (img : string) | default_resources | snapshot_limits | metrics_limit.

Definition pool_image_of (p : Policy) (pl : Pool) : string :=
  if String.eqb (pool_Image pl) "" then pol_DefaultImage p else pool_Image pl.

Fixpoint check_pools (p : Policy) (seen : list string) (pools : list Pool) : result policy_error () :=
  match pools with
  | [] => Ok ()
  | pl :: rest =>
      let img := pool_image_of p pl in
      reject_if ((pool_Size pl <? 1) || (pool_Size pl >? MaxPoolSize)) (pool_size img);;
      reject_if (bool_decide (img ∈ seen)) (pool_twice img);;
      reject_if (negb (bool_decide (pol_Images p = [])) && negb (bool_decide (img ∈ pol_Images p)))
        (pool_image img);;
      check_pools p (img :: seen) rest
  end.

(** [ceilingOnly.Network]: the policy's network, with no name a request may
    add. *)
Definition ceiling_only (n : PolicyNetwork) : PolicyNetwork :=
  {| pn_Default := pn_Default n; pn_Ceiling := pn_Ceiling n; pn_MayAllow := [] |}.

Definition Validate (p : Policy) : result policy_error () :=
  let l := pol_Limits p in
  let n := pol_Network p in
  reject_if (String.eqb (pol_DefaultImage p) "") default_image_empty;;
  reject_if (NetworkRank (pn_Ceiling n) <? 0) ceiling_not_mode;;
  reject_if (lim_MaxGPUs l <? 0) max_gpus_negative;;
  reject_if (lim_MaxLifetimeSecs l <? 0) max_lifetime_negative;;
  match resolveNetwork (Some (pn_Default n)) (ceiling_only n) with
  | Err e => Err (default_not_permitted e)
  | Ok _ => Ok ()
  end;;
  check_pools p [] (pol_Pools p);;
  reject_if (fleb (pol_DefaultCPUs p) fzero || fltb (lim_MaxCPUs l) (pol_DefaultCPUs p) ||
             (pol_DefaultMemoryMB p <=? 0) || (pol_DefaultMemoryMB p >? lim_MaxMemoryMB l) ||
             (pol_DefaultDiskMB p <=? 0) || (pol_DefaultDiskMB p >? lim_MaxDiskMB l))
    default_resources;;
  reject_if ((lim_MinSnapshotEverySecs l <? 1) || (lim_MaxSnapshotKeep l <? 0)) snapshot_limits;;
  reject_if (lim_MinMetricsExportSecs l <? 0) metrics_limit.

Definition caps_has (caps : gmap string bool) (k : string) : bool := default false (caps !! k).

Definition mode_only (mode : string) (allow : option (list string)) : NetworkPolicy :=
  {| np_Mode := mode; np_Allow := allow; np_Deny := []; np_Groups := [] |}.

(** The network of [FitTo]; its notes are for the operator's log and left out. *)
Definition fit_network (n : PolicyNetwork) (caps : gmap string bool) : PolicyNetwork :=
  if negb (caps_has caps CapEgressAllowlist) && String.eqb (pn_Ceiling n) NetworkOpen &&
     caps_has caps CapEgressOpen then
    {| pn_Default := if String.eqb (np_Mode (pn_Default n)) NetworkAllowlist
                     then mode_only NetworkNone None else pn_Default n;
       pn_Ceiling := pn_Ceiling n; pn_MayAllow := [] |}
  else if negb (caps_has caps CapEgressAllowlist) &&
     (NetworkRank (pn_Ceiling n) >? NetworkRank NetworkNone) then
    {| pn_Default := mode_only NetworkNone None; pn_Ceiling := NetworkNone; pn_MayAllow := [] |}
  else if negb (caps_has caps CapEgressOpen) && String.eqb (pn_Ceiling n) NetworkOpen then
    {| pn_Default := if String.eqb (np_Mode (pn_Default n)) NetworkOpen
                     then mode_only NetworkAllowlist (Some BaselineEgress) else pn_Default n;
       pn_Ceiling := NetworkAllowlist; pn_MayAllow := pn_MayAllow n |}
  else n.

Definition limit_gpus (l : Limits) (caps : gmap string bool) : Limits :=
  if caps_has caps CapGPU then l
  else {| lim_MaxCPUs := lim_MaxCPUs l; lim_MaxMemoryMB := lim_MaxMemoryMB l;
          lim_MaxDiskMB := lim_MaxDiskMB l; lim_MaxIdleTimeoutSecs := lim_MaxIdleTimeoutSecs l;
          lim_MaxLifetimeSecs := lim_MaxLifetimeSecs l;
          lim_MinSnapshotEverySecs := lim_MinSnapshotEverySecs l;
          lim_MaxSnapshotKeep := lim_MaxSnapshotKeep l;
          lim_MinMetricsExportSecs := lim_MinMetricsExportSecs l; lim_MaxGPUs := 0 |}.

Definition FitTo (p : Policy) (caps : gmap string bool) : Policy := {|
  pol_DefaultImage := pol_DefaultImage p; pol_Images := pol_Images p;
  pol_DefaultCPUs := pol_DefaultCPUs p; pol_DefaultMemoryMB := pol_DefaultMemoryMB p;
  pol_DefaultDiskMB := pol_DefaultDiskMB p; pol_DefaultIdleSecs := pol_DefaultIdleSecs p;
  pol_Limits := limit_gpus (pol_Limits p) caps;
  pol_Network := fit_network (pol_Network p) caps; pol_Pools := pol_Pools p |}.

Definition DefaultPolicyFor (caps : gmap string bool) : Policy := FitTo DefaultPolicy caps.

Definition Ceiling (p : Policy) : NetworkCeiling := {|
  nc_Default := copyPolicy (pn_Default (pol_Network p));
  nc_Ceiling := pn_Ceiling (pol_Network p); nc_MayAllow := pn_MayAllow (pol_Network p) |}.

(** ** Lists of names *)
Lemma check_each_ok {A} (f : A → checked ()) l :
  check_each f l = Ok () ↔ ∀ x, x ∈ l → f x = Ok ().
Proof.
  induction l as [|x l IH]; cbn.
  - split; [intros _ x Hx; by apply not_elem_of_nil in Hx|done].
  - rewrite bind_ok. setoid_rewrite elem_of_cons. split.
    + intros ([] & Hx & Hl) y [->|Hy]; [done|]. by apply IH.
    + intros Hall. exists (). split; [apply Hall; by left|]. apply IH. auto.
Qed.

Lemma normalize_loop_ok field ins : ∀ out res,
  normalize_loop field out ins = Ok res →
  (∀ n, n ∈ res ↔ n ∈ out ∨ ∃ raw, raw ∈ ins ∧ n = normalize_name raw) ∧
  (∀ raw, raw ∈ ins → good_host (normalize_name raw) = true).
Proof.
  induction ins as [|raw ins IH]; intros out res; cbn [normalize_loop].
  - intros [= <-]. split.
    + intros n. split; [by left|]. intros [?|(r & Hr & _)]; [done|]. by apply not_elem_of_nil in Hr.
    + intros r Hr. by apply not_elem_of_nil in Hr.
  - destruct (good_host (normalize_name raw)) eqn:E; [|done]. cbn [negb].
    intros Hl. apply IH in Hl as [Hres Hgood]. split.
    + intros n. rewrite Hres. setoid_rewrite elem_of_cons.
      case_bool_decide; rewrite ?elem_of_app, ?list_elem_of_singleton; naive_solver.
    + intros r [->|Hr]%elem_of_cons; auto.
Qed.

Lemma normalizeNames_ok field ins res :
  normalizeNames field ins = Ok res →
  (∀ n, n ∈ res ↔ ∃ raw, raw ∈ ins ∧ n = normalize_name raw) ∧
  (∀ n, n ∈ res → good_host n = true).
Proof.
  unfold normalizeNames. intros (out & Hout & [= <-])%bind_ok.
  apply normalize_loop_ok in Hout as [Hres Hgood].
  assert (∀ n, n ∈ sort_stable str_ltb out ↔ ∃ raw, raw ∈ ins ∧ n = normalize_name raw) as Hin.
  { intros n. rewrite elem_of_sort_stable, Hres. split; [|by right].
    intros [Hn|?]; [by apply not_elem_of_nil in Hn|done]. }
  split; [done|]. intros n Hn. apply Hin in Hn as (raw & Hr & ->). auto.
Qed.

(** A name of a checked list is in the form comparisons are made in. *)
Definition host_char (c : ascii) : bool :=
  is_lower_alnum c || is_char "-" c || is_char "." c || is_char "*" c.

Lemma host_labels_chars ls :
  ls ≠ [] → forallb host_label ls = true →
  join_chars "." ls ≠ [] ∧ forallb host_char (join_chars "." ls) = true ∧
  last (join_chars "." ls) ≠ Some "."%char.
Proof.
  induction ls as [|l ls IH]; [done|]. intros _ Hl. cbn [forallb] in Hl.
  apply andb_true_iff in Hl as [Hl Hls].
  assert (l ≠ [] ∧ forallb host_char l = true ∧ last l ≠ Some "."%char) as (Hne & Hc & Hlast).
  { unfold host_label in Hl. destruct l as [|c l]; [done|].
    rewrite !andb_true_iff in Hl. destruct Hl as [[[_ Hall] Hla] _]. split_and!; [done| |].
    - apply forallb_forall. intros x Hx. rewrite forallb_forall in Hall. specialize (Hall x Hx).
      unfold host_char. by rewrite Hall.
    - intros E. by rewrite E in Hla. }
  destruct ls as [|l' ls]; [done|].
  change (join_chars "." (l :: l' :: ls)) with (l ++ "."%char :: join_chars "." (l' :: ls)).
  destruct (IH ltac:(done) Hls) as (Hne' & Hc' & Hlast'). split_and!.
  - by destruct l.
  - rewrite forallb_app. cbn [forallb]. by rewrite Hc, Hc'.
  - rewrite last_app_cons. destruct (join_chars "." (l' :: ls)) as [|x j] eqn:E; [done|].
    by rewrite last_cons_cons.
Qed.

Lemma hostRE_chars l :
  forallb host_label (split_chars "." l) = true →
  l ≠ [] ∧ forallb host_char l = true ∧ last l ≠ Some "."%char.
Proof.
  intros Hl. pose proof (host_labels_chars _ (split_chars_nonempty "." l) Hl) as H'.
  by rewrite join_split_chars in H'.
Qed.

Lemma host_chars_fixed l :
  forallb host_char l = true → l ≠ [] → last l ≠ Some "."%char →
  normalizeHost (of_chars l) = of_chars l.
Proof.
  intros Hc Hne Hl.
  assert (plain_host (of_chars l) = true) as Hp.
  { unfold plain_host. rewrite chars_of_chars. apply andb_true_iff. split.
    - apply forallb_forall. intros c Hin. rewrite forallb_forall in Hc. specialize (Hc c Hin).
      revert Hc. by destruct c as [[] [] [] [] [] [] [] []].
    - apply negb_true_iff. destruct (has_suffix (of_chars l) ".") eqn:E; [|done].
      apply has_suffix_true in E as [r Hr]. apply (f_equal chars) in Hr.
      rewrite chars_of_chars, chars_app in Hr. rewrite Hr in Hl. by destruct Hl; apply last_snoc. }
  rewrite normalizeHost_plain by done. apply (inj chars).
  assert (is_ascii (of_chars l) = true) as Ha.
  { unfold plain_host in Hp. apply andb_true_iff in Hp as [Hp _].
    by destruct (plain_chars _ Hp). }
  rewrite chars_to_lower, !chars_of_chars by done. clear Hl Hp Ha Hne.
  induction l as [|c l IH]; [done|]. cbn [forallb] in Hc. apply andb_true_iff in Hc as [Hc Hl].
  rewrite fmap_cons, IH by done. f_equal. apply lower_char_id. revert Hc.
  by destruct c as [[] [] [] [] [] [] [] []].
Qed.

Lemma good_host_rest n :
  good_host n = true →
  let rest := match cut_prefix n "*." with Some r => r | None => n end in
  chars rest ≠ [] ∧ forallb host_char (chars rest) = true ∧ last (chars rest) ≠ Some "."%char.
Proof.
  unfold good_host, hostRE. rewrite !andb_true_iff. intros [[_ Hr] _]. by apply hostRE_chars.
Qed.

Lemma last_app_nonempty {A} (a b : list A) : b ≠ [] → last (a ++ b) = last b.
Proof. destruct b as [|x b]; [done|]. intros _. apply last_app_cons. Qed.

Lemma good_host_fixed n : good_host n = true → normalizeHost n = n.
Proof.
  intros Hg. pose proof (good_host_rest n Hg) as Hr. cbv zeta in Hr.
  rewrite <- (of_chars_chars n). destruct (cut_prefix n "*.") as [r|] eqn:E.
  - apply cut_prefix_some in E as ->. rewrite chars_app. destruct Hr as (Hne & Hc & Hl).
    apply host_chars_fixed; [rewrite forallb_app; by rewrite Hc|done|].
    by rewrite last_app_nonempty.
  - destruct Hr as (Hne & Hc & Hl). by apply host_chars_fixed.
Qed.

(** A wildcard within a broader one names nothing the broader one does not. *)
Lemma wildcard_within_names rest m h :
  good_host ("*." +:+ rest) = true → wildcard_within rest m = true →
  names ("*." +:+ rest) h → names m h.
Proof.
  intros Hg Hw. pose proof (good_host_fixed _ Hg) as Hfix.
  pose proof (good_host_rest _ Hg) as Hr. cbv zeta in Hr.
  rewrite (proj2 (cut_prefix_some _ _ _) eq_refl) in Hr. destruct Hr as (Hne & Hc & Hl).
  unfold wildcard_within in Hw. destruct (cut_prefix m "*.") as [mr|] eqn:Em; [|done].
  apply cut_prefix_some in Em as ->. apply orb_true_iff in Hw.
  assert (∃ pre, rest = pre +:+ mr ∧ (pre = ""%string ∨ ∃ x, pre = x +:+ ".") ∧ chars mr ≠ [])
    as (pre & Erest & Hpre & Hmr).
  { destruct Hw as [Hw|Hw].
    - apply String.eqb_eq in Hw as <-. exists ""%string. auto.
    - apply has_suffix_true in Hw as [x Hx]. exists (x +:+ "."). split_and!; [|eauto|].
      + rewrite Hx. apply (inj chars). by rewrite !chars_app, <- app_assoc.
      + intros Hmr. rewrite Hx, !chars_app, Hmr, app_nil_r in Hl.
        apply Hl. change (chars ".") with ["."%char]. by rewrite last_snoc. }
  assert (normalizeHost ("*." +:+ mr) = "*." +:+ mr) as Hm.
  { rewrite <- (of_chars_chars ("*." +:+ mr)), chars_app.
    rewrite Erest, chars_app, forallb_app in Hc. apply andb_true_iff in Hc as [_ Hc].
    apply host_chars_fixed; [rewrite forallb_app; by rewrite Hc|done|].
    rewrite last_app_nonempty by done.
    by rewrite Erest, chars_app, last_app_nonempty in Hl. }
  assert (mr ≠ ""%string) as Hmr' by (by intros ->).
  unfold names. rewrite Hfix, Hm. intros [_ [(r & sub & _ & E & Hs & ->)|[Hno _]]].
  - apply (f_equal (λ s, cut_prefix s "*.")) in E.
    rewrite !(proj2 (cut_prefix_some _ _ _) eq_refl) in E. simplify_eq.
    split; [done|left]. destruct Hpre as [->|[x ->]].
    + by exists mr, sub.
    + exists mr, (sub +:+ "." +:+ x). split_and!; [done|done|by destruct sub|].
      apply (inj chars). by rewrite !chars_app, <- !app_assoc.
  - destruct Hg. exfalso. rewrite (Hno rest eq_refl) in Hne. done.
Qed.

(** What a checked entry names is what the policy's patterns name. *)
Lemma permitted_named n may h :
  good_host n = true → permitted n may = true → names n h →
  "*"%string ∈ may ∨ named may h.
Proof.
  intros Hg. unfold permitted. case_bool_decide; [by left|]. intros Hp Hn. right.
  destruct (cut_prefix n "*.") as [rest|] eqn:En.
  - apply cut_prefix_some in En as ->. apply existsb_exists in Hp as (m & Hm & Hw).
    exists m. split; [by apply list_elem_of_In|]. by eapply wildcard_within_names.
  - apply new_matcher_allows in Hp as [_ Hp]. rewrite good_host_fixed in Hp by done.
    destruct Hn as [_ [(rest & sub & _ & E & _)|[_ ->]]].
    + rewrite good_host_fixed in E by done. apply cut_prefix_some in E. congruence.
    + by rewrite good_host_fixed.
Qed.

Lemma resolve_allow_ok given allow pol out :
  resolve_allow given allow pol = Ok out →
  out ≠ [] ∧
  match given with
  | None => out = defaultAllow pol
  | Some _ => out = allow ∧
      ∀ n, n ∈ out → n ∈ defaultAllow pol ∨ permitted n (pn_MayAllow pol) = true
  end.
Proof.
  unfold resolve_allow. intros (l & Hl & ([] & Hr & [= <-])%bind_ok)%bind_ok.
  apply reject_if_ok, bool_decide_eq_false in Hr. split; [done|].
  destruct given; [|by simplify_eq].
  apply bind_ok in Hl as ([] & Hc & [= <-]). split; [done|].
  intros n Hn. pose proof (proj1 (check_each_ok _ _) Hc n Hn) as Hn'.
  apply reject_if_ok, andb_false_iff in Hn' as [Hn'|Hn']; bool_simpl; auto.
Qed.

(** Every way [resolveNetwork] returns. *)
Lemma resolveNetwork_ok p pol out :
  resolveNetwork (Some p) pol = Ok out →
  np_Groups p = [] ∧ np_Groups out = [] ∧ np_Mode out = resolve_mode p pol ∧
  0 ≤ NetworkRank (np_Mode out) ≤ NetworkRank (pn_Ceiling pol) ∧
  ∃ deny allow, normalizeNames "deny" (np_Deny p) = Ok deny ∧
    normalizeNames "allow" (allow_list p) = Ok allow ∧
    (np_Mode out = NetworkNone ∧ np_Allow out = None ∧ np_Deny out = [] ∧ allow = [] ∨
     np_Mode out = NetworkOpen ∧ np_Allow out = None ∧ np_Deny out = deny ∧ allow = [] ∨
     np_Mode out = NetworkAllowlist ∧ np_Deny out = deny ∧
       ∃ l, np_Allow out = Some l ∧ resolve_allow (np_Allow p) allow pol = Ok l).
Proof.
  unfold resolveNetwork. set (mode := resolve_mode p pol).
  intros ([] & Hg & H1)%bind_ok. apply bind_ok in H1 as ([] & Hr & H1).
  apply bind_ok in H1 as ([] & Hc & H1). apply bind_ok in H1 as (deny & Hd & H1).
  apply bind_ok in H1 as (allow & Ha & H1).
  apply reject_if_ok in Hg, Hr, Hc. bool_simpl.
  destruct (String.eqb mode NetworkNone || String.eqb mode NetworkOpen) eqn:Em.
  - apply bind_ok in H1 as ([] & He & [= <-]). apply reject_if_ok in He. bool_simpl.
    cbn [np_Groups np_Mode np_Allow np_Deny]. split_and!; try done.
    exists deny, allow. split_and!; [done|done|].
    apply orb_true_iff in Em as [Em|Em]; apply String.eqb_eq in Em; rewrite Em;
      [left|right; left]; auto.
  - apply bind_ok in H1 as (l & Hl & [= <-]). cbn [np_Groups np_Mode np_Allow np_Deny].
    split_and!; try done. exists deny, allow. split_and!; [done|done|]. right; right.
    split_and!; [|done|by eauto]. apply orb_false_iff in Em as [E1 E2].
    apply String.eqb_neq in E1, E2. revert Hr. unfold NetworkRank.
    repeat case_decide; [done|done|done|lia].
Qed.


(** ** What a resolved spec is held to *)

(** Two mounts whose paths neither coincide nor nest. *)
Definition apart (a b : VolumeMount) : Prop :=
  vm_Name a ≠ vm_Name b ∧ inside (vm_Path a) (vm_Path b) = false ∧
  inside (vm_Path b) (vm_Path a) = false.

Record within_policy (req : CreateSandboxRequest) (pol : Policy) (s : BackendSpec) : Prop := {
  wp_image : imageRE (bs_Image s) = true ∧ (pol_Images pol = [] ∨ bs_Image s ∈ pol_Images pol);
  wp_cpus : fltb (bs_CPUs s) fzero = false ∧ fltb (lim_MaxCPUs (pol_Limits pol)) (bs_CPUs s) = false;
  wp_memory : 0 ≤ bs_MemoryMB s ≤ lim_MaxMemoryMB (pol_Limits pol);
  wp_disk : 0 ≤ bs_DiskMB s ≤ lim_MaxDiskMB (pol_Limits pol);
  wp_env : bs_Env s = cr_Env req ∧
    ∀ k v, bs_Env s !! k = Some v → envNameRE k = true ∧ IsReservedEnv k = false;
  wp_idle : (cr_IdleTimeoutSecs req = 0 ∧ bs_IdleTimeoutSecs s = pol_DefaultIdleSecs pol) ∨
    (0 < bs_IdleTimeoutSecs s ∧
     (0 < lim_MaxIdleTimeoutSecs (pol_Limits pol) →
      bs_IdleTimeoutSecs s ≤ lim_MaxIdleTimeoutSecs (pol_Limits pol)));
  wp_action : bs_IdleAction s = ""%string ∨ bs_IdleAction s = IdleSuspend;
  wp_lifetime : 0 < lim_MaxLifetimeSecs (pol_Limits pol) →
    0 < bs_LifetimeSecs s ≤ lim_MaxLifetimeSecs (pol_Limits pol);
  wp_schedule : (bs_SnapshotEverySecs s = 0 ∧ bs_SnapshotKeep s = 0) ∨
    (lim_MinSnapshotEverySecs (pol_Limits pol) ≤ bs_SnapshotEverySecs s ∧
     1 ≤ bs_SnapshotKeep s ≤ lim_MaxSnapshotKeep (pol_Limits pol));
  wp_network : resolveNetwork (cr_Network req) (pol_Network pol) = Ok (bs_Network s);
  wp_volumes : Z.of_nat (length (bs_Volumes s)) ≤ MaxVolumeMounts ∧
    (∀ i j a b, (i < j)%nat → bs_Volumes s !! i = Some a → bs_Volumes s !! j = Some b → apart b a) ∧
    ∀ m, m ∈ bs_Volumes s → ValidName (vm_Name m) = true ∧
      ∀ r, r ∈ reservedMountRoots → inside (vm_Path m) r = false;
  wp_gpus : cr_GPUs req ≠ 0 →
    0 < cr_GPUs req ≤ lim_MaxGPUs (pol_Limits pol) ∧ bs_IdleAction s = ""%string ∧
    bs_SnapshotEverySecs s = 0
}.

(** What the loop over the mounts leaves true of all of them. *)
Lemma check_mounts_ok mounts : ∀ before,
  check_mounts before mounts = Ok () →
  (∀ i a b, mounts !! i = Some b → a ∈ before ++ take i mounts → apart b a) ∧
  ∀ m, m ∈ mounts → ValidName (vm_Name m) = true ∧
    ∀ r, r ∈ reservedMountRoots → inside (vm_Path m) r = false.
Proof.
  induction mounts as [|m mounts IH]; intros before.
  { intros _. split; [intros i a b Hi; by rewrite lookup_nil in Hi|].
    intros m Hm. by apply not_elem_of_nil in Hm. }
  cbn [check_mounts]. intros ([] & Hm & Hrest)%bind_ok. apply IH in Hrest as [Hap Hok].
  unfold check_mount in Hm. rewrite !guard_ok in Hm.
  destruct Hm as (Hv & Hn & _ & Hr & Hf). bool_simpl.
  destruct (List.find _ before) as [o|] eqn:Ef; [done|]. clear Hf.
  split.
  - intros [|i] a b Hi Ha; cbn in Hi, Ha.
    + simplify_eq. rewrite app_nil_r in Ha. unfold apart. split.
      * intros E. apply Hn, list_elem_of_fmap. eauto.
      * pose proof (List.find_none _ _ Ef a (proj1 (list_elem_of_In _ _) Ha)) as Hd.
        cbv beta in Hd. apply orb_false_iff in Hd as [Hd1 Hd2]. split; [done|].
        unfold inside in *. apply orb_false_iff in Hd1 as [Hd1 _].
        apply orb_false_iff. split; [|done].
        apply String.eqb_neq. apply String.eqb_neq in Hd1. congruence.
    + apply (Hap i a b Hi). rewrite <- app_assoc. done.
  - intros x [->|Hx]%elem_of_cons; [|auto]. split; [done|]. intros r Hr'.
    destruct (inside (vm_Path m) r) eqn:E; [|done].
    assert (existsb (inside (vm_Path m)) reservedMountRoots = true); [|congruence].
    apply existsb_exists. exists r. by rewrite <- list_elem_of_In.
Qed.

(** The checks of one setting each, on the way that grants it. *)
Lemma resolve_idle_ok idle pol v :
  resolve_idle idle pol = Ok v →
  (idle = 0 ∧ v = pol_DefaultIdleSecs pol) ∨
  (0 < v ∧ (0 < lim_MaxIdleTimeoutSecs (pol_Limits pol) →
            v ≤ lim_MaxIdleTimeoutSecs (pol_Limits pol))).
Proof. unfold resolve_idle. intros Hv. split_matches_in Hv; lia. Qed.

Lemma resolve_lifetime_ok life pol v :
  resolve_lifetime life pol = Ok v → 0 < lim_MaxLifetimeSecs (pol_Limits pol) →
  0 < v ≤ lim_MaxLifetimeSecs (pol_Limits pol).
Proof. unfold resolve_lifetime. intros Hv. split_matches_in Hv; lia. Qed.

Lemma ResolveSchedule_ok s l v :
  ResolveSchedule s l = Ok v →
  (ss_EverySecs v = 0 ∧ ss_Keep v = 0 ∧ ss_EverySecs s = 0) ∨
  (lim_MinSnapshotEverySecs l ≤ ss_EverySecs v ∧ 0 < ss_EverySecs s ∧
   1 ≤ ss_Keep v ≤ lim_MaxSnapshotKeep l).
Proof.
  unfold ResolveSchedule. intros Hv. split_matches_in Hv; cbn [ss_EverySecs ss_Keep]; lia.
Qed.

Lemma ResolveIdleAction_ok a v :
  ResolveIdleAction a = Ok v → v = ""%string ∨ v = IdleSuspend ∧ a = IdleSuspend.
Proof.
  unfold ResolveIdleAction. destruct (_ || _); [intros [= <-]; by left|].
  destruct (String.eqb a IdleSuspend) eqn:E; [|done]. apply String.eqb_eq in E.
  intros [= <-]. by right.
Qed.

Lemma checkGPUs_ok req l :
  checkGPUs req l = Ok () → cr_GPUs req ≠ 0 →
  0 < cr_GPUs req ≤ lim_MaxGPUs l ∧ cr_IdleAction req ≠ IdleSuspend ∧
  cr_SnapshotEverySecs req ≤ 0 ∧ cr_SnapshotID req = ""%string.
Proof.
  unfold checkGPUs. intros Hok Hn. split_matches_in Hok; [lia|].
  bool_simpl. split_and!; try lia.
  - by apply String.eqb_neq.
  - by apply String.eqb_eq.
Qed.

Lemma CheckImage_ok img pol :
  CheckImage img pol = Ok () ↔ imageRE img = true ∧ (pol_Images pol = [] ∨ img ∈ pol_Images pol).
Proof.
  unfold CheckImage. rewrite guard_ok, reject_if_ok, negb_false_iff.
  repeat case_bool_decide; cbn; intuition congruence.
Qed.

Section order.
Context (range_lists : ∀ m, range m ≡ₚ map_to_list m).

Lemma ResolveEnv_ok env v :
  ResolveEnv env = Ok v →
  v = env ∧ ∀ k x, env !! k = Some x → envNameRE k = true ∧ IsReservedEnv k = false.
Proof.
  unfold ResolveEnv. intros ([] & Hc & [= <-])%bind_ok. split; [done|]. intros k x Hk.
  apply elem_of_map_to_list in Hk. rewrite <- (range_lists env) in Hk.
  pose proof (proj1 (check_each_ok _ _) Hc _ Hk) as Hok. cbn in Hok. unfold check_env in Hok.
  rewrite !guard_ok in Hok. destruct Hok as (H1 & H2 & _). apply negb_false_iff in H1. exact (conj H1 H2).
Qed.

(** Whatever [Resolve] grants lies within the policy: the image is one the
    policy permits; CPUs, memory, disk, idle timeout, lifetime, snapshot
    schedule and GPUs are within its limits; no environment variable is one
    the server reserves; the volumes neither coincide nor nest, in one another
    or in the system's directories; the network is what [resolveNetwork]
    granted; and a sandbox with GPUs neither suspends nor is captured. *)
Theorem resolve_within_policy req pol id s :
  Resolve req pol id = Ok s → within_policy req pol s ∧ bs_ID s = id.
Proof.
  unfold Resolve. intros ([] & _ & ([] & _ & Hs)%bind_ok)%bind_ok.
  apply bind_ok in Hs as ([] & Hv & Hs). apply bind_ok in Hs as ([] & Hi & Hs).
  rewrite !guard_ok in Hs. destruct Hs as (Hcpu & Hmem & Hdisk & Hs).
  apply bind_ok in Hs as ([] & Hg & Hs). apply bind_ok in Hs as (idle & Hidle & Hs).
  apply bind_ok in Hs as (action & Hact & Hs). apply bind_ok in Hs as (life & Hlife & Hs).
  apply bind_ok in Hs as (sched & Hsch & Hs). apply bind_ok in Hs as (env & Henv & Hs).
  apply bind_ok in Hs as (net & Hnet & [= <-]). split; [|done].
  apply CheckImage_ok in Hi. apply orb_false_iff in Hcpu.
  apply resolve_idle_ok in Hidle. apply ResolveIdleAction_ok in Hact.
  pose proof (resolve_lifetime_ok _ _ _ Hlife). apply ResolveSchedule_ok in Hsch.
  apply ResolveEnv_ok in Henv as [-> Henv]. cbn [ss_EverySecs ss_Keep] in Hsch.
  unfold ValidateVolumeMounts in Hv. rewrite guard_ok in Hv. destruct Hv as [Hn Hv].
  apply check_mounts_ok in Hv as [Hap Hok].
  constructor; cbn [bs_Image bs_CPUs bs_MemoryMB bs_DiskMB bs_Env bs_Network bs_IdleTimeoutSecs
    bs_IdleAction bs_LifetimeSecs bs_SnapshotEverySecs bs_SnapshotKeep bs_Volumes]; try tauto; try lia.
  - split_and!; [lia| |exact Hok]. intros i j a b Hij Hi' Hj. apply (Hap j a b Hj).
    cbn. apply list_elem_of_lookup. exists i. by rewrite lookup_take_lt.
  - intros Hgn. destruct (checkGPUs_ok _ _ Hg Hgn) as (? & Ha & ? & _). split_and!; [lia|lia| |lia].
    destruct Hact as [?|[_ ?]]; [done|contradiction].
Qed.

(** ** A policy that passes [Validate] *)
Lemma check_pools_limits p p' seen pools :
  pol_Images p = pol_Images p' → pol_DefaultImage p = pol_DefaultImage p' →
  check_pools p seen pools = check_pools p' seen pools.
Proof.
  intros Hi Hd. revert seen. induction pools as [|pl pools IH]; intros seen; [done|].
  cbn [check_pools]. unfold pool_image_of. rewrite Hi, Hd. by rewrite IH.
Qed.

Lemma resolve_mode_default n : resolve_mode (pn_Default n) n = np_Mode (pn_Default n).
Proof. unfold resolve_mode. by destruct (String.eqb (np_Mode (pn_Default n)) ""). Qed.

Lemma Validate_ok p :
  Validate p = Ok () →
  pol_DefaultImage p ≠ ""%string ∧ 0 ≤ NetworkRank (pn_Ceiling (pol_Network p)) ∧
  0 ≤ lim_MaxLifetimeSecs (pol_Limits p) ∧
  (∃ out, resolveNetwork (Some (pn_Default (pol_Network p))) (ceiling_only (pol_Network p)) = Ok out) ∧
  check_pools p [] (pol_Pools p) = Ok () ∧
  fleb (pol_DefaultCPUs p) fzero = false ∧
  fltb (lim_MaxCPUs (pol_Limits p)) (pol_DefaultCPUs p) = false ∧
  0 < pol_DefaultMemoryMB p ≤ lim_MaxMemoryMB (pol_Limits p) ∧
  0 < pol_DefaultDiskMB p ≤ lim_MaxDiskMB (pol_Limits p) ∧
  1 ≤ lim_MinSnapshotEverySecs (pol_Limits p) ∧ 0 ≤ lim_MaxSnapshotKeep (pol_Limits p) ∧
  0 ≤ lim_MinMetricsExportSecs (pol_Limits p).
Proof.
  unfold Validate. rewrite !guard_ok. intros (Hi & Hc & _ & Hl & Hv).
  apply bind_ok in Hv as ([] & Hnet & Hv). apply bind_ok in Hv as ([] & Hp & Hv).
  rewrite !guard_ok, reject_if_ok in Hv. destruct Hv as (Hr & Hs & Hm).
  destruct (resolveNetwork _ _) as [out|] eqn:E; [|done].
  apply String.eqb_neq in Hi. repeat (apply orb_false_iff in Hr as [Hr ?]).
  split_and!; try lia; try done; eauto.
Qed.

Lemma default_mode_rank n out :
  resolveNetwork (Some (pn_Default n)) n = Ok out →
  0 ≤ NetworkRank (np_Mode (pn_Default n)) ≤ NetworkRank (pn_Ceiling n).
Proof.
  intros (_ & _ & Hm & Hr & _)%resolveNetwork_ok. rewrite resolve_mode_default in Hm.
  by rewrite Hm in Hr.
Qed.

Lemma fleb_fltb_false a b : fleb a b = false → fltb a b = false.
Proof. unfold fleb, fltb, SFleb, SFltb. by destruct (SFcompare a b) as [[]|]. Qed.

(** A server whose policy passes [Validate], and whose default image its own
    image list permits, serves the request that asks for nothing: it gets the
    defaults, and its network is the default one, within the ceiling. *)
Theorem validated_policy_serves p id :
  Validate p = Ok () → CheckImage (pol_DefaultImage p) p = Ok () →
  ∃ s, Resolve empty_create p id = Ok s ∧ bs_Image s = pol_DefaultImage p ∧
    bs_CPUs s = pol_DefaultCPUs p ∧ bs_MemoryMB s = pol_DefaultMemoryMB p ∧
    bs_DiskMB s = pol_DefaultDiskMB p ∧
    np_Mode (bs_Network s) = np_Mode (pn_Default (pol_Network p)) ∧
    0 ≤ NetworkRank (np_Mode (bs_Network s)) ≤ NetworkRank (pn_Ceiling (pol_Network p)).
Proof.
  intros Hv Hi. apply Validate_ok in Hv
    as (_ & Hc & Hl & (out & Hnet) & _ & Hlow & Hhigh & Hmem & Hdisk & _).
  apply (default_mode_rank (ceiling_only (pol_Network p))) in Hnet.
  assert (range ∅ = []) as Hr.
  { apply Permutation_nil. by rewrite <- (map_to_list_empty (K:=string) (M:=gmap string)), range_lists. }
  assert ((pol_DefaultMemoryMB p <? 0) || (pol_DefaultMemoryMB p >? lim_MaxMemoryMB (pol_Limits p)) = false)
    as Hm by lia.
  assert ((pol_DefaultDiskMB p <? 0) || (pol_DefaultDiskMB p >? lim_MaxDiskMB (pol_Limits p)) = false)
    as Hd by lia.
  eexists. split.
  { unfold Resolve, ValidateLabels, ResolveEnv, empty_create.
    cbn [cr_Name cr_Labels cr_Volumes cr_Image cr_CPUs cr_MemoryMB cr_DiskMB cr_Env cr_Network
         cr_IdleTimeoutSecs cr_IdleAction cr_LifetimeSecs cr_SnapshotEverySecs cr_SnapshotKeep].
    rewrite Hr, map_size_empty. change (String.eqb "" "") with true. cbv iota. rewrite Hi.
    change (feqb fzero fzero) with true. unfold or_default.
    change (0 =? 0) with true. cbv iota.
    rewrite (fleb_fltb_false _ _ Hlow), Hhigh, Hm, Hd. reflexivity. }
  split_and!; [reflexivity..|exact (proj1 Hnet)|exact (proj2 Hnet)].
Qed.

(** ** Fitting a policy to a backend *)
Lemma guard_intro {E A} c (e : E) (r : result E A) v :
  c = false → r = Ok v → (reject_if c e ≫= λ _, r) = Ok v.
Proof. intros -> ->. done. Qed.

(** A looser or a stricter ceiling changes nothing for a mode beneath both. *)
Lemma resolve_under_ceiling p pol pol' out :
  pn_Default pol' = pn_Default pol → pn_MayAllow pol' = pn_MayAllow pol →
  NetworkRank (resolve_mode p pol) ≤ NetworkRank (pn_Ceiling pol') →
  resolveNetwork (Some p) pol = Ok out → resolveNetwork (Some p) pol' = Ok out.
Proof.
  intros Hd Hm Hr. unfold resolveNetwork, resolve_allow, defaultAllow.
  assert (resolve_mode p pol' = resolve_mode p pol) as -> by (unfold resolve_mode; by rewrite Hd).
  rewrite Hd, Hm, !guard_ok. intros (? & ? & _ & ?). split_and!; [done|done|lia|done].
Qed.

Lemma baseline_resolves :
  normalizeNames "allow" BaselineEgress = Ok (sort_stable str_ltb BaselineEgress).
Proof. vm_compute. reflexivity. Qed.

(** What fitting promises: the ceiling is not raised, the policy's own ceiling
    grants its default, and the backend enforces the default's mode. *)
Definition fitted (caps : gmap string bool) (n n' : PolicyNetwork) : Prop :=
  0 ≤ NetworkRank (pn_Ceiling n') ≤ NetworkRank (pn_Ceiling n) ∧
  (∃ out, resolveNetwork (Some (pn_Default n')) (ceiling_only n') = Ok out) ∧
  (np_Mode (pn_Default n') = NetworkAllowlist → caps_has caps CapEgressAllowlist = true) ∧
  (np_Mode (pn_Default n') = NetworkOpen → caps_has caps CapEgressOpen = true).

Lemma fitted_none caps n c may :
  0 ≤ NetworkRank c ≤ NetworkRank (pn_Ceiling n) →
  fitted caps n {| pn_Default := mode_only NetworkNone None; pn_Ceiling := c; pn_MayAllow := may |}.
Proof.
  intros Hc. split; [done|]. split; [|done]. eexists. unfold resolveNetwork.
  do 2 (apply guard_intro; [done|]).
  apply guard_intro; [cbn [ceiling_only pn_Ceiling]; change (NetworkRank (resolve_mode _ _)) with 0; lia|].
  reflexivity.
Qed.

Lemma fitted_baseline caps n may :
  NetworkRank (pn_Ceiling n) = 2 → caps_has caps CapEgressAllowlist = true →
  fitted caps n {| pn_Default := mode_only NetworkAllowlist (Some BaselineEgress);
                   pn_Ceiling := NetworkAllowlist; pn_MayAllow := may |}.
Proof.
  intros Hc Ha. split; [cbn [pn_Ceiling]; rewrite Hc; change (NetworkRank NetworkAllowlist) with 1; lia|].
  split; [|done]. eexists. vm_compute. reflexivity.
Qed.

Lemma fitted_default caps n c may :
  0 ≤ NetworkRank c ≤ NetworkRank (pn_Ceiling n) →
  NetworkRank (np_Mode (pn_Default n)) ≤ NetworkRank c →
  (∃ out, resolveNetwork (Some (pn_Default n)) (ceiling_only n) = Ok out) →
  (np_Mode (pn_Default n) = NetworkAllowlist → caps_has caps CapEgressAllowlist = true) →
  (np_Mode (pn_Default n) = NetworkOpen → caps_has caps CapEgressOpen = true) →
  fitted caps n {| pn_Default := pn_Default n; pn_Ceiling := c; pn_MayAllow := may |}.
Proof.
  intros Hc Hr [out Hout] Ha Ho. split; [done|]. split; [|done]. exists out.
  eapply resolve_under_ceiling; [..|exact Hout]; [done|done|].
  unfold resolve_mode; cbn [ceiling_only pn_Default pn_Ceiling].
  by destruct (String.eqb (np_Mode (pn_Default n)) "").
Qed.

Ltac ranks :=
  cbn [pn_Default pn_Ceiling]; change (NetworkRank NetworkNone) with 0 in *;
  change (NetworkRank NetworkAllowlist) with 1 in *; change (NetworkRank NetworkOpen) with 2 in *;
  try done; try lia.

Lemma fit_network_ok n caps :
  0 ≤ NetworkRank (pn_Ceiling n) →
  (∃ out, resolveNetwork (Some (pn_Default n)) (ceiling_only n) = Ok out) →
  fitted caps n (fit_network n caps).
Proof.
  intros Hc Hout.
  assert (0 ≤ NetworkRank (np_Mode (pn_Default n)) ≤ NetworkRank (pn_Ceiling n)) as Hr.
  { destruct Hout as [out Hout]. exact (default_mode_rank (ceiling_only n) out Hout). }
  destruct n as [d c may]. cbn [pn_Default pn_Ceiling] in *.
  assert (∀ m, np_Mode d = m → NetworkRank m ≤ NetworkRank c) as Hm by (intros m <-; lia).
  pose proof (Hm NetworkAllowlist) as Hal. pose proof (Hm NetworkOpen) as Hop.
  change (NetworkRank NetworkAllowlist) with 1 in Hal. change (NetworkRank NetworkOpen) with 2 in Hop.
  unfold fit_network. cbn [pn_Default pn_Ceiling pn_MayAllow]. change (NetworkRank NetworkNone) with 0.
  destruct (caps_has caps CapEgressAllowlist) eqn:Ea, (caps_has caps CapEgressOpen) eqn:Eo,
    (String.eqb_spec c NetworkOpen) as [->|Ec]; cbn [negb andb];
    try (change (NetworkRank NetworkOpen >? 0) with true; cbv iota).
  - apply (fitted_default caps (Build_PolicyNetwork d NetworkOpen may)); ranks.
  - apply (fitted_default caps (Build_PolicyNetwork d c may)); ranks.
  - destruct (String.eqb_spec (np_Mode d) NetworkOpen) as [E|E]; [by apply fitted_baseline|].
    apply (fitted_default caps (Build_PolicyNetwork d NetworkOpen may)); ranks.
    destruct (decide (NetworkRank (np_Mode d) = 2)) as [E2|E2]; [|lia].
    destruct E. apply NetworkRank_inj; [lia|done].
  - apply (fitted_default caps (Build_PolicyNetwork d c may)); ranks.
    intros Hd. destruct Ec. apply NetworkRank_inj; [lia|].
    pose proof (NetworkRank_range c). specialize (Hop Hd). ranks.
  - destruct (String.eqb_spec (np_Mode d) NetworkAllowlist) as [E|E]; [apply fitted_none; ranks|].
    apply (fitted_default caps (Build_PolicyNetwork d NetworkOpen may)); ranks.
  - destruct (Z.gtb_spec (NetworkRank c) 0); [apply fitted_none; ranks|].
    apply (fitted_default caps (Build_PolicyNetwork d c may)); ranks.
  - apply fitted_none; ranks.
  - destruct (Z.gtb_spec (NetworkRank c) 0); [apply fitted_none; ranks|].
    apply (fitted_default caps (Build_PolicyNetwork d c may)); ranks.
Qed.

Lemma limit_gpus_keeps l caps :
  lim_MaxCPUs (limit_gpus l caps) = lim_MaxCPUs l ∧
  lim_MaxMemoryMB (limit_gpus l caps) = lim_MaxMemoryMB l ∧
  lim_MaxDiskMB (limit_gpus l caps) = lim_MaxDiskMB l ∧
  lim_MaxLifetimeSecs (limit_gpus l caps) = lim_MaxLifetimeSecs l ∧
  lim_MinSnapshotEverySecs (limit_gpus l caps) = lim_MinSnapshotEverySecs l ∧
  lim_MaxSnapshotKeep (limit_gpus l caps) = lim_MaxSnapshotKeep l ∧
  lim_MinMetricsExportSecs (limit_gpus l caps) = lim_MinMetricsExportSecs l ∧
  (lim_MaxGPUs (limit_gpus l caps) = lim_MaxGPUs l ∨ lim_MaxGPUs (limit_gpus l caps) = 0).
Proof. unfold limit_gpus. destruct (caps_has caps CapGPU); cbn; tauto. Qed.

(** Fitting a valid policy to any backend gives a valid policy, which raises
    no ceiling, whose default mode that backend enforces, and which offers no
    GPU the backend has not. *)
Theorem fit_to_valid p caps :
  Validate p = Ok () →
  Validate (FitTo p caps) = Ok () ∧
  NetworkRank (pn_Ceiling (pol_Network (FitTo p caps))) ≤ NetworkRank (pn_Ceiling (pol_Network p)) ∧
  (np_Mode (pn_Default (pol_Network (FitTo p caps))) = NetworkAllowlist →
   caps_has caps CapEgressAllowlist = true) ∧
  (np_Mode (pn_Default (pol_Network (FitTo p caps))) = NetworkOpen →
   caps_has caps CapEgressOpen = true) ∧
  (caps_has caps CapGPU = false → lim_MaxGPUs (pol_Limits (FitTo p caps)) = 0).
Proof.
  intros Hv. pose proof (Validate_ok p Hv)
    as (_ & Hc & _ & Hnet & _). pose proof (fit_network_ok _ caps Hc Hnet) as (Hc' & Hnet' & Ha & Ho).
  split; [|split_and!; [apply Hc'|exact Ha|exact Ho|]].
  2: { intros Hg. cbn [FitTo pol_Limits]. unfold limit_gpus. by rewrite Hg. }
  destruct (limit_gpus_keeps (pol_Limits p) caps) as (L1 & L2 & L3 & L4 & L5 & L6 & L7 & L8).
  destruct Hnet' as [out Hout]. unfold Validate in *. rewrite !guard_ok in Hv.
  destruct Hv as (Hi & _ & Hg & Hl & Hv). apply bind_ok in Hv as ([] & _ & Hv).
  cbn [FitTo pol_DefaultImage pol_Images pol_DefaultCPUs pol_DefaultMemoryMB pol_DefaultDiskMB
       pol_Limits pol_Network pol_Pools].
  rewrite !guard_ok, L1, L2, L3, L4, L5, L6, L7, Hout. split_and!; [done|lia|lia|done|].
  rewrite (check_pools_limits _ p) by done. exact Hv.
Qed.
End order.
End resolve.

(** ** Witnesses *)
Definition listed (m : gmap string string) : list (string * string) := map_to_list m.

(** A policy that lets a request add names under example.com. *)
Definition strict_network : PolicyNetwork := {|
  pn_Default := mode_only NetworkAllowlist (Some ["pypi.org"%string]);
  pn_Ceiling := NetworkAllowlist; pn_MayAllow := ["*.example.com"%string] |}.

Definition asked_network : NetworkPolicy := {|
  np_Mode := NetworkAllowlist; np_Allow := Some ["PyPI.org."; "*.a.example.com"]%string;
  np_Deny := [" b.a.example.com"]%string; np_Groups := [] |}.


(** A request for two volumes, a GPU and an hour. *)
Definition asked : CreateSandboxRequest := {|
  cr_Name := "web"; cr_Image := ""; cr_CPUs := float_of_Z 2; cr_MemoryMB := 2048; cr_DiskMB := 0;
  cr_Env := {["LANG" := "C"]}; cr_Network := Some (mode_only NetworkNone None);
  cr_IdleTimeoutSecs := 600; cr_IdleAction := ""; cr_LifetimeSecs := 3600; cr_SnapshotID := "";
  cr_SnapshotEverySecs := 0; cr_SnapshotKeep := 0; cr_Labels := {["app" := "x"]};
  cr_Volumes := [{| vm_Name := "data"; vm_Path := "/data"; vm_ReadOnly := false |};
                 {| vm_Name := "cache"; vm_Path := "/data2/cache"; vm_ReadOnly := true |}];
  cr_RegistryLogin := None; cr_MetricsExport := None; cr_GPUs := 1 |}.

Definition granted : BackendSpec := {|
  bs_ID := "sbx_0"; bs_Image := DefaultImage; bs_CPUs := float_of_Z 2; bs_MemoryMB := 2048;
  bs_DiskMB := 10240; bs_Env := {["LANG" := "C"]}; bs_Network := mode_only NetworkNone None;
  bs_IdleTimeoutSecs := 600; bs_IdleAction := ""; bs_LifetimeSecs := 3600;
  bs_SnapshotEverySecs := 0; bs_SnapshotKeep := 0; bs_FromSnapshot := "";
  bs_Volumes := cr_Volumes asked; bs_GPUs := [] |}.

Lemma resolve_within_policy_witness :
  @Resolve ascii_unicode listed asked DefaultPolicy "sbx_0" = Ok granted ∧
  within_policy (H := ascii_unicode) asked DefaultPolicy granted.
Proof.
  assert (@Resolve ascii_unicode listed asked DefaultPolicy "sbx_0" = Ok granted) as H
    by (vm_compute; reflexivity).
  split; [exact H|].
  exact (proj1 (resolve_within_policy (H := ascii_unicode) listed (λ m, reflexivity _) _ _ _ _ H)).
Defined.

Lemma validated_policy_serves_witness :
  @Validate ascii_unicode DefaultPolicy = Ok () ∧
  ∃ s, @Resolve ascii_unicode listed empty_create DefaultPolicy "sbx_0" = Ok s ∧
    bs_Image s = DefaultImage.
Proof.
  assert (@Validate ascii_unicode DefaultPolicy = Ok ()) as H by (vm_compute; reflexivity).
  assert (CheckImage (pol_DefaultImage DefaultPolicy) DefaultPolicy = Ok ()) as Hi
    by (vm_compute; reflexivity).
  split; [exact H|].
  destruct (validated_policy_serves (H := ascii_unicode) listed (λ m, reflexivity _)
              DefaultPolicy "sbx_0" H Hi) as (s & Hs & Himg & _).
  exists s. exact (conj Hs Himg).
Defined.

Lemma fit_to_valid_witness :
  @Validate ascii_unicode DefaultPolicy = Ok () ∧
  @Validate ascii_unicode (FitTo DefaultPolicy {[CapEgressAllowlist := true]}) = Ok ().
Proof.
  assert (@Validate ascii_unicode DefaultPolicy = Ok ()) as H by (vm_compute; reflexivity).
  split; [exact H|].
  exact (proj1 (fit_to_valid (H := ascii_unicode) DefaultPolicy {[CapEgressAllowlist := true]} H)).
Defined.
