(* ===== verification/Records.v ===== *)
(** * The sandbox server's records (internal/server: server.go, gpu.go, volumes.go)

    What sandboxd keeps about each sandbox, the lookups over all of them, and
    the claims two sandboxes may not share: a name, a writable volume, a GPU.

    A record is shared: a handler holds a pointer to it across a call to the
    backend while others read and change it. Pointers are indices into
    [sv_heap], and [sandboxes] maps an id to one. Go visits a map in no order;
    [range] is the order of one visit, of which the theorems use only that it
    lists the map. *)
From S2P Require Import Prelude GoSort GoStrings Api EgressNames PolicyEnv Spec.

(** ** Changes to one sandbox *)
Definition set_ID (v : string) (sb : Sandbox) : Sandbox :=
  let '(Build_Sandbox _ nm st im cp me di en ne cr it ia sl li ex se sk la vo gp) := sb in
  Build_Sandbox v nm st im cp me di en ne cr it ia sl li ex se sk la vo gp.
Definition set_Name (v : string) (sb : Sandbox) : Sandbox :=
  let '(Build_Sandbox id _ st im cp me di en ne cr it ia sl li ex se sk la vo gp) := sb in
  Build_Sandbox id v st im cp me di en ne cr it ia sl li ex se sk la vo gp.
(** The state, and whether it is asleep for being idle. *)
Definition set_State (v : string) (idle : bool) (sb : Sandbox) : Sandbox :=
  let '(Build_Sandbox id nm _ im cp me di en ne cr it ia _ li ex se sk la vo gp) := sb in
  Build_Sandbox id nm v im cp me di en ne cr it ia idle li ex se sk la vo gp.
Definition set_Size (c : float64) (m d : Z) (sb : Sandbox) : Sandbox :=
  let '(Build_Sandbox id nm st im _ _ _ en ne cr it ia sl li ex se sk la vo gp) := sb in
  Build_Sandbox id nm st im c m d en ne cr it ia sl li ex se sk la vo gp.
Definition set_Network (v : NetworkPolicy) (sb : Sandbox) : Sandbox :=
  let '(Build_Sandbox id nm st im cp me di en _ cr it ia sl li ex se sk la vo gp) := sb in
  Build_Sandbox id nm st im cp me di en v cr it ia sl li ex se sk la vo gp.
Definition set_Idle (v : Z) (sb : Sandbox) : Sandbox :=
  let '(Build_Sandbox id nm st im cp me di en ne cr _ ia sl li ex se sk la vo gp) := sb in
  Build_Sandbox id nm st im cp me di en ne cr v ia sl li ex se sk la vo gp.
Definition set_IdleAction (v : string) (sb : Sandbox) : Sandbox :=
  let '(Build_Sandbox id nm st im cp me di en ne cr it _ sl li ex se sk la vo gp) := sb in
  Build_Sandbox id nm st im cp me di en ne cr it v sl li ex se sk la vo gp.
Definition set_Lifetime (v : Z) (at_ : option Z) (sb : Sandbox) : Sandbox :=
  let '(Build_Sandbox id nm st im cp me di en ne cr it ia sl _ _ se sk la vo gp) := sb in
  Build_Sandbox id nm st im cp me di en ne cr it ia sl v at_ se sk la vo gp.
Definition set_Schedule (every keep : Z) (sb : Sandbox) : Sandbox :=
  let '(Build_Sandbox id nm st im cp me di en ne cr it ia sl li ex _ _ la vo gp) := sb in
  Build_Sandbox id nm st im cp me di en ne cr it ia sl li ex every keep la vo gp.
Definition set_Labels (v : gmap string string) (sb : Sandbox) : Sandbox :=
  let '(Build_Sandbox id nm st im cp me di en ne cr it ia sl li ex se sk _ vo gp) := sb in
  Build_Sandbox id nm st im cp me di en ne cr it ia sl li ex se sk v vo gp.
Definition set_GPUs (v : list string) (sb : Sandbox) : Sandbox :=
  let '(Build_Sandbox id nm st im cp me di en ne cr it ia sl li ex se sk la vo _) := sb in
  Build_Sandbox id nm st im cp me di en ne cr it ia sl li ex se sk la vo v.

(** ** Processes and records *)
Definition ProcessRunning : string := "running".
Definition ProcessExited : string := "exited".

Record Process := {
  p_PID : Z;
  p_Tty : bool;
  p_Argv : list string;
  p_State : string;
  p_ExitCode : option Z;
  p_StartedAt : Z
}.

(** The stream to the process and its output log are modelled in GuestSession
    and OutputLog. *)
Record procRecord := {
  pr_info : Process;
  pr_session : string
}.

Definition proc_running (pr : procRecord) : bool := String.eqb (p_State (pr_info pr)) ProcessRunning.

(** [rec_Snapshotting] is whether [sbx.Snapshotting] is set: its progress
    decides nothing. Usage samples and the metrics export are left out. *)
Record record := {
  rec_sbx : Sandbox;
  rec_env : gmap string string;
  rec_procs : gmap Z procRecord;
  rec_nextPID : Z;
  rec_lastActive : Z;
  rec_lastScheduled : Z;
  rec_snapshotting : bool;
  rec_Snapshotting : bool
}.

Definition on_sbx (f : Sandbox → Sandbox) (r : record) : record := {|
  rec_sbx := f (rec_sbx r); rec_env := rec_env r; rec_procs := rec_procs r;
  rec_nextPID := rec_nextPID r; rec_lastActive := rec_lastActive r;
  rec_lastScheduled := rec_lastScheduled r; rec_snapshotting := rec_snapshotting r;
  rec_Snapshotting := rec_Snapshotting r |}.

Definition touch (now : Z) (r : record) : record := {|
  rec_sbx := rec_sbx r; rec_env := rec_env r; rec_procs := rec_procs r;
  rec_nextPID := rec_nextPID r; rec_lastActive := now;
  rec_lastScheduled := rec_lastScheduled r; rec_snapshotting := rec_snapshotting r;
  rec_Snapshotting := rec_Snapshotting r |}.

Definition set_procs (next : Z) (ps : gmap Z procRecord) (r : record) : record := {|
  rec_sbx := rec_sbx r; rec_env := rec_env r; rec_procs := ps;
  rec_nextPID := next; rec_lastActive := rec_lastActive r;
  rec_lastScheduled := rec_lastScheduled r; rec_snapshotting := rec_snapshotting r;
  rec_Snapshotting := rec_Snapshotting r |}.

Definition set_snap (last : Z) (sched progress : bool) (r : record) : record := {|
  rec_sbx := rec_sbx r; rec_env := rec_env r; rec_procs := rec_procs r;
  rec_nextPID := rec_nextPID r; rec_lastActive := rec_lastActive r;
  rec_lastScheduled := last; rec_snapshotting := sched; rec_Snapshotting := progress |}.

Definition state_of (r : record) : string := sb_State (rec_sbx r).
Definition is_state (r : record) (st : string) : bool := String.eqb (state_of r) st.
Definition is_live (r : record) : bool := negb (is_state r StateTerminated).

(** A process is running in it. *)
Definition busy (r : record) : bool :=
  existsb (λ kv, proc_running (snd kv)) (map_to_list (rec_procs r)).

(** ** Snapshots and pools *)
Record SnapshotInfo := {
  si_ID : string;
  si_Kind : string;
  si_Bytes : Z;
  si_Image : string;
  si_CPUs : float64;
  si_MemoryMB : Z;
  si_DiskMB : Z
}.

Record snapshotRecord := {
  snr_info : Snapshot;
  snr_spec : SnapshotInfo
}.

(** The key of a pool's shape; [poolKey] prints it. *)
Definition shape_key : Type := string * float64 * Z * Z * NetworkPolicy.

Record pool := {
  po_template : BackendSpec;
  po_key : option shape_key;
  po_ready : list string;
  po_filling : Z;
  po_size : Z;
  po_failures : Z
}.

(** ** The server *)
Record Server := {
  sv_heap : list record;
  sv_sandboxes : gmap string nat;
  sv_deleting : gset string;
  sv_resizing : gset string;
  sv_pools : list pool;
  sv_snapshots : gmap string snapshotRecord;
  sv_cordoned : bool
}.

Definition on_heap (f : list record → list record) (s : Server) : Server := {|
  sv_heap := f (sv_heap s); sv_sandboxes := sv_sandboxes s; sv_deleting := sv_deleting s;
  sv_resizing := sv_resizing s; sv_pools := sv_pools s; sv_snapshots := sv_snapshots s;
  sv_cordoned := sv_cordoned s |}.
(** [rec.mu.Lock(); ...; rec.mu.Unlock()] *)
Definition on_rec (l : nat) (f : record → record) : Server → Server := on_heap (alter f l).
Definition on_sandboxes (f : gmap string nat → gmap string nat) (s : Server) : Server := {|
  sv_heap := sv_heap s; sv_sandboxes := f (sv_sandboxes s); sv_deleting := sv_deleting s;
  sv_resizing := sv_resizing s; sv_pools := sv_pools s; sv_snapshots := sv_snapshots s;
  sv_cordoned := sv_cordoned s |}.
Definition on_deleting (f : gset string → gset string) (s : Server) : Server := {|
  sv_heap := sv_heap s; sv_sandboxes := sv_sandboxes s; sv_deleting := f (sv_deleting s);
  sv_resizing := sv_resizing s; sv_pools := sv_pools s; sv_snapshots := sv_snapshots s;
  sv_cordoned := sv_cordoned s |}.
Definition on_resizing (f : gset string → gset string) (s : Server) : Server := {|
  sv_heap := sv_heap s; sv_sandboxes := sv_sandboxes s; sv_deleting := sv_deleting s;
  sv_resizing := f (sv_resizing s); sv_pools := sv_pools s; sv_snapshots := sv_snapshots s;
  sv_cordoned := sv_cordoned s |}.
Definition on_pools (f : list pool → list pool) (s : Server) : Server := {|
  sv_heap := sv_heap s; sv_sandboxes := sv_sandboxes s; sv_deleting := sv_deleting s;
  sv_resizing := sv_resizing s; sv_pools := f (sv_pools s); sv_snapshots := sv_snapshots s;
  sv_cordoned := sv_cordoned s |}.
Definition on_snapshots (f : gmap string snapshotRecord → gmap string snapshotRecord) (s : Server)
    : Server := {|
  sv_heap := sv_heap s; sv_sandboxes := sv_sandboxes s; sv_deleting := sv_deleting s;
  sv_resizing := sv_resizing s; sv_pools := sv_pools s; sv_snapshots := f (sv_snapshots s);
  sv_cordoned := sv_cordoned s |}.
Definition cordon (c : bool) (s : Server) : Server := {|
  sv_heap := sv_heap s; sv_sandboxes := sv_sandboxes s; sv_deleting := sv_deleting s;
  sv_resizing := sv_resizing s; sv_pools := sv_pools s; sv_snapshots := sv_snapshots s;
  sv_cordoned := c |}.

(** What the server is configured with, and what its backend offers: its
    capabilities, and which of the optional interfaces it has. *)
Record Config := {
  cf_Policy : Policy;
  cf_NodeID : string;
  cf_Capacity : NodeResources;
  cf_GPUs : list string;
  cf_NodeLabels : gmap string string
}.

Class Backend := {
  be_caps : gmap string bool;
  be_Suspender : bool;
  be_SandboxResizer : bool;
  be_Snapshotter : bool;
  be_VolumeStore : bool;
  be_Keeper : bool
}.

Definition be_has `{Backend} (c : string) : bool := caps_has be_caps c.

(** ** Refusals *)
Inductive backend_error :=
| ErrNotFound | ErrIsDir | ErrNotDir | ErrNotEmpty | ErrReadOnly | ErrNoSuchCmd | ErrNoSuchCwd
| ErrBadSignal | ErrUnavailable | ErrBusy | ErrUnsupported | ErrNoSpace | ErrOther.
#[export] Instance backend_error_eq_dec : EqDecision backend_error.
Proof. solve_decision. Defined.

Inductive refusal :=
| no_such_sandbox | no_such_snapshot | no_volume (name : string)
| of_spec (e : spec_error) | of_backend (e : backend_error)
| not_running | suspended_first | not_suspended | terminated | processes_running
| name_exists (name : string) | volume_deleting (name : string) | volume_is_busy (name : string)
| volume_attached (name : string)
| snapshot_busy | snapshot_volumes | being_resized | fixed_by_snapshot (what : string)
| snapshot_and_volumes | nothing_to_update
| unsupported (what : string)
| cordoned | gpus_busy.

(** The status and the code of the answer, as [writeErr], [writeSpecErr] and
    [writeBackendErr] choose them. *)
Definition backend_status (e : backend_error) : Z * string :=
  match e with
  | ErrNotFound => (404, "not_found")
  | ErrIsDir | ErrNotDir | ErrNoSuchCmd | ErrNoSuchCwd | ErrBadSignal => (400, "invalid_request")
  | ErrNotEmpty | ErrReadOnly | ErrBusy => (409, "conflict")
  | ErrUnsupported => (501, "unsupported")
  | ErrNoSpace => (503, "unavailable")
  | ErrUnavailable | ErrOther => (500, "internal")
  end%string.

Definition spec_status (e : spec_error) : Z * string :=
  match e with
  | Refused _ => (403, "refused")
  | Invalid _ => (400, "invalid_request")
  end%string.

(** ** Lookups over every sandbox *)
Section records.
Context (range : gmap string nat → list (string * nat)).

(** Every registered sandbox: its key, its pointer, its record. *)
Definition entries (s : Server) : list (string * nat * record) :=
  omap (λ '(id, l), r ← sv_heap s !! l; Some (id, l, r)) (range (sv_sandboxes s)).

Definition named_live (name : string) (r : record) : bool :=
  String.eqb (sb_Name (rec_sbx r)) name && is_live r.

(** [createSandbox]'s look at the names in use. *)
Definition name_in_use (s : Server) (name : string) : bool :=
  existsb (λ '(_, _, r), named_live name r) (entries s).

Definition nameTakenLocked (s : Server) (name id : string) : bool :=
  if String.eqb name "" then false
  else existsb (λ '(oid, _, r), negb (String.eqb oid id) && named_live name r) (entries s).

(** [find]'s loop: a live sandbox of that name, or the newest that ended. *)
Fixpoint find_loop (ref : string) (best : option (nat * record))
    (es : list (string * nat * record)) : option nat :=
  match es with
  | [] => fst <$> best
  | (_, l, r) :: rest =>
      if String.eqb (sb_Name (rec_sbx r)) "" || negb (String.eqb (sb_Name (rec_sbx r)) ref)
      then find_loop ref best rest
      else if is_live r then Some l
      else
        let newer := match best with
                     | None => true
                     | Some (_, b) => sb_CreatedAt (rec_sbx r) >? sb_CreatedAt (rec_sbx b)
                     end in
        find_loop ref (if newer then Some (l, r) else best) rest
  end.

Definition find (s : Server) (ref : string) : option nat :=
  match sv_sandboxes s !! ref with
  | Some l => Some l
  | None => find_loop ref None (entries s)
  end.

(** A reference, resolved to its record. *)
Definition lookup_rec (s : Server) (ref : string) : result refusal (nat * record) :=
  l ← of_option (find s ref) no_such_sandbox;
  r ← of_option (sv_heap s !! l) no_such_sandbox;
  Ok (l, r).

Definition live (s : Server) (ref : string) : result refusal (nat * record) :=
  lr ← lookup_rec s ref;
  reject_if (negb (is_state (snd lr) StateRunning)) not_running;;
  Ok lr.

(** What [use] leaves to do before the request goes on. *)
Inductive used :=
| ready_now (l : nat)
| wake_first (l : nat).

(** The second component is the server with the request's activity recorded,
    which a refusal keeps. *)
Definition use (s : Server) (ref : string) (background : bool) (now : Z)
    : result refusal used * Server :=
  if background then
    (lr ← live s ref; Ok (ready_now (fst lr)), s)
  else
    match lookup_rec s ref with
    | Err e => (Err e, s)
    | Ok (l, r) =>
        (if is_state r StateRunning then Ok (ready_now l)
         else if is_state r StateSuspended && sb_IdleSuspended (rec_sbx r) then Ok (wake_first l)
         else if is_state r StateSuspended then Err suspended_first
         else Err not_running,
         on_rec l (touch now) s)
    end.

(** ** Volumes and GPUs *)

(** A live holder of a volume, or "", and whether one has it writable. *)
Definition holders (s : Server) (name : string) : string * bool :=
  foldl (λ acc '(_, _, r),
    if is_live r then
      foldl (λ '(id, writer) m,
        if String.eqb (vm_Name m) name
        then (if String.eqb id "" || negb (vm_ReadOnly m) then sb_ID (rec_sbx r) else id,
              writer || negb (vm_ReadOnly m))
        else (id, writer)) acc (sb_Volumes (rec_sbx r))
    else acc) (""%string, false) (entries s).

Definition attachedTo (s : Server) (name : string) : string := fst (holders s name).

Definition volumeBusy (s : Server) (m : VolumeMount) : bool :=
  let '(holder, writer) := holders s (vm_Name m) in
  if String.eqb holder "" then false
  else if writer then true
  else negb (vm_ReadOnly m).

(** The GPUs the sandboxes not yet terminated hold. *)
Definition gpus_held (s : Server) : list string :=
  concat ((λ '(_, _, r), if is_live r then sb_GPUs (rec_sbx r) else []) <$> entries s).

(** [gpu_ok] is the backend's word that a device is ready. *)
Definition freeGPUsOf (cf : Config) (gpu_ok : string → bool) (s : Server) : list string :=
  List.filter (λ g, negb (bool_decide (g ∈ gpus_held s)) && gpu_ok g) (cf_GPUs cf).

Definition freeGPUsLocked (cf : Config) (gpu_ok : string → bool) (s : Server) (n : Z)
    : result refusal (list string) :=
  let free := freeGPUsOf cf gpu_ok s in
  if Z.of_nat (length free) <? n then Err gpus_busy
  else Ok (take (Z.to_nat n) free).

(** ** What the lookups answer *)
Context (range_lists : ∀ m, range m ≡ₚ map_to_list m).

Lemma elem_of_entries s id l r :
  (id, l, r) ∈ entries s ↔ sv_sandboxes s !! id = Some l ∧ sv_heap s !! l = Some r.
Proof.
  unfold entries. rewrite list_elem_of_omap. split.
  - intros ([id' l'] & Hin & E). rewrite range_lists, elem_of_map_to_list in Hin.
    destruct (sv_heap s !! l') eqn:E'; cbn in E; by simplify_eq.
  - intros [Hs Hh]. exists (id, l). rewrite range_lists, elem_of_map_to_list. by rewrite Hh.
Qed.

(** A registered, live record. *)
Definition registered (s : Server) (id : string) (l : nat) (r : record) : Prop :=
  sv_sandboxes s !! id = Some l ∧ sv_heap s !! l = Some r ∧ is_live r = true.

Lemma nameTaken_spec s name id :
  nameTakenLocked s name id = true ↔
  name ≠ ""%string ∧ ∃ oid l r, oid ≠ id ∧ registered s oid l r ∧ sb_Name (rec_sbx r) = name.
Proof.
  unfold nameTakenLocked, registered, named_live. destruct (String.eqb_spec name "") as [->|Hn].
  { split; [done|]. by intros [? _]. }
  rewrite existsb_exists. split.
  - intros ([[oid l] r] & Hin & Hc). apply list_elem_of_In, elem_of_entries in Hin as [Hs Hh].
    rewrite !andb_true_iff, negb_true_iff in Hc. destruct Hc as (Ho & Hname & Hl).
    apply String.eqb_neq in Ho. apply String.eqb_eq in Hname. split; [done|].
    by exists oid, l, r.
  - intros (_ & oid & l & r & Ho & (Hs & Hh & Hl) & Hname). exists (oid, l, r).
    rewrite <- list_elem_of_In, elem_of_entries, !andb_true_iff, negb_true_iff. split; [done|].
    apply String.eqb_neq in Ho. apply String.eqb_eq in Hname. done.
Qed.

Lemma name_in_use_spec s name :
  name_in_use s name = true ↔ ∃ oid l r, registered s oid l r ∧ sb_Name (rec_sbx r) = name.
Proof.
  unfold name_in_use, registered, named_live. rewrite existsb_exists. split.
  - intros ([[oid l] r] & Hin & Hc). apply list_elem_of_In, elem_of_entries in Hin as [Hs Hh].
    rewrite andb_true_iff in Hc. destruct Hc as (Hname & Hl).
    apply String.eqb_eq in Hname. by exists oid, l, r.
  - intros (oid & l & r & (Hs & Hh & Hl) & Hname). exists (oid, l, r).
    rewrite <- list_elem_of_In, elem_of_entries, andb_true_iff. split; [done|].
    apply String.eqb_eq in Hname. done.
Qed.

Lemma gpus_held_spec s g :
  g ∈ gpus_held s ↔ ∃ id l r, registered s id l r ∧ g ∈ sb_GPUs (rec_sbx r).
Proof.
  unfold gpus_held, registered. rewrite list_elem_of_In, in_concat. split.
  - intros (gs & Hgs & Hg). apply list_elem_of_In, list_elem_of_fmap in Hgs
      as ([[id l] r] & -> & Hin).
    apply elem_of_entries in Hin as [Hs Hh]. apply list_elem_of_In in Hg.
    destruct (is_live r) eqn:El; [|by apply not_elem_of_nil in Hg]. by exists id, l, r.
  - intros (id & l & r & (Hs & Hh & Hl) & Hg). exists (sb_GPUs (rec_sbx r)).
    rewrite <- !list_elem_of_In. split; [|done]. apply list_elem_of_fmap.
    exists (id, l, r). rewrite Hl, elem_of_entries. done.
Qed.

(** The fold over one sandbox's mounts. *)
Lemma mounts_fold name sid ms : ∀ acc,
  let acc' := foldl (λ '(id, writer) m,
        if String.eqb (vm_Name m) name
        then (if String.eqb id "" || negb (vm_ReadOnly m) then sid else id,
              writer || negb (vm_ReadOnly m))
        else (id, writer)) acc ms in
  sid ≠ ""%string →
  (fst acc' = ""%string ↔ fst acc = ""%string ∧ ∀ m, m ∈ ms → vm_Name m ≠ name) ∧
  (snd acc' = true ↔ snd acc = true ∨ ∃ m, m ∈ ms ∧ vm_Name m = name ∧ vm_ReadOnly m = false).
Proof.
  induction ms as [|m ms IH]; intros [id writer] acc' Hsid; subst acc'; cbn [foldl fst snd].
  - split; [|split; [by left|]].
    + split; [|tauto]. intros ->. split; [done|]. intros m Hm. by apply not_elem_of_nil in Hm.
    + intros [?|(m & Hm & _)]; [done|]. by apply not_elem_of_nil in Hm.
  - edestruct IH as [H1 H2]; [done|]. rewrite H1, H2. clear IH H1 H2.
    setoid_rewrite elem_of_cons. destruct (String.eqb_spec (vm_Name m) name) as [E|E]; cbn [fst snd].
    + split.
      * split; [|intros [_ Hall]; by destruct (Hall m (or_introl eq_refl))].
        intros [Hid _]. exfalso. destruct (String.eqb_spec id ""); cbn in Hid; [done|].
        by destruct (vm_ReadOnly m).
      * rewrite orb_true_iff, negb_true_iff. naive_solver.
    + naive_solver.
Qed.

(** A live sandbox has the volume mounted, writable where [w]. *)
Definition held (s : Server) (name : string) (w : bool) : Prop :=
  ∃ id l r m, registered s id l r ∧ m ∈ sb_Volumes (rec_sbx r) ∧ vm_Name m = name ∧
    (w = true → vm_ReadOnly m = false).

Definition ids_named (s : Server) : Prop :=
  ∀ id l r, registered s id l r → sb_ID (rec_sbx r) ≠ ""%string.

Lemma holders_spec s name :
  ids_named s →
  (fst (holders s name) = ""%string ↔ ¬ held s name false) ∧
  (snd (holders s name) = true ↔ held s name true).
Proof.
  intros Hids. unfold holders.
  assert (∀ es acc, (∀ x, x ∈ es → x ∈ entries s) →
    let acc' := foldl (λ acc '(_, _, r),
      if is_live r then
        foldl (λ '(id, writer) m,
          if String.eqb (vm_Name m) name
          then (if String.eqb id "" || negb (vm_ReadOnly m) then sb_ID (rec_sbx r) else id,
                writer || negb (vm_ReadOnly m))
          else (id, writer)) acc (sb_Volumes (rec_sbx r))
      else acc) acc es in
    (fst acc' = ""%string ↔ fst acc = ""%string ∧ ∀ id l r m, (id, l, r) ∈ es → is_live r = true →
       m ∈ sb_Volumes (rec_sbx r) → vm_Name m ≠ name) ∧
    (snd acc' = true ↔ snd acc = true ∨ ∃ id l r m, (id, l, r) ∈ es ∧ is_live r = true ∧
       m ∈ sb_Volumes (rec_sbx r) ∧ vm_Name m = name ∧ vm_ReadOnly m = false)) as Hfold.
  { induction es as [|[[id l] r] es IH]; intros acc Hes; cbn [foldl].
    - setoid_rewrite elem_of_nil. naive_solver.
    - edestruct IH as [H1 H2]; [intros x Hx; apply Hes; by right|]. cbv zeta. rewrite H1, H2.
      clear IH H1 H2. setoid_rewrite elem_of_cons. destruct (is_live r) eqn:El.
      + destruct (mounts_fold name (sb_ID (rec_sbx r)) (sb_Volumes (rec_sbx r)) acc) as [H1 H2].
        { apply (Hids id l). specialize (Hes (id, l, r) ltac:(by left)).
          by apply elem_of_entries in Hes as [? ?]. }
        cbv zeta in H1, H2. rewrite H1, H2. split; split.
        * intros [[Ha Hm] Hall]. split; [done|]. intros id' l' r' m [[= -> -> ->]|Hin]; eauto.
        * intros [Ha Hall]. split_and!; [done| |]; eauto.
        * intros [[Ha|(m & Hm & Hn & Hro)]|(id' & l' & r' & m & ?)]; [by left| |].
          -- right. exists id, l, r, m. tauto.
          -- right. exists id', l', r', m. tauto.
        * intros [Ha|(id' & l' & r' & m & [[= -> -> ->]|Hin] & Hl & Hm & Hn & Hro)]; [by left; left| |].
          -- left; right. by exists m.
          -- right. by exists id', l', r', m.
      + split; split.
        * intros [Ha Hall]. split; [done|]. intros id' l' r' m [[= -> -> ->]|Hin] Hl; [congruence|].
          by eapply Hall.
        * intros [Ha Hall]. split; [done|]. eauto.
        * intros [Ha|(id' & l' & r' & m & ?)]; [by left|]. right. exists id', l', r', m. tauto.
        * intros [Ha|(id' & l' & r' & m & [[= -> -> ->]|Hin] & Hl & Hx)]; [by left|congruence|].
          right. by exists id', l', r', m. }
  destruct (Hfold (entries s) (""%string, false) ltac:(done)) as [H1 H2]. cbv zeta in H1, H2.
  unfold held, registered. rewrite H1, H2. cbn [fst snd]. setoid_rewrite elem_of_entries. split; split.
  - intros [_ Hall] (id & l & r & m & (Hs & Hh & Hl) & Hm & Hn & _). by eapply Hall.
  - intros Hno. split; [done|]. intros id l r m [Hs Hh] Hl Hm Hn. apply Hno. exists id, l, r, m. done.
  - intros [?|(id & l & r & m & [Hs Hh] & Hl & Hm & Hn & Hro)]; [done|]. by exists id, l, r, m.
  - intros (id & l & r & m & (Hs & Hh & Hl) & Hm & Hn & Hro). right. exists id, l, r, m. specialize (Hro eq_refl). tauto.
Qed.

Lemma volumeBusy_false s m :
  ids_named s →
  volumeBusy s m = false ↔
  ¬ held s (vm_Name m) true ∧ (vm_ReadOnly m = true ∨ ¬ held s (vm_Name m) false).
Proof.
  intros Hids. destruct (holders_spec s (vm_Name m) Hids) as [H1 H2]. unfold volumeBusy.
  destruct (holders s (vm_Name m)) as [h w]. cbn [fst snd] in *.
  assert (held s (vm_Name m) true → held s (vm_Name m) false) as Hw.
  { intros (id & l & r & m' & Hr & Hm & Hn & _). by exists id, l, r, m'. }
  destruct (String.eqb_spec h "") as [->|Hh].
  - split; [|done]. intros _. pose proof (proj1 H1 eq_refl). tauto.
  - destruct w.
    + split; [done|]. intros [Hno _]. destruct Hno. by apply H2.
    + rewrite negb_false_iff. split; [intros Hr; split; [|by left]|].
      * intros Ht. by apply H2 in Ht.
      * intros [_ [?|Hno]]; [done|]. destruct Hh. by apply H1.
Qed.

Lemma free_gpus_spec cf gpu_ok s g :
  g ∈ freeGPUsOf cf gpu_ok s ↔
  g ∈ cf_GPUs cf ∧ gpu_ok g = true ∧ ∀ id l r, registered s id l r → g ∉ sb_GPUs (rec_sbx r).
Proof.
  unfold freeGPUsOf. rewrite elem_of_bfilter, andb_true_iff, negb_true_iff, bool_decide_eq_false,
    gpus_held_spec. naive_solver.
Qed.
End records.
