(* ===== verification/Sandboxes.v ===== *)
(** * The sandbox server's handlers (internal/server: server.go, lifecycle.go,
    schedule.go, pool.go)

    A handler holds its locks for a few lines at a time and calls the backend
    between them. Each definition here is one such section: what runs before a
    backend call, and what runs on its answer. Daemon puts them together, one
    after another and interleaved. Audit events, log lines and the records on
    disk (Keep) change nothing here and are left out, and so is the metrics
    export: [export] is its check's answer. *)
From S2P Require Import Prelude GoSort GoStrings Api EgressNames PolicyEnv Spec Records.

Definition req_with_shape (img : string) (c : float64) (m d : Z) (q : CreateSandboxRequest)
    : CreateSandboxRequest :=
  let '(Build_CreateSandboxRequest nm _ _ _ _ en ne it ia li sn se sk la vo rl me gp) := q in
  Build_CreateSandboxRequest nm img c m d en ne it ia li sn se sk la vo rl me gp.

Definition spec_from (snap : string) (b : BackendSpec) : BackendSpec :=
  let '(Build_BackendSpec id im cp me di en ne it ia li se sk _ vo gp) := b in
  Build_BackendSpec id im cp me di en ne it ia li se sk snap vo gp.
Definition spec_gpus (gpus : list string) (b : BackendSpec) : BackendSpec :=
  let '(Build_BackendSpec id im cp me di en ne it ia li se sk fs vo _) := b in
  Build_BackendSpec id im cp me di en ne it ia li se sk fs vo gpus.

Definition lift_spec {A} (r : result spec_error A) : result refusal A :=
  match r with Ok v => Ok v | Err e => Err (of_spec e) end.

Definition keepTerminated : nat := 100.

(** [strings.ContainsAny]. *)
Definition contains_any (s : string) (cs : list ascii) : bool :=
  existsb (λ c, bool_decide (c ∈ cs)) (chars s).

Section handlers.
Context `{Unicode} `{Backend} (cf : Config).
Context (range : gmap string nat → list (string * nat)).
Context (range_env : gmap string string → list (string * string)).

(** ** What the endpoint offers *)
Definition canSuspend : bool := be_Suspender && be_has CapSuspend.
Definition canSnapshot : bool := be_has CapMemorySnapshot || be_has CapDiskSnapshot.
Definition servesGPUs : bool := be_has CapGPU && negb (bool_decide (cf_GPUs cf = [])).

Definition canEnforce (p : NetworkPolicy) : result refusal () :=
  reject_if (String.eqb (np_Mode p) NetworkAllowlist && negb (be_has CapEgressAllowlist))
    (unsupported "egress allowlist");;
  reject_if (String.eqb (np_Mode p) NetworkOpen && negb (be_has CapEgressOpen))
    (unsupported "open egress").

Definition scheduleRefusal (sched : SnapshotSchedule) (volumes : list VolumeMount)
    : result refusal () :=
  if ss_EverySecs sched =? 0 then Ok ()
  else
    reject_if (negb be_Snapshotter || negb canSnapshot) (unsupported "snapshot schedule");;
    reject_if (negb (bool_decide (volumes = []))) snapshot_volumes.

Definition volumeStore : result refusal () :=
  reject_if (negb be_VolumeStore || negb (be_has CapVolumes)) (unsupported "volumes").

(** [have] is the backend's list of volumes. *)
Definition volumesExist (have : result backend_error (list string)) (mounts : list VolumeMount)
    : result refusal () :=
  volumeStore;;
  match have with
  | Err e => Err (of_backend e)
  | Ok known =>
      match List.find (λ m, negb (bool_decide (vm_Name m ∈ known))) mounts with
      | Some m => Err (no_volume (vm_Name m))
      | None => Ok ()
      end
  end.

Definition checkRegistryLogin (l : RegistryLogin) : bool :=
  if String.eqb (rl_Registry l) "" || (strlen (rl_Registry l) >? 255) ||
     contains_any (rl_Registry l) ["/"; " "; "009"; "013"; "010"; "000"]%char then false
  else if String.eqb (rl_Username l) "" || (strlen (rl_Username l) >? 256) ||
     contains_any (rl_Username l) [":"; "013"; "010"; "000"]%char then false
  else if String.eqb (rl_Password l) "" || (strlen (rl_Password l) >? 8192) ||
     contains_any (rl_Password l) ["013"; "010"; "000"]%char then false
  else true.

(** ** Create *)

(** A snapshot fixes what was captured: image and resources of one with
    memory, the image of one of files only. *)
Definition fromSnapshot (snaps : gmap string snapshotRecord) (q : CreateSandboxRequest)
    : result refusal CreateSandboxRequest :=
  rec ← of_option (snaps !! cr_SnapshotID q) no_such_snapshot;
  let sp := snr_spec rec in
  if String.eqb (sn_Kind (snr_info rec)) SnapshotDisk then
    reject_if (negb (String.eqb (cr_Image q) "") && negb (String.eqb (cr_Image q) (si_Image sp)))
      (fixed_by_snapshot "image");;
    Ok (req_with_shape (si_Image sp)
          (if feqb (cr_CPUs q) fzero then si_CPUs sp else cr_CPUs q)
          (or_default (cr_MemoryMB q) (si_MemoryMB sp))
          (or_default (cr_DiskMB q) (si_DiskMB sp)) q)
  else
    reject_if (negb (String.eqb (cr_Image q) "") && negb (String.eqb (cr_Image q) (si_Image sp)))
      (fixed_by_snapshot "image");;
    reject_if (negb (feqb (cr_CPUs q) fzero) && negb (feqb (cr_CPUs q) (si_CPUs sp)))
      (fixed_by_snapshot "cpus");;
    reject_if (negb (cr_MemoryMB q =? 0) && negb (cr_MemoryMB q =? si_MemoryMB sp))
      (fixed_by_snapshot "memory_mb");;
    reject_if (negb (cr_DiskMB q =? 0) && negb (cr_DiskMB q =? si_DiskMB sp))
      (fixed_by_snapshot "disk_mb");;
    Ok (req_with_shape (si_Image sp) (si_CPUs sp) (si_MemoryMB sp) (si_DiskMB sp) q).

(** Everything [createSandbox] checks before it takes the server's lock. *)
Definition resolve_create (snaps : gmap string snapshotRecord) (q : CreateSandboxRequest)
    (id : string) (export : result refusal ()) (have : result backend_error (list string))
    : result refusal BackendSpec :=
  match cr_RegistryLogin q with
  | None => Ok ()
  | Some l =>
      reject_if (negb (be_has CapRegistryLogin)) (unsupported "registry login");;
      reject_if (negb (checkRegistryLogin l)) (unsupported "this registry login")
  end;;
  q ← (if String.eqb (cr_SnapshotID q) "" then Ok q
       else reject_if (negb canSnapshot) (unsupported "start from a snapshot");;
            fromSnapshot snaps q);
  reject_if ((cr_GPUs q >? 0) && negb servesGPUs) (unsupported "GPUs");;
  bs ← lift_spec (Resolve range_env q (cf_Policy cf) id);
  canEnforce (bs_Network bs);;
  let bs := spec_from (cr_SnapshotID q) bs in
  export;;
  reject_if (String.eqb (bs_IdleAction bs) IdleSuspend && negb canSuspend) (unsupported "suspend");;
  scheduleRefusal {| ss_EverySecs := bs_SnapshotEverySecs bs; ss_Keep := bs_SnapshotKeep bs |}
    (bs_Volumes bs);;
  (if bool_decide (bs_Volumes bs = []) then Ok ()
   else reject_if (negb (String.eqb (bs_FromSnapshot bs) "")) snapshot_and_volumes;;
        volumesExist have (bs_Volumes bs));;
  Ok bs.

(** When a lifetime ends: [created.Add(time.Duration(life) * time.Second)]. *)
Definition expiry (created life : Z) : Z := created + secs life.

Definition sortedKeys (m : gmap string string) : list string :=
  sort_stable str_ltb (fst <$> range_env m).

Definition new_record (q : CreateSandboxRequest) (bs : BackendSpec) (now : Z) : record := {|
  rec_sbx := {|
    sb_ID := bs_ID bs; sb_Name := cr_Name q; sb_State := StatePending; sb_Image := bs_Image bs;
    sb_CPUs := bs_CPUs bs; sb_MemoryMB := bs_MemoryMB bs; sb_DiskMB := bs_DiskMB bs;
    sb_EnvNames := sortedKeys (bs_Env bs); sb_Network := bs_Network bs; sb_CreatedAt := now;
    sb_IdleTimeoutSecs := bs_IdleTimeoutSecs bs; sb_IdleAction := bs_IdleAction bs;
    sb_IdleSuspended := false; sb_LifetimeSecs := bs_LifetimeSecs bs;
    sb_ExpiresAt := if bs_LifetimeSecs bs >? 0 then Some (expiry now (bs_LifetimeSecs bs)) else None;
    sb_SnapshotEverySecs := bs_SnapshotEverySecs bs; sb_SnapshotKeep := bs_SnapshotKeep bs;
    sb_Labels := cr_Labels q; sb_Volumes := bs_Volumes bs; sb_GPUs := [] |};
  rec_env := bs_Env bs; rec_procs := ∅; rec_nextPID := 0; rec_lastActive := now;
  rec_lastScheduled := now; rec_snapshotting := false; rec_Snapshotting := false |}.

(** The volumes of a create, one after another: none being deleted, none
    held in a way that excludes this mount. *)
Fixpoint claim_volumes (s : Server) (mounts : list VolumeMount) : result refusal () :=
  match mounts with
  | [] => Ok ()
  | m :: rest =>
      reject_if (bool_decide (vm_Name m ∈ sv_deleting s)) (volume_deleting (vm_Name m));;
      reject_if (volumeBusy range s m) (volume_is_busy (vm_Name m));;
      claim_volumes s rest
  end.

(** [createSandbox] under the server's lock: the record is registered with its
    name, volumes and GPUs claimed, or nothing is. *)
Definition register (s : Server) (q : CreateSandboxRequest) (bs : BackendSpec) (rec : record)
    (gpu_ok : string → bool) : result refusal (Server * BackendSpec) :=
  reject_if (sv_cordoned s) cordoned;;
  reject_if (negb (String.eqb (cr_Name q) "") && name_in_use range s (cr_Name q))
    (name_exists (cr_Name q));;
  claim_volumes s (bs_Volumes bs);;
  gpus ← (if cr_GPUs q >? 0 then freeGPUsLocked range cf gpu_ok s (cr_GPUs q) else Ok []);
  let l := length (sv_heap s) in
  Ok (on_sandboxes <[bs_ID bs := l]> (on_heap (λ h, h ++ [on_sbx (set_GPUs gpus) rec]) s),
      spec_gpus gpus bs).

(** *** Pools *)
Definition poolKey (b : BackendSpec) : option shape_key :=
  if negb (String.eqb (bs_FromSnapshot b) "") || negb (bool_decide (bs_Volumes b = [])) ||
     negb (bool_decide (bs_GPUs b = []))
  then None
  else match bs_CPUs b with
       | S754_nan | S754_infinity _ => None  (* JSON has no such number: the key is empty *)
       | c => Some (bs_Image b, c, bs_MemoryMB b, bs_DiskMB b, bs_Network b)
       end.

Definition pool_ready (ids : list string) (p : pool) : pool := {|
  po_template := po_template p; po_key := po_key p; po_ready := ids; po_filling := po_filling p;
  po_size := po_size p; po_failures := po_failures p |}.

(** The first pool of the shape decides: its first ready sandbox, or none. *)
Fixpoint claim_from (key : shape_key) (ps : list pool) : option (string * list pool) :=
  match ps with
  | [] => None
  | p :: rest =>
      if bool_decide (po_key p = Some key) then
        match po_ready p with
        | [] => None
        | id :: ids => Some (id, pool_ready ids p :: rest)
        end
      else '(id, rest) ← claim_from key rest; Some (id, p :: rest)
  end.

Definition claimPooled (bs : BackendSpec) (ps : list pool) : option (string * list pool) :=
  key ← poolKey bs; claim_from key ps.

(** The record moves to the pooled sandbox's id. *)
Definition move_to_pooled (l : nat) (id pooled : string) (s : Server) : Server :=
  on_sandboxes (λ m, <[pooled := l]> (delete id m)) (on_rec l (on_sbx (set_ID pooled)) s).

Definition create_failed (id : string) (s : Server) : Server := on_sandboxes (delete id) s.

Definition created (l : nat) : Server → Server :=
  on_rec l (on_sbx (λ sb, set_State StateRunning (sb_IdleSuspended sb) sb)).

(** [createSandbox] with nothing in between: [boot] is the backend's answer. *)
Definition createSandbox (s : Server) (q : CreateSandboxRequest) (id : string) (now : Z)
    (export : result refusal ()) (have : result backend_error (list string))
    (gpu_ok : string → bool) (boot : option backend_error) : result refusal nat * Server :=
  match bs ← resolve_create (sv_snapshots s) q id export have;
        register s q bs (new_record q bs now) gpu_ok with
  | Err e => (Err e, s)
  | Ok (s', bs) =>
      let l := length (sv_heap s) in
      match claimPooled bs (sv_pools s') with
      | Some (pooled, ps) => (Ok l, created l (move_to_pooled l id pooled (on_pools (λ _, ps) s')))
      | None =>
          match boot with
          | None => (Ok l, created l s')
          | Some e => (Err (of_backend e), create_failed id s')
          end
      end
  end.

(** Filling a pool: one more sandbox on its way, then ready or failed. *)
Definition may_fill (p : pool) : bool := Z.of_nat (length (po_ready p)) + po_filling p <? po_size p.

Definition fill_begin (p : pool) : option pool :=
  if may_fill p then
    Some {| po_template := po_template p; po_key := po_key p; po_ready := po_ready p;
            po_filling := po_filling p + 1; po_size := po_size p; po_failures := po_failures p |}
  else None.

Definition fill_delay (p : pool) : Z :=
  if po_failures p >? 0 then Z.min (po_failures p) 6 * 5 * second else 0.

Definition fill_end (p : pool) (id : string) (err : option backend_error) : pool := {|
  po_template := po_template p; po_key := po_key p;
  po_ready := match err with None => po_ready p ++ [id] | Some _ => po_ready p end;
  po_filling := po_filling p - 1; po_size := po_size p;
  po_failures := match err with None => 0 | Some _ => po_failures p + 1 end |}.

(** ** Suspend, resume, wake *)
Definition suspend_begin (s : Server) (ref : string) : result refusal nat :=
  reject_if (negb be_Suspender || negb (be_has CapSuspend)) (unsupported "suspend");;
  lr ← live range s ref;
  reject_if (negb (bool_decide (sb_GPUs (rec_sbx (snd lr)) = []))) (unsupported "suspend with GPUs");;
  reject_if (busy (snd lr)) processes_running;;
  Ok (fst lr).

(** The backend suspended it: for a request, or for being idle. *)
Definition suspended (l : nat) (idle : bool) : Server → Server :=
  on_rec l (on_sbx (set_State StateSuspended idle)).

Definition resume_begin (s : Server) (ref : string) : result refusal nat :=
  reject_if (negb be_Suspender) (unsupported "resume");;
  lr ← lookup_rec range s ref;
  reject_if (negb (is_state (snd lr) StateSuspended)) not_suspended;;
  Ok (fst lr).

Definition resumed (l : nat) (now : Z) : Server → Server :=
  on_rec l (λ r, touch now (on_sbx (set_State StateRunning false) r)).

(** [None]: it is running already. *)
Definition wake_begin (s : Server) (l : nat) : result refusal (option nat) :=
  match sv_heap s !! l with
  | None => Err not_running
  | Some r =>
      if is_state r StateRunning then Ok None
      else if negb (is_state r StateSuspended) || negb (sb_IdleSuspended (rec_sbx r))
      then Err not_running
      else if negb be_Suspender then Err not_running
      else Ok (Some l)
  end.

(** What an idle timeout is measured by: the time since the last activity. *)
Definition idle_for (r : record) (now : Z) : bool :=
  secs (sb_IdleTimeoutSecs (rec_sbx r)) <=? time_sub now (rec_lastActive r).

(** [idleSuspend]'s second look. *)
Definition idle_begin (s : Server) (l : nat) (now : Z) : bool :=
  be_Suspender &&
  match sv_heap s !! l with
  | None => false
  | Some r =>
      negb (negb (is_state r StateRunning) || negb (String.eqb (sb_IdleAction (rec_sbx r)) IdleSuspend)
            || (sb_IdleTimeoutSecs (rec_sbx r) <=? 0) || negb (idle_for r now) || busy r)
  end.

(** ** Resize *)

(** [None]: the sandbox has that size. The backend is told whether it may
    restart the sandbox. *)
Definition resize_begin (s : Server) (l : nat) (q : ResizeSandboxRequest)
    : result refusal (option (string * NodeResources * bool) * Server) :=
  r ← of_option (sv_heap s !! l) no_such_sandbox;
  let sb := rec_sbx r in
  reject_if (negb (bool_decide (sb_GPUs sb = []))) (unsupported "resize with GPUs");;
  let was := {| nr_CPUs := sb_CPUs sb; nr_MemoryMB := sb_MemoryMB sb; nr_DiskMB := sb_DiskMB sb;
                nr_GPUs := 0 |} in
  size ← lift_spec (ResolveResize q was (cf_Policy cf));
  if feqb (nr_CPUs size) (nr_CPUs was) && (nr_MemoryMB size =? nr_MemoryMB was) &&
     (nr_DiskMB size =? nr_DiskMB was) then Ok (None, s)
  else
    reject_if (busy r && (negb (feqb (nr_CPUs size) (nr_CPUs was)) ||
                          negb (nr_MemoryMB size =? nr_MemoryMB was))) processes_running;;
    reject_if (bool_decide (sb_ID sb ∈ sv_resizing s)) being_resized;;
    Ok (Some (sb_ID sb, size, negb (busy r)), on_resizing (λ x, {[sb_ID sb]} ∪ x) s).

(** The handler's way to its record: refused where the endpoint cannot, then a
    use of the sandbox. *)
Definition resize_use (s : Server) (ref : string) (background : bool) (now : Z)
    : result refusal used * Server :=
  if negb be_SandboxResizer || negb (be_has CapResize) then (Err (unsupported "resize"), s)
  else use range s ref background now.

Definition no_resources (n : NodeResources) : bool :=
  feqb (nr_CPUs n) fzero && (nr_MemoryMB n =? 0) && (nr_DiskMB n =? 0) && (nr_GPUs n =? 0).

(** The record follows the backend: [got] is the size it answers with, error or
    not, and a size of nothing is none. Busy with processes running changes
    nothing. *)
Definition resize_end (l : nat) (id : string) (was got : NodeResources) (may_restart : bool)
    (err : option backend_error) (now : Z) (s : Server) : Server :=
  let s := on_resizing (λ x, x ∖ {[id]}) s in
  if bool_decide (err = Some ErrBusy) && negb may_restart then s
  else
    let n := if no_resources got then was else got in
    on_rec l (λ r, touch now (on_sbx (set_Size (nr_CPUs n) (nr_MemoryMB n) (nr_DiskMB n)) r)) s.

(** ** Terminate, and forgetting what ended *)

(** [None]: it has ended already. *)
Definition terminate_begin (s : Server) (ref : string) : result refusal (option (nat * string)) :=
  lr ← lookup_rec range s ref;
  Ok (if is_live (snd lr) then Some (fst lr, sb_ID (rec_sbx (snd lr))) else None).

Definition terminated_now (l : nat) : Server → Server :=
  on_rec l (on_sbx (λ sb, set_State StateTerminated (sb_IdleSuspended sb) sb)).

Definition dead (s : Server) : list Sandbox :=
  omap (λ '(_, _, r), if is_live r then None else Some (rec_sbx r)) (entries range s).

(** [sort.Slice] leaves equal times in any order, and Go visits the map in any:
    the stable sort of what [range] lists stands for both. *)
Definition forgetOldTerminated (s : Server) : Server :=
  let sorted := sort_stable (λ a b, sb_CreatedAt a <? sb_CreatedAt b) (dead s) in
  if (length sorted <=? keepTerminated)%nat then s
  else on_sandboxes (λ m, foldl (λ m sb, delete (sb_ID sb) m) m
                            (take (length sorted - keepTerminated) sorted)) s.

(** ** The reaper *)
Inductive reaped := reap_lifetime | reap_idle | reap_suspend.

(** A running process is activity. *)
Definition reap_touch (now : Z) (r : record) : record := if busy r then touch now r else r.

Definition expired (r : record) (now : Z) : bool :=
  match sb_ExpiresAt (rec_sbx r) with
  | Some at_ => (at_ <=? now) && (is_state r StateRunning || is_state r StateSuspended)
  | None => false
  end.

(** What one look of the reaper decides of a record it has touched. *)
Definition reap_verdict (now : Z) (r : record) : option reaped :=
  if expired r now then Some reap_lifetime
  else if is_state r StateRunning && (sb_IdleTimeoutSecs (rec_sbx r) >? 0) && idle_for r now then
    if String.eqb (sb_IdleAction (rec_sbx r)) IdleSuspend && canSuspend
    then Some reap_suspend else Some reap_idle
  else None.

Definition reap_scan (now : Z) (s : Server) : list (nat * reaped) * Server :=
  (omap (λ '(_, l, r), v ← reap_verdict now (reap_touch now r); Some (l, v)) (entries range s),
   foldl (λ s '(_, l, _), on_rec l (reap_touch now) s) s (entries range s)).

(** ** Update *)
Record checked_update := {
  cu_idle : option Z;
  cu_action : option string;
  cu_life : option Z
}.

Definition check_opt {A B} (f : A → result refusal B) (o : option A) : result refusal (option B) :=
  match o with None => Ok None | Some x => y ← f x; Ok (Some y) end.

Definition no_changes (q : UpdateSandboxRequest) : bool :=
  match up_Network q, up_Name q, up_Labels q, up_IdleTimeoutSecs q, up_IdleAction q,
        up_LifetimeSecs q, up_MetricsExport q with
  | None, None, None, None, None, None, None => true
  | _, _, _, _, _, _, _ => false
  end.

Definition update_action (r : record) (a : string) : result refusal string :=
  action ← lift_spec (ResolveIdleAction a);
  reject_if (String.eqb action IdleSuspend && negb canSuspend) (unsupported "suspend");;
  reject_if (String.eqb action IdleSuspend && negb (bool_decide (sb_GPUs (rec_sbx r) = [])))
    (unsupported "suspend with GPUs");;
  Ok action.

(** Everything [updateSandbox] checks before it changes anything. *)
Definition check_update (s : Server) (r : record) (q : UpdateSandboxRequest)
    (export : result refusal ()) : result refusal (checked_update * option NetworkPolicy) :=
  reject_if (negb (is_live r)) terminated;;
  reject_if (match up_Network q with Some _ => negb (is_state r StateRunning) | None => false end)
    not_running;;
  check_opt (λ n, lift_spec (CheckName n)) (up_Name q);;
  check_opt (λ ls, lift_spec (ValidateLabels range_env ls)) (up_Labels q);;
  idle ← check_opt (λ n, lift_spec (ResolveIdleUpdate n (cf_Policy cf))) (up_IdleTimeoutSecs q);
  action ← check_opt (update_action r) (up_IdleAction q);
  life ← check_opt (λ n, lift_spec (ResolveLifetimeUpdate n (cf_Policy cf))) (up_LifetimeSecs q);
  match up_MetricsExport q with None => Ok () | Some _ => export end;;
  reject_if (match up_Name q with
             | Some n => nameTakenLocked range s n (sb_ID (rec_sbx r))
             | None => false
             end) (name_exists (default ""%string (up_Name q)));;
  net ← check_opt (λ p,
          reject_if (negb (be_has CapNetworkPolicyUpdate)) (unsupported "network update");;
          pol ← lift_spec (ResolveNetworkUpdate (Some p) (cf_Policy cf));
          canEnforce pol;; Ok pol) (up_Network q);
  Ok ({| cu_idle := idle; cu_action := action; cu_life := life |}, net).

Definition opt_apply {A} (f : A → Sandbox → Sandbox) (o : option A) (sb : Sandbox) : Sandbox :=
  match o with Some v => f v sb | None => sb end.

(** The changes to the server's own records of a sandbox. *)
Definition updated (q : UpdateSandboxRequest) (c : checked_update) (sb : Sandbox) : Sandbox :=
  opt_apply (λ life sb, set_Lifetime life (Some (expiry (sb_CreatedAt sb) life)) sb) (cu_life c)
    (opt_apply set_IdleAction (cu_action c)
       (opt_apply set_Idle (cu_idle c)
          (opt_apply set_Labels (up_Labels q)
             (opt_apply set_Name (up_Name q) sb)))).

Definition records_changed (q : UpdateSandboxRequest) : bool :=
  match up_Name q, up_Labels q, up_IdleTimeoutSecs q, up_IdleAction q, up_LifetimeSecs q,
        up_MetricsExport q with
  | None, None, None, None, None, None => false
  | _, _, _, _, _, _ => true
  end.

(** The last section, under the server's lock, with the name checked again. *)
Definition apply_update (l : nat) (id : string) (q : UpdateSandboxRequest) (c : checked_update)
    (s : Server) : result refusal Server :=
  if records_changed q then
    reject_if (match up_Name q with Some n => nameTakenLocked range s n id | None => false end)
      (name_exists (default ""%string (up_Name q)));;
    Ok (on_rec l (on_sbx (updated q c)) s)
  else Ok s.

Definition apply_network (l : nat) (pol : NetworkPolicy) : Server → Server :=
  on_rec l (on_sbx (set_Network pol)).

(** [updateSandbox] with nothing in between: [answer] is the backend's to the
    new network. *)
Definition updateSandbox (s : Server) (ref : string) (q : UpdateSandboxRequest) (background : bool)
    (now : Z) (export : result refusal ()) (answer : option backend_error)
    : result refusal () * Server :=
  if no_changes q then (Err nothing_to_update, s)
  else match lookup_rec range s ref with
  | Err e => (Err e, s)
  | Ok (l, r) =>
      let s := if background then s else on_rec l (touch now) s in
      match check_update s r q export with
      | Err e => (Err e, s)
      | Ok (c, net) =>
          match net, answer with
          | Some _, Some e => (Err (of_backend e), s)
          | _, _ =>
              let s := match net with Some pol => apply_network l pol s | None => s end in
              match apply_update l (sb_ID (rec_sbx r)) q c s with
              | Err e => (Err e, s)
              | Ok s' => (Ok (), s')
              end
          end
      end
  end.

(** ** Processes *)
Definition checkGuestPath (p : string) : bool :=
  negb (String.eqb p "") && has_prefix p "/" && negb (contains_char "000" p) &&
  negb (existsb (λ el, String.eqb el "..") (split "/" p)).

Record RunRequest := {
  run_Argv : list string;
  run_Env : gmap string string;
  run_Cwd : string;
  run_Tty : bool
}.

Inductive run_refusal := argv_required | argv_nul | bad_cwd | bad_run_env (e : spec_error).

(** What [start] checks, and the environment it starts the process with: the
    request's over the sandbox's. *)
Definition start_check (r : record) (q : RunRequest) : result run_refusal (gmap string string) :=
  match run_Argv q with
  | [] => Err argv_required
  | a :: rest =>
      reject_if (String.eqb a "") argv_required;;
      reject_if (existsb (contains_char "000") (a :: rest)) argv_nul;;
      reject_if (negb (String.eqb (run_Cwd q) "") && negb (checkGuestPath (run_Cwd q))) bad_cwd;;
      match ResolveEnv range_env (run_Env q) with
      | Err e => Err (bad_run_env e)
      | Ok extra => Ok (extra ∪ rec_env r)
      end
  end.

(** The backend started it: it gets the next number. *)
Definition process_started (session : string) (q : RunRequest) (now : Z) (r : record) : record :=
  let pid := int_add (rec_nextPID r) 1 in
  set_procs pid
    (<[pid := {| pr_info := {| p_PID := pid; p_Tty := run_Tty q; p_Argv := run_Argv q;
                               p_State := ProcessRunning; p_ExitCode := None; p_StartedAt := now |};
                 pr_session := session |}]> (rec_procs r)) r.

(** [watchProcess]: it exited. *)
Definition exit_process (code : Z) (pr : procRecord) : procRecord := {|
  pr_info := {| p_PID := p_PID (pr_info pr); p_Tty := p_Tty (pr_info pr); p_Argv := p_Argv (pr_info pr);
                p_State := ProcessExited; p_ExitCode := Some code;
                p_StartedAt := p_StartedAt (pr_info pr) |};
  pr_session := pr_session pr |}.
Definition process_exited (pid code : Z) (r : record) : record :=
  set_procs (rec_nextPID r) (alter (exit_process code) pid (rec_procs r)) r.

(** ** Volumes *)
Definition delete_volume_begin (s : Server) (name : string) : result refusal Server :=
  volumeStore;;
  reject_if (negb (ValidName name)) (no_volume name);;
  reject_if (negb (String.eqb (attachedTo range s name) "")) (volume_attached name);;
  Ok (on_deleting (λ d, {[name]} ∪ d) s).
Definition delete_volume_end (name : string) : Server → Server := on_deleting (λ d, d ∖ {[name]}).

(** ** What a create that is admitted can be given *)

(** A create is admitted only with controls this endpoint can deliver: its
    network mode is one the backend enforces, it sleeps when idle only where
    the backend suspends, it is captured on a schedule or from a snapshot only
    where the backend captures and without volumes, and every volume it mounts
    exists. *)
Theorem create_only_deliverable snaps q id export have bs :
  resolve_create snaps q id export have = Ok bs →
  (np_Mode (bs_Network bs) = NetworkAllowlist → be_has CapEgressAllowlist = true) ∧
  (np_Mode (bs_Network bs) = NetworkOpen → be_has CapEgressOpen = true) ∧
  (bs_IdleAction bs = IdleSuspend → canSuspend = true) ∧
  (bs_SnapshotEverySecs bs ≠ 0 → be_Snapshotter = true ∧ canSnapshot = true ∧ bs_Volumes bs = []) ∧
  (bs_FromSnapshot bs ≠ ""%string → canSnapshot = true ∧ bs_Volumes bs = []) ∧
  (bs_Volumes bs ≠ [] → ∃ known, have = Ok known ∧
     ∀ m, m ∈ bs_Volumes bs → vm_Name m ∈ known).
Proof.
  unfold resolve_create. intros ([] & _ & Hq)%bind_ok. apply bind_ok in Hq as (q' & Hsnap & Hq).
  apply guard_ok in Hq as [_ Hq]. apply bind_ok in Hq as (b & _ & Hq).
  apply bind_ok in Hq as ([] & Hnet & Hq). cbv zeta in Hq. apply bind_ok in Hq as ([] & _ & Hq).
  apply guard_ok in Hq as [Hidle Hq]. apply bind_ok in Hq as ([] & Hsched & Hq).
  apply bind_ok in Hq as ([] & Hvol & [= <-]).
  unfold canEnforce in Hnet. rewrite guard_ok, reject_if_ok in Hnet. destruct Hnet as [Hal Hop].
  assert (bs_Network b = bs_Network (spec_from (cr_SnapshotID q') b)) as En by by destruct b.
  rewrite <- En. unfold scheduleRefusal in Hsched. cbn [ss_EverySecs] in Hsched. split_and!.
  - intros Hm. apply String.eqb_eq in Hm. rewrite Hm in Hal. by apply negb_false_iff.
  - intros Hm. apply String.eqb_eq in Hm. rewrite Hm in Hop. by apply negb_false_iff.
  - intros Hm. apply String.eqb_eq in Hm. rewrite Hm in Hidle. by apply negb_false_iff.
  - intros Hm. destruct (Z.eqb_spec (bs_SnapshotEverySecs (spec_from (cr_SnapshotID q') b)) 0); [done|].
    rewrite guard_ok, reject_if_ok in Hsched. destruct Hsched as [Hc Hv].
    apply orb_false_iff in Hc as [H1%negb_false_iff H2%negb_false_iff].
    apply negb_false_iff, bool_decide_eq_true in Hv. done.
  - intros Hf. split.
    + assert (cr_SnapshotID q ≠ ""%string) as Hid.
      { intros E. rewrite E in Hsnap. cbn in Hsnap. simplify_eq. apply Hf. by destruct b. }
      apply String.eqb_neq in Hid. rewrite Hid in Hsnap. apply guard_ok in Hsnap as [Hc _].
      by apply negb_false_iff.
    + case_bool_decide as Hb; [done|]. rewrite guard_ok in Hvol. destruct Hvol as [Hc _].
      by apply negb_false_iff, String.eqb_eq in Hc.
  - intros Hb. rewrite bool_decide_eq_false_2 in Hvol by done. rewrite guard_ok in Hvol.
    destruct Hvol as [_ Hvol]. unfold volumesExist in Hvol. apply bind_ok in Hvol as ([] & _ & Hvol).
    destruct have as [known|]; [|done]. exists known. split; [done|]. intros m Hm.
    destruct (List.find _ _) eqn:Ef; [done|].
    pose proof (List.find_none _ _ Ef m (proj1 (list_elem_of_In _ _) Hm)) as Hk. cbv beta in Hk.
    by apply negb_false_iff, bool_decide_eq_true in Hk.
Qed.

(** ** When a sandbox ends *)
Definition max_secs : Z := 9223372036.

Lemma secs_exact n : 0 ≤ n ≤ max_secs → secs n = n * second.
Proof.
  intros Hn. unfold secs. apply wrap64_id. unfold in_int64, min_int64, max_int64, max_secs, second in *. lia.
Qed.

Lemma secs_wraps n : max_secs < n ≤ 2 * max_secs → secs n < 0.
Proof.
  intros Hn. unfold secs, wrap64, max_secs, second in *.
  replace ((n * 10 ^ 9 + 2 ^ 63) mod 2 ^ 64) with (n * 10 ^ 9 + 2 ^ 63 - 2 ^ 64); [lia|].
  apply (Z.mod_unique _ _ 1); lia.
Qed.

(** A sandbox ends its lifetime after its creation, to the second, exactly
    while the lifetime is at most 9223372036 s; one second more, and up to
    twice that, the product of durations wraps and the end is before the
    creation, so the reaper ends the sandbox at its next look. *)
Theorem lifetime_bounds now life r :
  0 < life ≤ 2 * max_secs → sb_ExpiresAt (rec_sbx r) = Some (expiry now life) →
  state_of r = StateRunning →
  (life ≤ max_secs → ∀ t, expired r t = true ↔ now + life * second ≤ t) ∧
  (max_secs < life → expired r now = true).
Proof.
  intros Hlife Hex Hst. unfold expired, is_state. rewrite Hex, Hst.
  change (String.eqb StateRunning StateRunning) with true. cbn [orb].
  unfold expiry. split.
  - intros Hle t. rewrite andb_true_r, secs_exact by lia. lia.
  - intros Hgt. pose proof (secs_wraps life ltac:(lia)). lia.
Qed.

(** The reaper ends a sandbox only at its lifetime, or when it has been
    running, without a running process and untouched, for at least its idle
    timeout; where it asked to sleep and the backend can suspend it is put to
    sleep instead, and then never ended for being idle. *)
Theorem reaper_spec now r v :
  sb_IdleTimeoutSecs (rec_sbx r) ≤ max_secs → in_int64 (now - rec_lastActive r) →
  reap_verdict now (reap_touch now r) = Some v →
  match v with
  | reap_lifetime => expired r now = true
  | _ => expired r now = false ∧ state_of r = StateRunning ∧ busy r = false ∧
      0 < sb_IdleTimeoutSecs (rec_sbx r) ∧
      sb_IdleTimeoutSecs (rec_sbx r) * second ≤ now - rec_lastActive r ∧
      (v = reap_suspend ↔ sb_IdleAction (rec_sbx r) = IdleSuspend ∧ canSuspend = true)
  end.
Proof.
  intros Hmax Hin. unfold reap_verdict.
  assert (rec_sbx (reap_touch now r) = rec_sbx r) as Esb by (unfold reap_touch; by destruct (busy r)).
  assert (expired (reap_touch now r) now = expired r now) as -> by
    (unfold expired, is_state, state_of; by rewrite Esb).
  unfold is_state, state_of. rewrite Esb. destruct (expired r now) eqn:Ee; [by intros [= <-]|].
  destruct (_ && _ && _) eqn:Ec; [|done]. rewrite !andb_true_iff in Ec. destruct Ec as [[Hst Hpos] Hidle].
  apply String.eqb_eq in Hst.
  assert (busy r = false ∧ sb_IdleTimeoutSecs (rec_sbx r) * second ≤ now - rec_lastActive r) as [Hb Hi].
  { unfold idle_for in Hidle. rewrite Esb, secs_exact in Hidle by lia.
    unfold reap_touch in Hidle. unfold time_sub, in_int64, min_int64, max_int64, second in *.
    destruct (busy r); cbn [touch rec_lastActive] in Hidle; lia. }
  destruct (String.eqb_spec (sb_IdleAction (rec_sbx r)) IdleSuspend) as [Ea|Ea], canSuspend eqn:Ecs;
    cbn [andb]; intros [= <-]; split_and!; try done; try lia; naive_solver.
Qed.
End handlers.

(** ** An update, all or nothing *)
Section update.
Context `{Unicode} `{Backend} (cf : Config).
Context (range : gmap string nat → list (string * nat)).
Context (range_env : gmap string string → list (string * string)).
Context (range_lists : ∀ m, range m ≡ₚ map_to_list m).

Lemma entries_on_rec l f s :
  entries range (on_rec l f s) =
  (λ '(id, l', r), (id, l', if decide (l = l') then f r else r)) <$> entries range s.
Proof.
  unfold entries. cbn [on_rec on_heap sv_heap sv_sandboxes].
  induction (range (sv_sandboxes s)) as [|[id l'] t IH]; [done|]. cbn [omap list_omap].
  rewrite list_lookup_alter.
  destruct (decide (l = l')) as [->|]; destruct (sv_heap s !! l') as [r|]; cbn; rewrite <- IH;
    [by rewrite decide_True|done|by rewrite decide_False|done].
Qed.

Lemma nameTaken_on_rec l f s name id :
  (∀ r, sb_Name (rec_sbx (f r)) = sb_Name (rec_sbx r) ∧ is_live (f r) = is_live r) →
  nameTakenLocked range (on_rec l f s) name id = nameTakenLocked range s name id.
Proof.
  intros Hf. unfold nameTakenLocked. destruct (String.eqb name ""); [done|].
  rewrite entries_on_rec. induction (entries range s) as [|[[oid l'] r] t IH]; [done|].
  cbn. rewrite IH. f_equal. unfold named_live. case_decide; [|done]. by destruct (Hf r) as [-> ->].
Qed.

Lemma updated_nothing s r q export c net sb :
  check_update cf range range_env s r q export = Ok (c, net) → records_changed q = false →
  updated q c sb = sb.
Proof.
  unfold check_update, records_changed, updated. rewrite !guard_ok. intros (_ & _ & Hc) Hq.
  do 2 (apply bind_ok in Hc as (? & _ & Hc)). apply bind_ok in Hc as (idle & Hi & Hc).
  apply bind_ok in Hc as (action & Ha & Hc). apply bind_ok in Hc as (life & Hl & Hc).
  apply bind_ok in Hc as (? & _ & Hc). apply guard_ok in Hc as [_ Hc].
  apply bind_ok in Hc as (n & _ & [= <- <-]).
  destruct (up_Name q), (up_Labels q), (up_IdleTimeoutSecs q), (up_IdleAction q),
    (up_LifetimeSecs q), (up_MetricsExport q); try done; cbn in Hi, Ha, Hl; by simplify_eq.
Qed.

(** An update is all or nothing: refused, for whatever reason and whatever
    else it asked, it has changed no sandbox, only when this one was last
    used; granted, it has made every change it asked for. *)
Theorem update_all_or_nothing s ref q background now export answer res s' :
  updateSandbox cf range range_env s ref q background now export answer = (res, s') →
  match res with
  | Err _ => s' = s ∨ ∃ l, s' = on_rec l (touch now) s
  | Ok _ => ∃ l r c net, lookup_rec range s ref = Ok (l, r) ∧
      check_update cf range range_env (if background then s else on_rec l (touch now) s) r q export
        = Ok (c, net) ∧
      ∃ r', sv_heap s' !! l = Some r' ∧
        rec_sbx r' = updated q c (opt_apply set_Network net (rec_sbx r))
  end.
Proof.
  unfold updateSandbox. destruct (no_changes q); [intros [= <- <-]; by left|].
  destruct (lookup_rec range s ref) as [[l r]|e] eqn:El; [|intros [= <- <-]; by left].
  set (s1 := if background then s else _).
  assert (s1 = s ∨ ∃ l, s1 = on_rec l (touch now) s) as Hs1.
  { subst s1. destruct background; [by left|right; eauto]. }
  destruct (check_update _ _ _ s1 r q export) as [[c net]|e] eqn:Ec; [|by intros [= <- <-]].
  assert (∃ r1, sv_heap s1 !! l = Some r1 ∧ rec_sbx r1 = rec_sbx r) as (r1 & Hr1 & Esb).
  { assert (sv_heap s !! l = Some r) as Hr.
    { unfold lookup_rec in El. apply bind_ok in El as (l' & _ & El).
      apply bind_ok in El as (r' & Hr' & [= -> ->]). by apply of_option_ok in Hr'. }
    subst s1. destruct background; [by exists r|]. exists (touch now r). cbn.
    rewrite list_lookup_alter, decide_True, Hr by done. done. }
  set (s2 := match net with Some pol => apply_network l pol s1 | None => s1 end).
  assert (apply_update range l (sb_ID (rec_sbx r)) q c s2 =
          Ok (if records_changed q then on_rec l (on_sbx (updated q c)) s2 else s2)) as Ha.
  { unfold apply_update. destruct (records_changed q); [|done].
    assert (match up_Name q with
            | Some n => nameTakenLocked range s2 n (sb_ID (rec_sbx r))
            | None => false
            end = false) as ->; [|done].
    unfold check_update in Ec. rewrite !guard_ok in Ec. destruct Ec as (_ & _ & Ec).
    do 6 (apply bind_ok in Ec as (? & _ & Ec)). apply guard_ok in Ec as [Hn _].
    destruct (up_Name q) as [n|]; [|done]. rewrite <- Hn. subst s2. destruct net; [|done].
    apply nameTaken_on_rec. intros r0. unfold is_live, is_state, state_of. cbn [on_sbx rec_sbx].
    by destruct (rec_sbx r0). }
  assert (∃ r2, sv_heap (if records_changed q then on_rec l (on_sbx (updated q c)) s2 else s2) !! l = Some r2 ∧
          rec_sbx r2 = updated q c (opt_apply set_Network net (rec_sbx r))) as (r2 & Hr2 & Er2).
  { assert (∃ r2, sv_heap s2 !! l = Some r2 ∧ rec_sbx r2 = opt_apply set_Network net (rec_sbx r))
      as (r2 & Hr2 & Er2).
    { subst s2. destruct net as [pol|]; cbn; [|exists r1; by rewrite Hr1].
      exists (on_sbx (set_Network pol) r1). rewrite list_lookup_alter, decide_True, Hr1 by done.
      cbn. by rewrite Esb. }
    destruct (records_changed q) eqn:Erc.
    - exists (on_sbx (updated q c) r2). cbn. rewrite list_lookup_alter, decide_True, Hr2 by done.
      cbn. by rewrite Er2.
    - exists r2. split; [done|]. by rewrite (updated_nothing _ _ _ _ _ _ _ Ec). }
  destruct net as [pol|], answer as [e|]; try (intros [= <- <-]; exact Hs1);
    fold s2; rewrite Ha; intros [= <- <-]; exists l, r, c; eexists; split_and!; eauto.
Qed.
End update.
