(* ===== verification/Captures.v ===== *)
(** * Snapshots, by request and on a schedule (internal/server: lifecycle.go,
    schedule.go)

    Retention is the schedule's: it removes only what a schedule took, and
    keeps the newest. [sort.Slice] leaves equal times in any order, so the
    order it leaves is an argument, of which the theorems use that it is
    sorted. *)
From S2P Require Import Prelude GoSort GoStrings Api EgressNames PolicyEnv Spec Records Sandboxes.

Section captures.
Context `{Unicode} `{Backend} (cf : Config).
Context (range : gmap string nat → list (string * nat)).

(** ** Taking one *)
Definition take_begin (s : Server) (l : nat) : result refusal (string * Server) :=
  reject_if (negb be_Snapshotter) (of_backend ErrUnsupported);;
  r ← of_option (sv_heap s !! l) no_such_sandbox;
  reject_if (negb (bool_decide (sb_Volumes (rec_sbx r) = []))) snapshot_volumes;;
  reject_if (negb (bool_decide (sb_GPUs (rec_sbx r) = []))) (unsupported "snapshot with GPUs");;
  reject_if (rec_Snapshotting r) snapshot_busy;;
  Ok (sb_ID (rec_sbx r),
      on_rec l (λ r, set_snap (rec_lastScheduled r) (rec_snapshotting r) true r) s).

(** The request's handler: refused where the endpoint cannot, then a use of the
    sandbox. *)
Definition createSnapshot_use (s : Server) (ref : string) (background : bool) (now : Z)
    : result refusal used * Server :=
  if negb be_Snapshotter || negb canSnapshot then (Err (unsupported "snapshot"), s)
  else use range s ref background now.

Definition taken (id sandbox image : string) (scheduled : bool) (info : SnapshotInfo) (now : Z)
    : snapshotRecord :=
  let kind := if String.eqb (si_Kind info) "" then SnapshotMemory else si_Kind info in
  {| snr_info := {| sn_ID := id; sn_Sandbox := sandbox; sn_Image := image; sn_Kind := kind;
                    sn_Scheduled := scheduled; sn_Bytes := si_Bytes info; sn_CreatedAt := now |};
     snr_spec := {| si_ID := si_ID info; si_Kind := kind; si_Bytes := si_Bytes info;
                    si_Image := si_Image info; si_CPUs := si_CPUs info;
                    si_MemoryMB := si_MemoryMB info; si_DiskMB := si_DiskMB info |} |}.

(** The backend's answer: the snapshot is recorded where it was taken, and the
    sandbox is no longer being captured either way. *)
Definition take_end (l : nat) (id sandbox image : string) (scheduled : bool)
    (answer : result backend_error SnapshotInfo) (now : Z) (s : Server) : Server :=
  on_rec l (λ r, set_snap (rec_lastScheduled r) (rec_snapshotting r) false r)
    (match answer with
     | Ok info => on_snapshots <[id := taken id sandbox image scheduled info now]> s
     | Err _ => s
     end).

(** ** The schedule *)
Definition setSnapshotSchedule (s : Server) (ref : string) (q : SnapshotSchedule) (now : Z)
    : result refusal (nat * SnapshotSchedule) * Server :=
  match
    sched ← lift_spec (ResolveSchedule q (pol_Limits (cf_Policy cf)));
    lr ← live range s ref;
    scheduleRefusal sched (sb_Volumes (rec_sbx (snd lr)));;
    reject_if ((ss_EverySecs sched >? 0) && negb (bool_decide (sb_GPUs (rec_sbx (snd lr)) = [])))
      (unsupported "snapshot with GPUs");;
    Ok (fst lr, sched)
  with
  | Err e => (Err e, s)
  | Ok (l, sched) =>
      (Ok (l, sched),
       on_rec l (λ r, set_snap now (rec_snapshotting r) (rec_Snapshotting r)
                        (on_sbx (set_Schedule (ss_EverySecs sched) (ss_Keep sched)) r)) s)
  end.

(** One sandbox, at one tick. *)
Definition due (now : Z) (r : record) : bool :=
  let every := secs (sb_SnapshotEverySecs (rec_sbx r)) in
  (every >? 0) && is_state r StateRunning && negb (rec_snapshotting r) && negb (rec_Snapshotting r) &&
  (every <=? time_sub now (rec_lastScheduled r)).

Definition scheduleTick (now : Z) (s : Server) : list nat * Server :=
  let ls := omap (λ '(_, l, r), if due now r then Some l else None) (entries range s) in
  (ls, foldl (λ s l, on_rec l (λ r, set_snap (rec_lastScheduled r) true (rec_Snapshotting r) r) s) s ls).

(** After the attempt, failed or not. *)
Definition schedule_done (l : nat) (now : Z) : Server → Server :=
  on_rec l (λ r, set_snap now false (rec_Snapshotting r) r).

(** ** Retention *)
Definition scheduled_of (sandbox : string) (s : Server) : list Snapshot :=
  List.filter (λ sn, sn_Scheduled sn && String.eqb (sn_Sandbox sn) sandbox)
    ((λ kv, snr_info (snd kv)) <$> map_to_list (sv_snapshots s)).

(** [mine] is what the sort leaves of [scheduled_of sandbox s], newest first.
    Go panics on a negative [keep], which no schedule has. *)
Definition pruneScheduled (mine : list Snapshot) (keep : Z) (s : Server) : Server :=
  on_snapshots (λ m, foldl (λ m sn, delete (sn_ID sn) m) m (drop (Z.to_nat keep) mine)) s.

Definition deleteSnapshot (s : Server) (id : string) : result refusal Server :=
  match sv_snapshots s !! id with
  | None => Err no_such_snapshot
  | Some _ => Ok (on_snapshots (delete id) s)
  end.

(** ** What retention removes *)
Definition mine_of (sandbox : string) (sn : Snapshot) : bool :=
  sn_Scheduled sn && String.eqb (sn_Sandbox sn) sandbox.

(** Snapshots are kept under their own ids, as [takeSnapshot] records them. *)
Definition keyed (s : Server) : Prop :=
  ∀ id r, sv_snapshots s !! id = Some r → sn_ID (snr_info r) = id.

Lemma elem_of_scheduled s sandbox sn :
  sn ∈ scheduled_of sandbox s ↔
  mine_of sandbox sn = true ∧ ∃ id r, sv_snapshots s !! id = Some r ∧ snr_info r = sn.
Proof.
  unfold scheduled_of, mine_of. rewrite elem_of_bfilter, list_elem_of_fmap. split.
  - intros [([id r] & -> & Hin) Hm]. apply elem_of_map_to_list in Hin. cbn. eauto.
  - intros [Hm (id & r & Hr & <-)]. split; [|done]. exists (id, r). by rewrite elem_of_map_to_list.
Qed.

Lemma scheduled_nodup s sandbox : keyed s → NoDup (sn_ID <$> scheduled_of sandbox s).
Proof.
  intros Hk. unfold scheduled_of. apply bfilter_nodup_key. rewrite <- list_fmap_compose.
  assert ((sn_ID ∘ λ kv : string * snapshotRecord, snr_info kv.2) <$> map_to_list (sv_snapshots s) =
          fst <$> map_to_list (sv_snapshots s)) as ->.
  { apply list_fmap_ext. intros i [id r] Hi. cbn. apply Hk. apply elem_of_map_to_list.
    by eapply list_elem_of_lookup_2. }
  apply NoDup_fst_map_to_list.
Qed.

Lemma delete_all_lookup (xs : list Snapshot) : ∀ (m : gmap string snapshotRecord) id,
  foldl (λ m sn, delete (sn_ID sn) m) m xs !! id =
  if bool_decide (id ∈ sn_ID <$> xs) then None else m !! id.
Proof.
  induction xs as [|x xs IH]; intros m id; [done|]. cbn [foldl]. rewrite IH, fmap_cons.
  destruct (decide (id ∈ sn_ID <$> xs)) as [Hin|Hin].
  - rewrite !bool_decide_eq_true_2; [done|by right|done].
  - rewrite (bool_decide_eq_false_2 _ Hin). destruct (decide (id = sn_ID x)) as [->|Hne].
    + rewrite lookup_delete_eq, bool_decide_eq_true_2; [done|by left].
    + rewrite lookup_delete_ne by done. rewrite bool_decide_eq_false_2; [done|].
      by rewrite elem_of_cons; intros [?|?].
Qed.

(** Retention removes only what the sandbox's own schedule took: a snapshot
    someone asked for, or another sandbox's, stays. Of the schedule's it leaves
    the newest [keep], or all there are, and every one it removes is no newer
    than any it leaves. *)
Theorem retention_keeps_newest s sandbox mine keep :
  keyed s → 0 ≤ keep → mine ≡ₚ scheduled_of sandbox s →
  StronglySorted (λ a b, sn_CreatedAt b ≤ sn_CreatedAt a) mine →
  let s' := pruneScheduled mine keep s in
  (∀ id r, sv_snapshots s !! id = Some r → mine_of sandbox (snr_info r) = false →
     sv_snapshots s' !! id = Some r) ∧
  (∀ id r, sv_snapshots s' !! id = Some r → sv_snapshots s !! id = Some r) ∧
  Z.of_nat (length (scheduled_of sandbox s')) = Z.min keep (Z.of_nat (length mine)) ∧
  (∀ id r id' r', sv_snapshots s !! id = Some r → sv_snapshots s' !! id = None →
     sv_snapshots s' !! id' = Some r' → mine_of sandbox (snr_info r') = true →
     sn_CreatedAt (snr_info r) ≤ sn_CreatedAt (snr_info r')).
Proof.
  intros Hk Hkeep Hperm Hsort s'. set (n := Z.to_nat keep) in *.
  assert (∀ id, sv_snapshots s' !! id =
    if bool_decide (id ∈ sn_ID <$> drop n mine) then None else sv_snapshots s !! id) as Hlk
    by (intros id; apply delete_all_lookup).
  assert (NoDup (sn_ID <$> mine)) as Hnd by (rewrite Hperm; by apply scheduled_nodup).
  assert (∀ id r, sv_snapshots s !! id = Some r → mine_of sandbox (snr_info r) = true →
          snr_info r ∈ mine) as Hmine.
  { intros id r Hr Hm. rewrite Hperm. apply elem_of_scheduled. eauto. }
  assert (∀ sn, sn ∈ drop n mine → ∃ r, sv_snapshots s !! sn_ID sn = Some r ∧ snr_info r = sn ∧
            mine_of sandbox sn = true) as Hdrop.
  { intros sn Hsn. assert (sn ∈ mine) as Hin by (rewrite <- (take_drop n mine), elem_of_app; by right).
    rewrite Hperm in Hin. apply elem_of_scheduled in Hin as (Hm & id & r & Hr & <-).
    rewrite (Hk _ _ Hr). eauto. }
  rewrite <- (take_drop n mine), fmap_app in Hnd. apply NoDup_app in Hnd as (Hnd1 & Hdis & Hnd2).
  rewrite <- (take_drop n mine) in Hsort.
  split_and!.
  - intros id r Hr Hm. rewrite Hlk, bool_decide_eq_false_2; [done|].
    intros (sn & -> & Hsn)%list_elem_of_fmap. destruct (Hdrop sn Hsn) as (r' & Hr' & E & Hm').
    simplify_eq. congruence.
  - intros id r. rewrite Hlk. by case_bool_decide.
  - assert (scheduled_of sandbox s' ≡ₚ take n mine) as ->; [|rewrite length_take; lia].
    assert (keyed s') as Hk'.
    { intros id r Hr. rewrite Hlk in Hr. case_bool_decide; [done|]. by apply Hk. }
    apply NoDup_Permutation; [by eapply NoDup_fmap_1, scheduled_nodup|by eapply NoDup_fmap_1|].
    intros sn. rewrite elem_of_scheduled. split.
    + intros (Hm & id & r & Hr & <-). rewrite Hlk in Hr. case_bool_decide as Hin; [done|].
      pose proof (Hmine _ _ Hr Hm) as Hi. rewrite <- (take_drop n mine), elem_of_app in Hi.
      destruct Hi as [?|Hi]; [done|]. destruct Hin. apply list_elem_of_fmap.
      exists (snr_info r). by rewrite (Hk _ _ Hr).
    + intros Hi. assert (sn ∈ mine) as Hin by (rewrite <- (take_drop n mine), elem_of_app; by left).
      rewrite Hperm in Hin. apply elem_of_scheduled in Hin as (Hm & id & r & Hr & <-).
      split; [done|]. exists id, r. split; [|done]. rewrite Hlk, bool_decide_eq_false_2; [done|].
      intros Hd. apply (Hdis id); [|done]. apply list_elem_of_fmap. exists (snr_info r).
      by rewrite (Hk _ _ Hr).
  - intros id r id' r' Hr Hnone Hr' Hm'. rewrite Hlk in Hnone.
    case_bool_decide as Hin; [|congruence]. rewrite Hlk in Hr'. case_bool_decide as Hin'; [done|].
    apply list_elem_of_fmap in Hin as (sn & -> & Hsn).
    destruct (Hdrop sn Hsn) as (r0 & Hr0 & E & _). simplify_eq.
    pose proof (Hmine _ _ Hr' Hm') as Hin.
    rewrite <- (take_drop n mine), elem_of_app in Hin. destruct Hin as [Hin|Hin].
    + by apply (StronglySorted_app_1_elem_of _ _ _ _ _ Hsort).
    + exfalso. apply Hin'. apply list_elem_of_fmap. exists (snr_info r').
      split; [by rewrite (Hk _ _ Hr')|done].
Qed.
End captures.
