(* ===== verification/Daemon.v ===== *)
(** * sandboxd: its handlers interleaved (internal/server)

    A world is the server with the requests that are part way: between two
    sections of a handler, waiting for the backend or for a lock. An event
    starts a request, or lets one go on with the backend's answer; [step] is
    what it does, or [None] where it cannot happen (no such request is
    waiting, or another holds the record's [transit]). *)
From S2P Require Import Prelude GoSort GoStrings Api EgressNames PolicyEnv Spec Records Sandboxes Captures.

(** A create, from its registration to the backend's answer. *)
Inductive creating :=
| Claiming (l : nat) (bs : BackendSpec)   (** about to look in the pools *)
| Booting (l : nat).                      (** waiting for [Backend.Create] *)

Inductive op :=
| Starting (l : nat)                      (** it has a VM; its record does not say so yet *)
| Suspending (l : nat) (idle : bool)
| Resuming (l : nat)
| Terminating (l : nat)
| Updating (l : nat) (id : string) (q : UpdateSandboxRequest) (c : checked_update)
    (net : option NetworkPolicy)
| Resizing (l : nat) (id : string) (was : NodeResources) (may_restart : bool)
| Capturing (l : nat) (sandbox image : string) (scheduled : bool)
| Deleting (name : string).

(** [w_used] is every id ever made: [newID] is 64 random bits, and the model
    takes a new one to be one never seen before. *)
Record World := {
  w_srv : Server;
  w_creates : gmap string creating;
  w_ops : list op;
  w_used : gset string
}.

Definition creating_loc (c : creating) : nat :=
  match c with Claiming l _ => l | Booting l => l end.

(** The record's [transit] lock is held. *)
Definition in_transit (l : nat) (ops : list op) : bool :=
  existsb (λ o, match o with
                | Suspending l' _ | Resuming l' => (l' =? l)%nat
                | _ => false
                end) ops.

Inductive event :=
| Ev_create (q : CreateSandboxRequest) (id : string) (now : Z) (export : result refusal ())
    (have : result backend_error (list string)) (gpu_ok : string → bool)
| Ev_claim (id : string)
| Ev_boot (id : string) (err : option backend_error)
| Ev_started (i : nat)
| Ev_fill (k : nat)
| Ev_filled (k : nat) (id : string) (err : option backend_error)
| Ev_use (ref : string) (background : bool) (now : Z)
| Ev_suspend (ref : string)
| Ev_idle_suspend (l : nat) (now : Z)
| Ev_suspended (i : nat) (err : option backend_error) (now : Z)
| Ev_resume (ref : string)
| Ev_wake (l : nat)
| Ev_resumed (i : nat) (err : option backend_error) (now : Z)
| Ev_terminate (ref : string)
| Ev_reap (now : Z)
| Ev_terminated (i : nat) (err : option backend_error)
| Ev_forget
| Ev_update (ref : string) (q : UpdateSandboxRequest) (background : bool) (now : Z)
    (export : result refusal ())
| Ev_network (i : nat) (err : option backend_error)
| Ev_apply (i : nat)
| Ev_resize (l : nat) (q : ResizeSandboxRequest)
| Ev_resized (i : nat) (got : NodeResources) (err : option backend_error) (now : Z)
| Ev_process (l : nat) (session : string) (q : RunRequest) (now : Z)
| Ev_exited (l : nat) (pid code : Z)
| Ev_capture (l : nat) (scheduled : bool)
| Ev_captured (i : nat) (id : string) (answer : result backend_error SnapshotInfo) (now : Z)
| Ev_schedule (ref : string) (q : SnapshotSchedule) (now : Z)
| Ev_tick (now : Z)
| Ev_schedule_done (l : nat) (now : Z)
| Ev_prune (mine : list Snapshot) (keep : Z)
| Ev_delete_snapshot (id : string)
| Ev_cordon (on : bool)
| Ev_delete_volume (name : string)
| Ev_volume_deleted (i : nat).

Section daemon.
Context `{Unicode} `{Backend} (cf : Config).
Context (range : gmap string nat → list (string * nat)).
Context (range_env : gmap string string → list (string * string)).

Definition with_srv (s : Server) (w : World) : World :=
  {| w_srv := s; w_creates := w_creates w; w_ops := w_ops w; w_used := w_used w |}.
Definition with_ops (ops : list op) (w : World) : World :=
  {| w_srv := w_srv w; w_creates := w_creates w; w_ops := ops; w_used := w_used w |}.
Definition with_creates (c : gmap string creating) (w : World) : World :=
  {| w_srv := w_srv w; w_creates := c; w_ops := w_ops w; w_used := w_used w |}.

(** A request begins to wait; the one at [i] ends. *)
Definition waits (o : op) (w : World) : World := with_ops (w_ops w ++ [o]) w.
Definition ends (i : nat) (w : World) : World := with_ops (delete i (w_ops w)) w.

(** A request is answered, or goes on waiting as [o]; its record is not in
    transit. *)
Definition transit_op (r : result refusal nat) (o : nat → op) (w : World) : option World :=
  match r with
  | Err _ => Some w
  | Ok l => if in_transit l (w_ops w) then None else Some (waits (o l) w)
  end.

Definition step (w : World) (e : event) : option World :=
  let s := w_srv w in
  match e with
  | Ev_create q id now export have gpu_ok =>
      if bool_decide (id ∈ w_used w) || String.eqb id "" then None
      else match bs ← resolve_create cf range_env (sv_snapshots s) q id export have;
                 register cf range s q bs (new_record range_env q bs now) gpu_ok with
      | Err _ => Some w
      | Ok (s', bs) => Some {|
          w_srv := s'; w_creates := <[id := Claiming (length (sv_heap s)) bs]> (w_creates w);
          w_ops := w_ops w; w_used := {[id]} ∪ w_used w |}
      end
  | Ev_claim id =>
      match w_creates w !! id with
      | Some (Claiming l bs) =>
          match claimPooled bs (sv_pools s) with
          | Some (pooled, ps) => Some {|
              w_srv := move_to_pooled l id pooled (on_pools (λ _, ps) s);
              w_creates := delete id (w_creates w);
              w_ops := w_ops w ++ [Starting l]; w_used := w_used w |}
          | None => Some (with_creates (<[id := Booting l]> (w_creates w)) w)
          end
      | _ => None
      end
  | Ev_boot id err =>
      match w_creates w !! id with
      | Some (Booting l) =>
          let w := with_creates (delete id (w_creates w)) w in
          match err with
          | None => Some (waits (Starting l) w)
          | Some _ => Some (with_srv (create_failed id s) w)
          end
      | _ => None
      end
  | Ev_started i =>
      match w_ops w !! i with
      | Some (Starting l) => Some (with_srv (created l s) (ends i w))
      | _ => None
      end
  | Ev_fill k =>
      match sv_pools s !! k ≫= fill_begin with
      | Some p => Some (with_srv (on_pools <[k := p]> s) w)
      | None => None
      end
  | Ev_filled k id err =>
      match sv_pools s !! k with
      | Some p =>
          if bool_decide (id ∈ w_used w) || String.eqb id "" || (po_filling p <=? 0) then None
          else Some {| w_srv := on_pools <[k := fill_end p id err]> s; w_creates := w_creates w;
                       w_ops := w_ops w; w_used := {[id]} ∪ w_used w |}
      | None => None
      end
  | Ev_use ref background now => Some (with_srv (snd (use range s ref background now)) w)
  | Ev_suspend ref => transit_op (suspend_begin range s ref) (λ l, Suspending l false) w
  | Ev_idle_suspend l now =>
      if in_transit l (w_ops w) then None
      else Some (if idle_begin s l now then waits (Suspending l true) w else w)
  | Ev_suspended i err now =>
      match w_ops w !! i with
      | Some (Suspending l idle) =>
          let s := match err with
                   | None => suspended l idle s
                   | Some _ => if idle then on_rec l (touch now) s else s
                   end in
          Some (with_srv s (ends i w))
      | _ => None
      end
  | Ev_resume ref => transit_op (resume_begin range s ref) Resuming w
  | Ev_wake l =>
      match wake_begin s l with
      | Ok (Some l) => transit_op (Ok l) Resuming w
      | _ => Some w
      end
  | Ev_resumed i err now =>
      match w_ops w !! i with
      | Some (Resuming l) =>
          Some (with_srv (match err with None => resumed l now s | Some _ => s end) (ends i w))
      | _ => None
      end
  | Ev_terminate ref =>
      match terminate_begin range s ref with
      | Ok (Some (l, _)) => Some (waits (Terminating l) w)
      | _ => Some w
      end
  | Ev_reap now =>
      let '(due, s') := reap_scan range now s in
      Some (with_srv s'
        (with_ops (w_ops w ++ omap (λ '(l, v), match v with
                                               | reap_suspend => None
                                               | _ => Some (Terminating l)
                                               end) due) w))
  | Ev_terminated i err =>
      match w_ops w !! i with
      | Some (Terminating l) =>
          Some (with_srv (match err with None => terminated_now l s | Some _ => s end) (ends i w))
      | _ => None
      end
  | Ev_forget => Some (with_srv (forgetOldTerminated range s) w)
  | Ev_update ref q background now export =>
      if no_changes q then Some w
      else match lookup_rec range s ref with
      | Err _ => Some w
      | Ok (l, r) =>
          let w := with_srv (if background then s else on_rec l (touch now) s) w in
          match check_update cf range range_env (w_srv w) r q export with
          | Err _ => Some w
          | Ok (c, net) => Some (waits (Updating l (sb_ID (rec_sbx r)) q c net) w)
          end
      end
  | Ev_network i err =>
      match w_ops w !! i with
      | Some (Updating l id q c (Some pol)) =>
          match err with
          | Some _ => Some (ends i w)
          | None => Some (with_srv (apply_network l pol s)
                            (with_ops (<[i := Updating l id q c None]> (w_ops w)) w))
          end
      | _ => None
      end
  | Ev_apply i =>
      match w_ops w !! i with
      | Some (Updating l id q c None) =>
          match apply_update range l id q c s with
          | Err _ => Some (ends i w)
          | Ok s' => Some (with_srv s' (ends i w))
          end
      | _ => None
      end
  | Ev_resize l q =>
      match resize_begin cf s l q with
      | Ok (Some (id, _, may), s') =>
          match sv_heap s !! l with
          | Some r => Some (with_srv s' (waits (Resizing l id
              {| nr_CPUs := sb_CPUs (rec_sbx r); nr_MemoryMB := sb_MemoryMB (rec_sbx r);
                 nr_DiskMB := sb_DiskMB (rec_sbx r); nr_GPUs := 0 |} may) w))
          | None => None
          end
      | _ => Some w
      end
  | Ev_resized i got err now =>
      match w_ops w !! i with
      | Some (Resizing l id was may) => Some (with_srv (resize_end l id was got may err now s) (ends i w))
      | _ => None
      end
  | Ev_process l session q now => Some (with_srv (on_rec l (process_started session q now) s) w)
  | Ev_exited l pid code => Some (with_srv (on_rec l (process_exited pid code) s) w)
  | Ev_capture l scheduled =>
      match take_begin s l, sv_heap s !! l with
      | Ok (id, s'), Some r =>
          Some (with_srv s' (waits (Capturing l id (sb_Image (rec_sbx r)) scheduled) w))
      | _, _ => Some w
      end
  | Ev_captured i id answer now =>
      match w_ops w !! i with
      | Some (Capturing l sandbox image scheduled) =>
          Some (with_srv (take_end l id sandbox image scheduled answer now s) (ends i w))
      | _ => None
      end
  | Ev_schedule ref q now => Some (with_srv (snd (setSnapshotSchedule cf range s ref q now)) w)
  | Ev_tick now => Some (with_srv (snd (scheduleTick range now s)) w)
  | Ev_schedule_done l now => Some (with_srv (schedule_done l now s) w)
  | Ev_prune mine keep => Some (with_srv (pruneScheduled mine keep s) w)
  | Ev_delete_snapshot id =>
      Some (match deleteSnapshot s id with Ok s' => with_srv s' w | Err _ => w end)
  | Ev_cordon on => Some (with_srv (cordon on s) w)
  | Ev_delete_volume name =>
      match delete_volume_begin range s name with
      | Ok s' => Some (with_srv s' (waits (Deleting name) w))
      | Err _ => Some w
      end
  | Ev_volume_deleted i =>
      match w_ops w !! i with
      | Some (Deleting name) => Some (with_srv (delete_volume_end name s) (ends i w))
      | _ => None
      end
  end.

Fixpoint run (w : World) (es : list event) : option World :=
  match es with
  | [] => Some w
  | e :: rest => w' ← step w e; run w' rest
  end.

(** An answer that finds its sandbox terminated while it waited. *)
Definition is_dead (s : Server) (l : nat) : bool :=
  match sv_heap s !! l with Some r => negb (is_live r) | None => false end.

Definition late (w : World) (e : event) : bool :=
  match e with
  | Ev_started i =>
      match w_ops w !! i with Some (Starting l) => is_dead (w_srv w) l | _ => false end
  | Ev_suspended i None _ =>
      match w_ops w !! i with Some (Suspending l _) => is_dead (w_srv w) l | _ => false end
  | Ev_resumed i None _ =>
      match w_ops w !! i with Some (Resuming l) => is_dead (w_srv w) l | _ => false end
  | _ => false
  end.

(** A run in which no answer comes late. *)
Fixpoint timely (w : World) (es : list event) : bool :=
  match es with
  | [] => true
  | e :: rest =>
      negb (late w e) && match step w e with Some w' => timely w' rest | None => true end
  end.

Definition initial (pools : list pool) : World := {|
  w_srv := {| sv_heap := []; sv_sandboxes := ∅; sv_deleting := ∅; sv_resizing := ∅;
              sv_pools := pools; sv_snapshots := ∅; sv_cordoned := false |};
  w_creates := ∅; w_ops := []; w_used := ∅ |}.

(** ** What two sandboxes never share *)
Context (range_lists : ∀ m, range m ≡ₚ map_to_list m).

(** What one record claims, and what it keeps of it in a later state: its id,
    and, while it lives, its name, volumes and GPUs. *)
Definition keeps (r r' : record) : Prop :=
  sb_ID (rec_sbx r') = sb_ID (rec_sbx r) ∧
  (is_live r' = true → is_live r = true ∧ sb_Name (rec_sbx r') = sb_Name (rec_sbx r) ∧
     sb_Volumes (rec_sbx r') = sb_Volumes (rec_sbx r) ∧ sb_GPUs (rec_sbx r') = sb_GPUs (rec_sbx r)).

(** [s'] has no claim that [s] had not. *)
Definition fewer (s s' : Server) : Prop :=
  (∀ id l r', sv_sandboxes s' !! id = Some l → sv_heap s' !! l = Some r' →
     sv_sandboxes s !! id = Some l ∧ ∃ r, sv_heap s !! l = Some r ∧ keeps r r') ∧
  sv_deleting s' ⊆ sv_deleting s.

Record exclusive (s : Server) : Prop := {
  ex_keys : ∀ id l r, sv_sandboxes s !! id = Some l → sv_heap s !! l = Some r →
    sb_ID (rec_sbx r) = id ∧ id ≠ ""%string;
  ex_names : ∀ id1 id2 l1 l2 r1 r2, registered s id1 l1 r1 → registered s id2 l2 r2 →
    sb_Name (rec_sbx r1) = sb_Name (rec_sbx r2) → sb_Name (rec_sbx r1) ≠ ""%string → id1 = id2;
  ex_volumes : ∀ id1 id2 l1 l2 r1 r2 m1 m2, registered s id1 l1 r1 → registered s id2 l2 r2 →
    id1 ≠ id2 → m1 ∈ sb_Volumes (rec_sbx r1) → m2 ∈ sb_Volumes (rec_sbx r2) →
    vm_Name m1 = vm_Name m2 → vm_ReadOnly m1 = true ∧ vm_ReadOnly m2 = true;
  ex_gpus : ∀ id1 id2 l1 l2 r1 r2 g, registered s id1 l1 r1 → registered s id2 l2 r2 →
    id1 ≠ id2 → g ∈ sb_GPUs (rec_sbx r1) → g ∉ sb_GPUs (rec_sbx r2);
  ex_deleting : ∀ v, v ∈ sv_deleting s → ¬ held s v false
}.

Lemma fewer_registered s s' id l r' :
  fewer s s' → registered s' id l r' → ∃ r, registered s id l r ∧ keeps r r' ∧
    sb_Name (rec_sbx r') = sb_Name (rec_sbx r) ∧ sb_Volumes (rec_sbx r') = sb_Volumes (rec_sbx r) ∧
    sb_GPUs (rec_sbx r') = sb_GPUs (rec_sbx r).
Proof.
  intros [Hf _] (Hs & Hh & Hl). destruct (Hf _ _ _ Hs Hh) as (Hs' & r & Hr & Hk).
  exists r. pose proof (proj2 Hk Hl) as (? & ? & ? & ?). unfold registered. by split_and!.
Qed.

Lemma fewer_exclusive s s' : fewer s s' → exclusive s → exclusive s'.
Proof.
  intros Hf Hex. constructor.
  - intros id l r' Hs Hh. destruct (proj1 Hf _ _ _ Hs Hh) as (Hs' & r & Hr & [Hid _]).
    rewrite Hid. by eapply (ex_keys _ Hex).
  - intros id1 id2 l1 l2 r1 r2 H1 H2 Hn Hne.
    destruct (fewer_registered _ _ _ _ _ Hf H1) as (q1 & Q1 & _ & N1 & _).
    destruct (fewer_registered _ _ _ _ _ Hf H2) as (q2 & Q2 & _ & N2 & _).
    eapply (ex_names _ Hex); [exact Q1|exact Q2|congruence|congruence].
  - intros id1 id2 l1 l2 r1 r2 m1 m2 H1 H2 Hid Hm1 Hm2 Hv.
    destruct (fewer_registered _ _ _ _ _ Hf H1) as (q1 & Q1 & _ & _ & V1 & _).
    destruct (fewer_registered _ _ _ _ _ Hf H2) as (q2 & Q2 & _ & _ & V2 & _).
    rewrite V1 in Hm1. rewrite V2 in Hm2. by eapply (ex_volumes _ Hex _ _ _ _ _ _ _ _ Q1 Q2).
  - intros id1 id2 l1 l2 r1 r2 g H1 H2 Hid Hg.
    destruct (fewer_registered _ _ _ _ _ Hf H1) as (q1 & Q1 & _ & _ & _ & G1).
    destruct (fewer_registered _ _ _ _ _ Hf H2) as (q2 & Q2 & _ & _ & _ & G2).
    rewrite G1 in Hg. rewrite G2. by eapply (ex_gpus _ Hex _ _ _ _ _ _ _ Q1 Q2).
  - intros v Hv (id & l & r & m & Hr & Hm & Hn & _).
    destruct (fewer_registered _ _ _ _ _ Hf Hr) as (q & Q & _ & _ & V & _). rewrite V in Hm.
    apply (ex_deleting _ Hex v); [by apply (proj2 Hf)|]. by exists id, l, q, m.
Qed.

Lemma keeps_refl r : keeps r r.
Proof. split; [done|]. intros. by split_and!. Qed.

Lemma fewer_refl s : fewer s s.
Proof. split; [|done]. intros id l r Hs Hh. split; [done|]. exists r. split; [done|]. apply keeps_refl. Qed.

Lemma fewer_trans s1 s2 s3 : fewer s1 s2 → fewer s2 s3 → fewer s1 s3.
Proof.
  intros [H1 D1] [H2 D2]. split; [|by trans (sv_deleting s2)].
  intros id l r3 Hs Hh. destruct (H2 _ _ _ Hs Hh) as (Hs2 & r2 & Hr2 & K2).
  destruct (H1 _ _ _ Hs2 Hr2) as (Hs1 & r1 & Hr1 & K1). split; [done|]. exists r1. split; [done|].
  unfold keeps in *. intuition congruence.
Qed.

(** A change to one record, under its lock. *)
Lemma fewer_on_rec l f s :
  (∀ r, sv_heap s !! l = Some r → keeps r (f r)) → fewer s (on_rec l f s).
Proof.
  intros Hk. split; [|done]. intros id l' r' Hs Hh. cbn in Hs, Hh. split; [done|].
  destruct (decide (l = l')) as [<-|Hne].
  - rewrite list_lookup_alter, decide_True in Hh by done.
    apply fmap_Some in Hh as (r & Hr & ->). exists r. auto.
  - rewrite list_lookup_alter, decide_False in Hh by done. exists r'. split; [done|]. apply keeps_refl.
Qed.

Lemma fewer_same s s' :
  sv_heap s' = sv_heap s → sv_sandboxes s' = sv_sandboxes s → sv_deleting s' = sv_deleting s →
  fewer s s'.
Proof.
  intros Hh Hs Hd. split; [|by rewrite Hd]. rewrite Hh, Hs. apply (proj1 (fewer_refl s)).
Qed.

Lemma fewer_delete id s : fewer s (on_sandboxes (delete id) s).
Proof.
  split; [|done]. intros id' l r Hs Hh. cbn in Hs, Hh.
  apply lookup_delete_Some in Hs as [_ Hs]. split; [done|]. exists r. split; [done|]. apply keeps_refl.
Qed.

Lemma foldl_delete_lookup {A} (key : A → string) (xs : list A) : ∀ (m : gmap string nat) id l,
  foldl (λ m x, delete (key x) m) m xs !! id = Some l → m !! id = Some l.
Proof.
  induction xs as [|x xs IH]; intros m id l; [done|]. cbn. intros Hl%IH.
  by apply lookup_delete_Some in Hl as [_ ?].
Qed.

Lemma fewer_forget s : fewer s (forgetOldTerminated range s).
Proof.
  unfold forgetOldTerminated. destruct (_ <=? _)%nat; [apply fewer_refl|].
  split; [|done]. intros id l r Hs Hh. cbn in Hs, Hh. apply foldl_delete_lookup in Hs.
  split; [done|]. exists r. split; [done|]. apply keeps_refl.
Qed.

(** ** The invariant of the world *)
Definition ready_ids (ps : list pool) : list string := concat (po_ready <$> ps).
Definition updates (ops : list op) : list (nat * string) :=
  omap (λ o, match o with Updating l id _ _ _ => Some (l, id) | _ => None end) ops.

Record Inv (w : World) : Prop := {
  inv_ex : exclusive (w_srv w);
  inv_keys : ∀ id l, sv_sandboxes (w_srv w) !! id = Some l →
    id ∈ w_used w ∧ is_Some (sv_heap (w_srv w) !! l);
  inv_nodup : NoDup (ready_ids (sv_pools (w_srv w)));
  inv_ready : ∀ id, id ∈ ready_ids (sv_pools (w_srv w)) →
    id ∈ w_used w ∧ id ≠ ""%string ∧ sv_sandboxes (w_srv w) !! id = None ∧
    w_creates w !! id = None ∧ ∀ l, (l, id) ∉ updates (w_ops w);
  inv_creates : ∀ id c, w_creates w !! id = Some c →
    id ∈ w_used w ∧ ∃ r, sv_heap (w_srv w) !! creating_loc c = Some r ∧ sb_ID (rec_sbx r) = id ∧
      (is_live r = true → sv_sandboxes (w_srv w) !! id = Some (creating_loc c));
  inv_updates : ∀ l id, (l, id) ∈ updates (w_ops w) →
    id ∈ w_used w ∧ ∀ l', sv_sandboxes (w_srv w) !! id = Some l' → l' = l
}.

(** A change that takes no claim and drops no live sandbox. *)
Record calm (s s' : Server) : Prop := {
  calm_fewer : fewer s s';
  calm_sub : ∀ id l, sv_sandboxes s' !! id = Some l → sv_sandboxes s !! id = Some l;
  calm_heap : Forall2 keeps (sv_heap s) (sv_heap s');
  calm_live : ∀ id l r', sv_sandboxes s !! id = Some l → sv_heap s' !! l = Some r' →
    is_live r' = true → sv_sandboxes s' !! id = Some l;
  calm_ready : ready_ids (sv_pools s') = ready_ids (sv_pools s)
}.

Lemma keeps_trans r1 r2 r3 : keeps r1 r2 → keeps r2 r3 → keeps r1 r3.
Proof. unfold keeps. intuition congruence. Qed.

Lemma keeps_all h : Forall2 keeps h h.
Proof. induction h; constructor; auto using keeps_refl. Qed.

Lemma keeps_all_trans a b c : Forall2 keeps a b → Forall2 keeps b c → Forall2 keeps a c.
Proof.
  intros Hab. revert c. induction Hab; intros c Hbc; inversion Hbc; constructor; eauto using keeps_trans.
Qed.

Lemma calm_same s s' :
  sv_heap s' = sv_heap s → sv_sandboxes s' = sv_sandboxes s → sv_deleting s' ⊆ sv_deleting s →
  ready_ids (sv_pools s') = ready_ids (sv_pools s) → calm s s'.
Proof.
  intros Hh Hs Hd Hp. constructor; rewrite ?Hh, ?Hs; eauto using keeps_all.
  split; [|done]. rewrite Hh, Hs. apply (proj1 (fewer_refl s)).
Qed.

Lemma calm_refl s : calm s s.
Proof. by apply calm_same. Qed.

Lemma calm_trans s1 s2 s3 : calm s1 s2 → calm s2 s3 → calm s1 s3.
Proof.
  intros H1 H2. constructor.
  - eapply fewer_trans; by eapply calm_fewer.
  - intros id l Hs. by apply (calm_sub _ _ H1), (calm_sub _ _ H2).
  - eapply keeps_all_trans; [apply H1|apply H2].
  - intros id l r3 Hs Hr3 Hl. apply (calm_live _ _ H2 id l r3); [|done|done].
    destruct (Forall2_lookup_r _ _ _ _ _ (calm_heap _ _ H2) Hr3) as (r2 & Hr2 & K).
    apply (calm_live _ _ H1 id l r2); [done|done|]. by apply K.
  - by rewrite (calm_ready _ _ H2), (calm_ready _ _ H1).
Qed.

Lemma calm_on_rec l f s :
  (∀ r, sv_heap s !! l = Some r → keeps r (f r)) → calm s (on_rec l f s).
Proof.
  intros Hk. constructor; [by apply fewer_on_rec|done| |done|done].
  cbn [on_rec on_heap sv_heap]. apply Forall2_same_length_lookup_2; [by rewrite length_alter|].
  intros i r r' Hr Hr'. rewrite list_lookup_alter in Hr'. case_decide as E.
  - subst i. rewrite Hr in Hr'. cbn in Hr'. simplify_eq. auto.
  - rewrite Hr in Hr'. simplify_eq. apply keeps_refl.
Qed.

Lemma calm_fold {A} (g : Server → A → Server) xs : ∀ s,
  (∀ s x, calm s (g s x)) → calm s (foldl g s xs).
Proof.
  induction xs as [|x xs IH]; intros s Hf; [apply calm_refl|].
  eapply calm_trans; [apply (Hf s x)|]. by apply IH.
Qed.

Lemma foldl_delete_keeps {A} (key : A → string) (xs : list A) : ∀ (m : gmap string nat) id l,
  m !! id = Some l → (∀ x, x ∈ xs → key x ≠ id) →
  foldl (λ m x, delete (key x) m) m xs !! id = Some l.
Proof.
  induction xs as [|x xs IH]; intros m id l Hm Hx; [done|]. cbn. apply IH.
  - rewrite lookup_delete_ne; [done|]. apply Hx. by left.
  - intros y Hy. apply Hx. by right.
Qed.

Lemma calm_forget s : exclusive s → calm s (forgetOldTerminated range s).
Proof.
  intros Hex. assert (fewer s (forgetOldTerminated range s)) as Hf by apply fewer_forget.
  revert Hf. unfold forgetOldTerminated. destruct (_ <=? _)%nat; [intros _; apply calm_refl|].
  set (gone := take _ _). intros Hf. constructor; [done| |apply keeps_all| |done].
  - intros id l Hs. by apply foldl_delete_lookup in Hs.
  - intros id l r Hs Hh Hl. cbn [on_sandboxes sv_sandboxes sv_heap] in *.
    apply foldl_delete_keeps; [done|]. intros sb Hsb Hid.
    assert (sb ∈ dead range s) as Hd.
    { apply elem_of_take in Hsb as (k & Hk & _).
      eapply elem_of_sort_stable. by eapply list_elem_of_lookup_2. }
    unfold dead in Hd. apply list_elem_of_omap in Hd as ([[id' l'] r'] & Hin & Hr').
    apply (elem_of_entries _ range_lists) in Hin as [Hs' Hh'].
    destruct (is_live r') eqn:E; [done|]. simplify_eq.
    destruct (ex_keys _ Hex _ _ _ Hs' Hh') as [<- _].
    rewrite Hs in Hs'. simplify_eq. congruence.
Qed.

(** The invariant, over a change that takes no claim. *)
Lemma inv_calm w w' :
  Inv w → calm (w_srv w) (w_srv w') →
  w_creates w' = w_creates w → w_used w' = w_used w →
  (∀ x, x ∈ updates (w_ops w') → x ∈ updates (w_ops w)) → Inv w'.
Proof.
  intros HI Hc Hcr Hu Hup. constructor.
  - eapply fewer_exclusive; [by apply calm_fewer|apply HI].
  - intros id l Hs. apply (calm_sub _ _ Hc) in Hs. rewrite Hu.
    destruct (inv_keys _ HI _ _ Hs) as [? [r Hr]]. split; [done|].
    destruct (Forall2_lookup_l _ _ _ _ _ (calm_heap _ _ Hc) Hr) as (r' & Hr' & _). eauto.
  - rewrite (calm_ready _ _ Hc). apply HI.
  - intros id Hid. rewrite (calm_ready _ _ Hc) in Hid. rewrite Hu, Hcr.
    destruct (inv_ready _ HI _ Hid) as (? & ? & Hnone & ? & Hno). split_and!; [done|done| |done|].
    + destruct (sv_sandboxes (w_srv w') !! id) as [l|] eqn:E; [|done].
      apply (calm_sub _ _ Hc) in E. congruence.
    + intros l Hl%Hup. by destruct (Hno l).
  - intros id c. rewrite Hu, Hcr. intros Hid.
    destruct (inv_creates _ HI _ _ Hid) as (? & r & Hr & Hrid & Hlive). split; [done|].
    destruct (Forall2_lookup_l _ _ _ _ _ (calm_heap _ _ Hc) Hr) as (r' & Hr' & K).
    exists r'. split_and!; [done|by rewrite (proj1 K)|]. intros Hl.
    apply (calm_live _ _ Hc _ _ r'); [|done|done]. by apply Hlive, K.
  - intros l id Hin%Hup. rewrite Hu. destruct (inv_updates _ HI _ _ Hin) as [? Hl]. split; [done|].
    intros l' Hs. apply Hl. by apply (calm_sub _ _ Hc).
Qed.

(** ** Registering a sandbox *)
Lemma exclusive_ids_named s : exclusive s → ids_named s.
Proof. intros Hex id l r (Hs & Hh & _). by destruct (ex_keys _ Hex _ _ _ Hs Hh) as [-> ?]. Qed.

Lemma claim_volumes_ok s mounts :
  exclusive s → claim_volumes range s mounts = Ok () →
  ∀ m, m ∈ mounts → (vm_Name m ∉ sv_deleting s) ∧ ¬ held s (vm_Name m) true ∧
    (vm_ReadOnly m = true ∨ ¬ held s (vm_Name m) false).
Proof.
  intros Hex. induction mounts as [|m mounts IH]; [intros _ m Hm; by apply not_elem_of_nil in Hm|].
  cbn [claim_volumes]. rewrite !guard_ok. intros (Hd & Hb & Hrest) m' [->|Hm']%elem_of_cons; [|auto].
  apply bool_decide_eq_false in Hd.
  by apply (volumeBusy_false range range_lists _ _ (exclusive_ids_named _ Hex)) in Hb.
Qed.

(** The state a registration leaves, with the claims it could make. *)
Lemma register_ok s q bs rec gpu_ok s' bs' :
  exclusive s → register cf range s q bs rec gpu_ok = Ok (s', bs') →
  ∃ gpus, let rec' := on_sbx (set_GPUs gpus) rec in
  s' = on_sandboxes (insert (bs_ID bs) (length (sv_heap s))) (on_heap (λ h, h ++ [rec']) s) ∧
  bs_ID bs' = bs_ID bs ∧ sv_cordoned s = false ∧
  (cr_Name q ≠ ""%string → ∀ id l r, registered s id l r → sb_Name (rec_sbx r) ≠ cr_Name q) ∧
  (∀ m, m ∈ bs_Volumes bs → (vm_Name m ∉ sv_deleting s) ∧ ¬ held s (vm_Name m) true ∧
     (vm_ReadOnly m = true ∨ ¬ held s (vm_Name m) false)) ∧
  (∀ g, g ∈ gpus → ∀ id l r, registered s id l r → g ∉ sb_GPUs (rec_sbx r)).
Proof.
  intros Hex. unfold register. rewrite !guard_ok. intros (Hc & Hn & Hr).
  apply bind_ok in Hr as ([] & Hv & Hr). apply bind_ok in Hr as (gpus & Hg & [= <- <-]).
  exists gpus. split_and!; [done|by destruct bs|done| | |].
  - intros Hne id l r Hreg E. apply andb_false_iff in Hn as [Hn|Hn].
    + apply negb_false_iff, String.eqb_eq in Hn. done.
    + assert (name_in_use range s (cr_Name q) = true); [|congruence].
      apply (name_in_use_spec range range_lists). by exists id, l, r.
  - by apply claim_volumes_ok.
  - intros g Hgi. destruct (cr_GPUs q >? 0); [|simplify_eq; by apply not_elem_of_nil in Hgi].
    unfold freeGPUsLocked in Hg. destruct (_ <? _); [done|]. simplify_eq.
    apply elem_of_take in Hgi as (k & Hk & _). apply list_elem_of_lookup_2 in Hk.
    by apply (free_gpus_spec range range_lists) in Hk as (_ & _ & ?).
Qed.

Lemma registered_new s id rec :
  (∀ id l, sv_sandboxes s !! id = Some l → is_Some (sv_heap s !! l)) →
  sv_sandboxes s !! id = None →
  let s' := on_sandboxes (insert id (length (sv_heap s))) (on_heap (λ h, h ++ [rec]) s) in
  ∀ id' l r, sv_sandboxes s' !! id' = Some l → sv_heap s' !! l = Some r →
    (id' = id ∧ r = rec) ∨ (id' ≠ id ∧ sv_sandboxes s !! id' = Some l ∧ sv_heap s !! l = Some r).
Proof.
  intros Hb Hid s' id' l r Hs Hh. cbn in Hs, Hh. destruct (decide (id' = id)) as [->|Hne].
  - left. rewrite lookup_insert_eq in Hs. simplify_eq. rewrite list_lookup_middle in Hh by done.
    by simplify_eq.
  - right. rewrite lookup_insert_ne in Hs by done. split_and!; [done|done|].
    destruct (Hb _ _ Hs) as [r0 Hr0]. rewrite lookup_app_l in Hh; [done|].
    by eapply lookup_lt_Some.
Qed.

(** A fresh record, claiming what nobody holds, excludes nobody. *)
Lemma register_exclusive s id rec gpus name vols :
  exclusive s →
  (∀ id l, sv_sandboxes s !! id = Some l → is_Some (sv_heap s !! l)) →
  sv_sandboxes s !! id = None → id ≠ ""%string →
  sb_ID (rec_sbx rec) = id → sb_Name (rec_sbx rec) = name →
  sb_Volumes (rec_sbx rec) = vols → sb_GPUs (rec_sbx rec) = gpus →
  (name ≠ ""%string → ∀ id l r, registered s id l r → sb_Name (rec_sbx r) ≠ name) →
  (∀ m, m ∈ vols → (vm_Name m ∉ sv_deleting s) ∧ ¬ held s (vm_Name m) true ∧
     (vm_ReadOnly m = true ∨ ¬ held s (vm_Name m) false)) →
  (∀ g, g ∈ gpus → ∀ id l r, registered s id l r → g ∉ sb_GPUs (rec_sbx r)) →
  exclusive (on_sandboxes (insert id (length (sv_heap s))) (on_heap (λ h, h ++ [rec]) s)).
Proof.
  intros Hex Hb Hid Hne Eid En Ev Eg Hname Hvol Hgpu. set (s' := on_sandboxes _ _).
  assert (∀ id' l r, registered s' id' l r →
    (id' = id ∧ r = rec) ∨ (id' ≠ id ∧ registered s id' l r)) as Hreg.
  { intros id' l r (Hs & Hh & Hl).
    destruct (registered_new s id rec Hb Hid id' l r Hs Hh) as [?|(? & ? & ?)]; [by left|right].
    by repeat split. }
  constructor.
  - intros id' l r Hs Hh.
    destruct (registered_new s id rec Hb Hid id' l r Hs Hh) as [[-> ->]|(? & ? & ?)]; [done|].
    by eapply (ex_keys _ Hex).
  - intros id1 id2 l1 l2 r1 r2 [[-> ->]|[N1 H1]]%Hreg [[-> ->]|[N2 H2]]%Hreg E Hnn; [done| | |].
    + rewrite En in E, Hnn. by destruct (Hname Hnn _ _ _ H2).
    + rewrite E, En in Hnn. rewrite En in E. by destruct (Hname Hnn _ _ _ H1).
    + by eapply (ex_names _ Hex).
  - assert (∀ id2 l2 r2 m1 m2, registered s id2 l2 r2 → m1 ∈ vols → m2 ∈ sb_Volumes (rec_sbx r2) →
      vm_Name m1 = vm_Name m2 → vm_ReadOnly m1 = true ∧ vm_ReadOnly m2 = true) as Hone.
    { intros id2 l2 r2 m1 m2 H2 Hm1 Hm2 E. destruct (Hvol _ Hm1) as (_ & Hw & Hr).
      assert (held s (vm_Name m1) false) as Hheld by (by exists id2, l2, r2, m2).
      split; [by destruct Hr|]. destruct (vm_ReadOnly m2) eqn:E2; [done|].
      destruct Hw. by exists id2, l2, r2, m2. }
    intros id1 id2 l1 l2 r1 r2 m1 m2 [[-> ->]|[N1 H1]]%Hreg [[-> ->]|[N2 H2]]%Hreg Hd Hm1 Hm2 E;
      [done| | |].
    + rewrite Ev in Hm1. by eapply Hone.
    + rewrite Ev in Hm2. destruct (Hone _ _ _ m2 m1 H1 Hm2 Hm1); done.
    + by eapply (ex_volumes _ Hex _ _ _ _ _ _ _ _ H1 H2).
  - intros id1 id2 l1 l2 r1 r2 g [[-> ->]|[N1 H1]]%Hreg [[-> ->]|[N2 H2]]%Hreg Hd Hg; [done| | |].
    + rewrite Eg in Hg. by eapply Hgpu.
    + intros Hg2. rewrite Eg in Hg2. by eapply Hgpu.
    + by eapply (ex_gpus _ Hex _ _ _ _ _ _ _ H1 H2).
  - intros v Hv (id' & l & r & m & [[-> ->]|[_ Hr]]%Hreg & Hm & <- & _).
    + rewrite Ev in Hm. by destruct (Hvol _ Hm) as [? _].
    + apply (ex_deleting _ Hex _ Hv). by exists id', l, r, m.
Qed.

(** ** What each section keeps *)
Lemma keeps_sbx r r' : rec_sbx r' = rec_sbx r → keeps r r'.
Proof. unfold keeps, is_live, is_state, state_of. intros ->. split; [done|]. intros. by split_and!. Qed.

Lemma keeps_reap now r : keeps r (reap_touch now r).
Proof. unfold reap_touch. destruct (busy r); by apply keeps_sbx. Qed.

(** The id, the name, the volumes and the GPUs. *)
Definition claims (sb : Sandbox) : string * string * list VolumeMount * list string :=
  (sb_ID sb, sb_Name sb, sb_Volumes sb, sb_GPUs sb).

Lemma keeps_on_sbx f r :
  claims (f (rec_sbx r)) = claims (rec_sbx r) →
  (sb_State (f (rec_sbx r)) ≠ StateTerminated → is_live r = true) → keeps r (on_sbx f r).
Proof.
  unfold claims. intros [= H1 H2 H3 H4] Hl. split; [done|]. cbn [on_sbx rec_sbx]. intros Hl'.
  split_and!; [|done..]. apply Hl. unfold is_live, is_state, state_of in Hl'.
  cbn [on_sbx rec_sbx] in Hl'. by apply negb_true_iff, String.eqb_neq in Hl'.
Qed.

Lemma is_live_true r : is_live r = true ↔ sb_State (rec_sbx r) ≠ StateTerminated.
Proof. unfold is_live, is_state, state_of. by rewrite negb_true_iff, String.eqb_neq. Qed.

Ltac same_state := apply keeps_on_sbx; [by destruct (rec_sbx _)|
  intros Hst; apply is_live_true; revert Hst; by destruct (rec_sbx _)].

Lemma keeps_network pol r : keeps r (on_sbx (set_Network pol) r).
Proof. same_state. Qed.
Lemma keeps_size c m d r : keeps r (on_sbx (set_Size c m d) r).
Proof. same_state. Qed.
Lemma keeps_schedule e k r : keeps r (on_sbx (set_Schedule e k) r).
Proof. same_state. Qed.
Lemma keeps_terminated r : keeps r (on_sbx (λ sb, set_State StateTerminated (sb_IdleSuspended sb) sb) r).
Proof. apply keeps_on_sbx; [by destruct (rec_sbx _)|]. intros Hst. by destruct (rec_sbx r). Qed.
Lemma keeps_live_state st f r :
  is_live r = true → keeps r (on_sbx (λ sb, set_State st (f sb) sb) r).
Proof. intros Hl. apply keeps_on_sbx; [by destruct (rec_sbx _)|done]. Qed.

Lemma is_dead_live s l r : is_dead s l = false → sv_heap s !! l = Some r → is_live r = true.
Proof. unfold is_dead. intros Hd Hr. rewrite Hr in Hd. by apply negb_false_iff. Qed.

(** A pointer that [find] returns is registered. *)
Lemma find_loop_in ref es : ∀ best l,
  find_loop ref best es = Some l →
  (∃ r, best = Some (l, r)) ∨ ∃ id r, (id, l, r) ∈ es.
Proof.
  induction es as [|[[id l0] r0] es IH]; intros best l; cbn [find_loop].
  - destruct best as [[l1 r1]|]; [|done]. cbn. intros [= <-]. left. eauto.
  - destruct (_ || _); [|destruct (is_live r0)].
    + intros Hf%IH. destruct Hf as [?|(i & r & ?)]; [by left|]. right.
      exists i, r. by right.
    + intros [= <-]. right. exists id, r0. by left.
    + intros Hf%IH. destruct Hf as [[r E]|(i & r & ?)].
      * destruct (match best with None => true | Some _ => _ end); simplify_eq; [|by left; eauto].
        right. exists id, r. by left.
      * right. exists i, r. by right.
Qed.

Lemma find_registered s ref l : find range s ref = Some l → ∃ id, sv_sandboxes s !! id = Some l.
Proof.
  unfold find. destruct (sv_sandboxes s !! ref) as [l'|] eqn:E; [intros [= <-]; eauto|].
  intros Hf. apply find_loop_in in Hf as [(r & ?)|(id & r & Hin)]; [done|].
  apply (elem_of_entries _ range_lists) in Hin as [? _]. eauto.
Qed.

Lemma lookup_registered s ref l r :
  lookup_rec range s ref = Ok (l, r) → sv_heap s !! l = Some r ∧ ∃ id, sv_sandboxes s !! id = Some l.
Proof.
  unfold lookup_rec. intros (l' & Hl & (r' & Hr & [= <- <-])%bind_ok)%bind_ok.
  apply of_option_ok in Hl, Hr. split; [done|]. by eapply find_registered.
Qed.

(** Requests that wait change the world by their section only. *)
Lemma updates_app a b : updates (a ++ b) = updates a ++ updates b.
Proof. apply omap_app. Qed.

Lemma updates_delete i ops x : x ∈ updates (delete i ops) → x ∈ updates ops.
Proof.
  unfold updates. rewrite !list_elem_of_omap. intros (o & Ho & E). exists o. split; [|done].
  eapply elem_of_submseteq; [exact Ho|]. apply sublist_submseteq, sublist_delete.
Qed.

Lemma inv_with_srv w s : Inv w → calm (w_srv w) s → Inv (with_srv s w).
Proof. intros HI Hc. by eapply inv_calm. Qed.

Lemma inv_waits w o : Inv w → updates [o] = [] → Inv (waits o w).
Proof.
  intros HI Ho. eapply inv_calm; [exact HI|apply calm_refl|done|done|].
  intros x. cbn [waits with_ops w_ops]. by rewrite updates_app, Ho, app_nil_r.
Qed.

Lemma inv_ends w i : Inv w → Inv (ends i w).
Proof.
  intros HI. eapply inv_calm; [exact HI|apply calm_refl|done|done|]. intros x. apply updates_delete.
Qed.

Lemma calm_records {A} (f : A → nat) (g : A → record → record) xs s :
  (∀ x r, rec_sbx (g x r) = rec_sbx r) →
  calm s (foldl (λ s x, on_rec (f x) (g x) s) s xs).
Proof.
  intros Hg. apply calm_fold. intros s' x.
  apply calm_on_rec. intros r _. by apply keeps_sbx.
Qed.

(** ** Every step keeps the invariant *)
Lemma inv_sb_ID w id l r :
  Inv w → sv_sandboxes (w_srv w) !! id = Some l → sv_heap (w_srv w) !! l = Some r →
  sb_ID (rec_sbx r) = id ∧ id ≠ ""%string.
Proof. intros HI. apply (ex_keys _ (inv_ex _ HI)). Qed.

Lemma inv_fresh w id : Inv w → id ∉ w_used w → sv_sandboxes (w_srv w) !! id = None.
Proof.
  intros HI Hid. destruct (sv_sandboxes (w_srv w) !! id) as [l|] eqn:E; [|done].
  by destruct (inv_keys _ HI _ _ E).
Qed.

Lemma resolve_create_id snaps q id export have bs :
  resolve_create cf range_env snaps q id export have = Ok bs → bs_ID bs = id.
Proof.
  unfold resolve_create. intros ([] & _ & Hq)%bind_ok. apply bind_ok in Hq as (q' & _ & Hq).
  apply guard_ok in Hq as [_ Hq]. apply bind_ok in Hq as (b & Hb & Hq).
  assert (bs_ID b = id) as Hid.
  { unfold lift_spec in Hb. destruct (Resolve _ _ _ _) as [b'|] eqn:E; [|done]. simplify_eq.
    revert E. unfold Resolve. intros E. repeat (apply bind_ok in E as (? & _ & E)). by simplify_eq. }
  apply bind_ok in Hq as ([] & _ & Hq). cbv zeta in Hq. apply bind_ok in Hq as ([] & _ & Hq).
  apply guard_ok in Hq as [_ Hq]. apply bind_ok in Hq as ([] & _ & Hq).
  apply bind_ok in Hq as ([] & _ & [= <-]). by destruct b.
Qed.

(** Registering a new record under a fresh id. *)
Lemma inv_register w id rec c s' :
  Inv w → id ∉ w_used w → id ≠ ""%string → sb_ID (rec_sbx rec) = id →
  s' = on_sandboxes (insert id (length (sv_heap (w_srv w)))) (on_heap (λ h, h ++ [rec]) (w_srv w)) →
  exclusive s' → creating_loc c = length (sv_heap (w_srv w)) →
  Inv {| w_srv := s'; w_creates := <[id := c]> (w_creates w); w_ops := w_ops w;
         w_used := {[id]} ∪ w_used w |}.
Proof.
  intros HI Hid Hne Hrec -> Hex Hc. pose proof (inv_fresh _ _ HI Hid) as Hnone.
  constructor; cbn [w_srv w_creates w_ops w_used on_sandboxes on_heap sv_sandboxes sv_heap sv_pools].
  - exact Hex.
  - intros id' l Hs. destruct (decide (id' = id)) as [->|Hd].
    + rewrite lookup_insert_eq in Hs. simplify_eq. split; [set_solver|].
      rewrite list_lookup_middle by done. eauto.
    + rewrite lookup_insert_ne in Hs by done. destruct (inv_keys _ HI _ _ Hs) as [? [r Hr]].
      split; [set_solver|]. exists r. by apply lookup_app_l_Some.
  - apply HI.
  - intros id' Hr. destruct (inv_ready _ HI _ Hr) as (? & ? & ? & ? & ?).
    assert (id' ≠ id) by congruence.
    rewrite !lookup_insert_ne by done. split_and!; [set_solver|done..].
  - intros id' c' Hc'. destruct (decide (id' = id)) as [->|Hd].
    + rewrite lookup_insert_eq in Hc'. simplify_eq. split; [set_solver|]. exists rec.
      rewrite Hc, list_lookup_middle, lookup_insert_eq by done. done.
    + rewrite lookup_insert_ne in Hc' by done.
      destruct (inv_creates _ HI _ _ Hc') as (? & r & Hr & Hrid & Hlive).
      split; [set_solver|]. exists r. split_and!; [by apply lookup_app_l_Some|done|].
      rewrite lookup_insert_ne by done. done.
  - intros l id' Hin. destruct (inv_updates _ HI _ _ Hin) as [Hu Hl]. split; [set_solver|].
    intros l' Hs. rewrite lookup_insert_ne in Hs by congruence. auto.
Qed.

Lemma inv_create w q id now export have gpu_ok w' :
  Inv w → step w (Ev_create q id now export have gpu_ok) = Some w' → Inv w'.
Proof.
  intros HI. cbn [step]. case_bool_decide as Hid; [done|]. cbn [orb].
  destruct (String.eqb_spec id "") as [|Hne]; [done|].
  destruct (bs ← resolve_create _ _ _ _ _ _ _; _) as [[s' bs']|] eqn:E; [|by intros [= <-]].
  apply bind_ok in E as (bs & Hbs & Hreg). apply resolve_create_id in Hbs.
  destruct (register_ok _ _ _ _ _ _ _ (inv_ex _ HI) Hreg) as (gpus & Hs' & _ & _ & Hn & Hv & Hg).
  cbv zeta in Hs'. rewrite Hbs in Hs'. intros [= <-].
  eapply inv_register; [done|done|done| |exact Hs'| |done].
  - cbn. by rewrite Hbs.
  - rewrite Hs'. eapply register_exclusive; [apply HI| | |done| |reflexivity|reflexivity|reflexivity| | |].
    + intros id' l Hs. by apply (inv_keys _ HI) in Hs as [_ ?].
    + by apply inv_fresh.
    + cbn. by rewrite Hbs.
    + exact Hn.
    + exact Hv.
    + exact Hg.
Qed.

(** *** A pooled sandbox takes the place of a boot *)
Lemma claim_from_ready key ps id ps' :
  claim_from key ps = Some (id, ps') → ready_ids ps ≡ₚ id :: ready_ids ps'.
Proof.
  revert ps'. induction ps as [|p ps IH]; intros ps'; cbn [claim_from]; [done|].
  unfold ready_ids in *. case_bool_decide.
  - destruct (po_ready p) as [|i ids] eqn:E; [done|]. intros [= <- <-].
    rewrite !fmap_cons. cbn [concat]. by rewrite E.
  - destruct (claim_from key ps) as [[i rest]|] eqn:E; [|done]. cbn. intros [= <- <-].
    rewrite !fmap_cons. cbn [concat]. rewrite (IH rest) by done. by rewrite Permutation_middle.
Qed.

Lemma claimPooled_ready bs ps id ps' :
  claimPooled bs ps = Some (id, ps') → ready_ids ps ≡ₚ id :: ready_ids ps'.
Proof.
  unfold claimPooled. destruct (poolKey bs) as [key|]; [|done]. cbn. apply claim_from_ready.
Qed.

Lemma set_ID_claims v r :
  is_live (on_sbx (set_ID v) r) = is_live r ∧ sb_ID (rec_sbx (on_sbx (set_ID v) r)) = v ∧
  sb_Name (rec_sbx (on_sbx (set_ID v) r)) = sb_Name (rec_sbx r) ∧
  sb_Volumes (rec_sbx (on_sbx (set_ID v) r)) = sb_Volumes (rec_sbx r) ∧
  sb_GPUs (rec_sbx (on_sbx (set_ID v) r)) = sb_GPUs (rec_sbx r).
Proof. unfold is_live, is_state, state_of. cbn [on_sbx rec_sbx]. by destruct (rec_sbx r). Qed.

(** [s'] has the claims of [s], one sandbox's under another id. *)
Lemma renamed_exclusive s s' id pooled :
  (∀ id' l r', sv_sandboxes s' !! id' = Some l → sv_heap s' !! l = Some r' →
     sb_ID (rec_sbx r') = id' ∧ id' ≠ ""%string) →
  (∀ id' l r', registered s' id' l r' → ∃ i r, registered s i l r ∧
     sb_Name (rec_sbx r') = sb_Name (rec_sbx r) ∧ sb_Volumes (rec_sbx r') = sb_Volumes (rec_sbx r) ∧
     sb_GPUs (rec_sbx r') = sb_GPUs (rec_sbx r) ∧
     ((id' = pooled ∧ i = id) ∨ (id' = i ∧ id' ≠ pooled ∧ id' ≠ id))) →
  sv_deleting s' = sv_deleting s → exclusive s → exclusive s'.
Proof.
  intros Hk Hback Hd Hex.
  assert (∀ i1 i2 id1 id2, (id1 = pooled ∧ i1 = id) ∨ (id1 = i1 ∧ id1 ≠ pooled ∧ id1 ≠ id) →
    (id2 = pooled ∧ i2 = id) ∨ (id2 = i2 ∧ id2 ≠ pooled ∧ id2 ≠ id) → (id1 = id2 ↔ i1 = i2)) as Hiff.
  { intros i1 i2 id1 id2. naive_solver. }
  constructor; [done| | | |].
  - intros id1 id2 l1 l2 r1 r2 (i1 & q1 & Q1 & N1 & _ & _ & I1)%Hback
      (i2 & q2 & Q2 & N2 & _ & _ & I2)%Hback E Hne.
    apply (Hiff _ _ _ _ I1 I2). eapply (ex_names _ Hex); [exact Q1|exact Q2|congruence|congruence].
  - intros id1 id2 l1 l2 r1 r2 m1 m2 (i1 & q1 & Q1 & _ & V1 & _ & I1)%Hback
      (i2 & q2 & Q2 & _ & V2 & _ & I2)%Hback Hne Hm1 Hm2 E.
    rewrite V1 in Hm1. rewrite V2 in Hm2.
    eapply (ex_volumes _ Hex _ _ _ _ _ _ _ _ Q1 Q2); [|done|done|done].
    intros Hi. by apply Hne, (Hiff _ _ _ _ I1 I2).
  - intros id1 id2 l1 l2 r1 r2 g (i1 & q1 & Q1 & _ & _ & G1 & I1)%Hback
      (i2 & q2 & Q2 & _ & _ & G2 & I2)%Hback Hne Hg.
    rewrite G1 in Hg. rewrite G2. eapply (ex_gpus _ Hex _ _ _ _ _ _ _ Q1 Q2); [|done].
    intros Hi. by apply Hne, (Hiff _ _ _ _ I1 I2).
  - intros v Hv (id' & l & r & m & (i & q & Q & _ & V & _)%Hback & Hm & Hn & _).
    rewrite V in Hm. rewrite Hd in Hv. apply (ex_deleting _ Hex v Hv). by exists i, l, q, m.
Qed.

(** What the move leaves at each id. *)
Lemma moved_lookup w id l pooled ps :
  Inv w → w_creates w !! id = Some (Claiming l ps.1) → 
  sv_sandboxes (w_srv w) !! pooled = None →
  let s' := move_to_pooled l id pooled (on_pools (λ _, ps.2) (w_srv w)) in
  ∀ id' l' r', sv_sandboxes s' !! id' = Some l' → sv_heap s' !! l' = Some r' →
    (id' = pooled ∧ l' = l ∧ ∃ r, sv_heap (w_srv w) !! l = Some r ∧ r' = on_sbx (set_ID pooled) r) ∨
    (id' ≠ pooled ∧ id' ≠ id ∧ sv_sandboxes (w_srv w) !! id' = Some l' ∧
     sv_heap (w_srv w) !! l' = Some r' ∧ l' ≠ l).
Proof.
  intros HI Hc Hp s' id' l' r' Hs Hh. cbn in Hs, Hh.
  destruct (inv_creates _ HI _ _ Hc) as (_ & r & Hr & Hrid & _). cbn [creating_loc] in Hr.
  rewrite list_lookup_alter in Hh. destruct (decide (id' = pooled)) as [->|Hd].
  - left. rewrite lookup_insert_eq in Hs. simplify_eq. rewrite decide_True, Hr in Hh by done.
    cbn in Hh. simplify_eq. eauto.
  - right. rewrite lookup_insert_ne in Hs by done. apply lookup_delete_Some in Hs as [Hne Hs].
    assert (l' ≠ l) as Hl.
    { intros ->. destruct (inv_sb_ID _ _ _ _ HI Hs Hr). congruence. }
    rewrite decide_False in Hh by done. by split_and!.
Qed.

Lemma inv_move w id l bs pooled ps :
  Inv w → w_creates w !! id = Some (Claiming l bs) →
  claimPooled bs (sv_pools (w_srv w)) = Some (pooled, ps) →
  Inv {| w_srv := move_to_pooled l id pooled (on_pools (λ _, ps) (w_srv w));
         w_creates := delete id (w_creates w); w_ops := w_ops w ++ [Starting l];
         w_used := w_used w |}.
Proof.
  intros HI Hc Hcl. pose proof (claimPooled_ready _ _ _ _ Hcl) as Hperm.
  destruct (inv_creates _ HI _ _ Hc) as (Hid & r & Hr & Hrid & Hlive). cbn [creating_loc] in *.
  assert (pooled ∈ ready_ids (sv_pools (w_srv w))) as Hin by (rewrite Hperm; by left).
  destruct (inv_ready _ HI _ Hin) as (Hpu & Hpne & Hpnone & Hpc & Hpup).
  pose proof (moved_lookup w id l pooled (bs, ps) HI Hc Hpnone) as Hmoved. cbn [fst snd] in Hmoved.
  pose proof (inv_nodup _ HI) as Hnd. rewrite Hperm in Hnd. apply NoDup_cons in Hnd as [Hpn Hnd].
  destruct (set_ID_claims pooled r) as (Sl & Si & Sn & Sv & Sg).
  constructor; cbn [w_srv w_creates w_ops w_used].
  - eapply (renamed_exclusive (w_srv w) _ id pooled); [| |done|apply HI].
    + intros id' l' r' Hs Hh. destruct (Hmoved _ _ _ Hs Hh)
        as [(-> & -> & r0 & Hr0 & ->)|(_ & _ & Hs' & Hh' & _)].
      * simplify_eq. by rewrite Si.
      * by eapply inv_sb_ID.
    + intros id' l' r' (Hs & Hh & Hl). destruct (Hmoved _ _ _ Hs Hh)
        as [(-> & -> & r0 & Hr0 & ->)|(? & ? & Hs' & Hh' & _)].
      * simplify_eq. exists (sb_ID (rec_sbx r)), r. rewrite Sl in Hl.
        split_and!; [|done|done|done|by left]. split_and!; [by apply Hlive|done|done].
      * exists id', r'. split_and!; [by split_and!|done|done|done|by right].
  - intros id' l' Hs. cbn in Hs |- *. destruct (decide (id' = pooled)) as [->|Hd].
    + rewrite lookup_insert_eq in Hs. simplify_eq. split; [done|]. rewrite list_lookup_alter, Hr.
      case_decide; by eexists.
    + rewrite lookup_insert_ne in Hs by done. apply lookup_delete_Some in Hs as [Hne Hs].
      destruct (inv_keys _ HI _ _ Hs) as [? [r0 Hr0]]. split; [done|].
      rewrite list_lookup_alter. case_decide; [rewrite Hr|rewrite Hr0]; by eexists.
  - exact Hnd.
  - cbn [move_to_pooled on_sandboxes on_rec on_heap on_pools sv_pools sv_sandboxes]. intros id' Hid'.
    assert (id' ∈ ready_ids (sv_pools (w_srv w))) as Hid'' by (rewrite Hperm; by right).
    destruct (inv_ready _ HI _ Hid'') as (? & ? & Hnone & Hcn & Hup). split_and!; [done|done| | |].
    + rewrite lookup_insert_ne by (intros ->; done). apply lookup_delete_None. by right.
    + apply lookup_delete_None. by right.
    + intros l0. rewrite updates_app, app_nil_r. apply Hup.
  - intros id' c Hc'. apply lookup_delete_Some in Hc' as [Hne Hc'].
    destruct (inv_creates _ HI _ _ Hc') as (? & r0 & Hr0 & Hrid0 & Hlive0). split; [done|].
    assert (creating_loc c ≠ l) by (intros E; rewrite E in Hr0; simplify_eq; congruence).
    exists r0. cbn [move_to_pooled on_sandboxes on_rec on_heap on_pools sv_heap sv_sandboxes].
    rewrite list_lookup_alter, decide_False by done. split_and!; [done|done|]. intros Hl.
    rewrite lookup_insert_ne by congruence. rewrite lookup_delete_ne by done. auto.
  - intros l0 id'. rewrite updates_app, app_nil_r. intros Hup.
    destruct (inv_updates _ HI _ _ Hup) as [? Hl0]. split; [done|]. intros l' Hs. cbn in Hs.
    rewrite lookup_insert_ne in Hs by (intros ->; by destruct (Hpup l0)).
    apply lookup_delete_Some in Hs as [_ Hs]. auto.
Qed.

(** *** A create that fails, a pool that fills *)
Lemma inv_drop_create w id : Inv w → Inv (with_creates (delete id (w_creates w)) w).
Proof.
  intros HI. constructor; cbn [with_creates w_srv w_creates w_ops w_used]; try apply HI.
  - intros i Hi. destruct (inv_ready _ HI _ Hi) as (? & ? & ? & ? & ?). split_and!; try done.
    apply lookup_delete_None. by right.
  - intros i c Hi. apply lookup_delete_Some in Hi as [_ Hi]. by apply (inv_creates _ HI).
Qed.

Lemma inv_create_failed w id l :
  Inv w → w_creates w !! id = Some (Booting l) →
  Inv (with_srv (create_failed id (w_srv w)) (with_creates (delete id (w_creates w)) w)).
Proof.
  intros HI Hc.
  constructor; cbn [with_srv with_creates w_srv w_creates w_ops w_used create_failed on_sandboxes
                    sv_sandboxes sv_heap sv_pools].
  - eapply fewer_exclusive; [apply fewer_delete|apply HI].
  - intros i l' Hs. apply lookup_delete_Some in Hs as [_ Hs]. by apply (inv_keys _ HI).
  - apply HI.
  - intros i Hi. destruct (inv_ready _ HI _ Hi) as (? & ? & ? & ? & ?). split_and!; try done;
      apply lookup_delete_None; by right.
  - intros i c Hi. apply lookup_delete_Some in Hi as [Hne Hi].
    destruct (inv_creates _ HI _ _ Hi) as (? & r & ? & ? & Hl). split; [done|]. exists r.
    split_and!; [done|done|]. intros Hlive. cbn. rewrite lookup_delete_ne by done. auto.
  - intros l' i Hi. destruct (inv_updates _ HI _ _ Hi) as [? Hl]. split; [done|].
    intros l0 Hs. apply lookup_delete_Some in Hs as [_ Hs]. auto.
Qed.

Lemma ready_ids_insert ps k p p' :
  ps !! k = Some p →
  (po_ready p' = po_ready p → ready_ids (<[k := p']> ps) = ready_ids ps) ∧
  ∀ id, po_ready p' = po_ready p ++ [id] → ready_ids (<[k := p']> ps) ≡ₚ id :: ready_ids ps.
Proof.
  intros Hk. assert (k < length ps)%nat as Hlt by by eapply lookup_lt_Some.
  unfold ready_ids.
  assert (concat (po_ready <$> ps) = concat (po_ready <$> (take k ps ++ p :: drop (S k) ps))) as ->
    by by rewrite take_drop_middle.
  rewrite insert_take_drop by done. rewrite !fmap_app, !concat_app, !fmap_cons. cbn [concat]. split.
  - by intros ->.
  - intros id ->. rewrite <- (app_assoc (po_ready p) [id]), !(app_assoc _ (po_ready p)).
    cbn [app]. by rewrite <- Permutation_middle.
Qed.

Lemma inv_filled w k id err w' :
  Inv w → step w (Ev_filled k id err) = Some w' → Inv w'.
Proof.
  intros HI. cbn [step]. destruct (sv_pools (w_srv w) !! k) as [p|] eqn:Hk; [|done].
  case_bool_decide as Hid; [done|]. destruct (String.eqb_spec id "") as [|Hne]; [done|].
  cbn [orb]. destruct (po_filling p <=? 0); [done|]. intros [= <-].
  destruct (ready_ids_insert _ _ p (fill_end p id err) Hk) as [Hsame Hnew].
  pose proof (inv_fresh _ _ HI Hid) as Hnone.
  assert (ready_ids (<[k := fill_end p id err]> (sv_pools (w_srv w))) = ready_ids (sv_pools (w_srv w)) ∨
          ready_ids (<[k := fill_end p id err]> (sv_pools (w_srv w))) ≡ₚ id :: ready_ids (sv_pools (w_srv w)))
    as Hready by (destruct err; [left; by apply Hsame|right; by apply Hnew]).
  constructor; cbn [w_srv w_creates w_ops w_used on_pools sv_pools sv_sandboxes sv_heap].
  - eapply fewer_exclusive; [|apply HI]. by apply fewer_same.
  - intros i l Hs. destruct (inv_keys _ HI _ _ Hs). split; [set_solver|done].
  - destruct Hready as [E|E]; rewrite E; [apply HI|]. apply NoDup_cons. split; [|apply HI].
    intros Hi. by destruct (inv_ready _ HI _ Hi).
  - intros i Hi. assert (i = id ∨ i ∈ ready_ids (sv_pools (w_srv w))) as [->|Hi'].
    { destruct Hready as [E|E]; rewrite E in Hi; [by right|]. by apply elem_of_cons in Hi. }
    + split_and!; [set_solver|done|done| |].
      * destruct (w_creates w !! id) eqn:E; [|done]. by destruct (inv_creates _ HI _ _ E).
      * intros l Hl. by destruct (inv_updates _ HI _ _ Hl).
    + destruct (inv_ready _ HI _ Hi') as (? & ? & ? & ? & ?). split_and!; [set_solver|done..].
  - intros i c Hc. destruct (inv_creates _ HI _ _ Hc) as [? ?]. split; [set_solver|done].
  - intros l i Hi. destruct (inv_updates _ HI _ _ Hi) as [? ?]. split; [set_solver|done].
Qed.

(** *** An update: it remembers the id, and renames under the server's lock *)
Lemma inv_begin_update w l r q c net ref :
  Inv w → lookup_rec range (w_srv w) ref = Ok (l, r) →
  Inv (waits (Updating l (sb_ID (rec_sbx r)) q c net) w).
Proof.
  intros HI Hl. apply lookup_registered in Hl as (Hh & id & Hs).
  destruct (inv_sb_ID _ _ _ _ HI Hs Hh) as [<- Hne]. constructor; try apply HI.
  - intros i Hi. destruct (inv_ready _ HI _ Hi) as (? & ? & Hnone & ? & Hup). split_and!; try done.
    intros l'. cbn [waits with_ops w_ops]. rewrite updates_app, elem_of_app.
    intros [?|Hx%list_elem_of_singleton]; [by eapply Hup|]. by simplify_eq.
  - intros l' i. cbn [waits with_ops w_ops w_srv w_used]. rewrite updates_app, elem_of_app.
    intros [?|Hx%list_elem_of_singleton]; [by apply (inv_updates _ HI)|]. simplify_eq.
    split; [by apply (inv_keys _ HI) in Hs as [? _]|]. intros l0 Hs0. congruence.
Qed.

Lemma updated_claims q c sb :
  sb_ID (updated q c sb) = sb_ID sb ∧ sb_State (updated q c sb) = sb_State sb ∧
  sb_Name (updated q c sb) = default (sb_Name sb) (up_Name q) ∧
  sb_Volumes (updated q c sb) = sb_Volumes sb ∧ sb_GPUs (updated q c sb) = sb_GPUs sb.
Proof.
  unfold updated, opt_apply. destruct sb, (up_Name q), (up_Labels q), (cu_idle c), (cu_action c), (cu_life c);
    done.
Qed.

Lemma apply_update_exclusive w i l id q c s' :
  Inv w → w_ops w !! i = Some (Updating l id q c None) →
  apply_update range l id q c (w_srv w) = Ok s' → exclusive s'.
Proof.
  intros HI Hi. unfold apply_update. destruct (records_changed q); [|intros [= <-]; apply HI].
  rewrite guard_ok. intros [Hn [= <-]].
  assert (∀ l', sv_sandboxes (w_srv w) !! id = Some l' → l' = l) as Hown.
  { apply (inv_updates _ HI). unfold updates. apply list_elem_of_omap. eexists.
    split; [by eapply list_elem_of_lookup_2|done]. }
  set (s' := on_rec _ _ _). set (s := w_srv w) in *.
  (* every record of [s'] is one of [s], with another name at most *)
  assert (∀ k l' r', registered s' k l' r' → ∃ r, registered s k l' r ∧
    sb_ID (rec_sbx r') = sb_ID (rec_sbx r) ∧ sb_Volumes (rec_sbx r') = sb_Volumes (rec_sbx r) ∧
    sb_GPUs (rec_sbx r') = sb_GPUs (rec_sbx r) ∧
    sb_Name (rec_sbx r') = if decide (l = l') then default (sb_Name (rec_sbx r)) (up_Name q)
                           else sb_Name (rec_sbx r)) as Hback.
  { intros k l' r' (Hs & Hh & Hl). cbn in Hs, Hh. rewrite list_lookup_alter in Hh. case_decide.
    - apply fmap_Some in Hh as (r & Hr & ->). subst l'. exists r.
      destruct (updated_claims q c (rec_sbx r)) as (? & Hst & ? & ? & ?). split_and!; try done.
      split_and!; [done|done|]. apply is_live_true. rewrite <- Hst. by apply is_live_true in Hl.
    - exists r'. split_and!; [by split_and!|done..]. }
  assert (∀ n k l' r', up_Name q = Some n → n ≠ ""%string → registered s k l' r' → l' ≠ l →
    sb_Name (rec_sbx r') ≠ n) as Hfree.
  { intros n k l' r' Eq Hnn Hr' Hne E. rewrite Eq in Hn.
    assert (nameTakenLocked range s n id = true); [|congruence].
    apply (nameTaken_spec _ range_lists). split; [done|]. exists k, l', r'. split_and!; [|done|done].
    intros ->. apply Hne, Hown. by destruct Hr'. }
  assert (∀ k1 k2 l1 l2 r1 r2, registered s k1 l1 r1 → registered s k2 l2 r2 → l1 = l2 → k1 = k2) as Hloc.
  { intros k1 k2 l1 l2 r1 r2 (S1 & H1' & _) (S2 & H2' & _) ->.
    destruct (ex_keys _ (inv_ex _ HI) _ _ _ S1 H1'), (ex_keys _ (inv_ex _ HI) _ _ _ S2 H2').
    congruence. }
  constructor.
  - intros k l' r' Hs Hh. cbn in Hs, Hh. rewrite list_lookup_alter in Hh. case_decide.
    + apply fmap_Some in Hh as (r & Hr & ->). cbn [on_sbx rec_sbx].
      destruct (updated_claims q c (rec_sbx r)) as (-> & _). subst l'. by eapply (ex_keys _ (inv_ex _ HI)).
    + by eapply (ex_keys _ (inv_ex _ HI)).
  - intros k1 k2 l1 l2 r1 r2 (q1 & Q1 & _ & _ & _ & N1)%Hback (q2 & Q2 & _ & _ & _ & N2)%Hback E Hne.
    revert N1 N2. destruct (decide (l = l1)) as [E1|D1], (decide (l = l2)) as [E2|D2]; intros N1 N2.
    + eapply (Hloc _ _ _ _ _ _ Q1 Q2). congruence.
    + destruct (up_Name q) as [n|] eqn:En; cbn in N1.
      * destruct (Hfree n _ _ _ eq_refl ltac:(congruence) Q2 ltac:(done)). congruence.
      * eapply (ex_names _ (inv_ex _ HI)); [exact Q1|exact Q2|congruence|congruence].
    + destruct (up_Name q) as [n|] eqn:En; cbn in N2.
      * destruct (Hfree n _ _ _ eq_refl ltac:(congruence) Q1 ltac:(done)). congruence.
      * eapply (ex_names _ (inv_ex _ HI)); [exact Q1|exact Q2|congruence|congruence].
    + eapply (ex_names _ (inv_ex _ HI)); [exact Q1|exact Q2|congruence|congruence].
  - intros k1 k2 l1 l2 r1 r2 m1 m2 (q1 & Q1 & _ & V1 & _)%Hback (q2 & Q2 & _ & V2 & _)%Hback Hd Hm1 Hm2.
    rewrite V1 in Hm1. rewrite V2 in Hm2. by eapply (ex_volumes _ (inv_ex _ HI) _ _ _ _ _ _ _ _ Q1 Q2).
  - intros k1 k2 l1 l2 r1 r2 g (q1 & Q1 & _ & _ & G1 & _)%Hback (q2 & Q2 & _ & _ & G2 & _)%Hback Hd Hg.
    rewrite G1 in Hg. rewrite G2. by eapply (ex_gpus _ (inv_ex _ HI) _ _ _ _ _ _ _ Q1 Q2).
  - intros v Hv (k & l' & r' & m & (r & Q & _ & V & _)%Hback & Hm & Hvn & _). rewrite V in Hm.
    apply (ex_deleting _ (inv_ex _ HI) v Hv). by exists k, l', r, m.
Qed.

Lemma inv_on_rec w l f :
  Inv w → exclusive (on_rec l f (w_srv w)) →
  (∀ r, sb_ID (rec_sbx (f r)) = sb_ID (rec_sbx r) ∧ is_live (f r) = is_live r) →
  Inv (with_srv (on_rec l f (w_srv w)) w).
Proof.
  intros HI Hex Hf.
  constructor; cbn [with_srv w_srv w_creates w_ops w_used on_rec on_heap sv_sandboxes sv_heap sv_pools];
    try apply HI.
  - exact Hex.
  - intros id l' Hs. destruct (inv_keys _ HI _ _ Hs) as [? [r Hr]]. split; [done|].
    rewrite list_lookup_alter, Hr. case_decide as E; [subst l'; rewrite Hr|]; by eexists.
  - intros id c Hc. destruct (inv_creates _ HI _ _ Hc) as (? & r & Hr & Hid & Hl). split; [done|].
    rewrite list_lookup_alter, Hr. case_decide as E; [|by exists r]. rewrite E, Hr. exists (f r).
    destruct (Hf r) as [-> ->]. done.
Qed.

Lemma inv_apply w i l id q c s' :
  Inv w → w_ops w !! i = Some (Updating l id q c None) →
  apply_update range l id q c (w_srv w) = Ok s' → Inv (with_srv s' w).
Proof.
  intros HI Hi Ha. pose proof (apply_update_exclusive _ _ _ _ _ _ _ HI Hi Ha) as Hex.
  unfold apply_update in Ha. destruct (records_changed q); [|simplify_eq; by apply inv_with_srv, calm_refl].
  apply guard_ok in Ha as [_ [= <-]]. apply inv_on_rec; [done|done|].
  intros r. cbn [on_sbx rec_sbx]. destruct (updated_claims q c (rec_sbx r)) as (-> & Hst & _).
  split; [done|]. unfold is_live, is_state, state_of. cbn [on_sbx rec_sbx]. by rewrite Hst.
Qed.

Lemma inv_delete_volume w name s' :
  Inv w → delete_volume_begin range (w_srv w) name = Ok s' → Inv (with_srv s' w).
Proof.
  intros HI. unfold delete_volume_begin. intros ([] & _ & Hd)%bind_ok.
  rewrite !guard_ok in Hd. destruct Hd as (_ & Ha & [= <-]).
  apply negb_false_iff, String.eqb_eq in Ha.
  apply (holders_spec range range_lists _ _ (exclusive_ids_named _ (inv_ex _ HI))) in Ha.
  constructor; try apply HI. destruct (inv_ex _ HI) as [E1 E2 E3 E4 E5]. constructor; try done.
  intros v. cbn [with_srv w_srv on_deleting sv_deleting].
  intros [->%elem_of_singleton|Hv]%elem_of_union; [exact Ha|by apply E5].
Qed.

Lemma calm_sub_deleting d s : d ⊆ sv_deleting s → calm s (on_deleting (λ _, d) s).
Proof. intros Hd. by apply calm_same. Qed.

Lemma calm_use s ref background now : calm s (snd (use range s ref background now)).
Proof.
  unfold use. destruct background; [apply calm_refl|].
  destruct (lookup_rec range s ref) as [[l r]|]; [|apply calm_refl]. cbn [snd].
  apply calm_on_rec. intros r' _. by apply keeps_sbx.
Qed.

Lemma calm_resize_end l id was got may err now s : calm s (resize_end l id was got may err now s).
Proof.
  unfold resize_end. destruct (_ && _); [by apply calm_same|].
  eapply calm_trans; [|apply calm_on_rec]; [by apply calm_same|]. intros r _.
  eapply keeps_trans; [apply keeps_size|]. by apply keeps_sbx.
Qed.

Lemma calm_take_end l id sandbox image sched answer now s :
  calm s (take_end l id sandbox image sched answer now s).
Proof.
  unfold take_end. eapply calm_trans; [|apply calm_on_rec; intros r _; by apply keeps_sbx].
  by destruct answer; apply calm_same.
Qed.

Lemma calm_schedule s ref q now : calm s (snd (setSnapshotSchedule cf range s ref q now)).
Proof.
  unfold setSnapshotSchedule. destruct (sched ← _; _) as [[l sched]|]; [|apply calm_refl]. cbn [snd].
  apply calm_on_rec. intros r _. eapply keeps_trans; [apply keeps_schedule|]. by apply keeps_sbx.
Qed.

Lemma calm_live_state l st f s :
  is_dead s l = false → calm s (on_rec l (on_sbx (λ sb, set_State st (f sb) sb)) s).
Proof. intros Hd. apply calm_on_rec. intros r Hr. eapply keeps_live_state, is_dead_live; eauto. Qed.

Lemma inv_transit w r o w' :
  Inv w → (∀ l, updates [o l] = []) → transit_op r o w = Some w' → Inv w'.
Proof.
  intros HI Ho. unfold transit_op. destruct r as [l|]; [|by intros [= <-]].
  destruct (in_transit _ _); [done|]. intros [= <-]. by apply inv_waits.
Qed.

(** Sections that only touch what a record keeps about itself. *)
Lemma inv_srv_ends w s i : Inv w → calm (w_srv w) s → Inv (with_srv s (ends i w)).
Proof. intros HI Hc. apply (inv_with_srv (ends i w)); [by apply inv_ends|done]. Qed.

Lemma inv_suspend_answers w i l (idle : bool) (err : option backend_error) now :
  Inv w → (err = None → is_dead (w_srv w) l = false) →
  Inv (with_srv (match err with
                 | None => suspended l idle (w_srv w)
                 | Some _ => if idle then on_rec l (touch now) (w_srv w) else w_srv w
                 end) (ends i w)).
Proof.
  intros HI Hd. apply inv_srv_ends; [done|]. destruct err as [e|].
  - destruct idle; [|apply calm_refl]. apply calm_on_rec. intros r _. by apply keeps_sbx.
  - by apply (calm_live_state l StateSuspended (λ _ : Sandbox, idle)), Hd.
Qed.

Lemma inv_resume_answers w i l (err : option backend_error) now :
  Inv w → (err = None → is_dead (w_srv w) l = false) →
  Inv (with_srv (match err with None => resumed l now (w_srv w) | Some _ => w_srv w end) (ends i w)).
Proof.
  intros HI Hd. apply inv_srv_ends; [done|]. destruct err as [e|]; [apply calm_refl|].
  apply calm_on_rec. intros r Hr. eapply keeps_trans; [|by apply keeps_sbx].
  eapply (keeps_live_state StateRunning (λ _ : Sandbox, false)), is_dead_live; eauto.
Qed.

Lemma inv_reap w now w' : Inv w → step w (Ev_reap now) = Some w' → Inv w'.
Proof.
  intros HI. cbn [step]. unfold reap_scan. intros [= <-].
  eapply inv_calm; [exact HI| |done|done|].
  - cbn [with_srv w_srv].
    apply calm_fold. intros s [[id l] r0]. apply calm_on_rec. intros r _. apply keeps_reap.
  - intros x. cbn [with_srv with_ops w_ops]. rewrite updates_app, elem_of_app. intros [?|Hx]; [done|].
    exfalso. unfold updates in Hx. apply list_elem_of_omap in Hx as (o & Ho & E).
    apply list_elem_of_omap in Ho as ([l v] & _ & Ho). destruct v; by simplify_eq.
Qed.

Lemma inv_update_step w ref q background now export w' :
  Inv w → step w (Ev_update ref q background now export) = Some w' → Inv w'.
Proof.
  intros HI. cbn [step]. destruct (no_changes q); [by intros [= <-]|].
  destruct (lookup_rec range (w_srv w) ref) as [[l r]|] eqn:El; [|by intros [= <-]].
  set (s1 := if background then _ else _). set (w1 := with_srv s1 w).
  assert (Inv w1) as HI1.
  { apply inv_with_srv; [done|]. subst s1. destruct background; [apply calm_refl|].
    apply calm_on_rec. intros r' _. by apply keeps_sbx. }
  destruct (check_update _ _ _ _ _ _ _) as [[c net]|]; [|by intros [= <-]].
  intros [= <-]. apply lookup_registered in El as (Hh & id & Hs).
  destruct (inv_sb_ID _ _ _ _ HI Hs Hh) as [Hid _].
  assert (∃ r1, lookup_rec range (w_srv w1) id = Ok (l, r1) ∧ sb_ID (rec_sbx r1) = sb_ID (rec_sbx r))
    as (r1 & Hl1 & <-).
  { unfold lookup_rec, find. subst w1 s1. destruct background; cbn [with_srv w_srv].
    - rewrite Hs. cbn. rewrite Hh. by exists r.
    - cbn [on_rec on_heap sv_sandboxes sv_heap]. rewrite Hs. cbn.
      rewrite list_lookup_alter, decide_True, Hh by done. cbn. by exists (touch now r). }
  by eapply inv_begin_update.
Qed.

Lemma inv_network w i err w' : Inv w → step w (Ev_network i err) = Some w' → Inv w'.
Proof.
  intros HI. cbn [step]. destruct (w_ops w !! i) as [o|] eqn:Ei; [|done].
  destruct o as [| | | |l id q c [pol|]| | |]; try done.
  destruct err; intros [= <-]; [by apply inv_ends|].
  eapply inv_calm; [exact HI| |done|done|].
  - apply calm_on_rec. intros r _. apply keeps_network.
  - intros x. cbn [with_srv with_ops w_ops]. unfold updates. rewrite !list_elem_of_omap.
    intros (o & Ho & E). apply list_elem_of_lookup in Ho as [j Hj].
    destruct (decide (i = j)) as [->|Hne].
    + rewrite list_lookup_insert in Hj. case_decide as Hj'; [|by destruct Hj'; split; [|eapply lookup_lt_Some]].
      simplify_eq. eexists. split; [by eapply list_elem_of_lookup_2|done].
    + rewrite list_lookup_insert_ne in Hj by done. exists o.
      split; [by eapply list_elem_of_lookup_2|done].
Qed.

Lemma inv_step w e w' : Inv w → late w e = false → step w e = Some w' → Inv w'.
Proof.
  intros HI Hlate Hstep. destruct e.
  - by eapply inv_create.
  - (* claim *)
    cbn [step] in Hstep. destruct (w_creates w !! id) as [[l bs|l]|] eqn:Ec; [|done|done].
    destruct (claimPooled bs _) as [[pooled ps]|] eqn:Ep; simplify_eq; [by eapply inv_move|].
    destruct (inv_creates _ HI _ _ Ec) as (Hu & r & Hr & Hid & Hl).
    constructor; cbn [with_creates w_srv w_creates w_ops w_used]; try apply HI.
    + intros i Hi. destruct (inv_ready _ HI _ Hi) as (? & ? & ? & ? & ?). split_and!; try done.
      rewrite lookup_insert_ne; [done|congruence].
    + intros i c Hi. destruct (decide (id = i)) as [->|Hne].
      * rewrite lookup_insert_eq in Hi. simplify_eq. split; [done|]. by exists r.
      * rewrite lookup_insert_ne in Hi by done. by apply (inv_creates _ HI).
  - (* boot *)
    cbn [step] in Hstep. destruct (w_creates w !! id) as [[l bs|l]|] eqn:Ec; [done| |done].
    destruct err; simplify_eq; [by eapply inv_create_failed|].
    apply inv_waits; [by apply inv_drop_create|done].
  - cbn [step late] in *. destruct (w_ops w !! i) as [[]|]; simplify_eq.
    apply inv_srv_ends; [done|]. by apply (calm_live_state l StateRunning sb_IdleSuspended).
  - cbn [step] in Hstep. destruct (sv_pools _ !! k) as [p|] eqn:Ek; [|done]. cbn in Hstep.
    destruct (fill_begin p) as [p'|] eqn:Ef; [|done]. simplify_eq. apply inv_with_srv; [done|].
    apply calm_same; [done|done|done|]. apply (ready_ids_insert _ _ p); [done|].
    unfold fill_begin in Ef. destruct (may_fill p); by simplify_eq.
  - by eapply inv_filled.
  - cbn [step] in Hstep. simplify_eq. apply inv_with_srv; [done|]. apply calm_use.
  - eapply inv_transit; [exact HI| |exact Hstep]; done.
  - cbn [step] in Hstep. destruct (in_transit _ _); [done|]. simplify_eq.
    destruct (idle_begin _ _ _); [by apply inv_waits|done].
  - cbn [step late] in *. destruct (w_ops w !! i) as [[]|]; simplify_eq.
    apply inv_suspend_answers; [done|]. by intros ->.
  - eapply inv_transit; [exact HI| |exact Hstep]; done.
  - cbn [step] in Hstep. destruct (wake_begin _ _) as [[l'|]|]; simplify_eq; try done.
    by eapply (inv_transit w (Ok l') Resuming).
  - cbn [step late] in *. destruct (w_ops w !! i) as [[]|]; simplify_eq.
    apply inv_resume_answers; [done|]. by intros ->.
  - cbn [step] in Hstep. destruct (terminate_begin _ _ _) as [[[l ?]|]|]; simplify_eq; try done.
    by apply inv_waits.
  - by eapply inv_reap.
  - cbn [step] in Hstep. destruct (w_ops w !! i) as [[]|]; simplify_eq. apply inv_srv_ends; [done|].
    destruct err; [apply calm_refl|]. apply calm_on_rec. intros r _. apply keeps_terminated.
  - cbn [step] in Hstep. simplify_eq. apply inv_with_srv; [done|]. apply calm_forget, HI.
  - by eapply inv_update_step.
  - by eapply inv_network.
  - cbn [step] in Hstep. destruct (w_ops w !! i) as [[| | | |l id q c [pol|]| | |]|] eqn:Ei; try done.
    destruct (apply_update _ _ _ _ _ _) as [s'|] eqn:Ea; simplify_eq; [|by apply inv_ends].
    change (with_srv s' (ends i w)) with (ends i (with_srv s' w)). apply inv_ends. by eapply inv_apply.
  - cbn [step] in Hstep. destruct (resize_begin _ _ _ _) as [[[[[id size] may]|] s']|] eqn:Er;
      simplify_eq; try done.
    destruct (sv_heap (w_srv w) !! l) as [r|] eqn:El; simplify_eq.
    apply inv_with_srv; [by apply inv_waits|]. unfold resize_begin in Er.
    apply bind_ok in Er as (r' & _ & Er). apply guard_ok in Er as [_ Er].
    apply bind_ok in Er as (sz & _ & Er). destruct (_ && _); [done|].
    rewrite !guard_ok in Er. destruct Er as (_ & _ & [= _ _ _ <-]). by apply calm_same.
  - cbn [step] in Hstep. destruct (w_ops w !! i) as [[]|]; simplify_eq. apply inv_srv_ends; [done|].
    apply calm_resize_end.
  - cbn [step] in Hstep. simplify_eq. apply inv_with_srv; [done|]. apply calm_on_rec. intros r _.
    by apply keeps_sbx.
  - cbn [step] in Hstep. simplify_eq. apply inv_with_srv; [done|]. apply calm_on_rec. intros r _.
    by apply keeps_sbx.
  - cbn [step] in Hstep. destruct (take_begin _ _) as [[id s']|] eqn:Et; [|by simplify_eq].
    destruct (sv_heap (w_srv w) !! l) as [r|] eqn:El; simplify_eq; [|done].
    apply inv_with_srv; [by apply inv_waits|]. unfold take_begin in Et. apply guard_ok in Et as [_ Et].
    apply bind_ok in Et as (r' & _ & Et). rewrite !guard_ok in Et.
    destruct Et as (_ & _ & _ & [= _ <-]). apply calm_on_rec. intros r0 _. by apply keeps_sbx.
  - cbn [step] in Hstep. destruct (w_ops w !! i) as [[]|]; simplify_eq. apply inv_srv_ends; [done|].
    apply calm_take_end.
  - cbn [step] in Hstep. simplify_eq. apply inv_with_srv; [done|]. apply calm_schedule.
  - cbn [step] in Hstep. simplify_eq. apply inv_with_srv; [done|]. unfold scheduleTick. cbn [snd].
    apply (calm_records (λ l, l) (λ _ r, set_snap (rec_lastScheduled r) true (rec_Snapshotting r) r)).
    done.
  - cbn [step] in Hstep. simplify_eq. apply inv_with_srv; [done|]. apply calm_on_rec. intros r _.
    by apply keeps_sbx.
  - cbn [step] in Hstep. simplify_eq. apply inv_with_srv; [done|]. by apply calm_same.
  - cbn [step] in Hstep. unfold deleteSnapshot in Hstep.
    destruct (sv_snapshots _ !! id); simplify_eq; [|done]. apply inv_with_srv; [done|]. by apply calm_same.
  - cbn [step] in Hstep. simplify_eq. apply inv_with_srv; [done|]. by apply calm_same.
  - cbn [step] in Hstep. destruct (delete_volume_begin _ _ _) as [s'|] eqn:Ed; simplify_eq; [|done].
    change (with_srv s' (waits (Deleting name) w)) with (waits (Deleting name) (with_srv s' w)).
    apply inv_waits; [by eapply inv_delete_volume|done].
  - cbn [step] in Hstep. destruct (w_ops w !! i) as [[]|]; simplify_eq. apply inv_srv_ends; [done|].
    apply calm_same; [done|done| |done]. cbn. set_solver.
Qed.

Lemma inv_initial pools : ready_ids pools = [] → Inv (initial pools).
Proof.
  intros Hp. constructor; cbn [initial w_srv w_creates w_ops w_used sv_sandboxes sv_pools].
  - constructor; cbn; unfold registered, held; cbn; set_solver.
  - done.
  - rewrite Hp. constructor.
  - rewrite Hp. set_solver.
  - done.
  - cbn. set_solver.
Qed.

Lemma inv_run es : ∀ w w', Inv w → timely w es = true → run w es = Some w' → Inv w'.
Proof.
  induction es as [|e es IH]; intros w w' HI; cbn [timely run]; [by intros _ [= <-]|].
  rewrite andb_true_iff, negb_true_iff. intros [Hl Ht]. destruct (step w e) as [w1|] eqn:Es; [|done].
  cbn. apply IH; [by eapply inv_step|done].
Qed.

(** C2. However the requests, the backend's answers, the reaper and the pools
    interleave, and as long as no answer to a suspend, a resume or a create
    finds its sandbox terminated meanwhile: no two live sandboxes have one
    name; a volume has one writer or only readers; a GPU is one sandbox's; and
    a volume being deleted is no sandbox's. *)
Theorem live_sandboxes_exclusive pools es w :
  ready_ids pools = [] → timely (initial pools) es = true → run (initial pools) es = Some w →
  exclusive (w_srv w).
Proof. intros Hp Ht Hr. by eapply inv_ex, inv_run; [apply inv_initial|..]. Qed.

(** ** A cordon *)
Definition uncordons (e : event) : bool :=
  match e with Ev_cordon on => negb on | _ => false end.

(** Whether the server is cordoned, and how many records it ever made. *)
Definition made (s : Server) : bool * nat := (sv_cordoned s, length (sv_heap s)).

Lemma made_on_rec l f s : made (on_rec l f s) = made s.
Proof. unfold made. cbn. by rewrite length_alter. Qed.

Lemma made_fold {A} (g : Server → A → Server) xs : ∀ s,
  (∀ s x, made (g s x) = made s) → made (foldl g s xs) = made s.
Proof. induction xs as [|x xs IH]; intros s Hg; [done|]. cbn. rewrite IH by done. apply Hg. Qed.

Lemma made_forget s : made (forgetOldTerminated range s) = made s.
Proof. unfold forgetOldTerminated. by destruct (_ <=? _)%nat. Qed.

Lemma made_use s ref background now : made (snd (use range s ref background now)) = made s.
Proof.
  unfold use. destruct background; [done|].
  destruct (lookup_rec range s ref) as [[l r]|]; [|done]. cbn [snd]. apply made_on_rec.
Qed.

Lemma made_apply l id q c s s' : apply_update range l id q c s = Ok s' → made s' = made s.
Proof.
  unfold apply_update. destruct (records_changed q); [|by intros [= <-]].
  rewrite guard_ok. intros [_ [= <-]]. apply made_on_rec.
Qed.

Lemma made_resize s l q x s' : resize_begin cf s l q = Ok (x, s') → made s' = made s.
Proof.
  unfold resize_begin. intros (r' & _ & Er)%bind_ok. apply guard_ok in Er as [_ Er].
  apply bind_ok in Er as (sz & _ & Er). destruct (_ && _); [by simplify_eq|].
  rewrite !guard_ok in Er. by destruct Er as (_ & _ & [= _ <-]).
Qed.

Lemma made_resize_end l id was got may err now s : made (resize_end l id was got may err now s) = made s.
Proof. unfold resize_end. destruct (_ && _); [done|]. by rewrite made_on_rec. Qed.

Lemma made_take s l id s' : take_begin s l = Ok (id, s') → made s' = made s.
Proof.
  unfold take_begin. rewrite guard_ok. intros [_ (r' & _ & Et)%bind_ok]. rewrite !guard_ok in Et.
  destruct Et as (_ & _ & _ & [= _ <-]). apply made_on_rec.
Qed.

Lemma made_take_end l id sandbox image sched answer now s :
  made (take_end l id sandbox image sched answer now s) = made s.
Proof. unfold take_end. rewrite made_on_rec. by destruct answer. Qed.

Lemma made_schedule s ref q now : made (snd (setSnapshotSchedule cf range s ref q now)) = made s.
Proof.
  unfold setSnapshotSchedule. destruct (sched ← _; _) as [[l sched]|]; [|done]. cbn [snd].
  apply made_on_rec.
Qed.

Lemma made_delete_volume s name s' : delete_volume_begin range s name = Ok s' → made s' = made s.
Proof.
  unfold delete_volume_begin. intros ([] & _ & Hd)%bind_ok. rewrite !guard_ok in Hd.
  by destruct Hd as (_ & _ & [= <-]).
Qed.

Lemma made_reap now s l s' : reap_scan range now s = (l, s') → made s' = made s.
Proof.
  unfold reap_scan. intros [= _ <-]. apply made_fold. intros s0 [[? ?] ?]. apply made_on_rec.
Qed.

Lemma made_tick now s : made (snd (scheduleTick range now s)) = made s.
Proof. unfold scheduleTick. cbn [snd]. apply made_fold. intros s0 l. apply made_on_rec. Qed.

Lemma register_cordoned s q bs rec gpu_ok :
  sv_cordoned s = true → register cf range s q bs rec gpu_ok = Err cordoned.
Proof. unfold register. by intros ->. Qed.

(** Every step but a create and a cordon. *)
Lemma step_made w e w' :
  match e with Ev_create _ _ _ _ _ _ | Ev_cordon _ => False | _ => True end →
  step w e = Some w' → made (w_srv w') = made (w_srv w) ∧
  ∀ id, is_Some (w_creates w' !! id) → is_Some (w_creates w !! id).
Proof.
  intros He Hstep.
  destruct e; try done; cbn [step] in Hstep; unfold transit_op, deleteSnapshot in Hstep;
    split_matches_in Hstep; simplify_eq; cbn [waits ends with_srv with_ops with_creates w_srv w_creates];
    repeat match goal with x : creating |- _ => destruct x; simplify_eq end;
    (split; [|try done; intros i [c Hc]; try (apply lookup_delete_Some in Hc as [_ Hc]); eauto]);
    rewrite ?made_on_rec, ?made_forget, ?made_use, ?made_resize_end, ?made_take_end, ?made_schedule;
    eauto using made_apply, made_resize, made_take, made_delete_volume, made_on_rec, made_reap, made_tick.
  - unfold made. cbn. by rewrite length_alter.
  - destruct (decide (id = i)) as [<-|Hne]; [eauto|]. rewrite lookup_insert_ne in Hc by done. eauto.
  - by destruct (idle_begin _ _ _).
  - revert Hc. destruct (idle_begin _ _ _); cbn; eauto.
  - destruct err; [destruct idle|]; try done; apply made_on_rec.
  - destruct err; [done|]. apply made_on_rec.
  - destruct err; [done|]. apply made_on_rec.
Qed.

(** Once a cordon has returned no create lands, not even one that began
    before it, until the cordon is lifted: no run registers another sandbox. *)
Theorem cordon_takes_none es : ∀ w w',
  sv_cordoned (w_srv w) = true → existsb uncordons es = false → run w es = Some w' →
  sv_cordoned (w_srv w') = true ∧ length (sv_heap (w_srv w')) = length (sv_heap (w_srv w)) ∧
  ∀ id, is_Some (w_creates w' !! id) → is_Some (w_creates w !! id).
Proof.
  induction es as [|e es IH]; intros w w' Hc; cbn [existsb run]; [by intros _ [= <-]|].
  rewrite orb_false_iff. intros [Hu Hus]. destruct (step w e) as [w1|] eqn:Es; [|done]. cbn.
  assert (sv_cordoned (w_srv w1) = true ∧ length (sv_heap (w_srv w1)) = length (sv_heap (w_srv w)) ∧
          ∀ id, is_Some (w_creates w1 !! id) → is_Some (w_creates w !! id)) as (Hc1 & Hl1 & Hcr1).
  { destruct e; try (match type of Es with step _ ?e = _ =>
      destruct (step_made w e w1 I Es) as [Hm ?] end; injection Hm as Hm1 Hm2;
      rewrite Hm1, Hm2; by split_and!).
    - cbn [step] in Es. destruct (_ || _); [done|].
      destruct (bs ← _; _) as [[s' bs']|] eqn:E; simplify_eq; [|done].
      apply bind_ok in E as (bs & _ & E). by rewrite register_cordoned in E.
    - apply negb_false_iff in Hu. subst. injection Es as <-. by split_and!. }
  intros Hrun. destruct (IH w1 w' Hc1 Hus Hrun) as (? & Hl & Hcr). split_and!; [done|congruence|auto].
Qed.
End daemon.

(** ** A concrete server *)
Definition every_backend : Backend := {|
  be_caps := {[CapSuspend := true; CapEgressOpen := true; CapEgressAllowlist := true;
               CapNetworkPolicyUpdate := true; CapDiskSnapshot := true; CapVolumes := true;
               CapResize := true; CapGPU := true]};
  be_Suspender := true; be_SandboxResizer := true; be_Snapshotter := true;
  be_VolumeStore := true; be_Keeper := true |}.

Definition one_node : Config := {|
  cf_Policy := DefaultPolicy; cf_NodeID := ""; cf_GPUs := ["0000:01:00.0"]%string;
  cf_Capacity := {| nr_CPUs := float_of_Z 8; nr_MemoryMB := 16384; nr_DiskMB := 102400; nr_GPUs := 0 |};
  cf_NodeLabels := ∅ |}.

Definition visit (m : gmap string nat) : list (string * nat) := map_to_list m.

Definition named_req (name : string) : CreateSandboxRequest :=
  let '(Build_CreateSandboxRequest _ im cp me di en ne it ia li sn se sk la vo rl mx gp) := empty_create in
  Build_CreateSandboxRequest name im cp me di en ne it ia li sn se sk la vo rl mx gp.

Definition create_named (name id : string) : event :=
  Ev_create (named_req name) id 0 (Ok ()) (Ok []) (λ _, true).

Definition boots (name id : string) (i : nat) : list event :=
  [create_named name id; Ev_claim id; Ev_boot id None; Ev_started i].

Definition run1 : World → list event → option World :=
  run (H := ascii_unicode) (H0 := every_backend) one_node visit listed.
Definition timely1 : World → list event → bool :=
  timely (H := ascii_unicode) (H0 := every_backend) one_node visit listed.

(** A suspend whose answer arrives after the sandbox was terminated and its
    name given to another. *)
Definition revived : list event :=
  boots "web" "sbx_a" 0 ++ [Ev_suspend "web"; Ev_terminate "sbx_a"; Ev_terminated 1 None] ++
  boots "web" "sbx_b" 1 ++ [Ev_suspended 0 None 0].

(** A terminate does not take the [transit] lock, so the answer to a suspend
    (or a resume, or a create) that finds the sandbox terminated puts it back
    among the living: a name given to another sandbox meanwhile is then two
    live sandboxes'. The condition of the exclusivity theorem is needed. *)
Theorem late_answer_revives :
  ∃ w r1 r2, run1 (initial []) revived = Some w ∧ timely1 (initial []) revived = false ∧
    registered (w_srv w) "sbx_a" 0 r1 ∧ registered (w_srv w) "sbx_b" 1 r2 ∧
    sb_Name (rec_sbx r1) = "web"%string ∧ sb_Name (rec_sbx r2) = "web"%string.
Proof.
  do 3 eexists. split; [vm_compute; reflexivity|]. split; [vm_compute; reflexivity|].
  unfold registered. split_and!; vm_compute; reflexivity.
Qed.

(** Two sandboxes, one suspended and woken, the other terminated. *)
Definition two_lives : list event :=
  boots "web" "sbx_a" 0 ++ boots "db" "sbx_b" 0 ++
  [Ev_suspend "web"; Ev_suspended 0 None 5; Ev_resume "web"; Ev_resumed 0 None 9;
   Ev_terminate "db"; Ev_terminated 0 None; Ev_forget].

Lemma live_sandboxes_exclusive_witness :
  timely1 (initial []) two_lives = true ∧
  match run1 (initial []) two_lives with Some w => exclusive (w_srv w) | None => False end.
Proof.
  assert (timely1 (initial []) two_lives = true) as Ht by (vm_compute; reflexivity).
  split; [exact Ht|].
  destruct (run1 (initial []) two_lives) as [w|] eqn:E.
  - exact (live_sandboxes_exclusive (H := ascii_unicode) (H0 := every_backend) one_node visit listed
             (λ m, reflexivity _) [] two_lives w eq_refl Ht E).
  - vm_compute in E. discriminate E.
Defined.

Definition cordoned_world : World := with_srv (cordon true (w_srv (initial []))) (initial []).

Lemma cordon_takes_none_witness :
  ∃ w, run1 cordoned_world [create_named "web" "sbx_a"; Ev_forget] = Some w ∧
    length (sv_heap (w_srv w)) = 0%nat.
Proof.
  assert (∃ w, run1 cordoned_world [create_named "web" "sbx_a"; Ev_forget] = Some w) as [w Hw]
    by (eexists; vm_compute; reflexivity).
  exists w. split; [exact Hw|].
  exact (proj1 (proj2 (cordon_takes_none (H := ascii_unicode) (H0 := every_backend) one_node visit
    listed [create_named "web" "sbx_a"; Ev_forget] cordoned_world w eq_refl eq_refl Hw))).
Defined.

(** ** Witnesses of the sections' theorems *)
Definition resolved_web : result refusal BackendSpec :=
  resolve_create (H := ascii_unicode) (H0 := every_backend) one_node listed ∅ (named_req "web") "sbx_a"
    (Ok ()) (Ok []).

Lemma create_only_deliverable_witness :
  ∃ bs, resolved_web = Ok bs ∧ np_Mode (bs_Network bs) = NetworkOpen ∧
    @be_has every_backend CapEgressOpen = true.
Proof.
  assert (∃ bs, resolved_web = Ok bs ∧ np_Mode (bs_Network bs) = NetworkOpen) as (bs & Hbs & Hm)
    by (eexists; split; vm_compute; reflexivity).
  exists bs. split; [exact Hbs|]. split; [exact Hm|].
  exact (proj1 (proj2 (create_only_deliverable (H := ascii_unicode) (H0 := every_backend) one_node listed
    ∅ (named_req "web") "sbx_a" (Ok ()) (Ok []) bs Hbs)) Hm).
Defined.

(** A running sandbox made at 0, with a lifetime and an idle timeout of so many
    seconds. *)
Definition aging (life idle : Z) : record :=
  on_sbx (λ sb, set_Idle idle (set_Lifetime life (Some (expiry 0 life)) (set_State StateRunning false sb)))
    (new_record listed empty_create granted 0).

Lemma lifetime_bounds_witness :
  expired (aging 3600 0) (3600 * second) = true ∧ expired (aging (10 ^ 10) 0) 0 = true.
Proof.
  split.
  - refine (proj2 (proj1 (lifetime_bounds 0 3600 (aging 3600 0) _ eq_refl eq_refl) _ _) _);
      unfold max_secs; lia.
  - refine (proj2 (lifetime_bounds 0 (10 ^ 10) (aging (10 ^ 10) 0) _ eq_refl eq_refl) _);
      unfold max_secs; lia.
Defined.

Lemma reaper_spec_witness :
  @reap_verdict every_backend (600 * second) (reap_touch (600 * second) (aging 3600 600)) = Some reap_idle ∧
  busy (aging 3600 600) = false.
Proof.
  assert (@reap_verdict every_backend (600 * second) (reap_touch (600 * second) (aging 3600 600)) =
          Some reap_idle) as Hv by (vm_compute; reflexivity).
  split; [exact Hv|].
  refine (proj1 (proj2 (proj2 (reaper_spec (H0 := every_backend) _ _ _ _ _ Hv))));
    [vm_compute; discriminate|vm_compute; split; discriminate].
Defined.

Definition web_server : Server :=
  match run1 (initial []) (boots "web" "sbx_a" 0) with Some w => w_srv w | None => w_srv (initial []) end.

Definition rename_to (name : string) : UpdateSandboxRequest := {|
  up_Network := None; up_Name := Some name; up_Labels := None; up_IdleTimeoutSecs := Some 60;
  up_IdleAction := None; up_LifetimeSecs := None; up_MetricsExport := None |}.

Lemma update_all_or_nothing_witness :
  (∃ s', updateSandbox (H := ascii_unicode) (H0 := every_backend) one_node visit listed web_server "web"
     (rename_to "api") true 5 (Ok ()) None = (Ok (), s') ∧
   ∃ l r', sv_heap s' !! l = Some r' ∧ sb_Name (rec_sbx r') = "api"%string) ∧
  ∃ e s', updateSandbox (H := ascii_unicode) (H0 := every_backend) one_node visit listed web_server "web"
     (rename_to "UPPER") true 5 (Ok ()) None = (Err e, s') ∧ (s' = web_server ∨ ∃ l, s' = on_rec l (touch 5) web_server).
Proof.
  split.
  - assert (∃ s', updateSandbox (H := ascii_unicode) (H0 := every_backend) one_node visit listed web_server
       "web" (rename_to "api") true 5 (Ok ()) None = (Ok (), s')) as [s' Hs']
      by (eexists; vm_compute; reflexivity).
    exists s'. split; [exact Hs'|].
    destruct (update_all_or_nothing (H := ascii_unicode) (H0 := every_backend) one_node visit listed
      _ _ _ _ _ _ _ _ _ Hs') as (l & r & c & net & _ & _ & r' & Hr' & E).
    exists l, r'. split; [exact Hr'|]. rewrite E.
    exact (proj1 (proj2 (proj2 (updated_claims (rename_to "api") c _)))).
  - assert (∃ e s', updateSandbox (H := ascii_unicode) (H0 := every_backend) one_node visit listed web_server
       "web" (rename_to "UPPER") true 5 (Ok ()) None = (Err e, s')) as (e & s' & Hs')
      by (do 2 eexists; vm_compute; reflexivity).
    exists e, s'. split; [exact Hs'|].
    exact (update_all_or_nothing (H := ascii_unicode) (H0 := every_backend) one_node visit listed
      _ _ _ _ _ _ _ _ _ Hs').
Defined.

(** Three snapshots of one sandbox, one of them asked for. *)
Definition captured_at (id : string) (sched : bool) (t : Z) : snapshotRecord :=
  taken id "sbx_a" "img" sched {| si_ID := id; si_Kind := ""; si_Bytes := 1; si_Image := "img";
    si_CPUs := float_of_Z 1; si_MemoryMB := 1; si_DiskMB := 1 |} t.

Definition three_snapshots : Server :=
  on_snapshots (λ _, {["snp_1" := captured_at "snp_1" true 1; "snp_2" := captured_at "snp_2" true 2;
                       "snp_3" := captured_at "snp_3" false 0]}) (w_srv (initial [])).

Definition newest_first : list Snapshot :=
  [snr_info (captured_at "snp_2" true 2); snr_info (captured_at "snp_1" true 1)].

Lemma retention_keeps_newest_witness :
  keyed three_snapshots ∧
  Z.of_nat (length (scheduled_of "sbx_a" (pruneScheduled newest_first 1 three_snapshots))) = 1.
Proof.
  assert (keyed three_snapshots) as Hk.
  { intros id r Hr. cbn in Hr.
    repeat (apply lookup_insert_Some in Hr as [[<- <-]|[_ Hr]]; [reflexivity|]).
    by apply lookup_singleton_Some in Hr as [<- <-]. }
  split; [exact Hk|].
  refine (proj1 (proj2 (proj2 (retention_keeps_newest three_snapshots "sbx_a" newest_first 1 Hk _ _ _)))).
  - lia.
  - assert (scheduled_of "sbx_a" three_snapshots = newest_first ∨
            scheduled_of "sbx_a" three_snapshots = reverse newest_first) as [-> | ->]
      by (first [left; vm_compute; reflexivity | right; vm_compute; reflexivity]).
    + reflexivity.
    + symmetry. apply reverse_Permutation.
  - repeat constructor; cbn; lia.
Defined.
