(* ===== verification/Keep.v ===== *)
(** * Sandboxes across a restart (internal/server/keep.go)

    What [persist] writes of a record, and what [Restore] takes back from the
    records directory and the VMs the backend kept: the two lists are matched,
    never trusted alone. A file is its name, whether it is regular, and what
    decodes from it ([None]: unreadable, or with a field unknown). *)
From S2P Require Import Prelude GoSort GoStrings Api EgressNames PolicyEnv Frames Spec Records Sandboxes.

Record keptProc := {
  kp_PID : Z;
  kp_Session : string;
  kp_Argv : list string;
  kp_Tty : bool;
  kp_StartedAt : Z
}.

(** [kr_Snapshotting] is whether the sandbox written was being captured. *)
Record keptRecord := {
  kr_Sandbox : Sandbox;
  kr_Snapshotting : bool;
  kr_Env : gmap string string;
  kr_NextPID : Z;
  kr_Procs : list keptProc
}.

Definition kept_proc (pr : procRecord) : keptProc := {|
  kp_PID := p_PID (pr_info pr); kp_Session := pr_session pr; kp_Argv := p_Argv (pr_info pr);
  kp_Tty := p_Tty (pr_info pr); kp_StartedAt := p_StartedAt (pr_info pr) |}.

(** What [persist] leaves in the directory: [None] removes the file. *)
Definition persisted (r : record) : option keptRecord :=
  if is_live r then
    Some {| kr_Sandbox := rec_sbx r; kr_Snapshotting := rec_Snapshotting r; kr_Env := rec_env r;
            kr_NextPID := rec_nextPID r;
            kr_Procs := kept_proc <$> List.filter (λ pr, negb (String.eqb (pr_session pr) "") &&
                                                      proc_running pr)
                          (snd <$> map_to_list (rec_procs r)) |}
  else None.

Definition recordPath (id : string) : string := id +:+ ".json".

Record record_file := {
  rf_name : string;
  rf_regular : bool;
  rf_content : option keptRecord
}.

Definition fresh_record (kr : keptRecord) : record := {|
  rec_sbx := kr_Sandbox kr; rec_env := kr_Env kr; rec_procs := ∅; rec_nextPID := kr_NextPID kr;
  rec_lastActive := zero_time; rec_lastScheduled := zero_time; rec_snapshotting := false;
  rec_Snapshotting := kr_Snapshotting kr |}.

Definition readRecord (f : record_file) (id : string) : option (record * list keptProc) :=
  kr ← rf_content f;
  if negb (String.eqb (sb_ID (kr_Sandbox kr)) id) then None
  else if kr_NextPID kr <? 0 then None
  else Some (fresh_record kr, kr_Procs kr).

(** What becomes of one directory entry. *)
Inductive entry_fate :=
| ignored | file_removed
| not_allowed                                      (** removed; its VM is ended *)
| taken_back (id : string) (r : record) (procs : list keptProc).

Definition cut_suffix (s suf : string) : option string :=
  if has_suffix s suf then Some (trim_suffix s suf) else None.

Section keep.
Context `{Unicode} (cf : Config).

(** The record as it is served again: the backend says whether it sleeps. *)
Definition wake_record (suspended : bool) (now : Z) (r : record) : record :=
  let sb := rec_sbx r in
  let sb := if suspended then set_State StateSuspended (sb_IdleSuspended sb) sb
            else set_State StateRunning false sb in
  let sb := if is_ok (ResolveIdleAction (sb_IdleAction sb)) then sb else set_IdleAction "" sb in
  {| rec_sbx := sb; rec_env := rec_env r; rec_procs := ∅; rec_nextPID := rec_nextPID r;
     rec_lastActive := now; rec_lastScheduled := now; rec_snapshotting := false;
     rec_Snapshotting := false |}.

(** [kept]: the sandboxes the backend took back, and whether each sleeps. *)
Definition restore_entry (kept : gmap string bool) (now : Z) (f : record_file) : entry_fate :=
  match cut_suffix (rf_name f) ".json" with
  | Some id =>
      if negb (ValidID id) || negb (rf_regular f)
      then if has_prefix (rf_name f) ".record-" then file_removed else ignored
      else match readRecord f id with
      | None => file_removed
      | Some (r, procs) =>
          match kept !! id with
          | None => file_removed
          | Some suspended =>
              if is_ok (ResolveNetworkUpdate (Some (sb_Network (rec_sbx r))) (cf_Policy cf))
              then taken_back id (wake_record suspended now r) procs
              else not_allowed
          end
      end
  | None => if has_prefix (rf_name f) ".record-" then file_removed else ignored
  end.

Definition restored (kept : gmap string bool) (now : Z) (files : list record_file)
    : list (string * record * list keptProc) :=
  omap (λ f, match restore_entry kept now f with
             | taken_back id r procs => Some (id, r, procs)
             | _ => None
             end) files.

(** The VMs [Restore] asks the backend to terminate. *)
Definition left_over (kept : gmap string bool) (now : Z) (files : list record_file) : list string :=
  List.filter (λ id, negb (bool_decide (id ∈ (λ x : string * record * list keptProc, x.1.1) <$> restored kept now files)))
    (fst <$> map_to_list kept).

(** [s.sandboxes] after the records are registered. *)
Definition register_restored (xs : list (string * record * list keptProc)) (s : Server) : Server :=
  foldl (λ s '(id, r, _),
    on_sandboxes (insert id (length (sv_heap s))) (on_heap (λ h, h ++ [r]) s)) s xs.

Definition Restore (kept : gmap string bool) (now : Z) (files : list record_file) (s : Server) : Server :=
  register_restored (restored kept now files) s.

(** ** Processes *)

(** One process the record names: [took] is whether the backend took it back.
    One it did not is listed as exited, so a client still holding its number
    learns that it ended. *)
Definition reattach_one (took : string → bool) (r : record) (kp : keptProc) : record :=
  if (kp_PID kp <=? 0) || (kp_PID kp >? rec_nextPID r) || negb (SessionIDOK (kp_Session kp)) then r
  else
    let running := took (kp_Session kp) in
    set_procs (rec_nextPID r)
      (<[kp_PID kp := {|
         pr_info := {| p_PID := kp_PID kp; p_Tty := kp_Tty kp; p_Argv := kp_Argv kp;
                       p_State := if running then ProcessRunning else ProcessExited;
                       p_ExitCode := if running then None else Some (-1);
                       p_StartedAt := kp_StartedAt kp |};
         pr_session := kp_Session kp |}]> (rec_procs r)) r.

Definition reattach (took : string → bool) (r : record) (procs : list keptProc) : record :=
  foldl (reattach_one took) r procs.

(** ** Snapshots *)

(** [snp_] and the 16 hex digits [newSnapshotID] gives. *)
Definition snapshotIDOK (id : string) : bool :=
  match cut_prefix id "snp_" with Some rest => hex16 rest | None => false end.

Record snapshot_file := {
  sf_name : string;
  sf_regular : bool;
  sf_content : option snapshotRecord
}.

(** One entry of the snapshots directory; [stored] are the ids the backend
    holds that no earlier entry named. *)
Definition restore_snapshot (acc : gmap string snapshotRecord * gset string) (f : snapshot_file)
    : gmap string snapshotRecord * gset string :=
  match cut_suffix (sf_name f) ".json", sf_content f with
  | Some id, Some ks =>
      if snapshotIDOK id && sf_regular f && String.eqb (sn_ID (snr_info ks)) id &&
         bool_decide (id ∈ acc.2)
      then (<[id := ks]> acc.1, acc.2 ∖ {[id]})
      else acc
  | _, _ => acc
  end.

(** The snapshots listed again, and the files the backend is told to delete. *)
Definition restoreSnapshots (stored : gset string) (files : list snapshot_file)
    (snaps : gmap string snapshotRecord) : gmap string snapshotRecord * gset string :=
  foldl restore_snapshot (snaps, stored) files.

(** ** What is served again *)

(** C39. [Restore] serves a sandbox only if the backend kept its VM, a record in
    the directory is named for it and names it, and the policy of now still
    grants its network; it is then as it was but for its state, which is the
    backend's word. Every VM kept is either served or terminated, never both. *)
Theorem restore_matches kept now files :
  (∀ id r procs, (id, r, procs) ∈ restored kept now files →
     ∃ (suspended : bool) f kr, kept !! id = Some suspended ∧ f ∈ files ∧ rf_name f = recordPath id ∧
       rf_content f = Some kr ∧ sb_ID (kr_Sandbox kr) = id ∧ 0 ≤ kr_NextPID kr ∧
       rec_nextPID r = kr_NextPID kr ∧ rec_env r = kr_Env kr ∧ procs = kr_Procs kr ∧
       sb_ID (rec_sbx r) = id ∧ sb_Network (rec_sbx r) = sb_Network (kr_Sandbox kr) ∧
       is_ok (ResolveNetworkUpdate (Some (sb_Network (rec_sbx r))) (cf_Policy cf)) = true ∧
       state_of r = (if suspended then StateSuspended else StateRunning) ∧
       (sb_IdleSuspended (rec_sbx r) = true → suspended = true)) ∧
  (∀ id, is_Some (kept !! id) ↔
     (∃ r procs, (id, r, procs) ∈ restored kept now files) ∨ id ∈ left_over kept now files) ∧
  (∀ id r procs, (id, r, procs) ∈ restored kept now files → id ∉ left_over kept now files).
Proof.
  assert (∀ id r procs, (id, r, procs) ∈ restored kept now files →
    ∃ f, f ∈ files ∧ restore_entry kept now f = taken_back id r procs) as Hin.
  { intros id r procs (f & Hf & E)%list_elem_of_omap. exists f. split; [done|].
    destruct (restore_entry kept now f); by simplify_eq. }
  assert (∀ id r procs, (id, r, procs) ∈ restored kept now files →
     ∃ (suspended : bool) f kr, kept !! id = Some suspended ∧ f ∈ files ∧ rf_name f = recordPath id ∧
       rf_content f = Some kr ∧ sb_ID (kr_Sandbox kr) = id ∧ 0 ≤ kr_NextPID kr ∧
       procs = kr_Procs kr ∧ r = wake_record suspended now (fresh_record kr) ∧
       is_ok (ResolveNetworkUpdate (Some (sb_Network (kr_Sandbox kr))) (cf_Policy cf)) = true) as Hall.
  { intros id r procs (f & Hf & E)%Hin. unfold restore_entry, cut_suffix in E.
    destruct (has_suffix (rf_name f) ".json") eqn:Es; [|by destruct (has_prefix _ _)].
    set (i := trim_suffix (rf_name f) ".json") in *.
    destruct (negb (ValidID i) || negb (rf_regular f)); [by destruct (has_prefix _ _)|].
    unfold readRecord in E. destruct (rf_content f) as [kr|] eqn:Ek; [|done]. cbn in E.
    destruct (String.eqb_spec (sb_ID (kr_Sandbox kr)) i) as [Ei|]; [|done]. cbn in E.
    destruct (Z.ltb_spec (kr_NextPID kr) 0); [done|]. destruct (kept !! i) as [suspended|] eqn:Ep; [|done].
    destruct (is_ok _) eqn:Eok; [|done]. injection E as <- <- <-.
    exists suspended, f, kr. split_and!; try done.
    unfold recordPath. apply has_suffix_true in Es as [p Hp]. subst i. rewrite Hp.
    by rewrite trim_suffix_app. }
  split_and!.
  - intros id r procs (suspended & f & kr & ? & ? & ? & ? & Hid & ? & ? & -> & Hok)%Hall.
    exists suspended, f, kr. split_and!; try done; unfold state_of, wake_record;
      cbn [rec_sbx fresh_record]; destruct (is_ok (ResolveIdleAction _)), suspended, (kr_Sandbox kr);
      try done.
  - intros id. unfold left_over. rewrite elem_of_bfilter, negb_true_iff, bool_decide_eq_false,
      !list_elem_of_fmap. split.
    + intros [b Hb]. destruct (decide (id ∈ (λ x : string * record * list keptProc, x.1.1) <$> restored kept now files)) as [Hd|Hd].
      * left. apply list_elem_of_fmap in Hd as ([[i r] procs] & -> & Hx). eauto.
      * right. split; [|intros Hx; apply Hd; by apply list_elem_of_fmap].
        exists (id, b). by rewrite elem_of_map_to_list.
    + intros [(r & procs & (suspended & f & kr & ? & _)%Hall)|[([i b] & -> & Hi) _]]; [by eexists|].
      apply elem_of_map_to_list in Hi. by eexists.
  - intros id r procs Hr. unfold left_over. rewrite elem_of_bfilter, negb_true_iff, bool_decide_eq_false.
    intros [_ Hno]. apply Hno, list_elem_of_fmap. by exists (id, r, procs).
Qed.

(** ** A record through a restart *)
Definition kept_running (pr : procRecord) : bool :=
  negb (String.eqb (pr_session pr) "") && proc_running pr.

(** The processes of a record, as [start] leaves them. *)
Definition procs_ok (r : record) : Prop :=
  ∀ pid pr, rec_procs r !! pid = Some pr → kept_running pr = true →
    p_PID (pr_info pr) = pid ∧ 0 < pid ≤ rec_nextPID r ∧ SessionIDOK (pr_session pr) = true ∧
    p_ExitCode (pr_info pr) = None.

Lemma reattach_fold prs : ∀ r,
  NoDup ((λ pr, p_PID (pr_info pr)) <$> prs) →
  (∀ pr, pr ∈ prs → 0 < p_PID (pr_info pr) ≤ rec_nextPID r ∧ SessionIDOK (pr_session pr) = true ∧
     p_State (pr_info pr) = ProcessRunning ∧ p_ExitCode (pr_info pr) = None) →
  let r' := reattach (λ _, true) r (kept_proc <$> prs) in
  rec_sbx r' = rec_sbx r ∧ rec_nextPID r' = rec_nextPID r ∧
  ∀ pid, rec_procs r' !! pid =
    match List.find (λ pr, p_PID (pr_info pr) =? pid) prs with
    | Some pr => Some pr
    | None => rec_procs r !! pid
    end.
Proof.
  unfold reattach. induction prs as [|pr prs IH]; intros r Hnd Hok; [done|].
  rewrite fmap_cons in Hnd. apply NoDup_cons in Hnd as [Hn Hnd]. rewrite fmap_cons. cbn [foldl].
  destruct (Hok pr ltac:(by left)) as (Hpid & Hs & Hst & Hex).
  assert (reattach_one (λ _, true) r (kept_proc pr) =
          set_procs (rec_nextPID r) (<[p_PID (pr_info pr) := pr]> (rec_procs r)) r) as ->.
  { unfold reattach_one. cbn [kept_proc kp_PID kp_Session kp_Argv kp_Tty kp_StartedAt]. rewrite Hs.
    assert ((p_PID (pr_info pr) <=? 0) || (p_PID (pr_info pr) >? rec_nextPID r) || negb true = false)
      as -> by lia.
    do 2 f_equal. destruct pr as [[pid tty argv st ex at_] sess]. cbn in *. by subst. }
  destruct (IH (set_procs (rec_nextPID r) (<[p_PID (pr_info pr) := pr]> (rec_procs r)) r)) as (E1 & E2 & E3).
  { done. }
  { intros pr' Hpr'. cbn [set_procs rec_nextPID]. apply Hok. by right. }
  split_and!; [exact E1|exact E2|]. intros pid. rewrite E3. cbn [List.find set_procs rec_procs].
  destruct (List.find _ prs) as [pr'|] eqn:Ef.
  - apply find_some in Ef as [Hin Heq]. apply list_elem_of_In in Hin.
    destruct (Z.eqb_spec (p_PID (pr_info pr)) pid); [|done]. exfalso. apply Hn, list_elem_of_fmap.
    apply Z.eqb_eq in Heq. exists pr'. split; [lia|done].
  - destruct (Z.eqb_spec (p_PID (pr_info pr)) pid) as [<-|Hne]; [by rewrite lookup_insert_eq|].
    by rewrite lookup_insert_ne.
Qed.

Lemma pids_nodup (f : procRecord → bool) (l : list (Z * procRecord)) :
  NoDup l.*1 → (∀ pid pr, (pid, pr) ∈ l → f pr = true → p_PID (pr_info pr) = pid) →
  NoDup ((λ pr, p_PID (pr_info pr)) <$> List.filter f l.*2).
Proof.
  induction l as [|[pid pr] l IH]; intros Hnd Hf; [constructor|]. cbn in Hnd |- *.
  apply NoDup_cons in Hnd as [Hn Hnd].
  assert (NoDup ((λ pr, p_PID (pr_info pr)) <$> List.filter f l.*2)) as Hl.
  { apply IH; [done|]. intros pid' pr' Hin. apply Hf. by right. }
  destruct (f pr) eqn:E; [|done]. rewrite fmap_cons. apply NoDup_cons. split; [|done].
  rewrite (Hf pid pr); [|by left|done]. intros (pr' & Hp & Hin)%list_elem_of_fmap.
  apply elem_of_bfilter in Hin as [Hin Hf']. apply list_elem_of_fmap in Hin as ([pid' q] & -> & Hin).
  cbn in *. apply Hn, list_elem_of_fmap. exists (pid', q). split; [|done].
  cbn. rewrite Hp. apply (Hf _ _); [by right|done].
Qed.

(** What one sandboxd wrote of a running sandbox the next takes back whole:
    the same sandbox, environment and next process number, and, where every
    process's session is still held, exactly its kept processes that were
    running, each under the number it had. *)
Theorem record_survives_restart r now :
  state_of r = StateRunning → sb_IdleSuspended (rec_sbx r) = false →
  is_ok (ResolveIdleAction (sb_IdleAction (rec_sbx r))) = true →
  is_ok (ResolveNetworkUpdate (Some (sb_Network (rec_sbx r))) (cf_Policy cf)) = true →
  ValidID (sb_ID (rec_sbx r)) = true → 0 ≤ rec_nextPID r → procs_ok r →
  ∃ kr r', persisted r = Some kr ∧
    restore_entry {[sb_ID (rec_sbx r) := false]} now
      {| rf_name := recordPath (sb_ID (rec_sbx r)); rf_regular := true; rf_content := Some kr |} =
      taken_back (sb_ID (rec_sbx r)) r' (kr_Procs kr) ∧
    rec_sbx r' = rec_sbx r ∧ rec_env r' = rec_env r ∧ rec_nextPID r' = rec_nextPID r ∧
    rec_procs (reattach (λ _, true) r' (kr_Procs kr)) =
      filter (λ kv, kept_running kv.2 = true) (rec_procs r).
Proof.
  intros Hst Hidle Hact Hnet Hid Hpid Hprocs.
  assert (is_live r = true) as Hl by (unfold is_live, is_state; by rewrite Hst).
  unfold persisted. rewrite Hl. eexists _, _. split; [reflexivity|]. split.
  { unfold restore_entry, cut_suffix, recordPath. cbn [rf_name rf_regular].
    rewrite (proj2 (has_suffix_true _ _)) by eauto. rewrite trim_suffix_app, Hid. cbn [negb orb].
    unfold readRecord. cbn [rf_content mbind option_bind kr_Sandbox kr_NextPID].
    rewrite String.eqb_refl. cbn [negb]. if_false. rewrite lookup_singleton_eq.
    cbn [fresh_record rec_sbx kr_Sandbox]. rewrite Hnet. reflexivity. }
  assert (rec_sbx (wake_record false now r) = rec_sbx r) as Esb.
  { unfold wake_record. cbn [rec_sbx].
    assert (set_State StateRunning false (rec_sbx r) = rec_sbx r) as ->.
    { unfold state_of in Hst. destruct (rec_sbx r). cbn in *. by subst. }
    by rewrite Hact. }
  split; [exact Esb|]. split; [done|]. split; [done|].
  set (prs := List.filter _ (snd <$> map_to_list (rec_procs r))).
  assert (∀ pr, pr ∈ prs → rec_procs r !! p_PID (pr_info pr) = Some pr ∧ kept_running pr = true) as Hprs.
  { intros pr [Hin Hk]%elem_of_bfilter. apply list_elem_of_fmap in Hin as ([pid pr'] & -> & Hin).
    apply elem_of_map_to_list in Hin. cbn in *. destruct (Hprocs pid pr' Hin Hk) as [-> _]. done. }
  assert (∀ pid pr, rec_procs r !! pid = Some pr → kept_running pr = true → pr ∈ prs) as Hin.
  { intros pid pr Hp Hk. apply elem_of_bfilter. split; [|done]. apply list_elem_of_fmap.
    exists (pid, pr). by rewrite elem_of_map_to_list. }
  edestruct (reattach_fold prs (wake_record false now (fresh_record
    {| kr_Sandbox := rec_sbx r; kr_Snapshotting := rec_Snapshotting r; kr_Env := rec_env r;
       kr_NextPID := rec_nextPID r; kr_Procs := kept_proc <$> prs |}))) as (_ & _ & Hlk).
  - apply pids_nodup; [apply NoDup_fst_map_to_list|]. intros pid pr Hp%elem_of_map_to_list Hk.
    by apply (Hprocs pid pr).
  - intros pr Hpr. destruct (Hprs pr Hpr) as [Hp Hk]. destruct (Hprocs _ _ Hp Hk) as (_ & ? & ? & ?).
    cbn [wake_record fresh_record rec_nextPID kr_NextPID]. split_and!; try done; try lia. unfold kept_running in Hk. apply andb_true_iff in Hk as [_ Hk].
    by apply String.eqb_eq in Hk.
  - cbn [kr_Procs]. apply map_eq. intros pid. rewrite Hlk. cbn [wake_record fresh_record rec_procs].
    destruct (List.find _ prs) as [pr|] eqn:Ef.
    + apply find_some in Ef as [Hi Heq]. apply list_elem_of_In, Hprs in Hi as [Hp Hk].
      symmetry. apply map_lookup_filter_Some. apply Z.eqb_eq in Heq as <-. done.
    + symmetry. rewrite lookup_empty. apply map_lookup_filter_None_2. right. intros pr Hp Hk.
      cbn in Hk. pose proof (find_none _ _ Ef pr (proj1 (list_elem_of_In _ _) (Hin _ _ Hp Hk))) as Hno.
      cbv beta in Hno. destruct (Hprocs _ _ Hp Hk) as [E _]. apply Z.eqb_neq in Hno. congruence.
Qed.
End keep.

(** ** A concrete restart *)
Definition kept_sandbox : record := {|
  rec_sbx := {| sb_ID := "sbx_0123456789abcdef"; sb_Name := "web"; sb_State := StateRunning;
    sb_Image := "img"; sb_CPUs := float_of_Z 1; sb_MemoryMB := 512; sb_DiskMB := 1024;
    sb_EnvNames := []; sb_Network := mode_only NetworkNone None; sb_CreatedAt := 7;
    sb_IdleTimeoutSecs := 60; sb_IdleAction := ""; sb_IdleSuspended := false; sb_LifetimeSecs := 0;
    sb_ExpiresAt := None; sb_SnapshotEverySecs := 0; sb_SnapshotKeep := 0; sb_Labels := ∅;
    sb_Volumes := []; sb_GPUs := [] |};
  rec_env := {["A" := "1"%string]};
  rec_procs := {[2 := {| pr_info := {| p_PID := 2; p_Tty := false; p_Argv := ["sh"%string];
      p_State := ProcessRunning; p_ExitCode := None; p_StartedAt := 8 |}; pr_session := "pab" |}]};
  rec_nextPID := 3; rec_lastActive := 9; rec_lastScheduled := 9; rec_snapshotting := false;
  rec_Snapshotting := false |}.

Definition restart_config : Config := {|
  cf_Policy := DefaultPolicy; cf_NodeID := ""; cf_GPUs := [];
  cf_Capacity := {| nr_CPUs := fzero; nr_MemoryMB := 0; nr_DiskMB := 0; nr_GPUs := 0 |};
  cf_NodeLabels := ∅ |}.

Lemma record_survives_restart_witness :
  ∃ kr r', persisted kept_sandbox = Some kr ∧ rec_sbx r' = rec_sbx kept_sandbox ∧
    rec_env r' = rec_env kept_sandbox.
Proof.
  destruct (record_survives_restart (H := ascii_unicode) restart_config kept_sandbox 20)
    as (kr & r' & Hkr & _ & Hsb & Henv & _).
  - reflexivity.
  - reflexivity.
  - vm_compute; reflexivity.
  - vm_compute; reflexivity.
  - vm_compute; reflexivity.
  - cbn; lia.
  - intros pid pr Hp _. cbn [kept_sandbox rec_procs] in Hp.
    apply lookup_singleton_Some in Hp as [<- <-]. cbn.
    split; [reflexivity|]. split; [lia|]. split; [vm_compute; reflexivity|reflexivity].
  - exists kr, r'. exact (conj Hkr (conj Hsb Henv)).
Defined.
