(* ===== verification/ServiceSpec.v ===== *)
(** * What a service is, and how it is named (internal/gateway: services.go,
    secrets.go, router_http.go; internal/api/services_types.go)

    A service's spec as it is checked, its secrets' references, and the names
    the HTTP router gives public services. An empty slice and a nil one are
    one here. *)
From stdpp Require Import pretty.
From S2P Require Import Prelude GoStrings Api EgressNames PolicyEnv Spec.

Record ServiceResources := {
  svr_CPUs : float64;
  svr_MemoryMB : Z;
  svr_DiskMB : Z
}.

Record ServiceHealth := {
  svh_HTTP : string;
  svh_Command : list string;
  svh_EverySecs : Z;
  svh_TimeoutSecs : Z;
  svh_Failures : Z
}.

Record ServiceSpec := {
  sp_Name : string;
  sp_Image : string;
  sp_Command : list string;
  sp_Replicas : Z;
  sp_Resources : ServiceResources;
  sp_Port : Z;
  sp_Health : option ServiceHealth;
  sp_Env : gmap string string;
  sp_Network : option NetworkPolicy;
  sp_Spread : string;
  sp_Public : bool;
  sp_Secrets : list string
}.

Definition SpreadNode : string := "node".
Definition MaxServiceReplicas : Z := 100.

#[export] Instance ServiceResources_eq_dec : EqDecision ServiceResources.
Proof. solve_decision. Defined.
#[export] Instance ServiceHealth_eq_dec : EqDecision ServiceHealth.
Proof. solve_decision. Defined.
#[export] Instance ServiceSpec_eq_dec : EqDecision ServiceSpec.
Proof. solve_decision. Defined.

Definition set_Health (h : option ServiceHealth) (sp : ServiceSpec) : ServiceSpec :=
  let '(Build_ServiceSpec nm im co re rs po _ en ne pl pu se) := sp in
  Build_ServiceSpec nm im co re rs po h en ne pl pu se.
Definition set_Replicas (n : Z) (sp : ServiceSpec) : ServiceSpec :=
  let '(Build_ServiceSpec nm im co _ rs po h en ne pl pu se) := sp in
  Build_ServiceSpec nm im co n rs po h en ne pl pu se.
Definition set_Env (e : gmap string string) (sp : ServiceSpec) : ServiceSpec :=
  let '(Build_ServiceSpec nm im co re rs po h _ ne pl pu se) := sp in
  Build_ServiceSpec nm im co re rs po h e ne pl pu se.

(** ** Names *)

(** [strings.Cut] at a separator of several characters. *)
Fixpoint cut_at (sep l : list ascii) : option (list ascii * list ascii) :=
  if bool_decide (sep `prefix_of` l) then Some ([], drop (length sep) l)
  else match l with
       | [] => None
       | c :: t => '(a, b) ← cut_at sep t; Some (c :: a, b)
       end.
Definition cut_str (s sep : string) : option (string * string) :=
  '(a, b) ← cut_at (chars sep) (chars s); Some (of_chars a, of_chars b).

Definition dashes : list ascii := ["-"; "-"]%char.

Definition serviceNameRE (s : string) : bool := host_label (chars s).
Definition validServiceName (s : string) : bool :=
  serviceNameRE s && negb (contains_str s "--").

Definition healthPathRE : string → bool :=
  shape (is_char "/") (in_range 33 126) 1000.

Definition tenantLabelRE (s : string) : bool :=
  match chars s with
  | [] => false
  | c :: _ => is_lower_alnum c && forallb (λ c, is_lower_alnum c || is_char "-" c) (chars s) &&
      match last (chars s) with Some d => is_lower_alnum d | None => false end
  end.

Definition routerLabel (name tenant : string) : option string :=
  if String.eqb tenant "" then Some name
  else
    let l := name +:+ "--" +:+ tenant in
    if negb (tenantLabelRE tenant) || (strlen l >? 63) then None else Some l.

Record RouterConfig := {
  rc_Domain : string;
  rc_Scheme : string;
  rc_Port : Z
}.

Definition routerURL (rc : RouterConfig) (name tenant : string) : string :=
  match routerLabel name tenant with
  | None => ""
  | Some l =>
      if String.eqb (rc_Domain rc) "" then ""
      else
        let scheme := if String.eqb (rc_Scheme rc) "" then "https" else rc_Scheme rc in
        let host := l +:+ "." +:+ rc_Domain rc in
        let host :=
          if negb (rc_Port rc =? 0) && negb (String.eqb scheme "https" && (rc_Port rc =? 443)) &&
             negb (String.eqb scheme "http" && (rc_Port rc =? 80))
          then host +:+ ":" +:+ pretty (rc_Port rc) else host in
        scheme +:+ "://" +:+ host
  end.

(** The name and tenant a Host says: [routeHost] before its lookup. *)
Definition host_names `{Unicode} (host domain : string) : option (string * string) :=
  let host := match SplitHostPort host with Some (h, _) => h | None => host end in
  let host := to_lower (trim_suffix host ".") in
  if negb (has_suffix host ("." +:+ domain)) then None
  else
    let label := trim_suffix host ("." +:+ domain) in
    if String.eqb domain "" || String.eqb label "" || contains_char "." label then None
    else
      let '(name, tenant, named) :=
        match cut_str label "--" with
        | Some (a, b) => (a, b, true)
        | None => (label, ""%string, false)
        end in
      if negb (validServiceName name) || (named && String.eqb tenant "") then None
      else Some (name, tenant).

(** ** Secrets *)
Definition maxSecretName : Z := 128.

Definition secretNameRE (s : string) : bool :=
  match chars s with
  | [] => false
  | c :: t => (is_alpha c || is_char "_" c) &&
      forallb (λ c, is_alnum c || bool_decide (c ∈ ["_"; "."; "-"]%char)) t
  end.

(** [policy.ValidEnvName]: the characters are [envNameRE]'s. *)
Definition ValidEnvName (s : string) : bool := envNameRE s.

Inductive secret_error :=
| bad_secret_name (name : string) | reserved_secret_name (name : string)
| not_a_variable (name : string) | bad_variable (v : string) | reserved_variable (v : string)
| set_twice (v : string) | in_env_too (v : string).

Record secretRef := { sec_env : string; sec_name : string }.

Section check.
Context `{Unicode}.
Context (range_env : gmap string string → list (string * string)).

Definition checkSecretName (name : string) : result secret_error () :=
  reject_if ((strlen name >? maxSecretName) || negb (secretNameRE name)) (bad_secret_name name);;
  reject_if (IsReservedEnv name) (reserved_secret_name name).

Definition parse_ref (seen : list string) (env : gmap string string) (ref : string)
    : result secret_error secretRef :=
  let '(v, name, mapped) :=
    match cut ref "=" with Some (a, b) => (a, b, true) | None => (ref, ref, false) end in
  checkSecretName name;;
  reject_if (negb (ValidEnvName v) && negb mapped) (not_a_variable name);;
  reject_if (negb (ValidEnvName v) || (strlen v >? maxSecretName)) (bad_variable v);;
  reject_if (IsReservedEnv v) (reserved_variable v);;
  reject_if (bool_decide (v ∈ seen)) (set_twice v);;
  reject_if (bool_decide (is_Some (env !! v))) (in_env_too v);;
  Ok {| sec_env := v; sec_name := name |}.

Fixpoint parse_refs (seen : list string) (env : gmap string string) (refs : list string)
    : result secret_error (list secretRef) :=
  match refs with
  | [] => Ok []
  | ref :: rest =>
      r ← parse_ref seen env ref;
      rs ← parse_refs (sec_env r :: seen) env rest;
      Ok (r :: rs)
  end.

Definition parseSecretRefs (refs : list string) (env : gmap string string)
    : result secret_error (list secretRef) := parse_refs [] env refs.

(** ** The spec's check, which fills in its defaults *)
Inductive service_error :=
| bad_service_name | bad_replicas | bad_command | negative_resources | bad_port
| health_kind | bad_health_path | health_needs_port | bad_health_command | bad_health_every
| bad_health_timeout | bad_health_failures
| service_env (e : spec_error) | bad_network_mode | bad_spread | public_needs_port | unnameable
| bad_secrets (e : secret_error).

Definition nul_in (args : list string) : bool := existsb (contains_char "000") args.

Definition check_health (port : Z) (h : ServiceHealth) : result service_error ServiceHealth :=
  let http := negb (String.eqb (svh_HTTP h) "") in
  reject_if (Bool.eqb (negb http) (bool_decide (svh_Command h = []))) health_kind;;
  reject_if (http && negb (healthPathRE (svh_HTTP h))) bad_health_path;;
  reject_if (http && (port =? 0)) health_needs_port;;
  reject_if (nul_in (svh_Command h)) bad_health_command;;
  let every := or_default (svh_EverySecs h) 10 in
  let timeout := or_default (svh_TimeoutSecs h) (Z.min 5 every) in
  let failures := or_default (svh_Failures h) 3 in
  reject_if ((every <? 1) || (every >? 3600)) bad_health_every;;
  reject_if ((timeout <? 1) || (timeout >? 300)) bad_health_timeout;;
  reject_if ((failures <? 1) || (failures >? 100)) bad_health_failures;;
  Ok {| svh_HTTP := svh_HTTP h; svh_Command := svh_Command h; svh_EverySecs := every;
        svh_TimeoutSecs := timeout; svh_Failures := failures |}.

Definition checkServiceSpec (sp : ServiceSpec) (tenant : string) : result service_error ServiceSpec :=
  reject_if (negb (validServiceName (sp_Name sp))) bad_service_name;;
  reject_if ((sp_Replicas sp <? 0) || (sp_Replicas sp >? MaxServiceReplicas)) bad_replicas;;
  reject_if ((256 <? length (sp_Command sp))%nat || nul_in (sp_Command sp)) bad_command;;
  let r := sp_Resources sp in
  reject_if (fltb (svr_CPUs r) fzero || (svr_MemoryMB r <? 0) || (svr_DiskMB r <? 0)) negative_resources;;
  reject_if ((sp_Port sp <? 0) || (sp_Port sp >? 65535)) bad_port;;
  health ← match sp_Health sp with
           | None => Ok None
           | Some h => h ← check_health (sp_Port sp) h; Ok (Some h)
           end;
  match ResolveEnv range_env (sp_Env sp) with Ok _ => Ok () | Err e => Err (service_env e) end;;
  reject_if (match sp_Network sp with Some n => NetworkRank (np_Mode n) <? 0 | None => false end)
    bad_network_mode;;
  reject_if (negb (String.eqb (sp_Spread sp) "") && negb (String.eqb (sp_Spread sp) SpreadNode)) bad_spread;;
  reject_if (sp_Public sp && (sp_Port sp =? 0)) public_needs_port;;
  reject_if (sp_Public sp && negb (bool_decide (is_Some (routerLabel (sp_Name sp) tenant)))) unnameable;;
  match parseSecretRefs (sp_Secrets sp) (sp_Env sp) with Ok _ => Ok () | Err e => Err (bad_secrets e) end;;
  Ok (set_Health health sp).

Definition service_status (e : service_error) : Z * string :=
  match e with
  | service_env (Refused _) => (403, "refused")
  | _ => (400, "invalid_request")
  end%string.

End check.

(** What decides a replica's sandbox: a change to it is a new revision. The
    processors are left to [same_shape], which compares them as Go does. *)
Definition shape_of (sp : ServiceSpec) : ServiceSpec :=
  let '(Build_ServiceSpec _ im co _ rs po h en ne _ _ se) := sp in
  Build_ServiceSpec "" im co 0
    {| svr_CPUs := fzero; svr_MemoryMB := svr_MemoryMB rs; svr_DiskMB := svr_DiskMB rs |}
    po h en ne "" false se.

(** [reflect.DeepEqual(shape(a), shape(b))], a nil slice or map and an empty one
    taken as one, as [shape] means them to be (it makes them so for the
    environment and the command only). *)
Definition same_shape (a b : ServiceSpec) : bool :=
  feqb (svr_CPUs (sp_Resources a)) (svr_CPUs (sp_Resources b)) && bool_decide (shape_of a = shape_of b).

(** ** No two services share a name in the router *)
Lemma contains_chars_cons sub c t :
  contains_chars sub (c :: t) = bool_decide (sub `prefix_of` c :: t) || contains_chars sub t.
Proof. done. Qed.

Lemma dashes_prefix c t : bool_decide (dashes `prefix_of` c :: t) = true ↔ c = "-"%char ∧ head t = Some "-"%char.
Proof.
  rewrite bool_decide_eq_true. split.
  - intros [k E]. injection E as -> ->. done.
  - intros [-> E]. destruct t as [|d t]; [done|]. injection E as ->. by exists t.
Qed.

(** The first "--" after a name that holds none and does not end in "-". *)
Lemma cut_at_dashes a b :
  contains_chars dashes a = false → last a ≠ Some "-"%char →
  cut_at dashes (a ++ dashes ++ b) = Some (a, b).
Proof.
  induction a as [|c a IH]; intros Hno Hl.
  { cbn [app dashes]. unfold cut_at. by rewrite bool_decide_eq_true_2 by (by exists b). }
  rewrite contains_chars_cons in Hno. apply orb_false_iff in Hno as [Hp Hno].
  cbn [app cut_at]. match goal with |- context [if ?b then _ else _] => destruct b eqn:E end.
  - apply dashes_prefix in E as [-> Hh]. destruct a as [|d a]; [done|].
    cbn in Hh. injection Hh as ->. assert (bool_decide (dashes `prefix_of` "-"%char :: "-"%char :: a) = true)
      by (apply (proj2 (dashes_prefix _ _)); split; reflexivity).
    congruence.
  - rewrite IH; [done|done|]. destruct a; [done|]. by rewrite last_cons_cons in Hl.
Qed.

Lemma cut_at_none sep l : sep ≠ [] → contains_chars sep l = false → cut_at sep l = None.
Proof.
  intros Hs. induction l as [|c t IH]; cbn; intros [Hp Hno]%orb_false_iff; rewrite Hp; [done|].
  by rewrite IH.
Qed.

Definition label_char (c : ascii) : bool := is_lower_alnum c || is_char "-" c.

Lemma service_name_chars name :
  validServiceName name = true →
  forallb label_char (chars name) = true ∧ contains_chars dashes (chars name) = false ∧
  chars name ≠ [] ∧ last (chars name) ≠ Some "-"%char.
Proof.
  unfold validServiceName, serviceNameRE, host_label, contains_str.
  intros [Hr Hc]%andb_true_iff. apply negb_true_iff in Hc. destruct (chars name) as [|c t]; [done|].
  rewrite !andb_true_iff in Hr. destruct Hr as [[[_ Hall] Hl] _]. split_and!; try done.
  destruct (last (c :: t)) as [d|]; [|done]. intros [= ->]. done.
Qed.

Lemma tenant_chars tenant :
  tenantLabelRE tenant = true → forallb label_char (chars tenant) = true ∧ tenant ≠ ""%string.
Proof.
  unfold tenantLabelRE. destruct (chars tenant) as [|c t] eqn:E; [done|].
  intros [[_ Hall]%andb_true_iff _]%andb_true_iff. split; [done|]. intros ->. done.
Qed.

(** A domain as the router is configured with: lower case labels. *)
Definition router_domain (s : string) : bool :=
  forallb (λ c, label_char c || is_char "." c) (chars s) && negb (has_suffix s ".") &&
  negb (String.eqb s "").

Lemma domain_chars_fixed l :
  forallb (λ c, label_char c || is_char "." c) l = true →
  lower_char <$> l = l ∧ Forall (λ c, ascii_char c = true) l ∧
  (∀ c, c ∈ [":"; "["; "]"]%char → c ∉ l).
Proof.
  intros Hl. rewrite forallb_forall in Hl.
  assert (∀ c, c ∈ l → lower_char c = c ∧ ascii_char c = true ∧ c ∉ [":"; "["; "]"]%char) as Hc.
  { intros c Hc%list_elem_of_In%Hl. revert Hc. clear. destruct c as [[] [] [] [] [] [] [] []];
      vm_compute; try discriminate; intros _; split_and!; try done; set_solver. }
  split_and!.
  - rewrite <- (list_fmap_id l) at 2. apply list_fmap_ext. intros i c Hi.
    by apply Hc, (list_elem_of_lookup_2 _ i).
  - apply Forall_forall. intros c Hi. by apply Hc.
  - intros c Hin Hi. by apply (proj2 (proj2 (Hc c Hi))).
Qed.

Section router.
Context `{Unicode}.

Lemma SplitHostPort_plain s port :
  (∀ c, c ∈ [":"; "["; "]"]%char → c ∉ chars s) → s ≠ ""%string →
  forallb is_digit (chars port) = true →
  SplitHostPort s = None ∧ SplitHostPort (s +:+ ":" +:+ port) = Some (s, port).
Proof.
  intros Hs Hne Hd. assert (∀ c, c ∈ [":"; "["; "]"]%char → c ∉ chars port) as Hp.
  { intros c Hc Hi. rewrite forallb_forall in Hd. apply list_elem_of_In, Hd in Hi.
    rewrite !elem_of_cons, elem_of_nil in Hc. by destruct Hc as [->|[->|[->|[]]]]. }
  assert ((":"%char : ascii) ∉ chars s) as Hcs by (apply Hs; set_solver).
  unfold SplitHostPort, last_index_byte. split.
  { by rewrite (proj2 (last_index_chars_none _ _) Hcs). }
  assert (chars (s +:+ ":" +:+ port) = chars s ++ ":"%char :: chars port) as E by (by rewrite !chars_app).
  rewrite E. assert (last_index_chars ":" (chars s ++ ":"%char :: chars port) = Some (length (chars s))) as ->.
  { apply last_index_chars_some. split; [by rewrite list_lookup_middle|].
    rewrite <- (Nat.add_1_r (length _)), drop_app_add. apply Hp. set_solver. }
  destruct (chars s) as [|c t] eqn:Ec.
  { exfalso. apply Hne. apply (inj chars). by rewrite Ec. }
  cbn [app]. destruct (is_char "[" c) eqn:Eb.
  { apply bool_decide_eq_true in Eb as ->. exfalso. apply (Hs "["%char); set_solver. }
  change (c :: t ++ ":"%char :: chars port) with ((c :: t) ++ ":"%char :: chars port).
  rewrite take_app_length, <- (Nat.add_1_r (length _)), drop_app_add. cbn [drop].
  rewrite (bool_decide_eq_false_2 (":"%char ∈ c :: t)) by done.
  assert (∀ d, d ∈ ["["; "]"]%char → d ∉ (c :: t) ++ ":"%char :: chars port) as Hno.
  { intros d Hd'. rewrite elem_of_app, (elem_of_cons (chars port)). intros [Hi|[->|Hi]].
    - apply (Hs d); [set_solver|done].
    - set_solver.
    - apply (Hp d); [set_solver|done]. }
  rewrite (bool_decide_eq_false_2 ("["%char ∈ _)) by (apply Hno; set_solver).
  rewrite (bool_decide_eq_false_2 ("]"%char ∈ _)) by (apply Hno; set_solver).
  cbn [orb]. by rewrite <- Ec, drop_0, !of_chars_chars.
Qed.

Lemma label_dot_free l : forallb label_char l = true → ("."%char : ascii) ∉ l.
Proof. rewrite forallb_forall. by intros Hl Hi%list_elem_of_In%Hl. Qed.

Lemma routerLabel_chars name tenant l :
  validServiceName name = true → routerLabel name tenant = Some l →
  forallb label_char (chars l) = true ∧ l ≠ ""%string.
Proof.
  intros Hn Hl. destruct (service_name_chars name Hn) as (Hnc & _ & Hne & _). unfold routerLabel in Hl.
  destruct (String.eqb tenant ""); [injection Hl as <-; split; [done|]; by intros ->|].
  destruct (negb (tenantLabelRE tenant) || _) eqn:Et; [done|]. injection Hl as <-.
  apply orb_false_iff in Et as [Et _]. apply negb_false_iff, tenant_chars in Et as [Htc _]. split.
  - by rewrite !chars_app, !forallb_app, Hnc, Htc.
  - intros E. apply Hne. apply (f_equal chars) in E. rewrite chars_app in E. by apply app_eq_nil in E as [-> _].
Qed.

(** The label's name and tenant, read back. *)
Lemma host_names_label name tenant l domain host :
  validServiceName name = true → routerLabel name tenant = Some l → router_domain domain = true →
  match SplitHostPort host with Some (h, _) => h | None => host end = l +:+ "." +:+ domain →
  host_names host domain = Some (name, tenant).
Proof.
  intros Hn Hl Hd Hhost. destruct (service_name_chars name Hn) as (Hnc & Hno & Hne & Hlast).
  unfold router_domain in Hd. rewrite !andb_true_iff, !negb_true_iff in Hd. destruct Hd as [[Hdc Hdot] Hde].
  destruct (routerLabel_chars _ _ _ Hn Hl) as [Hlc Hle].
  assert (cut_str l "--" = if String.eqb tenant "" then None else Some (name, tenant)) as Hcut.
  { unfold routerLabel in Hl. unfold cut_str. change (chars "--") with dashes.
    destruct (String.eqb_spec tenant "") as [->|Ht].
    - injection Hl as <-. by rewrite cut_at_none.
    - destruct (negb (tenantLabelRE tenant) || _) eqn:Et; [done|]. injection Hl as <-.
      rewrite !chars_app. change (chars "--") with dashes. rewrite cut_at_dashes by done.
      cbn. by rewrite !of_chars_chars. }
  assert (forallb (λ c, label_char c || is_char "." c) (chars (l +:+ "." +:+ domain)) = true) as Hall.
  { rewrite !chars_app, !forallb_app, Hdc. cbn [chars forallb]. apply andb_true_iff. split; [|done].
    rewrite forallb_forall in *. intros c Hc. by rewrite (Hlc c Hc). }
  destruct (domain_chars_fixed _ Hall) as (Hlow & Hasc & _).
  assert (has_suffix (l +:+ "." +:+ domain) "." = false) as Hs.
  { apply not_true_iff_false. rewrite has_suffix_true. intros [r E].
    apply not_true_iff_false in Hdot. apply Hdot. apply has_suffix_true. apply (f_equal chars) in E.
    rewrite !chars_app, app_assoc in E. destruct (exists_last (l := chars domain)) as (d & x & Ed).
    { intros Hnil. apply String.eqb_neq in Hde. apply Hde. apply (inj chars). by rewrite Hnil. }
    rewrite Ed, app_assoc in E. apply app_inj_tail in E as [_ ->]. exists (of_chars d).
    apply (inj chars). by rewrite Ed, chars_app, chars_of_chars. }
  unfold host_names. rewrite Hhost, trim_suffix_none by done.
  assert (to_lower (l +:+ "." +:+ domain) = l +:+ "." +:+ domain) as ->.
  { apply (inj chars). rewrite chars_to_lower; [done|]. by apply is_ascii_chars. }
  rewrite (proj2 (has_suffix_true _ _)) by eauto. cbn [negb].
  rewrite trim_suffix_app, Hde, (proj2 (String.eqb_neq l "")) by done.
  unfold contains_char. rewrite bool_decide_eq_false_2 by (by apply label_dot_free). cbn [orb].
  rewrite Hcut. destruct (String.eqb_spec tenant "") as [Ht|Ht].
  - unfold routerLabel in Hl. rewrite Ht in Hl. injection Hl as ->. rewrite Hn. cbn. by rewrite Ht.
  - rewrite Hn. cbn. by rewrite (proj2 (String.eqb_neq tenant "")).
Qed.

(** A public service is reached by the name it is given, with or without a
    port, and by no other service of any tenant: the router reads back the
    service and the tenant from the label, so no two share one. *)
Theorem router_names_roundtrip name tenant l domain port :
  validServiceName name = true → routerLabel name tenant = Some l → router_domain domain = true →
  forallb is_digit (chars port) = true →
  host_names (l +:+ "." +:+ domain) domain = Some (name, tenant) ∧
  host_names ((l +:+ "." +:+ domain) +:+ ":" +:+ port) domain = Some (name, tenant) ∧
  ∀ name' tenant', validServiceName name' = true → routerLabel name' tenant' = Some l →
    name' = name ∧ tenant' = tenant.
Proof.
  intros Hn Hl Hd Hp.
  assert (∀ n t, validServiceName n = true → routerLabel n t = Some l →
    host_names (l +:+ "." +:+ domain) domain = Some (n, t) ∧
    host_names ((l +:+ "." +:+ domain) +:+ ":" +:+ port) domain = Some (n, t)) as Hall.
  { intros n t Hvn Hvl.
    assert (forallb (λ c, label_char c || is_char "." c) (chars (l +:+ "." +:+ domain)) = true) as Hc.
    { unfold router_domain in Hd. rewrite !andb_true_iff in Hd. destruct Hd as [[Hdc _] _].
      destruct (routerLabel_chars _ _ _ Hvn Hvl) as [Hlc _].
      rewrite !chars_app, !forallb_app, Hdc. cbn [chars forallb]. apply andb_true_iff. split; [|done].
      rewrite forallb_forall in *. intros c Hc. by rewrite (Hlc c Hc). }
    destruct (domain_chars_fixed _ Hc) as (_ & _ & Hfree).
    assert (l +:+ "." +:+ domain ≠ ""%string) as Hne.
    { intros E. apply (f_equal chars) in E. rewrite !chars_app in E. by apply app_eq_nil in E as [_ ?]. }
    destruct (SplitHostPort_plain _ port Hfree Hne Hp) as [E1 E2].
    split; apply (host_names_label n t l); try done; [by rewrite E1|by rewrite E2]. }
  destruct (Hall name tenant Hn Hl) as [E1 E2]. split_and!; [done..|].
  intros n t Hn' Hl'. destruct (Hall n t Hn' Hl') as [E _]. rewrite E in E1. by injection E1 as -> ->.
Qed.
End router.

Lemma router_names_roundtrip_witness :
  host_names (H := ascii_unicode) "web--acme.apps.example.com:8443" "apps.example.com" =
    Some ("web", "acme")%string.
Proof.
  refine (proj1 (proj2 (router_names_roundtrip (H := ascii_unicode) "web" "acme" "web--acme" "apps.example.com"
    "8443" _ _ _ _))); vm_compute; reflexivity.
Defined.
