(* ===== verification/Services.v ===== *)
(** * Services and their controller (internal/gateway: services_controller.go,
    services_health.go, services_store.go, services.go)

    A service is a spec and a count of replicas. A pass of the controller
    takes one step after another, each decided under the service's lock
    ([decide]) and done outside it. Reasons and log lines are text for people
    and are left out: a rollout keeps its state and revisions, a replica's
    health whether it failed. [s.h] makes a replica's health on its first use;
    here an absent entry is that fresh one. *)
From stdpp Require Import pretty.
From S2P Require Import Prelude GoStrings Api EgressNames PolicyEnv Spec ServiceSpec.

Definition RolloutInProgress : string := "in_progress".
Definition RolloutDone : string := "done".
Definition RolloutFailed : string := "failed".

Record revision := { rv_Rev : Z; rv_Spec : ServiceSpec }.

Record replicaRecord := {
  rp_Sandbox : string;
  rp_Node : string;
  rp_Rev : Z;
  rp_PID : Z;
  rp_Restarts : Z;
  rp_Created : Z
}.

Record ServiceRollout := { ro_State : string; ro_From : Z; ro_To : Z }.

Record serviceRecord := {
  sr_Name : string;
  sr_User : string;
  sr_Tenant : string;
  sr_Spec : ServiceSpec;
  sr_Revision : Z;
  sr_Serving : revision;
  sr_Target : option revision;
  sr_Older : list revision;
  sr_Rollout : option ServiceRollout;
  sr_Members : list replicaRecord;
  sr_Restarts : Z;
  sr_Created : Z;
  sr_Updated : Z
}.

Definition set_members (ms : list replicaRecord) (r : serviceRecord) : serviceRecord :=
  let '(Build_serviceRecord nm us te sp re se ta ol ro _ rs cr up) := r in
  Build_serviceRecord nm us te sp re se ta ol ro ms rs cr up.
Definition set_older (ol : list revision) (r : serviceRecord) : serviceRecord :=
  let '(Build_serviceRecord nm us te sp re se ta _ ro ms rs cr up) := r in
  Build_serviceRecord nm us te sp re se ta ol ro ms rs cr up.
Definition set_rollout (se : revision) (ta : option revision) (ro : option ServiceRollout)
    (r : serviceRecord) : serviceRecord :=
  let '(Build_serviceRecord nm us te sp re _ _ ol _ ms rs cr up) := r in
  Build_serviceRecord nm us te sp re se ta ol ro ms rs cr up.
Definition set_revision (n : Z) (r : serviceRecord) : serviceRecord :=
  let '(Build_serviceRecord nm us te sp _ se ta ol ro ms rs cr up) := r in
  Build_serviceRecord nm us te sp n se ta ol ro ms rs cr up.
Definition set_spec (sp : ServiceSpec) (r : serviceRecord) : serviceRecord :=
  let '(Build_serviceRecord nm us te _ re se ta ol ro ms rs cr up) := r in
  Build_serviceRecord nm us te sp re se ta ol ro ms rs cr up.
Definition set_restarts (n : Z) (r : serviceRecord) : serviceRecord :=
  let '(Build_serviceRecord nm us te sp re se ta ol ro ms _ cr up) := r in
  Build_serviceRecord nm us te sp re se ta ol ro ms n cr up.
Definition set_updated (t : Z) (r : serviceRecord) : serviceRecord :=
  let '(Build_serviceRecord nm us te sp re se ta ol ro ms rs cr _) := r in
  Build_serviceRecord nm us te sp re se ta ol ro ms rs cr t.

Record replicaHealth := {
  hl_checking : bool;
  hl_checked : bool;
  hl_healthy : bool;
  hl_fails : Z;
  hl_lastCheck : Z;
  hl_lost : bool;
  hl_fatal : bool
}.

Definition fresh_health : replicaHealth := {|
  hl_checking := false; hl_checked := false; hl_healthy := false; hl_fails := 0;
  hl_lastCheck := zero_time; hl_lost := false; hl_fatal := false |}.

Record service := {
  sc_rec : serviceRecord;
  sc_health : gmap string replicaHealth;
  sc_gone : bool;
  sc_pending : list Z;
  sc_crashes : Z;
  sc_nextCreate : Z;
  sc_rr : Z
}.

Definition on_record (f : serviceRecord → serviceRecord) (s : service) : service := {|
  sc_rec := f (sc_rec s); sc_health := sc_health s; sc_gone := sc_gone s; sc_pending := sc_pending s;
  sc_crashes := sc_crashes s; sc_nextCreate := sc_nextCreate s; sc_rr := sc_rr s |}.
Definition on_health (f : gmap string replicaHealth → gmap string replicaHealth) (s : service) : service := {|
  sc_rec := sc_rec s; sc_health := f (sc_health s); sc_gone := sc_gone s; sc_pending := sc_pending s;
  sc_crashes := sc_crashes s; sc_nextCreate := sc_nextCreate s; sc_rr := sc_rr s |}.
Definition on_crashes (n next : Z) (s : service) : service := {|
  sc_rec := sc_rec s; sc_health := sc_health s; sc_gone := sc_gone s; sc_pending := sc_pending s;
  sc_crashes := n; sc_nextCreate := next; sc_rr := sc_rr s |}.
Definition on_pending (p : list Z) (s : service) : service := {|
  sc_rec := sc_rec s; sc_health := sc_health s; sc_gone := sc_gone s; sc_pending := p;
  sc_crashes := sc_crashes s; sc_nextCreate := sc_nextCreate s; sc_rr := sc_rr s |}.
Definition on_gone (s : service) : service := {|
  sc_rec := set_members [] (sc_rec s); sc_health := sc_health s; sc_gone := true;
  sc_pending := sc_pending s; sc_crashes := sc_crashes s; sc_nextCreate := sc_nextCreate s;
  sc_rr := sc_rr s |}.
Definition on_rr (n : Z) (s : service) : service := {|
  sc_rec := sc_rec s; sc_health := sc_health s; sc_gone := sc_gone s; sc_pending := sc_pending s;
  sc_crashes := sc_crashes s; sc_nextCreate := sc_nextCreate s; sc_rr := n |}.

Definition members (s : service) : list replicaRecord := sr_Members (sc_rec s).

(** The spec a replica of a revision was made from, and is checked by. *)
Definition specOf (r : serviceRecord) (rev : Z) : ServiceSpec :=
  match List.find (λ o, rv_Rev o =? rev) (option_list (sr_Target r) ++ sr_Older r) with
  | Some o => rv_Spec o
  | None => rv_Spec (sr_Serving r)
  end.

(** [s.h]. *)
Definition h (s : service) (id : string) : replicaHealth := default fresh_health (sc_health s !! id).
Definition healthy (s : service) (m : replicaRecord) : bool := hl_healthy (h s (rp_Sandbox m)).

(** ** Health checks *)
Record checkResult := { ck_ok : bool; ck_fatal : bool }.
Definition check_passed : checkResult := {| ck_ok := true; ck_fatal := false |}.
Definition check_failed : checkResult := {| ck_ok := false; ck_fatal := false |}.
Definition check_fatal : checkResult := {| ck_ok := false; ck_fatal := true |}.

Definition apply (r : checkResult) (at_ : Z) (x : replicaHealth) : replicaHealth :=
  if ck_fatal r then
    {| hl_checking := false; hl_checked := true; hl_healthy := false; hl_fails := hl_fails x;
       hl_lastCheck := at_; hl_lost := hl_lost x; hl_fatal := true |}
  else if ck_ok r then
    {| hl_checking := false; hl_checked := true; hl_healthy := true; hl_fails := 0;
       hl_lastCheck := at_; hl_lost := hl_lost x; hl_fatal := hl_fatal x |}
  else
    {| hl_checking := false; hl_checked := true; hl_healthy := false; hl_fails := int_add (hl_fails x) 1;
       hl_lastCheck := at_; hl_lost := hl_lost x; hl_fatal := hl_fatal x |}.

(** What the node answers of a replica's command, of GET on its port, and of
    the health command. *)
Inductive process_answer := proc_gone | proc_error | proc_exited | proc_runs.
Inductive probe_answer := probe_gone | probe_error | probe_status (st : Z).
Inductive command_answer := cmd_gone | cmd_error | cmd_timed_out | cmd_exit (code : Z).

Definition probeHTTP (a : probe_answer) : checkResult :=
  match a with
  | probe_gone => check_fatal
  | probe_error => check_failed
  | probe_status st => if (st <? 200) || (st >=? 400) then check_failed else check_passed
  end.

Definition check (m : replicaRecord) (sp : ServiceSpec) (p : process_answer) (http : probe_answer)
    (cmd : command_answer) : checkResult :=
  let health :=
    match sp_Health sp with
    | None => check_passed
    | Some hc =>
        if negb (String.eqb (svh_HTTP hc) "") then probeHTTP http
        else match cmd with
             | cmd_gone => check_fatal
             | cmd_error | cmd_timed_out => check_failed
             | cmd_exit c => if c =? 0 then check_passed else check_failed
             end
    end in
  if rp_PID m >? 0 then
    match p with
    | proc_gone | proc_exited => check_fatal
    | proc_error => check_failed
    | proc_runs => health
    end
  else health.

(** A check's answer, when it comes: the replica may have left the service by
    then, and its health with it. *)
Definition checked (id : string) (r : checkResult) (now : Z) (s : service) : service :=
  let x := apply r now (h s id) in
  let s' := match sc_health s !! id with Some _ => on_health <[id := x]> s | None => s end in
  if hl_healthy x then on_crashes 0 (sc_nextCreate s') s' else s'.

(** What is seen of one replica without asking its guest, and whether a check
    of it starts. [owner] is the store's answer: [None] an error, [Some None]
    no such sandbox. *)
Definition observe_one (node_up : bool) (owner : option (option string)) (now : Z) (sp : ServiceSpec)
    (m : replicaRecord) (x : replicaHealth) : replicaHealth * bool :=
  let gone := match owner with
              | None => false
              | Some None => true
              | Some (Some n) => negb (String.eqb n (rp_Node m))
              end in
  let every := match sp_Health sp with Some hc => secs (svh_EverySecs hc) | None => 10 * second end in
  let fatal := hl_fatal x || gone in
  let start := negb (negb node_up || fatal || hl_checking x) &&
               ((hl_lastCheck x =? zero_time) || (every <=? time_sub now (hl_lastCheck x))) in
  ({| hl_checking := hl_checking x || start; hl_checked := hl_checked x; hl_healthy := hl_healthy x;
      hl_fails := hl_fails x; hl_lastCheck := hl_lastCheck x; hl_lost := negb node_up; hl_fatal := fatal |},
   start).

Definition observeService (node_up : string → bool) (owner : string → option (option string)) (now : Z)
    (s : service) : service :=
  if sc_gone s then s
  else foldl (λ s' m,
    on_health <[rp_Sandbox m := (observe_one (node_up (rp_Node m)) (owner (rp_Sandbox m)) now
                                   (specOf (sc_rec s) (rp_Rev m)) m (h s' (rp_Sandbox m))).1]> s') s (members s).

(** ** Deciding a step *)
Definition backoff (crashes : Z) : Z :=
  if crashes <=? 1 then 0
  else Z.min (Z.shiftl second (Z.min (crashes - 2) 6)) minute.

(** [None] is no rollout. *)
Definition want_of (r : serviceRecord) : revision := default (sr_Serving r) (sr_Target r).

Definition failures_allowed (sp : ServiceSpec) : Z :=
  match sp_Health sp with Some hc => svh_Failures hc | None => 3 end.

Definition failed (s : service) (m : replicaRecord) : bool :=
  let x := h s (rp_Sandbox m) in
  hl_fatal x || (failures_allowed (specOf (sc_rec s) (rp_Rev m)) <=? hl_fails x).

Definition leaves (s : service) (m : replicaRecord) : bool :=
  failed s m || hl_lost (h s (rp_Sandbox m)).

(** A replica that leaves: what it counts as, and the restarts its replacement
    is handed. *)
Definition drop_one (now : Z) (s : service) (m : replicaRecord) : service :=
  if hl_lost (h s (rp_Sandbox m)) then on_pending (sc_pending s ++ [rp_Restarts m]) s
  else
    let crashes := int_add (sc_crashes s) 1 in
    on_pending (sc_pending s ++ [int_add (rp_Restarts m) 1])
      (on_crashes crashes (now + backoff crashes)
         (on_record (set_restarts (int_add (sr_Restarts (sc_rec s)) 1)) s)).

Definition failRollout (now : Z) (s : service) : service :=
  match sr_Target (sc_rec s) with
  | None => s
  | Some t =>
      on_crashes 0 zero_time
        (on_record (λ r, set_updated now (set_older (sr_Older r ++ [t])
           (set_rollout (sr_Serving r) None
              (Some {| ro_State := RolloutFailed; ro_From := rv_Rev (sr_Serving r); ro_To := rv_Rev t |}) r))) s)
  end.

(** Older revisions no replica is left of are dropped with every write. *)
Definition pruneOlder (r : serviceRecord) : serviceRecord :=
  set_older (List.filter (λ o, existsb (λ m, rp_Rev m =? rv_Rev o) (sr_Members r)) (sr_Older r)) r.

Fixpoint remove_member (id : string) (ms : list replicaRecord) : list replicaRecord :=
  match ms with
  | [] => []
  | m :: rest => if String.eqb (rp_Sandbox m) id then rest else m :: remove_member id rest
  end.

Definition retireStep (ids : list string) (now : Z) (s : service) : service :=
  let s := foldl (λ s id, on_health (delete id) (on_record (λ r, set_members (remove_member id (sr_Members r)) r) s))
             s ids in
  on_record (λ r, pruneOlder (set_updated now r)) s.

(** [pickRetire]'s loop: [best] so far, then the rest. *)
Fixpoint pick (s : service) (newest : bool) (best : replicaRecord) (from : list replicaRecord) : replicaRecord :=
  match from with
  | [] => best
  | m :: rest =>
      let bh := healthy s best in
      let mh := healthy s m in
      let best' :=
        if negb (Bool.eqb bh mh) then (if bh then m else best)
        else if Bool.eqb newest (rp_Created m >? rp_Created best) then m else best in
      pick s newest best' rest
  end.
Definition pickRetire (s : service) (from : list replicaRecord) (newest : bool) : option string :=
  match from with [] => None | m :: rest => Some (rp_Sandbox (pick s newest m rest)) end.

Inductive action :=
| retire (ids : list string)
| recorded                                 (** done already: the pass looks again *)
| create (rev : revision) (restarts : Z) (spread : option (gmap string Z)).

Definition spread_of (r : serviceRecord) : option (gmap string Z) :=
  if String.eqb (sp_Spread (sr_Spec r)) SpreadNode
  then Some (foldl (λ g m, <[rp_Node m := default 0 (g !! rp_Node m) + 1]> g) ∅ (sr_Members r))
  else None.

Definition createStep (rev : revision) (s : service) : action * service :=
  match sc_pending s with
  | [] => (create rev 0 (spread_of (sc_rec s)), s)
  | n :: rest => (create rev n (spread_of (sc_rec s)), on_pending rest s)
  end.

Definition is_rev (n : Z) (m : replicaRecord) : bool := rp_Rev m =? n.
Definition cur_of (s : service) : list replicaRecord :=
  List.filter (is_rev (rv_Rev (want_of (sc_rec s)))) (members s).
Definition old_of (s : service) : list replicaRecord :=
  List.filter (λ m, negb (is_rev (rv_Rev (want_of (sc_rec s))) m)) (members s).
Definition count {A} (f : A → bool) (l : list A) : Z := Z.of_nat (length (List.filter f l)).

(** The failed and the lost, all at once. *)
Definition drop_step (now : Z) (s : service) : action * service :=
  let out := List.filter (leaves s) (members s) in
  let keep := List.filter (λ m, negb (leaves s m)) (members s) in
  let rollout_failed := match sr_Target (sc_rec s) with
                        | None => false
                        | Some t => existsb (λ m, negb (hl_lost (h s (rp_Sandbox m))) && is_rev (rv_Rev t) m) out
                        end in
  let s := on_record (set_members keep) (foldl (drop_one now) s out) in
  let s := if rollout_failed then failRollout now s else s in
  (retire (rp_Sandbox <$> out), retireStep (rp_Sandbox <$> out) now s).

Definition rollout_done (now : Z) (s : service) : service :=
  match sr_Target (sc_rec s) with
  | None => s
  | Some t =>
      on_record (λ r, pruneOlder (set_updated now (set_rollout t None
        ((λ ro, {| ro_State := RolloutDone; ro_From := ro_From ro; ro_To := ro_To ro |}) <$> sr_Rollout r) r))) s
  end.

(** [active] is [ownerActive]'s answer. [None] is nothing to do. *)
Definition decide (active : bool) (now : Z) (s : service) : option action * service :=
  let desired := sp_Replicas (sr_Spec (sc_rec s)) in
  let want := want_of (sc_rec s) in
  let cur := cur_of s in
  let old := old_of s in
  let ncur := Z.of_nat (length cur) in
  let nold := Z.of_nat (length old) in
  let healthyCur := count (healthy s) cur in
  let retire_one id := (Some (retire [id]), retireStep [id] now s) in
  if sc_gone s then (None, s)
  else if existsb (leaves s) (members s) then let '(a, s') := drop_step now s in (Some a, s')
  else if (nold >? 0) && (healthyCur + nold >? desired) then
    match pickRetire s old false with Some id => retire_one id | None => (None, s) end
  else if ncur >? desired then
    match pickRetire s cur true with Some id => retire_one id | None => (None, s) end
  else if bool_decide (is_Some (sr_Target (sc_rec s))) && (nold =? 0) && (healthyCur =? desired) then
    (Some recorded, rollout_done now s)
  else if (ncur <? desired) && negb (now <? sc_nextCreate s) && active then
    if (nold >? 0) && (ncur - healthyCur >? 0) then (None, s)
    else let '(a, s') := createStep want s in (Some a, s')
  else (None, s).

(** ** Making a replica *)
Inductive replica_answer :=
| made (id node : string) (pid : Z)
| not_created (status : Z) (transient : bool)
| not_started (id : string).

Definition refusedNow (a : replica_answer) : bool :=
  match a with
  | made _ _ _ => false
  | not_created st transient => negb transient && (st >=? 400) && (st <? 500) && negb (st =? 409)
  | not_started _ => true
  end.

(** Whether the record is written too. *)
Definition createFailed (now : Z) (rev : revision) (refused : bool) (s : service) : service * bool :=
  let crashes := int_add (sc_crashes s) 1 in
  let s := on_crashes crashes (now + Z.max (backoff crashes) second) s in
  match sr_Target (sc_rec s) with
  | Some t =>
      if (rv_Rev t =? rv_Rev rev) && refused
      then (on_record pruneOlder (failRollout now s), true) else (s, false)
  | None => (s, false)
  end.

(** A replica that could not be made hands its restarts back. *)
Definition create_failed (now : Z) (rev : revision) (restarts : Z) (refused : bool) (s : service)
    : service * bool :=
  createFailed now rev refused (on_pending (restarts :: sc_pending s) s).

Definition new_replica (rev : revision) (restarts : Z) (id node : string) (pid now : Z) : replicaRecord := {|
  rp_Sandbox := id; rp_Node := node; rp_Rev := rv_Rev rev; rp_PID := pid; rp_Restarts := restarts;
  rp_Created := now |}.

Definition create_recorded (m : replicaRecord) (now : Z) (s : service) : service :=
  on_record (λ r, pruneOlder (set_updated now (set_members (sr_Members r ++ [m]) r))) s.

(** The request for a replica: [secrets] are the opened ones. *)
Definition replica_request (name : string) (rev : revision) (secrets : gmap string string)
    : CreateSandboxRequest :=
  let sp := rv_Spec rev in
  {| cr_Name := ""; cr_Image := sp_Image sp; cr_CPUs := svr_CPUs (sp_Resources sp);
     cr_MemoryMB := svr_MemoryMB (sp_Resources sp); cr_DiskMB := svr_DiskMB (sp_Resources sp);
     cr_Env := secrets ∪ sp_Env sp; cr_Network := sp_Network sp; cr_IdleTimeoutSecs := 0;
     cr_IdleAction := ""; cr_LifetimeSecs := 0;
     cr_SnapshotID := ""; cr_SnapshotEverySecs := 0; cr_SnapshotKeep := 0;
     cr_Labels := {["type" := "service"; "name" := name]}%string; cr_Volumes := [];
     cr_RegistryLogin := None; cr_MetricsExport := None; cr_GPUs := 0 |}.
Definition replica_labels (name : string) (rev : revision) : gmap string string :=
  {["gateway.service" := name; "gateway.service.rev" := pretty (rv_Rev rev)]}%string.

(** ** Requests *)
Definition new_service (sp : ServiceSpec) (user tenant : string) (now : Z) : service := {|
  sc_rec := {| sr_Name := sp_Name sp; sr_User := user; sr_Tenant := tenant; sr_Spec := sp; sr_Revision := 1;
               sr_Serving := {| rv_Rev := 1; rv_Spec := sp |}; sr_Target := None; sr_Older := [];
               sr_Rollout := None; sr_Members := []; sr_Restarts := 0; sr_Created := now;
               sr_Updated := now |};
  sc_health := ∅; sc_gone := false; sc_pending := []; sc_crashes := 0; sc_nextCreate := zero_time;
  sc_rr := 0 |}.

(** A new revision, towards which the replicas roll; one being rolled out is
    superseded. *)
Definition start_rollout (sp : ServiceSpec) (r : serviceRecord) : serviceRecord :=
  let rev := int_add (sr_Revision r) 1 in
  let older := match sr_Target r with Some t => sr_Older r ++ [t] | None => sr_Older r end in
  set_revision rev (set_older older
    (set_rollout (sr_Serving r) (Some {| rv_Rev := rev; rv_Spec := sp |})
       (Some {| ro_State := RolloutInProgress; ro_From := rv_Rev (sr_Serving r); ro_To := rev |}) r)).

(** [updateService], of a spec that has been checked. *)
Definition update_record (sp : ServiceSpec) (now : Z) (r : serviceRecord) : serviceRecord :=
  let r' := if same_shape sp (rv_Spec (want_of r)) then r else start_rollout sp r in
  set_updated now (set_spec sp r').

Definition redeploy_record (now : Z) (r : serviceRecord) : serviceRecord :=
  set_updated now (start_rollout (sr_Spec r) r).

Definition scale_record (n now : Z) (r : serviceRecord) : serviceRecord :=
  set_updated now (set_spec (set_Replicas n (sr_Spec r)) r).

(** ** The router's choice *)

(** [active]: the owner may act. *)
Definition pickReplica (active : bool) (s : service) : option (string * Z) * service :=
  if negb active then (None, s)
  else
    let up := List.filter (λ m, let x := h s (rp_Sandbox m) in hl_healthy x && negb (hl_lost x) && negb (hl_fatal x))
                (members s) in
    match up !! Z.to_nat (sc_rr s mod Z.of_nat (length up)) with
    | None => (None, s)
    | Some m => (Some (rp_Sandbox m, sp_Port (specOf (sc_rec s) (rp_Rev m))),
                 on_rr ((sc_rr s + 1) mod 2 ^ 64) s)
    end.

(** ** A pass *)

(** One moment of a pass: when it decides, whether the owner may act, and the
    answer to a create and when it comes. *)
Record moment := {
  mo_now : Z;
  mo_active : bool;
  mo_end : Z;
  mo_answer : replica_answer
}.

(** What a step leaves of the service when it is done, if the service is still
    there. *)
Definition act (a : action) (mo : moment) (s : service) : service :=
  match a with
  | retire _ | recorded => s
  | create rev restarts _ =>
      match mo_answer mo with
      | made id node pid => create_recorded (new_replica rev restarts id node pid (mo_end mo)) (mo_end mo) s
      | ans => (create_failed (mo_end mo) rev restarts (refusedNow ans) s).1
      end
  end.

(** [reconcileService]'s loop: whether it ended with nothing to do, rather
    than by its bound. *)
Fixpoint pass (fuel : nat) (env : nat → moment) (i : nat) (s : service) : service * bool :=
  match fuel with
  | O => (s, false)
  | S fuel =>
      match decide (mo_active (env i)) (mo_now (env i)) s with
      | (None, s') => (s', true)
      | (Some a, s') => pass fuel env (S i) (act a (env i) s')
      end
  end.

Definition pass_bound : nat := 4 * Z.to_nat MaxServiceReplicas + 8.
Definition reconcileService (env : nat → moment) (s : service) : service * bool := pass pass_bound env 0 s.
