(* ===== verification/Rollout.v ===== *)
(** * What a step of the service controller may do

    [decide] never takes a serving replica away below the count asked for,
    makes one more than it at most, and takes few enough steps for the bound
    on a pass never to be what ends one. Where creates succeed and checks
    pass, passes and checks in turn bring a service to its spec. *)
From S2P Require Import Prelude GoStrings Api EgressNames PolicyEnv Spec ServiceSpec Services.

(** ** Counting *)
Lemma count_app {A} (f : A → bool) a b : count f (a ++ b) = count f a + count f b.
Proof. unfold count. rewrite List.filter_app, length_app. lia. Qed.

Lemma count_cons {A} (f : A → bool) x l : count f (x :: l) = (if f x then 1 else 0) + count f l.
Proof. unfold count. cbn. destruct (f x); cbn; lia. Qed.

Lemma count_nil {A} (f : A → bool) : count f [] = 0.
Proof. done. Qed.

Lemma count_nonneg {A} (f : A → bool) l : 0 ≤ count f l.
Proof. unfold count. lia. Qed.

Lemma count_le {A} (f : A → bool) l : count f l ≤ Z.of_nat (length l).
Proof. induction l; [done|]. rewrite count_cons, length_cons. destruct (f a); lia. Qed.

Lemma count_filter {A} (f g : A → bool) l : count f (List.filter g l) = count (λ x, g x && f x) l.
Proof.
  induction l as [|x l IH]; [done|]. cbn [List.filter]. rewrite count_cons.
  destruct (g x); rewrite ?count_cons, IH; done.
Qed.

Lemma count_split {A} (f g : A → bool) l :
  count f l = count (λ x, g x && f x) l + count (λ x, negb (g x) && f x) l.
Proof. induction l as [|x l IH]; [done|]. rewrite !count_cons, IH. destruct (g x), (f x); cbn; lia. Qed.

Lemma count_ext {A} (f g : A → bool) l : (∀ x, x ∈ l → f x = g x) → count f l = count g l.
Proof.
  induction l as [|x l IH]; intros Hfg; [done|]. rewrite !count_cons, (Hfg x), IH; [done| |left].
  intros y Hy. apply Hfg. by right.
Qed.

Lemma count_all {A} (f : A → bool) l : (∀ x, x ∈ l → f x = true) → count f l = Z.of_nat (length l).
Proof.
  induction l as [|x l IH]; intros Hf; [done|]. rewrite count_cons, length_cons, Hf by left.
  rewrite IH by (intros y Hy; apply Hf; by right). lia.
Qed.

Lemma count_lt {A} (f : A → bool) l x : x ∈ l → f x = false → count f l < Z.of_nat (length l).
Proof.
  induction l as [|y l IH]; [by intros ?%not_elem_of_nil|]. rewrite count_cons, length_cons.
  intros [->|Hx]%elem_of_cons Hf; [rewrite Hf|specialize (IH Hx Hf)];
    pose proof (count_le f l); destruct (f y) eqn:?; lia.
Qed.

Lemma length_filter_count {A} (f : A → bool) l : Z.of_nat (length (List.filter f l)) = count f l.
Proof. done. Qed.

Lemma existsb_same {A} (f g : A → bool) l : (∀ x, f x = g x) → existsb f l = existsb g l.
Proof. intros E. induction l as [|x l IH]; [done|]. cbn. by rewrite E, IH. Qed.

(** ** Members *)
Definition ids (ms : list replicaRecord) : list string := rp_Sandbox <$> ms.

Lemma ids_inj ms m m' : NoDup (ids ms) → m ∈ ms → m' ∈ ms → rp_Sandbox m = rp_Sandbox m' → m = m'.
Proof.
  intros Hnd [i Hi]%list_elem_of_lookup [j Hj]%list_elem_of_lookup E.
  assert (i = j) as ->; [|congruence].
  eapply (NoDup_lookup (ids ms)); [done| |]; unfold ids; rewrite list_lookup_fmap;
    [by rewrite Hi|rewrite Hj; cbn; by rewrite E].
Qed.

Lemma remove_member_spec ms m :
  NoDup (ids ms) → m ∈ ms → ∃ a b, ms = a ++ m :: b ∧ remove_member (rp_Sandbox m) ms = a ++ b.
Proof.
  induction ms as [|x ms IH]; [by intros _ ?%not_elem_of_nil|].
  intros [Hx Hnd]%NoDup_cons Hm. cbn [remove_member].
  destruct (String.eqb_spec (rp_Sandbox x) (rp_Sandbox m)) as [E|E].
  - apply elem_of_cons in Hm as [->|Hm]; [by exists [], ms|].
    exfalso. apply Hx. rewrite E. apply list_elem_of_fmap. eauto.
  - apply elem_of_cons in Hm as [->|Hm]; [done|].
    destruct (IH Hnd Hm) as (a & b & -> & E'). exists (x :: a), b. cbn. by rewrite E'.
Qed.

Lemma remove_member_sublist id ms : remove_member id ms `sublist_of` ms.
Proof.
  induction ms as [|x ms IH]; cbn; [constructor|].
  destruct (String.eqb _ _); [by apply sublist_cons|by apply sublist_skip].
Qed.

Lemma remove_member_not_in ms m id :
  NoDup (ids ms) → m ∈ remove_member id ms → rp_Sandbox m = id → False.
Proof.
  intros Hnd Hm <-. assert (m ∈ ms) as Hin.
  { eapply elem_of_submseteq; [done|]. by apply sublist_submseteq, remove_member_sublist. }
  destruct (remove_member_spec ms m Hnd Hin) as (a & b & E & E'). rewrite E' in Hm.
  rewrite E in Hnd. unfold ids in Hnd. rewrite fmap_app, fmap_cons in Hnd.
  apply NoDup_app in Hnd as (_ & Hab & [Hb _]%NoDup_cons).
  apply elem_of_app in Hm as [Hm|Hm].
  - apply (Hab (rp_Sandbox m)); [apply list_elem_of_fmap; eauto|left].
  - apply Hb, list_elem_of_fmap. eauto.
Qed.

Lemma remove_member_count f ms m :
  NoDup (ids ms) → m ∈ ms →
  count f (remove_member (rp_Sandbox m) ms) = count f ms - (if f m then 1 else 0).
Proof.
  intros Hnd Hm. destruct (remove_member_spec ms m Hnd Hm) as (a & b & -> & ->).
  rewrite !count_app, count_cons. lia.
Qed.

Lemma remove_member_length ms m :
  NoDup (ids ms) → m ∈ ms →
  Z.of_nat (length (remove_member (rp_Sandbox m) ms)) = Z.of_nat (length ms) - 1.
Proof.
  intros Hnd Hm. destruct (remove_member_spec ms m Hnd Hm) as (a & b & -> & ->).
  rewrite !length_app, length_cons. lia.
Qed.

Lemma remove_member_absent id ms : id ∉ ids ms → remove_member id ms = ms.
Proof.
  induction ms as [|x ms IH]; [done|]. unfold ids. rewrite fmap_cons, not_elem_of_cons. intros [Hx Hms]. cbn.
  rewrite (proj2 (String.eqb_neq _ _)) by congruence. by rewrite IH.
Qed.

(** ** What each step leaves *)
Lemma members_on_record f s : members (on_record f s) = sr_Members (f (sc_rec s)).
Proof. done. Qed.

Lemma members_set ms r : sr_Members (set_members ms r) = ms.
Proof. by destruct r. Qed.

Lemma members_retireStep rids now s :
  members (retireStep rids now s) = foldl (λ ms id, remove_member id ms) (members s) rids.
Proof.
  unfold retireStep, members. cbn [on_record sc_rec].
  assert (∀ r, sr_Members (pruneOlder (set_updated now r)) = sr_Members r) as -> by (by intros []).
  revert s. induction rids as [|id rids IH]; intros s; [done|]. cbn [foldl]. rewrite IH.
  cbn. f_equal. apply members_set.
Qed.

Lemma members_drop_one now s m : members (drop_one now s m) = members s.
Proof. unfold drop_one, members. destruct (hl_lost _); cbn; [done|]. by destruct (sc_rec s). Qed.

Lemma members_drops now ms s : members (foldl (drop_one now) s ms) = members s.
Proof. revert s. induction ms as [|m ms IH]; intros s; cbn; [done|]. by rewrite IH, members_drop_one. Qed.

Lemma members_failRollout now s : members (failRollout now s) = members s.
Proof.
  unfold failRollout, members. destruct (sr_Target (sc_rec s)) as [t|]; [|done].
  cbn. by destruct (sc_rec s).
Qed.

Lemma removes_kept rids ms :
  (∀ m, m ∈ ms → rp_Sandbox m ∉ rids) → foldl (λ ms id, remove_member id ms) ms rids = ms.
Proof.
  induction rids as [|id rids IH]; intros Hno; cbn [foldl]; [done|].
  rewrite remove_member_absent.
  - apply IH. intros m Hm Hi. apply (Hno m Hm). by right.
  - intros (m & -> & Hm)%list_elem_of_fmap. apply (Hno m Hm). left.
Qed.

Lemma members_drop_step now s :
  NoDup (ids (members s)) →
  members (drop_step now s).2 = List.filter (λ m, negb (leaves s m)) (members s).
Proof.
  intros Hnd. unfold drop_step. cbn [snd]. rewrite members_retireStep.
  match goal with |- foldl _ ?ms _ = _ => assert (ms = List.filter (λ m, negb (leaves s m)) (members s)) as -> end.
  { destruct (match sr_Target (sc_rec s) with None => false | Some t => _ end);
      rewrite ?members_failRollout, members_on_record; apply members_set. }
  apply removes_kept. intros m [Hm Hl]%elem_of_bfilter (m' & E & [Hm' Hl']%elem_of_bfilter)%list_elem_of_fmap.
  rewrite (ids_inj _ m m' Hnd Hm Hm' E) in Hl.
  rewrite Hl' in Hl. done.
Qed.

(** ** Choosing which replica goes *)
Lemma pick_in s newest from : ∀ best, pick s newest best from ∈ best :: from.
Proof.
  induction from as [|m from IH]; intros best; [left|]. cbn [pick].
  match goal with |- pick _ _ ?b _ ∈ _ =>
    assert (b = m ∨ b = best) as Hb by (repeat case_match; auto); specialize (IH b) end.
  rewrite !elem_of_cons in *. destruct Hb as [E|E]; rewrite E in *; tauto.
Qed.

(** One not healthy goes first. *)
Lemma pick_unhealthy s newest from : ∀ best m,
  m ∈ best :: from → healthy s m = false → healthy s (pick s newest best from) = false.
Proof.
  induction from as [|x from IH]; intros best m Hm Hh; [by apply list_elem_of_singleton in Hm as ->|].
  cbn [pick]. destruct (healthy s x) eqn:Ex.
  - destruct (healthy s best) eqn:Eb; cbn [Bool.eqb negb].
    + apply (IH _ m); [|done]. rewrite !elem_of_cons in Hm.
      destruct Hm as [->|[->|Hm]]; [congruence|congruence|by right].
    + apply (IH _ best); [left|done].
  - destruct (healthy s best) eqn:Eb; cbn [Bool.eqb negb].
    + apply (IH _ x); [left|done].
    + destruct (Bool.eqb newest _); [apply (IH _ x)|apply (IH _ best)]; (left || done).
Qed.

Lemma pickRetire_spec s from newest id :
  pickRetire s from newest = Some id →
  ∃ m, m ∈ from ∧ rp_Sandbox m = id ∧ (healthy s m = true → ∀ x, x ∈ from → healthy s x = true).
Proof.
  destruct from as [|m from]; [done|]. cbn. intros [= <-].
  exists (pick s newest m from). split_and!; [apply pick_in|done|].
  intros Hh x Hx. destruct (healthy s x) eqn:E; [done|].
  by rewrite (pick_unhealthy s newest from m x Hx E) in Hh.
Qed.

(** ** The cases of a decision *)
Definition desired (s : service) : Z := sp_Replicas (sr_Spec (sc_rec s)).
Definition want (s : service) : revision := want_of (sc_rec s).
Definition ncur (s : service) : Z := Z.of_nat (length (cur_of s)).
Definition nold (s : service) : Z := Z.of_nat (length (old_of s)).
Definition hcur (s : service) : Z := count (healthy s) (cur_of s).
Definition size (s : service) : Z := Z.of_nat (length (members s)).
Definition all_stay (s : service) : Prop := ∀ m, m ∈ members s → leaves s m = false.

Lemma size_split s : size s = ncur s + nold s.
Proof.
  unfold size, ncur, nold, cur_of, old_of. rewrite !length_filter_count.
  rewrite <- (count_all (λ _, true) (members s)) by done.
  rewrite (count_split _ (is_rev (rv_Rev (want_of (sc_rec s))))).
  f_equal; apply count_ext; intros x _; apply andb_true_r.
Qed.

Lemma hcur_le s : 0 ≤ hcur s ≤ ncur s.
Proof. split; [apply count_nonneg|apply count_le]. Qed.

Lemma existsb_stay s : existsb (leaves s) (members s) = false ↔ all_stay s.
Proof.
  unfold all_stay. rewrite <- not_true_iff_false, existsb_exists. split.
  - intros Hno m Hm. destruct (leaves s m) eqn:E; [|done]. exfalso. apply Hno.
    exists m. by rewrite <- list_elem_of_In.
  - intros Hall (m & Hm & E). rewrite (Hall m) in E; [done|]. by apply list_elem_of_In.
Qed.

(** Nothing to do. *)
Definition settled (active : bool) (now : Z) (s : service) : Prop :=
  sc_gone s = true ∨
  (all_stay s ∧ (nold s = 0 ∨ hcur s + nold s ≤ desired s) ∧ ncur s ≤ desired s ∧
   (sr_Target (sc_rec s) = None ∨ nold s ≠ 0 ∨ hcur s ≠ desired s) ∧
   (ncur s < desired s → sc_nextCreate s ≤ now → active = true → 0 < nold s ∧ hcur s < ncur s)).

Inductive decided (active : bool) (now : Z) (s : service) : option action * service → Prop :=
| D_settled : settled active now s → decided active now s (None, s)
| D_drop : sc_gone s = false → ¬ all_stay s →
    decided active now s (Some (drop_step now s).1, (drop_step now s).2)
| D_old m : sc_gone s = false → all_stay s → m ∈ old_of s →
    (healthy s m = true → ∀ x, x ∈ old_of s → healthy s x = true) → desired s < hcur s + nold s →
    decided active now s (Some (retire [rp_Sandbox m]), retireStep [rp_Sandbox m] now s)
| D_excess m : sc_gone s = false → all_stay s → nold s = 0 ∨ hcur s + nold s ≤ desired s → m ∈ cur_of s →
    (healthy s m = true → ∀ x, x ∈ cur_of s → healthy s x = true) → desired s < ncur s →
    decided active now s (Some (retire [rp_Sandbox m]), retireStep [rp_Sandbox m] now s)
| D_done t : sc_gone s = false → all_stay s → sr_Target (sc_rec s) = Some t → nold s = 0 →
    hcur s = desired s → ncur s ≤ desired s →
    decided active now s (Some recorded, rollout_done now s)
| D_create : sc_gone s = false → all_stay s → nold s = 0 ∨ hcur s + nold s ≤ desired s →
    ncur s < desired s → sc_nextCreate s ≤ now → active = true → nold s = 0 ∨ hcur s = ncur s →
    decided active now s (Some (createStep (want s) s).1, (createStep (want s) s).2).

Lemma decide_decided active now s : 0 ≤ desired s → decided active now s (decide active now s).
Proof.
  intros Hpos. unfold decide. fold (desired s) (want s) (ncur s) (nold s) (hcur s). cbv zeta.
  destruct (sc_gone s) eqn:Eg; [by apply D_settled; left|].
  destruct (existsb (leaves s) (members s)) eqn:El.
  { rewrite (surjective_pairing (drop_step now s)). apply D_drop; [done|].
    rewrite <- existsb_stay, El. done. }
  apply existsb_stay in El. pose proof (hcur_le s) as Hh. assert (0 ≤ nold s) as Hn by (unfold nold; lia).
  destruct ((nold s >? 0) && (hcur s + nold s >? desired s)) eqn:Eo.
  { destruct (pickRetire s (old_of s) false) as [id|] eqn:Ep.
    - apply pickRetire_spec in Ep as (m & Hm & <- & Hall). apply D_old; try done. lia.
    - exfalso. unfold nold in Eo. destruct (old_of s); [cbn in Eo; lia|done]. }
  assert (nold s = 0 ∨ hcur s + nold s ≤ desired s) as Ho by lia. clear Eo.
  destruct (ncur s >? desired s) eqn:Ec.
  { destruct (pickRetire s (cur_of s) true) as [id|] eqn:Ep.
    - apply pickRetire_spec in Ep as (m & Hm & <- & Hall). apply D_excess; try done. lia.
    - exfalso. unfold ncur in Ec. destruct (cur_of s); [cbn in Ec; lia|done]. }
  destruct (bool_decide _ && _ && _) eqn:Ed.
  { rewrite !andb_true_iff, bool_decide_eq_true in Ed. destruct Ed as [[[t Ht] ?] ?].
    apply (D_done _ _ _ t); try done; lia. }
  assert (sr_Target (sc_rec s) = None ∨ nold s ≠ 0 ∨ hcur s ≠ desired s) as Hd.
  { rewrite !andb_false_iff, bool_decide_eq_false in Ed. destruct Ed as [[Ht| ]|]; [|lia|lia].
    left. destruct (sr_Target (sc_rec s)); [|done]. exfalso. apply Ht. by eexists. }
  assert (ncur s ≤ desired s) as Hc by lia.
  destruct ((ncur s <? desired s) && negb (now <? sc_nextCreate s) && active) eqn:Ecr.
  - destruct ((nold s >? 0) && (ncur s - hcur s >? 0)) eqn:Es.
    + apply D_settled. right. split_and!; try done. lia.
    + rewrite (surjective_pairing (createStep (want s) s)). apply D_create; try done; lia.
  - apply D_settled. right. split_and!; try done. intros ? ? ->. lia.
Qed.

(** ** A step never takes the service below its count *)

(** A replica that serves: its last check passed, and it is not one that
    leaves. *)
Definition serving (s : service) (m : replicaRecord) : bool := healthy s m && negb (leaves s m).

Lemma cur_old_members s m : m ∈ members s ↔ m ∈ cur_of s ∨ m ∈ old_of s.
Proof.
  unfold cur_of, old_of. rewrite !elem_of_bfilter. destruct (is_rev _ m); cbn; naive_solver.
Qed.

Lemma count_cur_old f s : count f (members s) = count f (cur_of s) + count f (old_of s).
Proof. unfold cur_of, old_of. rewrite !count_filter. apply count_split. Qed.

(** Retiring one: what is left of a count. *)
Lemma count_retire f now s m :
  NoDup (ids (members s)) → m ∈ members s →
  count f (members (retireStep [rp_Sandbox m] now s)) = count f (members s) - (if f m then 1 else 0).
Proof. intros Hnd Hm. rewrite members_retireStep. by apply remove_member_count. Qed.

Lemma serving_stay s : all_stay s → count (serving s) (members s) = count (healthy s) (members s).
Proof.
  intros Hs. apply count_ext. intros m Hm. unfold serving. rewrite (Hs m Hm). apply andb_true_r.
Qed.

(** C17. No step of the controller, in a rollout or out of one, takes away a
    serving replica while that leaves fewer serving than the service asks for:
    a replica that leaves is failed, lost, not serving, or one too many. *)
Theorem decide_keeps_serving active now s :
  0 ≤ desired s → NoDup (ids (members s)) →
  Z.min (desired s) (count (serving s) (members s)) ≤ count (serving s) (members (decide active now s).2).
Proof.
  intros Hpos Hnd.
  destruct (decide_decided active now s Hpos)
    as [Hset|Hg Hno|m Hg Hs Hm Hall Hlt|m Hg Hs Ho Hm Hall Hlt|t Hg Hs Ht Hn Hh Hc|Hg Hs Ho Hc Hnow Hac Hst];
    cbn [snd].
  - lia.
  - rewrite members_drop_step by done. rewrite count_filter. etransitivity; [apply Z.le_min_r|].
    apply Z.eq_le_incl, count_ext. intros m _. unfold serving. by destruct (leaves s m), (healthy s m).
  - rewrite count_retire by (try done; apply cur_old_members; by right). rewrite serving_stay by done.
    unfold serving. rewrite (Hs m) by (apply cur_old_members; by right). rewrite andb_true_r.
    destruct (healthy s m) eqn:Eh; [|lia]. specialize (Hall eq_refl).
    rewrite count_cur_old, (count_all _ (old_of s)) by done. unfold hcur, nold in Hlt. lia.
  - rewrite count_retire by (try done; apply cur_old_members; by left). rewrite serving_stay by done.
    unfold serving. rewrite (Hs m) by (apply cur_old_members; by left). rewrite andb_true_r.
    destruct (healthy s m) eqn:Eh; [|lia]. specialize (Hall eq_refl).
    rewrite count_cur_old, (count_all _ (cur_of s)) by done.
    pose proof (count_nonneg (healthy s) (old_of s)). unfold ncur in Hlt. lia.
  - assert (members (rollout_done now s) = members s) as ->; [|lia].
    unfold rollout_done, members. rewrite Ht. cbn. by destruct (sc_rec s).
  - assert (members (createStep (want s) s).2 = members s) as ->; [|lia].
    unfold createStep. by destruct (sc_pending s).
Qed.

(** ** Well-formed services *)
Definition revs (r : serviceRecord) : list revision :=
  sr_Serving r :: option_list (sr_Target r) ++ sr_Older r.

(** Every replica is of a revision the record still holds, with its spec. *)
Definition known (r : serviceRecord) : Prop :=
  ∀ m, m ∈ sr_Members r → ∃ o, o ∈ revs r ∧ rv_Rev o = rp_Rev m.

Record wf (s : service) : Prop := {
  wf_replicas : 0 ≤ desired s ≤ MaxServiceReplicas;
  wf_size : size s ≤ MaxServiceReplicas + 1;
  wf_ids : NoDup (ids (members s));
  wf_revs : NoDup (rv_Rev <$> revs (sc_rec s));
  wf_bounds : ∀ o, o ∈ revs (sc_rec s) → 1 ≤ rv_Rev o ≤ sr_Revision (sc_rec s);
  wf_known : known (sc_rec s);
  wf_failures : ∀ o, o ∈ revs (sc_rec s) → 1 ≤ failures_allowed (rv_Spec o)
}.

Lemma specOf_known r o :
  NoDup (rv_Rev <$> revs r) → o ∈ revs r → specOf r (rv_Rev o) = rv_Spec o.
Proof.
  unfold revs, specOf. rewrite fmap_cons. intros [Hs Hnd]%NoDup_cons Ho.
  destruct (List.find _ _) as [o'|] eqn:Ef.
  - apply find_some in Ef as [Hi He]. apply list_elem_of_In in Hi. apply Z.eqb_eq in He.
    apply elem_of_cons in Ho as [->|Ho].
    + exfalso. apply Hs. rewrite <- He. apply list_elem_of_fmap. eauto.
    + f_equal. apply list_elem_of_lookup in Hi as [i Hi]. apply list_elem_of_lookup in Ho as [j Ho].
      assert (i = j) as ->; [|congruence].
      eapply (NoDup_lookup _ _ _ (rv_Rev o) Hnd); rewrite list_lookup_fmap; [rewrite Hi|rewrite Ho]; cbn; congruence.
  - apply elem_of_cons in Ho as [->|Ho]; [done|].
    pose proof (find_none _ _ Ef o (proj1 (list_elem_of_In _ _) Ho)) as Hno. cbv beta in Hno. lia.
Qed.

(** What a record keeps through a change that only lets revisions go. *)
Record shrinks (r r' : serviceRecord) : Prop := {
  sh_revs : revs r' ⊆+ revs r;
  sh_revision : sr_Revision r' = sr_Revision r;
  sh_spec : sr_Spec r' = sr_Spec r;
  sh_known : known r'
}.

Lemma submseteq_nodup {A B} (f : A → B) (l k : list A) : l ⊆+ k → NoDup (f <$> k) → NoDup (f <$> l).
Proof.
  intros Hs Hnd. assert (f <$> l ⊆+ f <$> k) as [l' Hp]%submseteq_Permutation by (by apply fmap_submseteq).
  rewrite Hp in Hnd. by apply NoDup_app in Hnd as [? _].
Qed.

Lemma wf_shrinks s s' :
  wf s → shrinks (sc_rec s) (sc_rec s') → size s' ≤ MaxServiceReplicas + 1 → NoDup (ids (members s')) → wf s'.
Proof.
  intros [Hd _ _ Hr Hb _ Hf] [Hsub Hrev Hsp Hk] Hsz Hids. split; try done.
  - unfold desired. by rewrite Hsp.
  - by eapply submseteq_nodup.
  - rewrite Hrev. intros o Ho. apply Hb. by eapply elem_of_submseteq.
  - intros o Ho. apply Hf. by eapply elem_of_submseteq.
Qed.

Lemma shrinks_specOf s r' m :
  wf s → shrinks (sc_rec s) r' → m ∈ sr_Members r' → specOf r' (rp_Rev m) = specOf (sc_rec s) (rp_Rev m).
Proof.
  intros Hwf [Hsub _ _ Hk] Hm. destruct (Hk m Hm) as (o & Ho & <-).
  rewrite !specOf_known; [done|by apply wf_revs|by eapply elem_of_submseteq| |done].
  eapply submseteq_nodup; [done|by apply wf_revs].
Qed.

Lemma shrinks_leaves s s' m :
  wf s → shrinks (sc_rec s) (sc_rec s') → m ∈ members s' → h s' (rp_Sandbox m) = h s (rp_Sandbox m) →
  leaves s' m = leaves s m.
Proof. intros Hwf Hsh Hm Hh. unfold leaves, failed. by rewrite Hh, (shrinks_specOf s). Qed.

Lemma revs_pruneOlder r : revs (pruneOlder r) ⊆+ revs r.
Proof.
  destruct r. unfold revs, pruneOlder. cbn. apply submseteq_skip, submseteq_app; [done|].
  apply sublist_submseteq, bfilter_sublist.
Qed.

Lemma known_pruneOlder r : known r → known (pruneOlder r).
Proof.
  intros Hk m Hm. assert (sr_Members (pruneOlder r) = sr_Members r) as E by (by destruct r).
  rewrite E in Hm. destruct (Hk m Hm) as (o & Ho & He). exists o. split; [|done]. revert Ho.
  destruct r as [? ? ? ? ? se ta ol ? ms]. unfold revs, pruneOlder. cbn in *.
  rewrite !elem_of_cons, !elem_of_app, elem_of_bfilter. intros [->|[Ho|Ho]]; [by left|by right; left|].
  right; right. split; [done|]. apply existsb_exists. exists m.
  rewrite <- list_elem_of_In, Z.eqb_eq. done.
Qed.

Lemma shrinks_prune r r' : shrinks r r' → shrinks r (pruneOlder r').
Proof.
  intros [Hsub Hrev Hsp Hk]. split; [|by destruct r'|by destruct r'|by apply known_pruneOlder].
  etransitivity; [apply revs_pruneOlder|done].
Qed.

Lemma shrinks_updated now r r' : shrinks r r' → shrinks r (set_updated now r').
Proof. intros [? ? ? ?]. destruct r'. by split. Qed.

Lemma shrinks_refl r : known r → shrinks r r.
Proof. by split. Qed.

Lemma shrinks_members r r' ms :
  shrinks r r' → (∀ m, m ∈ ms → ∃ o, o ∈ revs r' ∧ rv_Rev o = rp_Rev m) → shrinks r (set_members ms r').
Proof. intros [Hsub Hrev Hsp Hk] Hms. destruct r'. by split. Qed.

(** ** Each step, on a well-formed service *)
Lemma retireStep_rec rids now s :
  sc_rec (retireStep rids now s) =
  pruneOlder (set_updated now (set_members (foldl (λ ms id, remove_member id ms) (members s) rids) (sc_rec s))).
Proof.
  unfold retireStep. cbn [on_record sc_rec]. do 2 f_equal. revert s.
  induction rids as [|id rids IH]; intros s; cbn [foldl]; [by destruct s as [[]]|].
  rewrite IH. cbn. unfold members. cbn. rewrite members_set. by destruct (sc_rec s).
Qed.

Lemma retireStep_health rids now s id : id ∉ rids → h (retireStep rids now s) id = h s id.
Proof.
  unfold retireStep. cbn [on_record]. intros Hno. unfold h. cbn. f_equal. revert s Hno.
  induction rids as [|x rids IH]; intros s Hno; [done|]. cbn [foldl]. apply not_elem_of_cons in Hno as [Hx Hno].
  rewrite IH by done. cbn. by rewrite lookup_delete_ne.
Qed.

Lemma retireStep_next rids now s : sc_nextCreate (retireStep rids now s) = sc_nextCreate s.
Proof.
  unfold retireStep. cbn [on_record sc_nextCreate]. revert s.
  induction rids as [|x rids IH]; intros s; [done|]. cbn [foldl]. by rewrite IH.
Qed.

Lemma shrinks_retire rids now s r :
  shrinks r (sc_rec s) → shrinks r (sc_rec (retireStep rids now s)).
Proof.
  intros Hsh. rewrite retireStep_rec. apply shrinks_prune, shrinks_updated, shrinks_members; [done|].
  intros m Hm. apply (sh_known _ _ Hsh). revert Hm. fold (members s). generalize (members s).
  induction rids as [|id rids IH]; intros ms; cbn [foldl]; [done|]. intros Hm%IH.
  eapply elem_of_submseteq; [done|]. by apply sublist_submseteq, remove_member_sublist.
Qed.

Lemma set_restarts_same n r :
  sr_Members (set_restarts n r) = sr_Members r ∧ sr_Target (set_restarts n r) = sr_Target r ∧
  (known r → shrinks r (set_restarts n r)).
Proof. destruct r. split_and!; [done..|]. by split. Qed.

Lemma shrinks_trans r1 r2 r3 : shrinks r1 r2 → shrinks r2 r3 → shrinks r1 r3.
Proof. intros [? ? ? ?] [? ? ? ?]. split; [by etransitivity|congruence..|done]. Qed.

Lemma drops_same now ms s :
  sc_health (foldl (drop_one now) s ms) = sc_health s ∧
  sc_gone (foldl (drop_one now) s ms) = sc_gone s ∧
  ∃ n, sc_rec (foldl (drop_one now) s ms) = set_restarts n (sc_rec s).
Proof.
  revert s. induction ms as [|m ms IH]; intros s; cbn [foldl].
  { split_and!; [done..|]. exists (sr_Restarts (sc_rec s)). by destruct s as [[]]. }
  destruct (IH (drop_one now s m)) as (-> & -> & n & ->). unfold drop_one.
  destruct (hl_lost _); cbn; split_and!; try done; [by exists n|].
  exists n. by destruct (sc_rec s).
Qed.

Lemma failRollout_same now s :
  sc_health (failRollout now s) = sc_health s ∧ sc_gone (failRollout now s) = sc_gone s ∧
  sc_pending (failRollout now s) = sc_pending s ∧ sr_Target (sc_rec (failRollout now s)) = None.
Proof. unfold failRollout. destruct (sr_Target (sc_rec s)) eqn:E; cbn; [|done]. by destruct (sc_rec s). Qed.

Lemma shrinks_failRollout now s r : shrinks r (sc_rec s) → shrinks r (sc_rec (failRollout now s)).
Proof.
  unfold failRollout. destruct (sr_Target (sc_rec s)) as [t|] eqn:E; [|done]. cbn.
  intros [Hsub Hrev Hsp Hk]. destruct (sc_rec s) as [nm us te sp re se ta ol ro ms rs cr up].
  cbn in *. subst ta. unfold known, revs in *. cbn in *.
  assert (se :: ol ++ [t] ≡ₚ se :: t :: ol) as Hp by (by rewrite Permutation_app_comm).
  split; unfold known, revs; cbn; try done.
  - by rewrite Hp.
  - intros m Hm. destruct (Hk m Hm) as (o & Ho & He). exists o. split; [|done]. by rewrite Hp.
Qed.

Lemma rollout_done_fields now s t :
  sr_Target (sc_rec s) = Some t →
  members (rollout_done now s) = members s ∧ sc_health (rollout_done now s) = sc_health s ∧
  sc_nextCreate (rollout_done now s) = sc_nextCreate s ∧ sc_gone (rollout_done now s) = sc_gone s ∧
  sr_Target (sc_rec (rollout_done now s)) = None ∧ sr_Serving (sc_rec (rollout_done now s)) = t.
Proof. intros Ht. unfold rollout_done, members. rewrite Ht. cbn. by destruct (sc_rec s). Qed.

Lemma nold_zero s : nold s = 0 → ∀ m, m ∈ members s → rp_Rev m = rv_Rev (want s).
Proof.
  unfold nold, old_of. intros Hn m Hm. destruct (is_rev (rv_Rev (want_of (sc_rec s))) m) eqn:E; [by apply Z.eqb_eq in E|].
  assert (m ∈ List.filter (λ m, negb (is_rev (rv_Rev (want_of (sc_rec s))) m)) (members s)) as Hin
    by (apply elem_of_bfilter; by rewrite E).
  destruct (List.filter _ _); [by apply not_elem_of_nil in Hin|cbn in Hn; lia].
Qed.

Lemma shrinks_rollout_done now s t :
  sr_Target (sc_rec s) = Some t → nold s = 0 → known (sc_rec s) → shrinks (sc_rec s) (sc_rec (rollout_done now s)).
Proof.
  intros Ht Hn Hk. pose proof (nold_zero s Hn) as Hall. unfold rollout_done. rewrite Ht. cbn.
  unfold want, want_of, members in Hall. rewrite Ht in Hall. cbn in Hall.
  apply shrinks_prune, shrinks_updated. destruct (sc_rec s) as [nm us te sp re se ta ol ro ms rs cr up].
  cbn in *. subst ta. split; unfold revs, known; cbn; try done.
  - apply (submseteq_cons se). done.
  - intros m Hm. exists t. split; [left|]. by rewrite (Hall m Hm).
Qed.

Lemma drop_step_snd now s :
  ∃ s1 out, (drop_step now s).2 = retireStep out now s1 ∧ out = ids (List.filter (leaves s) (members s)) ∧
    sc_health s1 = sc_health s ∧ sc_gone s1 = sc_gone s ∧ (known (sc_rec s) → shrinks (sc_rec s) (sc_rec s1)) ∧
    (sr_Target (sc_rec s1) = sr_Target (sc_rec s) ∨ sr_Target (sc_rec s1) = None).
Proof.
  unfold drop_step. cbn [snd].
  set (out := List.filter (leaves s) (members s)).
  set (b := match sr_Target (sc_rec s) with None => false | Some t => _ end).
  set (s0 := on_record (set_members (List.filter (λ m, negb (leaves s m)) (members s)))
               (foldl (drop_one now) s out)).
  destruct (drops_same now out s) as (Hh & Hg & n & Hr).
  assert (sc_health s0 = sc_health s ∧ sc_gone s0 = sc_gone s ∧
    (known (sc_rec s) → shrinks (sc_rec s) (sc_rec s0)) ∧ sr_Target (sc_rec s0) = sr_Target (sc_rec s))
    as (Hh0 & Hg0 & Hs0 & Ht0).
  { unfold s0. cbn. rewrite Hr. destruct (set_restarts_same n (sc_rec s)) as (Hm & Ht & Hsh).
    split_and!; [done|done| |].
    - intros Hk. apply shrinks_members; [by apply Hsh|].
      intros m [Hin _]%elem_of_bfilter. apply (sh_known _ _ (Hsh Hk)). by rewrite Hm.
    - rewrite <- Ht. by destruct (set_restarts n (sc_rec s)). }
  destruct (failRollout_same now s0) as (Hfh & Hfg & _ & Hft).
  exists (if b then failRollout now s0 else s0), (ids out). split; [done|]. split; [done|].
  destruct b; split_and!; try congruence; auto.
  intros Hk. by apply shrinks_failRollout, Hs0.
Qed.

Lemma decide_shrinks active now s : wf s → shrinks (sc_rec s) (sc_rec (decide active now s).2).
Proof.
  intros Hwf. pose proof (wf_known _ Hwf) as Hk. pose proof (shrinks_refl _ Hk) as Hrefl.
  destruct (decide_decided active now s (proj1 (wf_replicas _ Hwf)))
    as [Hset|Hg Hno|m Hg Hs Hm Hall Hlt|m Hg Hs Ho Hm Hall Hlt|t Hg Hs Ht Hn Hh Hc|Hg Hs Ho Hc Hnow Hac Hst];
    cbn [snd]; [done| |by apply shrinks_retire..|by eapply shrinks_rollout_done|].
  - destruct (drop_step_snd now s) as (s1 & out & -> & _ & _ & _ & Hsh & _). by apply shrinks_retire, Hsh.
  - unfold createStep. by destruct (sc_pending s).
Qed.

Lemma decide_members active now s :
  wf s → members (decide active now s).2 `sublist_of` members s.
Proof.
  intros Hwf. pose proof (wf_ids _ Hwf) as Hnd.
  destruct (decide_decided active now s (proj1 (wf_replicas _ Hwf)))
    as [Hset|Hg Hno|m Hg Hs Hm Hall Hlt|m Hg Hs Ho Hm Hall Hlt|t Hg Hs Ht Hn Hh Hc|Hg Hs Ho Hc Hnow Hac Hst];
    cbn [snd]; [done| |rewrite members_retireStep; apply remove_member_sublist..| |].
  - rewrite members_drop_step by done. apply bfilter_sublist.
  - by destruct (rollout_done_fields now s t Ht) as (-> & _).
  - unfold createStep. by destruct (sc_pending s).
Qed.

Lemma decide_wf active now s : wf s → wf (decide active now s).2.
Proof.
  intros Hwf. pose proof (decide_members active now s Hwf) as Hm.
  apply (wf_shrinks s); [done|by apply decide_shrinks| |].
  - pose proof (wf_size _ Hwf). pose proof (sublist_length _ _ Hm). unfold size in *. lia.
  - eapply sublist_NoDup; [apply wf_ids, Hwf|]. by apply fmap_sublist.
Qed.

(** What is left of the replicas is as it was. *)
Lemma decide_health active now s m :
  wf s → m ∈ members (decide active now s).2 →
  h (decide active now s).2 (rp_Sandbox m) = h s (rp_Sandbox m).
Proof.
  intros Hwf. pose proof (wf_ids _ Hwf) as Hnd.
  destruct (decide_decided active now s (proj1 (wf_replicas _ Hwf)))
    as [Hset|Hg Hno|x Hg Hs Hx Hall Hlt|x Hg Hs Ho Hx Hall Hlt|t Hg Hs Ht Hn Hh Hc|Hg Hs Ho Hc Hnow Hac Hst];
    cbn [snd]; [done| | | | |].
  - rewrite members_drop_step by done. intros [Hm Hl]%elem_of_bfilter.
    destruct (drop_step_snd now s) as (s1 & out & -> & -> & Hh & _). rewrite retireStep_health.
    { unfold h. by rewrite Hh. }
    intros (m' & E & [Hm' Hl']%elem_of_bfilter)%list_elem_of_fmap.
    rewrite (ids_inj _ m m' Hnd Hm Hm' E) in Hl. by rewrite Hl' in Hl.
  - intros Hm. apply retireStep_health. rewrite list_elem_of_singleton. intros E.
    rewrite members_retireStep in Hm. cbn [foldl] in Hm. by eapply remove_member_not_in.
  - intros Hm. apply retireStep_health. rewrite list_elem_of_singleton. intros E.
    rewrite members_retireStep in Hm. cbn [foldl] in Hm. by eapply remove_member_not_in.
  - intros _. destruct (rollout_done_fields now s t Ht) as (_ & E & _). unfold h. by rewrite E.
  - intros _. unfold createStep, h. by destruct (sc_pending s).
Qed.

Lemma decide_leaves active now s m :
  wf s → m ∈ members (decide active now s).2 → leaves (decide active now s).2 m = leaves s m.
Proof.
  intros Hwf Hm. apply shrinks_leaves; [done|by apply decide_shrinks|done|by apply decide_health].
Qed.

(** ** What a create leaves *)
Lemma createStep_spec rev s :
  ∃ n, (createStep rev s).1 = create rev n (spread_of (sc_rec s)) ∧
    sc_rec (createStep rev s).2 = sc_rec s ∧ sc_health (createStep rev s).2 = sc_health s ∧
    sc_nextCreate (createStep rev s).2 = sc_nextCreate s ∧ sc_gone (createStep rev s).2 = sc_gone s.
Proof. unfold createStep. destruct (sc_pending s); eexists; by split_and!. Qed.

Lemma want_in_revs r : want_of r ∈ revs r.
Proof. unfold want_of, revs. destruct (sr_Target r); cbn; [right; left|left]. Qed.

Lemma members_create_recorded m now s : members (create_recorded m now s) = members s ++ [m].
Proof. unfold create_recorded, members. cbn. by destruct (sc_rec s). Qed.

Lemma shrinks_create_recorded m now s :
  known (sc_rec s) → (∃ o, o ∈ revs (sc_rec s) ∧ rv_Rev o = rp_Rev m) →
  shrinks (sc_rec s) (sc_rec (create_recorded m now s)).
Proof.
  intros Hk Hm. unfold create_recorded. cbn. apply shrinks_prune, shrinks_updated, shrinks_members.
  - by apply shrinks_refl.
  - intros x [Hx| ->%list_elem_of_singleton]%elem_of_app; [by apply Hk|done].
Qed.

Lemma create_failed_same now rev n refused s :
  let s' := (create_failed now rev n refused s).1 in
  members s' = members s ∧ sc_health s' = sc_health s ∧ sc_gone s' = sc_gone s ∧
  (known (sc_rec s) → shrinks (sc_rec s) (sc_rec s')) ∧
  (sr_Target (sc_rec s') = None ∧ is_Some (sr_Target (sc_rec s)) ∨
   sc_rec s' = sc_rec s ∧ now + second ≤ sc_nextCreate s').
Proof.
  unfold create_failed, createFailed. cbn [on_pending on_crashes sc_rec].
  set (c := int_add _ 1). set (s1 := on_crashes c _ (on_pending (n :: sc_pending s) s)).
  assert (sr_Target (sc_rec s) = sr_Target (sc_rec s1)) as Et by done. rewrite Et.
  assert (now + second ≤ sc_nextCreate s1) by (cbn; lia).
  destruct (sr_Target (sc_rec s1)) as [t|] eqn:E1.
  - destruct (_ && refused); cbn [fst];
      [|repeat split; try done; by right].
    destruct (failRollout_same now s1) as (Hh & Hg & _ & Ht). split_and!.
    + transitivity (members (failRollout now s1)); [|exact (members_failRollout now s1)].
      unfold members. cbn. by destruct (sc_rec (failRollout now s1)).
    + done.
    + done.
    + intros Hk. cbn. apply shrinks_prune, shrinks_failRollout. by apply shrinks_refl.
    + left. split; [|by eexists]. cbn. rewrite <- Ht. by destruct (sc_rec (failRollout now s1)).
  - repeat split; try done. by right.
Qed.

(** The answer's sandbox is one never seen. *)
Definition fresh_answer (a : replica_answer) (s : service) : Prop :=
  match a with
  | made id _ _ => (id ∉ ids (members s)) ∧ sc_health s !! id = None
  | _ => True
  end.

Lemma act_shrinks rev n sp mo s :
  known (sc_rec s) → rev ∈ revs (sc_rec s) → shrinks (sc_rec s) (sc_rec (act (create rev n sp) mo s)).
Proof.
  intros Hk Hr. cbn [act]. destruct (mo_answer mo); [|by apply create_failed_same..].
  apply shrinks_create_recorded; [done|by exists rev].
Qed.

Lemma act_wf rev n sp mo s :
  wf s → rev ∈ revs (sc_rec s) → size s ≤ MaxServiceReplicas → fresh_answer (mo_answer mo) s →
  wf (act (create rev n sp) mo s).
Proof.
  intros Hwf Hr Hsz Hf. apply (wf_shrinks s); [done|by apply act_shrinks; [apply wf_known|]| |];
    cbn [act]; destruct (mo_answer mo) as [id node pid|st tr|id]; unfold size;
    rewrite ?members_create_recorded, ?(proj1 (create_failed_same _ _ _ _ _)).
  - rewrite length_app. unfold size in Hsz. cbn. lia.
  - unfold size in Hsz. lia.
  - unfold size in Hsz. lia.
  - unfold ids. rewrite fmap_app. apply NoDup_app. split_and!; [apply Hwf| |apply NoDup_singleton].
    intros x Hx ->%list_elem_of_singleton. by apply (proj1 Hf).
  - apply Hwf.
  - apply Hwf.
Qed.

(** A create begins with room for its replica. *)
Lemma create_room s :
  wf s → nold s = 0 ∨ hcur s + nold s ≤ desired s → ncur s < desired s → nold s = 0 ∨ hcur s = ncur s →
  size s ≤ MaxServiceReplicas ∧ (nold s = 0 ∨ size s ≤ desired s).
Proof. intros Hwf Ho Hc Hst. pose proof (size_split s). pose proof (wf_replicas _ Hwf). lia. Qed.

(** ** A pass ends by having nothing to do *)
Section measure.
Context (t0 : Z).

Definition missing (s : service) : Z :=
  Z.max 0 (size s - desired s) + 2 * Z.max 0 (desired s - ncur s).
Definition may_create (s : service) : Z := if sc_nextCreate s <? t0 + second then 1 else 0.
Definition work (s : service) : Z :=
  (if existsb (leaves s) (members s) then 203 else missing s + may_create s) +
  match sr_Target (sc_rec s) with Some _ => 202 | None => 0 end.

Lemma missing_bound s : wf s → 0 ≤ missing s ≤ 201.
Proof.
  intros Hwf. unfold missing. pose proof (wf_replicas _ Hwf). pose proof (wf_size _ Hwf).
  unfold MaxServiceReplicas in *. pose proof (size_split s). pose proof (hcur_le s). lia.
Qed.

Lemma work_bound s : wf s → 0 ≤ work s ≤ 405.
Proof.
  intros Hwf. unfold work, may_create. pose proof (missing_bound s Hwf).
  destruct (existsb _ _), (sr_Target (sc_rec s)), (sc_nextCreate s <? t0 + second); lia.
Qed.

Lemma work_stays s : all_stay s →
  work s = missing s + may_create s + match sr_Target (sc_rec s) with Some _ => 202 | None => 0 end.
Proof. intros Hs%existsb_stay. unfold work. by rewrite Hs. Qed.
Lemma may_create_range s : 0 ≤ may_create s ≤ 1.
Proof. unfold may_create. destruct (_ <? _); lia. Qed.

Lemma stays_after active now s :
  wf s → all_stay s → all_stay (decide active now s).2.
Proof.
  intros Hwf Hs m Hm. rewrite decide_leaves by done. apply Hs.
  eapply elem_of_submseteq; [done|]. by apply sublist_submseteq, decide_members.
Qed.

Lemma retire_counts now s m :
  NoDup (ids (members s)) → m ∈ members s →
  size (retireStep [rp_Sandbox m] now s) = size s - 1 ∧
  ncur (retireStep [rp_Sandbox m] now s) = ncur s - (if is_rev (rv_Rev (want s)) m then 1 else 0) ∧
  hcur (retireStep [rp_Sandbox m] now s) =
    hcur s - (if is_rev (rv_Rev (want s)) m && healthy s m then 1 else 0) ∧
  desired (retireStep [rp_Sandbox m] now s) = desired s ∧
  want (retireStep [rp_Sandbox m] now s) = want s ∧
  sr_Target (sc_rec (retireStep [rp_Sandbox m] now s)) = sr_Target (sc_rec s).
Proof.
  intros Hnd Hm.
  assert (want (retireStep [rp_Sandbox m] now s) = want s ∧
    desired (retireStep [rp_Sandbox m] now s) = desired s ∧
    sr_Target (sc_rec (retireStep [rp_Sandbox m] now s)) = sr_Target (sc_rec s)) as (Hw & Hd & Ht).
  { unfold want, desired, want_of. rewrite retireStep_rec. by destruct (sc_rec s). }
  assert (∀ f, count f (members (retireStep [rp_Sandbox m] now s)) = count f (members s) - (if f m then 1 else 0)) as Hc
    by (intros f; by apply count_retire).
  split_and!; try done.
  - unfold size. rewrite <- !(count_all (λ _, true)) by done. apply Hc.
  - unfold ncur, cur_of. rewrite !length_filter_count. fold (want (retireStep [rp_Sandbox m] now s)).
    rewrite Hw. apply Hc.
  - unfold hcur, cur_of. rewrite !count_filter. fold (want (retireStep [rp_Sandbox m] now s)). rewrite Hw.
    fold (want s). rewrite <- (Hc (λ x, is_rev (rv_Rev (want s)) x && healthy s x)).
    apply count_ext. intros x Hx. f_equal. unfold healthy. rewrite retireStep_health; [done|].
    rewrite list_elem_of_singleton. rewrite members_retireStep in Hx.
    intros E. by eapply remove_member_not_in.
Qed.

Lemma rollout_done_counts now s t :
  sr_Target (sc_rec s) = Some t →
  size (rollout_done now s) = size s ∧ ncur (rollout_done now s) = ncur s ∧
  hcur (rollout_done now s) = hcur s ∧ desired (rollout_done now s) = desired s ∧
  want (rollout_done now s) = want s ∧ sr_Target (sc_rec (rollout_done now s)) = None.
Proof.
  intros Ht. destruct (rollout_done_fields now s t Ht) as (Hm & Hh & _ & _ & Htn & Hsv).
  assert (want (rollout_done now s) = want s) as Hw by (unfold want, want_of; by rewrite Htn, Hsv, Ht).
  unfold size, ncur, hcur, cur_of. fold (want (rollout_done now s)) (want s). rewrite Hw, Hm.
  split_and!; try done.
  - apply count_ext. intros x _. unfold healthy, h. by rewrite Hh.
  - unfold desired, rollout_done. rewrite Ht. cbn. by destruct (sc_rec s).
Qed.

(** Every step of a pass but the last leaves less to do. *)
Lemma decide_work active now s a s' :
  wf s → t0 ≤ now < t0 + second → decide active now s = (Some a, s') →
  match a with
  | create rev _ _ => s' = (createStep (want s) s).2 ∧ rev = want s ∧ all_stay s ∧ may_create s = 1 ∧
      ncur s < desired s ∧ (nold s = 0 ∨ size s ≤ desired s) ∧ size s ≤ MaxServiceReplicas
  | _ => work s' < work s
  end.
Proof.
  intros Hwf Hnow Hdec.
  pose proof (decide_wf active now s Hwf) as Hwf'. pose proof (stays_after active now s Hwf) as Hst'.
  pose proof (λ m, decide_leaves active now s m Hwf) as Hlv.
  assert (s' = (decide active now s).2) as -> by (by rewrite Hdec).
  assert (Some a = (decide active now s).1) as Ha by (by rewrite Hdec). clear Hdec. revert Ha Hwf' Hst' Hlv.
  pose proof (wf_ids _ Hwf) as Hnd. pose proof (size_split s) as Hsz. pose proof (hcur_le s) as Hh.
  pose proof (missing_bound s Hwf) as Hmb. pose proof (may_create_range s) as Hmc.
  assert (0 ≤ nold s) as Hno0 by (unfold nold; lia).
  destruct (decide_decided active now s (proj1 (wf_replicas _ Hwf)))
    as [Hset|Hg Hno|m Hg Hs Hm Hall Hlt|m Hg Hs Ho Hm Hall Hlt|t Hg Hs Ht Hn Hhc Hc|Hg Hs Ho Hc Hnx Hac Hst];
    cbn [fst snd]; intros [= ->] Hwf' Hst' Hlv.
  - cbn [drop_step fst].
    assert (all_stay (drop_step now s).2) as Hs'.
    { intros m Hm. rewrite Hlv by done. rewrite members_drop_step in Hm by done.
      apply elem_of_bfilter in Hm as [_ Hm]. by apply negb_true_iff in Hm. }
    rewrite (work_stays _ Hs'). pose proof (missing_bound _ Hwf'). pose proof (may_create_range (drop_step now s).2).
    unfold work. destruct (existsb (leaves s) (members s)) eqn:El; [|by apply existsb_stay in El].
    destruct (drop_step_snd now s) as (s1 & out & E & _ & _ & _ & _ & Ht). rewrite E in *.
    assert (sr_Target (sc_rec (retireStep out now s1)) = sr_Target (sc_rec s1)) as ->
      by (rewrite retireStep_rec; by destruct (sc_rec s1)).
    destruct Ht as [-> | ->]; destruct (sr_Target (sc_rec s)); lia.
  - assert (m ∈ members s) as Hin by (apply cur_old_members; by right).
    rewrite !work_stays by auto. unfold missing, may_create.
    destruct (retire_counts now s m Hnd Hin) as (-> & -> & _ & -> & _ & ->). rewrite retireStep_next.
    unfold old_of in Hm. apply elem_of_bfilter in Hm as [_ Hm]. fold (want s) in Hm.
    apply negb_true_iff in Hm. rewrite Hm. lia.
  - assert (m ∈ members s) as Hin by (apply cur_old_members; by left).
    rewrite !work_stays by auto. unfold missing, may_create.
    destruct (retire_counts now s m Hnd Hin) as (-> & -> & _ & -> & _ & ->). rewrite retireStep_next.
    destruct (is_rev _ m); lia.
  - rewrite !work_stays by auto. unfold missing. pose proof (may_create_range (rollout_done now s)).
    destruct (rollout_done_counts now s t Ht) as (-> & -> & _ & -> & _ & ->). rewrite Ht. lia.
  - destruct (createStep_spec (want s) s) as (n & E & _). rewrite E in *.
    destruct (create_room s Hwf Ho Hc Hst) as [Hroom Hroom'].
    split_and!; try done. unfold may_create. destruct (Z.ltb_spec (sc_nextCreate s) (t0 + second)); lia.
Qed.

Lemma create_recorded_counts m now s :
  let s' := create_recorded m now s in
  size s' = size s + 1 ∧ desired s' = desired s ∧ want s' = want s ∧
  sr_Target (sc_rec s') = sr_Target (sc_rec s) ∧ sc_nextCreate s' = sc_nextCreate s ∧
  ncur s' = ncur s + (if is_rev (rv_Rev (want s)) m then 1 else 0) ∧
  hcur s' = hcur s + (if is_rev (rv_Rev (want s)) m && healthy s m then 1 else 0).
Proof.
  cbv zeta. assert (want (create_recorded m now s) = want s ∧ desired (create_recorded m now s) = desired s ∧
    sr_Target (sc_rec (create_recorded m now s)) = sr_Target (sc_rec s)) as (Hw & Hd & Ht).
  { unfold want, desired, want_of, create_recorded. cbn. by destruct (sc_rec s). }
  split_and!; try done.
  - unfold size. rewrite members_create_recorded, length_app. cbn. lia.
  - unfold ncur, cur_of. rewrite !length_filter_count. fold (want (create_recorded m now s)) (want s).
    rewrite Hw, members_create_recorded, count_app, count_cons, count_nil. destruct (is_rev _ m); lia.
  - unfold hcur, cur_of. rewrite !count_filter. fold (want (create_recorded m now s)) (want s).
    rewrite Hw, members_create_recorded, count_app, count_cons, count_nil. unfold healthy, h. cbn.
    destruct (is_rev _ m), (hl_healthy _); cbn; lia.
Qed.

(** A replica just made is not one that leaves. *)
Lemma new_stays s s' m :
  wf s' → members s' = members s ++ [m] → sc_health s' = sc_health s → sc_health s !! rp_Sandbox m = None →
  leaves s' m = false.
Proof.
  intros Hwf' Hm Hh Hf. unfold leaves, failed, h. rewrite Hh, Hf. cbn.
  destruct (wf_known _ Hwf' m) as (o & Ho & <-).
  { fold (members s'). rewrite Hm. apply elem_of_app. right. left. }
  rewrite specOf_known by (try apply Hwf'; done). pose proof (wf_failures _ Hwf' o Ho).
  destruct (Z.leb_spec (failures_allowed (rv_Spec o)) 0); [lia|done].
Qed.

Lemma act_stays rev n sp mo s :
  wf s → all_stay s → rev ∈ revs (sc_rec s) → size s ≤ MaxServiceReplicas → fresh_answer (mo_answer mo) s →
  all_stay (act (create rev n sp) mo s).
Proof.
  intros Hwf Hs Hr Hsz Hf. pose proof (act_wf rev n sp mo s Hwf Hr Hsz Hf) as Hwf'.
  pose proof (act_shrinks rev n sp mo s (wf_known _ Hwf) Hr) as Hsh. revert Hwf' Hsh. cbn [act].
  destruct (mo_answer mo) as [id node pid|st tr|id]; cbn [refusedNow]; intros Hwf' Hsh m Hm.
  - rewrite members_create_recorded in Hm. apply elem_of_app in Hm as [Hm|Hm%list_elem_of_singleton].
    + rewrite (shrinks_leaves s); [by apply Hs|done|done| |done].
      rewrite members_create_recorded. apply elem_of_app. by left.
    + subst m. apply (new_stays s); [done|apply members_create_recorded|done|]. apply Hf.
  - destruct (create_failed_same (mo_end mo) rev n (refusedNow (not_created st tr)) s) as (Em & Eh & _).
    cbn [refusedNow] in *. rewrite (shrinks_leaves s); [|done|done|done|unfold h; by rewrite Eh].
    apply Hs. by rewrite <- Em.
  - destruct (create_failed_same (mo_end mo) rev n true s) as (Em & Eh & _).
    rewrite (shrinks_leaves s); [|done|done|done|unfold h; by rewrite Eh]. apply Hs. by rewrite <- Em.
Qed.

Lemma act_work n sp mo s :
  wf s → all_stay s → may_create s = 1 → ncur s < desired s → nold s = 0 ∨ size s ≤ desired s →
  size s ≤ MaxServiceReplicas → fresh_answer (mo_answer mo) s → t0 ≤ mo_end mo →
  wf (act (create (want s) n sp) mo s) ∧ work (act (create (want s) n sp) mo s) < work s.
Proof.
  intros Hwf Hs Hmay Hc Hroom Hsz Hf Ht0. pose proof (want_in_revs (sc_rec s)) as Hr.
  fold (want s) in Hr.
  pose proof (act_wf _ n sp mo s Hwf Hr Hsz Hf) as Hwf'. split; [done|].
  rewrite (work_stays _ (act_stays _ n sp mo s Hwf Hs Hr Hsz Hf)), (work_stays s Hs).
  pose proof (missing_bound _ Hwf') as Hmb. pose proof (may_create_range (act (create (want s) n sp) mo s)) as Hmr.
  pose proof (missing_bound _ Hwf) as Hmb0.
  assert (∀ refused, let s' := (create_failed (mo_end mo) (want s) n refused s).1 in
    0 ≤ missing s' ≤ 201 → 0 ≤ may_create s' ≤ 1 →
    missing s' + may_create s' + match sr_Target (sc_rec s') with Some _ => 202 | None => 0 end <
    missing s + may_create s + match sr_Target (sc_rec s) with Some _ => 202 | None => 0 end) as Hfail.
  { intros refused. cbv zeta. intros Hm' Hr'.
    destruct (create_failed_same (mo_end mo) (want s) n refused s) as (Em & _ & _ & _ & [[Ht [t Ht']]|[Erec Hnx]]).
    - rewrite Ht, Ht'. lia.
    - assert (may_create (create_failed (mo_end mo) (want s) n refused s).1 = 0) as ->.
      { unfold may_create. destruct (Z.ltb_spec (sc_nextCreate (create_failed (mo_end mo) (want s) n refused s).1) (t0 + second)); lia. }
      assert (missing (create_failed (mo_end mo) (want s) n refused s).1 = missing s) as ->.
      { unfold missing, size, ncur, cur_of, desired. by rewrite Em, Erec. }
      rewrite Erec. lia. }
  revert Hmb Hmr. clear Hwf'. cbn [act]. destruct (mo_answer mo) as [id node pid|st tr|id]; [|by apply Hfail..].
  intros _ _. pose proof (size_split s). pose proof (hcur_le s).
  destruct (create_recorded_counts (new_replica (want s) n id node pid (mo_end mo)) (mo_end mo) s)
    as (E1 & E2 & E3 & E4 & E5 & E6 & _).
  unfold missing, may_create. rewrite E1, E2, E4, E5, E6. unfold is_rev. cbn [new_replica rp_Rev].
  rewrite Z.eqb_refl. fold (may_create s). assert (0 ≤ nold s) by (unfold nold; lia). lia.
Qed.

(** ** The whole pass *)
Context (env : nat → moment).

Definition made_id (a : replica_answer) : option string :=
  match a with made id _ _ => Some id | _ => None end.

(** The answers to come make sandboxes never seen, each its own. *)
Definition all_fresh (i : nat) (s : service) : Prop :=
  ∀ j, (i ≤ j)%nat → fresh_answer (mo_answer (env j)) s.
Definition distinct_answers : Prop :=
  ∀ i j id, made_id (mo_answer (env i)) = Some id → made_id (mo_answer (env j)) = Some id → i = j.

Lemma retireStep_health_none rids now s id :
  sc_health s !! id = None → sc_health (retireStep rids now s) !! id = None.
Proof.
  unfold retireStep. cbn [on_record sc_health]. revert s.
  induction rids as [|x rids IH]; intros s Hn; [done|]. cbn [foldl]. apply IH. cbn.
  apply lookup_delete_None. by right.
Qed.

Lemma decide_health_none active now s id :
  wf s → sc_health s !! id = None → sc_health (decide active now s).2 !! id = None.
Proof.
  intros Hwf Hn. destruct (decide_decided active now s (proj1 (wf_replicas _ Hwf)))
    as [Hset|Hg Hno|x Hg Hs Hx Hall Hlt|x Hg Hs Ho Hx Hall Hlt|t Hg Hs Ht Hz Hh Hc|Hg Hs Ho Hc Hnow Hac Hst];
    cbn [snd]; [done| |by apply retireStep_health_none..| |].
  - destruct (drop_step_snd now s) as (s1 & out & -> & _ & Hh & _). apply retireStep_health_none. by rewrite Hh.
  - by destruct (rollout_done_fields now s t Ht) as (_ & -> & _).
  - by destruct (createStep_spec (want s) s) as (n & _ & _ & -> & _).
Qed.

Lemma all_fresh_decide i active now s :
  wf s → all_fresh i s → all_fresh i (decide active now s).2.
Proof.
  intros Hwf Hf j Hj. specialize (Hf j Hj). destruct (mo_answer (env j)) as [id node pid| |]; try done.
  destruct Hf as [Hid Hh]. split; [|by apply decide_health_none]. intros Hin. apply Hid.
  eapply elem_of_submseteq; [done|]. unfold ids. apply fmap_submseteq.
  by apply sublist_submseteq, decide_members.
Qed.

Lemma all_fresh_act i rev n sp s :
  distinct_answers → all_fresh i s → all_fresh (S i) (act (create rev n sp) (env i) s).
Proof.
  intros Hdis Hf j Hj. assert (fresh_answer (mo_answer (env j)) s) as Hfj by (apply Hf; lia).
  destruct (mo_answer (env j)) as [id node pid| |] eqn:Ej; try done. destruct Hfj as [Hid Hh].
  cbn [act]. destruct (mo_answer (env i)) as [id' node' pid'|st tr|id'] eqn:Ei.
  - split; [|done]. rewrite members_create_recorded. unfold ids. rewrite fmap_app, elem_of_app.
    intros [Hin|Hin%list_elem_of_singleton]; [done|]. cbn in Hin. subst id'.
    assert (i = j); [|lia]. apply (Hdis i j id); by rewrite ?Ei, ?Ej.
  - destruct (create_failed_same (mo_end (env i)) rev n (refusedNow (not_created st tr)) s) as (Em & Eh & _).
    cbn [fresh_answer]. by rewrite Em, Eh.
  - destruct (create_failed_same (mo_end (env i)) rev n (refusedNow (not_started id')) s) as (Em & Eh & _).
    cbn [fresh_answer]. by rewrite Em, Eh.
Qed.

Definition in_second : Prop :=
  ∀ i, t0 ≤ mo_now (env i) < t0 + second ∧ t0 ≤ mo_end (env i).

(** The step after [decide], and what it keeps. *)
Lemma pass_step i s a s' :
  in_second → distinct_answers → wf s → all_fresh i s →
  decide (mo_active (env i)) (mo_now (env i)) s = (Some a, s') →
  wf (act a (env i) s') ∧ work (act a (env i) s') < work s ∧ all_fresh (S i) (act a (env i) s').
Proof.
  intros Hin Hdis Hwf Hf Hdec. destruct (Hin i) as [Hnow Hend].
  pose proof (decide_work _ _ _ _ _ Hwf Hnow Hdec) as Hw.
  pose proof (decide_wf (mo_active (env i)) (mo_now (env i)) s Hwf) as Hwf'.
  pose proof (all_fresh_decide i (mo_active (env i)) (mo_now (env i)) s Hwf Hf) as Hf'.
  rewrite Hdec in Hwf', Hf'. cbn [snd] in Hwf', Hf'.
  destruct a as [rids| |rev n sp]; [by split_and!; try done; intros j Hj; apply Hf'; lia..|].
  destruct Hw as (-> & -> & Hs & Hmay & Hc & Hroom & Hsz).
  destruct (createStep_spec (want s) s) as (k & _ & Er & Eh & En & _).
  set (s1 := (createStep (want s) s).2) in *.
  assert (want s = want s1) as Ew by (unfold want; by rewrite Er). rewrite Ew.
  assert (work s = work s1) as ->.
  { unfold work, missing, may_create, size, ncur, cur_of, desired, members. rewrite Er, En.
    assert (∀ x, leaves s1 x = leaves s x) as El by (intros x; unfold leaves, failed, h; by rewrite Er, Eh).
    by rewrite (existsb_same _ _ _ El). }
  destruct (act_work n sp (env i) s1) as [Hw1 Hw2]; try done.
  - intros x Hx. unfold leaves, failed, h. rewrite Er, Eh. apply Hs. unfold members in Hx. by rewrite Er in Hx.
  - unfold may_create. by rewrite En.
  - unfold ncur, cur_of, desired, members. by rewrite Er.
  - unfold nold, old_of, size, desired, members. by rewrite Er.
  - unfold size, members. by rewrite Er.
  - by apply Hf'.
  - split_and!; [done|done|]. by apply all_fresh_act.
Qed.

Lemma pass_ends fuel : ∀ i s,
  in_second → distinct_answers → wf s → all_fresh i s → work s < Z.of_nat fuel →
  ∃ s' j, pass fuel env i s = (s', true) ∧ wf s' ∧ settled (mo_active (env j)) (mo_now (env j)) s'.
Proof.
  induction fuel as [|fuel IH]; intros i s Hin Hdis Hwf Hf Hlt.
  { pose proof (work_bound s Hwf). lia. }
  cbn [pass]. destruct (decide _ _ s) as [[a|] s'] eqn:Hdec.
  - destruct (pass_step i s a s') as (Hwf' & Hw & Hf'); try done. apply IH; try done. lia.
  - exists s', i. split; [done|].
    pose proof (decide_decided (mo_active (env i)) (mo_now (env i)) s (proj1 (wf_replicas _ Hwf))) as Hd.
    rewrite Hdec in Hd. inversion Hd. by subst.
Qed.
(** What every step keeps, a pass keeps. *)
Lemma pass_keeps (P : service → Prop) fuel : ∀ i s,
  (∀ i s a s', wf s → all_fresh i s → P s → decide (mo_active (env i)) (mo_now (env i)) s = (Some a, s') →
     P (act a (env i) s')) →
  (∀ i s s', P s → decide (mo_active (env i)) (mo_now (env i)) s = (None, s') → P s') →
  in_second → distinct_answers → wf s → all_fresh i s → P s → P (pass fuel env i s).1.
Proof.
  induction fuel as [|fuel IH]; intros i s Hstep Hend Hin Hdis Hwf Hf Hp; [done|].
  cbn [pass]. destruct (decide _ _ s) as [[a|] s'] eqn:Hdec; [|by eapply Hend].
  destruct (pass_step i s a s') as (Hwf' & _ & Hf'); try done.
  apply (IH _ _ Hstep Hend Hin Hdis Hwf' Hf'). by apply (Hstep i s a s').
Qed.

Lemma pass_fresh_after fuel : ∀ i s,
  in_second → distinct_answers → wf s → all_fresh i s → ∀ id,
  (∀ j, (i ≤ j)%nat → made_id (mo_answer (env j)) ≠ Some id) → (id ∉ ids (members s)) → sc_health s !! id = None →
  (id ∉ ids (members (pass fuel env i s).1)) ∧ sc_health (pass fuel env i s).1 !! id = None.
Proof.
  induction fuel as [|fuel IH]; intros i s Hin Hdis Hwf Hf id Hno Hid Hh; [done|].
  cbn [pass]. pose proof (decide_members (mo_active (env i)) (mo_now (env i)) s Hwf) as Hm.
  pose proof (decide_health_none (mo_active (env i)) (mo_now (env i)) s id Hwf Hh) as Hn.
  destruct (decide _ _ s) as [[a|] s'] eqn:Hdec; cbn [snd] in *.
  - destruct (pass_step i s a s') as (Hwf' & _ & Hf'); try done.
    assert (id ∉ ids (members s')) as Hid'.
    { intros Hin'. apply Hid. eapply elem_of_submseteq; [done|]. apply fmap_submseteq.
      by apply sublist_submseteq. }
    apply IH; try done; [intros j Hj; apply Hno; lia| |].
    + destruct a as [| |rev n sp]; [done..|]. cbn [act].
      destruct (mo_answer (env i)) as [id' node pid|st tr|id'] eqn:Ei;
        rewrite ?members_create_recorded, ?(proj1 (create_failed_same _ _ _ _ _)); try done.
      unfold ids. rewrite fmap_app, elem_of_app. intros [?|E%list_elem_of_singleton]; [done|].
      cbn in E. apply (Hno i); [lia|]. by rewrite Ei, E.
    + destruct a as [| |rev n sp]; [done..|]. cbn [act].
      destruct (mo_answer (env i)) as [id' node pid|st tr|id']; [done|..];
        by rewrite (proj1 (proj2 (create_failed_same _ _ _ _ _))).
  - assert (s' = s) as ->; [|done].
    pose proof (decide_decided (mo_active (env i)) (mo_now (env i)) s (proj1 (wf_replicas _ Hwf))) as Hd.
    rewrite Hdec in Hd. inversion Hd. by subst.
Qed.

End measure.

(** Left alone for a second, a pass over a well-formed service ends because
    there is nothing left to do, whatever the nodes answer: its bound of 408
    steps is never what ends it. *)
Theorem pass_settles t0 env s :
  wf s → in_second t0 env → distinct_answers env → all_fresh env 0 s →
  ∃ s' j, reconcileService env s = (s', true) ∧ wf s' ∧
    settled (mo_active (env j)) (mo_now (env j)) s'.
Proof.
  intros Hwf Hin Hdis Hf. unfold reconcileService. apply (pass_ends t0); try done.
  pose proof (work_bound t0 s Hwf). change (Z.of_nat pass_bound) with 408. lia.
Qed.
