(* ===== verification/Converge.v ===== *)
(** * A service comes to what its spec asks for

    Rounds of a pass and then checks that pass, with creates that succeed:
    after as many rounds as there are replicas to make and old ones to retire,
    and one more, every replica is of the wanted revision, healthy, and there
    are as many as asked for. *)
From stdpp Require Import pretty.
From S2P Require Import Prelude GoStrings Api EgressNames PolicyEnv Spec ServiceSpec Services Rollout.

(** ** Checks that all pass *)
Definition recorded_owner (s : service) (id : string) : option (option string) :=
  Some (rp_Node <$> List.find (λ m, String.eqb (rp_Sandbox m) id) (members s)).

Definition checks_pass (t : Z) (s : service) : service :=
  let s' := observeService (λ _, true) (recorded_owner s) t s in
  foldl (λ s m, checked (rp_Sandbox m) check_passed t s) s' (members s').

Definition untouched (s s' : service) : Prop :=
  sc_rec s' = sc_rec s ∧ sc_gone s' = sc_gone s ∧ sc_nextCreate s' = sc_nextCreate s.

Lemma untouched_trans a b c : untouched a b → untouched b c → untouched a c.
Proof. unfold untouched. intuition congruence. Qed.

(** One entry after another: each is changed once, from what it was. [I] is
    what the steps rely on. *)
Lemma health_fold (I : service → Prop) (step : service → replicaRecord → service)
    (f : replicaRecord → replicaHealth → replicaHealth) ms :
  (∀ s m, m ∈ ms → I s → I (step s m) ∧ untouched s (step s m) ∧
     ∀ id, h (step s m) id = if String.eqb (rp_Sandbox m) id then f m (h s id) else h s id) →
  NoDup (ids ms) → ∀ s, I s → I (foldl step s ms) ∧ untouched s (foldl step s ms) ∧
    (∀ m, m ∈ ms → h (foldl step s ms) (rp_Sandbox m) = f m (h s (rp_Sandbox m))) ∧
    (∀ id, (id ∉ ids ms) → h (foldl step s ms) id = h s id).
Proof.
  induction ms as [|m ms IH]; intros Hstep Hnd s HI; cbn [foldl].
  { split_and!; [done|done|by intros m ?%not_elem_of_nil|done]. }
  unfold ids in Hnd. rewrite fmap_cons in Hnd. apply NoDup_cons in Hnd as [Hm Hnd].
  destruct (Hstep s m ltac:(left) HI) as (HI' & Hu & Hh).
  destruct (IH (λ s x Hx, Hstep s x ltac:(by right)) Hnd (step s m) HI') as (HI'' & Hu' & Hin & Hout).
  split_and!; [done|by eapply untouched_trans| |].
  - intros x [->|Hx]%elem_of_cons.
    + by rewrite Hout, Hh, String.eqb_refl.
    + rewrite Hin, Hh by done. rewrite (proj2 (String.eqb_neq _ _)); [done|].
      intros E. apply Hm. rewrite E. apply list_elem_of_fmap. eauto.
  - intros id. unfold ids. rewrite fmap_cons, not_elem_of_cons. intros [Hne Hid].
    rewrite Hout, Hh by done. by rewrite (proj2 (String.eqb_neq _ _)).
Qed.

Lemma find_member ms m : NoDup (ids ms) → m ∈ ms →
  List.find (λ x, String.eqb (rp_Sandbox x) (rp_Sandbox m)) ms = Some m.
Proof.
  intros Hnd Hm. destruct (List.find _ ms) as [x|] eqn:E.
  - apply find_some in E as [Hx He]. apply list_elem_of_In in Hx. apply String.eqb_eq in He.
    f_equal. by apply (ids_inj ms).
  - pose proof (find_none _ _ E m (proj1 (list_elem_of_In _ _) Hm)) as Hno. cbn in Hno.
    by rewrite String.eqb_refl in Hno.
Qed.

Lemma h_insert x s id id' : h (on_health <[id := x]> s) id' = if String.eqb id id' then x else h s id'.
Proof.
  unfold h. cbn. destruct (String.eqb_spec id id') as [->|Hne];
    [by rewrite lookup_insert_eq|by rewrite lookup_insert_ne].
Qed.

(** No check has said its sandbox is gone or its command over. *)
Definition none_fatal (s : service) : Prop := ∀ m, m ∈ members s → hl_fatal (h s (rp_Sandbox m)) = false.

Definition entries_of (ms : list replicaRecord) (s : service) : Prop :=
  ∀ m, m ∈ ms → is_Some (sc_health s !! rp_Sandbox m).

Lemma observe_entries (f : service → replicaRecord → replicaHealth) ms : ∀ s,
  entries_of ms (foldl (λ s m, on_health <[rp_Sandbox m := f s m]> s) s ms).
Proof.
  assert (∀ ms s id, is_Some (sc_health s !! id) →
    is_Some (sc_health (foldl (λ s m, on_health <[rp_Sandbox m := f s m]> s) s ms) !! id)) as Hkeep.
  { clear. induction ms as [|m ms IH]; intros s id Hs; [done|]. cbn [foldl]. apply IH. cbn.
    destruct (String.eqb_spec (rp_Sandbox m) id) as [->|]; [rewrite lookup_insert_eq; eauto|by rewrite lookup_insert_ne]. }
  induction ms as [|m ms IH]; intros s x; [by intros ?%not_elem_of_nil|]. cbn [foldl].
  intros [->|Hx]%elem_of_cons; [|by apply IH]. apply Hkeep. cbn. rewrite lookup_insert_eq. eauto.
Qed.

Lemma checks_pass_spec t s :
  sc_gone s = false → NoDup (ids (members s)) → none_fatal s →
  untouched s (checks_pass t s) ∧
  ∀ m, m ∈ members s → hl_healthy (h (checks_pass t s) (rp_Sandbox m)) = true ∧
    hl_fails (h (checks_pass t s) (rp_Sandbox m)) = 0 ∧ hl_lost (h (checks_pass t s) (rp_Sandbox m)) = false ∧
    hl_fatal (h (checks_pass t s) (rp_Sandbox m)) = false.
Proof.
  intros Hg Hnd Hfat. unfold checks_pass, observeService. rewrite Hg. cbv zeta.
  set (o := λ m x, (observe_one true (recorded_owner s (rp_Sandbox m)) t (specOf (sc_rec s) (rp_Rev m)) m x).1).
  set (s1 := foldl (λ s' m, on_health <[rp_Sandbox m := o m (h s' (rp_Sandbox m))]> s') s (members s)).
  match goal with |- context [foldl ?g s (members s)] => change (foldl g s (members s)) with s1 end.
  destruct (health_fold (λ _, True) (λ s' m, on_health <[rp_Sandbox m := o m (h s' (rp_Sandbox m))]> s') o (members s))
    with (s := s) as (_ & Hu & Hin & _); [|done|done|].
  { intros s0 m _ _. split_and!; [done|done|]. intros id. rewrite h_insert.
    destruct (String.eqb_spec (rp_Sandbox m) id) as [->|]; done. }
  fold s1 in Hu, Hin.
  assert (entries_of (members s) s1) as He by apply observe_entries.
  assert (members s1 = members s) as -> by (unfold members; by rewrite (proj1 Hu)).
  destruct (health_fold (entries_of (members s)) (λ s' m, checked (rp_Sandbox m) check_passed t s')
    (λ _, apply check_passed t) (members s)) with (s := s1) as (_ & Hu2 & Hin2 & _); [|done|done|].
  { intros s0 m Hm Hent. destruct (Hent m Hm) as [x Hx]. unfold checked. rewrite Hx. cbn [apply check_passed ck_fatal ck_ok hl_healthy].
    split_and!; [|done|].
    - intros y Hy. cbn. destruct (String.eqb_spec (rp_Sandbox m) (rp_Sandbox y)) as [->|];
        [rewrite lookup_insert_eq; eauto|rewrite lookup_insert_ne by done; by apply Hent].
    - intros id. rewrite <- (h_insert (apply check_passed t (h s0 id))).
      unfold h. cbn. destruct (String.eqb_spec (rp_Sandbox m) id) as [<-|Hne]; [|by rewrite !lookup_insert_ne].
      by rewrite !lookup_insert_eq, Hx. }
  split; [by apply (untouched_trans _ s1)|].
  intros m Hm. rewrite Hin2 by done. rewrite Hin by done. cbn. split_and!; try done.
  rewrite (Hfat m Hm). unfold recorded_owner. rewrite find_member by done. cbn.
  by rewrite String.eqb_refl.
Qed.

(** ** One pass where creates succeed *)
Lemma retireStep_gone rids now s : sc_gone (retireStep rids now s) = sc_gone s.
Proof.
  unfold retireStep. cbn [on_record sc_gone]. revert s.
  induction rids as [|x rids IH]; intros s; [done|]. cbn [foldl]. by rewrite IH.
Qed.

(** Everything is in place but what the pass is for. *)
Record midway (w : revision) (d next c0 o0 : Z) (x : service) : Prop := {
  mw_gone : sc_gone x = false;
  mw_stay : all_stay x;
  mw_want : want x = w;
  mw_desired : desired x = d;
  mw_next : sc_nextCreate x = next;
  mw_hcur : hcur x = Z.min (ncur x) c0;
  mw_ncur : Z.min c0 d ≤ ncur x ≤ Z.max c0 d;
  mw_nold : nold x ≤ o0
}.

Definition succeeds (next : Z) (env : nat → moment) : Prop :=
  ∀ i, mo_active (env i) = true ∧ next ≤ mo_now (env i) ∧ is_Some (made_id (mo_answer (env i))).

Lemma hcur_all s : hcur s = ncur s → ∀ m, m ∈ cur_of s → healthy s m = true.
Proof.
  intros E m Hm. destruct (healthy s m) eqn:Eh; [done|].
  pose proof (count_lt (healthy s) _ m Hm Eh). unfold hcur, ncur in E. lia.
Qed.

Lemma midway_retire w d next c0 o0 s m now :
  wf s → midway w d next c0 o0 s → all_stay (retireStep [rp_Sandbox m] now s) → m ∈ members s →
  (is_rev (rv_Rev (want s)) m = true → healthy s m = true ∧ d < ncur s) →
  midway w d next c0 o0 (retireStep [rp_Sandbox m] now s).
Proof.
  intros Hwf [Hg Hst Hw Hd Hn Hh Hc Ho] Hst' Hin Hcur.
  destruct (retire_counts now s m (wf_ids _ Hwf) Hin) as (E1 & E2 & E3 & E4 & E5 & E6).
  pose proof (size_split s). pose proof (size_split (retireStep [rp_Sandbox m] now s)).
  split; rewrite ?retireStep_gone, ?retireStep_next; try (done || congruence).
  - rewrite E2, E3. destruct (is_rev _ m); cbn; [destruct (Hcur eq_refl) as [-> ?]; lia|lia].
  - rewrite E2. destruct (is_rev _ m); [destruct (Hcur eq_refl); lia|lia].
  - destruct (is_rev _ m); lia.
Qed.

Lemma midway_step w d next c0 o0 env i s a s' :
  succeeds next env → all_fresh env i s → wf s → midway w d next c0 o0 s →
  decide (mo_active (env i)) (mo_now (env i)) s = (Some a, s') →
  midway w d next c0 o0 (act a (env i) s').
Proof.
  intros Hsuc Hf Hwf Hmid Hdec.
  pose proof (stays_after (mo_active (env i)) (mo_now (env i)) s Hwf (mw_stay _ _ _ _ _ _ Hmid)) as Hst'.
  assert (s' = (decide (mo_active (env i)) (mo_now (env i)) s).2) as -> by (by rewrite Hdec).
  assert (Some a = (decide (mo_active (env i)) (mo_now (env i)) s).1) as Ha by (by rewrite Hdec).
  clear Hdec. revert Ha Hst'. pose proof (wf_ids _ Hwf) as Hnd.
  destruct Hmid as [Hg Hst Hw Hd Hn Hh Hc Ho].
  destruct (decide_decided (mo_active (env i)) (mo_now (env i)) s (proj1 (wf_replicas _ Hwf)))
    as [Hset|_ Hno|m _ Hs Hm Hall Hlt|m _ Hs Hold Hm Hall Hlt|t _ Hs Ht Hz Hhc Hle|_ Hs Hold Hlt Hnx Hac Hst0];
    cbn [fst snd]; intros [= ->] Hst'; [done| | | |].
  - apply midway_retire; try done; [by apply cur_old_members; right|].
    intros Hr. unfold old_of in Hm. apply elem_of_bfilter in Hm as [_ Hm]. fold (want s) in Hm.
    by rewrite Hr in Hm.
  - apply midway_retire; try done; [by apply cur_old_members; left|].
    intros _. split; [|lia]. apply hcur_all; [lia|done].
  - destruct (rollout_done_fields (mo_now (env i)) s t Ht) as (_ & _ & En & Eg & _).
    destruct (rollout_done_counts (mo_now (env i)) s t Ht) as (E1 & E2 & E3 & E4 & E5 & _).
    pose proof (size_split (rollout_done (mo_now (env i)) s)). pose proof (size_split s).
    cbn [act]. split; try (done || congruence || lia).
  - destruct (createStep_spec (want s) s) as (k & Ea & Er & Eh & En & Eg). rewrite Ea.
    destruct (Hsuc i) as (_ & _ & [id Hid]). destruct (create_room s Hwf Hold Hlt Hst0) as [Hroom _].
    set (s1 := (createStep (want s) s).2) in *.
    assert (leaves s1 = leaves s) as El.
    { unfold leaves, failed, h. by rewrite Er, Eh. }
    assert (members s1 = members s) as Em by (unfold members; by rewrite Er).
    assert (wf s1) as Hwf1.
    { apply (wf_shrinks s); [done| | |]; [rewrite Er; apply shrinks_refl, wf_known, Hwf|..];
        unfold size; rewrite Em; apply Hwf. }
    assert (all_fresh env i s1) as Hf1.
    { intros j Hj. specialize (Hf j Hj). unfold fresh_answer in *. by rewrite Em, Eh. }
    assert (want s1 = want s) as Ew by (unfold want; by rewrite Er).
    assert (all_stay (act (create (want s) k (spread_of (sc_rec s))) (env i) s1)) as Hstay.
    { apply act_stays; [done|done| |unfold size in *; by rewrite Em|by apply Hf1].
      rewrite <- Ew. apply want_in_revs. }
    specialize (Hf1 i ltac:(lia)). revert Hstay. cbn [act].
    destruct (mo_answer (env i)) as [id' node pid| |]; [|done..]. intros Hstay.
    set (m := new_replica (want s) k id' node pid (mo_end (env i))) in *.
    destruct (create_recorded_counts m (mo_end (env i)) s1) as (E1 & E2 & E3 & E4 & E5 & E6 & E7).
    assert (ncur s1 = ncur s ∧ hcur s1 = hcur s ∧ nold s1 = nold s ∧ desired s1 = desired s) as (F1 & F2 & F3 & F4).
    { unfold ncur, hcur, nold, cur_of, old_of, desired, members, healthy, h. by rewrite Er, Eh. }
    assert (is_rev (rv_Rev (want s1)) m = true) as Hrev by (rewrite Ew; unfold is_rev; cbn; apply Z.eqb_refl).
    assert (healthy s1 m = false) as Hnh.
    { unfold healthy, h. cbn. destruct Hf1 as [_ ->]. done. }
    rewrite Hrev, Hnh in *. cbn [andb] in *.
    pose proof (size_split (create_recorded m (mo_end (env i)) s1)). pose proof (size_split s1).
    assert (sc_gone (create_recorded m (mo_end (env i)) s1) = sc_gone s1) as Eg' by done.
    split; try (done || congruence || lia).
Qed.

(** ** Rounds *)

(** Every replica is found healthy, and the controller is not holding off. *)
Record calm (s : service) : Prop := {
  ca_wf : wf s;
  ca_gone : sc_gone s = false;
  ca_stay : all_stay s;
  ca_healthy : ∀ m, m ∈ members s → healthy s m = true
}.

(** What the spec asks for, reached: as many replicas as asked for, all of the
    wanted revision, no rollout under way. *)
Record converged (w : revision) (d : Z) (s : service) : Prop := {
  cv_members : ∀ m, m ∈ members s → rp_Rev m = rv_Rev w ∧ healthy s m = true;
  cv_size : size s = d;
  cv_serving : sr_Serving (sc_rec s) = w;
  cv_target : sr_Target (sc_rec s) = None
}.

Definition to_go (s : service) : Z := Z.max 0 (desired s - ncur s) + nold s.

Lemma stay_none_fatal s : all_stay s → none_fatal s.
Proof.
  intros Hs m Hm. specialize (Hs m Hm). unfold leaves, failed in Hs.
  by apply orb_false_iff in Hs as [[? _]%orb_false_iff _].
Qed.

Lemma untouched_counts s s' : untouched s s' →
  members s' = members s ∧ want s' = want s ∧ desired s' = desired s ∧ ncur s' = ncur s ∧ nold s' = nold s ∧
  size s' = size s ∧ sr_Target (sc_rec s') = sr_Target (sc_rec s) ∧ sr_Serving (sc_rec s') = sr_Serving (sc_rec s).
Proof.
  intros (E & _). unfold members, want, desired, ncur, nold, size, cur_of, old_of, members. by rewrite E.
Qed.

Lemma checks_calm t s : wf s → sc_gone s = false → all_stay s → calm (checks_pass t s).
Proof.
  intros Hwf Hg Hs. destruct (checks_pass_spec t s Hg (wf_ids _ Hwf) (stay_none_fatal s Hs)) as [Hu Hall].
  destruct (untouched_counts _ _ Hu) as (Em & _ & _ & _ & _ & Esz & _). destruct Hu as (Er & Eg & _).
  assert (wf (checks_pass t s)) as Hwf'.
  { apply (wf_shrinks s); [done|rewrite Er; apply shrinks_refl, wf_known, Hwf|rewrite Esz|rewrite Em]; apply Hwf. }
  split; [done|by rewrite Eg| |].
  - intros m Hm. rewrite Em in Hm. destruct (Hall m Hm) as (Hh & Hf & Hl & Hfa). unfold leaves, failed.
    rewrite Hfa, Hl, Hf, orb_false_r. cbn. apply Z.leb_gt.
    destruct (wf_known _ Hwf' m) as (o & Ho & <-); [fold (members (checks_pass t s)); by rewrite Em|].
    rewrite specOf_known by (try apply Hwf'; done). pose proof (wf_failures _ Hwf' o Ho). lia.
  - intros m Hm. rewrite Em in Hm. apply (Hall m Hm).
Qed.

(** A round from a calm service: it has less to go, or nothing. *)
Lemma round t0 env t s :
  calm s → in_second t0 env → distinct_answers env → all_fresh env 0 s → succeeds (sc_nextCreate s) env →
  let s' := checks_pass t (reconcileService env s).1 in
  untouched (reconcileService env s).1 s' ∧
  calm s' ∧ want s' = want s ∧ desired s' = desired s ∧ sc_nextCreate s' = sc_nextCreate s ∧
  (converged (want s) (desired s) s' ∨ to_go s' < to_go s).
Proof.
  intros [Hwf Hg Hs Hh] Hin Hdis Hf Hsuc. cbv zeta.
  destruct (pass_ends t0 env pass_bound 0 s) as (x & j & Ex & Hwfx & Hset); try done.
  { pose proof (work_bound t0 s Hwf). change (Z.of_nat pass_bound) with 408. lia. }
  assert (midway (want s) (desired s) (sc_nextCreate s) (ncur s) (nold s) s) as Hmid.
  { split; try done; [|pose proof (wf_replicas _ Hwf); lia]. unfold hcur. rewrite count_all; [unfold ncur; lia|].
    intros m Hm. apply Hh, cur_old_members. by left. }
  assert (midway (want s) (desired s) (sc_nextCreate s) (ncur s) (nold s) x) as [Hgx Hsx Hwx Hdx Hnx Hhx Hcx Hox].
  { replace x with (pass pass_bound env 0 s).1 by (by rewrite Ex).
    apply (pass_keeps t0); try done.
    - intros i y a y' Hwfy Hfy Hmy Hdec. by apply (midway_step _ _ _ _ _ env i y a).
    - intros i y y' Hmy Hdec. pose proof (decide_decided (mo_active (env i)) (mo_now (env i)) y) as Hd.
      destruct Hmy. rewrite Hdec in Hd. destruct (wf_replicas _ Hwf). specialize (Hd ltac:(lia)). inversion Hd. by subst. }
  unfold reconcileService. rewrite Ex. cbn [fst].
  destruct (checks_calm t x Hwfx Hgx Hsx) as [Hwf' Hg' Hs' Hh'].
  destruct (checks_pass_spec t x Hgx (wf_ids _ Hwfx) (stay_none_fatal x Hsx)) as [Hu _].
  destruct (untouched_counts _ _ Hu) as (Em & Ew & Ed & Ec & Eo & Esz & Et & Esv).
  split; [done|]. split; [done|]. split; [congruence|]. split; [congruence|]. split; [destruct Hu as (_ & _ & ->); done|].
  destruct Hset as [?|(_ & Hold & Hle & Ht & Hlt)]; [congruence|].
  destruct (Hsuc j) as (Hac & Hnow & _). rewrite Hac, Hnx in Hlt.
  pose proof (size_split x) as Hsz. assert (0 ≤ nold x) by (unfold nold; lia).
  unfold to_go. rewrite Ec, Eo, Ed, Hdx.
  destruct (Z.lt_ge_cases (ncur x) (desired s)) as [Hlt'|Hge]; [right; destruct Hlt; [lia|done|done|lia]|].
  destruct (Z.lt_ge_cases (ncur s) (desired s)) as [Hlt'|Hge']; [right; lia|left].
  assert (nold x = 0) as Hz by lia. assert (sr_Target (sc_rec x) = None) as Htx by (destruct Ht as [?|[?|?]]; [done|lia..]).
  split.
  - intros m Hm. split; [|by apply Hh']. rewrite <- Hwx. apply nold_zero; [done|]. by rewrite <- Em.
  - lia.
  - rewrite Esv, <- Hwx. unfold want, want_of. by rewrite Htx.
  - by rewrite Et.
Qed.

Lemma checks_pass_none t s id : sc_health s !! id = None → (id ∉ ids (members s)) → sc_health (checks_pass t s) !! id = None.
Proof.
  intros Hn Hid. unfold checks_pass, observeService.
  assert (∀ f ms s0, sc_health s0 !! id = None → (id ∉ ids ms) →
    sc_health (foldl (λ s' m, on_health <[rp_Sandbox m := f s' m]> s') s0 ms) !! id = None) as Hobs.
  { clear. intros f ms. induction ms as [|m ms IH]; intros s0 Hn; [done|]. unfold ids. rewrite fmap_cons, not_elem_of_cons.
    intros [Hne Hms]. cbn [foldl]. apply IH; [|done]. cbn. by rewrite lookup_insert_ne. }
  assert (∀ ms s0, sc_health s0 !! id = None →
    sc_health (foldl (λ s m, checked (rp_Sandbox m) check_passed t s) s0 ms) !! id = None) as Hchk.
  { clear. induction ms as [|m ms IH]; intros s0 Hn; [done|]. cbn [foldl]. apply IH. unfold checked.
    destruct (sc_health s0 !! rp_Sandbox m) eqn:E; cbn [hl_healthy apply check_passed ck_fatal ck_ok]; [|done].
    cbn. rewrite lookup_insert_ne; [done|]. intros E'. by rewrite E', Hn in E. }
  apply Hchk. destruct (sc_gone s); [done|]. by apply Hobs.
Qed.

Fixpoint rounds (n : nat) (envs : nat → nat → moment) (ts : nat → Z) (k : nat) (s : service) : service :=
  match n with
  | O => s
  | S n => rounds n envs ts (S k) (checks_pass (ts k) (reconcileService (envs k) s).1)
  end.

Section rounds.
Context (envs : nat → nat → moment) (t0s ts : nat → Z).

(** Every sandbox made is a new one. *)
Definition all_distinct : Prop := ∀ k i k' i' id,
  made_id (mo_answer (envs k i)) = Some id → made_id (mo_answer (envs k' i')) = Some id → k = k' ∧ i = i'.
Definition unseen (k : nat) (s : service) : Prop := ∀ k', (k ≤ k')%nat → all_fresh (envs k') 0 s.

Lemma unseen_round k s x :
  all_distinct → in_second (t0s k) (envs k) → wf s → unseen k s →
  x = (reconcileService (envs k) s).1 → untouched x (checks_pass (ts k) x) →
  unseen (S k) (checks_pass (ts k) x).
Proof.
  intros Hdis Hin Hwf Hun -> Hu k' Hk' j Hj. pose proof (Hun k' ltac:(lia) j Hj) as Hf.
  destruct (mo_answer (envs k' j)) as [id node pid| |] eqn:E; try done. destruct Hf as [Hid Hh].
  destruct (pass_fresh_after (t0s k) (envs k) pass_bound 0 s) with (id := id) as [Hid' Hh']; try done.
  - intros i i' y Hy Hy'. by apply (Hdis k i k i' y).
  - by apply Hun.
  - intros i _ Hi. destruct (Hdis k i k' j id) as [-> _]; [done|by rewrite E|lia].
  - cbn [fresh_answer]. destruct (untouched_counts _ _ Hu) as (-> & _). split; [done|].
    by apply checks_pass_none.
Qed.

Lemma converged_done s : converged (want s) (desired s) s → to_go s = 0.
Proof.
  intros [Hm Hsz _ _]. pose proof (size_split s).
  assert (ncur s = size s); [|unfold to_go; lia].
  unfold ncur, cur_of, size. rewrite length_filter_count. apply count_all.
  intros m Hin. apply Z.eqb_eq. by apply Hm.
Qed.

Lemma rounds_converge n : ∀ k s,
  calm s → all_distinct → (∀ k, in_second (t0s k) (envs k)) → unseen k s →
  (∀ k, succeeds (sc_nextCreate s) (envs k)) → to_go s < Z.of_nat n ∨ converged (want s) (desired s) s →
  converged (want s) (desired s) (rounds n envs ts k s).
Proof.
  induction n as [|n IH]; intros k s Hc Hdis Hin Hun Hsuc Hgo.
  { assert (0 ≤ to_go s) by (unfold to_go, nold; lia). destruct Hgo; [lia|done]. }
  cbn [rounds].
  assert (distinct_answers (envs k)) as Hd by (intros i i' y Hy Hy'; by apply (Hdis k i k i' y)).
  destruct (round (t0s k) (envs k) (ts k) s Hc (Hin k) Hd (Hun k ltac:(lia)) (Hsuc k))
    as (Hu & Hc' & Hw & Hde & Hnx & Hor).
  rewrite <- Hw, <- Hde. apply IH; try done.
  - apply (unseen_round k s); try done. apply Hc.
  - intros k'. rewrite Hnx. apply Hsuc.
  - destruct Hor as [Hcv|Hlt]; [right; by rewrite Hw, Hde|left].
    destruct Hgo as [?|Hcv]; [lia|]. apply converged_done in Hcv. unfold to_go, nold in *. lia.
Qed.

(** C18. Where creates succeed, checks pass and nothing else changes, a service
    comes to its spec and stays there: within as many rounds as replicas it
    lacks and old ones it holds, and one more, it has as many replicas as asked
    for, all of the wanted revision and healthy, and its rollout is done. *)
Theorem service_converges n k s :
  calm s → all_distinct → (∀ k, in_second (t0s k) (envs k)) → unseen k s →
  (∀ k, succeeds (sc_nextCreate s) (envs k)) → to_go s < Z.of_nat n →
  converged (want s) (desired s) (rounds n envs ts k s).
Proof. intros. apply rounds_converge; auto. Qed.
End rounds.

(** ** A rollout of two replicas *)
Definition web_spec (image : string) : ServiceSpec := {|
  sp_Name := "web"; sp_Image := image; sp_Command := []; sp_Replicas := 2;
  sp_Resources := {| svr_CPUs := fzero; svr_MemoryMB := 0; svr_DiskMB := 0 |}; sp_Port := 8080;
  sp_Health := Some {| svh_HTTP := "/"; svh_Command := []; svh_EverySecs := 10; svh_TimeoutSecs := 5;
                       svh_Failures := 3 |};
  sp_Env := ∅; sp_Network := None; sp_Spread := ""; sp_Public := false; sp_Secrets := [] |}.

Definition web_replica (id : string) (rev : Z) : replicaRecord := {|
  rp_Sandbox := id; rp_Node := "n1"; rp_Rev := rev; rp_PID := 0; rp_Restarts := 0; rp_Created := 1 |}.

Definition found_healthy : replicaHealth := {|
  hl_checking := false; hl_checked := true; hl_healthy := true; hl_fails := 0; hl_lastCheck := 5;
  hl_lost := false; hl_fatal := false |}.

(** Two healthy replicas of revision 1, and revision 2 wanted. *)
Definition rolling : service := {|
  sc_rec := {| sr_Name := "web"; sr_User := "u"; sr_Tenant := ""; sr_Spec := web_spec "img:2";
               sr_Revision := 2; sr_Serving := {| rv_Rev := 1; rv_Spec := web_spec "img:1" |};
               sr_Target := Some {| rv_Rev := 2; rv_Spec := web_spec "img:2" |}; sr_Older := [];
               sr_Rollout := Some {| ro_State := RolloutInProgress; ro_From := 1; ro_To := 2 |};
               sr_Members := [web_replica "a" 1; web_replica "b" 1]; sr_Restarts := 0; sr_Created := 0;
               sr_Updated := 0 |};
  sc_health := {["a" := found_healthy; "b" := found_healthy]}; sc_gone := false; sc_pending := [];
  sc_crashes := 0; sc_nextCreate := zero_time; sc_rr := 0 |}.

(** Every create succeeds, with a sandbox of its own. *)
Definition nth_sandbox (k i : nat) : string := "sbx" +:+ pretty (N.pos (encode (k, i))).
Definition obliging (k i : nat) : moment := {|
  mo_now := 100 * second; mo_active := true; mo_end := 100 * second;
  mo_answer := made (nth_sandbox k i) "n1" 0 |}.

Lemma nth_sandbox_inj k i k' i' : nth_sandbox k i = nth_sandbox k' i' → k = k' ∧ i = i'.
Proof.
  unfold nth_sandbox. intros E. apply (inj (String.append "sbx")) in E. apply (inj pretty) in E.
  injection E as E. by apply (inj encode) in E as [= -> ->].
Qed.

Lemma nth_sandbox_new k i : nth_sandbox k i ≠ "a"%string ∧ nth_sandbox k i ≠ "b"%string.
Proof. unfold nth_sandbox. by split. Qed.

Lemma rolling_calm : calm rolling.
Proof.
  assert (∀ o, o ∈ revs (sc_rec rolling) → o = sr_Serving (sc_rec rolling) ∨
    o = {| rv_Rev := 2; rv_Spec := web_spec "img:2" |}) as Hrevs.
  { intros o. unfold revs. cbn. rewrite !elem_of_cons, elem_of_nil. tauto. }
  assert (∀ m, m ∈ members rolling → m = web_replica "a" 1 ∨ m = web_replica "b" 1) as Hms.
  { intros m. unfold members. cbn. rewrite !elem_of_cons, elem_of_nil. tauto. }
  split; [split| | |].
  - vm_compute. split; discriminate.
  - vm_compute. discriminate.
  - apply (bool_decide_unpack _). by vm_compute.
  - apply (bool_decide_unpack _). by vm_compute.
  - intros o [-> | ->]%Hrevs; vm_compute; split; discriminate.
  - intros m [-> | ->]%Hms; exists (sr_Serving (sc_rec rolling)); split; [left|done|left|done].
  - intros o [-> | ->]%Hrevs; vm_compute; discriminate.
  - done.
  - intros m [-> | ->]%Hms; done.
  - intros m [-> | ->]%Hms; done.
Qed.

Lemma obliging_distinct : all_distinct obliging.
Proof.
  intros k i k' i' id E E'. change (Some (nth_sandbox k i) = Some id) in E.
  change (Some (nth_sandbox k' i') = Some id) in E'. apply nth_sandbox_inj. congruence.
Qed.

Lemma obliging_unseen : unseen obliging 0 rolling.
Proof.
  intros k _ i _. destruct (nth_sandbox_new k i) as [Ha Hb].
  cbn [obliging mo_answer fresh_answer]. split.
  - change (ids (members rolling)) with ["a"; "b"]%string. rewrite !elem_of_cons, elem_of_nil. by intros [?|[?|[]]].
  - cbn [rolling sc_health]. rewrite lookup_insert_ne, lookup_singleton_ne by done. done.
Qed.

Lemma service_converges_witness :
  to_go rolling = 4 ∧ converged (want rolling) 2 (rounds 5 obliging (λ _, 200 * second) 0 rolling).
Proof.
  split; [vm_compute; reflexivity|].
  refine (service_converges obliging (λ _, 100 * second) (λ _, 200 * second) 5 0 rolling rolling_calm obliging_distinct
            _ obliging_unseen _ _).
  - intros k i. cbn. unfold second. lia.
  - intros k i. split; [reflexivity|]. split; [cbn; unfold second, zero_time; lia|eexists; reflexivity].
  - vm_compute; reflexivity.
Defined.

Lemma pass_settles_witness :
  ∃ s', reconcileService (obliging 0) rolling = (s', true) ∧ size s' = 3.
Proof.
  destruct (pass_settles (100 * second) (obliging 0) rolling (ca_wf _ rolling_calm)) as (s' & j & E & _).
  - intros i. cbn. unfold second. lia.
  - intros i i' id Hi Hi'. exact (proj2 (obliging_distinct 0%nat i 0%nat i' id Hi Hi')).
  - exact (obliging_unseen 0%nat (le_n 0)).
  - exists s'. split; [exact E|]. replace s' with (reconcileService (obliging 0) rolling).1 by (rewrite E; reflexivity).
    vm_compute; reflexivity.
Defined.

Lemma decide_keeps_serving_witness :
  (decide true (100 * second) rolling).1 = Some (create (want rolling) 0 None) ∧
  2 ≤ count (serving rolling) (members (decide true (100 * second) rolling).2).
Proof.
  split; [vm_compute; reflexivity|].
  refine (decide_keeps_serving true (100 * second) rolling _ (wf_ids _ (ca_wf _ rolling_calm))).
  vm_compute; discriminate.
Defined.
