(* ===== verification/ServiceWorld.v ===== *)
(** * Services under requests, passes and restarts of their store
    (internal/gateway: services.go, services_controller.go, services_store.go)

    The gateway holds each service behind a pointer (an index of [sw_heap]);
    [sw_svcs] is its map of them and [sw_store] what the store keeps. An event
    is one locked section: a request, a look, a step of a pass, or an answer
    to a create. [wrote] is whether the store took the event's write. The
    steps of one service's pass come one after another ([busy]); everything
    else interleaves. *)
From S2P Require Import Prelude GoStrings Api EgressNames PolicyEnv Spec ServiceSpec Services Rollout.

(** ** The store *)
Definition svc_key : Type := string * string.  (** tenant and name *)

Record svc_store := {
  ss_records : gmap svc_key serviceRecord;
  ss_retiring : list string
}.

Definition key_of (r : serviceRecord) : svc_key := (sr_Tenant r, sr_Name r).

Definition appendNew (l new : list string) : list string :=
  foldl (λ l id, if bool_decide (id ∈ l) then l else l ++ [id]) l new.

Definition PutServiceRetiring (r : serviceRecord) (retire : list string) (st : svc_store) : svc_store :=
  {| ss_records := <[key_of r := r]> (ss_records st); ss_retiring := appendNew (ss_retiring st) retire |}.
Definition PutService (r : serviceRecord) : svc_store → svc_store := PutServiceRetiring r [].
Definition DeleteService (k : svc_key) (retire : list string) (st : svc_store) : svc_store :=
  {| ss_records := delete k (ss_records st); ss_retiring := appendNew (ss_retiring st) retire |}.
Definition Retire (ids : list string) (st : svc_store) : svc_store :=
  {| ss_records := ss_records st; ss_retiring := appendNew (ss_retiring st) ids |}.
Definition Retired (ids : list string) (st : svc_store) : svc_store :=
  {| ss_records := ss_records st;
     ss_retiring := List.filter (λ id, negb (bool_decide (id ∈ ids))) (ss_retiring st) |}.

(** What a gateway that starts resumes: every service as recorded, none of its
    replicas checked yet. *)
Definition resume (r : serviceRecord) : service := {|
  sc_rec := r; sc_health := ∅; sc_gone := false; sc_pending := []; sc_crashes := 0;
  sc_nextCreate := zero_time; sc_rr := 0 |}.
Definition newServiceCtl (records : gmap svc_key serviceRecord) : gmap svc_key service := resume <$> records.

(** ** Terminating replicas *)

(** What is known of one sandbox to be ended: the store's answer, the node's. *)
Inductive end_answer := store_error | not_recorded | node_down | no_answer | answered (status : Z).

(** Whether it is done with: dropped from the queue. *)
Definition ended (a : end_answer) : bool :=
  match a with
  | not_recorded => true
  | answered st => (st =? 204) || (st =? 404)
  | store_error | node_down | no_answer => false
  end.
(** The node is asked only of a sandbox the store records. *)
Definition may_answer (a : end_answer) (recorded : bool) : bool :=
  match a with store_error => true | not_recorded => negb recorded | _ => recorded end.
Definition terminateReplicas (ids : list (string * end_answer)) : list string :=
  fst <$> List.filter (λ x, ended (snd x)) ids.

(** ** The world *)
Inductive doing :=
| Creating (rev : revision) (restarts : Z)
| Made (rev : revision) (restarts : Z) (id node : string) (pid : Z).

(** [sw_owned]: the sandboxes recorded as someone's, of those made here.
    [sw_seen]: every sandbox ever made. [sw_ending]: those some
    [terminateReplicas] was given. [sw_spec] is the spec each was made from. *)
Record SWorld := {
  sw_store : svc_store;
  sw_svcs : gmap svc_key nat;
  sw_heap : list service;
  sw_passes : gmap nat doing;
  sw_forgetting : gset nat;
  sw_owned : gset string;
  sw_seen : gset string;
  sw_ending : gset string;
  sw_spec : gmap string ServiceSpec
}.

Definition sw_initial : SWorld := {|
  sw_store := {| ss_records := ∅; ss_retiring := [] |}; sw_svcs := ∅; sw_heap := []; sw_passes := ∅;
  sw_forgetting := ∅; sw_owned := ∅; sw_seen := ∅; sw_ending := ∅; sw_spec := ∅ |}.

Definition w_put (l : nat) (s : service) (w : SWorld) : SWorld := {|
  sw_store := sw_store w; sw_svcs := sw_svcs w; sw_heap := <[l := s]> (sw_heap w); sw_passes := sw_passes w;
  sw_forgetting := sw_forgetting w; sw_owned := sw_owned w; sw_seen := sw_seen w; sw_ending := sw_ending w;
  sw_spec := sw_spec w |}.
(** A write the store may not take. *)
Definition w_write (wrote : bool) (f : svc_store → svc_store) (w : SWorld) : SWorld := {|
  sw_store := if wrote then f (sw_store w) else sw_store w; sw_svcs := sw_svcs w; sw_heap := sw_heap w;
  sw_passes := sw_passes w; sw_forgetting := sw_forgetting w; sw_owned := sw_owned w; sw_seen := sw_seen w;
  sw_ending := sw_ending w; sw_spec := sw_spec w |}.
Definition w_pass (f : gmap nat doing → gmap nat doing) (w : SWorld) : SWorld := {|
  sw_store := sw_store w; sw_svcs := sw_svcs w; sw_heap := sw_heap w; sw_passes := f (sw_passes w);
  sw_forgetting := sw_forgetting w; sw_owned := sw_owned w; sw_seen := sw_seen w; sw_ending := sw_ending w;
  sw_spec := sw_spec w |}.
Definition w_end (ids : list string) (w : SWorld) : SWorld := {|
  sw_store := sw_store w; sw_svcs := sw_svcs w; sw_heap := sw_heap w; sw_passes := sw_passes w;
  sw_forgetting := sw_forgetting w; sw_owned := sw_owned w; sw_seen := sw_seen w;
  sw_ending := list_to_set ids ∪ sw_ending w; sw_spec := sw_spec w |}.
Definition w_owned (f : gset string → gset string) (w : SWorld) : SWorld := {|
  sw_store := sw_store w; sw_svcs := sw_svcs w; sw_heap := sw_heap w; sw_passes := sw_passes w;
  sw_forgetting := sw_forgetting w; sw_owned := f (sw_owned w); sw_seen := sw_seen w;
  sw_ending := sw_ending w; sw_spec := sw_spec w |}.
(** A node made a sandbox for a replica. *)
Definition w_made (id : string) (sp : ServiceSpec) (w : SWorld) : SWorld := {|
  sw_store := sw_store w; sw_svcs := sw_svcs w; sw_heap := sw_heap w; sw_passes := sw_passes w;
  sw_forgetting := sw_forgetting w; sw_owned := {[id]} ∪ sw_owned w; sw_seen := {[id]} ∪ sw_seen w;
  sw_ending := sw_ending w; sw_spec := <[id := sp]> (sw_spec w) |}.
Definition w_svcs (f : gmap svc_key nat → gmap svc_key nat) (g : gset nat → gset nat) (w : SWorld) : SWorld := {|
  sw_store := sw_store w; sw_svcs := f (sw_svcs w); sw_heap := sw_heap w; sw_passes := sw_passes w;
  sw_forgetting := g (sw_forgetting w); sw_owned := sw_owned w; sw_seen := sw_seen w;
  sw_ending := sw_ending w; sw_spec := sw_spec w |}.
Definition w_add (s : service) (w : SWorld) : SWorld := {|
  sw_store := sw_store w; sw_svcs := <[key_of (sc_rec s) := length (sw_heap w)]> (sw_svcs w);
  sw_heap := sw_heap w ++ [s]; sw_passes := sw_passes w; sw_forgetting := sw_forgetting w;
  sw_owned := sw_owned w; sw_seen := sw_seen w; sw_ending := sw_ending w; sw_spec := sw_spec w |}.

(** ** Requests *)
Inductive svc_refusal :=
| no_such_service | service_exists | not_renamed | env_and_keep_env | spec_refused (e : service_error)
| secrets_or_groups | replicas_out_of_range.

Section world.
Context `{Unicode}.
Context (range_env : gmap string string → list (string * string)).

Definition check_spec (sp : ServiceSpec) (tenant : string) : result svc_refusal ServiceSpec :=
  match checkServiceSpec range_env sp tenant with Ok sp => Ok sp | Err e => Err (spec_refused e) end.

Definition set_Name (n : string) (sp : ServiceSpec) : ServiceSpec :=
  let '(Build_ServiceSpec _ im co re rs po hc en ne pl pu se) := sp in
  Build_ServiceSpec n im co re rs po hc en ne pl pu se.

(** [checks]: the secrets and groups it names are the store's. *)
Definition createService (svcs : gmap svc_key nat) (sp : ServiceSpec) (user tenant : string) (checks : bool)
    (now : Z) : result svc_refusal service :=
  sp ← check_spec sp tenant;
  reject_if (negb checks) secrets_or_groups;;
  reject_if (bool_decide (is_Some (svcs !! (tenant, sp_Name sp)))) service_exists;;
  Ok (new_service sp user tenant now).

Definition updateService (s : service) (sp : ServiceSpec) (keep_env checks : bool) (now : Z)
    : result svc_refusal service :=
  let rec := sc_rec s in
  let sp := if String.eqb (sp_Name sp) "" then set_Name (sr_Name rec) sp else sp in
  reject_if (negb (String.eqb (sp_Name sp) (sr_Name rec))) not_renamed;;
  reject_if (sc_gone s) no_such_service;;
  sp ← (if keep_env
        then reject_if (negb (bool_decide (sp_Env sp = ∅))) env_and_keep_env;; Ok (set_Env (sp_Env (sr_Spec rec)) sp)
        else Ok sp);
  sp ← check_spec sp (sr_Tenant rec);
  reject_if (negb checks) secrets_or_groups;;
  Ok (on_record (update_record sp now) s).

Definition redeployService (s : service) (checks : bool) (now : Z) : result svc_refusal service :=
  reject_if (sc_gone s) no_such_service;;
  reject_if (negb checks) secrets_or_groups;;
  Ok (on_record (redeploy_record now) s).

Definition scaleService (s : service) (n now : Z) : result svc_refusal service :=
  reject_if ((n <? 0) || (n >? MaxServiceReplicas)) replicas_out_of_range;;
  reject_if (sc_gone s) no_such_service;;
  Ok (on_record (scale_record n now) s).

(** ** Events *)
Inductive svc_event :=
| SE_create (sp : ServiceSpec) (user tenant : string) (checks : bool) (now : Z) (wrote : bool)
| SE_update (l : nat) (sp : ServiceSpec) (keep_env checks : bool) (now : Z) (wrote : bool)
| SE_redeploy (l : nat) (checks : bool) (now : Z) (wrote : bool)
| SE_scale (l : nat) (n now : Z) (wrote : bool)
| SE_delete (l : nat) (wrote : bool)
| SE_forget (l : nat)
| SE_observe (l : nat) (node_up : string → bool) (owner : string → option (option string)) (now : Z)
| SE_checked (l : nat) (id : string) (r : checkResult) (now : Z)
| SE_decide (l : nat) (active : bool) (now : Z) (wrote : bool)
| SE_answer (l : nat) (a : replica_answer) (now : Z) (wrote : bool)
| SE_record (l : nat) (now : Z) (wrote : bool)
| SE_end (id : string) (a : end_answer) (wrote : bool)
| SE_deleted (id : string).

(** A request's change to a service: made only if the store takes it. *)
Definition changed (l : nat) (r : result svc_refusal service) (wrote : bool) (w : SWorld) : SWorld :=
  match r with
  | Ok s' => if wrote then w_write true (PutService (sc_rec s')) (w_put l s' w) else w
  | Err _ => w
  end.

Definition answer_replica (l : nat) (s : service) (rev : revision) (restarts : Z) (a : replica_answer) (now : Z)
    (wrote : bool) (w : SWorld) : SWorld :=
  let fail w :=
    let '(s', put) := create_failed now rev restarts (refusedNow a) s in
    w_pass (delete l) (w_write (wrote && put) (PutService (sc_rec s')) (w_put l s' w)) in
  match a with
  | made id node pid => w_pass <[l := Made rev restarts id node pid]> (w_made id (rv_Spec rev) w)
  | not_created _ _ => fail w
  | not_started id => fail (w_end [id] (w_write wrote (Retire [id]) (w_made id (rv_Spec rev) w)))
  end.

(** The new replica joins its service, or is ended if the service is gone. *)
Definition record_replica (l : nat) (s : service) (m : replicaRecord) (now : Z) (wrote : bool) (w : SWorld)
    : SWorld :=
  if sc_gone s then w_pass (delete l) (w_end [rp_Sandbox m] (w_write wrote (Retire [rp_Sandbox m]) w))
  else
    let s' := create_recorded m now s in
    w_pass (delete l) (w_write wrote (PutService (sc_rec s')) (w_put l s' w)).

Definition decided_step (l : nat) (d : option action * service) (wrote : bool) (w : SWorld) : SWorld :=
  let '(a, s') := d in
  let w := w_put l s' w in
  match a with
  | None => w
  | Some (retire ids) => w_end ids (w_write wrote (PutServiceRetiring (sc_rec s') ids) w)
  | Some recorded => w_write wrote (PutService (sc_rec s')) w
  | Some (create rev n _) => w_pass <[l := Creating rev n]> w
  end.

Definition svc_step (w : SWorld) (e : svc_event) : option SWorld :=
  match e with
  | SE_create sp user tenant checks now wrote =>
      match createService (sw_svcs w) sp user tenant checks now with
      | Ok s => Some (if wrote then w_write true (PutService (sc_rec s)) (w_add s w) else w)
      | Err _ => Some w
      end
  | SE_update l sp keep checks now wrote =>
      s ← sw_heap w !! l; Some (changed l (updateService s sp keep checks now) wrote w)
  | SE_redeploy l checks now wrote =>
      s ← sw_heap w !! l; Some (changed l (redeployService s checks now) wrote w)
  | SE_scale l n now wrote =>
      s ← sw_heap w !! l; Some (changed l (scaleService s n now) wrote w)
  | SE_delete l wrote =>
      s ← sw_heap w !! l;
      Some (if sc_gone s || negb wrote then w
            else w_svcs id (union {[l]})
              (w_end (ids (members s))
                 (w_write true (DeleteService (key_of (sc_rec s)) (ids (members s))) (w_put l (on_gone s) w))))
  | SE_forget l =>
      s ← sw_heap w !! l;
      if bool_decide (l ∈ sw_forgetting w)
      then Some (w_svcs (delete (key_of (sc_rec s))) (λ f, f ∖ {[l]}) w) else None
  | SE_observe l node_up owner now => s ← sw_heap w !! l; Some (w_put l (observeService node_up owner now s) w)
  | SE_checked l id r now => s ← sw_heap w !! l; Some (w_put l (checked id r now s) w)
  | SE_decide l active now wrote =>
      s ← sw_heap w !! l;
      match sw_passes w !! l with
      | Some _ => None
      | None => Some (decided_step l (decide active now s) wrote w)
      end
  | SE_answer l a now wrote =>
      s ← sw_heap w !! l;
      match sw_passes w !! l with
      | Some (Creating rev n) =>
          match a with
          | made id _ _ | not_started id => if bool_decide (id ∈ sw_seen w) then None
                                            else Some (answer_replica l s rev n a now wrote w)
          | _ => Some (answer_replica l s rev n a now wrote w)
          end
      | _ => None
      end
  | SE_record l now wrote =>
      s ← sw_heap w !! l;
      match sw_passes w !! l with
      | Some (Made rev n id node pid) => Some (record_replica l s (new_replica rev n id node pid now) now wrote w)
      | _ => None
      end
  | SE_end id a wrote =>
      if (bool_decide (id ∈ sw_ending w) || bool_decide (id ∈ ss_retiring (sw_store w))) &&
         may_answer a (bool_decide (id ∈ sw_owned w))
      then Some (let done := terminateReplicas [(id, a)] in
                 w_owned (λ o, o ∖ list_to_set done) (w_write wrote (Retired done) w))
      else None
  | SE_deleted id => Some (w_owned (λ o, o ∖ {[id]}) w)
  end.

Fixpoint svc_run (w : SWorld) (es : list svc_event) : option SWorld :=
  match es with
  | [] => Some w
  | e :: es => w' ← svc_step w e; svc_run w' es
  end.
End world.

(** ** A service through each kind of event *)
Record svc_ok (n : Z) (made : gmap string ServiceSpec) (s : service) : Prop := {
  so_wf : wf s;
  so_rev : sr_Revision (sc_rec s) ≤ n;
  so_spec : 1 ≤ failures_allowed (sr_Spec (sc_rec s));
  so_made : ∀ m, m ∈ members s → made !! rp_Sandbox m = Some (specOf (sc_rec s) (rp_Rev m))
}.

Lemma svc_ok_rec n made s s' : sc_rec s' = sc_rec s → svc_ok n made s → svc_ok n made s'.
Proof.
  intros E [[H1 H2 H3 H4 H5 H6 H7] Hr Hs Hm]. unfold desired, size, members in *.
  split; [split; unfold desired, size, members|..]; rewrite ?E; try done.
  unfold members. by rewrite E.
Qed.

Lemma svc_ok_more n n' made s : n ≤ n' → svc_ok n made s → svc_ok n' made s.
Proof. intros Hn [? ? ? ?]. split; try done. lia. Qed.

Lemma svc_ok_spec n made s id sp :
  (id ∉ ids (members s)) → svc_ok n made s → svc_ok n (<[id := sp]> made) s.
Proof.
  intros Hid [? ? ? Hm]. split; try done. intros m Hin. rewrite lookup_insert_ne; [by apply Hm|].
  intros ->. apply Hid, list_elem_of_fmap. eauto.
Qed.

Lemma svc_ok_shrinks n made s s' :
  svc_ok n made s → shrinks (sc_rec s) (sc_rec s') → wf s' → (∀ m, m ∈ members s' → m ∈ members s) →
  svc_ok n made s'.
Proof.
  intros [Hwf Hr Hs Hm] Hsh Hwf' Hsub. split; [done| | |].
  - by rewrite (sh_revision _ _ Hsh).
  - by rewrite (sh_spec _ _ Hsh).
  - intros m Hin. rewrite (shrinks_specOf s); [by apply Hm, Hsub|done|done|done].
Qed.

Lemma observeService_rec up owner now s : sc_rec (observeService up owner now s) = sc_rec s.
Proof.
  unfold observeService. destruct (sc_gone s); [done|].
  assert (∀ (f : service → replicaRecord → replicaHealth) ms s0,
    sc_rec (foldl (λ s' m, on_health <[rp_Sandbox m := f s' m]> s') s0 ms) = sc_rec s0) as Hf; [|apply Hf].
  intros f ms. induction ms as [|m ms IH]; intros s0; [done|]. cbn [foldl]. by rewrite IH.
Qed.

Lemma checked_rec id r now s : sc_rec (checked id r now s) = sc_rec s.
Proof. unfold checked. destruct (sc_health s !! id), (hl_healthy _); done. Qed.

Lemma observeService_gone up owner now s : sc_gone (observeService up owner now s) = sc_gone s.
Proof.
  unfold observeService. destruct (sc_gone s) eqn:E; [done|].
  assert (∀ (f : service → replicaRecord → replicaHealth) ms s0,
    sc_gone (foldl (λ s' m, on_health <[rp_Sandbox m := f s' m]> s') s0 ms) = sc_gone s0) as Hf; [|by rewrite Hf].
  intros f ms. induction ms as [|m ms IH]; intros s0; [done|]. cbn [foldl]. by rewrite IH.
Qed.

Lemma checked_gone id r now s : sc_gone (checked id r now s) = sc_gone s.
Proof. unfold checked. destruct (sc_health s !! id), (hl_healthy _); done. Qed.

Lemma decide_svc_ok n made active now s : svc_ok n made s → svc_ok n made (decide active now s).2.
Proof.
  intros Hok. pose proof (so_wf _ _ _ Hok) as Hwf.
  apply (svc_ok_shrinks n made s); [done|by apply decide_shrinks|by apply decide_wf|].
  intros m Hm. eapply elem_of_submseteq; [done|]. by apply sublist_submseteq, decide_members.
Qed.

Lemma create_failed_svc_ok n made now rev k refused s :
  svc_ok n made s → svc_ok n made (create_failed now rev k refused s).1.
Proof.
  intros Hok. pose proof (so_wf _ _ _ Hok) as Hwf.
  destruct (create_failed_same now rev k refused s) as (Em & _ & _ & Hsh & _).
  apply (svc_ok_shrinks n made s); [done|by apply Hsh, wf_known| |by rewrite Em].
  apply (wf_shrinks s); [done|by apply Hsh, wf_known|unfold size; rewrite Em; apply Hwf|rewrite Em; apply Hwf].
Qed.

Lemma shrinks_gone s : known (sc_rec s) → shrinks (sc_rec s) (sc_rec (on_gone s)).
Proof. intros Hk. cbn. apply shrinks_members; [by apply shrinks_refl|]. by intros m ?%not_elem_of_nil. Qed.

Lemma members_gone s : members (on_gone s) = [].
Proof. unfold members. cbn. by destruct (sc_rec s). Qed.

Lemma gone_svc_ok n made s : svc_ok n made s → svc_ok n made (on_gone s).
Proof.
  intros Hok. pose proof (so_wf _ _ _ Hok) as Hwf. pose proof (shrinks_gone s (wf_known _ Hwf)) as Hsh.
  apply (svc_ok_shrinks n made s); [done|done| |].
  - apply (wf_shrinks s); [done|done| |]; unfold size; rewrite members_gone; [done|apply NoDup_nil_2].
  - rewrite members_gone. by intros m ?%not_elem_of_nil.
Qed.

Lemma record_svc_ok n made s rev k id node pid now :
  svc_ok n made s → rev ∈ revs (sc_rec s) → size s ≤ MaxServiceReplicas → (id ∉ ids (members s)) →
  made !! id = Some (rv_Spec rev) →
  svc_ok n made (create_recorded (new_replica rev k id node pid now) now s).
Proof.
  intros Hok Hrev Hsz Hid Hmade. pose proof (so_wf _ _ _ Hok) as Hwf. set (m := new_replica rev k id node pid now).
  assert (shrinks (sc_rec s) (sc_rec (create_recorded m now s))) as Hsh.
  { apply shrinks_create_recorded; [apply Hwf|by exists rev]. }
  assert (wf (create_recorded m now s)) as Hwf'.
  { apply (wf_shrinks s); [done|done| |].
    - unfold size in *. rewrite members_create_recorded, length_app. cbn. lia.
    - unfold ids. rewrite members_create_recorded, fmap_app. apply NoDup_app.
      split_and!; [apply Hwf| |apply NoDup_singleton]. intros x Hx Hx'%list_elem_of_singleton. by subst. }
  split; [done| | |].
  - rewrite (sh_revision _ _ Hsh). apply Hok.
  - rewrite (sh_spec _ _ Hsh). apply Hok.
  - intros x Hx. rewrite (shrinks_specOf s); [|done|done|done]. rewrite members_create_recorded in Hx.
    apply elem_of_app in Hx as [Hx|Hx%list_elem_of_singleton]; [by apply Hok|]. subst x. cbn.
    rewrite Hmade. f_equal. symmetry. apply (specOf_known (sc_rec s) rev); [apply Hwf|done].
Qed.

(** ** Requests *)
Section requests.
Context `{Unicode} (range_env : gmap string string → list (string * string)).

Lemma check_spec_ok sp tenant sp' : check_spec range_env sp tenant = Ok sp' →
  0 ≤ sp_Replicas sp' ≤ MaxServiceReplicas ∧ 1 ≤ failures_allowed sp' ∧ sp_Name sp' = sp_Name sp.
Proof.
  unfold check_spec. destruct (checkServiceSpec range_env sp tenant) as [x|e] eqn:E; [|done].
  intros [= <-]. unfold checkServiceSpec in E. rewrite !guard_ok in E. destruct E as (_ & Hr & _ & _ & _ & E).
  apply bind_ok in E as (hc & Hh & E). apply bind_ok in E as ([] & _ & E). rewrite !guard_ok in E.
  destruct E as (_ & _ & _ & _ & E). apply bind_ok in E as ([] & _ & [= <-]). destruct sp as [nm im co re rs po hc0 en ne pl pu se].
  cbn in *. split; [lia|]. split; [|done]. unfold failures_allowed. cbn.
  destruct hc0 as [hc0|]; [|by injection Hh as <-].
  apply bind_ok in Hh as (hc' & Hh & [= <-]). unfold check_health in Hh. rewrite !guard_ok in Hh.
  destruct Hh as (_ & _ & _ & _ & _ & _ & Hf & [= <-]). cbn. lia.
Qed.

Lemma specOf_grows s r' m :
  wf s → (∀ o, o ∈ revs (sc_rec s) → o ∈ revs r') → NoDup (rv_Rev <$> revs r') → m ∈ members s →
  specOf r' (rp_Rev m) = specOf (sc_rec s) (rp_Rev m).
Proof.
  intros Hwf Hsub Hnd Hm. destruct (wf_known _ Hwf m Hm) as (o & Ho & <-).
  rewrite !specOf_known; [done|by apply wf_revs|done|done|by apply Hsub].
Qed.

(** What a request does to a record: its replicas stay, its revisions too, and
    at most one is added. *)
Record request_ok (n : Z) (r r' : serviceRecord) : Prop := {
  rq_members : sr_Members r' = sr_Members r;
  rq_key : key_of r' = key_of r;
  rq_revs : ∀ o, o ∈ revs r → o ∈ revs r';
  rq_nodup : NoDup (rv_Rev <$> revs r');
  rq_bounds : ∀ o, o ∈ revs r' → 1 ≤ rv_Rev o ≤ sr_Revision r';
  rq_failures : ∀ o, o ∈ revs r' → 1 ≤ failures_allowed (rv_Spec o);
  rq_rev : sr_Revision r' ≤ n + 1;
  rq_replicas : 0 ≤ sp_Replicas (sr_Spec r') ≤ MaxServiceReplicas;
  rq_spec : 1 ≤ failures_allowed (sr_Spec r')
}.

Lemma request_svc_ok n made s r' :
  svc_ok n made s → request_ok n (sc_rec s) r' → svc_ok (n + 1) made (on_record (λ _, r') s).
Proof.
  intros [Hwf Hr Hs Hm] [Qm Qk Qr Qn Qb Qf Qv Qp Qs].
  assert (members (on_record (λ _, r') s) = members s) as Em by exact Qm.
  split; [split|..]; try done.
  - unfold size. rewrite Em. apply Hwf.
  - rewrite Em. apply Hwf.
  - intros m Hin. cbn in Hin. rewrite Qm in Hin. destruct (wf_known _ Hwf m Hin) as (o & Ho & E).
    exists o. split; [by apply Qr|done].
  - intros m Hin. rewrite Em in Hin. cbn. rewrite (specOf_grows s); [by apply Hm|done..].
Qed.

Lemma wf_request n made s : svc_ok n made s → request_ok n (sc_rec s) (sc_rec s).
Proof. intros [[? ? ? ? ? ? ?] ? ? ?]. split; try done; lia. Qed.

(** Changing the spec and the time leaves the rest. *)
Lemma request_spec n r r' sp now :
  request_ok n r r' → 0 ≤ sp_Replicas sp ≤ MaxServiceReplicas → 1 ≤ failures_allowed sp →
  request_ok n r (set_updated now (set_spec sp r')).
Proof. intros [? ? ? ? ? ? ? ? ?] ? ?. by destruct r'. Qed.

Lemma start_rollout_fields sp r :
  revs (start_rollout sp r) ≡ₚ {| rv_Rev := int_add (sr_Revision r) 1; rv_Spec := sp |} :: revs r ∧
  sr_Revision (start_rollout sp r) = int_add (sr_Revision r) 1 ∧
  sr_Members (start_rollout sp r) = sr_Members r ∧ key_of (start_rollout sp r) = key_of r ∧
  sr_Spec (start_rollout sp r) = sr_Spec r.
Proof.
  destruct r as [nm us te spec rev se ta ol ro ms rs cr up]. split_and!; try done.
  unfold start_rollout, revs. cbn. destruct ta as [t|]; cbn; [|apply perm_swap].
  rewrite (Permutation_app_comm ol [t]). cbn. solve_Permutation.
Qed.

Lemma request_rollout n made s sp :
  svc_ok n made s → n < max_int64 → 1 ≤ failures_allowed sp → request_ok n (sc_rec s) (start_rollout sp (sc_rec s)).
Proof.
  intros [Hwf Hr Hs Hm] Hn Hsp. destruct Hwf as [Wd _ _ Wr Wb Wk Wf]. unfold desired in Wd.
  destruct (start_rollout_fields sp (sc_rec s)) as (Hp & Er & Em & Ek & Es). revert Hp Er Em Ek Es.
  generalize (start_rollout sp (sc_rec s)). intros r' Hp Er Em Ek Es.
  assert (1 ≤ sr_Revision (sc_rec s)) as Hrev
    by (apply (Z.le_trans _ (rv_Rev (sr_Serving (sc_rec s)))); apply Wb; left).
  assert (int_add (sr_Revision (sc_rec s)) 1 = sr_Revision (sc_rec s) + 1) as Ei.
  { unfold int_add. apply wrap64_id. unfold in_int64, min_int64, max_int64 in *. lia. }
  rewrite Ei in *. split; rewrite ?Es, ?Er; try done.
  - intros o Ho. rewrite Hp. by right.
  - rewrite Hp. cbn [fmap list_fmap]. apply NoDup_cons. split; [|done].
    intros (o & E & Ho)%list_elem_of_fmap. specialize (Wb o Ho). cbn in E. lia.
  - intros o Ho. rewrite Hp in Ho. apply elem_of_cons in Ho as [->|Ho]; [cbn; lia|].
    specialize (Wb o Ho). lia.
  - intros o Ho. rewrite Hp in Ho. apply elem_of_cons in Ho as [->|Ho]; [done|by apply Wf].
  - lia.
Qed.

Lemma updateService_ok n made s sp keep checks now s' :
  svc_ok n made s → n < max_int64 → updateService range_env s sp keep checks now = Ok s' →
  sc_gone s = false ∧ ∃ r', s' = on_record (λ _, r') s ∧ request_ok n (sc_rec s) r'.
Proof.
  intros Hok Hn. unfold updateService. rewrite !guard_ok. intros (_ & Hg & Hq).
  apply bind_ok in Hq as (sp1 & _ & Hq). apply bind_ok in Hq as (sp2 & (Hr & Hf & _)%check_spec_ok & Hq).
  apply guard_ok in Hq as [_ [= <-]]. split; [done|]. exists (update_record sp2 now (sc_rec s)). split; [done|].
  unfold update_record. destruct (same_shape _ _); apply request_spec; try done.
  - by eapply wf_request.
  - by eapply request_rollout.
Qed.

Lemma redeployService_ok n made s checks now s' :
  svc_ok n made s → n < max_int64 → redeployService s checks now = Ok s' →
  sc_gone s = false ∧ ∃ r', s' = on_record (λ _, r') s ∧ request_ok n (sc_rec s) r'.
Proof.
  intros Hok Hn. unfold redeployService. rewrite !guard_ok. intros (Hg & _ & [= <-]). split; [done|].
  exists (redeploy_record now (sc_rec s)). split; [done|]. unfold redeploy_record.
  pose proof (request_rollout n made s (sr_Spec (sc_rec s)) Hok Hn (so_spec _ _ _ Hok)) as [].
  generalize dependent (start_rollout (sr_Spec (sc_rec s)) (sc_rec s)). intros r' **. by destruct r'.
Qed.

Lemma scaleService_ok n made s k now s' :
  svc_ok n made s → scaleService s k now = Ok s' →
  sc_gone s = false ∧ ∃ r', s' = on_record (λ _, r') s ∧ request_ok n (sc_rec s) r'.
Proof.
  intros Hok. unfold scaleService. rewrite !guard_ok. intros (Hk & Hg & [= <-]). split; [done|].
  exists (scale_record k now (sc_rec s)). split; [done|]. unfold scale_record.
  apply request_spec; [by eapply wf_request| |].
  - destruct (sr_Spec (sc_rec s)). cbn. lia.
  - pose proof (so_spec _ _ _ Hok). unfold failures_allowed in *. by destruct (sr_Spec (sc_rec s)).
Qed.

Lemma createService_ok svcs sp user tenant checks now s :
  createService range_env svcs sp user tenant checks now = Ok s →
  svc_ok 1 ∅ s ∧ svcs !! key_of (sc_rec s) = None ∧ members s = [] ∧ sc_gone s = false.
Proof.
  unfold createService. intros Hq. apply bind_ok in Hq as (sp' & (Hr & Hf & _)%check_spec_ok & Hq).
  rewrite !guard_ok in Hq. destruct Hq as (_ & Hfree & [= <-]). apply bool_decide_eq_false in Hfree.
  split; [|split_and!; [by apply eq_None_not_Some|done|done]].
  split; [split|..]; try done.
  - apply NoDup_nil_2.
  - apply NoDup_singleton.
  - intros o ->%list_elem_of_singleton. cbn. lia.
  - by intros m ?%not_elem_of_nil.
  - intros o ->%list_elem_of_singleton. done.
  - by intros m ?%not_elem_of_nil.
Qed.
End requests.

(** ** Where a replica's sandbox may be *)
Inductive place := in_service (l : nat) | in_pass (l : nat) | in_queue.

Definition at_ (w : SWorld) (id : string) (p : place) : Prop :=
  match p with
  | in_service l => ∃ s, sw_heap w !! l = Some s ∧ id ∈ ids (members s)
  | in_pass l => ∃ rev n node pid, sw_passes w !! l = Some (Made rev n id node pid)
  | in_queue => id ∈ sw_ending w ∨ id ∈ ss_retiring (sw_store w)
  end.

Definition rev_of (d : doing) : revision := match d with Creating rev _ | Made rev _ _ _ _ => rev end.

Record SInv (n : Z) (w : SWorld) : Prop := {
  si_ok : ∀ l s, sw_heap w !! l = Some s → svc_ok n (sw_spec w) s;
  si_doing : ∀ l d, sw_passes w !! l = Some d →
    ∃ s, sw_heap w !! l = Some s ∧ rev_of d ∈ revs (sc_rec s) ∧ size s ≤ MaxServiceReplicas;
  si_made : ∀ l rev k id node pid, sw_passes w !! l = Some (Made rev k id node pid) →
    sw_spec w !! id = Some (rv_Spec rev);
  si_one : ∀ id p p', at_ w id p → at_ w id p' → p = p';
  si_seen : ∀ id p, at_ w id p → id ∈ sw_seen w
}.

Lemma elem_of_appendNew l new id : id ∈ appendNew l new ↔ id ∈ l ∨ id ∈ new.
Proof.
  unfold appendNew. revert l. induction new as [|x new IH]; intros l; cbn [foldl].
  { rewrite elem_of_nil. tauto. }
  rewrite IH. case_bool_decide; rewrite elem_of_cons; [|rewrite elem_of_app, list_elem_of_singleton; tauto].
  split; [tauto|]. intros [?|[->|?]]; auto.
Qed.

Lemma appendNew_nil l : appendNew l [] = l.
Proof. done. Qed.

Lemma retiring_write (wrote : bool) ids st x :
  x ∈ ss_retiring (if wrote then Retire ids st else st) → x ∈ ss_retiring st ∨ x ∈ ids.
Proof. destruct wrote; [|by left]. intros Hx. by apply elem_of_appendNew. Qed.

(** A sandbox stays where it is, or is now in one place only. *)
Lemma places_step n w w' :
  SInv n w → sw_seen w ⊆ sw_seen w' →
  (∀ id, (∀ p, at_ w' id p → at_ w id p) ∨ (id ∈ sw_seen w' ∧ ∃ q, ∀ p, at_ w' id p → p = q)) →
  (∀ id p p', at_ w' id p → at_ w' id p' → p = p') ∧ (∀ id p, at_ w' id p → id ∈ sw_seen w').
Proof.
  intros Hinv Hsub Hid. split.
  - intros id p p' Hp Hp'. destruct (Hid id) as [Hst|(_ & q & Hq)].
    + by apply (si_one _ _ Hinv id); apply Hst.
    + by rewrite (Hq p Hp), (Hq p' Hp').
  - intros id p Hp. destruct (Hid id) as [Hst|(Hs & _)]; [|done].
    by apply Hsub, (si_seen _ _ Hinv id p), Hst.
Qed.

(** One service changes, and maybe lets replicas go. *)
Lemma SInv_put n n' w w' l s s' (rids : list string) :
  SInv n w → n ≤ n' → sw_heap w !! l = Some s → sw_heap w' = <[l := s']> (sw_heap w) →
  sw_spec w' = sw_spec w → sw_seen w' = sw_seen w → svc_ok n' (sw_spec w) s' →
  (∀ k d, sw_passes w' !! k = Some d →
     (sw_passes w !! k = Some d ∧ (k = l → rev_of d ∈ revs (sc_rec s') ∧ size s' ≤ MaxServiceReplicas)) ∨
     (k = l ∧ ∃ rev m, d = Creating rev m ∧ rev ∈ revs (sc_rec s') ∧ size s' ≤ MaxServiceReplicas)) →
  (∀ id, id ∈ ids (members s') → id ∈ ids (members s)) →
  (∀ id, at_ w' id in_queue → at_ w id in_queue ∨ id ∈ rids) →
  (∀ id, id ∈ rids → id ∈ ids (members s) ∧ (id ∉ ids (members s'))) →
  SInv n' w'.
Proof.
  intros Hinv Hn Hs Hh Hsp Hseen Hok Hpass Hsub Hq Hrids.
  assert (∀ k x, sw_heap w' !! k = Some x → (k = l ∧ x = s') ∨ (k ≠ l ∧ sw_heap w !! k = Some x)) as Hheap.
  { intros k x Hx. rewrite Hh in Hx. destruct (base.decide (k = l)) as [->|Hne].
    - rewrite list_lookup_insert_eq in Hx; [|by eapply lookup_lt_Some]. left. by simplify_eq.
    - rewrite list_lookup_insert_ne in Hx by done. by right. }
  destruct (places_step n w w' Hinv) as [Hone Hse]; [by rewrite Hseen| |split; [| | |exact Hone|exact Hse]].
  - intros id. destruct (base.decide (id ∈ rids)) as [Hin|Hin].
    + right. destruct (Hrids id Hin) as [Hm Hm'].
      assert (at_ w id (in_service l)) as Hat by (exists s; done). split.
      { rewrite Hseen. by apply (si_seen _ _ Hinv id (in_service l)). }
      exists in_queue. intros [k|k|] Hp; [exfalso..|done].
      * destruct Hp as (x & Hx & Hi). destruct (Hheap k x Hx) as [[-> ->]|[Hne Hx']]; [done|].
        assert (at_ w id (in_service k)) as Hat' by (exists x; done).
        by pose proof (si_one _ _ Hinv id _ _ Hat Hat') as [= ->].
      * destruct Hp as (rev & m & node & pid & Hp). destruct (Hpass _ _ Hp) as [[Hp' _]|(_ & rev' & m' & E & _)]; [|done].
        assert (at_ w id (in_pass k)) as Hat' by (exists rev, m, node, pid; done).
        by pose proof (si_one _ _ Hinv id _ _ Hat Hat').
    + left. intros [k|k|] Hp.
      * destruct Hp as (x & Hx & Hi). destruct (Hheap k x Hx) as [[-> ->]|[Hne Hx']]; [exists s; auto|exists x; auto].
      * destruct Hp as (rev & m & node & pid & Hp). destruct (Hpass _ _ Hp) as [[Hp' _]|(_ & rev' & m' & E & _)]; [|done].
        exists rev, m, node, pid. done.
      * by destruct (Hq id Hp).
  - intros k x Hx. rewrite Hsp. destruct (Hheap k x Hx) as [[-> ->]|[Hne Hx']]; [done|].
    apply (svc_ok_more n); [done|]. by eapply si_ok.
  - intros k d Hd. destruct (base.decide (k = l)) as [->|Hne].
    + exists s'. split; [rewrite Hh; apply list_lookup_insert_eq; by eapply lookup_lt_Some|].
      destruct (Hpass _ _ Hd) as [[_ Hr]|(_ & rev & m & -> & Hr)]; [by apply Hr|done].
    + destruct (Hpass _ _ Hd) as [[Hp _]|(E & _)]; [|done].
      destruct (si_doing _ _ Hinv k d Hp) as (x & Hx & Hr). exists x. split; [|done].
      by rewrite Hh, list_lookup_insert_ne.
  - intros k rev m id node pid Hp. rewrite Hsp.
    destruct (Hpass _ _ Hp) as [[Hp' _]|(_ & ? & ? & ? & _)]; [|done]. by eapply si_made.
Qed.

(** Only the store's records and what is owned change, or the queue shrinks. *)
Lemma SInv_frame n n' w w' :
  SInv n w → n ≤ n' → sw_heap w' = sw_heap w → sw_passes w' = sw_passes w → sw_spec w' = sw_spec w →
  sw_seen w' = sw_seen w → (∀ id, at_ w' id in_queue → at_ w id in_queue) → SInv n' w'.
Proof.
  intros Hinv Hn Hh Hp Hsp Hseen Hq.
  destruct (places_step n w w' Hinv) as [Hone Hse]; [by rewrite Hseen| |split; [| | |exact Hone|exact Hse]].
  - intros id. left. intros [k|k|]; cbn; [by rewrite Hh|by rewrite Hp|apply Hq].
  - intros k x Hx. rewrite Hsp. apply (svc_ok_more n); [done|]. rewrite Hh in Hx. by eapply si_ok.
  - rewrite Hp, Hh. apply (si_doing _ _ Hinv).
  - rewrite Hp, Hsp. apply (si_made _ _ Hinv).
Qed.

Lemma SInv_more n n' w : SInv n w → n ≤ n' → SInv n' w.
Proof. intros Hi Hn. by apply (SInv_frame n n' w w). Qed.

Lemma not_seen n w id : SInv n w → (id ∉ sw_seen w) → ∀ p, ¬ at_ w id p.
Proof. intros Hinv Hid p Hp. apply Hid. by apply (si_seen _ _ Hinv id p). Qed.

Lemma not_member n w id l s : SInv n w → (id ∉ sw_seen w) → sw_heap w !! l = Some s → id ∉ ids (members s).
Proof. intros Hinv Hid Hs Hin. apply (not_seen n w id Hinv Hid (in_service l)). by exists s. Qed.

Lemma SInv_made n w l rev k id node pid :
  SInv n w → sw_passes w !! l = Some (Creating rev k) → (id ∉ sw_seen w) →
  SInv n (w_pass <[l := Made rev k id node pid]> (w_made id (rv_Spec rev) w)).
Proof.
  intros Hinv Hl Hid. set (w' := w_pass _ _).
  destruct (places_step n w w' Hinv) as [Hone Hse]; [cbn; set_solver| |split; [| | |exact Hone|exact Hse]].
  - intros x. destruct (base.decide (x = id)) as [->|Hne].
    + right. split; [cbn; set_solver|]. exists (in_pass l). intros [j|j|] Hp.
      * by destruct (not_seen n w id Hinv Hid (in_service j)).
      * destruct Hp as (r & m & nd & pd & Hp). cbn in Hp. apply lookup_insert_Some in Hp as [[-> _]|[_ Hp]]; [done|].
        destruct (not_seen n w id Hinv Hid (in_pass j)). by exists r, m, nd, pd.
      * by destruct (not_seen n w id Hinv Hid in_queue).
    + left. intros [j|j|] Hp; [done| |done]. destruct Hp as (r & m & nd & pd & Hp). cbn in Hp.
      apply lookup_insert_Some in Hp as [[_ E]|[_ Hp]]; [by injection E as _ _ E|]. by exists r, m, nd, pd.
  - intros j x Hx. cbn. apply svc_ok_spec; [by eapply not_member|]. by eapply si_ok.
  - intros j d Hd. cbn in Hd. apply lookup_insert_Some in Hd as [[<- <-]|[_ Hd]]; [|exact (si_doing _ _ Hinv j d Hd)].
    exact (si_doing _ _ Hinv l _ Hl).
  - intros j r m x nd pd Hd. cbn in Hd |- *. apply lookup_insert_Some in Hd as [[_ [= -> _ -> _ _]]|[_ Hd]].
    + by rewrite lookup_insert_eq.
    + rewrite lookup_insert_ne; [by eapply si_made|]. intros ->.
      apply (not_seen n w x Hinv Hid (in_pass j)). by exists r, m, nd, pd.
Qed.

(** A sandbox whose command did not start is ended. *)
Lemma SInv_unstarted n w id sp wrote :
  SInv n w → (id ∉ sw_seen w) → SInv n (w_end [id] (w_write wrote (Retire [id]) (w_made id sp w))).
Proof.
  intros Hinv Hid. set (w' := w_end _ _).
  destruct (places_step n w w' Hinv) as [Hone Hse]; [cbn; set_solver| |split; [| | |exact Hone|exact Hse]].
  - intros x. destruct (base.decide (x = id)) as [->|Hne].
    + right. split; [cbn; set_solver|]. exists in_queue. intros [j|j|] Hp; [exfalso..|done].
      * by apply (not_seen n w id Hinv Hid (in_service j)).
      * by apply (not_seen n w id Hinv Hid (in_pass j)).
    + left. intros [j|j|] Hp; [done|done|]. destruct Hp as [Hp|Hp]; [left; cbn in Hp; set_solver|].
      right. apply retiring_write in Hp as [?|?%list_elem_of_singleton]; done.
  - intros j x Hx. cbn. apply svc_ok_spec; [by eapply not_member|]. by eapply si_ok.
  - apply (si_doing _ _ Hinv).
  - intros j r m x nd pd Hd. cbn in Hd |- *. rewrite lookup_insert_ne; [by eapply si_made|]. intros ->.
    apply (not_seen n w x Hinv Hid (in_pass j)). by exists r, m, nd, pd.
Qed.

(** A replica made for a service that is gone is ended. *)
Lemma SInv_orphan n w l rev k id node pid wrote :
  SInv n w → sw_passes w !! l = Some (Made rev k id node pid) →
  SInv n (w_pass (delete l) (w_end [id] (w_write wrote (Retire [id]) w))).
Proof.
  intros Hinv Hl. set (w' := w_pass _ _). assert (at_ w id (in_pass l)) as Hat by (exists rev, k, node, pid; done).
  assert (∀ j d, sw_passes w' !! j = Some d → sw_passes w !! j = Some d ∧ j ≠ l) as Hp'.
  { intros j d Hd. cbn in Hd. apply lookup_delete_Some in Hd as [? ?]. done. }
  destruct (places_step n w w' Hinv) as [Hone Hse]; [done| |split; [| | |exact Hone|exact Hse]].
  - intros x. destruct (base.decide (x = id)) as [->|Hne].
    + right. split; [by eapply (si_seen n w)|]. exists in_queue. intros [j|j|] Hp; [exfalso..|done].
      * by pose proof (si_one _ _ Hinv id _ _ Hat (Hp : at_ w id (in_service j))).
      * destruct Hp as (r & m & nd & pd & Hp). destruct (Hp' _ _ Hp) as [Hp'' Hj].
        assert (at_ w id (in_pass j)) as Hat' by (exists r, m, nd, pd; done).
        by pose proof (si_one _ _ Hinv id _ _ Hat Hat') as [= ->].
    + left. intros [j|j|] Hp; [done| |].
      * destruct Hp as (r & m & nd & pd & Hp). destruct (Hp' _ _ Hp) as [Hp'' Hj]. by exists r, m, nd, pd.
      * destruct Hp as [Hp|Hp]; [left; cbn in Hp; set_solver|].
        right. apply retiring_write in Hp as [?|?%list_elem_of_singleton]; done.
  - apply (si_ok _ _ Hinv).
  - intros j d Hd. apply (si_doing _ _ Hinv). by apply Hp'.
  - intros j r m x nd pd Hd. apply (si_made _ _ Hinv j r m x nd pd). by apply Hp'.
Qed.

(** A replica made joins its service. *)
Lemma SInv_join n w l s rev k id node pid now wrote :
  SInv n w → sw_heap w !! l = Some s → sw_passes w !! l = Some (Made rev k id node pid) →
  let s' := create_recorded (new_replica rev k id node pid now) now s in
  SInv n (w_pass (delete l) (w_write wrote (PutService (sc_rec s')) (w_put l s' w))).
Proof.
  intros Hinv Hs Hl s'. set (w' := w_pass _ _). assert (at_ w id (in_pass l)) as Hat by (exists rev, k, node, pid; done).
  assert (ids (members s') = ids (members s) ++ [id]) as Em
    by (unfold s', ids; by rewrite members_create_recorded, fmap_app).
  assert (∀ j d, sw_passes w' !! j = Some d → sw_passes w !! j = Some d ∧ j ≠ l) as Hp'.
  { intros j d Hd. cbn in Hd. apply lookup_delete_Some in Hd as [? ?]. done. }
  assert (∀ j x, sw_heap w' !! j = Some x → (j = l ∧ x = s') ∨ (j ≠ l ∧ sw_heap w !! j = Some x)) as Hheap.
  { intros j x Hx. cbn in Hx. destruct (base.decide (j = l)) as [->|Hne].
    - rewrite list_lookup_insert_eq in Hx; [|by eapply lookup_lt_Some]. left. by simplify_eq.
    - rewrite list_lookup_insert_ne in Hx by done. by right. }
  assert (id ∉ ids (members s)) as Hno.
  { intros Hin. assert (at_ w id (in_service l)) as Hat' by (exists s; done).
    by pose proof (si_one _ _ Hinv id _ _ Hat Hat'). }
  assert (∀ x, at_ w' x in_queue → at_ w x in_queue) as Hq.
  { intros x [Hp|Hp]; cbn in Hp; [by left|]. right. by destruct wrote. }
  destruct (places_step n w w' Hinv) as [Hone Hse]; [done| |split; [| | |exact Hone|exact Hse]].
  - intros x. destruct (base.decide (x = id)) as [->|Hne].
    + right. split; [by eapply (si_seen n w)|]. exists (in_service l). intros [j|j|] Hp; [|exfalso..].
      * destruct Hp as (y & Hy & Hi). destruct (Hheap j y Hy) as [[-> _]|[Hj Hy']]; [done|].
        assert (at_ w id (in_service j)) as Hat' by (exists y; done).
        by pose proof (si_one _ _ Hinv id _ _ Hat Hat').
      * destruct Hp as (r & m & nd & pd & Hp). destruct (Hp' _ _ Hp) as [Hp'' Hj].
        assert (at_ w id (in_pass j)) as Hat' by (exists r, m, nd, pd; done).
        by pose proof (si_one _ _ Hinv id _ _ Hat Hat') as [= ->].
      * by pose proof (si_one _ _ Hinv id _ _ Hat (Hq _ Hp)).
    + left. intros [j|j|] Hp; [| |by apply Hq].
      * destruct Hp as (y & Hy & Hi). destruct (Hheap j y Hy) as [[-> ->]|[Hj Hy']]; [|by exists y].
        rewrite Em, elem_of_app, list_elem_of_singleton in Hi. exists s. by destruct Hi.
      * destruct Hp as (r & m & nd & pd & Hp). destruct (Hp' _ _ Hp) as [Hp'' Hj]. by exists r, m, nd, pd.
  - intros j x Hx. cbn. destruct (Hheap j x Hx) as [[-> ->]|[Hj Hx']]; [|by eapply si_ok].
    destruct (si_doing _ _ Hinv l _ Hl) as (s0 & Hs0 & Hr & Hsz). rewrite Hs in Hs0. injection Hs0 as <-.
    apply record_svc_ok; try done; [by eapply si_ok|by eapply si_made].
  - intros j d Hd. destruct (Hp' _ _ Hd) as [Hd' Hj]. destruct (si_doing _ _ Hinv j d Hd') as (y & Hy & Hr).
    exists y. split; [cbn; by rewrite list_lookup_insert_ne|done].
  - intros j r m x nd pd Hd. apply (si_made _ _ Hinv j r m x nd pd). by apply Hp'.
Qed.

Lemma svc_ok_empty n made s : svc_ok 1 ∅ s → members s = [] → 1 ≤ n → svc_ok n made s.
Proof. intros [? ? ? ?] Hm Hn. split; try done; [lia|]. rewrite Hm. by intros m ?%not_elem_of_nil. Qed.

Lemma SInv_add n w s :
  SInv n w → 1 ≤ n → svc_ok 1 ∅ s → members s = [] → SInv n (w_write true (PutService (sc_rec s)) (w_add s w)).
Proof.
  intros Hinv Hn Hok Hm. set (w' := w_write _ _ _).
  assert (∀ j x, sw_heap w' !! j = Some x → x = s ∨ sw_heap w !! j = Some x) as Hheap.
  { intros j x Hx. cbn in Hx. apply lookup_app_Some in Hx as [?|[_ Hx]]; [by right|].
    left. by apply list_lookup_singleton_Some in Hx as [_ ->]. }
  destruct (places_step n w w' Hinv) as [Hone Hse]; [done| |split; [| | |exact Hone|exact Hse]].
  - intros x. left. intros [j|j|] Hp; [|done|done]. destruct Hp as (y & Hy & Hi).
    destruct (Hheap j y Hy) as [->|Hy']; [|by exists y]. rewrite Hm in Hi. by apply not_elem_of_nil in Hi.
  - intros j x Hx. cbn. destruct (Hheap j x Hx) as [->|Hx']; [by apply svc_ok_empty|by eapply si_ok].
  - intros j d Hd. destruct (si_doing _ _ Hinv j d Hd) as (y & Hy & Hr). exists y. split; [|done].
    cbn. by apply lookup_app_l_Some.
  - apply (si_made _ _ Hinv).
Qed.

(** ** Each event *)

(** A change to one service and maybe to the store's records. *)
Lemma SInv_changed n n' w w' l s s' :
  SInv n w → n ≤ n' → sw_heap w !! l = Some s → sw_heap w' = <[l := s']> (sw_heap w) →
  sw_spec w' = sw_spec w → sw_seen w' = sw_seen w → sw_ending w' = sw_ending w →
  ss_retiring (sw_store w') = ss_retiring (sw_store w) →
  (∀ k d, sw_passes w' !! k = Some d → sw_passes w !! k = Some d) → svc_ok n' (sw_spec w) s' →
  ids (members s') = ids (members s) → (∀ o, o ∈ revs (sc_rec s) → o ∈ revs (sc_rec s')) → SInv n' w'.
Proof.
  intros Hinv Hn Hs Hh Hsp Hseen He Hr Hp Hok Hids Hrevs.
  assert (size s' = size s) as Hsz by (pose proof (f_equal length Hids) as E; unfold ids in E; rewrite !length_fmap in E; unfold size; by rewrite E).
  apply (SInv_put n n' w w' l s s' []); try done.
  - intros k d Hd. left. split; [by apply Hp|]. intros ->. rewrite Hsz.
    destruct (si_doing _ _ Hinv l d (Hp _ _ Hd)) as (x & Hx & Hrev & Hsize). rewrite Hs in Hx. injection Hx as <-. auto.
  - by rewrite Hids.
  - intros id. cbn. rewrite He, Hr. by left.
  - by intros id ?%not_elem_of_nil.
Qed.

Lemma SInv_request n w l r wrote :
  SInv n w → (∀ s, sw_heap w !! l = Some s → ∀ s', r s = Ok s' →
     ∃ r', s' = on_record (λ _, r') s ∧ request_ok n (sc_rec s) r') →
  ∀ s, sw_heap w !! l = Some s → SInv (n + 1) (changed l (r s) wrote w).
Proof.
  intros Hinv Hr s Hs. unfold changed. destruct (r s) as [s'|] eqn:E; [|apply (SInv_more n); [done|lia]].
  destruct wrote; [|apply (SInv_more n); [done|lia]]. destruct (Hr s Hs s' E) as (r' & -> & Hq).
  eapply (SInv_changed n _ w _ l s (on_record (λ _, r') s)); try done; [lia|cbn..|].
  - eapply request_svc_ok; [by eapply si_ok|done].
  - unfold ids, members. cbn. by rewrite (rq_members _ _ _ Hq).
  - apply (rq_revs _ _ _ Hq).
Qed.

Lemma SInv_failed n w l s rev k restarts refused wrote now :
  SInv n w → sw_heap w !! l = Some s → sw_passes w !! l = Some (Creating rev k) →
  let '(s', put) := create_failed now rev restarts refused s in
  SInv n (w_pass (delete l) (w_write (wrote && put) (PutService (sc_rec s')) (w_put l s' w))).
Proof.
  intros Hinv Hs Hl. pose proof (create_failed_svc_ok n (sw_spec w) now rev restarts refused s) as Hok.
  destruct (create_failed_same now rev restarts refused s) as (Em & _).
  destruct (create_failed now rev restarts refused s) as [s' put]. cbn in *.
  apply (SInv_put n n w _ l s s' []); try done; cbn.
  - apply Hok. by eapply si_ok.
  - intros j d [Hj Hd]%lookup_delete_Some. left. done.
  - by rewrite Em.
  - intros id [?|Hq]; left; [by left|right]. by destruct wrote, put.
  - by intros id ?%not_elem_of_nil.
Qed.

(** What a pass decides: which replicas it lets go, or which it makes. *)
Lemma decide_lets_go active now s :
  wf s →
  match decide active now s with
  | (Some (retire rids), s') => ∀ id, id ∈ rids → id ∈ ids (members s) ∧ (id ∉ ids (members s'))
  | (Some (create rev _ _), s') => rev ∈ revs (sc_rec s') ∧ size s' ≤ MaxServiceReplicas
  | _ => True
  end.
Proof.
  intros Hwf. pose proof (wf_ids _ Hwf) as Hnd. pose proof (decide_decided active now s (proj1 (wf_replicas _ Hwf))) as Hd.
  assert (∀ m, m ∈ members s → ∀ id, id ∈ [rp_Sandbox m] →
     id ∈ ids (members s) ∧ (id ∉ ids (members (retireStep [rp_Sandbox m] now s)))) as Hone.
  { intros m Hm id ->%list_elem_of_singleton. split; [apply list_elem_of_fmap; eauto|].
    rewrite members_retireStep. intros (m' & E & Hm')%list_elem_of_fmap. by eapply remove_member_not_in. }
  destruct Hd as [Hset|Hg Hno|m Hg Hs Hm Hall Hlt|m Hg Hs Ho Hm Hall Hlt|t Hg Hs Ht Hn Hh Hc|Hg Hs Ho Hc Hnow Hac Hst];
    [done| | | |done|].
  - unfold drop_step. cbn [fst snd]. intros id (m & -> & [Hm Hl]%elem_of_bfilter)%list_elem_of_fmap.
    split; [apply list_elem_of_fmap; eauto|].
    pose proof (members_drop_step now s Hnd) as E. unfold drop_step in E. cbn [snd] in E. rewrite E.
    intros (m' & E' & [Hm' Hl']%elem_of_bfilter)%list_elem_of_fmap.
    assert (m = m') as <- by (by eapply ids_inj). rewrite Hl in Hl'. done.
  - apply Hone, cur_old_members. by right.
  - apply Hone, cur_old_members. by left.
  - destruct (createStep_spec (want s) s) as (k & -> & Er & _). rewrite Er.
    split; [apply want_in_revs|]. unfold size, members. rewrite Er.
    by destruct (create_room s Hwf Ho Hc Hst).
Qed.

Lemma SInv_decided n w l s active now wrote :
  SInv n w → sw_heap w !! l = Some s → sw_passes w !! l = None →
  SInv n (decided_step l (decide active now s) wrote w).
Proof.
  intros Hinv Hs Hl. pose proof (si_ok _ _ Hinv l s Hs) as Hok. pose proof (so_wf _ _ _ Hok) as Hwf.
  pose proof (decide_lets_go active now s Hwf) as Hgo. pose proof (decide_svc_ok n (sw_spec w) active now s Hok) as Hok'.
  pose proof (decide_members active now s Hwf) as Hsub.
  destruct (decide active now s) as [a s']. cbn [snd] in *.
  assert (∀ id, id ∈ ids (members s') → id ∈ ids (members s)) as Hids.
  { intros id Hin. eapply elem_of_submseteq; [done|]. by apply fmap_submseteq, sublist_submseteq. }
  assert (∀ k d, sw_passes w !! k = Some d → k ≠ l) as Hno by (intros k d Hk ->; congruence).
  destruct a as [[rids| |rev m sp]|]; cbn [decided_step].
  - apply (SInv_put n n w _ l s s' rids); try done; cbn.
    + intros k d Hk. left. split; [done|]. intros E. by destruct (Hno _ _ Hk E).
    + intros id [Hq|Hq]; [set_solver|]. destruct wrote; [|left; by right].
      apply elem_of_appendNew in Hq. set_solver.
  - apply (SInv_put n n w _ l s s' []); try done; cbn.
    + intros k d Hk. left. split; [done|]. intros E. by destruct (Hno _ _ Hk E).
    + intros id [Hq|Hq]; left; [by left|right]. by destruct wrote.
    + by intros id ?%not_elem_of_nil.
  - apply (SInv_put n n w _ l s s' []); try done; cbn.
    + intros k d [[<- <-]|[Hk Hd]]%lookup_insert_Some; [right; eauto|left; by split].
    + intros id Hq. by left.
    + by intros id ?%not_elem_of_nil.
  - apply (SInv_put n n w _ l s s' []); try done; cbn.
    + intros k d Hk. left. split; [done|]. intros E. by destruct (Hno _ _ Hk E).
    + intros id Hq. by left.
    + by intros id ?%not_elem_of_nil.
Qed.

Lemma SInv_deleted n w l s :
  SInv n w → sw_heap w !! l = Some s →
  SInv n (w_svcs id (union {[l]})
    (w_end (ids (members s)) (w_write true (DeleteService (key_of (sc_rec s)) (ids (members s))) (w_put l (on_gone s) w)))).
Proof.
  intros Hinv Hs. pose proof (si_ok _ _ Hinv l s Hs) as Hok.
  assert (revs (sc_rec (on_gone s)) = revs (sc_rec s)) as Hrevs by (unfold on_gone; cbn; by destruct (sc_rec s)).
  apply (SInv_put n n w _ l s (on_gone s) (ids (members s))); try done; rewrite ?members_gone.
  - by apply gone_svc_ok.
  - intros k d Hk. left. split; [done|]. intros ->. unfold size. rewrite members_gone, Hrevs.
    destruct (si_doing _ _ Hinv l d Hk) as (x & Hx & Hr & _). rewrite Hs in Hx. injection Hx as <-. done.
  - by intros id ?%not_elem_of_nil.
  - intros id [Hq|Hq]; cbn -[appendNew] in Hq; [set_solver|]. apply elem_of_appendNew in Hq. cbn. tauto.
  - intros id Hid. split; [done|]. apply not_elem_of_nil.
Qed.

Section steps.
Context `{Unicode} (range_env : gmap string string → list (string * string)).

Lemma SInv_step n w e w' :
  SInv n w → 0 ≤ n < max_int64 → svc_step range_env w e = Some w' → SInv (n + 1) w'.
Proof.
  intros Hinv Hn. assert (∀ v, SInv n v → SInv (n + 1) v) as Hmore by (intros v Hv; eapply SInv_more; [done|lia]).
  destruct e as [sp user tenant checks now wrote|l sp keep checks now wrote|l checks now wrote|l k now wrote|l wrote|l
    |l up owner now|l id r now|l active now wrote|l a now wrote|l now wrote|id a wrote|id]; cbn [svc_step];
    try (destruct (sw_heap w !! l) as [s|] eqn:Hs; cbn [mbind option_bind]; [|done]).
  - destruct (createService _ _ _ _ _ _ _) as [s|] eqn:E; intros [= <-]; [|by apply Hmore].
    destruct wrote; [|by apply Hmore]. apply createService_ok in E as (Hok & _ & Hm & _).
    apply SInv_add; [by apply Hmore|lia|done..].
  - intros [= <-]. eapply (SInv_request n w l (λ s, updateService range_env s sp keep checks now)); [done| |done].
    intros x Hx x' Hu. eapply updateService_ok in Hu as [_ Hu]; [done|by eapply si_ok|lia].
  - intros [= <-]. eapply (SInv_request n w l (λ s, redeployService s checks now)); [done| |done].
    intros x Hx x' Hu. eapply redeployService_ok in Hu as [_ Hu]; [done|by eapply si_ok|lia].
  - intros [= <-]. eapply (SInv_request n w l (λ s, scaleService s k now)); [done| |done].
    intros x Hx x' Hu. eapply (scaleService_ok range_env n (sw_spec w)) in Hu as [_ Hu]; [done|by eapply si_ok].
  - intros [= <-]. apply Hmore. destruct (sc_gone s || negb wrote); [done|]. by apply SInv_deleted.
  - case_bool_decide; [|done]. intros [= <-]. apply (SInv_frame n (n + 1) w); try done; lia.
  - intros [= <-]. eapply (SInv_changed n _ w _ l s); try done; [lia| |unfold members; by rewrite observeService_rec..].
    apply (svc_ok_more n), (svc_ok_rec _ _ s); [lia|apply observeService_rec|by eapply si_ok].
  - intros [= <-]. eapply (SInv_changed n _ w _ l s); try done; [lia| |unfold members; by rewrite checked_rec..].
    apply (svc_ok_more n), (svc_ok_rec _ _ s); [lia|apply checked_rec|by eapply si_ok].
  - destruct (sw_passes w !! l) eqn:Hl; [done|]. intros [= <-]. apply Hmore. by apply SInv_decided.
  - destruct (sw_passes w !! l) as [[rev m|]|] eqn:Hl; [|done..].
    destruct a as [id node pid|st tr|id]; [case_bool_decide as Hid; [done|]| |case_bool_decide as Hid; [done|]];
      intros [= <-]; apply Hmore; unfold answer_replica.
    + by eapply SInv_made.
    + pose proof (SInv_failed n w l s rev m m (refusedNow (not_created st tr)) wrote now Hinv Hs Hl) as Hf.
      by destruct (create_failed now rev m _ s).
    + pose proof (SInv_failed n _ l s rev m m (refusedNow (not_started id)) wrote now
                    (SInv_unstarted n w id (rv_Spec rev) wrote Hinv Hid) Hs Hl) as Hf.
      by destruct (create_failed now rev m _ s).
  - destruct (sw_passes w !! l) as [[|rev m id node pid]|] eqn:Hl; [done| |done]. intros [= <-]. apply Hmore.
    unfold record_replica. destruct (sc_gone s); [by eapply SInv_orphan|by eapply SInv_join].
  - destruct (_ && _); [|done]. intros [= <-]. apply (SInv_frame n (n + 1) w); try done; [lia|].
    intros x [Hq|Hq]; [by left|]. right. destruct wrote; [|done]. by apply elem_of_bfilter in Hq as [? _].
  - intros [= <-]. apply (SInv_frame n (n + 1) w); try done; lia.
Qed.

Lemma SInv_initial : SInv 0 sw_initial.
Proof.
  assert (∀ id p, ¬ at_ sw_initial id p) as Hno.
  { intros id [l|l|] Hp; cbn in Hp.
    - by destruct Hp as (s & Hs & _).
    - by destruct Hp as (? & ? & ? & ? & Hp).
    - destruct Hp as [?|?%not_elem_of_nil]; [set_solver|done]. }
  split; try done; [intros id p p' Hp|intros id p Hp]; by destruct (Hno id p Hp).
Qed.

Lemma SInv_run es : ∀ n w w', SInv n w → 0 ≤ n → n + Z.of_nat (length es) ≤ max_int64 →
  svc_run range_env w es = Some w' → SInv (n + Z.of_nat (length es)) w'.
Proof.
  induction es as [|e es IH]; intros n w w' Hinv Hn Hlen; cbn [svc_run length].
  - intros [= <-]. by replace (n + Z.of_nat 0) with n by lia.
  - cbn [length] in Hlen. destruct (svc_step range_env w e) as [w1|] eqn:E; cbn; [|done]. intros Hrun.
    replace (n + Z.of_nat (S (length es))) with (n + 1 + Z.of_nat (length es)) by lia.
    eapply (IH _ w1); [|lia|lia|done]. eapply SInv_step; [done|lia|done].
Qed.

(** C7. Through any interleaving of requests, looks, checks, passes, answers
    from nodes and lost writes: every service is well formed; every replica is
    of a revision its service still holds and is checked by the very spec its
    sandbox was made from; no sandbox is a replica twice; and none that is to
    be terminated is a replica of any service. *)
Theorem services_sound es w :
  Z.of_nat (length es) ≤ max_int64 → svc_run range_env sw_initial es = Some w →
  (∀ l s, sw_heap w !! l = Some s →
     wf s ∧
     ∀ m, m ∈ members s → sw_spec w !! rp_Sandbox m = Some (specOf (sc_rec s) (rp_Rev m)) ∧
       (rp_Sandbox m ∉ sw_ending w) ∧ (rp_Sandbox m ∉ ss_retiring (sw_store w))) ∧
  (∀ l l' s s' id, sw_heap w !! l = Some s → sw_heap w !! l' = Some s' →
     id ∈ ids (members s) → id ∈ ids (members s') → l = l').
Proof.
  intros Hlen Hrun. eapply (SInv_run es 0) in Hrun as Hinv; [|apply SInv_initial|lia|lia]. split.
  - intros l s Hs. pose proof (si_ok _ _ Hinv l s Hs) as Hok. split; [apply Hok|]. intros m Hm.
    assert (at_ w (rp_Sandbox m) (in_service l)) as Hat by (exists s; split; [done|apply list_elem_of_fmap; eauto]).
    split; [by apply Hok|].
    split; intros Hq; [assert (at_ w (rp_Sandbox m) in_queue) as Hat' by (by left)
                      |assert (at_ w (rp_Sandbox m) in_queue) as Hat' by (by right)];
      by pose proof (si_one _ _ Hinv _ _ _ Hat Hat').
  - intros l l' s s' id Hs Hs' Hi Hi'.
    assert (at_ w id (in_service l)) as Hat by (by exists s). assert (at_ w id (in_service l')) as Hat' by (by exists s').
    by pose proof (si_one _ _ Hinv _ _ _ Hat Hat') as [= ->].
Qed.
End steps.

(** ** What the store holds *)
Definition writes (e : svc_event) : bool :=
  match e with
  | SE_create _ _ _ _ _ wrote | SE_update _ _ _ _ _ wrote | SE_redeploy _ _ _ wrote | SE_scale _ _ _ wrote
  | SE_delete _ wrote | SE_decide _ _ _ wrote | SE_answer _ _ _ wrote | SE_record _ _ wrote | SE_end _ _ wrote => wrote
  | _ => true
  end.

(** The store takes the event's write, and no create is refused to a service
    deleted since it began. *)
Definition undisturbed (w : SWorld) (e : svc_event) : bool :=
  writes e &&
  match e with
  | SE_answer l a _ _ =>
      match sw_heap w !! l with Some s => negb (sc_gone s && refusedNow a) | None => true end
  | _ => true
  end.

Definition in_pass_made (w : SWorld) (id : string) : Prop :=
  ∃ l rev n node pid, sw_passes w !! l = Some (Made rev n id node pid).

(** A service's replica, one to be terminated, or one just made. *)
Definition placed (w : SWorld) (id : string) : Prop :=
  (∃ l s, sw_heap w !! l = Some s ∧ id ∈ ids (members s)) ∨ id ∈ ss_retiring (sw_store w) ∨ in_pass_made w id.

Record TInv (w : SWorld) : Prop := {
  ti_gone : ∀ l s, sw_heap w !! l = Some s → sc_gone s = true → members s = [];
  ti_live : ∀ l s, sw_heap w !! l = Some s → sc_gone s = false → sw_svcs w !! key_of (sc_rec s) = Some l;
  ti_records : ∀ k r, ss_records (sw_store w) !! k = Some r ↔
    ∃ l s, sw_heap w !! l = Some s ∧ sc_gone s = false ∧ sc_rec s = r ∧ key_of r = k;
  ti_forget : ∀ l, l ∈ sw_forgetting w →
    ∃ s, sw_heap w !! l = Some s ∧ sc_gone s = true ∧ sw_svcs w !! key_of (sc_rec s) = Some l;
  ti_owned : ∀ id, id ∈ sw_owned w → placed w id
}.

(** One service changes, and its record with it. *)
Lemma TInv_put w w' l s s' :
  TInv w → sw_heap w !! l = Some s → sw_heap w' = <[l := s']> (sw_heap w) → sw_svcs w' = sw_svcs w →
  sw_forgetting w' = sw_forgetting w → key_of (sc_rec s') = key_of (sc_rec s) → sc_gone s' = sc_gone s →
  (sc_gone s = true → members s' = members s) →
  (ss_records (sw_store w') = ss_records (sw_store w) ∧ (sc_gone s = true ∨ sc_rec s' = sc_rec s)) ∨
    (sc_gone s = false ∧ ss_records (sw_store w') = <[key_of (sc_rec s) := sc_rec s']> (ss_records (sw_store w))) →
  (∀ id, id ∈ sw_owned w' → placed w' id) → TInv w'.
Proof.
  intros [Hg Hl Hr Hf Ho] Hs Hh Hsv Hfo Hk Hgs Hgm Hrec Hown.
  assert (∀ j x, sw_heap w' !! j = Some x → (j = l ∧ x = s') ∨ (j ≠ l ∧ sw_heap w !! j = Some x)) as Hheap.
  { intros j x Hx. rewrite Hh in Hx. destruct (base.decide (j = l)) as [->|Hne].
    - rewrite list_lookup_insert_eq in Hx; [|by eapply lookup_lt_Some]. left. by simplify_eq.
    - rewrite list_lookup_insert_ne in Hx by done. by right. }
  assert (sw_heap w' !! l = Some s') as Hl' by (rewrite Hh; apply list_lookup_insert_eq; by eapply lookup_lt_Some).
  assert (∀ j x, j ≠ l → sw_heap w !! j = Some x → sw_heap w' !! j = Some x) as Hother
    by (intros j x Hj Hx; by rewrite Hh, list_lookup_insert_ne).
  split; [| | | |done].
  - intros j x Hx Hgx. destruct (Hheap j x Hx) as [[-> ->]|[_ Hx']]; [|by eapply Hg].
    rewrite Hgs in Hgx. rewrite Hgm by done. by eapply Hg.
  - intros j x Hx Hgx. rewrite Hsv. destruct (Hheap j x Hx) as [[-> ->]|[_ Hx']]; [|by apply Hl].
    rewrite Hk. apply Hl; [done|congruence].
  - intros k r. destruct Hrec as [[-> Hsame]|[Hlive ->]].
    + rewrite Hr. split; intros (j & x & Hx & Hgx & <- & <-).
      * destruct (base.decide (j = l)) as [->|Hj]; [|by exists j, x; split_and!; [by apply Hother|..]].
        rewrite Hs in Hx. injection Hx as ->. destruct Hsame as [?|Hsame]; [congruence|].
        exists l, s'. split_and!; [done|congruence|done|done].
      * destruct (Hheap j x Hx) as [[-> ->]|[Hj Hx']]; [|by exists j, x].
        destruct Hsame as [?|Hsame]; [congruence|]. exists l, s. split_and!; [done|congruence|done|by rewrite Hsame].
    + rewrite lookup_insert_Some, Hr. split.
      * intros [[<- <-]|[Hne (j & x & Hx & Hgx & <- & <-)]]; [exists l, s'; split_and!; [done|congruence|done|done]|].
        exists j, x. split_and!; [|done..]. apply Hother; [|done]. intros ->. by simplify_eq.
      * intros (j & x & Hx & Hgx & <- & <-). destruct (Hheap j x Hx) as [[-> ->]|[Hj Hx']]; [by left|].
        right. split; [|by exists j, x]. intros E. apply Hj. pose proof (Hl _ _ Hx' Hgx) as E1.
        pose proof (Hl _ _ Hs Hlive) as E2. rewrite E in E2. congruence.
  - intros j Hj. rewrite Hfo in Hj. destruct (Hf j Hj) as (x & Hx & Hgx & Hsx). rewrite Hsv.
    destruct (base.decide (j = l)) as [->|Hne]; [|exists x; split_and!; [by apply Hother|done..]].
    rewrite Hs in Hx. injection Hx as ->. exists s'. split_and!; [done|congruence|by rewrite Hk].
Qed.

(** ** What a pass keeps of a service *)
Definition same_service (s s' : service) : Prop :=
  key_of (sc_rec s') = key_of (sc_rec s) ∧ sc_gone s' = sc_gone s.

Lemma same_trans s1 s2 s3 : same_service s1 s2 → same_service s2 s3 → same_service s1 s3.
Proof. intros [? ?] [? ?]. split; congruence. Qed.

Lemma same_record f s : key_of (f (sc_rec s)) = key_of (sc_rec s) → same_service s (on_record f s).
Proof. by split. Qed.

Lemma key_prune now ms r : key_of (pruneOlder (set_updated now (set_members ms r))) = key_of r.
Proof. by destruct r. Qed.

Lemma same_retire rids now s : same_service s (retireStep rids now s).
Proof.
  split; [rewrite retireStep_rec; apply key_prune|]. unfold retireStep. cbn. revert s.
  induction rids as [|id rids IH]; intros s; [done|]. cbn [foldl]. by rewrite IH.
Qed.

Lemma same_failRollout now s : same_service s (failRollout now s).
Proof. unfold failRollout. destruct (sr_Target (sc_rec s)); split; cbn; [by destruct (sc_rec s)|done..]. Qed.

Lemma same_drops now ms s : same_service s (foldl (drop_one now) s ms).
Proof.
  destruct (drops_same now ms s) as (_ & Hg & n & Hr). split; [|done]. rewrite Hr. by destruct (sc_rec s).
Qed.

Lemma same_drop_step now s : same_service s (drop_step now s).2.
Proof.
  unfold drop_step. cbn [snd]. eapply same_trans; [|apply same_retire].
  assert (∀ ms x, same_service s x → same_service s (on_record (set_members ms) x)) as Hm.
  { intros ms x Hx. eapply same_trans; [done|]. apply same_record. by destruct (sc_rec x). }
  destruct (match sr_Target (sc_rec s) with None => false | Some t => _ end);
    [eapply same_trans; [|apply same_failRollout]|]; apply Hm, same_drops.
Qed.

(** Every replica a step lets go is queued with it; a step that lets none go
    and writes nothing leaves the record as it was. *)
Lemma decide_accounts active now s :
  wf s →
  let '(a, s') := decide active now s in
  same_service s s' ∧ (sc_gone s = true → a = None ∧ s' = s) ∧
  match a with
  | Some (retire rids) => ∀ id, id ∈ ids (members s) → id ∈ rids ∨ id ∈ ids (members s')
  | Some recorded => members s' = members s
  | _ => sc_rec s' = sc_rec s
  end.
Proof.
  intros Hwf. pose proof (wf_ids _ Hwf) as Hnd. pose proof (decide_decided active now s (proj1 (wf_replicas _ Hwf))) as Hd.
  assert (∀ m, m ∈ members s → ∀ id, id ∈ ids (members s) →
     id ∈ [rp_Sandbox m] ∨ id ∈ ids (members (retireStep [rp_Sandbox m] now s))) as Hone.
  { intros m Hm id Hid. rewrite members_retireStep. cbn [foldl].
    destruct (remove_member_spec _ m Hnd Hm) as (a & b & E & ->). rewrite E in Hid. unfold ids in *.
    rewrite !fmap_app, !fmap_cons, !elem_of_app, !elem_of_cons in *. rewrite elem_of_nil. tauto. }
  assert (sc_gone s = true → decide active now s = (None, s)) as Hgone by (intros E; unfold decide; by rewrite E).
  destruct Hd as [Hset|Hg Hno|m Hg Hs Hm Hall Hlt|m Hg Hs Ho Hm Hall Hlt|t Hg Hs Ht Hn Hh Hc|Hg Hs Ho Hc Hnow Hac Hst].
  - split_and!; try done.
  - split_and!; [apply same_drop_step|congruence|]. rewrite members_drop_step by done.
    unfold drop_step. cbn [fst]. intros id (m & -> & Hm)%list_elem_of_fmap.
    destruct (leaves s m) eqn:El; [left|right]; apply list_elem_of_fmap; exists m; (split; [done|]); apply elem_of_bfilter.
    + done.
    + by rewrite El.
  - split_and!; [apply same_retire|congruence|]. apply Hone, cur_old_members. by right.
  - split_and!; [apply same_retire|congruence|]. apply Hone, cur_old_members. by left.
  - split_and!; [|congruence|by destruct (rollout_done_fields now s t Ht)].
    unfold rollout_done. rewrite Ht. apply same_record. by destruct (sc_rec s).
  - unfold createStep. destruct (sc_pending s); split_and!; try done; congruence.
Qed.

(** ** Each event, with the store taking its write *)
Lemma placed_put w w' l s s' id :
  sw_heap w !! l = Some s → sw_heap w' = <[l := s']> (sw_heap w) →
  (∀ x, x ∈ ids (members s) → x ∈ ids (members s') ∨ x ∈ ss_retiring (sw_store w')) →
  (∀ x, x ∈ ss_retiring (sw_store w) → x ∈ ss_retiring (sw_store w')) →
  (∀ k rev n x node pid, sw_passes w !! k = Some (Made rev n x node pid) → placed w' x) →
  placed w id → placed w' id.
Proof.
  intros Hs Hh Hm Hr Hp [(k & x & Hx & Hi)|[Hq|(k & rev & n & node & pid & Hk)]]; [|by right; left; apply Hr|by eapply Hp].
  destruct (base.decide (k = l)) as [->|Hne].
  - rewrite Hs in Hx. injection Hx as ->. destruct (Hm id Hi) as [?|?]; [|by right; left].
    left. exists l, s'. split; [rewrite Hh; apply list_lookup_insert_eq; by eapply lookup_lt_Some|done].
  - left. exists k, x. split; [by rewrite Hh, list_lookup_insert_ne|done].
Qed.

Lemma placed_made w l rev n id node pid : sw_passes w !! l = Some (Made rev n id node pid) → placed w id.
Proof. intros Hl. right; right. by exists l, rev, n, node, pid. Qed.

Lemma placed_passes w w' l s s' id :
  sw_heap w !! l = Some s → sw_heap w' = <[l := s']> (sw_heap w) → ids (members s') = ids (members s) →
  (∀ x, x ∈ ss_retiring (sw_store w) → x ∈ ss_retiring (sw_store w')) →
  (∀ k rev n x node pid, sw_passes w !! k = Some (Made rev n x node pid) →
     sw_passes w' !! k = Some (Made rev n x node pid)) →
  placed w id → placed w' id.
Proof.
  intros Hs Hh Hids Hr Hp. apply (placed_put w w' l s s'); try done.
  - rewrite Hids. by left.
  - intros k rev n x node pid Hk. eapply placed_made. by apply Hp.
Qed.

Lemma TInv_observed w l s s' :
  TInv w → sw_heap w !! l = Some s → sc_rec s' = sc_rec s → sc_gone s' = sc_gone s → TInv (w_put l s' w).
Proof.
  intros Ht Hs Er Eg. apply (TInv_put w _ l s s'); try done.
  - by rewrite Er.
  - intros _. unfold members. by rewrite Er.
  - left. split; [done|by right].
  - intros id Hid. eapply (placed_passes w _ l s s'); try done; [unfold members; by rewrite Er|by apply (ti_owned w)].
Qed.

Lemma TInv_request w l s r' :
  TInv w → sw_heap w !! l = Some s → sc_gone s = false → key_of r' = key_of (sc_rec s) →
  sr_Members r' = members s →
  TInv (w_write true (PutService r') (w_put l (on_record (λ _, r') s) w)).
Proof.
  intros Ht Hs Hg Hk Hm. apply (TInv_put w _ l s (on_record (λ _, r') s)); try done.
  - right. split; [done|]. cbn. by rewrite Hk.
  - intros id Hid. eapply (placed_passes w _ l s (on_record (λ _, r') s)); try done.
    + unfold members at 1. cbn. by rewrite Hm.
    + by apply (ti_owned w).
Qed.

Lemma TInv_decided n w l s active now :
  SInv n w → TInv w → sw_heap w !! l = Some s → sw_passes w !! l = None →
  TInv (decided_step l (decide active now s) true w).
Proof.
  intros Hinv Ht Hs Hl. pose proof (si_ok _ _ Hinv l s Hs) as Hok.
  pose proof (decide_accounts active now s (so_wf _ _ _ Hok)) as Ha.
  destruct (decide active now s) as [a s']. destruct Ha as ([Hk Hg] & Hgone & Ha).
  assert (∀ id, id ∈ sw_owned w → placed w id) as Hown by apply Ht.
  destruct a as [[rids| |rev m sp]|]; cbn [decided_step].
  - assert (sc_gone s = false) as Hlive by (destruct (sc_gone s); [by destruct Hgone|done]).
    apply (TInv_put w _ l s s'); try done; [congruence|right; split; [done|]; cbn; by rewrite Hk|].
    intros id Hid. apply (placed_put w _ l s s'); try done; [| | |by apply Hown].
    + intros x Hx. destruct (Ha x Hx); [right|by left]. cbn -[appendNew]. apply elem_of_appendNew. by right.
    + intros x Hx. cbn -[appendNew]. apply elem_of_appendNew. by left.
    + intros k rev m x node pid Hx. eapply placed_made. exact Hx.
  - assert (sc_gone s = false) as Hlive by (destruct (sc_gone s); [by destruct Hgone|done]).
    apply (TInv_put w _ l s s'); try done; [right; split; [done|]; cbn; by rewrite Hk|].
    intros id Hid. apply (placed_passes w _ l s s'); try done; [by rewrite Ha|by apply Hown].
  - apply (TInv_put w _ l s s'); try done; [unfold members; by rewrite Ha|left; split; [done|by right]|].
    intros id Hid. apply (placed_passes w _ l s s'); try done; [unfold members; by rewrite Ha| |by apply Hown].
    intros k r i x nd pd Hx. cbn. rewrite lookup_insert_ne; [done|]. intros ->. congruence.
  - apply (TInv_put w _ l s s'); try done; [unfold members; by rewrite Ha|left; split; [done|by right]|].
    intros id Hid. apply (placed_passes w _ l s s'); try done; [unfold members; by rewrite Ha|by apply Hown].
Qed.

Lemma create_failed_accounts now rev n refused s :
  let '(s', put) := create_failed now rev n refused s in
  same_service s s' ∧ (put = false → sc_rec s' = sc_rec s) ∧ (refused = false → put = false).
Proof.
  unfold create_failed, createFailed. cbn [on_pending on_crashes sc_rec].
  set (s1 := on_crashes _ _ _). assert (same_service s s1) as Hs1 by done.
  destruct (sr_Target (sc_rec s)) as [t|]; [|done]. destruct (_ && refused) eqn:E; [|done].
  split_and!; [|done|intros ->; by rewrite andb_false_r in E].
  eapply same_trans; [exact Hs1|]. eapply same_trans; [apply same_failRollout|]. apply same_record.
  by destruct (sc_rec _).
Qed.

Lemma TInv_failed w l s rev k restarts refused now :
  TInv w → sw_heap w !! l = Some s → sw_passes w !! l = Some (Creating rev k) →
  sc_gone s && refused = false →
  let '(s', put) := create_failed now rev restarts refused s in
  TInv (w_pass (delete l) (w_write (true && put) (PutService (sc_rec s')) (w_put l s' w))).
Proof.
  intros Ht Hs Hl Hq. pose proof (create_failed_accounts now rev restarts refused s) as Ha.
  destruct (create_failed_same now rev restarts refused s) as (Em & _).
  destruct (create_failed now rev restarts refused s) as [s' put]. cbn [fst] in Em. destruct Ha as ([Hk Hg] & Hr & Hp).
  apply (TInv_put w _ l s s'); try done.
  - destruct put; [|left; split; [done|by right; apply Hr]]. destruct (sc_gone s) eqn:Eg.
    + cbn in Hq. by specialize (Hp Hq).
    + right. split; [done|]. cbn. by rewrite Hk.
  - intros id Hid. apply (placed_passes w _ l s s'); try done; [by rewrite Em|by destruct put| |by apply Ht].
    intros j r i x nd pd Hx. cbn. rewrite lookup_delete_ne; [done|]. intros ->. congruence.
Qed.

Lemma TInv_unstarted w id sp :
  TInv w → TInv (w_end [id] (w_write true (Retire [id]) (w_made id sp w))).
Proof.
  intros [Hg Hl Hr Hf Ho]. split; try done. intros x Hx. cbn in Hx.
  apply elem_of_union in Hx as [->%elem_of_singleton|Hx].
  - right; left. cbn -[appendNew]. apply elem_of_appendNew. right. left.
  - destruct (Ho x Hx) as [Hp|[Hp|Hp]]; [by left| |by right; right]. right; left.
    cbn -[appendNew]. apply elem_of_appendNew. by left.
Qed.

Lemma TInv_made w l rev k id node pid :
  TInv w → sw_passes w !! l = Some (Creating rev k) →
  TInv (w_pass <[l := Made rev k id node pid]> (w_made id (rv_Spec rev) w)).
Proof.
  intros [Hg Hl Hr Hf Ho] Hp. split; try done. intros x Hx. cbn in Hx.
  apply elem_of_union in Hx as [->%elem_of_singleton|Hx].
  - eapply placed_made. cbn. apply lookup_insert_eq.
  - destruct (Ho x Hx) as [Hq|[Hq|(j & r & m & nd & pd & Hq)]]; [by left|by right; left|].
    apply (placed_made _ j r m x nd pd). cbn. rewrite lookup_insert_ne; [done|]. intros ->. congruence.
Qed.

(** A replica made is recorded, or queued if its service is gone. *)
Lemma TInv_recorded w l s rev k id node pid now :
  TInv w → sw_heap w !! l = Some s → sw_passes w !! l = Some (Made rev k id node pid) →
  TInv (record_replica l s (new_replica rev k id node pid now) now true w).
Proof.
  intros Ht Hs Hl. unfold record_replica. cbn [rp_Sandbox new_replica].
  assert (∀ w', (∀ x, x ∈ ids (members s) → placed w' x) → placed w' id →
    (∀ j x, j ≠ l → sw_heap w !! j = Some x → sw_heap w' !! j = Some x) →
    (∀ x, x ∈ ss_retiring (sw_store w) → x ∈ ss_retiring (sw_store w')) →
    (∀ j d, j ≠ l → sw_passes w !! j = Some d → sw_passes w' !! j = Some d) →
    ∀ x, placed w x → placed w' x) as Hplaced.
  { intros w' Hm Hid Hh Hr Hp x [(j & y & Hy & Hi)|[Hq|(j & r & m & nd & pd & Hj)]].
    - destruct (base.decide (j = l)) as [->|Hne]; [apply Hm; by simplify_eq|]. left. exists j, y. auto.
    - right; left. by apply Hr.
    - destruct (base.decide (j = l)) as [->|Hne]; [by simplify_eq|]. eapply placed_made. by apply Hp. }
  destruct (sc_gone s) eqn:Eg.
  - destruct Ht as [Hg Hlv Hr Hf Ho]. split; try done. intros x Hx.
    apply Hplaced; [| | |intros y Hy; cbn -[appendNew]; apply elem_of_appendNew; by left| |by apply Ho].
    + rewrite (Hg l s Hs Eg). by intros y ?%not_elem_of_nil.
    + right; left. cbn -[appendNew]. apply elem_of_appendNew. right. left.
    + done.
    + intros j d Hj Hd. cbn. by rewrite lookup_delete_ne.
  - set (s' := create_recorded _ now s). set (w' := w_pass _ _).
    assert (key_of (sc_rec s') = key_of (sc_rec s)) as Hk by (unfold s', create_recorded; apply key_prune).
    assert (sw_heap w' !! l = Some s') as Hl' by (cbn; apply list_lookup_insert_eq; by eapply lookup_lt_Some).
    assert (ids (members s') = ids (members s) ++ [id]) as Em
      by (unfold s', ids; by rewrite members_create_recorded, fmap_app).
    apply (TInv_put w _ l s s'); try done; [by rewrite Eg|right; split; [done|]; by rewrite <- Hk|].
    intros x Hx. apply Hplaced; [| | |done| |by apply Ht].
    + intros y Hy. left. exists l, s'. split; [done|]. rewrite Em. by apply elem_of_app; left.
    + left. exists l, s'. split; [done|]. rewrite Em. apply elem_of_app; right; left.
    + intros j y Hj Hy. cbn. by rewrite list_lookup_insert_ne.
    + intros j d Hj Hd. cbn. by rewrite lookup_delete_ne.
Qed.

Lemma TInv_deleted w l s :
  TInv w → sw_heap w !! l = Some s → sc_gone s = false →
  TInv (w_svcs id (union {[l]})
    (w_end (ids (members s)) (w_write true (DeleteService (key_of (sc_rec s)) (ids (members s))) (w_put l (on_gone s) w)))).
Proof.
  intros [Hg Hl Hr Hf Ho] Hs Hlive. set (w' := w_svcs _ _ _).
  assert (key_of (sc_rec (on_gone s)) = key_of (sc_rec s)) as Hk by (cbn; by destruct (sc_rec s)).
  assert (sw_heap w' !! l = Some (on_gone s)) as Hl' by (cbn; apply list_lookup_insert_eq; by eapply lookup_lt_Some).
  assert (∀ j x, sw_heap w' !! j = Some x → (j = l ∧ x = on_gone s) ∨ (j ≠ l ∧ sw_heap w !! j = Some x)) as Hheap.
  { intros j x Hx. destruct (base.decide (j = l)) as [->|Hne]; [left; by simplify_eq|].
    cbn in Hx. rewrite list_lookup_insert_ne in Hx by done. by right. }
  assert (∀ j x, j ≠ l → sw_heap w !! j = Some x → sw_heap w' !! j = Some x) as Hother
    by (intros j x Hj Hx; cbn; by rewrite list_lookup_insert_ne).
  split.
  - intros j x Hx Hgx. destruct (Hheap j x Hx) as [[-> ->]|[_ Hx']]; [apply members_gone|by eapply Hg].
  - intros j x Hx Hgx. destruct (Hheap j x Hx) as [[-> ->]|[_ Hx']]; [done|by apply Hl].
  - intros k r. cbn. rewrite lookup_delete_Some, Hr. split.
    + intros (Hne & j & x & Hx & Hgx & <- & <-). exists j, x. split_and!; [|done..]. apply Hother; [|done].
      intros ->. by simplify_eq.
    + intros (j & x & Hx & Hgx & <- & <-). destruct (Hheap j x Hx) as [[-> ->]|[Hj Hx']]; [done|].
      split; [|by exists j, x]. intros E. apply Hj. pose proof (Hl _ _ Hx' Hgx) as E1.
      pose proof (Hl _ _ Hs Hlive) as E2. rewrite E in E2. congruence.
  - intros j Hj. cbn in Hj. destruct (base.decide (j = l)) as [->|Hne].
    + exists (on_gone s). split_and!; [done|done|]. rewrite Hk. by apply Hl.
    + destruct (Hf j) as (x & Hx & Hgx & Hsx); [set_solver|]. exists x. split_and!; [by apply Hother|done..].
  - intros x Hx. apply (placed_put w w' l s (on_gone s)); try done; [| | |by apply Ho].
    + intros y Hy. right. cbn -[appendNew]. apply elem_of_appendNew. by right.
    + intros y Hy. cbn -[appendNew]. apply elem_of_appendNew. by left.
    + intros j r m y nd pd Hy. eapply placed_made. exact Hy.
Qed.

Lemma TInv_forgotten w l s :
  TInv w → sw_heap w !! l = Some s → l ∈ sw_forgetting w →
  TInv (w_svcs (delete (key_of (sc_rec s))) (λ f, f ∖ {[l]}) w).
Proof.
  intros [Hg Hl Hr Hf Ho] Hs Hfl. destruct (Hf l Hfl) as (s0 & Hs0 & Hgs & Hsv). rewrite Hs in Hs0. injection Hs0 as <-.
  split; try done.
  - intros j x Hx Hgx. cbn. rewrite lookup_delete_ne; [by apply Hl|]. intros E.
    pose proof (Hl j x Hx Hgx) as E'. rewrite <- E, Hsv in E'. injection E' as <-.
    change (sw_heap w !! l = Some x) in Hx. congruence.
  - intros j Hj. cbn in Hj. destruct (Hf j) as (x & Hx & Hgx & Hsx); [set_solver|]. exists x. split_and!; [done..|].
    cbn. rewrite lookup_delete_ne; [done|]. intros E. rewrite <- E, Hsv in Hsx. injection Hsx as <-. set_solver.
Qed.

Lemma TInv_add w s :
  TInv w → sw_svcs w !! key_of (sc_rec s) = None → members s = [] → sc_gone s = false →
  TInv (w_write true (PutService (sc_rec s)) (w_add s w)).
Proof.
  intros [Hg Hl Hr Hf Ho] Hfree Hm Hlive. set (w' := w_write _ _ _).
  assert (∀ j x, sw_heap w' !! j = Some x → (j = length (sw_heap w) ∧ x = s) ∨ sw_heap w !! j = Some x) as Hheap.
  { intros j x Hx. cbn in Hx. apply lookup_app_Some in Hx as [?|[Hj Hx]]; [by right|].
    left. apply list_lookup_singleton_Some in Hx as [E ->]. split; [lia|done]. }
  assert (∀ j x, sw_heap w !! j = Some x → sw_heap w' !! j = Some x) as Hold
    by (intros j x Hx; cbn; by apply lookup_app_l_Some).
  assert (sw_heap w' !! length (sw_heap w) = Some s) as Hnew by (cbn; by apply list_lookup_middle).
  split.
  - intros j x Hx Hgx. destruct (Hheap j x Hx) as [[_ ->]|Hx']; [congruence|by eapply Hg].
  - intros j x Hx Hgx. cbn. destruct (Hheap j x Hx) as [[-> ->]|Hx']; [apply lookup_insert_eq|].
    rewrite lookup_insert_ne; [by apply Hl|]. intros E. rewrite E in Hfree. by rewrite (Hl j x Hx' Hgx) in Hfree.
  - intros k r. cbn. rewrite lookup_insert_Some, Hr. split.
    + intros [[<- <-]|[Hne (j & x & Hx & Hgx & <- & <-)]]; [by exists (length (sw_heap w)), s|].
      exists j, x. split_and!; [by apply Hold|done..].
    + intros (j & x & Hx & Hgx & <- & <-). destruct (Hheap j x Hx) as [[-> ->]|Hx']; [by left|].
      right. split; [|by exists j, x]. intros E. rewrite E in Hfree. by rewrite (Hl j x Hx' Hgx) in Hfree.
  - intros j Hj. destruct (Hf j Hj) as (x & Hx & Hgx & Hsx). exists x. split_and!; [by apply Hold|done|].
    cbn. rewrite lookup_insert_ne; [done|]. intros E. rewrite E in Hfree. congruence.
  - intros x Hx. destruct (Ho x Hx) as [(j & y & Hy & Hi)|Hp]; [left; exists j, y; split; [by apply Hold|done]|by right].
Qed.

Section store.
Context `{Unicode} (range_env : gmap string string → list (string * string)).

Lemma TInv_step n w e w' :
  SInv n w → TInv w → 0 ≤ n < max_int64 → undisturbed w e = true → svc_step range_env w e = Some w' → TInv w'.
Proof.
  intros Hinv Ht Hn. unfold undisturbed. rewrite andb_true_iff. intros [Hw Hq].
  destruct e as [sp user tenant checks now wrote|l sp keep checks now wrote|l checks now wrote|l k now wrote|l wrote|l
    |l up owner now|l id r now|l active now wrote|l a now wrote|l now wrote|id a wrote|id]; cbn [svc_step writes] in *;
    try (subst wrote); try (destruct (sw_heap w !! l) as [s|] eqn:Hs; cbn [mbind option_bind]; [|done]).
  - destruct (createService _ _ _ _ _ _ _) as [s|] eqn:E; intros [= <-]; [|done].
    apply createService_ok in E as (_ & Hfree & Hm & Hg). by apply TInv_add.
  - intros [= <-]. unfold changed. destruct (updateService _ _ _ _ _ _) as [s'|] eqn:E; [|done].
    eapply updateService_ok in E as (Hg & r' & -> & Hr); [|by eapply si_ok|lia].
    by apply TInv_request; [..|apply Hr|apply Hr].
  - intros [= <-]. unfold changed. destruct (redeployService _ _ _) as [s'|] eqn:E; [|done].
    eapply redeployService_ok in E as (Hg & r' & -> & Hr); [|by eapply si_ok|lia].
    by apply TInv_request; [..|apply Hr|apply Hr].
  - intros [= <-]. unfold changed. destruct (scaleService _ _ _) as [s'|] eqn:E; [|done].
    eapply (scaleService_ok range_env n (sw_spec w)) in E as (Hg & r' & -> & Hr); [|by eapply si_ok].
    by apply TInv_request; [..|apply Hr|apply Hr].
  - intros [= <-]. destruct (sc_gone s) eqn:Eg; cbn; [done|]. by apply TInv_deleted.
  - case_bool_decide; [|done]. intros [= <-]. by apply TInv_forgotten.
  - intros [= <-]. apply (TInv_observed w l s); [done|done|apply observeService_rec|apply observeService_gone].
  - intros [= <-]. apply (TInv_observed w l s); [done|done|apply checked_rec|apply checked_gone].
  - destruct (sw_passes w !! l) eqn:Hl; [done|]. intros [= <-]. by eapply TInv_decided.
  - destruct (sw_passes w !! l) as [[rev m|]|] eqn:Hl; [|done..]. apply negb_true_iff in Hq.
    destruct a as [id node pid|st tr|id]; [case_bool_decide as Hid; [done|]| |case_bool_decide as Hid; [done|]];
      intros [= <-]; unfold answer_replica.
    + by eapply TInv_made.
    + pose proof (TInv_failed w l s rev m m (refusedNow (not_created st tr)) now Ht Hs Hl Hq) as Hf.
      by destruct (create_failed now rev m _ s).
    + pose proof (TInv_failed _ l s rev m m (refusedNow (not_started id)) now
                    (TInv_unstarted w id (rv_Spec rev) Ht) Hs Hl Hq) as Hf.
      by destruct (create_failed now rev m _ s).
  - destruct (sw_passes w !! l) as [[|rev m id node pid]|] eqn:Hl; [done| |done]. intros [= <-].
    by apply TInv_recorded.
  - destruct (_ && _); [|done]. intros [= <-]. destruct Ht as [Hg Hl Hr Hf Ho]. split; try done. intros x Hx. cbn in Hx.
    apply elem_of_difference in Hx as [Hx Hnx]. destruct (Ho x Hx) as [Hp|[Hp|Hp]]; [by left| |by right; right].
    right; left. cbn. apply elem_of_bfilter. split; [done|]. rewrite elem_of_list_to_set in Hnx. by case_bool_decide.
  - intros [= <-]. destruct Ht as [Hg Hl Hr Hf Ho]. split; try done. intros x Hx. apply Ho. cbn in Hx. set_solver.
Qed.
Lemma TInv_initial : TInv sw_initial.
Proof.
  split; try done.
  - intros k r. cbn. rewrite lookup_empty. split; [done|]. by intros (l & s & Hs & _).
Qed.

(** A run whose every write is taken, and in which no create is refused to a
    service deleted meanwhile. *)
Fixpoint quiet (w : SWorld) (es : list svc_event) : bool :=
  match es with
  | [] => true
  | e :: es =>
      undisturbed w e && match svc_step range_env w e with Some w' => quiet w' es | None => true end
  end.

Lemma TInv_run es : ∀ n w w', SInv n w → TInv w → 0 ≤ n → n + Z.of_nat (length es) ≤ max_int64 →
  svc_run range_env w es = Some w' → quiet w es = true → TInv w'.
Proof.
  induction es as [|e es IH]; intros n w w' Hinv Ht Hn Hlen; cbn [svc_run quiet length].
  - by intros [= <-].
  - cbn [length] in Hlen. destruct (svc_step range_env w e) as [w1|] eqn:E; cbn; [|done]. intros Hrun [Hu Hq]%andb_prop.
    eapply (IH (n + 1) w1); [| |lia|lia|done|done].
    + eapply SInv_step; [done|lia|done].
    + eapply TInv_step; [done|done|lia|done|done].
Qed.

(** C16. While the store takes the writes and no create is refused to a service
    deleted since it began, however requests, passes and answers interleave:
    a gateway that restarts resumes exactly the services there are, each with
    its spec, its revisions, its rollout and its replicas as they stand; and every sandbox made
    for a replica and not terminated is in a stored service, in the stored
    queue of those to terminate, or has this moment come back from its node to
    a pass that will put it in one of them. *)
Theorem no_replica_forgotten es w :
  Z.of_nat (length es) ≤ max_int64 → svc_run range_env sw_initial es = Some w → quiet sw_initial es = true →
  (∀ k s', newServiceCtl (ss_records (sw_store w)) !! k = Some s' ↔
     ∃ l s, sw_svcs w !! k = Some l ∧ sw_heap w !! l = Some s ∧ sc_gone s = false ∧ key_of (sc_rec s) = k ∧
       s' = resume (sc_rec s)) ∧
  (∀ id, id ∈ sw_owned w →
     (∃ k r, ss_records (sw_store w) !! k = Some r ∧ id ∈ ids (sr_Members r)) ∨
     id ∈ ss_retiring (sw_store w) ∨ in_pass_made w id).
Proof.
  intros Hlen Hrun Hq.
  assert (TInv w) as [Hg Hl Hr _ Ho]
    by (apply (TInv_run es 0 sw_initial w); [apply SInv_initial|apply TInv_initial|lia|lia|done|done]).
  split.
  - intros k s'. unfold newServiceCtl. rewrite lookup_fmap, fmap_Some. split.
    + intros (r & (l & s & Hs & Hlive & <- & <-)%Hr & ->). exists l, s. split_and!; [by apply Hl|done..].
    + intros (l & s & _ & Hs & Hlive & Hk & ->). exists (sc_rec s). split; [|done]. apply Hr. by exists l, s.
  - intros id Hid. destruct (Ho id Hid) as [(l & s & Hs & Hi)|[Hq'|Hp]]; [|by right; left|by right; right].
    left. exists (key_of (sc_rec s)), (sc_rec s). split; [|done]. apply Hr. exists l, s. split_and!; [done| |done..].
    destruct (sc_gone s) eqn:Eg; [|done]. rewrite (Hg l s Hs Eg) in Hi. by apply not_elem_of_nil in Hi.
Qed.
End store.

(** ** Runs *)
Section runs.
Definition shop_spec (image : string) : ServiceSpec := {|
  sp_Name := "shop"; sp_Image := image; sp_Command := []; sp_Replicas := 1;
  sp_Resources := {| svr_CPUs := fzero; svr_MemoryMB := 0; svr_DiskMB := 0 |}; sp_Port := 0; sp_Health := None;
  sp_Env := ∅; sp_Network := None; sp_Spread := ""; sp_Public := false; sp_Secrets := [] |}.
Definition shop_key : svc_key := ("acme", "shop")%string.
Definition no_env (_ : gmap string string) : list (string * string) := [].
Local Instance ascii : Unicode := ascii_unicode.

Definition up (_ : string) : bool := true.
Definition on_n1 (_ : string) : option (option string) := Some (Some "n1"%string).

(** A service, its one replica, and a rollout whose new replica is being made. *)
Definition shop_rolls : list svc_event := [
  SE_create (shop_spec "img:1") "ann" "acme" true second true;
  SE_decide 0 true (2 * second) true; SE_answer 0 (made "sb-1" "n1" 0) (3 * second) true;
  SE_record 0 (3 * second) true; SE_observe 0 up on_n1 (4 * second); SE_checked 0 "sb-1" check_passed (4 * second);
  SE_update 0 (shop_spec "img:2") false true (5 * second) true; SE_decide 0 true (6 * second) true ]%string.

(** The rollout done: the new replica in place, the old one terminated. *)
Definition shop_rolled : list svc_event := shop_rolls ++ [
  SE_answer 0 (made "sb-2" "n1" 0) (7 * second) true; SE_record 0 (7 * second) true;
  SE_observe 0 up on_n1 (8 * second); SE_checked 0 "sb-2" check_passed (8 * second);
  SE_decide 0 true (9 * second) true; SE_end "sb-1" (answered 204) true; SE_decide 0 true (9 * second) true ]%string.

Definition at_end (es : list svc_event) : SWorld := default sw_initial (svc_run no_env sw_initial es).

Lemma shop_rolled_runs : svc_run no_env sw_initial shop_rolled = Some (at_end shop_rolled).
Proof. vm_compute. reflexivity. Qed.

(** The service at the end of it, and its replica. *)
Definition shop_after : service :=
  default (new_service (shop_spec "") "" "" 0) (sw_heap (at_end shop_rolled) !! 0%nat).
Definition shop_replica : replicaRecord := {|
  rp_Sandbox := "sb-2"; rp_Node := "n1"; rp_Rev := 2; rp_PID := 0; rp_Restarts := 0; rp_Created := 7 * second |}.

Lemma services_sound_witness :
  shop_replica ∈ members shop_after ∧
  sw_spec (at_end shop_rolled) !! "sb-2"%string = Some (specOf (sc_rec shop_after) 2) ∧
  specOf (sc_rec shop_after) 2 = shop_spec "img:2".
Proof.
  assert (shop_replica ∈ members shop_after) as Hm by (vm_compute; left).
  split; [exact Hm|]. split; [|vm_compute; reflexivity].
  assert (Z.of_nat (length shop_rolled) ≤ max_int64) as Hlen by (vm_compute; discriminate).
  assert (sw_heap (at_end shop_rolled) !! 0%nat = Some shop_after) as E by (vm_compute; reflexivity).
  exact (proj1 (proj2 (proj1 (services_sound no_env shop_rolled _ Hlen shop_rolled_runs) _ _ E) _ Hm)).
Defined.

Lemma no_replica_forgotten_witness :
  sw_owned (at_end shop_rolled) = {["sb-2"%string]} ∧
  newServiceCtl (ss_records (sw_store (at_end shop_rolled))) !! shop_key = Some (resume (sc_rec shop_after)).
Proof.
  assert (sw_owned (at_end shop_rolled) = {["sb-2"%string]}) as Ho
    by (apply (bool_decide_unpack _); vm_compute; exact I).
  split; [exact Ho|].
  assert (Z.of_nat (length shop_rolled) ≤ max_int64) as Hlen by (vm_compute; discriminate).
  assert (quiet no_env sw_initial shop_rolled = true) as Hq by (vm_compute; reflexivity).
  assert (sw_heap (at_end shop_rolled) !! 0%nat = Some shop_after) as E by (vm_compute; reflexivity).
  apply (proj1 (no_replica_forgotten no_env shop_rolled _ Hlen shop_rolled_runs Hq)).
  exists 0%nat, shop_after. split_and!; [vm_compute; reflexivity|exact E|vm_compute; reflexivity|reflexivity|vm_compute; reflexivity].
Defined.

(** The service is deleted, and another of its name made, while a replica of
    the new revision is being made; then the node refuses that replica. *)
Definition shop_deleted : list svc_event := shop_rolls ++ [
  SE_delete 0 true; SE_forget 0; SE_end "sb-1" (answered 204) true;
  SE_answer 0 (not_created 400 false) (8 * second) true ]%string.
Definition shop_replaced : list svc_event := shop_rolls ++ [
  SE_delete 0 true; SE_forget 0; SE_end "sb-1" (answered 204) true;
  SE_create (shop_spec "img:3") "ann" "acme" true (7 * second) true;
  SE_answer 0 (not_created 400 false) (8 * second) true ]%string.

(** A service deleted while a rollout's replica is being made comes back:
    the node's refusal ends the rollout, which writes the record of the
    service that is no more, and the store then holds a service the gateway
    does not. If another of its name was made meanwhile, its record is the
    one overwritten, and a restart brings back the deleted spec in its place. *)
Theorem deleted_service_returns :
  (∃ w r, svc_run no_env sw_initial shop_deleted = Some w ∧ sw_svcs w = ∅ ∧
     ss_records (sw_store w) !! shop_key = Some r ∧ sr_Spec r = shop_spec "img:2") ∧
  (∃ w s r, svc_run no_env sw_initial shop_replaced = Some w ∧ sw_svcs w !! shop_key = Some 1%nat ∧
     sw_heap w !! 1%nat = Some s ∧ sr_Spec (sc_rec s) = shop_spec "img:3" ∧
     ss_records (sw_store w) !! shop_key = Some r ∧ sr_Spec r = shop_spec "img:2").
Proof.
  split.
  - exists (at_end shop_deleted), (default (sc_rec shop_after) (ss_records (sw_store (at_end shop_deleted)) !! shop_key)).
    split; [vm_compute; reflexivity|]. split; [apply (bool_decide_unpack _); vm_compute; exact I|].
    split; vm_compute; reflexivity.
  - exists (at_end shop_replaced), (default shop_after (sw_heap (at_end shop_replaced) !! 1%nat)),
      (default (sc_rec shop_after) (ss_records (sw_store (at_end shop_replaced)) !! shop_key)).
    do 5 (split; [vm_compute; reflexivity|]). vm_compute; reflexivity.
Qed.

(** The node of a replica is down: the replica leaves the service, and the
    store does not take that write. *)
Definition shop_loses : list svc_event := shop_rolls ++ [
  SE_answer 0 (made "sb-2" "n1" 0) (7 * second) true; SE_record 0 (7 * second) true;
  SE_observe 0 (λ _, false) on_n1 (8 * second); SE_decide 0 true (8 * second) false;
  SE_end "sb-1" node_down true; SE_end "sb-2" node_down true;
  SE_decide 0 true (9 * second) true; SE_answer 0 (made "sb-3" "n2" 0) (10 * second) true;
  SE_record 0 (10 * second) true ]%string.

(** A write the store does not take is not caught up with by the next: the
    replicas it was to queue are in no queue and in no service, and run on. *)
Theorem lost_write_forgets :
  ∃ w r, svc_run no_env sw_initial shop_loses = Some w ∧ ss_retiring (sw_store w) = [] ∧
    ss_records (sw_store w) !! shop_key = Some r ∧ ids (sr_Members r) = ["sb-3"%string] ∧
    ("sb-1"%string ∈ sw_owned w) ∧ ("sb-2"%string ∈ sw_owned w).
Proof.
  assert (svc_run no_env sw_initial shop_loses = Some (at_end shop_loses)) as E by (vm_compute; reflexivity).
  exists (at_end shop_loses), (default (sc_rec shop_after) (ss_records (sw_store (at_end shop_loses)) !! shop_key)).
  split; [exact E|]. split; [vm_compute; reflexivity|]. split; [vm_compute; reflexivity|].
  split; [vm_compute; reflexivity|]. split; apply (bool_decide_unpack _); vm_compute; exact I.
Qed.
End runs.
