(* ===== verification/NodeRoom.v ===== *)
(** * What the gateway believes of a node's room (internal/gateway: nodes.go,
    sandboxes.go place)

    A node is believed free as its last status said, less what was placed on
    it since. [gnode] is the gateway's state of one node and the operations on
    it, each one locked section. [room] is the node and the gateway together:
    creates in flight, polls in flight, sandboxes that end; [room_step] is any
    interleaving of them. CPUs are doubles and are left to [candidate]; the
    room proved about is memory, and GPUs. *)
From S2P Require Import Prelude GoStrings Api Scheduler.

(** ** The gateway's side *)
Record placement := {
  pl_res : NodeResources;
  pl_sent : Z;
  pl_done : option Z;                (** [None] while the create is in flight *)
  pl_id : string
}.

(** A placement is known by its pointer. *)
Record gnode := {
  gn_Name : string;
  gn_healthy : bool;
  gn_fails : Z;
  gn_lastSeen : Z;
  gn_status : option NodeStatus;
  gn_placed : gmap nat placement;
  gn_heldFree : Z;
  gn_downSince : Z;
  gn_wantCordon : bool
}.

Definition on_placed (f : gmap nat placement → gmap nat placement) (n : gnode) : gnode := {|
  gn_Name := gn_Name n; gn_healthy := gn_healthy n; gn_fails := gn_fails n; gn_lastSeen := gn_lastSeen n;
  gn_status := gn_status n; gn_placed := f (gn_placed n); gn_heldFree := gn_heldFree n;
  gn_downSince := gn_downSince n; gn_wantCordon := gn_wantCordon n |}.

Definition newNode (name : string) (now : Z) : gnode := {|
  gn_Name := name; gn_healthy := false; gn_fails := 0; gn_lastSeen := zero_time; gn_status := None;
  gn_placed := ∅; gn_heldFree := 0; gn_downSince := now; gn_wantCordon := false |}.

Definition no_resources : NodeResources :=
  {| nr_CPUs := fzero; nr_MemoryMB := 0; nr_DiskMB := 0; nr_GPUs := 0 |}.
Definition add_resources (a b : NodeResources) : NodeResources := {|
  nr_CPUs := fadd (nr_CPUs a) (nr_CPUs b); nr_MemoryMB := int_add (nr_MemoryMB a) (nr_MemoryMB b);
  nr_DiskMB := int_add (nr_DiskMB a) (nr_DiskMB b); nr_GPUs := int_add (nr_GPUs a) (nr_GPUs b) |}.

Definition set_Cordoned (c : bool) (st : NodeStatus) : NodeStatus := {|
  ns_Node := ns_Node st; ns_Version := ns_Version st; ns_Capabilities := ns_Capabilities st;
  ns_Capacity := ns_Capacity st; ns_Free := ns_Free st; ns_Running := ns_Running st;
  ns_Pooled := ns_Pooled st; ns_Images := ns_Images st; ns_Labels := ns_Labels st; ns_Cordoned := c |}.
Definition set_Free (f : NodeResources) (st : NodeStatus) : NodeStatus := {|
  ns_Node := ns_Node st; ns_Version := ns_Version st; ns_Capabilities := ns_Capabilities st;
  ns_Capacity := ns_Capacity st; ns_Free := f; ns_Running := ns_Running st;
  ns_Pooled := ns_Pooled st; ns_Images := ns_Images st; ns_Labels := ns_Labels st;
  ns_Cordoned := ns_Cordoned st |}.

Definition maxHeldFree : Z := 10.

Section node.
(** The order in which Go ranges over a map. *)
Context (range : gmap nat placement → list (nat * placement)).

Definition candidate (n : gnode) : option Candidate :=
  match gn_status n with
  | Some st =>
      if gn_healthy n then
        Some {| cand_Name := gn_Name n; cand_Status := set_Cordoned (ns_Cordoned st || gn_wantCordon n) st;
                cand_Reserved := foldl (λ r p, add_resources r (pl_res (snd p))) no_resources (range (gn_placed n)) |}
      else None
  | None => None
  end.

(** [p] is the address of the new placement. *)
Definition reserve (p : nat) (res : NodeResources) (now : Z) : gnode → gnode :=
  on_placed <[p := {| pl_res := res; pl_sent := now; pl_done := None; pl_id := "" |}]>.

Definition end_placement (now : Z) (pl : placement) : placement :=
  {| pl_res := pl_res pl; pl_sent := pl_sent pl; pl_done := Some now; pl_id := pl_id pl |}.
Definition finish (p : nat) (created : bool) (now : Z) : gnode → gnode :=
  if created then on_placed (alter (end_placement now) p) else on_placed (delete p).

Definition name_placement (id : string) (pl : placement) : placement :=
  {| pl_res := pl_res pl; pl_sent := pl_sent pl; pl_done := pl_done pl; pl_id := id |}.
Definition created (p : nat) (id : string) (now : Z) (n : gnode) : gnode :=
  finish p true now (on_placed (alter (name_placement id) p) n).

(** [-x] of an [int]; a double's sign is turned. *)
Definition credit_of (res : NodeResources) : NodeResources := {|
  nr_CPUs := SFopp (nr_CPUs res); nr_MemoryMB := wrap64 (- nr_MemoryMB res);
  nr_DiskMB := wrap64 (- nr_DiskMB res); nr_GPUs := 0 |}.

(** [p] is the address of the credit, if one is made. *)
Definition released (p : nat) (id : string) (res : NodeResources) (now : Z) (n : gnode) : gnode :=
  match List.find (λ '(_, pl), String.eqb (pl_id pl) id) (range (gn_placed n)) with
  | Some (k, _) => on_placed (delete k) n
  | None => on_placed <[p := {| pl_res := credit_of res; pl_sent := now; pl_done := Some now; pl_id := id |}]> n
  end.

(** ** Polls *)
Definition before (t asked : Z) : bool := t <? asked.

Definition in_doubt (asked : Z) (pl : placement) : bool :=
  before (pl_sent pl) asked && match pl_done pl with None => true | Some d => negb (before d asked) end.
Definition counted_now (asked : Z) (pl : placement) : bool :=
  match pl_done pl with None => false | Some d => before d asked end.

Definition poll_failed (failAfter : Z) (renamed : bool) (n : gnode) : gnode :=
  let fails := int_add (if renamed then failAfter else gn_fails n) 1 in
  {| gn_Name := gn_Name n; gn_healthy := gn_healthy n && (fails <? failAfter); gn_fails := fails;
     gn_lastSeen := gn_lastSeen n; gn_status := gn_status n; gn_placed := gn_placed n;
     gn_heldFree := gn_heldFree n; gn_downSince := gn_downSince n; gn_wantCordon := gn_wantCordon n |}.

(** Whether the status's Free is taken, or the one before it kept. *)
Definition keeps_free (asked : Z) (n : gnode) : bool :=
  existsb (λ '(_, pl), in_doubt asked pl) (range (gn_placed n)) && bool_decide (is_Some (gn_status n)) &&
  (gn_heldFree n <? maxHeldFree).

Definition poll_answered (asked now : Z) (st : NodeStatus) (n : gnode) : gnode :=
  let held := keeps_free asked n in
  {| gn_Name := gn_Name n; gn_healthy := true; gn_fails := 0; gn_lastSeen := now;
     gn_status := Some (match gn_status n with
                        | Some old => if held then set_Free (ns_Free old) st else st
                        | None => st
                        end);
     gn_placed := if held then gn_placed n
                  else filter (λ kp, counted_now asked kp.2 = false) (gn_placed n);
     gn_heldFree := if held then gn_heldFree n + 1 else 0;
     gn_downSince := now; gn_wantCordon := gn_wantCordon n |}.

(** [None] is no answer. *)
Definition poll (failAfter asked now : Z) (a : option NodeStatus) (n : gnode) : gnode :=
  match a with
  | None => poll_failed failAfter false n
  | Some st =>
      if negb (String.eqb (ns_Node st) "") && negb (String.eqb (ns_Node st) (gn_Name n))
      then poll_failed failAfter true n
      else poll_answered asked now st n
  end.

(** ** Cordons

    The wish is kept before the node is asked, and its status said cordoned
    once it took it; a poll that finds it uncordoned asks again. *)
Definition cordon_wished (c : bool) (n : gnode) : gnode := {|
  gn_Name := gn_Name n; gn_healthy := gn_healthy n; gn_fails := gn_fails n; gn_lastSeen := gn_lastSeen n;
  gn_status := gn_status n; gn_placed := gn_placed n; gn_heldFree := gn_heldFree n;
  gn_downSince := gn_downSince n; gn_wantCordon := c |}.
Definition cordon_taken (c : bool) (n : gnode) : gnode := {|
  gn_Name := gn_Name n; gn_healthy := gn_healthy n; gn_fails := gn_fails n; gn_lastSeen := gn_lastSeen n;
  gn_status := set_Cordoned c <$> gn_status n; gn_placed := gn_placed n; gn_heldFree := gn_heldFree n;
  gn_downSince := gn_downSince n; gn_wantCordon := gn_wantCordon n |}.
Definition cordons_again (st : NodeStatus) (n : gnode) : bool := gn_wantCordon n && negb (ns_Cordoned st).

Definition downFor (n : gnode) : option Z := if gn_healthy n then None else Some (gn_downSince n).
End node.

(** ** The node and the gateway together *)

(** A create's sandbox on the node, from its placement on. *)
Inductive fate := unmade | refused | running | ended | deleted | credited.
#[export] Instance fate_eq_dec : EqDecision fate.
Proof. solve_decision. Defined.

(** [it_answered]: the gateway has the node's answer. [deleted]: ended by the
    gateway's DELETE, whose 204 is on its way; [credited]: it has come. *)
Record item := {
  it_res : NodeResources;
  it_size : NodeResources;
  it_id : string;
  it_fate : fate;
  it_answered : bool
}.
Definition with_fate (f : fate) (x : item) : item := {|
  it_res := it_res x; it_size := it_size x; it_id := it_id x; it_fate := f; it_answered := it_answered x |}.

(** A poll on its way: once the node has made its answer, that answer, and the
    sandboxes it counts. *)
Record poll_out := { po_asked : Z; po_answer : option (NodeStatus * gset nat) }.

(** [rm_counted]: the sandboxes the gateway's status counts. [rm_credit]: when
    the gateway last heard that one it deleted was gone. *)
Record room := {
  rm_node : gnode;
  rm_cap : NodeResources;
  rm_items : list item;
  rm_counted : gset nat;
  rm_polls : gmap nat poll_out;
  rm_clock : Z;
  rm_credit : Z
}.

(** The addresses of the placement of item [i], and of its credit. *)
Definition placement_of (i : nat) : nat := 2 * i.
Definition credit_at (i : nat) : nat := 2 * i + 1.

Definition room_initial (name : string) (cap : NodeResources) (now : Z) : room := {|
  rm_node := newNode name now; rm_cap := cap; rm_items := []; rm_counted := ∅; rm_polls := ∅;
  rm_clock := now; rm_credit := now |}.

Definition rm_set (n : gnode) (its : list item) (r : room) : room := {|
  rm_node := n; rm_cap := rm_cap r; rm_items := its; rm_counted := rm_counted r; rm_polls := rm_polls r;
  rm_clock := rm_clock r; rm_credit := rm_credit r |}.
Definition rm_at (now : Z) (r : room) : room := {|
  rm_node := rm_node r; rm_cap := rm_cap r; rm_items := rm_items r; rm_counted := rm_counted r;
  rm_polls := rm_polls r; rm_clock := now; rm_credit := rm_credit r |}.
Definition rm_credited (now : Z) (r : room) : room := {|
  rm_node := rm_node r; rm_cap := rm_cap r; rm_items := rm_items r; rm_counted := rm_counted r;
  rm_polls := rm_polls r; rm_clock := rm_clock r; rm_credit := now |}.
Definition rm_poll (f : gmap nat poll_out → gmap nat poll_out) (r : room) : room := {|
  rm_node := rm_node r; rm_cap := rm_cap r; rm_items := rm_items r; rm_counted := rm_counted r;
  rm_polls := f (rm_polls r); rm_clock := rm_clock r; rm_credit := rm_credit r |}.
Definition rm_count (c : gset nat) (r : room) : room := {|
  rm_node := rm_node r; rm_cap := rm_cap r; rm_items := rm_items r; rm_counted := c;
  rm_polls := rm_polls r; rm_clock := rm_clock r; rm_credit := rm_credit r |}.

Definition want_res (w : Want) : NodeResources := {|
  nr_CPUs := w_CPUs w; nr_MemoryMB := w_MemoryMB w; nr_DiskMB := w_DiskMB w; nr_GPUs := w_GPUs w |}.

Definition sum (l : list Z) : Z := foldr Z.add 0 l.
(** Over the items and their numbers. *)
Definition total (f : nat → item → Z) (r : room) : Z := sum (imap f (rm_items r)).

Definition size_if (p : fate → bool) (π : NodeResources → Z) (_ : nat) (x : item) : Z :=
  if p (it_fate x) then π (it_size x) else 0.
Definition is_running (f : fate) : bool := bool_decide (f = running).
(** What runs on the node. *)
Definition in_use (π : NodeResources → Z) (r : room) : Z := total (size_if is_running π) r.
(** And what creates on their way have been promised. *)
Definition promised (π : NodeResources → Z) (r : room) : Z :=
  total (λ _ x, if bool_decide (it_fate x = unmade) then π (it_res x) else 0) r.

Inductive room_event :=
| RE_place (w : Want)
| RE_made (i : nat) (id : string) (size : NodeResources)
| RE_refused (i : nat)
| RE_answered (i : nat)
| RE_ended (i : nat)
| RE_deleted (i : nat)
| RE_released (i : nat)
| RE_ask (q : nat)
| RE_status (q : nat) (st : NodeStatus)
| RE_poll (q : nat) (failAfter : Z)
| RE_unanswered (q : nat) (failAfter : Z).

(** The numbers of those that run. *)
Definition running_now (r : room) : gset nat :=
  list_to_set (omap (λ i, x ← rm_items r !! i; if is_running (it_fate x) then Some i else None)
                 (seq 0 (length (rm_items r)))).

Definition alter_item (i : nat) (f : item → item) (r : room) : room := rm_set (rm_node r) (alter f i (rm_items r)) r.

(** A status says free no more than what runs leaves as the node makes it: it
    may be less, for warm pools and GPUs not ready, and is never negative. *)
Definition true_status (st : NodeStatus) (r : room) : bool :=
  (0 <=? nr_MemoryMB (ns_Free st)) && (nr_MemoryMB (ns_Free st) <=? nr_MemoryMB (rm_cap r) - in_use nr_MemoryMB r) &&
  (0 <=? nr_GPUs (ns_Free st)) && (nr_GPUs (ns_Free st) <=? nr_GPUs (rm_cap r) - in_use nr_GPUs r).

(** A sandbox takes no more than was placed for it. *)
Definition fits_within (size res : NodeResources) : bool :=
  (0 <=? nr_MemoryMB size) && (nr_MemoryMB size <=? nr_MemoryMB res) &&
  (0 <=? nr_GPUs size) && (nr_GPUs size <=? nr_GPUs res).

Section room.
Context (range : gmap nat placement → list (nat * placement)).

(** What an event does at [now]. A create is placed only on a node the
    scheduler finds room on ([hasRoom]), a refused one was not made, and an id
    is no other sandbox's. *)
Definition room_do (now : Z) (e : room_event) (r : room) : option room :=
  match e with
  | RE_place w =>
      c ← candidate range (rm_node r);
      if hasRoom c w && (0 <=? w_MemoryMB w) && (0 <=? w_GPUs w)
      then Some (rm_set (reserve (placement_of (length (rm_items r))) (want_res w) now (rm_node r))
                   (rm_items r ++ [{| it_res := want_res w; it_size := no_resources; it_id := ""; it_fate := unmade;
                                      it_answered := false |}]) r)
      else None
  | RE_made i id size =>
      x ← rm_items r !! i;
      if bool_decide (it_fate x = unmade) && fits_within size (it_res x) && negb (String.eqb id "") &&
         negb (existsb (λ y, String.eqb (it_id y) id) (rm_items r))
      then Some (alter_item i (λ x, {| it_res := it_res x; it_size := size; it_id := id; it_fate := running;
                                       it_answered := it_answered x |}) r)
      else None
  | RE_refused i =>
      x ← rm_items r !! i;
      if bool_decide (it_fate x = unmade) then Some (alter_item i (with_fate refused) r) else None
  | RE_answered i =>
      x ← rm_items r !! i;
      if it_answered x || bool_decide (it_fate x = unmade) then None
      else Some (rm_set (if bool_decide (it_fate x = refused) then finish (placement_of i) false now (rm_node r)
                         else created (placement_of i) (it_id x) now (rm_node r))
                   (alter (λ x, {| it_res := it_res x; it_size := it_size x; it_id := it_id x;
                                   it_fate := it_fate x; it_answered := true |}) i (rm_items r)) r)
  | RE_ended i =>
      x ← rm_items r !! i;
      if is_running (it_fate x) then Some (alter_item i (with_fate ended) r) else None
  | RE_deleted i =>
      x ← rm_items r !! i;
      if is_running (it_fate x) then Some (alter_item i (with_fate deleted) r) else None
  | RE_released i =>
      x ← rm_items r !! i;
      if bool_decide (it_fate x = deleted)
      then Some (rm_credited now (rm_set (released range (credit_at i) (it_id x) (it_size x) now (rm_node r))
                                    (alter (with_fate credited) i (rm_items r)) r))
      else None
  | RE_ask q =>
      match rm_polls r !! q with
      | Some _ => None
      | None => Some (rm_poll <[q := {| po_asked := now; po_answer := None |}]> r)
      end
  | RE_status q st =>
      p ← rm_polls r !! q;
      match po_answer p with
      | Some _ => None
      | None => if true_status st r
                then Some (rm_poll <[q := {| po_asked := po_asked p; po_answer := Some (st, running_now r) |}]> r)
                else None
      end
  | RE_poll q failAfter =>
      p ← rm_polls r !! q;
      match po_answer p with
      | None => None
      | Some (st, counts) =>
          let r' := rm_poll (delete q) (rm_set (poll range failAfter (po_asked p) now (Some st) (rm_node r))
                                          (rm_items r) r) in
          let mine := String.eqb (ns_Node st) "" || String.eqb (ns_Node st) (gn_Name (rm_node r)) in
          Some (if mine && negb (keeps_free range (po_asked p) (rm_node r)) then rm_count counts r' else r')
      end
  | RE_unanswered q failAfter =>
      p ← rm_polls r !! q;
      Some (rm_poll (delete q) (rm_set (poll range failAfter (po_asked p) now None (rm_node r)) (rm_items r) r))
  end.

(** The clock moves between events. *)
Definition room_step (now : Z) (e : room_event) (r : room) : option room :=
  if rm_clock r <? now then room_do now e (rm_at now r) else None.

Fixpoint room_run (es : list (Z * room_event)) (r : room) : option room :=
  match es with
  | [] => Some r
  | (now, e) :: es => r' ← room_step now e r; room_run es r'
  end.

(** One poll at a time, and no status made between a sandbox's DELETE and the
    gateway's hearing of it, or asked for before it heard. *)
Definition room_quiet (e : room_event) (r : room) : bool :=
  match e with
  | RE_ask _ => bool_decide (rm_polls r = ∅)
  | RE_status q _ =>
      forallb (λ x, negb (bool_decide (it_fate x = deleted))) (rm_items r) &&
      match rm_polls r !! q with Some p => rm_credit r <? po_asked p | None => true end
  | _ => true
  end.
Fixpoint quiet_run (es : list (Z * room_event)) (r : room) : bool :=
  match es with
  | [] => true
  | (now, e) :: es =>
      room_quiet e r && match room_step now e r with Some r' => quiet_run es r' | None => true end
  end.
End room.

(** ** Sums *)
Definition sumf (n : nat) (g : nat → Z) : Z := sum (g <$> seq 0 n).

Lemma sum_app l k : sum (l ++ k) = sum l + sum k.
Proof. unfold sum. induction l as [|x l IH]; cbn; lia. Qed.

Lemma sum_perm l k : l ≡ₚ k → sum l = sum k.
Proof. unfold sum. induction 1; cbn; lia. Qed.

Lemma sumf_S n g : sumf (S n) g = sumf n g + g n.
Proof. unfold sumf. rewrite seq_S, fmap_app, sum_app. unfold sum at 2. cbn. lia. Qed.

Lemma sumf_le n f g : (∀ i, (i < n)%nat → f i ≤ g i) → sumf n f ≤ sumf n g.
Proof. induction n as [|n IH]; intros Hle; [done|]. rewrite !sumf_S.
  pose proof (Hle n ltac:(lia)). assert (∀ i, (i < n)%nat → f i ≤ g i) as Hn by (intros; apply Hle; lia). specialize (IH Hn). lia. Qed.

Lemma sumf_ext n f g : (∀ i, (i < n)%nat → f i = g i) → sumf n f = sumf n g.
Proof. intros He. apply Z.le_antisymm; apply sumf_le; intros i Hi; rewrite He by done; lia. Qed.

Lemma sumf_add n f g : sumf n (λ i, f i + g i) = sumf n f + sumf n g.
Proof. induction n as [|n IH]; [done|]. rewrite !sumf_S, IH. lia. Qed.

Lemma sumf_bound n f b : (∀ i, (i < n)%nat → f i ≤ b) → sumf n f ≤ Z.of_nat n * b.
Proof. induction n as [|n IH]; intros Hle; [cbn; lia|]. rewrite sumf_S.
  pose proof (Hle n ltac:(lia)). assert (∀ i, (i < n)%nat → f i ≤ b) as Hn by (intros; apply Hle; lia). specialize (IH Hn). lia. Qed.

Lemma sumf_pairs n f : sumf (2 * n) f = sumf n (λ i, f (placement_of i) + f (credit_at i)).
Proof.
  induction n as [|n IH]; [done|]. replace (2 * S n)%nat with (S (S (2 * n))) by lia.
  rewrite !sumf_S, IH. unfold placement_of, credit_at. replace (2 * n + 1)%nat with (S (2 * n)) by lia. lia.
Qed.

(** The sum over a map whose keys are below [n]. *)
Lemma sum_map {A} (f : A → Z) n : ∀ m : gmap nat A, (∀ k, is_Some (m !! k) → (k < n)%nat) →
  sum ((λ kx, f kx.2) <$> map_to_list m) = sumf n (λ k, match m !! k with Some x => f x | None => 0 end).
Proof.
  induction n as [|n IH]; intros m Hm.
  - assert (m = ∅) as ->; [|by rewrite map_to_list_empty].
    apply map_empty. intros k. destruct (m !! k) eqn:E; [|done]. specialize (Hm k (mk_is_Some _ _ E)). lia.
  - rewrite sumf_S. destruct (m !! n) as [x|] eqn:E.
    + rewrite <- (insert_delete_id m n x E) at 1.
      rewrite (sum_perm _ _ (fmap_Permutation _ _ _ (map_to_list_insert _ _ _ (lookup_delete_eq m n)))). cbn.
      rewrite IH.
      * rewrite (sumf_ext n _ (λ k, match m !! k with Some x => f x | None => 0 end)); [lia|].
        intros k Hk. rewrite lookup_delete_ne by lia. done.
      * intros k Hk. destruct (decide (k = n)) as [->|Hne]; [rewrite lookup_delete_eq in Hk; by destruct Hk|].
        rewrite lookup_delete_ne in Hk by done. specialize (Hm k Hk). lia.
    + rewrite IH; [lia|]. intros k Hk. specialize (Hm k Hk). destruct (decide (k = n)) as [->|]; [rewrite E in Hk; by destruct Hk|lia].
Qed.

Lemma total_sumf f r : total f r = sumf (length (rm_items r)) (λ i, match rm_items r !! i with Some x => f i x | None => 0 end).
Proof.
  unfold total, sumf. f_equal. apply list_eq. intros i. rewrite list_lookup_imap, list_lookup_fmap.
  destruct (rm_items r !! i) as [x|] eqn:E.
  - rewrite lookup_seq_lt by (by eapply lookup_lt_Some). cbn. by rewrite E.
  - rewrite lookup_seq_ge by (by apply lookup_ge_None). done.
Qed.

(** ** The room the gateway sees is never more than there is *)
Section sound.
Context (range : gmap nat placement → list (nat * placement)).
Context (range_lists : ∀ m, range m ≡ₚ map_to_list m).
(** Memory, or GPUs. *)
Context (π : NodeResources → Z).
Context (π_none : π no_resources = 0).
Context (π_add : ∀ a b, π (add_resources a b) = int_add (π a) (π b)).
Context (π_credit : ∀ r, 0 ≤ π r ≤ max_int64 → - π r ≤ π (credit_of r) ≤ 0).
Context (π_room : ∀ c w, hasRoom c w = true → π (want_res w) ≤ int_sub (π (ns_Free (cand_Status c))) (π (cand_Reserved c))).
Context (π_want : ∀ w, 0 ≤ w_MemoryMB w → 0 ≤ w_GPUs w → 0 ≤ π (want_res w)).
Context (π_fits : ∀ size res, fits_within size res = true → 0 ≤ π size ≤ π res).
Context (π_status : ∀ st r, true_status st r = true → 0 ≤ π (ns_Free st) ≤ π (rm_cap r) - in_use π r).

Abbreviation placed r := (gn_placed (rm_node r)).

Definition made (f : fate) : bool := negb (bool_decide (f = unmade)) && negb (bool_decide (f = refused)).
(** What still needs room kept for it, in what the gateway sees. *)
Definition covers (f : fate) : bool := bool_decide (f = running) || bool_decide (f = deleted).

(** A placement not yet answered, and one that is. *)
Definition pending_for (x : item) (pl : placement) : Prop :=
  pl_res pl = it_res x ∧ pl_done pl = None ∧ pl_id pl = ""%string.
Definition done_for (x : item) (now : Z) (pl : placement) : Prop :=
  pl_res pl = it_res x ∧ pl_id pl = it_id x ∧ ∃ d, pl_done pl = Some d ∧ d ≤ now.

Record item_ok (r : room) (i : nat) (x : item) : Prop := {
  io_res : 0 ≤ π (it_res x) ≤ max_int64;
  io_size : 0 ≤ π (it_size x) ≤ π (it_res x);
  io_pending : it_answered x = false → ∃ pl, placed r !! placement_of i = Some pl ∧ pending_for x pl;
  io_done : it_answered x = true → ∀ pl, placed r !! placement_of i = Some pl → done_for x (rm_clock r) pl;
  io_unmade : it_fate x = unmade → it_answered x = false;
  io_cover : covers (it_fate x) = true → i ∈ rm_counted r ∨ is_Some (placed r !! placement_of i);
  io_credit : ∀ pl, placed r !! credit_at i = Some pl →
    it_fate x = credited ∧ - π (it_size x) ≤ π (pl_res pl) ≤ 0 ∧
    (pl_id pl = it_id x ∧ ∃ d, pl_done pl = Some d ∧ d ≤ rm_credit r) ∧
    (i ∈ rm_counted r ∨ is_Some (placed r !! placement_of i));
  io_counted : i ∈ rm_counted r → made (it_fate x) = true;
  io_made : it_id x = ""%string ↔ made (it_fate x) = false
}.

(** What a status made and not yet heard leaves out is still placed. *)
Definition answer_ok (r : room) (asked : Z) (st : NodeStatus) (snap : gset nat) : Prop :=
  0 ≤ π (ns_Free st) ≤ π (rm_cap r) - total (λ i x, if bool_decide (i ∈ snap) then π (it_size x) else 0) r ∧
  ∀ i x, rm_items r !! i = Some x →
    (i ∈ snap → made (it_fate x) = true) ∧
    (covers (it_fate x) = true ∨ (∃ pl, placed r !! credit_at i = Some pl ∧ counted_now asked pl = false) →
     (i ∉ snap) → ∃ pl, placed r !! placement_of i = Some pl ∧ counted_now asked pl = false).

Record RInv (r : room) : Prop := {
  ri_items : ∀ i x, rm_items r !! i = Some x → item_ok r i x;
  ri_placed : ∀ k, is_Some (placed r !! k) → (k < 2 * length (rm_items r))%nat;
  ri_ids : ∀ i j x y, rm_items r !! i = Some x → rm_items r !! j = Some y → it_id x = it_id y →
    it_id x ≠ ""%string → i = j;
  ri_free : match gn_status (rm_node r) with
            | Some st => 0 ≤ π (ns_Free st) ≤
                π (rm_cap r) - total (λ i x, if bool_decide (i ∈ rm_counted r) then π (it_size x) else 0) r
            | None => rm_items r = []
            end;
  ri_polls : ∀ q p, rm_polls r !! q = Some p → po_asked p ≤ rm_clock r ∧
    match po_answer p with Some (st, snap) => answer_ok r (po_asked p) st snap | None => True end;
  ri_one : ∀ q q' p p', rm_polls r !! q = Some p → rm_polls r !! q' = Some p' → q = q';
  ri_bounds : (∀ i, i ∈ rm_counted r → (i < length (rm_items r))%nat) ∧
    ∀ q p st snap, rm_polls r !! q = Some p → po_answer p = Some (st, snap) →
      ∀ i, i ∈ snap → (i < length (rm_items r))%nat
}.

Definition seen (r : room) : Z :=
  match gn_status (rm_node r) with
  | Some st => π (ns_Free st) - sum ((λ kx, π (pl_res kx.2)) <$> range (placed r))
  | None => 0
  end.

(** What is left of the node once what is on its way to it has come. *)
Definition spare (r : room) : Z := π (rm_cap r) - in_use π r - promised π r.

Lemma seen_le_spare r : RInv r → is_Some (gn_status (rm_node r)) → seen r ≤ spare r.
Proof.
  intros Hinv [st Hst]. unfold seen, spare. rewrite Hst. pose proof (ri_free r Hinv) as Hf. rewrite Hst in Hf.
  rewrite (sum_perm _ _ (fmap_Permutation _ _ _ (range_lists (placed r)))).
  rewrite (sum_map (λ pl, π (pl_res pl)) (2 * length (rm_items r))) by apply Hinv.
  rewrite sumf_pairs. unfold in_use, promised. rewrite !total_sumf.
  match type of Hf with _ ≤ _ ≤ _ - total ?t r => rewrite (total_sumf t r) in Hf end.
  match type of Hf with _ ≤ _ ≤ _ - sumf ?n ?a => match goal with |- _ - sumf n ?b ≤ _ - sumf n ?c - sumf n ?d =>
    assert (sumf n (λ i, c i + d i) ≤ sumf n (λ i, a i + b i)); [|rewrite !sumf_add in *; lia] end end.
  apply sumf_le. intros i Hi. apply lookup_lt_is_Some in Hi as [x Hx]. rewrite Hx.
  destruct (ri_items r Hinv i x Hx) as [Hres Hsize Hpend Hdone Hun Hcov Hcr Hcnt Hmade].
  assert (∀ pl, placed r !! placement_of i = Some pl → pl_res pl = it_res x) as Hpl.
  { intros pl Hpl. destruct (it_answered x) eqn:Ea.
    - by destruct (Hdone eq_refl pl Hpl) as (-> & _).
    - destruct (Hpend eq_refl) as (pl' & Hpl' & Hr & _). congruence. }
  assert (0 ≤ match placed r !! placement_of i with Some pl => π (pl_res pl) | None => 0 end) as Hp0.
  { destruct (placed r !! placement_of i) as [pl|] eqn:E; [rewrite (Hpl pl eq_refl)|]; lia. }
  assert (is_Some (placed r !! placement_of i) →
    match placed r !! placement_of i with Some pl => π (pl_res pl) | None => 0 end = π (it_res x)) as Hp1.
  { intros [pl E]. rewrite E. by rewrite (Hpl pl E). }
  unfold size_if, is_running.
  destruct (placed r !! credit_at i) as [pl|] eqn:Ec.
  - destruct (Hcr pl eq_refl) as (Hfate & Hneg & _ & Hor). rewrite Hfate.
    destruct Hor as [Hin|Hpl']; [|rewrite Hp1 by done]; repeat case_bool_decide; try done; lia.
  - destruct (it_fate x) eqn:Ef; try (repeat case_bool_decide; try done; lia).
    + destruct (Hpend (Hun eq_refl)) as (pl' & Hpl' & _). rewrite Hp1 by done.
      repeat case_bool_decide; try done; lia.
    + destruct (Hcov eq_refl) as [Hin|Hpl']; [|rewrite Hp1 by done];
        repeat case_bool_decide; try done; lia.
Qed.

(** *** Frames *)
Lemma alter_item_Some f i (its : list item) j (y : item) :
  alter f i its !! j = Some y → ∃ x, its !! j = Some x ∧ ((j = i ∧ y = f x) ∨ (j ≠ i ∧ y = x)).
Proof.
  destruct (decide (j = i)) as [->|Hne].
  - rewrite list_lookup_alter_eq. intros (x & Hx & ->)%fmap_Some. exists x. auto.
  - rewrite list_lookup_alter_ne by done. intros ->. exists y. auto.
Qed.

Lemma item_ok_frame r r' i x :
  item_ok r i x → placed r' !! placement_of i = placed r !! placement_of i →
  placed r' !! credit_at i = placed r !! credit_at i → (i ∈ rm_counted r' ↔ i ∈ rm_counted r) →
  rm_clock r ≤ rm_clock r' → rm_credit r ≤ rm_credit r' → item_ok r' i x.
Proof.
  intros [Hres Hsize Hpend Hdone Hun Hcov Hcr Hcnt Hmade] Hp Hc Hin Hk Hd.
  split; rewrite ?Hp, ?Hc, ?Hin; try done.
  - intros Ha pl Hpl. destruct (Hdone Ha pl Hpl) as (? & ? & d & ? & ?). split_and!; [done|done|exists d; split; [done|lia]].
  - intros pl Hpl. destruct (Hcr pl Hpl) as (? & ? & (? & d & ? & ?) & ?). rewrite ?Hp, Hin.
    split_and!; try done; try lia. exists d. split; [done|lia].
Qed.

Lemma total_alter g f i r r' :
  rm_items r' = alter f i (rm_items r) → (∀ x, rm_items r !! i = Some x → g i (f x) = g i x) → total g r' = total g r.
Proof.
  intros E Hg. rewrite !total_sumf, E, length_alter. apply sumf_ext. intros j Hj.
  destruct (decide (j = i)) as [->|Hne]; [|by rewrite list_lookup_alter_ne].
  rewrite list_lookup_alter_eq. destruct (rm_items r !! i) as [x|]; [|done]. by apply Hg.
Qed.

Lemma answer_ok_frame r r' asked st snap :
  answer_ok r asked st snap → rm_items r' = rm_items r → rm_cap r' = rm_cap r →
  (∀ i, placed r' !! placement_of i = placed r !! placement_of i) →
  (∀ i, placed r' !! credit_at i = placed r !! credit_at i) → answer_ok r' asked st snap.
Proof.
  intros [Hf Hi] E Hc Hp Hcr. unfold answer_ok. rewrite Hc, E. unfold total in *. rewrite E. split; [done|].
  intros i x Hx. rewrite Hp, Hcr. by apply Hi.
Qed.

Lemma total_append g r r' x :
  rm_items r' = rm_items r ++ [x] → total g r' = total g r + g (length (rm_items r)) x.
Proof.
  intros E. unfold total. rewrite E, imap_app, sum_app. cbn. rewrite Nat.add_0_r.
  change (sum [g (length (rm_items r)) x]) with (g (length (rm_items r)) x + 0). lia.
Qed.

(** Time passes. *)
Lemma RInv_at now r : RInv r → rm_clock r ≤ now → RInv (rm_at now r).
Proof.
  intros [Hit Hpl Hid Hfr Hpo Hone Hb] Hn. split; try done.
  - intros i x Hx. by apply (item_ok_frame r); [apply Hit| | | | |].
  - intros q p Hq. destruct (Hpo q p Hq) as [Hk Ha]. split; [cbn; lia|exact Ha].
Qed.

(** The node refuses a create, ends a sandbox, or takes a DELETE of one. *)
Lemma RInv_fate r i x f :
  RInv r → rm_items r !! i = Some x → it_fate x ≠ credited → f ≠ unmade → made f = made (it_fate x) →
  (covers f = true → covers (it_fate x) = true) → RInv (alter_item i (with_fate f) r).
Proof.
  intros [Hit Hpl Hid Hfr Hpo Hone Hb] Hx Hnc Hnu Hm Hc. set (r' := alter_item _ _ r).
  assert (∀ g, (∀ y, g i (with_fate f y) = g i y) → total g r' = total g r) as Htot
    by (intros g Hg; eapply total_alter; [done|auto]).
  split; try done.
  - intros j y (z & Hz & [[-> ->]|[Hne ->]])%alter_item_Some; [|by apply (item_ok_frame r); [apply Hit|..]].
    assert (z = x) as -> by congruence.
    destruct (Hit i x Hx) as [Hres Hsize Hpend Hdone Hun Hcov Hcr Hcnt Hmade].
    split; try done; cbn -[placement_of credit_at]; rewrite ?Hm; try done.
    + intros Hf. apply Hcov. by apply Hc.
    + intros pl E. by destruct (Hcr pl E).
  - intros k Hk. unfold r'. cbn. rewrite length_alter. by apply Hpl.
  - intros j k y z (y0 & Hy0 & Hy)%alter_item_Some (z0 & Hz0 & Hz)%alter_item_Some.
    assert (it_id y = it_id y0) as -> by (by destruct Hy as [[_ ->]|[_ ->]]).
    assert (it_id z = it_id z0) as -> by (by destruct Hz as [[_ ->]|[_ ->]]). by apply Hid.
  - change (rm_node r') with (rm_node r). destruct (gn_status (rm_node r)) as [st|]; [by rewrite Htot|].
    unfold r'. cbn. rewrite Hfr in Hx. done.
  - intros q p Hq. destruct (Hpo q p Hq) as [Hk Ha]. split; [done|]. destruct (po_answer p) as [[st snap]|]; [|done].
    destruct Ha as [Ha Hi]. split; [by rewrite Htot|].
    intros j y (z & Hz & [[-> ->]|[Hne ->]])%alter_item_Some; [|by apply Hi].
    assert (z = x) as -> by congruence. destruct (Hi i x Hx) as [Hi1 Hi2]. cbn. rewrite Hm. split; [done|].
    intros [Hf|Hf]; apply Hi2; [left; by apply Hc|by right].
  - unfold r'. cbn. rewrite length_alter. exact Hb.
Qed.

(** The node makes the sandbox. *)
Lemma RInv_made r i x id size :
  RInv r → rm_items r !! i = Some x → it_fate x = unmade → fits_within size (it_res x) = true → id ≠ ""%string →
  (∀ j y, rm_items r !! j = Some y → it_id y ≠ id) →
  RInv (alter_item i (λ x, {| it_res := it_res x; it_size := size; it_id := id; it_fate := running;
                              it_answered := it_answered x |}) r).
Proof.
  intros [Hit Hpl Hid Hfr Hpo Hone Hb] Hx Hf Hsz Hne Hfresh. set (r' := alter_item _ _ r).
  pose proof (π_fits _ _ Hsz) as Hsize'.
  destruct (Hit i x Hx) as [Hres Hsize Hpend Hdone Hun Hcov Hcr Hcnt Hmade].
  assert (i ∉ rm_counted r) as Hnc by (intros Hc; specialize (Hcnt Hc); rewrite Hf in Hcnt; done).
  destruct (Hpend (Hun Hf)) as (pl & Hplc & Hpf).
  assert (∀ S : gset nat, (i ∉ S) → total (λ j y, if bool_decide (j ∈ S) then π (it_size y) else 0) r' =
    total (λ j y, if bool_decide (j ∈ S) then π (it_size y) else 0) r) as Htot.
  { intros S HS. eapply total_alter; [done|]. intros y Hy. by rewrite bool_decide_eq_false_2. }
  split; try done.
  - intros j y (z & Hz & [[-> ->]|[Hj ->]])%alter_item_Some; [|by apply (item_ok_frame r); [apply Hit|..]].
    assert (z = x) as -> by congruence.
    split; try exact Hpend; try done; cbn -[placement_of credit_at].
    + by rewrite (Hun Hf).
    + intros _. right. by exists pl.
    + intros pl' E. destruct (Hcr pl' E) as (E' & _). congruence.
  - intros k Hk. unfold r'. cbn. rewrite length_alter. by apply Hpl.
  - intros j k y z (y0 & Hy0 & Hy)%alter_item_Some (z0 & Hz0 & Hz)%alter_item_Some.
    destruct Hy as [[-> ->]|[Hj ->]], Hz as [[-> ->]|[Hk ->]]; cbn; [done| | |by apply Hid].
    + intros E. by destruct (Hfresh k z0 Hz0).
    + intros E. by destruct (Hfresh j y0 Hy0).
  - change (rm_node r') with (rm_node r). destruct (gn_status (rm_node r)) as [st|].
    + by rewrite Htot.
    + rewrite Hfr in Hx. done.
  - intros q p Hq. destruct (Hpo q p Hq) as [Hk Ha]. split; [done|]. destruct (po_answer p) as [[st snap]|]; [|done].
    destruct Ha as [Ha Hi].
    assert (i ∉ snap) as Hns by (intros Hs; apply (proj1 (Hi i x Hx)) in Hs; rewrite Hf in Hs; done).
    split.
    + by rewrite Htot.
    + intros j y (z & Hz & [[-> ->]|[Hj ->]])%alter_item_Some; [|by apply Hi].
      split; [done|]. intros _ _. exists pl. split; [done|]. unfold counted_now. by destruct Hpf as (_ & -> & _).
  - unfold r'. cbn. rewrite length_alter. exact Hb.
Qed.

(** The gateway hears the answer: [g] is what becomes of the placement. *)
Lemma RInv_answered r i x g :
  RInv r → rm_items r !! i = Some x → it_answered x = false → it_fate x ≠ unmade →
  (∀ pl, pending_for x pl → match g pl with
     | Some pl' => pl_res pl' = it_res x ∧ pl_id pl' = it_id x ∧ pl_done pl' = Some (rm_clock r)
     | None => it_fate x = refused
     end) →
  let f x := {| it_res := it_res x; it_size := it_size x; it_id := it_id x; it_fate := it_fate x; it_answered := true |} in
  RInv (rm_set (on_placed (partial_alter (λ o, o ≫= g) (placement_of i)) (rm_node r)) (alter f i (rm_items r)) r).
Proof.
  intros [Hit Hpl Hid Hfr Hpo Hone Hb] Hx Ha Hnu Hg f. set (r' := rm_set _ _ r).
  destruct (Hit i x Hx) as [Hres Hsize Hpend Hdone Hun Hcov Hcr Hcnt Hmade].
  destruct (Hpend Ha) as (pl & Hplc & Hpf). specialize (Hg pl Hpf).
  assert (placed r' !! placement_of i = g pl) as Hpl'
    by (unfold r'; cbn -[placement_of]; by rewrite lookup_partial_alter_eq, Hplc).
  assert (∀ k, k ≠ placement_of i → placed r' !! k = placed r !! k) as Hother
    by (intros k Hk; unfold r'; cbn -[placement_of]; by rewrite lookup_partial_alter_ne).
  assert (∀ j, placed r' !! credit_at j = placed r !! credit_at j) as Hcredit
    by (intros j; apply Hother; unfold credit_at, placement_of; lia).
  assert (∀ g', (∀ y, g' i (f y) = g' i y) → total g' r' = total g' r) as Htot
    by (intros g' Hg'; apply (total_alter g' f i); [done|auto]).
  assert (is_Some (g pl) ∨ it_fate x = refused) as Hsome by (destruct (g pl); [left; by eexists|by right]).
  split; try done.
  - intros j y (z & Hz & [[-> ->]|[Hj ->]])%alter_item_Some.
    2: { apply (item_ok_frame r); try done; [by apply Hit|apply Hother; unfold placement_of; lia]. }
    assert (z = x) as -> by congruence. split; try done; rewrite ?Hpl', ?Hcredit; cbn -[placement_of credit_at]; try done.
    + intros _ pl' E. rewrite E in Hg. destruct Hg as (? & ? & ?). split_and!; [done|done|]. by eexists.
    + intros Hc. destruct Hsome as [?|E]; [by right|]. rewrite E in Hc. done.
    + intros pl' E. destruct (Hcr pl' E) as (Hcf & ? & (? & ?) & ?). split_and!; try done; try lia.
      destruct Hsome as [?|E']; [by right|congruence].
  - intros k [y Hk]. unfold r'. cbn [rm_items rm_set]. rewrite length_alter. apply Hpl.
    destruct (decide (k = placement_of i)) as [->|Hne]; [by eexists|]. rewrite Hother in Hk by done. by eexists.
  - intros j k y z (y0 & Hy0 & Hy)%alter_item_Some (z0 & Hz0 & Hz)%alter_item_Some.
    assert (it_id y = it_id y0) as -> by (by destruct Hy as [[_ ->]|[_ ->]]).
    assert (it_id z = it_id z0) as -> by (by destruct Hz as [[_ ->]|[_ ->]]). by apply Hid.
  - change (gn_status (rm_node r')) with (gn_status (rm_node r)).
    destruct (gn_status (rm_node r)) as [st|]; [by rewrite Htot|]. rewrite Hfr in Hx. done.
  - intros q p Hq. destruct (Hpo q p Hq) as [Hk Hap]. split; [done|]. destruct (po_answer p) as [[st snap]|]; [|done].
    destruct Hap as [Hap Hi]. split; [by rewrite Htot|].
    intros j y (z & Hz & [[-> ->]|[Hj ->]])%alter_item_Some.
    + assert (z = x) as -> by congruence. destruct (Hi i x Hx) as [Hi1 Hi2]. split; [done|]. rewrite Hpl', Hcredit.
      intros Hc Hs. destruct (g pl) as [pl'|].
      * exists pl'. split; [done|]. unfold counted_now. destruct Hg as (_ & _ & ->). unfold before. lia.
      * exfalso. destruct Hc as [Hc|(pc & E & _)]; [cbn in Hc; rewrite Hg in Hc; done|].
        destruct (Hcr pc E) as (E' & _). congruence.
    + rewrite Hcredit, Hother by (unfold placement_of; lia). by apply Hi.
  - unfold r'. cbn. rewrite length_alter. exact Hb.
Qed.

Lemma elem_of_range k pl r : (k, pl) ∈ range (placed r) ↔ placed r !! k = Some pl.
Proof. by rewrite range_lists, elem_of_map_to_list. Qed.

Lemma address_cases k n : (k < 2 * n)%nat → ∃ j, (j < n)%nat ∧ (k = placement_of j ∨ k = credit_at j).
Proof.
  intros Hk. exists (k / 2)%nat. unfold placement_of, credit_at.
  pose proof (Nat.div_mod_eq k 2). pose proof (Nat.mod_upper_bound k 2 ltac:(lia)). lia.
Qed.

(** The placement [released] looks for is its own sandbox's, if it is held. *)
Lemma released_finds r i x :
  RInv r → rm_items r !! i = Some x → it_fate x = deleted →
  match List.find (λ '(_, pl), String.eqb (pl_id pl) (it_id x)) (range (placed r)) with
  | Some (k, _) => k = placement_of i ∧ it_answered x = true
  | None => True
  end.
Proof.
  intros Hinv Hx Hf. destruct (List.find _ _) as [[k pl]|] eqn:E; [|done].
  apply find_some in E as [Hin He]. apply list_elem_of_In, elem_of_range in Hin. apply String.eqb_eq in He.
  assert (it_id x ≠ ""%string) as Hne.
  { intros E. apply (io_made _ _ _ (ri_items _ Hinv i x Hx)) in E. by rewrite Hf in E. }
  destruct (address_cases k (length (rm_items r))) as (j & Hj & Hk); [apply (ri_placed _ Hinv); by eexists|].
  apply lookup_lt_is_Some in Hj as [y Hy]. pose proof (ri_items _ Hinv j y Hy) as Hok.
  assert (it_id y = it_id x → j = i) as Hsame by (intros E; apply (ri_ids _ Hinv j i y x); congruence).
  destruct Hk as [-> | ->].
  - destruct (it_answered y) eqn:Ea.
    + destruct (io_done _ _ _ Hok Ea pl Hin) as (_ & E & _).
      assert (j = i) as -> by (apply Hsame; congruence). split; congruence.
    + destruct (io_pending _ _ _ Hok Ea) as (pl' & Hpl' & _ & _ & E). congruence.
  - destruct (io_credit _ _ _ Hok pl Hin) as (Hc & _ & (E & _) & _).
    assert (j = i) as -> by (apply Hsame; congruence). congruence.
Qed.

(** The gateway hears that a sandbox it deleted is gone. *)
Lemma RInv_released r i x :
  RInv r → rm_items r !! i = Some x → it_fate x = deleted → rm_credit r ≤ rm_clock r →
  RInv (rm_credited (rm_clock r) (rm_set (released range (credit_at i) (it_id x) (it_size x) (rm_clock r) (rm_node r))
                                    (alter (with_fate credited) i (rm_items r)) r)).
Proof.
  intros Hinv Hx Hf Hck. pose proof (released_finds r i x Hinv Hx Hf) as Hfind.
  destruct Hinv as [Hit Hpl Hid Hfr Hpo Hone Hb].
  destruct (Hit i x Hx) as [Hres Hsize Hpend Hdone Hun Hcov Hcr Hcnt Hmade].
  set (n := released _ _ _ _ _ _). set (r' := rm_credited _ _).
  assert (gn_status n = gn_status (rm_node r)) as Hst by (unfold n, released; by destruct (List.find _ _) as [[? ?]|]).
  set (credit := {| pl_res := credit_of (it_size x); pl_sent := rm_clock r; pl_done := Some (rm_clock r); pl_id := it_id x |}).
  assert ((placed r' = delete (placement_of i) (placed r) ∧ it_answered x = true) ∨ (placed r' = <[credit_at i := credit]> (placed r))) as Hcase.
  { change (placed r') with (gn_placed n). unfold n, released. destruct (List.find _ _) as [[k ?]|]; [left|by right]. by destruct Hfind as [-> ?]. }
  assert (placed r !! credit_at i = None) as Hnone.
  { destruct (placed r !! credit_at i) as [pl|] eqn:E; [|done]. destruct (Hcr pl eq_refl) as (E' & _). congruence. }
  assert (placed r' !! credit_at i = None ∨
    placed r' !! credit_at i = Some credit ∧ placed r' !! placement_of i = placed r !! placement_of i) as Hci.
  { destruct Hcase as [[-> _]| ->]; [left; rewrite lookup_delete_ne by (unfold credit_at, placement_of; lia); done|].
    right. rewrite lookup_insert_eq, lookup_insert_ne by (unfold credit_at, placement_of; lia). done. }
  assert (∀ k, k ≠ placement_of i → k ≠ credit_at i → placed r' !! k = placed r !! k) as Hother.
  { intros k Hk1 Hk2. destruct Hcase as [[-> _]| ->]; [by rewrite lookup_delete_ne|by rewrite lookup_insert_ne]. }
  assert (∀ pl, placed r' !! placement_of i = Some pl → placed r !! placement_of i = Some pl) as Hsub.
  { intros pl. destruct Hcase as [[-> _]| ->]; [by rewrite lookup_delete_eq|].
    by rewrite lookup_insert_ne by (unfold credit_at, placement_of; lia). }
  pose proof (π_credit (it_size x) ltac:(lia)) as Hcredit.
  assert (∀ g, (∀ y, g i (with_fate credited y) = g i y) → total g r' = total g r) as Htot
    by (intros g Hg; apply (total_alter g (with_fate credited) i); [done|auto]).
  split; try done.
  - intros j y (z & Hz & [[-> ->]|[Hj ->]])%alter_item_Some.
    2: { apply (item_ok_frame r); try done; [by apply Hit|apply Hother..]; unfold credit_at, placement_of; lia. }
    assert (z = x) as -> by congruence. split; try done.
    + intros Ha. change (it_answered x = false) in Ha. destruct Hcase as [[_ E]| ->]; [congruence|].
      rewrite lookup_insert_ne by (unfold credit_at, placement_of; lia). by apply Hpend.
    + intros Ha pl E. by apply Hdone, Hsub.
    + intros pl E. destruct Hci as [Hci|[Hci ->]]; [congruence|]. rewrite Hci in E. injection E as <-.
      split; [done|]. split; [exact Hcredit|]. split; [split; [done|by exists (rm_clock r)]|].
      apply Hcov. by rewrite Hf.
    + by rewrite Hmade, Hf.
  - intros k [pl Hk]. unfold r'. cbn [rm_items rm_set rm_credited]. rewrite length_alter.
    assert (i < length (rm_items r))%nat as Hi by (by eapply lookup_lt_Some).
    destruct (decide (k = credit_at i)) as [->|Hk1]; [unfold credit_at; lia|].
    destruct (decide (k = placement_of i)) as [->|Hk2]; [unfold placement_of; lia|].
    apply Hpl. rewrite <- Hother by done. by eexists.
  - intros j k y z (y0 & Hy0 & Hy)%alter_item_Some (z0 & Hz0 & Hz)%alter_item_Some.
    assert (it_id y = it_id y0) as -> by (by destruct Hy as [[_ ->]|[_ ->]]).
    assert (it_id z = it_id z0) as -> by (by destruct Hz as [[_ ->]|[_ ->]]). by apply Hid.
  - change (gn_status (rm_node r')) with (gn_status n). rewrite Hst.
    destruct (gn_status (rm_node r)) as [st|]; [by rewrite Htot|]. rewrite Hfr in Hx. done.
  - intros q p Hq. destruct (Hpo q p Hq) as [Hk Hap]. split; [done|]. destruct (po_answer p) as [[st snap]|]; [|done].
    destruct Hap as [Hap Hi]. split; [by rewrite Htot|].
    intros j y (z & Hz & [[-> ->]|[Hj ->]])%alter_item_Some.
    + assert (z = x) as -> by congruence. destruct (Hi i x Hx) as [Hi1 Hi2]. rewrite Hf in Hi1, Hi2. split; [done|].
      intros [Hc|(pl & E & _)]; [done|]. destruct Hci as [Hci|[Hci ->]]; [congruence|]. apply Hi2. by left.
    + rewrite !Hother by (unfold credit_at, placement_of; lia). by apply Hi.
  - unfold r'. cbn. rewrite length_alter. exact Hb.
Qed.

(** What leaves the placements and the counts alone. *)
Lemma RInv_frame r r' :
  RInv r → rm_items r' = rm_items r → placed r' = placed r → rm_counted r' = rm_counted r → rm_cap r' = rm_cap r →
  rm_clock r' = rm_clock r → rm_credit r' = rm_credit r →
  match gn_status (rm_node r'), gn_status (rm_node r) with
  | Some a, Some b => π (ns_Free a) = π (ns_Free b)
  | None, None => True
  | _, _ => False
  end →
  (∀ q p, rm_polls r' !! q = Some p → po_asked p ≤ rm_clock r ∧
     match po_answer p with Some (st, snap) => answer_ok r (po_asked p) st snap | None => True end) →
  (∀ q q' p p', rm_polls r' !! q = Some p → rm_polls r' !! q' = Some p' → q = q') →
  (∀ q p st snap, rm_polls r' !! q = Some p → po_answer p = Some (st, snap) →
     ∀ i, i ∈ snap → (i < length (rm_items r))%nat) → RInv r'.
Proof.
  intros [Hit Hpl Hid Hfr Hpo Hone Hb] Ei Ep Ec Ecap Ek Ed Hst Hpolls Hone' Hb'.
  split; rewrite ?Ei, ?Ep; try done.
  - intros i x Hx. apply (item_ok_frame r); [by apply Hit|by rewrite Ep|by rewrite Ep|by rewrite Ec|lia|lia].
  - destruct (gn_status (rm_node r')) as [a|], (gn_status (rm_node r)) as [b|]; try done.
    rewrite Hst, Ecap, Ec. unfold total. by rewrite Ei.
  - intros q p Hq. destruct (Hpolls q p Hq) as [Hk Ha]. split; [lia|]. destruct (po_answer p) as [[st snap]|]; [|done].
    apply (answer_ok_frame r); try done; by rewrite Ep.
  - rewrite Ec. split; [apply Hb|exact Hb'].
Qed.

Lemma RInv_ask r q :
  RInv r → rm_polls r = ∅ → RInv (rm_poll <[q := {| po_asked := rm_clock r; po_answer := None |}]> r).
Proof.
  intros Hinv He.
  assert (∀ k p, rm_polls (rm_poll <[q := {| po_asked := rm_clock r; po_answer := None |}]> r) !! k = Some p →
    k = q ∧ p = {| po_asked := rm_clock r; po_answer := None |}) as Hq.
  { intros k p. cbn. rewrite He. by intros [[<- <-]|[_ ?]]%lookup_insert_Some. }
  apply (RInv_frame r); try done.
  - cbn. by destruct (gn_status (rm_node r)).
  - intros k p [-> ->]%Hq. split; [cbn; lia|done].
  - intros k k' p p' [-> ->]%Hq [-> ->]%Hq. done.
  - intros k p st snap [-> ->]%Hq. done.
Qed.

Lemma running_now_spec r i : i ∈ running_now r ↔ ∃ x, rm_items r !! i = Some x ∧ it_fate x = running.
Proof.
  unfold running_now. rewrite elem_of_list_to_set, list_elem_of_omap. split.
  - intros (j & Hj & E). destruct (rm_items r !! j) as [x|] eqn:Ex; [|done]. cbn in E. unfold is_running in E.
    case_bool_decide; [|done]. injection E as <-. by exists x.
  - intros (x & Hx & Hf). exists i. split.
    + apply elem_of_seq. split; [lia|]. by eapply lookup_lt_Some.
    + rewrite Hx. cbn. unfold is_running. by rewrite Hf, bool_decide_eq_true_2.
Qed.

(** The node makes its answer to a poll. *)
Lemma RInv_status r q p st :
  RInv r → rm_polls r !! q = Some p → po_answer p = None → true_status st r = true →
  room_quiet (RE_status q st) r = true →
  RInv (rm_poll <[q := {| po_asked := po_asked p; po_answer := Some (st, running_now r) |}]> r).
Proof.
  intros Hinv Hp Ha Hst Hquiet. pose proof (π_status _ _ Hst) as Hfree. cbn in Hquiet. rewrite Hp in Hquiet.
  apply andb_prop in Hquiet as [Hnd Hcr]. rewrite forallb_forall in Hnd.
  assert (∀ k p', rm_polls (rm_poll <[q := {| po_asked := po_asked p; po_answer := Some (st, running_now r) |}]> r) !! k = Some p' →
    k = q ∧ p' = {| po_asked := po_asked p; po_answer := Some (st, running_now r) |}) as Hq.
  { intros k p'. cbn. intros [[<- <-]|[Hne Hk]]%lookup_insert_Some; [done|].
    by pose proof (ri_one r Hinv q k p p' Hp Hk). }
  apply (RInv_frame r); try done.
  - cbn. by destruct (gn_status (rm_node r)).
  - intros k p' [-> ->]%Hq. cbn. split; [by apply (ri_polls r Hinv q p Hp)|]. split.
    + match goal with |- _ ≤ _ ≤ _ - ?t => assert (t = in_use π r) as ->; [|done] end.
      unfold in_use. rewrite !total_sumf. apply sumf_ext. intros i Hi.
      destruct (rm_items r !! i) as [x|] eqn:E; [|done]. unfold size_if, is_running.
      assert (i ∈ running_now r ↔ it_fate x = running) as Hiff.
      { rewrite running_now_spec. split; [intros (y & Hy & ?); congruence|by exists x]. }
      by rewrite (bool_decide_ext _ _ Hiff).
    + intros i x Hx. split.
      * intros (y & Hy & Hf)%running_now_spec. assert (y = x) as -> by congruence. by rewrite Hf.
      * intros Hc Hno. exfalso. destruct Hc as [Hc|(pl & Hpl & Hcn)].
        -- specialize (Hnd x). rewrite <- list_elem_of_In in Hnd. specialize (Hnd (list_elem_of_lookup_2 _ _ _ Hx)).
           unfold covers in Hc. destruct (bool_decide_reflect (it_fate x = running)) as [Hr|Hr].
           ++ apply Hno, running_now_spec. by exists x.
           ++ cbn in Hc. by rewrite Hc in Hnd.
        -- destruct (io_credit _ _ _ (ri_items r Hinv i x Hx) pl Hpl) as (_ & _ & (_ & d & Hd & Hle) & _).
           unfold counted_now, before in Hcn. rewrite Hd in Hcn. lia.
  - intros k k' p1 p2 [-> ->]%Hq [-> ->]%Hq. done.
  - intros k p1 st' snap [-> ->]%Hq. cbn. intros [= <- <-] i (x & Hx & _)%running_now_spec. by eapply lookup_lt_Some.
Qed.

Lemma poll_deleted q r n its k p :
  rm_polls (rm_poll (delete q) (rm_set n its r)) !! k = Some p → q ≠ k ∧ rm_polls r !! k = Some p.
Proof. cbn. by intros ?%lookup_delete_Some. Qed.

(** A poll is not answered, or another node answers: nothing of this changes. *)
Lemma RInv_poll_failed r q failAfter renamed :
  RInv r → RInv (rm_poll (delete q) (rm_set (poll_failed failAfter renamed (rm_node r)) (rm_items r) r)).
Proof.
  intros Hinv. apply (RInv_frame r); try done.
  - cbn. by destruct (gn_status (rm_node r)).
  - intros k p [_ Hk]%poll_deleted. by apply (ri_polls r Hinv k).
  - intros k k' p p' [_ Hk]%poll_deleted [_ Hk']%poll_deleted. by eapply (ri_one r Hinv).
  - intros k p st snap [_ Hk]%poll_deleted. by apply (proj2 (ri_bounds r Hinv) k).
Qed.

(** The answer comes while a create is in doubt: the room it says is not taken. *)
Lemma RInv_poll_held r q p st counts :
  RInv r → rm_polls r !! q = Some p → po_answer p = Some (st, counts) → keeps_free range (po_asked p) (rm_node r) = true →
  RInv (rm_poll (delete q) (rm_set (poll_answered range (po_asked p) (rm_clock r) st (rm_node r)) (rm_items r) r)).
Proof.
  intros Hinv Hp Ha Hk. unfold poll_answered. rewrite Hk.
  assert (is_Some (gn_status (rm_node r))) as [old Hold].
  { unfold keeps_free in Hk. rewrite !andb_true_iff in Hk. destruct Hk as [[_ Hk] _]. by apply bool_decide_eq_true in Hk. }
  apply (RInv_frame r); try done.
  - cbn. by rewrite Hold.
  - intros k p' [_ Hk']%poll_deleted. by apply (ri_polls r Hinv k).
  - intros k k' p1 p' [_ Hk1]%poll_deleted [_ Hk']%poll_deleted. by eapply (ri_one r Hinv).
  - intros k p' st' snap [_ Hk']%poll_deleted. by apply (proj2 (ri_bounds r Hinv) k).
Qed.

(** It comes and is taken: what it counts leaves the placements. *)
Lemma RInv_poll_taken r q p st counts :
  RInv r → rm_polls r !! q = Some p → po_answer p = Some (st, counts) → keeps_free range (po_asked p) (rm_node r) = false →
  RInv (rm_count counts (rm_poll (delete q)
    (rm_set (poll_answered range (po_asked p) (rm_clock r) st (rm_node r)) (rm_items r) r))).
Proof.
  intros Hinv Hp Ha Hk. destruct Hinv as [Hit Hpl Hid Hfr Hpo Hone Hb].
  destruct (Hpo q p Hp) as [Hask Hans]. rewrite Ha in Hans. destruct Hans as [Hfree Hi].
  set (r' := rm_count _ _).
  assert (placed r' = filter (λ kp, counted_now (po_asked p) kp.2 = false) (placed r)) as Hplaced
    by (unfold r', poll_answered; rewrite Hk; done).
  assert (∀ k pl, placed r' !! k = Some pl ↔ placed r !! k = Some pl ∧ counted_now (po_asked p) pl = false) as Hf
    by (intros k pl; rewrite Hplaced; apply map_lookup_filter_Some).
  split; try done.
  - intros i x Hx. destruct (Hit i x Hx) as [Hres Hsize Hpend Hdone Hun Hcov Hcr Hcnt Hmade].
    destruct (Hi i x Hx) as [Hi1 Hi2]. split; try done.
    + intros Hna. destruct (Hpend Hna) as (pl & Hpl' & Hpf). exists pl. split; [|done]. apply Hf. split; [done|].
      unfold counted_now. by destruct Hpf as (_ & -> & _).
    + intros Hna pl [Hpl' _]%Hf. by apply Hdone.
    + intros Hc. change (rm_counted r') with counts. destruct (decide (i ∈ counts)) as [?|Hno]; [by left|].
      destruct (Hi2 (or_introl Hc) Hno) as (pl & Hpl' & Hcn). right. exists pl. by apply Hf.
    + intros pl [Hpl' Hcn]%Hf. destruct (Hcr pl Hpl') as (? & ? & ? & _). do 3 (split; [done|]).
      change (rm_counted r') with counts. destruct (decide (i ∈ counts)) as [?|Hno]; [by left|].
      destruct (Hi2 (or_intror (ex_intro _ pl (conj Hpl' Hcn))) Hno) as (pl' & Hpl1 & Hcn'). right. exists pl'. by apply Hf.
  - intros k [pl [Hk' _]%Hf]. apply Hpl. by eexists.
  - assert (gn_status (rm_node r') = Some st) as ->; [|exact Hfree].
    unfold r', poll_answered. rewrite Hk. cbn. by destruct (gn_status (rm_node r)).
  - intros k p' [Hne Hk']%poll_deleted. by destruct Hne; eapply Hone.
  - intros k k' p1 p2 [_ Hk1]%poll_deleted [_ Hk2]%poll_deleted. by eapply Hone.
  - split; [intros i Hin; by apply (proj2 Hb q p st counts)|].
    intros k p' st' snap [_ Hk']%poll_deleted. by apply (proj2 Hb k).
Qed.

(** A create is placed. *)
Lemma RInv_place r w :
  RInv r → is_Some (gn_status (rm_node r)) → 0 ≤ π (want_res w) ≤ max_int64 →
  RInv (rm_set (reserve (placement_of (length (rm_items r))) (want_res w) (rm_clock r) (rm_node r))
          (rm_items r ++ [{| it_res := want_res w; it_size := no_resources; it_id := ""; it_fate := unmade;
                             it_answered := false |}]) r).
Proof.
  intros Hinv [st0 Hst] Hw. destruct Hinv as [Hit Hpl Hid Hfr Hpo Hone Hb]. set (N := length (rm_items r)).
  set (x := {| it_res := want_res w; it_size := _; it_id := _; it_fate := _; it_answered := _ |}).
  set (pl := {| pl_res := want_res w; pl_sent := rm_clock r; pl_done := None; pl_id := "" |}).
  set (r' := rm_set _ _ r). assert (placed r' = <[placement_of N := pl]> (placed r)) as Hplaced by done.
  assert (∀ i y, rm_items r' !! i = Some y → (i = N ∧ y = x) ∨ (i < N ∧ rm_items r !! i = Some y)%nat) as Hitems.
  { intros i y Hy. unfold r' in Hy. cbn in Hy. apply lookup_app_Some in Hy as [Hy|[Hge Hy]].
    - right. split; [by eapply lookup_lt_Some|done].
    - left. apply list_lookup_singleton_Some in Hy as [E <-]. split; [unfold N in *; lia|done]. }
  assert (∀ i, (i < N)%nat → placed r' !! placement_of i = placed r !! placement_of i ∧
    placed r' !! credit_at i = placed r !! credit_at i) as Hsame.
  { intros i Hi. rewrite Hplaced, !lookup_insert_ne by (unfold placement_of, credit_at; lia). done. }
  assert (placed r !! credit_at N = None) as Hnone.
  { destruct (placed r !! credit_at N) eqn:E; [|done]. specialize (Hpl _ (mk_is_Some _ _ E)). unfold credit_at, N in Hpl. lia. }
  assert (∀ g, g N x = 0 → total g r' = total g r) as Htot.
  { intros g Hg. rewrite (total_append g r r' x) by done. fold N. lia. }
  assert (length (rm_items r') = S N) as Hlen by (unfold r'; cbn; rewrite length_app; cbn; unfold N; lia).
  split; try done.
  - intros i y [[-> ->]|[Hlt Hy]]%Hitems.
    + split; try done; cbn [x it_res it_size it_fate it_id it_answered].
      * rewrite π_none. lia.
      * intros _. exists pl. split; [by rewrite Hplaced, lookup_insert_eq|done].
      * intros p. rewrite Hplaced, lookup_insert_ne by (unfold credit_at, placement_of; lia). congruence.
      * intros Hc. apply (proj1 Hb) in Hc. unfold N in Hc. lia.
    + apply (item_ok_frame r); try done; try apply Hsame; try done. by apply Hit.
  - intros k Hk. rewrite Hlen. destruct (decide (k = placement_of N)) as [->|Hne]; [unfold placement_of; lia|].
    rewrite Hplaced, lookup_insert_ne in Hk by done. specialize (Hpl k Hk). unfold N. lia.
  - intros i j y z [[-> ->]|[Hi Hy]]%Hitems [[-> ->]|[Hj Hz]]%Hitems; [done|done| |by apply Hid].
    intros E Hne. by rewrite E in Hne.
  - change (gn_status (rm_node r')) with (gn_status (rm_node r)). rewrite Hst in *.
    rewrite Htot; [done|]. cbn. rewrite π_none. by case_bool_decide.
  - intros q p Hq. destruct (Hpo q p Hq) as [Hk Ha]. split; [done|]. destruct (po_answer p) as [[st snap]|] eqn:Ep; [|done].
    destruct Ha as [Ha Hi]. split; [rewrite Htot; [done|]; cbn; rewrite π_none; by case_bool_decide|].
    intros i y [[-> ->]|[Hlt Hy]]%Hitems.
    + split; [intros Hs; apply (proj2 Hb q p st snap Hq Ep) in Hs; unfold N in Hs; lia|].
      intros _ _. exists pl. split; [by rewrite Hplaced, lookup_insert_eq|done].
    + destruct (Hsame i Hlt) as [-> ->]. by apply Hi.
  - rewrite Hlen. destruct Hb as [Hb1 Hb2]. split; [intros i Hc; specialize (Hb1 i Hc); unfold N; lia|].
    intros q p st snap Hq Ep i Hs. specialize (Hb2 q p st snap Hq Ep i Hs). unfold N. lia.
Qed.

(** *** The sum the scheduler sees, as machine integers *)
Lemma wrap64_add a b : wrap64 (wrap64 a + b) = wrap64 (a + b).
Proof.
  unfold wrap64. f_equal. replace ((a + 2 ^ 63) mod 2 ^ 64 - 2 ^ 63 + b + 2 ^ 63) with ((a + 2 ^ 63) mod 2 ^ 64 + b) by lia.
  rewrite Zplus_mod_idemp_l. f_equal. lia.
Qed.

Lemma wrap64_sub a b : wrap64 (a - wrap64 b) = wrap64 (a - b).
Proof.
  unfold wrap64. f_equal.
  replace (a - ((b + 2 ^ 63) mod 2 ^ 64 - 2 ^ 63) + 2 ^ 63) with ((a + 2 ^ 64) - (b + 2 ^ 63) mod 2 ^ 64) by lia.
  rewrite Zminus_mod_idemp_r. f_equal. lia.
Qed.

Lemma reserved_sum l : ∀ a, in_int64 (π a) →
  π (foldl (λ r p, add_resources r (pl_res (snd p))) a l) = wrap64 (π a + sum ((λ kx : nat * placement, π (pl_res kx.2)) <$> l)).
Proof.
  induction l as [|[k pl] l IH]; intros a Ha; cbn [foldl].
  - change (sum _) with 0. by rewrite Z.add_0_r, wrap64_id.
  - rewrite IH by (rewrite π_add; apply wrap64_range). rewrite π_add. unfold int_add. rewrite wrap64_add. f_equal.
    unfold sum. cbn. lia.
Qed.

Lemma room_seen r c w :
  candidate range (rm_node r) = Some c → hasRoom c w = true → in_int64 (seen r) → π (want_res w) ≤ seen r.
Proof.
  unfold candidate, seen. destruct (gn_status (rm_node r)) as [st|]; [|done]. destruct (gn_healthy _); [|done].
  intros [= <-] Hroom%π_room Hin. cbn in Hroom. rewrite reserved_sum in Hroom.
  - rewrite π_none in Hroom. unfold int_sub in Hroom. rewrite wrap64_sub, Z.add_0_l, wrap64_id in Hroom; done.
  - rewrite π_none. unfold in_int64, min_int64, max_int64. lia.
Qed.

(** *** Every event *)
Lemma total_change g f i x r r' :
  rm_items r' = alter f i (rm_items r) → rm_items r !! i = Some x → total g r' = total g r + (g i (f x) - g i x).
Proof.
  intros E Hx. rewrite !total_sumf, E, length_alter. assert (i < length (rm_items r))%nat as Hi by (by eapply lookup_lt_Some).
  revert Hi. generalize (length (rm_items r)). intros n. induction n as [|n IH]; [lia|]. intros Hi. rewrite !sumf_S.
  destruct (decide (i = n)) as [->|Hne].
  - rewrite list_lookup_alter_eq, Hx. cbn.
    rewrite (sumf_ext n _ (λ i, match rm_items r !! i with Some x => g i x | None => 0 end)); [lia|].
    intros j Hj. by rewrite list_lookup_alter_ne by lia.
  - rewrite IH by lia. rewrite list_lookup_alter_ne by done. lia.
Qed.

Lemma total_nonneg g r : (∀ i x, rm_items r !! i = Some x → 0 ≤ g i x) → 0 ≤ total g r.
Proof.
  intros Hg. rewrite total_sumf.
  transitivity (sumf (length (rm_items r)) (λ _, 0)).
  - induction (length (rm_items r)) as [|n IH]; [done|]. rewrite sumf_S. lia.
  - apply sumf_le. intros i Hi. destruct (rm_items r !! i) as [x|] eqn:E; [by eapply Hg|lia].
Qed.

Lemma total_le g r b : (∀ i x, rm_items r !! i = Some x → g i x ≤ b) → 0 ≤ b →
  total g r ≤ Z.of_nat (length (rm_items r)) * b.
Proof.
  intros Hg Hb. rewrite total_sumf. apply sumf_bound. intros i Hi.
  destruct (rm_items r !! i) as [x|] eqn:E; [by eapply Hg|lia].
Qed.

(** [n]: how many events it took. *)
Record NInv (n : Z) (r : room) : Prop := {
  ni_inv : RInv r;
  ni_credit : rm_credit r ≤ rm_clock r;
  ni_res : ∀ i x, rm_items r !! i = Some x → π (it_res x) ≤ π (rm_cap r);
  ni_spare : 0 ≤ spare r;
  ni_length : Z.of_nat (length (rm_items r)) ≤ n
}.

Lemma spare_le_cap r : RInv r → spare r ≤ π (rm_cap r).
Proof.
  intros Hinv. unfold spare. assert (0 ≤ in_use π r ∧ 0 ≤ promised π r); [|lia].
  split; apply total_nonneg; intros i x Hx; pose proof (ri_items r Hinv i x Hx) as [? ? _ _ _ _ _ _ _];
    unfold size_if; [destruct (is_running _)|case_bool_decide]; lia.
Qed.

Lemma seen_in_range n r :
  NInv n r → is_Some (gn_status (rm_node r)) → 0 ≤ π (rm_cap r) → (2 * n + 1) * π (rm_cap r) ≤ max_int64 → in_int64 (seen r).
Proof.
  intros [Hinv _ Hres _ Hlen] Hst Hcap Hmax. split.
  2: { pose proof (seen_le_spare r Hinv Hst). pose proof (spare_le_cap r Hinv). pose proof (total_nonneg (λ _ _, 0) r). nia. }
  destruct Hst as [st Hst]. unfold seen. rewrite Hst. pose proof (ri_free r Hinv) as Hf. rewrite Hst in Hf.
  rewrite (sum_perm _ _ (fmap_Permutation _ _ _ (range_lists (placed r)))).
  rewrite (sum_map (λ pl, π (pl_res pl)) (2 * length (rm_items r))) by apply Hinv. rewrite sumf_pairs.
  match goal with |- _ ≤ _ - sumf ?m ?h =>
    assert (sumf m h ≤ Z.of_nat (length (rm_items r)) * π (rm_cap r)) as H2; [|unfold min_int64, max_int64 in *; nia] end.
  apply sumf_bound. intros i [x Hx]%lookup_lt_is_Some. specialize (Hres i x Hx).
  destruct (ri_items r Hinv i x Hx) as [Hr _ Hpend Hdone _ _ Hcr _ _].
  assert (∀ pl, placed r !! placement_of i = Some pl → pl_res pl = it_res x) as Hpl.
  { intros pl Hpl. destruct (it_answered x) eqn:Ea.
    - by destruct (Hdone eq_refl pl Hpl) as (-> & _).
    - destruct (Hpend eq_refl) as (pl' & Hpl' & Hr' & _). congruence. }
  assert (match placed r !! credit_at i with Some pl => π (pl_res pl) | None => 0 end ≤ 0) as Hc
    by (destruct (placed r !! credit_at i) as [pl|] eqn:E; [destruct (Hcr pl eq_refl) as (_ & ? & _)|]; lia).
  destruct (placed r !! placement_of i) as [pl|] eqn:E; [rewrite (Hpl pl eq_refl)|]; lia.
Qed.

Lemma created_placed k id now n :
  created k id now n = on_placed (partial_alter (λ o, o ≫= λ pl, Some (end_placement now (name_placement id pl))) k) n.
Proof.
  unfold created, finish, on_placed. cbn. f_equal. unfold alter, map_alter. rewrite partial_alter_partial_alter_eq.
  apply partial_alter_ext. by intros [pl|] _.
Qed.

Lemma finished_placed k n : on_placed (delete k) n = on_placed (partial_alter (λ o, o ≫= λ _ : placement, None) k) n.
Proof. unfold on_placed. f_equal. Qed.

(** The room left changes by what the item at [i] takes of it. *)
Definition takes (x : item) : Z :=
  if bool_decide (it_fate x = unmade) then π (it_res x) else size_if is_running π 0 x.

Lemma spare_alter f i x r r' :
  rm_items r' = alter f i (rm_items r) → rm_items r !! i = Some x → rm_cap r' = rm_cap r →
  spare r' = spare r - takes (f x) + takes x.
Proof.
  intros E Hx Ec. unfold spare, in_use, promised. rewrite Ec, !(total_change _ f i x r r') by done.
  unfold takes, size_if, is_running.
  destruct (it_fate (f x)), (it_fate x); repeat case_bool_decide; try done; lia.
Qed.

Lemma NInv_alter n r r' f i x :
  NInv n r → RInv r' → rm_items r' = alter f i (rm_items r) → rm_items r !! i = Some x → rm_cap r' = rm_cap r →
  rm_credit r' ≤ rm_clock r' → it_res (f x) = it_res x → takes (f x) ≤ takes x → NInv n r'.
Proof.
  intros [_ _ Hres Hsp Hlen] Hinv E Hx Ec Hcr Hfr Ht. split; try done.
  - rewrite E, Ec. intros j y (z & Hz & [[-> ->]|[_ ->]])%alter_item_Some; [|by eapply Hres].
    assert (z = x) as -> by congruence. rewrite Hfr. by eapply Hres.
  - rewrite (spare_alter f i x r r') by done. lia.
  - by rewrite E, length_alter.
Qed.

Lemma NInv_frame n r r' :
  NInv n r → RInv r' → rm_items r' = rm_items r → rm_cap r' = rm_cap r → rm_credit r' ≤ rm_clock r' → NInv n r'.
Proof.
  intros [_ _ Hres Hsp Hlen] Hinv E Ec Hcr. split; rewrite ?E, ?Ec; try done.
  unfold spare, in_use, promised, total in *. by rewrite E, Ec.
Qed.

Lemma NInv_more n m r : NInv n r → n ≤ m → NInv m r.
Proof. intros [? ? ? ? ?] Hn. split; try done. lia. Qed.

Lemma RInv_items r i x : RInv r → rm_items r !! i = Some x → 0 ≤ π (it_size x) ≤ π (it_res x).
Proof. intros Hinv Hx. apply (ri_items r Hinv i x Hx). Qed.

Lemma NInv_step n now e r r' :
  NInv n r → 0 ≤ n → 0 ≤ π (rm_cap r) → (2 * n + 1) * π (rm_cap r) ≤ max_int64 → room_quiet e r = true →
  room_step range now e r = Some r' → NInv (n + 1) r' ∧ rm_cap r' = rm_cap r.
Proof.
  intros Hn0 Hpos Hcap Hmax Hquiet. unfold room_step. destruct (rm_clock r <? now) eqn:Eclock; [|done].
  assert (NInv n (rm_at now r)) as Hn.
  { destruct Hn0 as [Hinv ? ? ? ?]. split; try done; [apply RInv_at; [done|lia]|cbn; lia]. }
  change (rm_cap r) with (rm_cap (rm_at now r)) in *. assert (room_quiet e (rm_at now r) = true) as Hq by done.
  assert (rm_clock (rm_at now r) = now) as Hnow by done. revert Hn Hcap Hmax Hq Hnow. clear Hn0 Hquiet Eclock.
  generalize (rm_at now r). clear r. intros r Hn Hcap Hmax Hq Hnow. pose proof (ni_inv _ _ Hn) as Hinv.
  assert (∀ v, NInv n v ∧ rm_cap v = rm_cap r → NInv (n + 1) v ∧ rm_cap v = rm_cap r) as Hmore
    by (intros v [? ?]; split; [eapply NInv_more; [done|lia]|done]).
  assert (∀ f i x, rm_items r !! i = Some x → it_fate x ≠ credited → f ≠ unmade → made f = made (it_fate x) →
    (covers f = true → covers (it_fate x) = true) → takes (with_fate f x) ≤ takes x →
    NInv n (alter_item i (with_fate f) r)) as Hfate.
  { intros f i x Hx H1 H2 H3 H4 H5. apply (NInv_alter n r _ (with_fate f) i x); try done; [by eapply RInv_fate|apply Hn]. }
  destruct e as [w|i id size|i|i|i|i|i|q|q st|q failAfter|q failAfter]; cbn [room_do];
    try (destruct (rm_items r !! i) as [x|] eqn:Hx; cbn [mbind option_bind]; [|done]).
  - destruct (candidate range (rm_node r)) as [c|] eqn:Ec; cbn [mbind option_bind]; [|done].
    destruct (_ && _) eqn:Eg; [|done]. intros [= <-]. rewrite !andb_true_iff in Eg. destruct Eg as [[Hroom Hm] Hg].
    assert (is_Some (gn_status (rm_node r))) as Hst.
    { unfold candidate in Ec. destruct (gn_status (rm_node r)); [by eexists|done]. }
    assert (0 ≤ π (want_res w)) as Hw by (apply π_want; lia).
    pose proof (seen_in_range n r Hn Hst Hcap Hmax) as Hin.
    pose proof (room_seen r c w Ec Hroom Hin) as Hseen. pose proof (seen_le_spare r Hinv Hst) as Hle.
    pose proof (spare_le_cap r Hinv) as Hsc.
    split; [|done]. destruct Hn as [_ Hcr Hres Hsp Hlen]. split.
    + rewrite <- Hnow. apply RInv_place; [done|done|]. unfold in_int64 in Hin. lia.
    + done.
    + intros i x Hx. cbn in Hx. apply lookup_app_Some in Hx as [Hx|[_ Hx]]; [by eapply Hres|].
      apply list_lookup_singleton_Some in Hx as [_ <-]. cbn. lia.
    + match goal with |- 0 ≤ spare ?v => set (r' := v); assert (spare r' = spare r - π (want_res w)) as ->; [|lia] end.
      unfold spare, in_use, promised. rewrite !(total_append _ r r' _ eq_refl). unfold size_if, is_running.
      cbn [it_fate it_res]. change (rm_cap r') with (rm_cap r). repeat case_bool_decide; try done; lia.
    + cbn. rewrite length_app. cbn. lia.
  - destruct (_ && _) eqn:Eg; [|done]. intros [= <-]. rewrite !andb_true_iff in Eg. destruct Eg as [[[Hf Hsz] Hid] Hno].
    apply bool_decide_eq_true in Hf. apply Hmore. split; [|done]. pose proof (π_fits _ _ Hsz) as Hs.
    eapply (NInv_alter n r _ _ i x); try done; [|apply Hn|].
    + apply (RInv_made r i x); try done; [by intros ->|]. intros j y Hy E. apply negb_true_iff in Hno.
      assert (existsb (λ y, String.eqb (it_id y) id) (rm_items r) = true); [|congruence].
      apply existsb_exists. exists y. split; [by apply list_elem_of_In, (list_elem_of_lookup_2 _ j)|by apply String.eqb_eq].
    + unfold takes, size_if, is_running. cbn. rewrite Hf. repeat case_bool_decide; try done; lia.
  - case_bool_decide as Hf; [|done]. intros [= <-]. apply Hmore. split; [|done]. pose proof (RInv_items r i x Hinv Hx).
    apply (Hfate refused i x); try done; rewrite ?Hf; try done. unfold takes, size_if, is_running. cbn. rewrite Hf.
    repeat case_bool_decide; try done; lia.
  - destruct (it_answered x || _) eqn:Ea; [done|]. apply orb_false_iff in Ea as [Ha Hu]. apply bool_decide_eq_false in Hu.
    intros [= <-]. apply Hmore. split; [|done]. eapply (NInv_alter n r _ _ i x); try done; [|apply Hn].
    case_bool_decide as Hr; [rewrite finished_placed|rewrite created_placed]; subst now.
    + by apply (RInv_answered r i x (λ _, None)).
    + apply (RInv_answered r i x (λ pl, Some (end_placement (rm_clock r) (name_placement (it_id x) pl)))); try done.
      intros pl (? & ? & ?). by split_and!.
  - destruct (is_running (it_fate x)) eqn:Hf; [|done]. apply bool_decide_eq_true in Hf. intros [= <-]. apply Hmore.
    split; [|done]. pose proof (RInv_items r i x Hinv Hx).
    apply (Hfate ended i x); try done; rewrite ?Hf; try done. unfold takes, size_if, is_running. cbn. rewrite Hf.
    repeat case_bool_decide; try done; lia.
  - destruct (is_running (it_fate x)) eqn:Hf; [|done]. apply bool_decide_eq_true in Hf. intros [= <-]. apply Hmore.
    split; [|done]. pose proof (RInv_items r i x Hinv Hx).
    apply (Hfate deleted i x); try done; rewrite ?Hf; try done. unfold takes, size_if, is_running. cbn. rewrite Hf.
    repeat case_bool_decide; try done; lia.
  - case_bool_decide as Hf; [|done]. intros [= <-]. apply Hmore. split; [|done]. subst now.
    eapply (NInv_alter n r _ _ i x); try done; [apply RInv_released; [done..|apply Hn]|].
    unfold takes, size_if, is_running. cbn. rewrite Hf. repeat case_bool_decide; try done; lia.
  - destruct (rm_polls r !! q) eqn:Eq; [done|]. intros [= <-]. apply Hmore. split; [|done]. subst now.
    apply (NInv_frame n r); try done; [apply RInv_ask; [done|by apply bool_decide_eq_true in Hq]|apply Hn].
  - destruct (rm_polls r !! q) as [p|] eqn:Eq; cbn [mbind option_bind]; [|done]. destruct (po_answer p) eqn:Ea; [done|].
    destruct (true_status st r) eqn:Et; [|done]. intros [= <-]. apply Hmore. split; [|done].
    apply (NInv_frame n r); try done; [by apply RInv_status|apply Hn].
  - destruct (rm_polls r !! q) as [p|] eqn:Eq; cbn [mbind option_bind]; [|done].
    destruct (po_answer p) as [[st counts]|] eqn:Ea; [|done]. intros [= <-]. unfold poll.
    destruct (negb (String.eqb (ns_Node st) "") && negb (String.eqb (ns_Node st) (gn_Name (rm_node r)))) eqn:Em.
    + apply andb_prop in Em as [E1%negb_true_iff E2%negb_true_iff]. rewrite E1, E2. cbn [orb andb]. apply Hmore. split; [|done].
      apply (NInv_frame n r); try done; [by apply RInv_poll_failed|apply Hn].
    + assert (String.eqb (ns_Node st) "" || String.eqb (ns_Node st) (gn_Name (rm_node r)) = true) as ->.
      { apply andb_false_iff in Em as [E%negb_false_iff|E%negb_false_iff]; rewrite E; [done|apply orb_true_r]. }
      subst now. cbn [andb]. destruct (keeps_free range (po_asked p) (rm_node r)) eqn:Ek; cbn [negb]; apply Hmore; (split; [|done]);
        apply (NInv_frame n r); try done; try apply Hn; [by eapply RInv_poll_held|by eapply RInv_poll_taken].
  - destruct (rm_polls r !! q) as [p|] eqn:Eq; cbn [mbind option_bind]; [|done]. intros [= <-]. apply Hmore. split; [|done].
    apply (NInv_frame n r); try done; [by apply RInv_poll_failed|apply Hn].
Qed.

Lemma NInv_initial name cap now : 0 ≤ π cap → NInv 0 (room_initial name cap now).
Proof.
  intros Hcap. split; cbn; try done; [|unfold spare, in_use, promised, total; cbn; lia].
  split; cbn; try done.
  - intros k [p H]. by rewrite lookup_empty in H.
Qed.

Lemma NInv_run es : ∀ n r r',
  NInv n r → 0 ≤ n → 0 ≤ π (rm_cap r) → (2 * (n + Z.of_nat (length es)) + 1) * π (rm_cap r) ≤ max_int64 →
  quiet_run range es r = true → room_run range es r = Some r' →
  NInv (n + Z.of_nat (length es)) r' ∧ rm_cap r' = rm_cap r.
Proof.
  induction es as [|[now e] es IH]; intros n r r' Hn Hpos Hcap Hmax Hq Hrun.
  - injection Hrun as <-. split; [eapply NInv_more; [done|lia]|done].
  - cbn [quiet_run room_run length] in *. apply andb_prop in Hq as [Hq Hqs].
    destruct (room_step range now e r) as [r1|] eqn:E; cbn [mbind option_bind] in Hrun; [|done].
    destruct (NInv_step n now e r r1) as [Hn1 Ec]; try done; [nia|].
    rewrite Nat2Z.inj_succ in *.
    destruct (IH (n + 1) r1 r') as [Hr' Ec']; rewrite ?Ec; try done; [lia| |].
    + replace (2 * (n + 1 + Z.of_nat (length es)) + 1) with (2 * (n + Z.succ (Z.of_nat (length es))) + 1) by lia. done.
    + split; [by replace (n + Z.succ (Z.of_nat (length es))) with (n + 1 + Z.of_nat (length es)) by lia|congruence].
Qed.

Lemma quiet_run_fits name cap now es r :
  0 ≤ π cap → (2 * Z.of_nat (length es) + 1) * π cap ≤ max_int64 →
  quiet_run range es (room_initial name cap now) = true → room_run range es (room_initial name cap now) = Some r →
  in_use π r + promised π r ≤ π cap.
Proof.
  intros Hcap Hmax Hq Hrun.
  destruct (NInv_run es 0 (room_initial name cap now) r) as [Hn Ec]; try done; [by apply NInv_initial|].
  pose proof (ni_spare _ _ Hn) as Hs. unfold spare in Hs. rewrite Ec in Hs. cbn in Hs. lia.
Qed.

(** What a placement finds on the node, when it finds room. *)
Lemma quiet_run_room name cap now es r c w :
  0 ≤ π cap → (2 * Z.of_nat (length es) + 1) * π cap ≤ max_int64 →
  quiet_run range es (room_initial name cap now) = true → room_run range es (room_initial name cap now) = Some r →
  candidate range (rm_node r) = Some c → hasRoom c w = true →
  in_use π r + promised π r + π (want_res w) ≤ π cap.
Proof.
  intros Hcap Hmax Hq Hrun Hc Hw.
  destruct (NInv_run es 0 (room_initial name cap now) r) as [Hn Ec]; try done; [by apply NInv_initial|].
  assert (is_Some (gn_status (rm_node r))) as Hst
    by (unfold candidate in Hc; destruct (gn_status (rm_node r)); [by eexists|done]).
  cbn in Ec. assert (in_int64 (seen r)) as Hin by (eapply seen_in_range; [done|done|by rewrite Ec|by rewrite Ec]).
  pose proof (room_seen r c w Hc Hw Hin). pose proof (seen_le_spare r (ni_inv _ _ Hn) Hst) as Hs.
  unfold spare in Hs. rewrite Ec in Hs. lia.
Qed.
End sound.

Section node_room.
Context (range : gmap nat placement → list (nat * placement)).
Context (range_lists : ∀ m, range m ≡ₚ map_to_list m).

Lemma hasRoom_memory c w : hasRoom c w = true →
  nr_MemoryMB (want_res w) ≤ int_sub (nr_MemoryMB (ns_Free (cand_Status c))) (nr_MemoryMB (cand_Reserved c)).
Proof. unfold hasRoom, free. cbn. destruct (_ || _) eqn:E; [done|]. intros _. rewrite !orb_false_iff in E. lia. Qed.

Lemma hasRoom_gpus c w : hasRoom c w = true →
  nr_GPUs (want_res w) ≤ int_sub (nr_GPUs (ns_Free (cand_Status c))) (nr_GPUs (cand_Reserved c)).
Proof. unfold hasRoom, free. cbn. destruct (_ || _) eqn:E; [done|]. intros _. rewrite !orb_false_iff in E. lia. Qed.

Lemma credit_memory res : 0 ≤ nr_MemoryMB res ≤ max_int64 → - nr_MemoryMB res ≤ nr_MemoryMB (credit_of res) ≤ 0.
Proof. intros H. cbn. rewrite wrap64_id; [lia|]. unfold in_int64, min_int64, max_int64 in *. lia. Qed.

Ltac room_facts :=
  try done; try apply range_lists;
  first [apply credit_memory | apply hasRoom_memory | apply hasRoom_gpus
        | intros; unfold fits_within, true_status, want_res, credit_of in *; cbn; lia].

End node_room.

(** ** A node with room for one, placed, polled, deleted and placed again *)
Definition small_node : NodeStatus :=
  set_Free {| nr_CPUs := float_of_Z 8; nr_MemoryMB := 1536; nr_DiskMB := 0; nr_GPUs := 0 |}
    (cand_Status (example_node "n1" 0)).
Definition small_cap : NodeResources :=
  {| nr_CPUs := float_of_Z 8; nr_MemoryMB := 1536; nr_DiskMB := 0; nr_GPUs := 0 |}.
Definition size_of_want : NodeResources := want_res (example_want None).
Definition busy_node : NodeStatus :=
  set_Free {| nr_CPUs := float_of_Z 6; nr_MemoryMB := 512; nr_DiskMB := 0; nr_GPUs := 0 |} small_node.
Definition example_events : list (Z * room_event) := [
  (1, RE_ask 0); (2, RE_status 0 small_node); (3, RE_poll 0 3);
  (4, RE_place (example_want None)); (5, RE_ask 1); (6, RE_made 0 "n1-a" size_of_want);
  (7, RE_status 1 busy_node); (8, RE_poll 1 3); (9, RE_answered 0);
  (10, RE_ask 2); (11, RE_status 2 busy_node); (12, RE_poll 2 3);
  (13, RE_deleted 0); (14, RE_released 0); (15, RE_place (example_want None));
  (16, RE_made 1 "n1-b" size_of_want) ].


(** Two polls at once (the ticker's, and the one a cordon makes) can end in the
    other order: the older status, from before the sandbox was made, is then
    taken after the newer one dropped its placement, and the gateway sees the
    room as free again. *)
Definition late_poll_events : list (Z * room_event) := [
  (1, RE_ask 0); (2, RE_status 0 small_node); (3, RE_ask 1); (4, RE_status 1 small_node); (5, RE_poll 0 3);
  (6, RE_place (example_want None)); (7, RE_made 0 "n1-a" size_of_want); (8, RE_answered 0);
  (9, RE_ask 2); (10, RE_status 2 busy_node); (11, RE_poll 2 3); (12, RE_poll 1 3);
  (13, RE_place (example_want None)) ].

Theorem late_poll_overcommits : ∃ r,
  room_run map_to_list late_poll_events (room_initial "n1" small_cap 0) = Some r ∧
  in_use nr_MemoryMB r + promised nr_MemoryMB r = 2048 ∧ nr_MemoryMB small_cap = 1536.
Proof.
  destruct (room_run map_to_list late_poll_events (room_initial "n1" small_cap 0)) as [r|] eqn:E.
  - exists r. vm_compute in E. injection E as <-. vm_compute. by repeat split.
  - vm_compute in E. discriminate E.
Qed.
