(* ===== verification/Access.v ===== *)
(** * Who may act on which sandbox (internal/gateway: contracts.go, http.go,
    orgs.go selectOrg, gateway.go the router, sandboxes.go list and forward)

    A credential becomes a principal ([authenticate]), the request's tenant is
    chosen once ([selectOrg]), and one function, [resolve], says which sandbox
    on which node the request may reach; [forward] is the request from its
    headers to the node. The store is an interface, [Store]: what the gateway
    asks of it, each answer possibly an error. *)
From S2P Require Import Prelude GoSort GoStrings GoPath Api Spec.

(** ** Scopes, principals, keys *)
Definition ScopeRead : string := "sandbox:read".
Definition ScopeCreate : string := "sandbox:create".
Definition ScopeDelete : string := "sandbox:delete".
Definition ScopeSSH : string := "sandbox:ssh".
Definition ScopeAdmin : string := "admin".
Definition ScopeSecretsWrite : string := "secrets:write".
Definition ScopeOrgCreate : string := "org:create".
Definition AllScopes : list string :=
  [ScopeRead; ScopeCreate; ScopeDelete; ScopeSSH; ScopeAdmin; ScopeSecretsWrite; ScopeOrgCreate].

Record Principal := {
  p_User : string;
  p_Tenant : string;
  p_KeyTenant : string;
  p_KeyID : string;
  p_Scopes : list string;
  p_Sandbox : string;
  p_Bound : bool;
  p_BoundOrg : string
}.

Definition Can (p : Principal) (scope : string) : bool :=
  bool_decide (ScopeAdmin ∈ p_Scopes p) || bool_decide (scope ∈ p_Scopes p).

Record Key := {
  k_ID : string;
  k_User : string;
  k_Tenant : string;
  k_Scopes : list string;
  k_Hash : string;
  k_Created : Z;
  k_Revoked : bool;
  k_Expires : option Z;
  k_Email : string;
  k_Password : string;
  k_LastLogin : option Z;
  k_Parent : string;
  k_Personal : bool;
  k_Name : string;
  k_Bound : bool;
  k_Org : string;
  k_RestoreUntil : option Z
}.

Definition Suspended (now : Z) (k : Key) : bool :=
  k_Revoked k && match k_RestoreUntil k with Some t => now <? t | None => false end.
Definition Active (now : Z) (k : Key) : bool :=
  negb (k_Revoked k) && match k_Expires k with None => true | Some t => now <? t end.

Record Owner := { ow_User : string; ow_Tenant : string; ow_Node : string }.
#[export] Instance Owner_eq_dec : EqDecision Owner.
Proof. solve_decision. Defined.

Record SSHKey := {
  sk_ID : string;
  sk_User : string;
  sk_Tenant : string;
  sk_Fingerprint : string;
  sk_AuthorizedKey : string;
  sk_Sandbox : string;
  sk_Created : Z
}.
Record SSHToken := { tk_User : string; tk_Tenant : string; tk_Sandbox : string; tk_Expires : Z }.

(** ** The store, as the gateway asks it *)
Inductive store_error := ErrStore.
Abbreviation sres A := (result store_error A).

Class Store (S : Type) := {
  ForTenant : string → S → S;
  KeyBySecret : S → Z → string → sres (option Key);
  Keys : S → sres (list Key);
  KeysOfUser : S → string → sres (list Key);
  MemberRole : S → string → string → string → sres (option string);
  OwnerOf : S → string → sres (option Owner);
  (** [SandboxHistory] of a tenant and a user, the live ones. *)
  LiveOf : S → string → string → sres (list (string * Owner));
  SSHKeysByFingerprint : S → string → sres (list SSHKey);
  RedeemSSHToken : S → Z → string → sres (option SSHToken)
}.

(** ** Tombstones *)
Record tombstones := {
  tb_max : nat;
  tb_ttl : Z;
  tb_m : gmap string (Owner * Z);
  tb_order : list string
}.

(** [for len(t.order) > t.max { delete; pop }]. *)
Definition evict (max : nat) (m : gmap string (Owner * Z)) (order : list string) : gmap string (Owner * Z) * list string :=
  let over := (length order - max)%nat in
  (foldl (λ m id, delete id m) m (take over order), drop over order).

Definition tomb_add (now : Z) (id : string) (o : Owner) (t : tombstones) : tombstones :=
  let order := match tb_m t !! id with None => tb_order t ++ [id] | Some _ => tb_order t end in
  let '(m, order) := evict (tb_max t) (<[id := (o, now)]> (tb_m t)) order in
  {| tb_max := tb_max t; tb_ttl := tb_ttl t; tb_m := m; tb_order := order |}.

Definition tomb_get (now : Z) (id : string) (t : tombstones) : option Owner :=
  match tb_m t !! id with
  | Some (o, at_) => if time_sub now at_ >? tb_ttl t then None else Some o
  | None => None
  end.

(** ** The router *)
Inductive route_error :=
| ErrUnauthenticated
| ErrForbidden
| ErrNotFound
| ErrNodeDown
| RouteStore
| NodeRefused (status : Z)
| NodeNetwork
| NodeFailed.

Definition from_store {A} (r : sres A) : result route_error A :=
  match r with Ok v => Ok v | Err ErrStore => Err RouteStore end.

(** A node's answer to GET /v1/sandboxes. *)
Inductive node_answer :=
| Listed (l : list Sandbox)
| NeverSent
| ListingFailed (e : route_error).

Record gateway (S : Type) := {
  gw_store : S;
  gw_tombs : tombstones;
  gw_nodes : gmap string bool
}.
Arguments gw_store {S} _.
Arguments gw_tombs {S} _.
Arguments gw_nodes {S} _.

Definition mayAct (p : Principal) (o : Owner) : bool :=
  negb (String.eqb (p_User p) "") && String.eqb (ow_User o) (p_User p) && String.eqb (ow_Tenant o) (p_Tenant p).
Definition mayEnd (p : Principal) (scope : string) : bool := String.eqb scope ScopeDelete && Can p ScopeAdmin.


(** Newest first; of one moment, the greater id first. *)
Definition listed_before (a b : Sandbox) : bool :=
  if negb (sb_CreatedAt a =? sb_CreatedAt b) then sb_CreatedAt b <? sb_CreatedAt a else str_ltb (sb_ID b) (sb_ID a).

Section router.
Context {S : Type} `{Store S}.
Implicit Types (g : gateway S) (p : Principal).

Definition storeFor g p : S :=
  if Can p ScopeAdmin then gw_store g else ForTenant (p_Tenant p) (gw_store g).

Definition is_healthy g (n : string) : bool := match gw_nodes g !! n with Some up => up | None => false end.

Definition ownerOf g p (now : Z) (id : string) : sres (option Owner) :=
  match OwnerOf (storeFor g p) id with
  | Err e => Err e
  | Ok (Some o) => Ok (Some o)
  | Ok None => Ok (tomb_get now id (gw_tombs g))
  end.

(** The rows, as a map: of two of one id the later. *)
Definition owned_map (rows : list (string * Owner)) : gmap string Owner :=
  foldl (λ m '(id, o), <[id := o]> m) ∅ rows.

Definition listed_mine g p (now : Z) (owned : gmap string Owner) (node : string) (sb : Sandbox) : bool :=
  match match owned !! sb_ID sb with Some o => Some o | None => tomb_get now (sb_ID sb) (gw_tombs g) end with
  | Some o => String.eqb (ow_Node o) node && String.eqb (ow_User o) (p_User p) && String.eqb (ow_Tenant o) (p_Tenant p)
  | None => false
  end.

(** The first failure, in the order the answers came, or what they list. *)
Fixpoint gather (keep : string → Sandbox → bool) (answers : list (string * node_answer)) : result route_error (list Sandbox) :=
  match answers with
  | [] => Ok []
  | (n, Listed l) :: rest => ls ← gather keep rest; Ok (List.filter (keep n) l ++ ls)
  | (_, NeverSent) :: rest => gather keep rest
  | (_, ListingFailed e) :: _ => Err e
  end.

(** [answers]: the nodes', in the order they came; those of healthy nodes are
    asked for. The list a request that is not an admin's total gets. *)
Definition listSandboxes g p (now : Z) (answers : list (string * node_answer)) : result route_error (list Sandbox) :=
  rows ← from_store (LiveOf (storeFor g p) (p_Tenant p) (p_User p));
  l ← gather (listed_mine g p now (owned_map rows)) (List.filter (λ a, is_healthy g a.1) answers);
  Ok (sort_stable listed_before l).

(** The live one, or else the newest terminated one. *)
Fixpoint named (name : string) (best : option Sandbox) (l : list Sandbox) : option string :=
  match l with
  | [] => sb_ID <$> best
  | sb :: l =>
      if negb (String.eqb (sb_Name sb) name) then named name best l
      else if negb (String.eqb (sb_State sb) StateTerminated) then Some (sb_ID sb)
      else match best with
           | None => named name (Some sb) l
           | Some b => named name (if sb_CreatedAt b <? sb_CreatedAt sb then Some sb else best) l
           end
  end.

Definition byName g p now answers (name : string) : result route_error string :=
  l ← listSandboxes g p now answers; of_option (named name None l) ErrNotFound.

(** Which sandbox a reference is: its id and its owner. *)
Definition resolve_ref g p now answers (ref scope : string) : result route_error (string * Owner) :=
  if ValidID ref then
    o ← from_store (ownerOf g p now ref);
    match o with
    | Some o => if mayAct p o || mayEnd p scope then Ok (ref, o) else Err ErrNotFound
    | None => Err ErrNotFound
    end
  else if ValidName ref then
    id ← byName g p now answers ref;
    o ← from_store (ownerOf g p now id);
    match o with
    | Some o => if mayAct p o then Ok (id, o) else Err ErrNotFound
    | None => Err ErrNotFound
    end
  else Err ErrNotFound.

(** An id and the node it is recorded on disagree. *)
Definition misrouted (id : string) (o : Owner) : bool :=
  match NodeOfID id with Some n => negb (String.eqb n (ow_Node o)) | None => false end.

Definition resolve g p (now : Z) (answers : list (string * node_answer)) (ref scope : string) :
    result route_error (string * Owner) :=
  reject_if (String.eqb (p_User p) "") ErrUnauthenticated;;
  reject_if (String.eqb scope "" || negb (Can p scope)) ErrForbidden;;
  '(id, o) ← resolve_ref g p now answers ref scope;
  reject_if (negb (String.eqb (p_Sandbox p) "") && negb (String.eqb (p_Sandbox p) id)) ErrNotFound;;
  reject_if (misrouted id o) ErrNotFound;;
  reject_if (negb (is_healthy g (ow_Node o))) ErrNodeDown;;
  Ok (id, o).
End router.

(** ** From a request's headers to its principal *)
Definition DefaultOrg : string := "default".
Definition wireOrg (tenant : string) : string := if String.eqb tenant "" then DefaultOrg else tenant.
Definition tenantOfOrg (name : string) : string := if String.eqb name DefaultOrg then "" else name.

Definition principal_of (k : Key) : Principal := {|
  p_User := k_User k; p_Tenant := k_Tenant k; p_KeyTenant := k_Tenant k; p_KeyID := k_ID k;
  p_Scopes := k_Scopes k; p_Sandbox := ""; p_Bound := k_Bound k; p_BoundOrg := k_Org k |}.

Definition in_tenant (t : string) (p : Principal) : Principal := {|
  p_User := p_User p; p_Tenant := t; p_KeyTenant := p_KeyTenant p; p_KeyID := p_KeyID p;
  p_Scopes := p_Scopes p; p_Sandbox := p_Sandbox p; p_Bound := p_Bound p; p_BoundOrg := p_BoundOrg p |}.

(** A refusal is its HTTP status. *)
Abbreviation answered A := (result Z A).

Section request.
Context `{Unicode} {S : Type} `{Store S}.

Definition authenticate (s : S) (now : Z) (authorization : string) : sres (option Principal) :=
  match cut_prefix authorization "Bearer " with
  | None => Ok None
  | Some secret =>
      if String.eqb secret "" then Ok None
      else match KeyBySecret s now secret with Ok k => Ok (principal_of <$> k) | Err e => Err e end
  end.

(** [vals]: the values X-Sandbox-Org is given with. *)
Definition selectOrg (s : S) (vals : list string) (p : Principal) : answered Principal :=
  reject_if (1 <? Z.of_nat (length vals)) 400;;
  let name := match vals with [v] => trim_space v | _ => "" end in
  let name := if p_Bound p && String.eqb name "" then wireOrg (p_BoundOrg p) else name in
  reject_if (p_Bound p && negb (equal_fold (tenantOfOrg name) (p_BoundOrg p))) 403;;
  if String.eqb name "" then Ok p
  else
    let t := tenantOfOrg name in
    if String.eqb t (p_KeyTenant p) || String.eqb name (p_KeyTenant p) then Ok p
    else match MemberRole s t (p_User p) (p_KeyTenant p) with
         | Err _ => Err 503
         | Ok None => Err 404
         | Ok (Some _) => Ok (in_tenant (if String.eqb t "" then t else to_lower t) p)
         end.

Definition stillInTenant (s : S) (p : Principal) (k : Key) : sres bool :=
  if k_Bound k && negb (equal_fold (p_Tenant p) (k_Org k)) then Ok false
  else if String.eqb (p_Tenant p) (k_Tenant k) then Ok true
  else match MemberRole s (p_Tenant p) (k_User k) (k_Tenant k) with
       | Ok r => Ok (bool_decide (is_Some r))
       | Err e => Err e
       end.
End request.

(** ** Forwarding *)

(** What [url.PathEscape] leaves as it is; anything else becomes a percent and
    two upper-case hex digits. *)
Definition path_plain (c : ascii) : bool :=
  is_alnum c || is_char "-" c || is_char "_" c || is_char "." c || is_char "~" c || is_char "$" c || is_char "&" c ||
  is_char "+" c || is_char "=" c || is_char ":" c || is_char "@" c.
Definition upper_hex (z : Z) : ascii := if z <? 10 then char_of (48 + z) else char_of (55 + z).
Definition PathEscape (s : string) : string :=
  of_chars (mjoin ((λ c, if path_plain c then [c] else ["%"%char; upper_hex (code c / 16); upper_hex (code c mod 16)]) <$> chars s)).

Definition forward_target (path ref id : string) : option string :=
  rest ← cut_prefix path ("/v1/sandboxes/" +:+ ref);
  let target := "/v1/sandboxes/" +:+ PathEscape id +:+ rest in
  if String.eqb (clean_rooted target) target then Some target else None.

(** The routes forwarded as they are, and the scope each needs. *)
Record route := { rt_method : string; rt_rest : string; rt_scope : string }.
Definition routes : list route := [
  {| rt_method := "GET"; rt_rest := ""; rt_scope := ScopeRead |};
  {| rt_method := "POST"; rt_rest := "/run"; rt_scope := ScopeCreate |};
  {| rt_method := "POST"; rt_rest := "/processes"; rt_scope := ScopeCreate |};
  {| rt_method := "GET"; rt_rest := "/processes"; rt_scope := ScopeRead |};
  {| rt_method := "GET"; rt_rest := "/processes/{pid}"; rt_scope := ScopeRead |};
  {| rt_method := "GET"; rt_rest := "/processes/{pid}/output"; rt_scope := ScopeRead |};
  {| rt_method := "POST"; rt_rest := "/processes/{pid}/stdin"; rt_scope := ScopeCreate |};
  {| rt_method := "POST"; rt_rest := "/processes/{pid}/signal"; rt_scope := ScopeCreate |};
  {| rt_method := "GET"; rt_rest := "/processes/{pid}/attach"; rt_scope := ScopeCreate |};
  {| rt_method := "POST"; rt_rest := "/suspend"; rt_scope := ScopeCreate |};
  {| rt_method := "POST"; rt_rest := "/resume"; rt_scope := ScopeCreate |};
  {| rt_method := "POST"; rt_rest := "/snapshots"; rt_scope := ScopeCreate |};
  {| rt_method := "PUT"; rt_rest := "/snapshot-schedule"; rt_scope := ScopeCreate |};
  {| rt_method := "GET"; rt_rest := "/tunnel"; rt_scope := ScopeCreate |};
  {| rt_method := "GET"; rt_rest := "/files"; rt_scope := ScopeRead |};
  {| rt_method := "PUT"; rt_rest := "/files"; rt_scope := ScopeCreate |};
  {| rt_method := "DELETE"; rt_rest := "/files"; rt_scope := ScopeCreate |};
  {| rt_method := "GET"; rt_rest := "/dirs"; rt_scope := ScopeRead |};
  {| rt_method := "GET"; rt_rest := "/events"; rt_scope := ScopeRead |};
  {| rt_method := "GET"; rt_rest := "/metrics"; rt_scope := ScopeRead |};
  {| rt_method := "DELETE"; rt_rest := ""; rt_scope := ScopeDelete |}].

(** [rq_origin], [rq_typed]: what the origin and the content type check say. *)
Record request := {
  rq_origin : bool;
  rq_authorization : string;
  rq_orgs : list string;
  rq_typed : bool;
  rq_path : string;
  rq_ref : string
}.

Definition route_status (e : route_error) : Z :=
  match e with
  | RouteStore => 503
  | ErrUnauthenticated => 401
  | ErrForbidden => 403
  | ErrNotFound => 404
  | ErrNodeDown => 503
  | NodeRefused st => st
  | NodeNetwork => 503
  | NodeFailed => 502
  end.

(** What reaches a node: the node, the path, and whether it is marked as not
    keeping the sandbox up. *)
Record forwarded := { fw_node : string; fw_id : string; fw_owner : Owner; fw_target : string; fw_background : bool }.

Section forward.
Context `{Unicode} {S : Type} `{Store S}.
Implicit Types (g : gateway S) (p : Principal).

Definition forward g now answers (scope : string) (rq : request) p : answered forwarded :=
  match resolve g p now answers (rq_ref rq) scope with
  | Err e => Err (route_status e)
  | Ok (id, o) =>
      match forward_target (rq_path rq) (rq_ref rq) id with
      | None => Err 404
      | Some target => Ok {| fw_node := ow_Node o; fw_id := id; fw_owner := o; fw_target := target;
                             fw_background := negb (Can p ScopeCreate) |}
      end
  end.

Definition guard {A} g (now : Z) (rq : request) (next : Principal → answered A) : answered A :=
  reject_if (negb (rq_origin rq)) 403;;
  match authenticate (gw_store g) now (rq_authorization rq) with
  | Err _ => Err 503
  | Ok None => Err 401
  | Ok (Some p) =>
      p ← selectOrg (gw_store g) (rq_orgs rq) p;
      reject_if (negb (rq_typed rq)) 415;;
      next p
  end.

Definition serve_route g now answers (rt : route) (rq : request) : answered forwarded :=
  guard g now rq (forward g now answers (rt_scope rt) rq).
End forward.

(** ** Facts of the pieces *)
Lemma mayAct_spec p o :
  mayAct p o = true ↔ p_User p ≠ ""%string ∧ ow_User o = p_User p ∧ ow_Tenant o = p_Tenant p.
Proof. unfold mayAct. rewrite !andb_true_iff, negb_true_iff, String.eqb_neq, !String.eqb_eq. naive_solver. Qed.

Lemma mayEnd_spec p scope : mayEnd p scope = true ↔ scope = ScopeDelete ∧ Can p ScopeAdmin = true.
Proof. unfold mayEnd. by rewrite andb_true_iff, String.eqb_eq. Qed.

Lemma Can_spec p scope : Can p scope = true ↔ ScopeAdmin ∈ p_Scopes p ∨ scope ∈ p_Scopes p.
Proof. unfold Can. by rewrite orb_true_iff, !bool_decide_eq_true. Qed.

Lemma from_store_ok {A} (r : sres A) v : from_store r = Ok v ↔ r = Ok v.
Proof. destruct r as [|[]]; cbn; naive_solver. Qed.

Section router_facts.
Context {S : Type} `{Store S}.
Implicit Types (g : gateway S) (p : Principal).

Lemma resolve_ok g p now answers ref scope id o :
  resolve g p now answers ref scope = Ok (id, o) ↔
  p_User p ≠ ""%string ∧ scope ≠ ""%string ∧ Can p scope = true ∧
  resolve_ref g p now answers ref scope = Ok (id, o) ∧
  (p_Sandbox p = ""%string ∨ p_Sandbox p = id) ∧
  (∀ n, NodeOfID id = Some n → n = ow_Node o) ∧ is_healthy g (ow_Node o) = true.
Proof.
  unfold resolve. rewrite !guard_ok, bind_ok. split.
  - intros (Hu & Hs & [id' o'] & Hr & Hrest). rewrite !guard_ok in Hrest. destruct Hrest as (Hsb & Hm & Hh & [= -> ->]).
    apply orb_false_iff in Hs as [Hs Hc%negb_false_iff]. apply String.eqb_neq in Hu, Hs.
    apply negb_false_iff in Hh. split_and!; try done.
    + apply andb_false_iff in Hsb as [E|E]; apply negb_false_iff, String.eqb_eq in E; auto.
    + unfold misrouted in Hm. intros n E. rewrite E in Hm. by apply negb_false_iff, String.eqb_eq in Hm.
  - intros (Hu & Hs & Hc & Hr & Hsb & Hm & Hh). split; [by apply String.eqb_neq|].
    apply String.eqb_neq in Hs. split; [by rewrite Hs, Hc|]. exists (id, o). split; [done|].
    rewrite !guard_ok, Hh. split_and!; try done.
    + destruct Hsb as [->| ->]; [done|]. rewrite String.eqb_refl. apply andb_false_r.
    + unfold misrouted. destruct (NodeOfID id) as [n|]; [|done]. by rewrite (Hm n eq_refl), String.eqb_refl.
Qed.

Lemma resolve_ref_ok g p now answers ref scope id o :
  resolve_ref g p now answers ref scope = Ok (id, o) ↔
  ownerOf g p now id = Ok (Some o) ∧
  if ValidID ref then id = ref ∧ (mayAct p o = true ∨ mayEnd p scope = true)
  else ValidName ref = true ∧ byName g p now answers ref = Ok id ∧ mayAct p o = true.
Proof.
  unfold resolve_ref. destruct (ValidID ref).
  - rewrite bind_ok. setoid_rewrite from_store_ok. split.
    + intros ([o'|] & Ho & Hif); [|done]. destruct (_ || _) eqn:E; [|done]. injection Hif as <- <-.
      split; [done|]. split; [done|]. by apply orb_true_iff in E.
    + intros (Ho & -> & E). exists (Some o). split; [done|]. apply orb_true_iff in E. by rewrite E.
  - destruct (ValidName ref); [|split; [done|intros (_ & E & _); done]].
    rewrite bind_ok. split.
    + intros (id' & Hn & Hif). apply bind_ok in Hif as ([o'|] & Ho%from_store_ok & Hif); [|done].
      destruct (mayAct p o') eqn:E; [|done]. by injection Hif as <- <-.
    + intros (Ho & _ & Hn & Ha). exists id. split; [done|]. apply bind_ok. exists (Some o).
      split; [by apply from_store_ok|]. by rewrite Ha.
Qed.

Lemma resolve_sound g p now answers ref scope id o :
  resolve g p now answers ref scope = Ok (id, o) →
  p_User p ≠ ""%string ∧ Can p scope = true ∧ ownerOf g p now id = Ok (Some o) ∧
  (mayAct p o = true ∨ mayEnd p scope = true ∧ id = ref) ∧
  (p_Sandbox p = ""%string ∨ p_Sandbox p = id) ∧ is_healthy g (ow_Node o) = true.
Proof.
  rewrite resolve_ok, resolve_ref_ok. intros (Hu & _ & Hc & (Ho & Hr) & Hsb & _ & Hh). split_and!; try done.
  destruct (ValidID ref); destruct Hr as (H1 & H2); [|naive_solver]. naive_solver.
Qed.

(** What a name finds: one of the name, live if any listed is, or else the
    newest. *)
Lemma named_spec name l : ∀ best id,
  named name best l = Some id →
  (∃ sb, sb ∈ l ∧ sb_ID sb = id ∧ sb_Name sb = name ∧
    (sb_State sb ≠ StateTerminated ∨
     (∀ x, x ∈ l → sb_Name x = name → sb_State x = StateTerminated ∧ sb_CreatedAt x ≤ sb_CreatedAt sb) ∧
     (∀ b, best = Some b → sb_CreatedAt b ≤ sb_CreatedAt sb))) ∨
  (∃ b, best = Some b ∧ sb_ID b = id ∧
    ∀ x, x ∈ l → sb_Name x = name → sb_State x = StateTerminated ∧ sb_CreatedAt x ≤ sb_CreatedAt b).
Proof.
  induction l as [|sb l IH]; intros best id; cbn.
  - destruct best as [b|]; [|done]. intros [= <-]. right. exists b. split_and!; [done..|]. intros x Hx. set_solver.
  - destruct (String.eqb_spec (sb_Name sb) name) as [En|En]; cbn.
    2: { intros [(x & Hx & Hr)|(b & Hb & Hi & Hr)]%IH.
      - left. exists x. split; [set_solver|]. destruct Hr as (? & ? & [?|[Hr ?]]); split_and!; try done; [by left|].
        right. split; [|done]. intros y [->|Hy]%elem_of_cons ?; [done|by apply Hr].
      - right. exists b. split_and!; [done..|]. intros y [->|Hy]%elem_of_cons ?; [done|by apply Hr]. }
    destruct (String.eqb_spec (sb_State sb) StateTerminated) as [Es|Es]; cbn.
    2: { intros [= <-]. left. exists sb. split_and!; [set_solver|done..|by left]. }
    assert (∀ nb, (nb = sb ∨ best = Some nb ∧ sb_CreatedAt sb ≤ sb_CreatedAt nb) →
      sb_CreatedAt sb ≤ sb_CreatedAt nb ∧ (∀ b, best = Some b → sb_CreatedAt b ≤ sb_CreatedAt nb) →
      named name (Some nb) l = Some id →
      (∃ x, x ∈ sb :: l ∧ sb_ID x = id ∧ sb_Name x = name ∧
        (sb_State x ≠ StateTerminated ∨
         (∀ y, y ∈ sb :: l → sb_Name y = name → sb_State y = StateTerminated ∧ sb_CreatedAt y ≤ sb_CreatedAt x) ∧
         (∀ b, best = Some b → sb_CreatedAt b ≤ sb_CreatedAt x))) ∨
      (∃ b, best = Some b ∧ sb_ID b = id ∧
        ∀ y, y ∈ sb :: l → sb_Name y = name → sb_State y = StateTerminated ∧ sb_CreatedAt y ≤ sb_CreatedAt b)) as Hgo.
    { intros nb Hnb [Hge Hbest] [(x & Hx & Hi & Hn & Hr)|(b & [= <-] & Hi & Hr)]%IH.
      - left. exists x. split_and!; [set_solver|done..|]. destruct Hr as [?|[Hr Hb]]; [by left|right].
        specialize (Hb nb eq_refl). split; [|intros b Eb; specialize (Hbest b Eb); lia].
        intros y [->|Hy]%elem_of_cons ?; [split; [done|lia]|by apply Hr].
      - assert (∀ y, y ∈ sb :: l → sb_Name y = name → sb_State y = StateTerminated ∧ sb_CreatedAt y ≤ sb_CreatedAt nb) as Hall.
        { intros y [->|Hy]%elem_of_cons ?; [done|by apply Hr]. }
        destruct Hnb as [->|[Eb _]]; [left|right; by exists nb].
        exists sb. split_and!; [set_solver|done..|]. by right. }
    destruct best as [b|].
    + destruct (Z.ltb_spec (sb_CreatedAt b) (sb_CreatedAt sb)); apply Hgo; [by left| |right; split; [done|lia]|];
        (split; [lia|]); intros ? [= <-]; lia.
    + apply Hgo; [by left|]. split; [lia|done].
Qed.
End router_facts.

(** ** What the router says of others' sandboxes *)
Section unseen.
Context {S : Type} `{Store S}.
Implicit Types (g : gateway S) (p : Principal).

Definition own_view p (o : option Owner) : option Owner :=
  match o with Some o => if mayAct p o then Some o else None | None => None end.
Definition same_owner p (r r' : sres (option Owner)) : Prop :=
  match r, r' with
  | Ok o, Ok o' => own_view p o = own_view p o'
  | Err e, Err e' => e = e'
  | _, _ => False
  end.
Definition owned_by g p : gmap string Owner :=
  match LiveOf (storeFor g p) (p_Tenant p) (p_User p) with Ok rows => owned_map rows | Err _ => ∅ end.
Definition same_answer p now g g' (a a' : string * node_answer) : Prop :=
  a.1 = a'.1 ∧
  match a.2, a'.2 with
  | Listed l, Listed l' =>
      List.filter (listed_mine g p now (owned_by g p) a.1) l = List.filter (listed_mine g' p now (owned_by g' p) a.1) l'
  | x, y => x = y
  end.

(** Two fleets that are one to [p]: the same nodes are up, and what [p] owns in
    each is the same. *)
Record looks_alike p (now : Z) g g' (answers answers' : list (string * node_answer)) : Prop := {
  la_nodes : gw_nodes g = gw_nodes g';
  la_owner : ∀ id, same_owner p (ownerOf g p now id) (ownerOf g' p now id);
  la_live : LiveOf (storeFor g p) (p_Tenant p) (p_User p) = LiveOf (storeFor g' p) (p_Tenant p) (p_User p);
  la_answers : Forall2 (same_answer p now g g') answers answers'
}.

Lemma gather_alike keep keep' answers answers' :
  Forall2 (λ a a', a.1 = a'.1 ∧
    match a.2, a'.2 with
    | Listed l, Listed l' => List.filter (keep a.1) l = List.filter (keep' a.1) l'
    | x, y => x = y
    end) answers answers' → gather keep answers = gather keep' answers'.
Proof.
  induction 1 as [|[n a] [n' a'] l l' [E Ha] _ IH]; [done|]. cbn in E, Ha. subst n'. cbn.
  destruct a, a'; simplify_eq; [|exact IH|done]. by rewrite Ha, IH.
Qed.

Lemma listSandboxes_alike p now g g' answers answers' :
  looks_alike p now g g' answers answers' → listSandboxes g p now answers = listSandboxes g' p now answers'.
Proof.
  intros [Hn _ Hl Ha]. unfold listSandboxes. pose proof Hl as Hl'. unfold owned_by in *. unfold same_answer, owned_by in Ha.
  rewrite <- Hl in Ha |- *. destruct (LiveOf (storeFor g p) _ _) as [rows|[]]; [|done]. cbn.
  erewrite gather_alike; [done|]. unfold is_healthy. rewrite <- Hn.
  induction Ha as [|[n a] [n' a'] l l' [E Haa] _ IH]; [constructor|]. cbn in E. subst n'. cbn.
  destruct (match gw_nodes g !! n with Some up => up | None => false end); [|exact IH].
  constructor; [|exact IH]. done.
Qed.

Lemma resolve_ref_alike p now g g' answers answers' ref scope :
  mayEnd p scope = false → looks_alike p now g g' answers answers' →
  resolve_ref g p now answers ref scope = resolve_ref g' p now answers' ref scope.
Proof.
  intros Hend Hla. assert (∀ id, match from_store (ownerOf g p now id), from_store (ownerOf g' p now id) with
    | Ok o, Ok o' => own_view p o = own_view p o' | Err e, Err e' => e = e' | _, _ => False end) as Ho.
  { intros id. pose proof (la_owner _ _ _ _ _ _ Hla id) as Hs.
    destruct (ownerOf g p now id) as [|[]], (ownerOf g' p now id) as [|[]]; done. }
  assert (∀ f id, (∀ o, f o = mayAct p o) →
    (o ← from_store (ownerOf g p now id);
      match o with Some o => if f o then Ok (id, o) else Err ErrNotFound | None => Err ErrNotFound end) =
    (o ← from_store (ownerOf g' p now id);
      match o with Some o => if f o then Ok (id, o) else Err ErrNotFound | None => Err ErrNotFound end)) as Hid.
  { intros f id Hf. specialize (Ho id).
    destruct (from_store (ownerOf g p now id)) as [o|], (from_store (ownerOf g' p now id)) as [o'|];
      try done; [|by subst]. cbn. unfold own_view in Ho.
    destruct o as [o|], o' as [o'|]; try done; rewrite ?Hf; repeat destruct (mayAct _ _); simplify_eq; done. }
  unfold resolve_ref, byName. rewrite (listSandboxes_alike p now g g' answers answers' Hla).
  destruct (ValidID ref); [apply (Hid (λ o, mayAct p o || mayEnd p scope)); intros; rewrite Hend; apply orb_false_r|].
  destruct (ValidName ref); [|done].
  destruct (listSandboxes g' p now answers'); [|done]. cbn. destruct (of_option _ _); [|done]. cbn. by apply Hid.
Qed.

End unseen.

(** ** What reaches a node *)
Lemma PathEscape_free s : ("/"%char : ascii) ∉ chars (PathEscape s).
Proof.
  unfold PathEscape. rewrite chars_of_chars. intros (l & Hl & (c & -> & Hc)%list_elem_of_fmap)%list_elem_of_join.
  cbn in *. destruct (path_plain c) eqn:E.
  - apply list_elem_of_singleton in Hl. subst c. by vm_compute in E.
  - assert (∀ z, 0 ≤ z < 16 → upper_hex z ≠ ("/"%char : ascii)) as Hhex.
    { intros z Hz. assert (Forall (λ z, upper_hex z ≠ ("/"%char : ascii)) (seqZ 0 16)) as Hall
        by (apply (bool_decide_unpack _); vm_compute; exact I).
      rewrite Forall_forall in Hall. apply Hall. apply elem_of_seqZ. lia. }
    assert (0 ≤ code c < 256) as Hr by (apply code_range).
    repeat (apply elem_of_cons in Hl as [Hl|Hl]); [done| | |by apply not_elem_of_nil in Hl]; symmetry in Hl; revert Hl.
    + apply Hhex. pose proof (Z.div_lt_upper_bound (code c) 16 16). split; [apply Z.div_pos; lia|lia].
    + apply Hhex. apply Z.mod_pos_bound. lia.
Qed.

(** What the mux matched: the path names the reference, then what the route
    has after it. *)
Definition matched (path ref : string) : Prop :=
  ∃ rest, path = "/v1/sandboxes/" +:+ ref +:+ rest ∧ (rest = ""%string ∨ ∃ r, rest = "/" +:+ r).

Lemma split_after_segment e rest :
  ("/"%char : ascii) ∉ chars e → (rest = ""%string ∨ ∃ r, rest = "/" +:+ r) →
  ∃ segs, segments (e +:+ rest) = e :: segs.
Proof.
  intros He [->|[r ->]]; unfold segments, split; rewrite chars_app.
  - rewrite app_nil_r, split_chars_free_id by done. exists []. cbn. by rewrite of_chars_chars.
  - change (chars ("/" +:+ r)) with (("/"%char : ascii) :: chars r). rewrite split_chars_app by done.
    cbn. rewrite of_chars_chars. by eexists.
Qed.

Lemma forward_target_segments path ref id target :
  matched path ref → forward_target path ref id = Some target →
  ∃ rest, segments target = ""%string :: "v1"%string :: "sandboxes"%string :: PathEscape id :: rest ∧
    Forall plain_segment (PathEscape id :: rest).
Proof.
  intros (rest & -> & Hrest). unfold forward_target.
  rewrite (proj2 (cut_prefix_some _ ("/v1/sandboxes/" +:+ ref) rest)) by (apply (inj chars); by rewrite !chars_app, app_assoc).
  cbn [mbind option_bind]. destruct (String.eqb_spec (clean_rooted ("/v1/sandboxes/" +:+ PathEscape id +:+ rest))
    ("/v1/sandboxes/" +:+ PathEscape id +:+ rest)) as [Hc|]; [|done]. intros [= <-].
  destruct (clean_segments _ Hc) as (segs & Es & Hp); [done|].
  destruct (split_after_segment (PathEscape id) rest (PathEscape_free id) Hrest) as [tail Et].
  assert (segments ("/v1/sandboxes/" +:+ PathEscape id +:+ rest) =
    ""%string :: "v1"%string :: "sandboxes"%string :: segments (PathEscape id +:+ rest)) as Hs by reflexivity.
  exists tail. rewrite Es in Hs. rewrite Et in Hs. injection Hs as ->.
  split; [by rewrite Es|]. by do 2 (apply Forall_cons in Hp as [_ Hp]).
Qed.

(** The tenant a key may act in: its own, or an organization's its user is a
    member of; one made in an organization acts only there. *)
Inductive acts_in `{Unicode} {S : Type} `{Store S} (s : S) (k : Key) : string → Prop :=
| acts_home : (k_Bound k = true → equal_fold (k_Tenant k) (k_Org k) = true ∨
                                  k_Tenant k = DefaultOrg ∧ equal_fold "" (k_Org k) = true) →
    acts_in s k (k_Tenant k)
| acts_member t role : MemberRole s t (k_User k) (k_Tenant k) = Ok (Some role) →
    (k_Bound k = true → equal_fold t (k_Org k) = true) →
    acts_in s k (if String.eqb t "" then t else to_lower t).

Section forwarded.
Context `{Unicode} {S : Type} `{Store S}.
Implicit Types (g : gateway S) (p : Principal).

Lemma authenticate_ok s now auth p :
  authenticate s now auth = Ok (Some p) →
  ∃ secret k, auth = "Bearer " +:+ secret ∧ KeyBySecret s now secret = Ok (Some k) ∧ p = principal_of k.
Proof.
  unfold authenticate. destruct (cut_prefix auth "Bearer ") as [secret|] eqn:E; [|done].
  apply cut_prefix_some in E as ->. destruct (String.eqb secret ""); [done|].
  destruct (KeyBySecret s now secret) as [[k|]|] eqn:Ek; try done. intros [= <-]. by exists secret, k.
Qed.

Lemma selectOrg_ok s vals k p :
  selectOrg s vals (principal_of k) = Ok p → p = in_tenant (p_Tenant p) (principal_of k) ∧ acts_in s k (p_Tenant p).
Proof.
  unfold selectOrg. rewrite guard_ok. intros [_ Hp]. revert Hp.
  set (asked := match vals with [v] => trim_space v | _ => ""%string end). cbv zeta.
  set (name := if p_Bound (principal_of k) && String.eqb asked "" then _ else asked). rewrite guard_ok. intros [Hb Hp].
  assert (k_Bound k = true → equal_fold (tenantOfOrg name) (k_Org k) = true) as Hbound.
  { intros Ek. cbn in Hb. rewrite Ek in Hb. by apply negb_false_iff in Hb. }
  destruct (String.eqb_spec name "") as [En|En].
  - injection Hp as <-. split; [done|]. apply acts_home. intros Ek. exfalso. subst name. cbn [principal_of p_Bound] in En.
    rewrite Ek in En. cbn in En. destruct (String.eqb_spec asked ""); [|done]. unfold wireOrg, DefaultOrg in En. cbn in En.
    destruct (String.eqb_spec (k_Org k) ""); congruence.
  - destruct (_ || _) eqn:Eo in Hp.
    + injection Hp as <-. split; [done|]. apply acts_home. cbn in Eo |- *. intros Ek. specialize (Hbound Ek).
      apply orb_true_iff in Eo as [E|E]; apply String.eqb_eq in E; [left; by rewrite <- E|].
      unfold tenantOfOrg in Hbound. rewrite E in Hbound. destruct (String.eqb_spec (k_Tenant k) DefaultOrg); [by right|by left].
    + destruct (MemberRole s (tenantOfOrg name) _ _) as [[role|]|] eqn:Em; try done. injection Hp as <-.
      split; [done|]. by eapply acts_member.
Qed.

Lemma routes_write rt : rt ∈ routes → rt_method rt = "GET"%string ∨ rt_scope rt ∈ [ScopeCreate; ScopeDelete].
Proof.
  assert (Forall (λ rt, rt_method rt = "GET"%string ∨ rt_scope rt ∈ [ScopeCreate; ScopeDelete]) routes) as Hall
    by (apply (bool_decide_unpack _); vm_compute; exact I).
  rewrite Forall_forall in Hall. apply Hall.
Qed.

End forwarded.
