(* ===== verification/Sessions.v ===== *)
(** * Logins and open connections (internal/gateway: ssh_auth.go, ssh.go
    RecheckAccess, live.go)

    An SSH login is a token as the username, or a registered key and a
    reference; a forwarded request and a connection stay open only as long as
    what let them in. Parsing a key and its fingerprint are x/crypto's, and
    parameters here. *)
From S2P Require Import Prelude GoSort GoStrings Api Spec Access.

(** ** Whether a user still may *)
Section active.
Context `{Unicode} {S : Type} `{Store S}.

Definition keyActsIn (s : S) (k : Key) (tenant : string) : sres bool :=
  if k_Bound k && negb (equal_fold (k_Org k) tenant) then Ok false
  else if String.eqb (k_Tenant k) tenant then Ok true
  else match MemberRole s tenant (k_User k) (k_Tenant k) with
       | Ok r => Ok (bool_decide (is_Some r))
       | Err e => Err e
       end.

(** The first key that counts and acts in the tenant, or the first failure. *)
Fixpoint any_acts (counts : Key → bool) (s : S) (tenant : string) (ks : list Key) : sres bool :=
  match ks with
  | [] => Ok false
  | k :: ks =>
      if negb (counts k) then any_acts counts s tenant ks
      else match keyActsIn s k tenant with
           | Err e => Err e
           | Ok true => Ok true
           | Ok false => any_acts counts s tenant ks
           end
  end.

Definition userActive (s : S) (now : Z) (user tenant : string) : sres bool :=
  ks ← KeysOfUser s user; any_acts (Active now) s tenant ks.

Definition may_ssh (now : Z) (k : Key) : bool := Active now k && Can (principal_of k) ScopeSSH.
Definition userMaySSH (s : S) (now : Z) (user tenant : string) : sres bool :=
  ks ← KeysOfUser s user; any_acts (may_ssh now) s tenant ks.
End active.

(** *** Answered for a while from memory *)
Definition activeFor : Z := 5 * second.
Abbreviation activeCache := (gmap (string * string) (bool * Z)).

Definition userActiveCached `{Unicode} {S : Type} `{Store S} (s : S) (now later : Z) (user tenant : string) (c : activeCache) :
    sres bool * activeCache :=
  let ask := match userActive s now user tenant with
             | Ok ok => (Ok ok, <[(user, tenant) := (ok, now)]> c)
             | Err e => (Err e, c)
             end in
  match c !! (user, tenant) with
  | Some (ok, at_) => if time_sub now at_ <? activeFor then (Ok ok, c) else ask
  | None => ask
  end.

(** ** SSH logins *)
Definition TokenPrefix : string := "sgt_".
Definition maxUsername : Z := 256.
Definition sshScopes : list string := [ScopeSSH; ScopeRead].

Record login := {
  lg_principal : Principal;
  lg_id : string;
  lg_owner : Owner;
  lg_keyID : string
}.

Inductive login_error := TokenRefused | KeyRequired | Ambiguous | Refusal (e : route_error).

Section ssh.
Context `{Unicode} {S : Type} `{Store S}.
(** [ssh.ParseAuthorizedKey], marshalled; [ssh.FingerprintSHA256]. *)
Context (parse_authorized : string → option string) (fingerprint : string → string).
Implicit Types (g : gateway S) (p : Principal).

Definition ssh_resolve g p now answers (ref : string) : result route_error (string * Owner) :=
  '(id, o) ← resolve g p now answers ref ScopeSSH;
  if String.eqb id "" then Err NodeFailed else Ok (id, o).

Definition token_principal (t : SSHToken) : Principal := {|
  p_User := tk_User t; p_Tenant := tk_Tenant t; p_KeyTenant := ""; p_KeyID := "ssh-token"; p_Scopes := sshScopes;
  p_Sandbox := tk_Sandbox t; p_Bound := false; p_BoundOrg := "" |}.

Definition authToken g now answers (user : string) : result login_error login :=
  if negb (has_prefix user TokenPrefix) || (maxUsername <? strlen user) then Err KeyRequired
  else match RedeemSSHToken (gw_store g) now user with
  | Err _ => Err TokenRefused
  | Ok None => Err TokenRefused
  | Ok (Some tok) =>
      if String.eqb (tk_Sandbox tok) "" || String.eqb (tk_User tok) "" || (tk_Expires tok =? zero_time) ||
         negb (now <? tk_Expires tok) then Err TokenRefused
      else match userMaySSH (gw_store g) now (tk_User tok) (tk_Tenant tok) with
      | Ok true =>
          let p := token_principal tok in
          match ssh_resolve g p now answers (tk_Sandbox tok) with
          | Ok (id, o) =>
              if String.eqb id (tk_Sandbox tok)
              then Ok {| lg_principal := p; lg_id := id; lg_owner := o; lg_keyID := "" |}
              else Err (Refusal ErrNotFound)
          | Err e => Err (Refusal e)
          end
      | _ => Err (Refusal ErrNotFound)
      end
  end.

Definition by_id (a b : SSHKey) : bool := str_ltb (sk_ID a) (sk_ID b).

Definition keyCandidates g (user key : string) : list SSHKey :=
  if has_prefix user TokenPrefix || String.eqb user "" || (maxUsername <? strlen user) then []
  else match SSHKeysByFingerprint (gw_store g) (fingerprint key) with
  | Err _ => []
  | Ok keys =>
      sort_stable by_id
        (List.filter (λ k, negb (String.eqb (sk_User k) "") && bool_decide (parse_authorized (sk_AuthorizedKey k) = Some key)) keys)
  end.

Definition key_principal (k : SSHKey) : Principal := {|
  p_User := sk_User k; p_Tenant := sk_Tenant k; p_KeyTenant := sk_Tenant k; p_KeyID := sk_ID k; p_Scopes := sshScopes;
  p_Sandbox := sk_Sandbox k; p_Bound := false; p_BoundOrg := "" |}.

Definition orgPrincipal g now p (ref : string) : option Principal :=
  if negb (ValidID ref) then None
  else match OwnerOf (gw_store g) ref with
  | Ok (Some o) =>
      if negb (String.eqb (ow_User o) (p_User p)) || String.eqb (ow_Tenant o) (p_KeyTenant p) then None
      else match MemberRole (gw_store g) (ow_Tenant o) (p_User p) (p_KeyTenant p) with
      | Ok (Some _) =>
          match userMaySSH (gw_store g) now (p_User p) (ow_Tenant o) with
          | Ok true => Some (in_tenant (ow_Tenant o) p)
          | _ => None
          end
      | _ => None
      end
  | _ => None
  end.

(** One candidate key: the sandbox it logs in to, as whom. *)
Definition try_key g now answers (ref : string) (k : SSHKey) : result route_error login :=
  let p := key_principal k in
  let '(p, r) := match ssh_resolve g p now answers ref with
                 | Err ErrNotFound =>
                     match orgPrincipal g now p ref with
                     | Some op => (op, ssh_resolve g op now answers ref)
                     | None => (p, Err ErrNotFound)
                     end
                 | r => (p, r)
                 end in
  '(id, o) ← r;
  reject_if (negb (String.eqb (sk_Sandbox k) "") && negb (String.eqb id (sk_Sandbox k))) ErrNotFound;;
  Ok {| lg_principal := p; lg_id := id; lg_owner := o; lg_keyID := sk_ID k |}.

Fixpoint try_keys g now answers (ref : string) (found : option login) (lastErr : route_error) (ks : list SSHKey) :
    result login_error login :=
  match ks with
  | [] => match found with Some l => Ok l | None => Err (Refusal lastErr) end
  | k :: ks =>
      match userMaySSH (gw_store g) now (sk_User k) (sk_Tenant k) with
      | Ok true =>
          match try_key g now answers ref k with
          | Err e => try_keys g now answers ref found (match lastErr with ErrNodeDown => lastErr | _ => e end) ks
          | Ok l =>
              match found with
              | Some f => if String.eqb (lg_id f) (lg_id l) then try_keys g now answers ref found lastErr ks
                          else Err Ambiguous
              | None => try_keys g now answers ref (Some l) lastErr ks
              end
          end
      | _ => try_keys g now answers ref found lastErr ks
      end
  end.

Definition authKey g now answers (ref key : string) : result login_error login :=
  try_keys g now answers ref None ErrNotFound (keyCandidates g ref key).
End ssh.

(** ** Open connections *)

(** A forwarded request while it is open. *)
Record liveReq := { lr_p : Principal; lr_scope : string; lr_id : string; lr_ended : bool }.

Definition keys_by_id (ks : list Key) : gmap string Key := foldl (λ m k, <[k_ID k := k]> m) ∅ ks.

Section live.
Context `{Unicode} {S : Type} `{Store S}.

(** A check that failed keeps the request. *)
Definition inTenant (s : S) (p : Principal) (k : Key) : bool :=
  match stillInTenant s p k with Ok b => b | Err _ => true end.

Definition liveLostAccess (s : S) (now : Z) (lr : liveReq) (keys : gmap string Key) : bool :=
  match keys !! p_KeyID (lr_p lr) with
  | None => true
  | Some k =>
      k_Revoked k || negb (Active now k) ||
      negb (String.eqb (k_User k) (p_User (lr_p lr)) && String.eqb (k_Tenant k) (p_KeyTenant (lr_p lr))) ||
      (negb (String.eqb (lr_scope lr) "") && negb (Can (principal_of k) (lr_scope lr))) ||
      negb (inTenant s (lr_p lr) k)
  end.

Definition endLive (lr : liveReq) : liveReq :=
  {| lr_p := lr_p lr; lr_scope := lr_scope lr; lr_id := lr_id lr; lr_ended := true |}.

Definition recheckLive (s : S) (now : Z) (open : list liveReq) : list liveReq :=
  match open with
  | [] => []
  | _ =>
      match Keys s with
      | Err _ => open
      | Ok all => (λ lr, if liveLostAccess s now lr (keys_by_id all) then endLive lr else lr) <$> open
      end
  end.

(** An SSH connection: what it logged in with. *)
Definition lostAccess (ssh_keys : string → sres (list SSHKey)) (s : S) (now : Z) (l : login) : bool :=
  match userMaySSH s now (p_User (lg_principal l)) (p_Tenant (lg_principal l)) with
  | Err _ => false
  | Ok false => true
  | Ok true =>
      if String.eqb (lg_keyID l) "" then false
      else match ssh_keys (p_User (lg_principal l)) with
      | Err _ => false
      | Ok keys =>
          negb (existsb (λ k, String.eqb (sk_ID k) (lg_keyID l) && String.eqb (sk_Tenant k) (p_KeyTenant (lg_principal l))) keys)
      end
  end.

Definition RecheckAccess (ssh_keys : string → sres (list SSHKey)) (s : S) (now : Z) (live : list login) : list login :=
  List.filter (λ l, negb (lostAccess ssh_keys s now l)) live.
End live.

(** ** Logins are sound *)
Section sound.
Context `{Unicode} {S : Type} `{Store S}.
Implicit Types (g : gateway S) (p : Principal).

Lemma any_acts_true counts (s : S) tenant ks :
  any_acts counts s tenant ks = Ok true → ∃ k, k ∈ ks ∧ counts k = true ∧ keyActsIn s k tenant = Ok true.
Proof.
  induction ks as [|k ks IH]; cbn; [done|]. destruct (counts k) eqn:Ec; cbn.
  2: { intros (x & ? & ? & ?)%IH. exists x. split_and!; [set_solver|done..]. }
  destruct (keyActsIn s k tenant) as [[]|] eqn:Ek; [|intros (x & ? & ? & ?)%IH|done].
  - intros _. exists k. split_and!; [set_solver|done..].
  - exists x. split_and!; [set_solver|done..].
Qed.

(** A key of the user's that grants SSH in the tenant. *)
Definition ssh_granted (s : S) (now : Z) (user tenant : string) : Prop :=
  ∃ ks k, KeysOfUser s user = Ok ks ∧ k ∈ ks ∧ Active now k = true ∧
    (ScopeAdmin ∈ k_Scopes k ∨ ScopeSSH ∈ k_Scopes k) ∧ keyActsIn s k tenant = Ok true.

Lemma userMaySSH_true (s : S) now user tenant : userMaySSH s now user tenant = Ok true → ssh_granted s now user tenant.
Proof.
  unfold userMaySSH. intros (ks & Hks & (k & Hk & Hc & Ha)%any_acts_true)%bind_ok. exists ks, k.
  unfold may_ssh in Hc. apply andb_prop in Hc as [Hc Hs]. rewrite Can_spec in Hs. done.
Qed.

Lemma ssh_resolve_ok g p now answers ref id o :
  mayEnd p ScopeSSH = false → ssh_resolve g p now answers ref = Ok (id, o) →
  ownerOf g p now id = Ok (Some o) ∧ ow_User o = p_User p ∧ ow_Tenant o = p_Tenant p ∧ id ≠ ""%string ∧
  (p_Sandbox p = ""%string ∨ p_Sandbox p = id) ∧ is_healthy g (ow_Node o) = true.
Proof.
  intros Hend. unfold ssh_resolve. intros ([id' o'] & Hr & Hif)%bind_ok.
  destruct (String.eqb_spec id' ""); [done|]. injection Hif as -> ->.
  apply resolve_sound in Hr as (_ & _ & Ho & [Hm|[E _]] & Hsb & Hh); [|congruence].
  apply mayAct_spec in Hm as (_ & H1 & H2). done.
Qed.

(** What a login that got in may be. *)
Record login_ok g (now : Z) (l : login) : Prop := {
  lo_owner : ownerOf g (lg_principal l) now (lg_id l) = Ok (Some (lg_owner l));
  lo_user : ow_User (lg_owner l) = p_User (lg_principal l);
  lo_tenant : ow_Tenant (lg_owner l) = p_Tenant (lg_principal l);
  lo_node : is_healthy g (ow_Node (lg_owner l)) = true;
  lo_limit : p_Sandbox (lg_principal l) = ""%string ∨ p_Sandbox (lg_principal l) = lg_id l;
  lo_scopes : p_Scopes (lg_principal l) = sshScopes;
  lo_granted : ssh_granted (gw_store g) now (p_User (lg_principal l)) (p_Tenant (lg_principal l))
}.

Lemma orgPrincipal_ok g now p ref op :
  orgPrincipal g now p ref = Some op →
  op = in_tenant (p_Tenant op) p ∧ ssh_granted (gw_store g) now (p_User p) (p_Tenant op).
Proof.
  unfold orgPrincipal. destruct (negb _); [done|]. destruct (OwnerOf _ _) as [[o|]|]; try done.
  destruct (_ || _); [done|]. destruct (MemberRole _ _ _ _) as [[r|]|]; try done.
  destruct (userMaySSH _ _ _ _) as [[]|] eqn:E; try done. intros [= <-]. split; [done|]. by apply userMaySSH_true.
Qed.

Lemma try_key_ok g now answers ref k l :
  userMaySSH (gw_store g) now (sk_User k) (sk_Tenant k) = Ok true → try_key g now answers ref k = Ok l →
  login_ok g now l ∧ lg_keyID l = sk_ID k ∧ p_User (lg_principal l) = sk_User k ∧ p_Sandbox (lg_principal l) = sk_Sandbox k.
Proof.
  intros Hmay%userMaySSH_true. unfold try_key. intros Ht.
  assert (∃ p id o, ssh_resolve g p now answers ref = Ok (id, o) ∧ p = in_tenant (p_Tenant p) (key_principal k) ∧
    ssh_granted (gw_store g) now (sk_User k) (p_Tenant p) ∧
    l = {| lg_principal := p; lg_id := id; lg_owner := o; lg_keyID := sk_ID k |}) as (p & id & o & Hr & Hp & Hg & ->).
  { destruct (ssh_resolve g (key_principal k) now answers ref) as [[id o]|e] eqn:Er.
    - cbn in Ht. apply guard_ok in Ht as [_ [= <-]]. by exists (key_principal k), id, o.
    - destruct e; try done. destruct (orgPrincipal g now (key_principal k) ref) as [op|] eqn:Eo; [|done].
      apply orgPrincipal_ok in Eo as [Eop Hg]. apply bind_ok in Ht as ([id o] & Hr & Ht).
      apply guard_ok in Ht as [_ [= <-]]. by exists op, id, o. }
  apply ssh_resolve_ok in Hr as (H1 & H2 & H3 & H4 & H5 & H6); [|by rewrite Hp].
  split; [|by rewrite Hp]. split; cbn; try done; by rewrite Hp.
Qed.

Lemma try_keys_ok g now answers ref ks : ∀ found e l,
  try_keys g now answers ref found e ks = Ok l →
  (found = Some l ∨ found = None ∧ ∃ k, k ∈ ks ∧ userMaySSH (gw_store g) now (sk_User k) (sk_Tenant k) = Ok true ∧
    try_key g now answers ref k = Ok l) ∧
  (∀ k l', k ∈ ks → userMaySSH (gw_store g) now (sk_User k) (sk_Tenant k) = Ok true →
    try_key g now answers ref k = Ok l' → lg_id l' = lg_id l).
Proof.
  induction ks as [|k ks IH]; intros found e l; cbn.
  { destruct found; [|done]. intros [= ->]. split; [by left|set_solver]. }
  assert (∀ e', try_keys g now answers ref found e' ks = Ok l →
    (∀ l', userMaySSH (gw_store g) now (sk_User k) (sk_Tenant k) = Ok true → try_key g now answers ref k = Ok l' → lg_id l' = lg_id l) →
    (found = Some l ∨ found = None ∧ ∃ x, x ∈ k :: ks ∧ userMaySSH (gw_store g) now (sk_User x) (sk_Tenant x) = Ok true ∧
      try_key g now answers ref x = Ok l) ∧
    (∀ x l', x ∈ k :: ks → userMaySSH (gw_store g) now (sk_User x) (sk_Tenant x) = Ok true →
      try_key g now answers ref x = Ok l' → lg_id l' = lg_id l)) as Hskip.
  { intros e' [H1 H2]%IH Hk. split.
    - destruct H1 as [?|(? & x & ? & ? & ?)]; [by left|right]. split; [done|]. exists x. split_and!; [set_solver|done..].
    - intros x l' [->|Hx]%elem_of_cons; [apply Hk|by apply H2]. }
  destruct (userMaySSH (gw_store g) now (sk_User k) (sk_Tenant k)) as [[]|] eqn:Em.
  2,3: intros Ht; eapply Hskip; [exact Ht|done].
  destruct (try_key g now answers ref k) as [lk|ek] eqn:Et.
  2: intros Ht; eapply Hskip; [exact Ht|done].
  destruct found as [f|].
  - destruct (String.eqb_spec (lg_id f) (lg_id lk)) as [E|]; [|done]. intros Ht. eapply Hskip; [exact Ht|].
    intros l' _ [= <-]. apply IH in Ht as [[[= ->]|[? _]] _]; [by rewrite <- E|done].
  - intros [H1 H2]%IH. destruct H1 as [[= ->]|[? _]]; [|done]. split.
    + right. split; [done|]. exists k. split_and!; [set_solver|done..].
    + intros x l' [->|Hx]%elem_of_cons Hu Hl; [congruence|by eapply H2].
Qed.

Lemma authToken_ok g now answers user l :
  authToken g now answers user = Ok l →
  login_ok g now l ∧ ∃ tok, RedeemSSHToken (gw_store g) now user = Ok (Some tok) ∧ now < tk_Expires tok ∧
    lg_id l = tk_Sandbox tok ∧ p_User (lg_principal l) = tk_User tok ∧ lg_keyID l = ""%string.
Proof.
  unfold authToken. destruct (_ || _); [done|]. destruct (RedeemSSHToken _ _ _) as [[tok|]|] eqn:Er; try done.
  destruct (_ || _) eqn:Ec; [done|]. rewrite !orb_false_iff in Ec. destruct Ec as [_ Hexp%negb_false_iff].
  destruct (userMaySSH _ _ _ _) as [[]|] eqn:Em; try done.
  destruct (ssh_resolve _ _ _ _ _) as [[id o]|] eqn:Es; [|done].
  destruct (String.eqb_spec id (tk_Sandbox tok)) as [->|]; [|done]. intros [= <-].
  apply ssh_resolve_ok in Es as (H1 & H2 & H3 & H4 & H5 & H6); [|done]. apply userMaySSH_true in Em.
  split; [split; done|]. exists tok. split_and!; try done. lia.
Qed.
End sound.

(** C35. Nobody logs in to a sandbox that is not theirs. A login that succeeds,
    with a token as its username or with a key the client proved it holds, is
    to a sandbox recorded as its user's in the tenant it logged in as, on a
    node that is up, while the user holds an active API key granting SSH that
    acts in that tenant; a token names that sandbox and has not expired; a
    registered key is exactly the one offered, and one limited to a sandbox
    reaches no other; and no other key that matched and may log in leads to
    another sandbox. *)
Theorem ssh_login_sound `{Unicode} {S : Type} `{Store S} parse_authorized fingerprint (g : gateway S) now answers username offered l
    (Hlogin : match offered with
              | None => authToken g now answers username
              | Some key => authKey parse_authorized fingerprint g now answers username key
              end = Ok l) :
  login_ok g now l ∧
  match offered with
  | None => ∃ tok, RedeemSSHToken (gw_store g) now username = Ok (Some tok) ∧ now < tk_Expires tok ∧
      lg_id l = tk_Sandbox tok ∧ p_User (lg_principal l) = tk_User tok
  | Some key => ∃ k ks, SSHKeysByFingerprint (gw_store g) (fingerprint key) = Ok ks ∧ k ∈ ks ∧ sk_ID k = lg_keyID l ∧
      parse_authorized (sk_AuthorizedKey k) = Some key ∧ sk_User k = p_User (lg_principal l) ∧
      (sk_Sandbox k = ""%string ∨ sk_Sandbox k = lg_id l) ∧
      ∀ k' l', k' ∈ keyCandidates parse_authorized fingerprint g username key →
        userMaySSH (gw_store g) now (sk_User k') (sk_Tenant k') = Ok true →
        try_key g now answers username k' = Ok l' → lg_id l' = lg_id l
  end.
Proof.
  destruct offered as [key|].
  - unfold authKey in Hlogin. apply try_keys_ok in Hlogin as [[?|(_ & k & Hk & Hm & Ht)] Hall]; [done|].
    apply try_key_ok in Ht as (Hok & Hid & Hu & Hsb); [|done]. split; [done|].
    pose proof Hk as Hk'. unfold keyCandidates in Hk. destruct (_ || _) in Hk; [by apply not_elem_of_nil in Hk|].
    destruct (SSHKeysByFingerprint _ _) as [ks|]; [|by apply not_elem_of_nil in Hk].
    apply elem_of_sort_stable, elem_of_bfilter in Hk as [Hk Hp]. apply andb_prop in Hp as [_ Hp%bool_decide_eq_true].
    exists k, ks. split_and!; try done. rewrite <- Hsb. apply (lo_limit _ _ _ Hok).
  - apply authToken_ok in Hlogin as (Hok & tok & H1 & H2 & H3 & H4 & _). split; [done|]. by exists tok.
Qed.

(** ** What stays open *)
Section open.
Context `{Unicode} {S : Type} `{Store S}.

Lemma keys_by_id_lookup ks : ∀ (m : gmap string Key) id k,
  foldl (λ m k, <[k_ID k := k]> m) m ks !! id = Some k → k ∈ ks ∧ k_ID k = id ∨ m !! id = Some k.
Proof.
  induction ks as [|x ks IH]; intros m id k; cbn; [by right|]. intros [[? ?]|Hm]%IH; [left; split; [set_solver|done]|].
  destruct (decide (k_ID x = id)) as [<-|Hne].
  - rewrite lookup_insert_eq in Hm. injection Hm as ->. left. split; [set_solver|done].
  - rewrite lookup_insert_ne in Hm by done. by right.
Qed.

(** What a request that stays open holds. *)
Definition still_allowed (s : S) (now : Z) (all : list Key) (lr : liveReq) : Prop :=
  ∃ k, k ∈ all ∧ k_ID k = p_KeyID (lr_p lr) ∧ Active now k = true ∧
    k_User k = p_User (lr_p lr) ∧ k_Tenant k = p_KeyTenant (lr_p lr) ∧
    (lr_scope lr = ""%string ∨ ScopeAdmin ∈ k_Scopes k ∨ lr_scope lr ∈ k_Scopes k) ∧
    (stillInTenant s (lr_p lr) k = Ok true ∨ ∃ e, stillInTenant s (lr_p lr) k = Err e).

Lemma liveLostAccess_false s now all lr :
  liveLostAccess s now lr (keys_by_id all) = false → still_allowed s now all lr.
Proof.
  unfold liveLostAccess. destruct (keys_by_id all !! _) as [k|] eqn:Ek; [|done].
  apply keys_by_id_lookup in Ek as [[Hin Hid]|E]; [|by rewrite lookup_empty in E].
  rewrite !orb_false_iff, !negb_false_iff. intros ((((_ & Ha) & (Hu & Ht)%andb_prop) & Hs) & Hin').
  apply String.eqb_eq in Hu, Ht. exists k. split_and!; try done.
  - apply andb_false_iff in Hs as [E%negb_false_iff|E%negb_false_iff]; [left; by apply String.eqb_eq|right].
    by apply Can_spec in E.
  - unfold inTenant in Hin'. destruct (stillInTenant s (lr_p lr) k) as [[]|e]; [by left|done|right; by exists e].
Qed.

Lemma lostAccess_false ssh_keys s now l :
  lostAccess ssh_keys s now l = false → (∀ user, is_ok (KeysOfUser s user) = true) →
  (∀ org user t, is_ok (MemberRole s org user t) = true) →
  ssh_granted s now (p_User (lg_principal l)) (p_Tenant (lg_principal l)) ∧
  (lg_keyID l = ""%string ∨ match ssh_keys (p_User (lg_principal l)) with
     | Ok keys => ∃ k, k ∈ keys ∧ sk_ID k = lg_keyID l ∧ sk_Tenant k = p_KeyTenant (lg_principal l)
     | Err _ => True
     end).
Proof.
  intros Hl Hks Hmr. unfold lostAccess in Hl. destruct (userMaySSH s now _ _) as [[]|e] eqn:Em; [| |exfalso].
  - apply userMaySSH_true in Em. split; [done|]. destruct (String.eqb_spec (lg_keyID l) "") as [->|]; [by left|right].
    destruct (ssh_keys _) as [keys|]; [|done]. apply negb_false_iff, existsb_exists in Hl as (k & Hk & [E1 E2]%andb_prop).
    exists k. apply String.eqb_eq in E1, E2. split_and!; try done. by apply list_elem_of_In.
  - done.
  - clear Hl. unfold userMaySSH in Em. destruct (KeysOfUser s _) as [ks|] eqn:Ek; [|specialize (Hks (p_User (lg_principal l))); by rewrite Ek in Hks].
    cbn in Em. clear Ek. induction ks as [|k ks IH]; cbn in Em; [done|]. destruct (may_ssh now k); cbn in Em; [|by apply IH].
    destruct (keyActsIn s k _) as [[]|] eqn:E; [done|by apply IH|]. unfold keyActsIn in E.
    destruct (_ && _); [done|]. destruct (String.eqb _ _); [done|].
    destruct (MemberRole s _ (k_User k) (k_Tenant k)) eqn:Er; [done|]. specialize (Hmr (p_Tenant (lg_principal l)) (k_User k) (k_Tenant k)).
    by rewrite Er in Hmr.
Qed.

(** A recheck ends what is no longer allowed and nothing else: once the
    store has answered, every forwarded request still open is its key's, and
    that key is active, its user's, with the scope the request was let in for,
    and may act in its tenant; every SSH connection left is of a user with an
    active key granting SSH there, and of a registered key still registered;
    one ended before stays ended, and one still allowed is not touched. A
    store that does not answer ends nothing. *)
Theorem recheck_ends_lost_access ssh_keys (s : S) now open live :
  (∀ all, Keys s = Ok all → ∀ lr, lr ∈ recheckLive s now open → lr_ended lr = false → lr ∈ open ∧ still_allowed s now all lr) ∧
  (∀ all lr, Keys s = Ok all → lr ∈ open →
    lr_ended lr = true ∨ liveLostAccess s now lr (keys_by_id all) = false → ∃ lr', lr' ∈ recheckLive s now open ∧
      lr_p lr' = lr_p lr ∧ lr_id lr' = lr_id lr ∧ lr_ended lr' = lr_ended lr) ∧
  (∀ e, Keys s = Err e → recheckLive s now open = open) ∧
  ((∀ user, is_ok (KeysOfUser s user) = true) → (∀ org user t, is_ok (MemberRole s org user t) = true) →
   ∀ l, l ∈ RecheckAccess ssh_keys s now live → l ∈ live ∧
     ssh_granted s now (p_User (lg_principal l)) (p_Tenant (lg_principal l)) ∧
     (lg_keyID l = ""%string ∨ match ssh_keys (p_User (lg_principal l)) with
        | Ok keys => ∃ k, k ∈ keys ∧ sk_ID k = lg_keyID l ∧ sk_Tenant k = p_KeyTenant (lg_principal l)
        | Err _ => True
        end)).
Proof.
  unfold recheckLive. split_and!.
  - intros all Hall lr Hlr Hend. rewrite Hall in Hlr. destruct open as [|x open]; [by apply not_elem_of_nil in Hlr|].
    apply list_elem_of_fmap in Hlr as (y & -> & Hy). destruct (liveLostAccess s now y (keys_by_id all)) eqn:E; [done|].
    split; [done|]. by apply liveLostAccess_false.
  - intros all lr Hall Hlr Hok. rewrite Hall. destruct open as [|x open]; [by apply not_elem_of_nil in Hlr|].
    exists (if liveLostAccess s now lr (keys_by_id all) then endLive lr else lr).
    split; [apply list_elem_of_fmap; by exists lr|]. destruct (liveLostAccess s now lr (keys_by_id all)); [|done].
    destruct Hok as [->|?]; done.
  - intros e ->. by destruct open.
  - intros Hks Hmr l Hl. apply elem_of_bfilter in Hl as [Hl Hlost%negb_true_iff]. split; [done|]. by apply lostAccess_false.
Qed.
End open.
