(* ===== verification/Identity.v ===== *)
(** * Users, keys, accounts and organizations (internal/gateway: sql_ids.go,
    sql_keys.go, sql_orgs.go, keys_suspend.go, keys_personal.go)

    The tables and the transactions on them, each statement as what it does to
    the rows. An organization's id is written as its key and a user's as their
    home organization's key and their name, which the schema keeps unique and
    nothing changes. What is random of ids and secrets are arguments; a primary key or a
    hash that is taken fails the transaction. *)
From S2P Require Import Prelude GoSort GoStrings Api Spec ServiceSpec Access.

(** ** Tables *)
Inductive org_kind := orgDefault | orgPersonal | orgTeam.
#[export] Instance org_kind_eq_dec : EqDecision org_kind.
Proof. solve_decision. Defined.

(** The key of the home organization, and the name. *)
Abbreviation uid := (string * string)%type.

Record org := { og_name : string; og_kind : org_kind; og_created : Z; og_by : option uid }.
Record user := { us_Email : option string; us_Password : option string; us_LastLogin : option Z }.
Record member := { mb_Role : string; mb_Added : Z }.
Record krow := {
  kr_Hash : string;
  kr_User : uid;
  kr_Scopes : list string;
  kr_Created : Z;
  kr_Revoked : bool;
  kr_Expires : option Z;
  kr_Account : bool;
  kr_Parent : option string;
  kr_Restore : option Z;
  kr_Personal : bool;
  kr_Name : string;
  kr_Org : option string
}.
Record inviteRecord := {
  iv_Hash : string;
  iv_Email : string;
  iv_User : string;
  iv_Tenant : string;
  iv_Scopes : list string;
  iv_Policy : string;
  iv_ExpiresInSecs : Z;
  iv_Key : option string;
  iv_Created : Z;
  iv_Expires : Z
}.

(** [db_work]: the organizations some sandbox, volume, snapshot, secret, job,
    service, registry login or SSH token is recorded in. *)
Record db := {
  db_orgs : gmap string org;
  db_users : gmap uid user;
  db_members : gmap (string * uid) member;
  db_keys : gmap string krow;
  db_invites : gmap string inviteRecord;
  db_policies : gmap string Z;
  db_user_policies : gmap uid string;
  db_work : gset string
}.

Definition on_orgs (f : gmap string org → gmap string org) (d : db) : db := {|
  db_orgs := f (db_orgs d); db_users := db_users d; db_members := db_members d; db_keys := db_keys d;
  db_invites := db_invites d; db_policies := db_policies d; db_user_policies := db_user_policies d; db_work := db_work d |}.
Definition on_users (f : gmap uid user → gmap uid user) (d : db) : db := {|
  db_orgs := db_orgs d; db_users := f (db_users d); db_members := db_members d; db_keys := db_keys d;
  db_invites := db_invites d; db_policies := db_policies d; db_user_policies := db_user_policies d; db_work := db_work d |}.
Definition on_members (f : gmap (string * uid) member → gmap (string * uid) member) (d : db) : db := {|
  db_orgs := db_orgs d; db_users := db_users d; db_members := f (db_members d); db_keys := db_keys d;
  db_invites := db_invites d; db_policies := db_policies d; db_user_policies := db_user_policies d; db_work := db_work d |}.
Definition on_keys (f : gmap string krow → gmap string krow) (d : db) : db := {|
  db_orgs := db_orgs d; db_users := db_users d; db_members := db_members d; db_keys := f (db_keys d);
  db_invites := db_invites d; db_policies := db_policies d; db_user_policies := db_user_policies d; db_work := db_work d |}.
Definition on_invites (f : gmap string inviteRecord → gmap string inviteRecord) (d : db) : db := {|
  db_orgs := db_orgs d; db_users := db_users d; db_members := db_members d; db_keys := db_keys d;
  db_invites := f (db_invites d); db_policies := db_policies d; db_user_policies := db_user_policies d; db_work := db_work d |}.
Definition on_policies (f : gmap string Z → gmap string Z) (d : db) : db := {|
  db_orgs := db_orgs d; db_users := db_users d; db_members := db_members d; db_keys := db_keys d;
  db_invites := db_invites d; db_policies := f (db_policies d); db_user_policies := db_user_policies d; db_work := db_work d |}.
Definition on_user_policies (f : gmap uid string → gmap uid string) (d : db) : db := {|
  db_orgs := db_orgs d; db_users := db_users d; db_members := db_members d; db_keys := db_keys d;
  db_invites := db_invites d; db_policies := db_policies d; db_user_policies := f (db_user_policies d); db_work := db_work d |}.

Definition empty_db : db := {|
  db_orgs := ∅; db_users := ∅; db_members := ∅; db_keys := ∅; db_invites := ∅; db_policies := ∅;
  db_user_policies := ∅; db_work := ∅ |}.

Inductive id_error :=
| StoreFailed | BadRequest
| ErrOrgExists | ErrOrgCap | ErrLastOwner | ErrNoSuchOrg | ErrNoSuchMember | ErrMemberName
| ErrNoSuchKey | ErrKeyRevoked | ErrNotSuspended | ErrSignInKey | ErrPersonalSuspend
| ErrEmailTaken | ErrUserHasAccount | ErrTenantTaken | ErrNoSuchInvite | ErrNotAccount
| ErrPersonalKey | ErrTooManyKeys | ErrKeyOutlives | ErrScopeNotHeld | ErrNotInOrg
| ErrNoSuchPolicy | ErrPolicyInUse.
Abbreviation tx A := (result id_error A).

(** [t.Truncate(time.Microsecond)]. *)
Definition micros (t : Z) : Z := t / 1000 * 1000.

Definition RoleOwner : string := "owner".
Definition RoleMember : string := "member".

(** ** Names *)

(** Random text behind a prefix. *)
Definition newID (prefix rnd : string) : string := prefix +:+ rnd.
Definition newSecret (prefix rnd : string) : string := prefix +:+ rnd.

(** [^[A-Za-z0-9][A-Za-z0-9._@+-]{0,63}$] *)
Definition user_char (c : ascii) : bool :=
  is_alnum c || is_char "." c || is_char "_" c || is_char "@" c || is_char "+" c || is_char "-" c.
Definition ValidUser (s : string) : bool :=
  match chars s with
  | [] => false
  | c :: t => is_alnum c && forallb user_char t && (length t <=? 63)%nat
  end.

(** [^[A-Za-z][A-Za-z0-9-]{0,29}$] *)
Definition orgNameRE (s : string) : bool :=
  match chars s with
  | [] => false
  | c :: t => is_alpha c && forallb (λ c, is_alnum c || is_char "-" c) t && (length t <=? 29)%nat
  end.
Definition reservedOrgNames : list string := [DefaultOrg; "admin"]%string.

(** No repeats, each known, at least one. *)
Fixpoint scopes_from (seen : list string) (scopes : list string) : bool :=
  match scopes with
  | [] => true
  | sc :: scopes => bool_decide (sc ∈ AllScopes) && negb (bool_decide (sc ∈ seen)) && scopes_from (sc :: seen) scopes
  end.
Definition ValidateScopes (scopes : list string) : bool :=
  match scopes with [] => false | _ => scopes_from [] scopes end.

Section identity.
Context `{Unicode}.
(** [hashSecret], the hex SHA-256. *)
Context (hashSecret : string → string).

Definition CheckOrgName (name : string) : bool :=
  orgNameRE name && negb (has_suffix name "-") && negb (contains_str name "--") &&
  negb (bool_decide (to_lower name ∈ reservedOrgNames)).

(** ** Organizations and users by name *)
Definition make_org (now : Z) (tenant : string) (d : db) : db :=
  match db_orgs d !! tenant with
  | Some _ => d
  | None =>
      let '(kind, display) := if String.eqb tenant "" then (orgDefault, "default"%string) else (orgPersonal, tenant) in
      on_orgs <[tenant := {| og_name := display; og_kind := kind; og_created := now; og_by := None |}]> d
  end.
Definition make_user (now : Z) (u : uid) (d : db) : db :=
  let d := make_org now (fst u) d in
  match db_users d !! u with
  | Some _ => d
  | None => on_users <[u := {| us_Email := None; us_Password := None; us_LastLogin := None |}]> d
  end.

Definition is_team (o : org) : bool := bool_decide (og_kind o = orgTeam).

(** The team organization of a name, by its key. *)
Definition teamOrg (d : db) (name : string) : option (string * org) :=
  if String.eqb name "" then None
  else o ← db_orgs d !! to_lower name; if is_team o then Some (to_lower name, o) else None.

Definition memberRole (d : db) (orgKey user userTenant : string) : option string :=
  mb_Role <$> db_members d !! (orgKey, (userTenant, user)).

Definition orgUsed (d : db) (key : string) : bool :=
  existsb (λ '(u, _), String.eqb (fst u) key) (map_to_list (db_users d)) || bool_decide (key ∈ db_work d).

Definition tenantInUse (d : db) (name : string) : bool :=
  existsb (λ '(key, o), negb (String.eqb key "") && String.eqb (to_lower key) (to_lower name) && (is_team o || orgUsed d key))
    (map_to_list (db_orgs d)).

Definition has_key (d : db) (u : uid) : bool :=
  existsb (λ '(_, k), bool_decide (kr_User k = u)) (map_to_list (db_keys d)).
Definition team_named (d : db) (key : string) : bool :=
  match db_orgs d !! key with Some o => is_team o | None => false end.

Definition nameTakenInOrg (d : db) (orgName user userTenant : string) : tx unit :=
  if String.eqb orgName "" then Ok tt
  else
    let org := to_lower orgName in
    reject_if (existsb (λ '((o, u), _), String.eqb o org && team_named d org && String.eqb (snd u) user &&
                                        negb (String.eqb (fst u) userTenant)) (map_to_list (db_members d))) ErrMemberName;;
    reject_if (negb (String.eqb userTenant org) &&
               existsb (λ '(u, _), String.eqb (to_lower (fst u)) org && String.eqb (snd u) user && has_key d u)
                 (map_to_list (db_users d))) ErrMemberName.

(** How many team organizations the user made or owns, their home aside. *)
Definition ownedBy (d : db) (u : uid) : Z :=
  Z.of_nat (length (List.filter (λ '(key, o),
    is_team o && negb (String.eqb key (fst u)) &&
    (bool_decide (og_by o = Some u) ||
     match db_members d !! (key, u) with Some m => String.eqb (mb_Role m) RoleOwner | None => false end))
    (map_to_list (db_orgs d)))).

Definition owners (d : db) (orgKey : string) : Z :=
  Z.of_nat (length (List.filter (λ '((o, _), m), String.eqb o orgKey && String.eqb (mb_Role m) RoleOwner)
    (map_to_list (db_members d)))).

(** A personal organization of the key becomes the team one; otherwise it is
    inserted, unless the key is taken. *)
Definition CreateOrg (now : Z) (name user userTenant : string) (maxOwned : Z) (d : db) : tx db :=
  let now := micros now in
  reject_if (negb (CheckOrgName name)) BadRequest;;
  reject_if (tenantInUse d name) ErrOrgExists;;
  let u := (userTenant, user) in
  let d := make_user now u d in
  reject_if ((maxOwned >? 0) && (maxOwned <=? ownedBy d u)) ErrOrgCap;;
  let key := to_lower name in
  reject_if (match db_orgs d !! key with Some o => negb (bool_decide (og_kind o = orgPersonal)) | None => false end) ErrOrgExists;;
  let d := on_orgs <[key := {| og_name := name; og_kind := orgTeam; og_created := now; og_by := Some u |}]> d in
  reject_if (bool_decide (is_Some (db_members d !! (key, u)))) StoreFailed;;
  Ok (on_members <[(key, u) := {| mb_Role := RoleOwner; mb_Added := now |}]> d).

(** The role they had, "" for a new member. *)
Definition SetMember (now : Z) (orgName user userTenant role : string) (d : db) : tx (string * db) :=
  '(key, o) ← of_option (teamOrg d orgName) ErrNoSuchOrg;
  let u := (userTenant, user) in
  match db_members d !! (key, u) with
  | Some m =>
      reject_if (String.eqb (mb_Role m) RoleOwner && negb (String.eqb role RoleOwner) && (owners d key =? 1)) ErrLastOwner;;
      Ok (mb_Role m, on_members <[(key, u) := {| mb_Role := role; mb_Added := mb_Added m |}]> d)
  | None =>
      nameTakenInOrg d (to_lower (og_name o)) user userTenant;;
      let d := make_user (micros now) u d in
      Ok (""%string, on_members <[(key, u) := {| mb_Role := role; mb_Added := micros now |}]> d)
  end.

Definition RemoveMember (orgName user userTenant : string) (d : db) : tx db :=
  '(key, _) ← of_option (teamOrg d orgName) ErrNoSuchOrg;
  let u := (userTenant, user) in
  m ← of_option (db_members d !! (key, u)) ErrNoSuchMember;
  reject_if (String.eqb (mb_Role m) RoleOwner && (owners d key =? 1)) ErrLastOwner;;
  Ok (on_members (delete (key, u)) d).

(** ** Keys *)

(** A row as it is read. *)
Definition scanKey (d : db) (id : string) (k : krow) : Key :=
  let acct := match db_users d !! kr_User k with
              | Some u => if kr_Account k then Some u else None
              | None => None
              end in
  {| k_ID := id; k_User := snd (kr_User k); k_Tenant := fst (kr_User k); k_Scopes := kr_Scopes k; k_Hash := kr_Hash k;
     k_Created := kr_Created k; k_Revoked := kr_Revoked k; k_Expires := kr_Expires k;
     k_Email := match acct with Some u => default ""%string (us_Email u) | None => "" end;
     k_Password := match acct with Some u => default ""%string (us_Password u) | None => "" end;
     k_LastLogin := acct ≫= us_LastLogin;
     k_Parent := default ""%string (kr_Parent k); k_Personal := kr_Personal k; k_Name := kr_Name k;
     k_Bound := bool_decide (is_Some (kr_Org k)); k_Org := default ""%string (kr_Org k);
     k_RestoreUntil := if kr_Revoked k then kr_Restore k else None |}.
Definition key_of (d : db) (id : string) : option Key := scanKey d id <$> db_keys d !! id.

Definition row_alive (now : Z) (k : krow) : bool :=
  negb (kr_Revoked k) || match kr_Restore k with Some t => now <? t | None => false end.

(** No account of the user's that is live, or may be restored. *)
Definition no_account (now : Z) (d : db) (u : uid) : bool :=
  negb (existsb (λ '(_, k), bool_decide (kr_User k = u) && kr_Account k && row_alive now k) (map_to_list (db_keys d))).

Definition clear_email (u : user) : user :=
  {| us_Email := None; us_Password := None; us_LastLogin := us_LastLogin u |}.
Definition email_is (email : string) (u : user) : bool := bool_decide (us_Email u = Some email).

(** The address and password go on the user, taken from whoever's account is
    gone. *)
Definition claim_email (now : Z) (u : uid) (email password : string) (last : option Z) (d : db) : tx db :=
  let d := on_users (map_imap (λ v usr,
    Some (if negb (bool_decide (v = u)) && email_is email usr && no_account now d v then clear_email usr else usr))) d in
  reject_if (existsb (λ '(v, usr), negb (bool_decide (v = u)) && email_is email usr) (map_to_list (db_users d))) ErrEmailTaken;;
  Ok (on_users (alter (λ _, {| us_Email := Some email; us_Password := Some password; us_LastLogin := last |}) u) d).

Definition taken_id (d : db) (id hash : string) : bool :=
  bool_decide (is_Some (db_keys d !! id)) || existsb (λ '(_, k), String.eqb (kr_Hash k) hash) (map_to_list (db_keys d)).
(** The index on live accounts: one of a user. *)
Definition second_account (d : db) (u : uid) : bool :=
  existsb (λ '(_, k), bool_decide (kr_User k = u) && kr_Account k && negb (kr_Revoked k)) (map_to_list (db_keys d)).

Definition users_of (d : db) (home : string) : Z :=
  Z.of_nat (length (List.filter (λ '(u, _), String.eqb (fst u) home) (map_to_list (db_users d)))).

Definition ownFirstOrg (now : Z) (u : uid) (d : db) : tx db :=
  let key := fst u in
  match db_orgs d !! key with
  | Some o =>
      if bool_decide (og_kind o = orgPersonal) && negb (String.eqb key "") && String.eqb key (to_lower key) && (users_of d key =? 1)
      then
        let d := on_orgs <[key := {| og_name := key; og_kind := orgTeam; og_created := og_created o; og_by := Some u |}]> d in
        reject_if (bool_decide (is_Some (db_members d !! (key, u)))) StoreFailed;;
        Ok (on_members <[(key, u) := {| mb_Role := RoleOwner; mb_Added := now |}]> d)
      else Ok d
  | None => Ok d
  end.

Definition row_of (u : uid) (k : Key) : krow := {|
  kr_Hash := k_Hash k; kr_User := u; kr_Scopes := k_Scopes k; kr_Created := k_Created k; kr_Revoked := k_Revoked k;
  kr_Expires := k_Expires k; kr_Account := negb (String.eqb (k_Email k) "");
  kr_Parent := if String.eqb (k_Parent k) "" then None else Some (k_Parent k); kr_Restore := None;
  kr_Personal := k_Personal k; kr_Name := k_Name k; kr_Org := if k_Bound k then Some (k_Org k) else None |}.

Definition insertKey (now : Z) (k : Key) (d : db) : tx db :=
  let u := (k_Tenant k, k_User k) in
  let account := negb (String.eqb (k_Email k) "") in
  let d := make_user (micros now) u d in
  reject_if (k_Bound k && negb (bool_decide (is_Some (db_orgs d !! k_Org k)))) ErrNoSuchKey;;
  d ← (if account then claim_email (micros now) u (k_Email k) (k_Password k) (k_LastLogin k) d else Ok d);
  reject_if (taken_id d (k_ID k) (k_Hash k) || (account && negb (k_Revoked k) && second_account d u))
    (if account then ErrEmailTaken else StoreFailed);;
  reject_if (negb (String.eqb (k_Parent k) "") && negb (bool_decide (is_Some (db_keys d !! k_Parent k)))) StoreFailed;;
  let d := on_keys <[k_ID k := row_of u k]> d in
  if String.eqb (k_Parent k) "" then ownFirstOrg (k_Created k) u d else Ok d.

Definition keySecretPrefix : string := "sgk_".

Definition plain_key (id user tenant hash : string) (scopes : list string) (created : Z) (expires : option Z) : Key := {|
  k_ID := id; k_User := user; k_Tenant := tenant; k_Scopes := scopes; k_Hash := hash; k_Created := created;
  k_Revoked := false; k_Expires := expires; k_Email := ""; k_Password := ""; k_LastLogin := None; k_Parent := "";
  k_Personal := false; k_Name := ""; k_Bound := false; k_Org := ""; k_RestoreUntil := None |}.

(** [rid], [rsecret]: what is random of the id and the secret. *)
Definition CreateKeyExpiring (now : Z) (rid rsecret user tenant : string) (scopes : list string) (expires : option Z) (d : db) : tx (Key * db) :=
  reject_if (negb (ValidUser user)) BadRequest;;
  reject_if (negb (String.eqb tenant "") && negb (ValidUser tenant)) BadRequest;;
  reject_if (negb (ValidateScopes scopes)) BadRequest;;
  let created := micros now in
  reject_if (match expires with Some t => negb (created <? t) | None => false end) BadRequest;;
  let tenant := match teamOrg d tenant with Some (_, o) => to_lower (og_name o) | None => tenant end in
  let k := plain_key (newID "key_" rid) user tenant (hashSecret (newSecret keySecretPrefix rsecret)) scopes created
             (micros <$> expires) in
  nameTakenInOrg d tenant user tenant;;
  d ← insertKey now k d;
  Ok (k, d).

Definition key_by_hash (d : db) (hash : string) : option Key :=
  match List.filter (λ '(_, k), String.eqb (kr_Hash k) hash) (map_to_list (db_keys d)) with
  | (id, k) :: _ => Some (scanKey d id k)
  | [] => None
  end.

Definition KeyBySecret (d : db) (now : Z) (secret : string) : option Key :=
  if negb (has_prefix secret keySecretPrefix) then None
  else
    k ← key_by_hash d (hashSecret secret);
    if negb (Active now k) then None
    else if String.eqb (k_Parent k) "" then Some k
    else a ← key_of d (k_Parent k); if Active now a then Some k else None.

Definition revoke_row (restore : option Z) (k : krow) : krow := {|
  kr_Hash := kr_Hash k; kr_User := kr_User k; kr_Scopes := kr_Scopes k; kr_Created := kr_Created k; kr_Revoked := true;
  kr_Expires := kr_Expires k; kr_Account := kr_Account k; kr_Parent := kr_Parent k; kr_Restore := restore;
  kr_Personal := kr_Personal k; kr_Name := kr_Name k; kr_Org := kr_Org k |}.
Definition set_Revoked (b : bool) (k : krow) : krow := {|
  kr_Hash := kr_Hash k; kr_User := kr_User k; kr_Scopes := kr_Scopes k; kr_Created := kr_Created k; kr_Revoked := b;
  kr_Expires := kr_Expires k; kr_Account := kr_Account k; kr_Parent := kr_Parent k; kr_Restore := kr_Restore k;
  kr_Personal := kr_Personal k; kr_Name := kr_Name k; kr_Org := kr_Org k |}.
Definition set_Expires (t : option Z) (k : krow) : krow := {|
  kr_Hash := kr_Hash k; kr_User := kr_User k; kr_Scopes := kr_Scopes k; kr_Created := kr_Created k; kr_Revoked := kr_Revoked k;
  kr_Expires := t; kr_Account := kr_Account k; kr_Parent := kr_Parent k; kr_Restore := kr_Restore k;
  kr_Personal := kr_Personal k; kr_Name := kr_Name k; kr_Org := kr_Org k |}.

Definition is_child (id : string) (k : krow) : bool := bool_decide (kr_Parent k = Some id).
(** The keys made under it. *)
Definition children (f : krow → krow) (id : string) (ks : gmap string krow) : gmap string krow :=
  (λ k, if is_child id k then f k else k) <$> ks.

Definition RevokeKey (id : string) (d : db) : tx db :=
  reject_if (negb (bool_decide (is_Some (db_keys d !! id)))) ErrNoSuchKey;;
  Ok (on_keys (children (set_Revoked true) id) (on_keys (alter (revoke_row None) id) d)).

Definition earlier (at_ : Z) (e : option Z) : option Z :=
  match e with Some t => if at_ <? t then Some at_ else e | None => Some at_ end.

Definition SetKeyExpiry (id : string) (at_ : option Z) (d : db) : tx db :=
  k ← of_option (db_keys d !! id) ErrNoSuchKey;
  reject_if (kr_Revoked k) ErrKeyRevoked;;
  let at_ := micros <$> at_ in
  let at_ := match kr_Parent k ≫= λ p, db_keys d !! p ≫= kr_Expires with
             | Some r => match at_ with None => Some r | Some a => if r <? a then Some r else Some a end
             | None => at_
             end in
  let d := on_keys (alter (set_Expires at_) id) d in
  Ok (match at_ with
      | Some a => on_keys (children (λ c, set_Expires (earlier a (kr_Expires c)) c) id) d
      | None => d
      end).

Definition SuspendKey (id : string) (until : Z) (d : db) : tx db :=
  k ← of_option (db_keys d !! id) ErrNoSuchKey;
  reject_if (kr_Revoked k) ErrKeyRevoked;;
  reject_if (kr_Personal k) ErrPersonalSuspend;;
  reject_if (bool_decide (is_Some (kr_Parent k))) ErrSignInKey;;
  Ok (on_keys (children (set_Revoked true) id) (on_keys (alter (revoke_row (Some (micros until))) id) d)).

Definition restored (k : krow) : krow := {|
  kr_Hash := kr_Hash k; kr_User := kr_User k; kr_Scopes := kr_Scopes k; kr_Created := kr_Created k; kr_Revoked := false;
  kr_Expires := kr_Expires k; kr_Account := kr_Account k; kr_Parent := kr_Parent k; kr_Restore := None;
  kr_Personal := kr_Personal k; kr_Name := kr_Name k; kr_Org := kr_Org k |}.

Definition RestoreKey (now : Z) (id : string) (d : db) : tx db :=
  k ← of_option (db_keys d !! id) ErrNoSuchKey;
  reject_if (negb (kr_Revoked k)) ErrNotSuspended;;
  reject_if (negb (Suspended (micros now) (scanKey d id k))) ErrKeyRevoked;;
  reject_if (kr_Account k && second_account d (kr_User k)) StoreFailed;;
  Ok (on_keys (alter restored id) d).

(** Rows deleted take the keys under them and the resets of them along. *)
Definition delete_keys (gone : string → krow → bool) (d : db) : db :=
  let ids := dom (filter (λ ik, gone ik.1 ik.2 = true) (db_keys d)) in
  let held (o : option string) : bool := match o with Some p => bool_decide (p ∈ ids) | None => false end in
  on_invites (filter (λ ii, held (iv_Key ii.2) = false))
    (on_keys (filter (λ ik, bool_decide (ik.1 ∈ ids) || held (kr_Parent ik.2) = false)) d).

(** ** Accounts *)
Definition Account (d : db) (email : string) : option Key :=
  match List.filter (λ '(_, k), kr_Account k && negb (kr_Revoked k) &&
      match db_users d !! kr_User k with Some u => email_is (to_lower email) u | None => false end)
    (map_to_list (db_keys d)) with
  | (id, k) :: _ => Some (scanKey d id k)
  | [] => None
  end.

(** A personal key is not its user's account. *)
Definition AccountOf (d : db) (id : string) : option Key :=
  k ← key_of d id;
  if k_Personal k then None
  else
    k ← (if String.eqb (k_Parent k) "" then Some k else key_of d (k_Parent k));
    if String.eqb (k_Email k) "" then None else Some k.

Definition set_LastLogin (t : option Z) (u : user) : user :=
  {| us_Email := us_Email u; us_Password := us_Password u; us_LastLogin := t |}.
Definition set_Password (p : string) (u : user) : user :=
  {| us_Email := us_Email u; us_Password := Some p; us_LastLogin := us_LastLogin u |}.

Definition signin_key (id hash : string) (acct : Key) (created end_ : Z) : Key := {|
  k_ID := id; k_User := k_User acct; k_Tenant := k_Tenant acct; k_Scopes := k_Scopes acct; k_Hash := hash;
  k_Created := created; k_Revoked := false; k_Expires := Some end_; k_Email := ""; k_Password := ""; k_LastLogin := None;
  k_Parent := k_ID acct; k_Personal := false; k_Name := ""; k_Bound := false; k_Org := ""; k_RestoreUntil := None |}.

(** A sign-in that ended. *)
Definition over (now : Z) (_ : string) (k : krow) : bool :=
  bool_decide (is_Some (kr_Parent k)) && negb (kr_Personal k) &&
  (kr_Revoked k || match kr_Expires k with Some t => t <=? now | None => false end).

Definition SignIn (now : Z) (rid rsecret account : string) (ttl : Z) (d : db) : tx (Key * db) :=
  let created := micros now in
  acct ← of_option (key_of d account) ErrNotAccount;
  reject_if (String.eqb (k_Email acct) "") ErrNotAccount;;
  reject_if (negb (Active created acct)) ErrKeyRevoked;;
  let end_ := created + ttl in
  let end_ := match k_Expires acct with Some t => if t <? end_ then t else end_ | None => end_ end in
  let d := on_users (alter (set_LastLogin (Some created)) (k_Tenant acct, k_User acct)) d in
  let d := delete_keys (over created) d in
  let k := signin_key (newID "key_" rid) (hashSecret (newSecret keySecretPrefix rsecret)) acct created end_ in
  d ← insertKey now k d;
  Ok (k, d).

Definition a_signin (k : krow) : bool := bool_decide (is_Some (kr_Parent k)) && negb (kr_Personal k).

Definition SignOut (id : string) (d : db) : tx db :=
  k ← of_option (db_keys d !! id) ErrNotAccount;
  reject_if (negb (a_signin k)) ErrNotAccount;;
  Ok (delete_keys (λ i _, String.eqb i id) d).

Definition SetPassword (account passwordHash keep : string) (d : db) : tx db :=
  k ← of_option (db_keys d !! account) ErrNotAccount;
  reject_if (negb (kr_Account k)) ErrNotAccount;;
  let d := on_users (alter (set_Password passwordHash) (kr_User k)) d in
  Ok (delete_keys (λ i k, is_child account k && negb (kr_Personal k) && negb (String.eqb i keep)) d).

(** ** Policies *)
Definition policyNameRE (s : string) : bool :=
  match chars s with
  | [] => false
  | c :: t => is_lower c && forallb (λ c, is_lower_alnum c || is_char "-" c) t && (length t <=? 29)%nat
  end.
Definition PutPolicy (name : string) (maxLifetime : Z) (d : db) : tx db :=
  reject_if (negb (policyNameRE name)) BadRequest;;
  reject_if (maxLifetime <? 0) BadRequest;;
  Ok (on_policies <[name := maxLifetime]> d).
Definition DeletePolicy (name : string) (d : db) : tx db :=
  reject_if (negb (bool_decide (is_Some (db_policies d !! name)))) ErrNoSuchPolicy;;
  reject_if (existsb (λ '(_, p), String.eqb p name) (map_to_list (db_user_policies d))) ErrPolicyInUse;;
  Ok (on_policies (delete name) d).
Definition assignPolicy (now : Z) (u : uid) (name : string) (d : db) : db :=
  if String.eqb name "" then on_user_policies (delete u) d
  else on_user_policies <[u := name]> (make_user (micros now) u d).
Definition AssignPolicy (now : Z) (user tenant name : string) (d : db) : tx db :=
  reject_if (negb (ValidUser user)) BadRequest;;
  reject_if (negb (String.eqb tenant "") && negb (ValidUser tenant)) BadRequest;;
  reject_if (negb (String.eqb name "") && negb (bool_decide (is_Some (db_policies d !! name)))) ErrNoSuchPolicy;;
  Ok (assignPolicy now (tenant, user) name d).
Definition policyOf (d : db) (user keyTenant : string) : option (string * Z) :=
  name ← db_user_policies d !! (keyTenant, user); max ← db_policies d !! name; Some (name, max).
(** Of whoever acts in the tenant under that name: with keys there, or its
    member. *)
Definition PolicyActingIn (d : db) (user tenant : string) : option (string * Z) :=
  let home := if has_key d (tenant, user) then tenant
              else match List.filter (λ '((o, u), _), String.eqb o (to_lower tenant) && team_named d o && String.eqb (snd u) user)
                           (map_to_list (db_members d)) with
                   | ((_, u), _) :: _ => fst u
                   | [] => tenant
                   end in
  policyOf d user home.

(** ** Invites *)
Definition inviteSecretPrefix : string := "sgi_".
Definition inviteValid : Z := 48 * 3600 * second.
Definition inviteMaxValid : Z := 7 * 24 * 3600 * second.

(** [^[^@\s]+@[^@\s]+\.[^@\s]+$], byte by byte. *)
Definition email_space (c : ascii) : bool := (code c =? 9) || (code c =? 10) || (code c =? 12) || (code c =? 13) || (code c =? 32).
Definition email_char (c : ascii) : bool := negb (is_char "@" c) && negb (email_space c).
Definition inner_dot (l : list ascii) : bool :=
  match l with [] => false | _ :: t => existsb (is_char ".") (removelast t) end.
Definition emailRE (s : string) : bool :=
  match cut s "@" with
  | Some (a, b) => negb (String.eqb a "") && forallb email_char (chars a) && forallb email_char (chars b) && inner_dot (chars b)
  | None => false
  end.
Definition NormalEmail (email : string) : string * bool :=
  let e := to_lower (trim_space email) in (e, (strlen e <=? 254) && emailRE e).

(** A run of what an organization's name cannot hold is one dash. *)
Fixpoint own_chars (last_dash : bool) (l : list ascii) : list ascii :=
  match l with
  | [] => []
  | c :: l =>
      if is_lower_alnum c then c :: own_chars false l
      else if last_dash then own_chars true l else ("-"%char : ascii) :: own_chars true l
  end.
Fixpoint drop_dashes (l : list ascii) : list ascii :=
  match l with c :: t => if is_char "-" c then drop_dashes t else l | [] => [] end.
Definition trim_right_dashes (l : list ascii) : list ascii := reverse (drop_dashes (reverse l)).
Definition ownTenant (user : string) : string :=
  let t := trim_right_dashes (drop_dashes (own_chars false (chars (to_lower user)))) in
  of_chars (if (30 <? length t)%nat then trim_right_dashes (take 30 t) else t).

Definition pruneInvites (now : Z) (d : db) : db := on_invites (filter (λ ii, (iv_Expires ii.2 <=? now) = false)) d.

Definition accountFree (now : Z) (email user tenant : string) (d : db) : tx unit :=
  let now := micros now in
  reject_if (existsb (λ '(_, k), kr_Account k && row_alive now k &&
    match db_users d !! kr_User k with Some u => email_is email u | None => false end) (map_to_list (db_keys d))) ErrEmailTaken;;
  reject_if (negb (no_account now d (tenant, user))) ErrUserHasAccount;;
  nameTakenInOrg d tenant user tenant.

Definition tenantFree (tenant email : string) (d : db) : tx unit :=
  reject_if (tenantInUse d tenant) ErrTenantTaken;;
  reject_if (existsb (λ '(_, iv), String.eqb (to_lower (iv_Tenant iv)) (to_lower tenant) && bool_decide (iv_Key iv = None) &&
    negb (String.eqb (iv_Email iv) email)) (map_to_list (db_invites d))) ErrTenantTaken.

Definition insertInvite (now : Z) (id : string) (iv : inviteRecord) (d : db) : tx db :=
  let d := make_org (micros now) (iv_Tenant iv) d in
  reject_if (bool_decide (is_Some (db_invites d !! id)) ||
             existsb (λ '(_, o), String.eqb (iv_Hash o) (iv_Hash iv)) (map_to_list (db_invites d))) StoreFailed;;
  Ok (on_invites <[id := iv]> d).

Record inviteRequest := {
  ir_Email : string; ir_User : string; ir_Tenant : string; ir_Scopes : list string; ir_Policy : string;
  ir_ExpiresInSecs : Z; ir_ValidSecs : Z }.

(** The record without its hash. *)
Definition newInvite (now : Z) (req : inviteRequest) : tx (string * inviteRecord) :=
  let '(email, ok) := NormalEmail (ir_Email req) in
  reject_if (negb ok) BadRequest;;
  reject_if (negb (ValidUser (ir_User req))) BadRequest;;
  reject_if (negb (String.eqb (ir_Tenant req) "") && negb (ValidUser (ir_Tenant req))) BadRequest;;
  reject_if (ir_ExpiresInSecs req <? 0) BadRequest;;
  reject_if ((ir_ValidSecs req <? 0) || (secs (ir_ValidSecs req) >? inviteMaxValid)) BadRequest;;
  reject_if (negb (ValidateScopes (ir_Scopes req))) BadRequest;;
  let valid := if ir_ValidSecs req >? 0 then secs (ir_ValidSecs req) else inviteValid in
  Ok (email, {| iv_Hash := ""; iv_Email := email; iv_User := ir_User req; iv_Tenant := ir_Tenant req;
                iv_Scopes := ir_Scopes req; iv_Policy := ir_Policy req; iv_ExpiresInSecs := ir_ExpiresInSecs req;
                iv_Key := None; iv_Created := now; iv_Expires := now + valid |}).

Definition with_hash (hash tenant : string) (iv : inviteRecord) : inviteRecord := {|
  iv_Hash := hash; iv_Email := iv_Email iv; iv_User := iv_User iv; iv_Tenant := tenant; iv_Scopes := iv_Scopes iv;
  iv_Policy := iv_Policy iv; iv_ExpiresInSecs := iv_ExpiresInSecs iv; iv_Key := iv_Key iv; iv_Created := iv_Created iv;
  iv_Expires := iv_Expires iv |}.

(** An invite that names no tenant gets one of its own. *)
Definition CreateInvite (now : Z) (rid rtoken : string) (req : inviteRequest) (d : db) : tx (inviteRecord * db) :=
  '(email, iv) ← newInvite (micros now) req;
  let own := String.eqb (iv_Tenant iv) "" in
  let tenant := if own then ownTenant (iv_User iv)
                else if String.eqb (iv_Tenant iv) DefaultOrg then ""%string else iv_Tenant iv in
  reject_if (own && negb (CheckOrgName tenant)) BadRequest;;
  let d := pruneInvites (iv_Created iv) d in
  (if own then tenantFree tenant email d else Ok tt);;
  let tenant := match teamOrg d tenant with Some (_, o) => to_lower (og_name o) | None => tenant end in
  accountFree now email (iv_User iv) tenant d;;
  reject_if (negb (String.eqb (iv_Policy iv) "") && negb (bool_decide (is_Some (db_policies d !! iv_Policy iv)))) ErrNoSuchPolicy;;
  let d := on_invites (filter (λ ii, (String.eqb (iv_Email ii.2) email && bool_decide (iv_Key ii.2 = None)) = false)) d in
  let iv := with_hash (hashSecret (newSecret inviteSecretPrefix rtoken)) tenant iv in
  d ← insertInvite now (newID "inv_" rid) iv d;
  Ok (iv, d).

Definition CreateResetInvite (now : Z) (rid rtoken account : string) (valid : Z) (d : db) : tx (inviteRecord * db) :=
  let created := micros now in
  k ← of_option (key_of d account) ErrNoSuchKey;
  reject_if (String.eqb (k_Email k) "") ErrNotAccount;;
  reject_if (k_Revoked k) ErrKeyRevoked;;
  let iv := {| iv_Hash := hashSecret (newSecret inviteSecretPrefix rtoken); iv_Email := k_Email k; iv_User := k_User k; iv_Tenant := k_Tenant k;
               iv_Scopes := k_Scopes k; iv_Policy := ""; iv_ExpiresInSecs := 0; iv_Key := Some account;
               iv_Created := created; iv_Expires := created + valid |} in
  let d := pruneInvites created d in
  let d := on_invites (filter (λ ii, bool_decide (iv_Key ii.2 = Some account) = false)) d in
  d ← insertInvite now (newID "inv_" rid) iv d;
  Ok (iv, d).

Definition renewed (hash : string) (expires : Z) (iv : inviteRecord) : inviteRecord := {|
  iv_Hash := hash; iv_Email := iv_Email iv; iv_User := iv_User iv; iv_Tenant := iv_Tenant iv; iv_Scopes := iv_Scopes iv;
  iv_Policy := iv_Policy iv; iv_ExpiresInSecs := iv_ExpiresInSecs iv; iv_Key := iv_Key iv; iv_Created := iv_Created iv;
  iv_Expires := expires |}.
Definition RenewInvite (now : Z) (id rtoken : string) (valid : Z) (d : db) : tx db :=
  let now := micros now in
  let hash := hashSecret (newSecret inviteSecretPrefix rtoken) in
  let d := pruneInvites now d in
  iv ← of_option (db_invites d !! id) ErrNoSuchInvite;
  reject_if (existsb (λ '(i, o), negb (String.eqb i id) && String.eqb (iv_Hash o) hash) (map_to_list (db_invites d))) StoreFailed;;
  Ok (on_invites <[id := renewed hash (now + valid) iv]> d).

Definition RevokeInvite (id : string) (d : db) : tx db :=
  reject_if (negb (bool_decide (is_Some (db_invites d !! id)))) ErrNoSuchInvite;;
  Ok (on_invites (delete id) d).

Definition inviteByToken (d : db) (now : Z) (token : string) : option (string * inviteRecord) :=
  if negb (has_prefix token inviteSecretPrefix) then None
  else head (List.filter (λ '(_, iv), String.eqb (iv_Hash iv) (hashSecret token) && (now <? iv_Expires iv)) (map_to_list (db_invites d))).

Definition account_key (id hash : string) (iv : inviteRecord) (now : Z) (password : string) : Key := {|
  k_ID := id; k_User := iv_User iv; k_Tenant := iv_Tenant iv; k_Scopes := iv_Scopes iv; k_Hash := hash; k_Created := now;
  k_Revoked := false; k_Expires := if iv_ExpiresInSecs iv >? 0 then Some (now + secs (iv_ExpiresInSecs iv)) else None;
  k_Email := iv_Email iv; k_Password := password; k_LastLogin := None; k_Parent := ""; k_Personal := false; k_Name := "";
  k_Bound := false; k_Org := ""; k_RestoreUntil := None |}.

(** A reset sets the password of its account and ends its sign-ins and its
    personal keys; another makes the account. Either is used up. *)
Definition RedeemInvite (now : Z) (rid rsecret token passwordHash : string) (d : db) : tx (Key * db) :=
  '(inv, iv) ← of_option (inviteByToken d (micros now) token) ErrNoSuchInvite;
  '(k, d) ←
    match iv_Key iv with
    | Some a =>
        k ← of_option (key_of d a) ErrNoSuchInvite;
        reject_if (k_Revoked k || negb (String.eqb (k_Email k) (iv_Email iv))) ErrNoSuchInvite;;
        let d := on_users (alter (set_Password passwordHash) (k_Tenant k, k_User k)) d in
        let d := delete_keys (λ _ k, is_child a k && negb (kr_Personal k)) d in
        Ok (k, on_keys (children (λ k, if kr_Personal k then set_Revoked true k else k) a) d)
    | None =>
        accountFree now (iv_Email iv) (iv_User iv) (iv_Tenant iv) d;;
        let k := account_key (newID "key_" rid) (hashSecret (newSecret keySecretPrefix rsecret)) iv (micros now) passwordHash in
        reject_if (negb (String.eqb (iv_Policy iv) "") && negb (bool_decide (is_Some (db_policies d !! iv_Policy iv)))) ErrNoSuchPolicy;;
        let d := if String.eqb (iv_Policy iv) "" then d else assignPolicy now (iv_Tenant iv, iv_User iv) (iv_Policy iv) d in
        d ← insertKey now k d;
        Ok (k, d)
    end;
  Ok (k, on_invites (delete inv) d).

(** ** Personal keys *)
Definition maxPersonalKeys : Z := 20.

Definition personalRoot (now : Z) (by_ : string) (d : db) : tx (Key * Key) :=
  caller ← of_option (key_of d by_) ErrNoSuchKey;
  reject_if (k_Personal caller) ErrPersonalKey;;
  root ← of_option (key_of d (if String.eqb (k_Parent caller) "" then k_ID caller else k_Parent caller)) ErrNoSuchKey;
  reject_if (negb (Active (micros now) root)) ErrKeyRevoked;;
  Ok (caller, root).

Definition holds (k : Key) (scope : string) : bool :=
  bool_decide (scope ∈ k_Scopes k) || (negb (String.eqb scope ScopeAdmin) && bool_decide (ScopeAdmin ∈ k_Scopes k)).

Definition personal_live (now : Z) (root : string) (k : krow) : bool :=
  is_child root k && kr_Personal k && negb (kr_Revoked k) && match kr_Expires k with None => true | Some t => now <? t end.

Definition personal_key (id hash name org : string) (scopes : list string) (root : Key) (created expires : Z) : Key := {|
  k_ID := id; k_User := k_User root; k_Tenant := k_Tenant root; k_Scopes := scopes; k_Hash := hash; k_Created := created;
  k_Revoked := false; k_Expires := Some expires; k_Email := ""; k_Password := ""; k_LastLogin := None; k_Parent := k_ID root;
  k_Personal := true; k_Name := name; k_Bound := true; k_Org := org; k_RestoreUntil := None |}.

Definition CreatePersonalKey (now : Z) (rid rsecret by_ org name : string) (scopes : list string) (expires : Z) (d : db) : tx (Key * db) :=
  reject_if (negb (ValidateScopes scopes)) BadRequest;;
  reject_if (bool_decide (ScopeAdmin ∈ scopes)) BadRequest;;
  let created := micros now in
  let expires := micros expires in
  reject_if (negb (created <? expires)) BadRequest;;
  '(caller, root) ← personalRoot now by_ d;
  reject_if (negb (forallb (λ sc, holds root sc && holds caller sc) scopes)) ErrScopeNotHeld;;
  org ← (if equal_fold org (k_Tenant root) then Ok (k_Tenant root)
         else match teamOrg d org with
              | Some (key, _) => if bool_decide (is_Some (memberRole d key (k_User root) (k_Tenant root))) then Ok (to_lower org)
                                 else Err ErrNotInOrg
              | None => Err ErrNotInOrg
              end);
  reject_if (match k_Expires root with Some t => t <? expires | None => false end) BadRequest;;
  reject_if (maxPersonalKeys <=? Z.of_nat (length (List.filter (λ '(_, k), personal_live created (k_ID root) k) (map_to_list (db_keys d))))) ErrTooManyKeys;;
  let k := personal_key (newID "key_" rid) (hashSecret (newSecret keySecretPrefix rsecret)) name org scopes root created expires in
  d ← insertKey now k d;
  Ok (k, d).

Definition RevokePersonalKey (now : Z) (by_ id : string) (d : db) : tx db :=
  '(_, root) ← personalRoot now by_ d;
  k ← of_option (db_keys d !! id) ErrNoSuchKey;
  reject_if (negb (is_child (k_ID root) k && kr_Personal k)) ErrNoSuchKey;;
  Ok (on_keys (alter (revoke_row None) id) d).

(** ** What the gateway does to the tables *)
Inductive id_op :=
| Op_org (name user userTenant : string) (maxOwned : Z)
| Op_set_member (org user userTenant role : string)
| Op_remove_member (org user userTenant : string)
| Op_key (rid rsecret user tenant : string) (scopes : list string) (expires : option Z)
| Op_revoke (id : string)
| Op_expiry (id : string) (at_ : option Z)
| Op_suspend (id : string) (until : Z)
| Op_restore (id : string)
| Op_sign_in (rid rsecret account : string) (ttl : Z)
| Op_sign_out (id : string)
| Op_password (account passwordHash keep : string)
| Op_invite (rid rtoken : string) (req : inviteRequest)
| Op_reset (rid rtoken account : string) (valid : Z)
| Op_renew (id rtoken : string) (valid : Z)
| Op_withdraw (id : string)
| Op_redeem (rid rsecret token passwordHash : string)
| Op_personal (rid rsecret by_ org name : string) (scopes : list string) (expires : Z)
| Op_revoke_personal (by_ id : string)
| Op_put_policy (name : string) (maxLifetime : Z)
| Op_delete_policy (name : string)
| Op_assign (user tenant name : string)
| Op_record (user tenant : string).

(** A record made in a tenant: its organization and its owner are made if not
    there, unless one of its members is of that name (ownerIDs). *)
Definition record_work (now : Z) (user tenant : string) (d : db) : db :=
  let d := make_org (micros now) tenant d in
  let d := if bool_decide (is_Some (db_users d !! (tenant, user))) ||
              existsb (λ '((o, u), _), String.eqb o tenant && String.eqb (snd u) user) (map_to_list (db_members d))
           then d else make_user (micros now) (tenant, user) d in
  {| db_orgs := db_orgs d; db_users := db_users d; db_members := db_members d; db_keys := db_keys d;
     db_invites := db_invites d; db_policies := db_policies d; db_user_policies := db_user_policies d;
     db_work := {[ tenant ]} ∪ db_work d |}.

Definition db_of {A} (r : tx (A * db)) : tx db := match r with Ok (_, d) => Ok d | Err e => Err e end.

Definition id_step (now : Z) (o : id_op) (d : db) : tx db :=
  match o with
  | Op_org name user userTenant maxOwned => CreateOrg now name user userTenant maxOwned d
  | Op_set_member org user userTenant role => db_of (SetMember now org user userTenant role d)
  | Op_remove_member org user userTenant => RemoveMember org user userTenant d
  | Op_key rid rsecret user tenant scopes expires => db_of (CreateKeyExpiring now rid rsecret user tenant scopes expires d)
  | Op_revoke id => RevokeKey id d
  | Op_expiry id at_ => SetKeyExpiry id at_ d
  | Op_suspend id until => SuspendKey id until d
  | Op_restore id => RestoreKey now id d
  | Op_sign_in rid rsecret account ttl => db_of (SignIn now rid rsecret account ttl d)
  | Op_sign_out id => SignOut id d
  | Op_password account passwordHash keep => SetPassword account passwordHash keep d
  | Op_invite rid rtoken req => db_of (CreateInvite now rid rtoken req d)
  | Op_reset rid rtoken account valid => db_of (CreateResetInvite now rid rtoken account valid d)
  | Op_renew id rtoken valid => RenewInvite now id rtoken valid d
  | Op_withdraw id => RevokeInvite id d
  | Op_redeem rid rsecret token passwordHash => db_of (RedeemInvite now rid rsecret token passwordHash d)
  | Op_personal rid rsecret by_ org name scopes expires => db_of (CreatePersonalKey now rid rsecret by_ org name scopes expires d)
  | Op_revoke_personal by_ id => RevokePersonalKey now by_ id d
  | Op_put_policy name maxLifetime => PutPolicy name maxLifetime d
  | Op_delete_policy name => DeletePolicy name d
  | Op_assign user tenant name => AssignPolicy now user tenant name d
  | Op_record user tenant => Ok (record_work now user tenant d)
  end.

(** One after the other, each at its moment; a refused one changes nothing. *)
Fixpoint id_run (ops : list (Z * id_op)) (d : db) : db :=
  match ops with
  | [] => d
  | (now, o) :: ops => id_run ops (match id_step now o d with Ok d' => d' | Err _ => d end)
  end.
End identity.
