(* ===== verification/IdentityKeys.v ===== *)
(** * A key never outlives, or outreaches, what it was made under

    Sign-ins' keys and personal keys hang from a root. The invariant of the
    keys' rows, and that every transaction keeps it. *)
From S2P Require Import Prelude GoSort GoStrings Api Spec ServiceSpec Access Identity.

(** ** The rows each transaction leaves *)
Section rows.
Context `{Unicode} (hashSecret : string → string).

Lemma keys_make_org now t d : db_keys (make_org now t d) = db_keys d.
Proof. unfold make_org. destruct (db_orgs d !! t); [done|]. by destruct (String.eqb t ""). Qed.
Lemma keys_make_user now u d : db_keys (make_user now u d) = db_keys d.
Proof. unfold make_user. destruct (db_users _ !! u); cbn; by rewrite keys_make_org. Qed.
Lemma keys_claim_email now u e p l d d' : claim_email now u e p l d = Ok d' → db_keys d' = db_keys d.
Proof. unfold claim_email. rewrite guard_ok. by intros [_ [= <-]]. Qed.
Lemma keys_ownFirstOrg now u d d' : ownFirstOrg now u d = Ok d' → db_keys d' = db_keys d.
Proof.
  unfold ownFirstOrg. destruct (db_orgs d !! u.1); [|by intros [= <-]]. destruct (_ && _); [|by intros [= <-]].
  rewrite guard_ok. by intros [_ [= <-]].
Qed.

Lemma insertKey_keys now k d d' :
  insertKey now k d = Ok d' →
  db_keys d' = <[k_ID k := row_of (k_Tenant k, k_User k) k]> (db_keys d) ∧ db_keys d !! k_ID k = None ∧
  (∀ i r, db_keys d !! i = Some r → kr_Hash r ≠ k_Hash k) ∧ (k_Parent k ≠ ""%string → is_Some (db_keys d !! k_Parent k)).
Proof.
  unfold insertKey. rewrite guard_ok. intros [_ Hi]. apply bind_ok in Hi as (d2 & Hd2 & Hi).
  assert (db_keys d2 = db_keys d) as Hk2.
  { destruct (negb (String.eqb (k_Email k) "")); [|injection Hd2 as <-; apply keys_make_user].
    apply keys_claim_email in Hd2 as ->. apply keys_make_user. }
  rewrite !guard_ok in Hi. destruct Hi as ([Ht _]%orb_false_iff & Hp & Hd').
  unfold taken_id in Ht. rewrite Hk2 in Ht. apply orb_false_iff in Ht as [Hid%bool_decide_eq_false Hh].
  assert (db_keys d' = <[k_ID k := row_of (k_Tenant k, k_User k) k]> (db_keys d)) as Hkeys.
  { destruct (String.eqb (k_Parent k) ""); [apply keys_ownFirstOrg in Hd' as ->|injection Hd' as <-]; cbn; by rewrite Hk2. }
  split_and!; [done|by apply eq_None_not_Some| |].
  - intros i r Hr E. assert (existsb (λ '(_, k0), String.eqb (kr_Hash k0) (k_Hash k)) (map_to_list (db_keys d)) = true); [|congruence].
    apply existsb_exists. exists (i, r). split; [by apply list_elem_of_In, elem_of_map_to_list|by apply String.eqb_eq].
  - intros Hne. apply String.eqb_neq in Hne. rewrite Hne, Hk2 in Hp. cbn in Hp. by apply negb_false_iff, bool_decide_eq_true in Hp.
Qed.

Lemma lookup_children f id ks i : children f id ks !! i = (λ k, if is_child id k then f k else k) <$> ks !! i.
Proof. unfold children. apply lookup_fmap. Qed.

Lemma lookup_alter_if {A} (f : A → A) i j (m : gmap string A) :
  alter f i m !! j = (λ k, if decide (i = j) then f k else k) <$> m !! j.
Proof.
  destruct (decide (i = j)) as [->|Hne].
  - rewrite lookup_alter_eq. by destruct (m !! j).
  - rewrite lookup_alter_ne by done. by destruct (m !! j).
Qed.

Lemma lookup_delete_keys gone d i r :
  db_keys (delete_keys gone d) !! i = Some r ↔
  db_keys d !! i = Some r ∧ gone i r = false ∧ ∀ p q, kr_Parent r = Some p → db_keys d !! p = Some q → gone p q = false.
Proof.
  unfold delete_keys. cbn. rewrite map_lookup_filter_Some. cbn. rewrite orb_false_iff, bool_decide_eq_false.
  assert (∀ j, j ∈ dom (filter (λ ik : string * krow, gone ik.1 ik.2 = true) (db_keys d)) ↔
    ∃ q, db_keys d !! j = Some q ∧ gone j q = true) as Hdom.
  { intros j. rewrite elem_of_dom. unfold is_Some. setoid_rewrite map_lookup_filter_Some. done. }
  split.
  - intros (Hr & Hi & Hp). split; [done|]. split.
    + destruct (gone i r) eqn:E; [|done]. destruct Hi. apply Hdom. by exists r.
    + intros p q Ep Hq. rewrite Ep in Hp. apply bool_decide_eq_false in Hp. destruct (gone p q) eqn:E; [|done].
      destruct Hp. apply Hdom. by exists q.
  - intros (Hr & Hg & Hp). split; [done|]. split.
    + intros (q & Hq & E)%Hdom. simplify_eq. congruence.
    + destruct (kr_Parent r) as [p|]; [|done]. apply bool_decide_eq_false. intros (q & Hq & E)%Hdom.
      specialize (Hp p q eq_refl Hq). congruence.
Qed.
End rows.

(** ** The invariant *)
Definition expires_le (a b : option Z) : Prop :=
  match b with None => True | Some t => match a with Some s => s ≤ t | None => False end end.

(** [c], made under [r]. *)
Record under (r c : krow) : Prop := {
  un_root : kr_Parent r = None;
  un_user : kr_User c = kr_User r;
  un_revoked : kr_Revoked r = true → kr_Revoked c = true;
  un_expires : expires_le (kr_Expires c) (kr_Expires r);
  un_account : kr_Account c = false;
  un_restore : kr_Restore c = None;
  un_signin : kr_Personal c = false → kr_Scopes c = kr_Scopes r ∧ kr_Org c = None;
  un_personal : kr_Personal c = true → (ScopeAdmin ∉ kr_Scopes c) ∧ is_Some (kr_Org c) ∧
    ∀ sc, sc ∈ kr_Scopes c → sc ∈ kr_Scopes r ∨ ScopeAdmin ∈ kr_Scopes r
}.

Record keys_ok (ks : gmap string krow) : Prop := {
  ko_child : ∀ id c p, ks !! id = Some c → kr_Parent c = Some p → ∃ r, ks !! p = Some r ∧ under r c;
  ko_root : ∀ id r, ks !! id = Some r → kr_Parent r = None → kr_Personal r = false ∧ kr_Org r = None;
  ko_id : ∀ id, is_Some (ks !! id) → id ≠ ""%string;
  ko_hash : ∀ i j a b, ks !! i = Some a → ks !! j = Some b → kr_Hash a = kr_Hash b → i = j
}.

Lemma keys_ok_empty : keys_ok ∅.
Proof. split; intros *; rewrite ?lookup_empty; try done. Qed.

(** A change of what revokes and ends keys, and of nothing else. *)
Definition same_key (a b : krow) : Prop :=
  kr_Hash b = kr_Hash a ∧ kr_User b = kr_User a ∧ kr_Scopes b = kr_Scopes a ∧ kr_Account b = kr_Account a ∧
  kr_Parent b = kr_Parent a ∧ kr_Personal b = kr_Personal a ∧ kr_Org b = kr_Org a.

Lemma keys_ok_update (upd : string → krow → krow) ks ks' :
  keys_ok ks → (∀ i, ks' !! i = upd i <$> ks !! i) →
  (∀ i k, ks !! i = Some k → same_key k (upd i k) ∧ (is_Some (kr_Parent k) → kr_Restore (upd i k) = kr_Restore k)) →
  (∀ p r i c, ks !! p = Some r → ks !! i = Some c → kr_Parent c = Some p → under r c →
    (kr_Revoked (upd p r) = true → kr_Revoked (upd i c) = true) ∧ expires_le (kr_Expires (upd i c)) (kr_Expires (upd p r))) →
  keys_ok ks'.
Proof.
  intros Hok Hl Hsame Hup.
  assert (∀ i k', ks' !! i = Some k' → ∃ k, ks !! i = Some k ∧ k' = upd i k) as Hinv.
  { intros i k' E. rewrite Hl in E. destruct (ks !! i) as [k|]; [|done]. injection E as <-. by exists k. }
  split.
  - intros i c' p (c & Hc & ->)%Hinv Ep. destruct (Hsame i c Hc) as ((_ & Hcu & Hcs & Hca & Hcp & Hcpe & Hco) & Hcr).
    rewrite Hcp in Ep. destruct (ko_child ks Hok i c p Hc Ep) as (r & Hr & Hu). exists (upd p r).
    split; [by rewrite Hl, Hr|]. destruct (Hsame p r Hr) as ((_ & Hru & Hrs & _ & Hrp & _ & _) & _).
    destruct (Hup p r i c Hr Hc Ep Hu) as [H1 H2]. specialize (Hcr (mk_is_Some _ _ Ep)).
    destruct Hu as [U1 U2 U3 U4 U5 U6 U7 U8]. split; rewrite ?Hcu, ?Hcs, ?Hca, ?Hcp, ?Hcpe, ?Hco, ?Hru, ?Hrs, ?Hrp, ?Hcr; try done.
  - intros i r' (r & Hr & ->)%Hinv Ep. destruct (Hsame i r Hr) as ((_ & _ & _ & _ & Hp & Hpe & Ho) & _).
    rewrite Hp in Ep. rewrite Hpe, Ho. by apply (ko_root ks Hok i r).
  - intros i [k' (k & Hk & _)%Hinv]. by apply (ko_id ks Hok i).
  - intros i j a' b' (a & Ha & ->)%Hinv (b & Hb & ->)%Hinv E. destruct (Hsame i a Ha) as ((Ea & _) & _).
    destruct (Hsame j b Hb) as ((Eb & _) & _). rewrite Ea, Eb in E. by apply (ko_hash ks Hok i j a b).
Qed.

Lemma keys_ok_insert id row ks :
  keys_ok ks → ks !! id = None → id ≠ ""%string → (∀ i r, ks !! i = Some r → kr_Hash r ≠ kr_Hash row) →
  match kr_Parent row with
  | None => kr_Personal row = false ∧ kr_Org row = None
  | Some p => ∃ r, ks !! p = Some r ∧ under r row
  end → keys_ok (<[id := row]> ks).
Proof.
  intros Hok Hnew Hne Hh Hrow.
  assert (∀ p r, ks !! p = Some r → <[id := row]> ks !! p = Some r) as Hkeep
    by (intros p r Hr; rewrite lookup_insert_ne; [done|intros ->; congruence]).
  split.
  - intros i c p Hc Ep. apply lookup_insert_Some in Hc as [[-> ->]|[Hni Hc]].
    + rewrite Ep in Hrow. destruct Hrow as (r & Hr & Hu). exists r. split; [by apply Hkeep|done].
    + destruct (ko_child ks Hok i c p Hc Ep) as (r & Hr & Hu). exists r. split; [by apply Hkeep|done].
  - intros i r Hr Ep. apply lookup_insert_Some in Hr as [[-> ->]|[Hni Hr]]; [by rewrite Ep in Hrow|by apply (ko_root ks Hok i r)].
  - intros i Hi. apply lookup_insert_is_Some in Hi as [<-|[_ Hi]]; [done|by apply (ko_id ks Hok)].
  - intros i j a b Ha Hb E. apply lookup_insert_Some in Ha as [[<- <-]|[Hi Ha]], Hb as [[<- <-]|[Hj Hb]]; try done.
    + by destruct (Hh j b Hb).
    + by destruct (Hh i a Ha).
    + by apply (ko_hash ks Hok i j a b).
Qed.

Lemma keys_ok_delete gone d : keys_ok (db_keys d) → keys_ok (db_keys (delete_keys gone d)).
Proof.
  intros Hok. split.
  - intros i c p (Hc & Hg & Hp)%lookup_delete_keys Ep. destruct (ko_child _ Hok i c p Hc Ep) as (r & Hr & Hu). exists r.
    split; [|done]. apply lookup_delete_keys. split; [done|]. split; [by apply (Hp p)|].
    intros q s Eq. pose proof (un_root _ _ Hu). congruence.
  - intros i r (Hr & _)%lookup_delete_keys. by apply (ko_root _ Hok i).
  - intros i [r (Hr & _)%lookup_delete_keys]. by apply (ko_id _ Hok i).
  - intros i j a b (Ha & _)%lookup_delete_keys (Hb & _)%lookup_delete_keys. by apply (ko_hash _ Hok).
Qed.

Section steps.
Context `{Unicode} (hashSecret : string → string).

Lemma newID_nonempty p r : p ≠ ""%string → newID p r ≠ ""%string.
Proof. unfold newID. by destruct p. Qed.

Lemma keys_ok_insertKey now k d d' :
  keys_ok (db_keys d) → insertKey now k d = Ok d' → k_ID k ≠ ""%string →
  (k_Parent k = ""%string → k_Personal k = false ∧ k_Bound k = false) →
  (k_Parent k ≠ ""%string → ∀ r, db_keys d !! k_Parent k = Some r → under r (row_of (k_Tenant k, k_User k) k)) →
  keys_ok (db_keys d').
Proof.
  intros Hok (-> & Hnew & Hh & Hp)%insertKey_keys Hne Hroot Hchild.
  apply keys_ok_insert; try done. cbn. destruct (String.eqb_spec (k_Parent k) "") as [E|E].
  - destruct (Hroot E) as [-> ->]. done.
  - destruct (Hp E) as [r Hr]. exists r. split; [done|]. by apply Hchild.
Qed.

Lemma keys_ok_alter_children f g id ks :
  keys_ok ks →
  (∀ k, ks !! id = Some k → same_key k (f k) ∧ (is_Some (kr_Parent k) → kr_Restore (f k) = kr_Restore k) ∧
     (∀ p r, kr_Parent k = Some p → ks !! p = Some r → under r k →
        (kr_Revoked r = true → kr_Revoked (f k) = true) ∧ expires_le (kr_Expires (f k)) (kr_Expires r)) ∧
     (kr_Parent k = None → ∀ i c, ks !! i = Some c → kr_Parent c = Some id → under k c →
        same_key c (g c) ∧ kr_Restore (g c) = kr_Restore c ∧
        (kr_Revoked (f k) = true → kr_Revoked (g c) = true) ∧ expires_le (kr_Expires (g c)) (kr_Expires (f k)))) →
  (ks !! id = None → False) →
  keys_ok (children g id (alter f id ks)).
Proof.
  intros Hok Hf Hin. destruct (ks !! id) as [kid|] eqn:Eid; [|by destruct Hin].
  destruct (Hf kid eq_refl) as (Hs & Hr & Hpar & Hch).
  assert (∀ i c, ks !! i = Some c → kr_Parent c = Some id → kr_Parent kid = None ∧ under kid c ∧ i ≠ id) as Hroot.
  { intros i c Hc Ep. destruct (ko_child ks Hok i c id Hc Ep) as (r & Hr' & Hu). rewrite Eid in Hr'. injection Hr' as <-.
    split; [apply Hu|]. split; [done|]. intros ->. rewrite Eid in Hc. injection Hc as <-. pose proof (un_root _ _ Hu). congruence. }
  apply (keys_ok_update (λ i k, let k := if decide (id = i) then f k else k in if is_child id k then g k else k) ks).
  - done.
  - intros i. rewrite lookup_children, lookup_alter_if, <- option_fmap_compose. done.
  - intros i k Hk. cbn. destruct (decide (id = i)) as [<-|Hne].
    + assert (k = kid) as -> by congruence. destruct Hs as (? & ? & ? & ? & Ep & ? & ?).
      assert (is_child id (f kid) = false) as ->.
      { unfold is_child. apply bool_decide_eq_false. rewrite Ep. intros E. by destruct (Hroot id kid Eid E) as (_ & _ & []). }
      by split.
    + destruct (is_child id k) eqn:Ec; [|by repeat split]. apply bool_decide_eq_true in Ec.
      destruct (Hroot i k Hk Ec) as (Hn & Hu & _). destruct (Hch Hn i k Hk Ec Hu) as (Hs' & Hr' & _). split; [done|]. intros _. done.
  - intros p r i c Hp Hc Ep Hu. cbn.
    assert (is_child id (if decide (id = p) then f r else r) = false) as ->.
    { unfold is_child. apply bool_decide_eq_false. destruct (decide (id = p)) as [<-|Hne].
      - assert (r = kid) as -> by congruence. destruct Hs as (_ & _ & _ & _ & -> & _). pose proof (un_root _ _ Hu). congruence.
      - pose proof (un_root _ _ Hu). congruence. }
    destruct (decide (id = i)) as [<-|Hni].
    + assert (c = kid) as -> by congruence. destruct Hs as (_ & _ & _ & _ & Epf & _).
      assert (is_child id (f kid) = false) as ->.
      { unfold is_child. apply bool_decide_eq_false. rewrite Epf. intros E. by destruct (Hroot id kid Eid E) as (_ & _ & []). }
      assert (id ≠ p) by (intros <-; by destruct (Hroot id kid Eid Ep) as (_ & _ & [])). rewrite decide_False by done.
      by apply (Hpar p r).
    + unfold is_child. destruct (bool_decide (kr_Parent c = Some id)) eqn:Ec.
      * apply bool_decide_eq_true in Ec. assert (p = id) as -> by congruence. rewrite decide_True by done.
        assert (r = kid) as -> by congruence. apply (Hch (un_root _ _ Hu) i c Hc Ec Hu).
      * apply bool_decide_eq_false in Ec. assert (id ≠ p) by congruence. rewrite decide_False by done. split; apply Hu.
Qed.

Lemma keys_ok_revoke restore id ks :
  keys_ok ks → is_Some (ks !! id) → (∀ k, ks !! id = Some k → is_Some (kr_Parent k) → restore = None) →
  keys_ok (children (set_Revoked true) id (alter (revoke_row restore) id ks)).
Proof.
  intros Hok [k0 Hin] Hrest. apply keys_ok_alter_children; [done| |congruence]. intros k Hk. split_and!; [done| | |].
  - intros Hp. cbn. rewrite (Hrest k Hk Hp). destruct Hp as [p Hp].
    by destruct (ko_child _ Hok id k p Hk Hp) as (r & _ & Hu); rewrite (un_restore _ _ Hu).
  - intros p r Hp Hr Hu. split; [done|]. apply Hu.
  - intros _ i c Hc Hp Hu. split_and!; try done. apply Hu.
Qed.

Lemma children_id id ks : children (λ k, k) id ks = ks.
Proof. apply map_eq. intros i. rewrite lookup_children. destruct (ks !! i) as [k|]; [|done]. cbn. by destruct (is_child id k). Qed.

Lemma keys_ok_restore now id d :
  keys_ok (db_keys d) → ∀ d', RestoreKey now id d = Ok d' → keys_ok (db_keys d').
Proof.
  intros Hok d'. unfold RestoreKey. intros (k & Hk%of_option_ok & Hd')%bind_ok. rewrite !guard_ok in Hd'.
  destruct Hd' as (Hr & Hs & _ & [= <-]). cbn. rewrite <- (children_id id (alter restored id (db_keys d))).
  apply negb_false_iff in Hr, Hs.
  assert (kr_Restore k ≠ None) as Hne.
  { unfold Suspended in Hs. cbn in Hs. rewrite Hr in Hs. cbn in Hs. by destruct (kr_Restore k). }
  assert (kr_Parent k = None) as Hp.
  { destruct (kr_Parent k) as [p|] eqn:Ep; [|done]. destruct (ko_child _ Hok id k p Hk Ep) as (r & _ & Hu).
    by destruct Hne, Hu. }
  apply keys_ok_alter_children; [done| |congruence]. intros k' Hk'. assert (k' = k) as -> by congruence. split_and!; [done| | |].
  - rewrite Hp. by intros [? ?].
  - congruence.
  - intros _ i c Hc Hpc Hu. split_and!; try done. apply Hu.
Qed.

Lemma expires_le_earlier a e : expires_le (earlier a e) (Some a).
Proof. unfold earlier. destruct e as [t|]; cbn; [|lia]. destruct (Z.ltb_spec a t); cbn; lia. Qed.

Lemma keys_ok_expiry id at_ d d' : keys_ok (db_keys d) → SetKeyExpiry id at_ d = Ok d' → keys_ok (db_keys d').
Proof.
  intros Hok. unfold SetKeyExpiry. intros (k & Hk%of_option_ok & Hd')%bind_ok. rewrite guard_ok in Hd'.
  destruct Hd' as [_ Hd']. set (e := match kr_Parent k ≫= _ with Some _ => _ | None => _ end) in Hd'.
  assert (db_keys d' = children (match e with Some a => λ c, set_Expires (earlier a (kr_Expires c)) c | None => λ c, c end) id
    (alter (set_Expires e) id (db_keys d))) as ->.
  { destruct e; injection Hd' as <-; cbn; [done|]. by rewrite children_id. }
  apply keys_ok_alter_children; [done| |congruence]. intros k' Hk'. assert (k' = k) as -> by congruence. split_and!; [done|done| |].
  - intros p r Hp Hr Hu. split; [apply Hu|]. cbn. subst e. rewrite Hp. cbn. rewrite Hr. cbn.
    destruct (kr_Expires r) as [t|]; [|done]. destruct (micros <$> at_) as [a|]; cbn; [|lia].
    destruct (Z.ltb_spec t a); cbn; lia.
  - intros _ i c Hc Hp Hu. destruct e as [a|]; split_and!; try done; try apply Hu. apply expires_le_earlier.
Qed.

Lemma key_of_Some d id k : key_of d id = Some k → ∃ r, db_keys d !! id = Some r ∧ k = scanKey d id r.
Proof. unfold key_of. destruct (db_keys d !! id) as [r|]; [|done]. intros [= <-]. by exists r. Qed.

Lemma scan_parent d id r : keys_ok (db_keys d) → db_keys d !! id = Some r → k_Parent (scanKey d id r) = ""%string → kr_Parent r = None.
Proof.
  intros Hok Hr. cbn. destruct (kr_Parent r) as [p|] eqn:Ep; [|done]. cbn. intros ->.
  destruct (ko_child _ Hok id r _ Hr Ep) as (q & Hq & _). by destruct (ko_id _ Hok ""%string (mk_is_Some _ _ Hq)).
Qed.

Lemma keys_ok_SignIn now rid rsecret account ttl d k d' :
  keys_ok (db_keys d) → SignIn hashSecret now rid rsecret account ttl d = Ok (k, d') → keys_ok (db_keys d').
Proof.
  intros Hok. unfold SignIn. intros (acct & (r & Hr & ->)%of_option_ok%key_of_Some & Hd)%bind_ok. rewrite !guard_ok in Hd.
  destruct Hd as (He & Ha%negb_false_iff & Hd). apply bind_ok in Hd as (d2 & Hi & [= <- <-]).
  apply String.eqb_neq in He.
  assert (kr_Account r = true) as Hacct.
  { cbn in He. destruct (db_users d !! kr_User r); [|done]. by destruct (kr_Account r). }
  assert (kr_Parent r = None) as Hp.
  { destruct (kr_Parent r) as [p|] eqn:Ep; [|done]. destruct (ko_child _ Hok _ _ _ Hr Ep) as (q & _ & Hu).
    pose proof (un_account _ _ Hu). congruence. }
  unfold Active in Ha. cbn [scanKey k_Revoked k_Expires] in Ha. apply andb_prop in Ha as [Hrev%negb_true_iff _].
  eapply keys_ok_insertKey; [|exact Hi|by apply newID_nonempty| |].
  - by apply keys_ok_delete.
  - cbn. intros ->. by destruct (ko_id _ Hok ""%string (mk_is_Some _ _ Hr)).
  - intros _ r' Hr'. cbn [signin_key k_Parent scanKey k_ID] in Hr'.
    apply lookup_delete_keys in Hr' as (Hr' & _). cbn in Hr'. assert (r' = r) as -> by congruence.
    split; try done; cbn.
    + by destruct (kr_User r).
    + rewrite Hrev. done.
    + destruct (kr_Expires r) as [t|]; cbn; [|done]. match goal with |- context [if ?b then _ else _] => destruct b eqn:E end; lia.
Qed.

Lemma personalRoot_ok now by_ d caller root :
  keys_ok (db_keys d) → personalRoot now by_ d = Ok (caller, root) →
  ∃ r, db_keys d !! k_ID root = Some r ∧ root = scanKey d (k_ID root) r ∧ kr_Parent r = None ∧ kr_Revoked r = false.
Proof.
  intros Hok. unfold personalRoot. intros (c & (rc & Hc & ->)%of_option_ok%key_of_Some & Hp)%bind_ok. rewrite guard_ok in Hp.
  destruct Hp as [_ Hp]. apply bind_ok in Hp as (rt & Hrt%of_option_ok & Hp). rewrite guard_ok in Hp.
  destruct Hp as [Ha%negb_false_iff [= <- <-]].
  destruct (String.eqb_spec (k_Parent (scanKey d by_ rc)) "") as [E|E];
    apply key_of_Some in Hrt as (r & Hr & ->); exists r; (split; [done|]); (split; [done|]);
    (split; [|unfold Active in Ha; cbn in Ha; by apply andb_prop in Ha as [?%negb_true_iff _]]).
  - cbn in Hr. rewrite Hc in Hr. injection Hr as <-. by eapply scan_parent.
  - cbn in E, Hr. destruct (kr_Parent rc) as [p|] eqn:Ep; [|done]. cbn in Hr.
    destruct (ko_child _ Hok by_ rc p Hc Ep) as (q & Hq & Hu). rewrite Hq in Hr. injection Hr as <-. apply Hu.
Qed.

Lemma keys_ok_personal now rid rsecret by_ org name scopes expires d k d' :
  keys_ok (db_keys d) → CreatePersonalKey hashSecret now rid rsecret by_ org name scopes expires d = Ok (k, d') →
  keys_ok (db_keys d').
Proof.
  intros Hok. unfold CreatePersonalKey. rewrite !guard_ok. intros (_ & Hadm%bool_decide_eq_false & _ & Hd).
  apply bind_ok in Hd as ([caller root] & Hroot & Hd). apply (personalRoot_ok _ _ _ _ _ Hok) in Hroot as (r & Hr & Er & Hp & Hrev).
  rewrite guard_ok in Hd. destruct Hd as [Hh%negb_false_iff Hd]. apply bind_ok in Hd as (o & _ & Hd). rewrite !guard_ok in Hd.
  destruct Hd as (He & _ & Hd). apply bind_ok in Hd as (d2 & Hi & [= <- <-]).
  eapply keys_ok_insertKey; [exact Hok|exact Hi|by apply newID_nonempty| |].
  - cbn. intros E. rewrite E in Hr. by destruct (ko_id _ Hok ""%string (mk_is_Some _ _ Hr)).
  - intros _ r' Hr'. cbn in Hr'. assert (r' = r) as -> by congruence. split; try done; cbn.
    + rewrite Er. cbn. by destruct (kr_User r).
    + congruence.
    + rewrite Er in He. cbn in He. destruct (kr_Expires r) as [t|]; [|done]. cbn. lia.
    + intros _. split; [done|]. split; [by eexists|]. intros sc Hsc. rewrite forallb_forall in Hh.
      specialize (Hh sc). rewrite <- list_elem_of_In in Hh. specialize (Hh Hsc). apply andb_prop in Hh as [Hh _].
      unfold holds in Hh. rewrite Er in Hh. cbn in Hh. rewrite orb_true_iff, andb_true_iff, !bool_decide_eq_true in Hh. naive_solver.
Qed.

Lemma keys_assignPolicy now u name d : db_keys (assignPolicy now u name d) = db_keys d.
Proof. unfold assignPolicy. destruct (String.eqb name ""); [done|]. cbn. apply keys_make_user. Qed.

Lemma keys_ok_redeem now rid rsecret token pw d k d' :
  keys_ok (db_keys d) → RedeemInvite hashSecret now rid rsecret token pw d = Ok (k, d') → keys_ok (db_keys d').
Proof.
  intros Hok. unfold RedeemInvite. intros ([inv iv] & _ & Hd)%bind_ok. apply bind_ok in Hd as ([k1 d1] & Hd & [= <- <-]). cbn.
  destruct (iv_Key iv) as [a|].
  - apply bind_ok in Hd as (k0 & _ & Hd). rewrite guard_ok in Hd. destruct Hd as [_ [= <- <-]]. cbn [db_keys on_keys].
    set (d2 := delete_keys _ _). assert (keys_ok (db_keys d2)) as Hok2 by (by apply keys_ok_delete).
    apply (keys_ok_update (λ i k, if is_child a k then if kr_Personal k then set_Revoked true k else k else k) (db_keys d2)).
    + done.
    + intros i. apply lookup_children.
    + intros i x Hx. destruct (is_child a x); [|done]. by destruct (kr_Personal x).
    + intros p r i c Hp Hc Ep Hu. assert (is_child a r = false) as ->.
      { apply bool_decide_eq_false. pose proof (un_root _ _ Hu). congruence. }
      destruct (is_child a c); [|split; apply Hu]. destruct (kr_Personal c); cbn; split; try done; apply Hu.
  - apply bind_ok in Hd as (? & _ & Hd). rewrite guard_ok in Hd. destruct Hd as [_ Hd].
    apply bind_ok in Hd as (d2 & Hi & [= <- <-]). eapply keys_ok_insertKey; [|exact Hi|by apply newID_nonempty|done|done].
    destruct (String.eqb (iv_Policy iv) ""); [done|]. by rewrite keys_assignPolicy.
Qed.

Lemma keys_insertInvite now id iv d d' : insertInvite now id iv d = Ok d' → db_keys d' = db_keys d.
Proof. unfold insertInvite. rewrite guard_ok. intros [_ [= <-]]. apply keys_make_org. Qed.

Lemma keys_CreateInvite now rid rt req d iv d' : CreateInvite hashSecret now rid rt req d = Ok (iv, d') → db_keys d' = db_keys d.
Proof.
  unfold CreateInvite. intros ([e i] & _ & Hd)%bind_ok. cbv zeta in Hd. rewrite guard_ok in Hd. destruct Hd as [_ Hd].
  apply bind_ok in Hd as (? & _ & Hd). apply bind_ok in Hd as (? & _ & Hd). rewrite guard_ok in Hd. destruct Hd as [_ Hd].
  apply bind_ok in Hd as (d2 & Hi & [= _ <-]). by apply keys_insertInvite in Hi.
Qed.

Lemma db_of_ok {A} (r : tx (A * db)) d : db_of r = Ok d → ∃ a, r = Ok (a, d).
Proof. destruct r as [[a d0]|]; [|done]. intros [= ->]. by exists a. Qed.

(** The transactions that write no key. *)
Definition writes_keys (o : id_op) : bool :=
  match o with
  | Op_org _ _ _ _ | Op_set_member _ _ _ _ | Op_remove_member _ _ _ | Op_invite _ _ _ | Op_reset _ _ _ _ | Op_renew _ _ _
  | Op_withdraw _ | Op_put_policy _ _ | Op_delete_policy _ | Op_assign _ _ _ | Op_record _ _ => false
  | _ => true
  end.

Lemma keys_unwritten now o d d' : writes_keys o = false → id_step hashSecret now o d = Ok d' → db_keys d' = db_keys d.
Proof.
  destruct o; try done; intros _; cbn [id_step]; try (intros [x Hd]%db_of_ok; revert Hd).
  - unfold CreateOrg. cbv zeta. rewrite !guard_ok. intros (_ & _ & _ & _ & _ & [= <-]). cbn. by rewrite keys_make_user.
  - unfold SetMember. intros ([key og] & _ & Hd)%bind_ok. destruct (db_members d !! _).
    + rewrite guard_ok in Hd. by destruct Hd as [_ [= _ <-]].
    + apply bind_ok in Hd as (? & _ & [= _ <-]). cbn. by rewrite keys_make_user.
  - unfold RemoveMember. intros ([key og] & _ & Hd)%bind_ok. apply bind_ok in Hd as (? & _ & Hd). rewrite guard_ok in Hd.
    by destruct Hd as [_ [= <-]].
  - apply keys_CreateInvite.
  - unfold CreateResetInvite. intros (k & _ & Hd)%bind_ok. rewrite !guard_ok in Hd. destruct Hd as (_ & _ & Hd).
    apply bind_ok in Hd as (d2 & Hi & [= _ <-]). by apply keys_insertInvite in Hi as ->.
  - unfold RenewInvite. intros (iv & _ & Hd)%bind_ok. rewrite guard_ok in Hd. by destruct Hd as [_ [= <-]].
  - unfold RevokeInvite. rewrite guard_ok. by intros [_ [= <-]].
  - unfold PutPolicy. rewrite !guard_ok. by intros (_ & _ & [= <-]).
  - unfold DeletePolicy. rewrite !guard_ok. by intros (_ & _ & [= <-]).
  - unfold AssignPolicy. rewrite !guard_ok. intros (_ & _ & _ & [= <-]). by rewrite keys_assignPolicy.
  - intros [= <-]. unfold record_work. cbn. destruct (_ || _); rewrite ?keys_make_user, ?keys_make_org; done.
Qed.

Lemma keys_step now o d d' : keys_ok (db_keys d) → id_step hashSecret now o d = Ok d' → keys_ok (db_keys d').
Proof.
  intros Hok Hstep. destruct (writes_keys o) eqn:Ew; [|by rewrite (keys_unwritten now o d d' Ew Hstep)].
  revert Hstep. destruct o; try done; cbn [id_step]; try (intros [x Hd]%db_of_ok; revert Hd).
  - unfold CreateKeyExpiring. cbv zeta. rewrite !guard_ok. intros (_ & _ & _ & _ & Hd). apply bind_ok in Hd as (? & _ & Hd).
    apply bind_ok in Hd as (d2 & Hi & [= _ <-]). eapply keys_ok_insertKey; [exact Hok|exact Hi|by apply newID_nonempty|done|done].
  - unfold RevokeKey. rewrite guard_ok. intros [Hin%negb_false_iff%bool_decide_eq_true [= <-]]. cbn. by apply keys_ok_revoke.
  - intros Hd. by apply keys_ok_expiry in Hd.
  - unfold SuspendKey. intros (k & Hk%of_option_ok & Hd)%bind_ok. rewrite !guard_ok in Hd.
    destruct Hd as (_ & _ & Hp%bool_decide_eq_false & [= <-]). cbn. apply keys_ok_revoke; [done|by eexists|].
    intros k' Hk' Hp'. assert (k' = k) as -> by congruence. done.
  - intros Hd. by apply keys_ok_restore in Hd.
  - intros Hd. by apply keys_ok_SignIn in Hd.
  - unfold SignOut. intros (k & _ & Hd)%bind_ok. rewrite guard_ok in Hd. destruct Hd as [_ [= <-]]. by apply keys_ok_delete.
  - unfold SetPassword. intros (k & _ & Hd)%bind_ok. rewrite guard_ok in Hd. destruct Hd as [_ [= <-]]. by apply keys_ok_delete.
  - intros Hd. by apply keys_ok_redeem in Hd.
  - intros Hd. by apply keys_ok_personal in Hd.
  - unfold RevokePersonalKey. intros ([c root] & _ & Hd)%bind_ok. apply bind_ok in Hd as (k & Hk%of_option_ok & Hd).
    rewrite guard_ok in Hd. destruct Hd as [Hc%negb_false_iff [= <-]]. cbn. apply andb_prop in Hc as [Hc%bool_decide_eq_true _].
    rewrite <- (children_id id (alter (revoke_row None) id (db_keys d))). apply keys_ok_alter_children; [done| |congruence].
    intros k' Hk'. assert (k' = k) as -> by congruence. destruct (ko_child _ Hok _ _ _ Hk Hc) as (r & Hr & Hu).
    split_and!; [done|intros _; cbn; by rewrite (un_restore _ _ Hu)| |congruence].
    intros p r' Hp Hr' Hu'. split; [done|apply Hu'].
Qed.

Lemma keys_run ops : ∀ d, keys_ok (db_keys d) → keys_ok (db_keys (id_run hashSecret ops d)).
Proof.
  induction ops as [|[now o] ops IH]; intros d Hok; [done|]. cbn. apply IH.
  destruct (id_step hashSecret now o d) as [d'|] eqn:E; [by eapply keys_step|done].
Qed.

(** What a key made under another is to it. *)
Record within (k root : Key) : Prop := {
  wi_root : k_Parent root = ""%string ∧ k_Personal root = false;
  wi_person : k_User k = k_User root ∧ k_Tenant k = k_Tenant root;
  wi_active : ∀ now, Active now k = true → Active now root = true;
  wi_scopes : ∀ scope, Can (principal_of k) scope = true → Can (principal_of root) scope = true;
  wi_personal : k_Personal k = true → Can (principal_of k) ScopeAdmin = false ∧ k_Bound k = true;
  wi_suspended : ∀ now, Suspended now k = false
}.

(** C22. A key never outlives, or outreaches, what it was made under. Whatever
    is done to the tables, in whatever order and at whatever moments, a
    sign-in's or a personal key is always of its root's user; it works only at
    moments its root does; it may do nothing its root may not; a personal key
    is no admin's and is bound to one organization; and neither can be
    suspended, so restoring the root brings none of them back. Two keys never
    share a secret's hash. *)
Theorem keys_never_outlive_root ops :
  let d := id_run hashSecret ops empty_db in
  (∀ id k, key_of d id = Some k → k_Parent k ≠ ""%string → ∃ root,
    key_of d (k_Parent k) = Some root ∧ within k root) ∧
  (∀ id id' k k', key_of d id = Some k → key_of d id' = Some k' → k_Hash k = k_Hash k' → id = id').
Proof.
  intros d. pose proof (keys_run ops empty_db keys_ok_empty) as Hok. fold d in Hok. split.
  - intros id k (c & Hc & ->)%key_of_Some Hne. cbn in Hne. destruct (kr_Parent c) as [p|] eqn:Ep; [|done].
    destruct (ko_child _ Hok id c p Hc Ep) as (r & Hr & [U1 U2 U3 U4 U5 U6 U7 U8]). exists (scanKey d p r).
    destruct (ko_root _ Hok p r Hr U1) as [Hpe _]. cbn. rewrite Ep. cbn. unfold key_of. rewrite Hr.
    split; [done|]. split; cbn; try (split; congruence).
    + by rewrite U1.
    + intros now. unfold Active. cbn. intros [Hrev%negb_true_iff Hex]%andb_prop. apply andb_true_iff. split.
      * apply negb_true_iff. destruct (kr_Revoked r); [|done]. by rewrite U3 in Hrev.
      * destruct (kr_Expires r) as [t|], (kr_Expires c) as [s|]; cbn in U4; try done. lia.
    + intros scope. rewrite !Can_spec. cbn. destruct (kr_Personal c).
      * destruct (U8 eq_refl) as (Hadm & _ & Hsub). intros [?|Hin]; [done|]. destruct (Hsub scope Hin); auto.
      * destruct (U7 eq_refl) as [-> _]. done.
    + intros E. destruct (U8 E) as (Hadm & Hbound & _). split; [|by apply bool_decide_eq_true].
      apply not_true_iff_false. rewrite Can_spec. cbn. naive_solver.
    + intros now. unfold Suspended. cbn. rewrite U6. destruct (kr_Revoked c); done.
  - intros id id' k k' (a & Ha & ->)%key_of_Some (b & Hb & ->)%key_of_Some E. by apply (ko_hash _ Hok id id' a b).
Qed.
End steps.
