(* ===== verification/SandboxStore.v ===== *)
(** * What the database keeps of sandboxes, volumes, snapshots, nodes and SSH
    (internal/gateway: sql_sandboxes.go, sql_ids.go ownerIDs, sql_store.go)

    Each record belongs to an organization and a user, found by name when it is
    written and named again when it is read. On PostgreSQL a store made for one
    tenant ([ForTenant]) is under row-level security: a statement sees only the
    tenant's rows and may write no other; [rls] says whether there is any. *)
From S2P Require Import Prelude GoSort GoStrings Api Spec ServiceSpec Access Identity.

(** ** Tables *)

(** The detail columns: a sandbox as its node last answered for it. *)
Record details := {
  dt_Name : string;
  dt_Image : string;
  dt_State : string;
  dt_Labels : gmap string string;
  dt_Network : NetworkPolicy;
  dt_LifetimeSecs : Z;
  dt_ExpiresAt : option Z;
  dt_IdleTimeoutSecs : Z;
  dt_CreatedAt : Z;
  dt_Updated : Z
}.
Record sandbox_row := {
  sw_org : string;
  sw_user : uid;
  sw_node : string;
  sw_CPUs : float64;
  sw_MemoryMB : Z;
  sw_DiskMB : Z;
  sw_recorded : Z;
  sw_details : option details;
  sw_terminated : option Z;
  sw_reason : string
}.
(** A volume's or a snapshot's. *)
Record owner_row := { rw_org : string; rw_user : uid; rw_node : string }.
Record ssh_row := {
  sh_user : uid; sh_fingerprint : string; sh_line : string; sh_sandbox : string; sh_created : Z }.
Record token_row := { tr_user : uid; tr_org : string; tr_sandbox : string; tr_expires : Z }.
Record NodeConfig := {
  nd_Endpoint : string; nd_TokenFile : string; nd_CAFile : string; nd_CertFile : string; nd_KeyFile : string }.

(** The tables of Identity, whose [db_work] is what the tables not kept here
    record; these; and as whom the store is asked. *)
Record store := {
  st_db : db;
  st_sandboxes : gmap string sandbox_row;
  st_volumes : gmap string owner_row;
  st_snapshots : gmap string owner_row;
  st_nodes : gmap string NodeConfig;
  st_ssh_keys : gmap string ssh_row;
  st_ssh_tokens : gmap string token_row;
  st_rls : bool;
  st_tenant : option string
}.

Definition on_db (f : db → db) (s : store) : store := {|
  st_db := f (st_db s); st_sandboxes := st_sandboxes s; st_volumes := st_volumes s; st_snapshots := st_snapshots s;
  st_nodes := st_nodes s; st_ssh_keys := st_ssh_keys s; st_ssh_tokens := st_ssh_tokens s; st_rls := st_rls s; st_tenant := st_tenant s |}.
Definition on_sandboxes (f : gmap string sandbox_row → gmap string sandbox_row) (s : store) : store := {|
  st_db := st_db s; st_sandboxes := f (st_sandboxes s); st_volumes := st_volumes s; st_snapshots := st_snapshots s;
  st_nodes := st_nodes s; st_ssh_keys := st_ssh_keys s; st_ssh_tokens := st_ssh_tokens s; st_rls := st_rls s; st_tenant := st_tenant s |}.
Definition on_volumes (f : gmap string owner_row → gmap string owner_row) (s : store) : store := {|
  st_db := st_db s; st_sandboxes := st_sandboxes s; st_volumes := f (st_volumes s); st_snapshots := st_snapshots s;
  st_nodes := st_nodes s; st_ssh_keys := st_ssh_keys s; st_ssh_tokens := st_ssh_tokens s; st_rls := st_rls s; st_tenant := st_tenant s |}.
Definition on_snapshots (f : gmap string owner_row → gmap string owner_row) (s : store) : store := {|
  st_db := st_db s; st_sandboxes := st_sandboxes s; st_volumes := st_volumes s; st_snapshots := f (st_snapshots s);
  st_nodes := st_nodes s; st_ssh_keys := st_ssh_keys s; st_ssh_tokens := st_ssh_tokens s; st_rls := st_rls s; st_tenant := st_tenant s |}.
Definition on_nodes (f : gmap string NodeConfig → gmap string NodeConfig) (s : store) : store := {|
  st_db := st_db s; st_sandboxes := st_sandboxes s; st_volumes := st_volumes s; st_snapshots := st_snapshots s;
  st_nodes := f (st_nodes s); st_ssh_keys := st_ssh_keys s; st_ssh_tokens := st_ssh_tokens s; st_rls := st_rls s; st_tenant := st_tenant s |}.
Definition on_ssh_keys (f : gmap string ssh_row → gmap string ssh_row) (s : store) : store := {|
  st_db := st_db s; st_sandboxes := st_sandboxes s; st_volumes := st_volumes s; st_snapshots := st_snapshots s;
  st_nodes := st_nodes s; st_ssh_keys := f (st_ssh_keys s); st_ssh_tokens := st_ssh_tokens s; st_rls := st_rls s; st_tenant := st_tenant s |}.
Definition on_ssh_tokens (f : gmap string token_row → gmap string token_row) (s : store) : store := {|
  st_db := st_db s; st_sandboxes := st_sandboxes s; st_volumes := st_volumes s; st_snapshots := st_snapshots s;
  st_nodes := st_nodes s; st_ssh_keys := st_ssh_keys s; st_ssh_tokens := f (st_ssh_tokens s); st_rls := st_rls s; st_tenant := st_tenant s |}.
Definition as_tenant (t : option string) (s : store) : store := {|
  st_db := st_db s; st_sandboxes := st_sandboxes s; st_volumes := st_volumes s; st_snapshots := st_snapshots s;
  st_nodes := st_nodes s; st_ssh_keys := st_ssh_keys s; st_ssh_tokens := st_ssh_tokens s; st_rls := st_rls s; st_tenant := t |}.

Definition empty_store (rls : bool) : store := {|
  st_db := empty_db; st_sandboxes := ∅; st_volumes := ∅; st_snapshots := ∅; st_nodes := ∅; st_ssh_keys := ∅; st_ssh_tokens := ∅;
  st_rls := rls; st_tenant := None |}.

Inductive sandbox_store_error := Failed | BadRecord | ErrKeyTaken | ErrKeyRegistered | NoSuchSSHKey | ErrNoSuchNode.
Abbreviation stx A := (result sandbox_store_error A).

(** ** Row-level security *)
Definition row_visible (s : store) (org : string) : bool :=
  negb (st_rls s) || match st_tenant s with None => true | Some t => String.eqb org t end.

Definition seen_sandboxes (s : store) : gmap string sandbox_row :=
  filter (λ ir, row_visible s (sw_org ir.2) = true) (st_sandboxes s).
Definition seen_owners (s : store) (rows : gmap string owner_row) : gmap string owner_row :=
  filter (λ ir, row_visible s (rw_org ir.2) = true) rows.

(** A row written over, or added: one there already must be visible, and the
    new one the tenant's. *)
Definition may_put (s : store) (there : option string) (org : string) : bool :=
  row_visible s org && match there with Some o => row_visible s o | None => true end.

(** ** Whose a record is *)

(** The user of the name whose home it is, or else its member of that name. *)
Definition owner_uid (d : db) (tenant user : string) : option uid :=
  if bool_decide (is_Some (db_users d !! (tenant, user))) then Some (tenant, user)
  else snd ∘ fst <$> head (List.filter (λ '((o, u), _), String.eqb o tenant && String.eqb (snd u) user) (map_to_list (db_members d))).

Definition ownerIDs (now : Z) (user tenant : string) (d : db) : uid * db :=
  let d := make_org (micros now) tenant d in
  match owner_uid d tenant user with
  | Some u => (u, d)
  | None => ((tenant, user), make_user (micros now) (tenant, user) d)
  end.

(** ** Sandboxes *)
Definition details_of (now : Z) (sb : Sandbox) : details := {|
  dt_Name := sb_Name sb; dt_Image := sb_Image sb; dt_State := sb_State sb; dt_Labels := sb_Labels sb;
  dt_Network := sb_Network sb; dt_LifetimeSecs := sb_LifetimeSecs sb; dt_ExpiresAt := micros <$> sb_ExpiresAt sb;
  dt_IdleTimeoutSecs := sb_IdleTimeoutSecs sb;
  dt_CreatedAt := if sb_CreatedAt sb =? zero_time then zero_time else micros (sb_CreatedAt sb); dt_Updated := micros now |}.

Definition set_details (d : details) (r : sandbox_row) : sandbox_row := {|
  sw_org := sw_org r; sw_user := sw_user r; sw_node := sw_node r; sw_CPUs := sw_CPUs r; sw_MemoryMB := sw_MemoryMB r;
  sw_DiskMB := sw_DiskMB r; sw_recorded := sw_recorded r; sw_details := Some d; sw_terminated := sw_terminated r;
  sw_reason := sw_reason r |}.
Definition with_state (st : string) (d : details) : details := {|
  dt_Name := dt_Name d; dt_Image := dt_Image d; dt_State := st; dt_Labels := dt_Labels d; dt_Network := dt_Network d;
  dt_LifetimeSecs := dt_LifetimeSecs d; dt_ExpiresAt := dt_ExpiresAt d; dt_IdleTimeoutSecs := dt_IdleTimeoutSecs d;
  dt_CreatedAt := dt_CreatedAt d; dt_Updated := dt_Updated d |}.
Definition end_row (now : Z) (reason : string) (r : sandbox_row) : sandbox_row := {|
  sw_org := sw_org r; sw_user := sw_user r; sw_node := sw_node r; sw_CPUs := sw_CPUs r; sw_MemoryMB := sw_MemoryMB r;
  sw_DiskMB := sw_DiskMB r; sw_recorded := sw_recorded r; sw_details := with_state StateTerminated <$> sw_details r;
  sw_terminated := Some (micros now); sw_reason := reason |}.
Definition row_live (r : sandbox_row) : bool := bool_decide (sw_terminated r = None).

(** An UPDATE of the live rows of the id that can be seen. *)
Definition update_live (f : sandbox_row → sandbox_row) (id : string) (s : store) : store :=
  on_sandboxes (alter (λ r, if row_visible s (sw_org r) && row_live r then f r else r) id) s.

Definition RecordSandbox (now : Z) (id : string) (o : Owner) (size : NodeResources) (sb : option Sandbox) (s : store) : stx store :=
  reject_if (String.eqb id "" || String.eqb (ow_User o) "" || String.eqb (ow_Node o) "") BadRecord;;
  let '(u, d) := ownerIDs now (ow_User o) (ow_Tenant o) (st_db s) in
  reject_if (negb (may_put s (sw_org <$> st_sandboxes s !! id) (ow_Tenant o))) Failed;;
  Ok (on_sandboxes <[id := {|
        sw_org := ow_Tenant o; sw_user := u; sw_node := ow_Node o; sw_CPUs := nr_CPUs size; sw_MemoryMB := nr_MemoryMB size;
        sw_DiskMB := nr_DiskMB size; sw_recorded := micros now; sw_details := details_of now <$> sb; sw_terminated := None;
        sw_reason := "" |}]> (on_db (λ _, d) s)).

Definition terminate (now : Z) (ids : list string) (reason : string) (s : store) : store :=
  foldl (λ s id, update_live (end_row now reason) id s) s ids.

Definition UpdateSandboxDetails (now : Z) (sbs : list Sandbox) (s : store) : store :=
  foldl (λ s sb, let s := update_live (set_details (details_of now sb)) (sb_ID sb) s in
                 if String.eqb (sb_State sb) StateTerminated then terminate now [sb_ID sb] "terminated" s else s) s sbs.

Definition ForgetSandboxes (now : Z) (ids : list string) (reason : string) (s : store) : store := terminate now ids reason s.
Definition ForgetSandbox (now : Z) (id : string) (s : store) : store := ForgetSandboxes now [id] "terminated" s.

Definition row_owner (r : sandbox_row) : Owner := {| ow_User := snd (sw_user r); ow_Tenant := sw_org r; ow_Node := sw_node r |}.

Record SandboxRow := {
  sx_ID : string;
  sx_Owner : Owner;
  sx_CPUs : float64;
  sx_MemoryMB : Z;
  sx_DiskMB : Z;
  sx_Recorded : Z;
  sx_Details : option Sandbox;
  sx_TerminatedAt : option Z;
  sx_TerminatedReason : string
}.
Definition no_network : NetworkPolicy := {| np_Mode := ""; np_Allow := None; np_Deny := []; np_Groups := [] |}.
Definition scanSandbox (id : string) (r : sandbox_row) : SandboxRow := {|
  sx_ID := id; sx_Owner := row_owner r; sx_CPUs := sw_CPUs r; sx_MemoryMB := sw_MemoryMB r; sx_DiskMB := sw_DiskMB r;
  sx_Recorded := sw_recorded r;
  sx_Details := (λ d, {|
    sb_ID := id; sb_Name := dt_Name d; sb_State := dt_State d; sb_Image := dt_Image d; sb_CPUs := sw_CPUs r;
    sb_MemoryMB := sw_MemoryMB r; sb_DiskMB := sw_DiskMB r; sb_EnvNames := []; sb_Network := dt_Network d;
    sb_CreatedAt := dt_CreatedAt d; sb_IdleTimeoutSecs := dt_IdleTimeoutSecs d; sb_IdleAction := ""; sb_IdleSuspended := false;
    sb_LifetimeSecs := dt_LifetimeSecs d; sb_ExpiresAt := dt_ExpiresAt d; sb_SnapshotEverySecs := 0; sb_SnapshotKeep := 0;
    sb_Labels := dt_Labels d; sb_Volumes := []; sb_GPUs := [] |}) <$> sw_details r;
  sx_TerminatedAt := sw_terminated r; sx_TerminatedReason := sw_reason r |}.

Definition sandbox_of (s : store) (id : string) : option SandboxRow :=
  r ← seen_sandboxes s !! id; if row_live r then Some (scanSandbox id r) else None.
Definition sandbox_owner (s : store) (id : string) : option Owner := sx_Owner <$> sandbox_of s id.
Definition SizeOf (s : store) (id : string) : option NodeResources :=
  (λ r, {| nr_CPUs := sx_CPUs r; nr_MemoryMB := sx_MemoryMB r; nr_DiskMB := sx_DiskMB r; nr_GPUs := 0 |}) <$> sandbox_of s id.

Record Usage := { ug_Sandboxes : Z; ug_CPUs : float64; ug_MemoryMB : Z }.

(** The rows a WHERE keeps, as they are scanned; of no order. *)
Definition sandboxRows (keep : string → sandbox_row → bool) (s : store) : list SandboxRow :=
  (λ '(id, r), scanSandbox id r) <$> List.filter (λ '(id, r), keep id r) (map_to_list (seen_sandboxes s)).

Definition UsageOf (s : store) (tenant : string) : Usage :=
  let rows := sandboxRows (λ _ r, String.eqb (sw_org r) tenant && row_live r) s in
  {| ug_Sandboxes := Z.of_nat (length rows); ug_CPUs := foldl (λ a r, fadd a (sx_CPUs r)) fzero rows;
     ug_MemoryMB := foldl (λ a r, a + sx_MemoryMB r) 0 rows |}.

Definition by_row_id (a b : SandboxRow) : bool := str_ltb (sx_ID a) (sx_ID b).
Definition newest_first (a b : SandboxRow) : bool :=
  if negb (sx_Recorded a =? sx_Recorded b) then sx_Recorded b <? sx_Recorded a else str_ltb (sx_ID a) (sx_ID b).

Definition LiveSandboxes (s : store) : list SandboxRow := sort_stable by_row_id (sandboxRows (λ _ r, row_live r) s).
Definition SandboxesOn (s : store) (node : string) : gmap string Z :=
  list_to_map ((λ r, (sx_ID r, sx_Recorded r)) <$> sandboxRows (λ _ r, String.eqb (sw_node r) node && row_live r) s).

Record SandboxFilter := { fl_Tenant : string; fl_AllTenant : bool; fl_User : string; fl_Live : bool; fl_Limit : Z }.
Definition SandboxHistory (s : store) (f : SandboxFilter) : list SandboxRow :=
  let rows := sort_stable newest_first (sandboxRows (λ _ r,
    (fl_AllTenant f || String.eqb (sw_org r) (fl_Tenant f)) &&
    (String.eqb (fl_User f) "" || String.eqb (snd (sw_user r)) (fl_User f)) && (negb (fl_Live f) || row_live r)) s) in
  if fl_Limit f >? 0 then take (Z.to_nat (fl_Limit f)) rows else rows.

Definition row_prunable (s : store) (before : Z) (r : sandbox_row) : bool :=
  row_visible s (sw_org r) && match sw_terminated r with Some t => t <? micros before | None => false end.
Definition PruneSandboxHistory (before : Z) (s : store) : store :=
  on_sandboxes (filter (λ ir, row_prunable s before ir.2 = false)) s.

(** ** Volumes and snapshots *)
Definition put_owner (on : (gmap string owner_row → gmap string owner_row) → store → store) (rows : store → gmap string owner_row)
    (now : Z) (id : string) (o : Owner) (s : store) : stx store :=
  let '(u, d) := ownerIDs now (ow_User o) (ow_Tenant o) (st_db s) in
  reject_if (negb (may_put s (rw_org <$> rows s !! id) (ow_Tenant o))) Failed;;
  Ok (on <[id := {| rw_org := ow_Tenant o; rw_user := u; rw_node := ow_Node o |}]> (on_db (λ _, d) s)).
Definition owner_of_row (r : owner_row) : Owner := {| ow_User := snd (rw_user r); ow_Tenant := rw_org r; ow_Node := rw_node r |}.

Definition SetVolume : Z → string → Owner → store → stx store := put_owner on_volumes st_volumes.
Definition VolumeOwner (s : store) (name : string) : option Owner := owner_of_row <$> seen_owners s (st_volumes s) !! name.
Definition ForgetVolume (name : string) (s : store) : store :=
  on_volumes (filter (λ ir, (String.eqb ir.1 name && row_visible s (rw_org ir.2)) = false)) s.
Definition VolumesOf (s : store) (user tenant : string) : gmap string string :=
  rw_node <$> filter (λ ir, (String.eqb (snd (rw_user ir.2)) user && String.eqb (rw_org ir.2) tenant) = true) (seen_owners s (st_volumes s)).

Definition SetSnapshot : Z → string → Owner → store → stx store := put_owner on_snapshots st_snapshots.
Definition SnapshotOwner (s : store) (id : string) : option Owner := owner_of_row <$> seen_owners s (st_snapshots s) !! id.
(** [holds]: the snapshots the node still has. *)
Definition gone_from (s : store) (node : string) (holds : gset string) (id : string) (r : owner_row) : bool :=
  String.eqb (rw_node r) node && row_visible s (rw_org r) && negb (bool_decide (id ∈ holds)).
Definition ForgetSnapshotsGoneFrom (node : string) (holds : gset string) (s : store) : store :=
  on_snapshots (filter (λ ir, gone_from s node holds ir.1 ir.2 = false)) s.
Definition ForgetSnapshot (id : string) (s : store) : store :=
  on_snapshots (filter (λ ir, (String.eqb ir.1 id && row_visible s (rw_org ir.2)) = false)) s.

(** ** Nodes *)
Definition PutNode (name : string) (c : NodeConfig) (s : store) : stx store :=
  reject_if (negb (ValidNodeID name)) BadRecord;; Ok (on_nodes <[name := c]> s).
Definition RemoveNode (name : string) (s : store) : stx store :=
  reject_if (negb (bool_decide (is_Some (st_nodes s !! name)))) ErrNoSuchNode;; Ok (on_nodes (delete name) s).
Definition Nodes (s : store) : list (string * NodeConfig) :=
  sort_stable (λ a b, str_ltb a.1 b.1) (map_to_list (st_nodes s)).

(** ** SSH keys and tokens *)
Definition scanSSHKey (id : string) (r : ssh_row) : SSHKey := {|
  sk_ID := id; sk_User := snd (sh_user r); sk_Tenant := fst (sh_user r); sk_Fingerprint := sh_fingerprint r;
  sk_AuthorizedKey := sh_line r; sk_Sandbox := sh_sandbox r; sk_Created := sh_created r |}.
Definition by_created (a b : SSHKey) : bool :=
  if negb (sk_Created a =? sk_Created b) then sk_Created a <? sk_Created b else str_ltb (sk_ID a) (sk_ID b).
Definition sshKeys (s : store) (keep : ssh_row → bool) : list SSHKey :=
  sort_stable by_created ((λ '(id, r), scanSSHKey id r) <$> List.filter (λ '(_, r), keep r) (map_to_list (st_ssh_keys s))).

(** [fp], [line]: of the key the client gave, parsed. *)
Definition AddSSHKey (now : Z) (rid user tenant sandbox fp line : string) (s : store) : stx (SSHKey * store) :=
  let u := (tenant, user) in
  let same := List.filter (λ '(_, r), String.eqb (sh_fingerprint r) fp) (map_to_list (st_ssh_keys s)) in
  reject_if (existsb (λ '(_, r), negb (bool_decide (sh_user r = u))) same) ErrKeyTaken;;
  reject_if (existsb (λ '(_, r), String.eqb (sh_sandbox r) sandbox) same) ErrKeyRegistered;;
  let d := make_user (micros now) u (st_db s) in
  let id := newID "ssh_" rid in
  reject_if (bool_decide (is_Some (st_ssh_keys s !! id))) Failed;;
  let r := {| sh_user := u; sh_fingerprint := fp; sh_line := line; sh_sandbox := sandbox; sh_created := micros now |} in
  Ok (scanSSHKey id r, on_ssh_keys <[id := r]> (on_db (λ _, d) s)).
Definition RemoveSSHKey (id : string) (s : store) : stx store :=
  reject_if (negb (bool_decide (is_Some (st_ssh_keys s !! id)))) NoSuchSSHKey;; Ok (on_ssh_keys (delete id) s).
Definition ssh_by_fingerprint (s : store) (fp : string) : list SSHKey := sshKeys s (λ r, String.eqb (sh_fingerprint r) fp).
Definition SSHKeysFor (s : store) (user : string) : list SSHKey := sshKeys s (λ r, String.eqb (snd (sh_user r)) user).

Definition tokenSecretPrefix : string := "sgt_".

Section tokens.
Context (hashSecret : string → string).

Definition NewSSHToken (now : Z) (rtoken user tenant sandbox : string) (ttl : Z) (s : store) : stx (string * Z * store) :=
  reject_if (ttl <=? 0) BadRecord;;
  reject_if (String.eqb sandbox "") BadRecord;;
  let tok := newSecret tokenSecretPrefix rtoken in
  let now := micros now in
  let exp := now + ttl in
  let s := on_ssh_tokens (filter (λ tr, (tr_expires tr.2 <=? now) = false)) s in
  let '(u, d) := ownerIDs now user tenant (st_db s) in
  reject_if (bool_decide (is_Some (st_ssh_tokens s !! hashSecret tok))) Failed;;
  Ok (tok, exp, on_ssh_tokens <[hashSecret tok := {| tr_user := u; tr_org := tenant; tr_sandbox := sandbox; tr_expires := micros exp |}]>
                  (on_db (λ _, d) s)).

Definition redeem_token (s : store) (now : Z) (token : string) : option SSHToken :=
  if negb (has_prefix token tokenSecretPrefix) then None
  else
    r ← st_ssh_tokens s !! hashSecret token;
    if micros now <? tr_expires r
    then Some {| tk_User := snd (tr_user r); tk_Tenant := tr_org r; tk_Sandbox := tr_sandbox r; tk_Expires := tr_expires r |}
    else None.
End tokens.

(** ** What the tables hold of an organization, and transactions on Identity's *)

(** The organizations something is recorded in (orgUsed). *)
Definition work_of (s : store) : gset string :=
  db_work (st_db s) ∪ list_to_set ((sw_org ∘ snd <$> map_to_list (st_sandboxes s)) ++ (rw_org ∘ snd <$> map_to_list (st_volumes s)) ++
    (rw_org ∘ snd <$> map_to_list (st_snapshots s)) ++ (tr_org ∘ snd <$> map_to_list (st_ssh_tokens s))).
Definition with_work (w : gset string) (d : db) : db := {|
  db_orgs := db_orgs d; db_users := db_users d; db_members := db_members d; db_keys := db_keys d; db_invites := db_invites d;
  db_policies := db_policies d; db_user_policies := db_user_policies d; db_work := w |}.

(** A transaction that may add to what the other tables record. *)
Definition identity_tx (f : db → tx db) (s : store) : tx store :=
  d ← f (with_work (work_of s) (st_db s));
  Ok (on_db (λ d0, with_work (db_work d0 ∪ (db_work d ∖ work_of s)) d) s).

(** ** The store the gateway asks *)
Definition by_made (a b : Key) : bool :=
  if negb (k_Created a =? k_Created b) then k_Created a <? k_Created b else str_ltb (k_ID a) (k_ID b).
Definition all_keys (d : db) : list Key := sort_stable by_made ((λ '(id, r), scanKey d id r) <$> map_to_list (db_keys d)).

Definition role_in `{Unicode} (d : db) (org user userTenant : string) : option string :=
  if String.eqb user "" then None else '(key, _) ← teamOrg d org; memberRole d key user userTenant.

(** [hashSecret] is what secrets are kept as. *)
Class Hash := hash_secret : string → string.

#[export] Instance sql_store `{Unicode} `{Hash} : Store store := {|
  ForTenant t s := as_tenant (Some t) s;
  Access.KeyBySecret s now secret := Ok (Identity.KeyBySecret hash_secret (st_db s) now secret);
  Keys s := Ok (all_keys (st_db s));
  KeysOfUser s user := Ok (List.filter (λ k, String.eqb (k_User k) user) (all_keys (st_db s)));
  MemberRole s org user userTenant := Ok (role_in (st_db s) org user userTenant);
  OwnerOf s id := Ok (sandbox_owner s id);
  LiveOf s tenant user := Ok ((λ r, (sx_ID r, sx_Owner r)) <$> SandboxHistory s
    {| fl_Tenant := tenant; fl_AllTenant := false; fl_User := user; fl_Live := true; fl_Limit := 0 |});
  SSHKeysByFingerprint s fp := Ok (ssh_by_fingerprint s fp);
  RedeemSSHToken s now token := Ok (redeem_token hash_secret s now token)
|}.

(** ** What is written, in any order *)
Inductive store_op :=
| St_record (id : string) (o : Owner) (size : NodeResources) (sb : option Sandbox)
| St_update (sbs : list Sandbox)
| St_forget (ids : list string) (reason : string)
| St_prune (before : Z)
| St_volume (name : string) (o : Owner)
| St_forget_volume (name : string)
| St_snapshot (id : string) (o : Owner)
| St_snapshots_gone (node : string) (holds : gset string)
| St_forget_snapshot (id : string)
| St_put_node (name : string) (c : NodeConfig)
| St_remove_node (name : string)
| St_ssh_key (rid user tenant sandbox fp line : string)
| St_remove_ssh_key (id : string)
| St_ssh_token (rtoken user tenant sandbox : string) (ttl : Z).

Definition store_step (hashSecret : string → string) (now : Z) (o : store_op) (s : store) : stx store :=
  match o with
  | St_record id o size sb => RecordSandbox now id o size sb s
  | St_update sbs => Ok (UpdateSandboxDetails now sbs s)
  | St_forget ids reason => Ok (ForgetSandboxes now ids reason s)
  | St_prune before => Ok (PruneSandboxHistory before s)
  | St_volume name o => SetVolume now name o s
  | St_forget_volume name => Ok (ForgetVolume name s)
  | St_snapshot id o => SetSnapshot now id o s
  | St_snapshots_gone node holds => Ok (ForgetSnapshotsGoneFrom node holds s)
  | St_forget_snapshot id => Ok (ForgetSnapshot id s)
  | St_put_node name c => PutNode name c s
  | St_remove_node name => RemoveNode name s
  | St_ssh_key rid user tenant sandbox fp line => match AddSSHKey now rid user tenant sandbox fp line s with Ok (_, s) => Ok s | Err e => Err e end
  | St_remove_ssh_key id => RemoveSSHKey id s
  | St_ssh_token rtoken user tenant sandbox ttl =>
      match NewSSHToken hashSecret now rtoken user tenant sandbox ttl s with Ok (_, _, s) => Ok s | Err e => Err e end
  end.

(** Each as whom it is made, at its moment; a refused one changes nothing. *)
Fixpoint store_run (hashSecret : string → string) (ops : list (Z * option string * store_op)) (s : store) : store :=
  match ops with
  | [] => s
  | (now, t, o) :: ops =>
      store_run hashSecret ops (match store_step hashSecret now o (as_tenant t s) with Ok s' => s' | Err _ => s end)
  end.

Lemma store_run_app hashSecret l l' : ∀ s, store_run hashSecret (l ++ l') s = store_run hashSecret l' (store_run hashSecret l s).
Proof. induction l as [|[[now t] o] l IH]; intros s; [done|]. cbn. apply IH. Qed.

(** ** Facts of the rows *)
Lemma owner_uid_name d tenant user u : owner_uid d tenant user = Some u → snd u = user.
Proof.
  unfold owner_uid. destruct (bool_decide _); [by intros [= <-]|].
  destruct (List.filter _ _) as [|[[o v] m] l] eqn:E; [done|]. intros [= <-]. cbn.
  assert (((o, v), m) ∈ List.filter (λ '((o, u), _), String.eqb o tenant && String.eqb (snd u) user) (map_to_list (db_members d)))
    as [_ Hf]%elem_of_bfilter by (rewrite E; by left).
  apply andb_prop in Hf as [_ Hf]. by apply String.eqb_eq in Hf.
Qed.

Lemma ownerIDs_name now user tenant d : snd (ownerIDs now user tenant d).1 = user.
Proof.
  unfold ownerIDs. destruct (owner_uid _ _ _) as [u|] eqn:E; [|done]. cbn. by eapply owner_uid_name.
Qed.

Lemma lookup_update_live f id s i :
  st_sandboxes (update_live f id s) !! i =
  (λ r, if bool_decide (i = id) && (row_visible s (sw_org r) && row_live r) then f r else r) <$> st_sandboxes s !! i.
Proof.
  unfold update_live. cbn. destruct (decide (i = id)) as [->|Hne].
  - rewrite lookup_alter_eq, bool_decide_true by done. done.
  - rewrite lookup_alter_ne, bool_decide_false by done. by destruct (st_sandboxes s !! i).
Qed.

(** What statements cannot change of a row, or of the store: who it is, and as
    whom the store is asked. *)
Definition same_record (r r' : sandbox_row) : Prop :=
  sw_org r' = sw_org r ∧ sw_user r' = sw_user r ∧ sw_node r' = sw_node r ∧ sw_recorded r' = sw_recorded r ∧
  sw_MemoryMB r' = sw_MemoryMB r.
Record updates (s s' : store) : Prop := {
  up_rls : st_rls s' = st_rls s;
  up_tenant : st_tenant s' = st_tenant s;
  up_volumes : st_volumes s' = st_volumes s;
  up_snapshots : st_snapshots s' = st_snapshots s;
  up_row : ∀ i r, st_sandboxes s !! i = Some r → ∃ r', st_sandboxes s' !! i = Some r' ∧ same_record r r' ∧
    (row_visible s (sw_org r) = false → r' = r) ∧ (row_live r' = true → row_live r = true);
  up_new : ∀ i, st_sandboxes s !! i = None → st_sandboxes s' !! i = None
}.

Lemma row_visible_same s s' org : st_rls s' = st_rls s → st_tenant s' = st_tenant s → row_visible s' org = row_visible s org.
Proof. unfold row_visible. by intros -> ->. Qed.

Lemma updates_refl s : updates s s.
Proof. split; try done. intros i r Hr. exists r. split_and!; try done. Qed.
Lemma updates_trans s1 s2 s3 : updates s1 s2 → updates s2 s3 → updates s1 s3.
Proof.
  intros [A1 A2 A3 A4 A5 A6] [B1 B2 B3 B4 B5 B6]. split; try congruence.
  - intros i r (r2 & H2 & (E1 & E2 & E3 & E4 & E5) & Hv & Hl)%A5. apply B5 in H2 as (r3 & H3 & (F1 & F2 & F3 & F4 & F5) & Hv' & Hl').
    exists r3. split; [done|]. split; [repeat split; congruence|]. split; [|auto].
    intros Hr. rewrite Hv' by (rewrite E1, (row_visible_same s1 s2) by done; done). by apply Hv.
  - eauto.
Qed.

Lemma updates_live f id s : (∀ r, same_record r (f r) ∧ (row_live (f r) = true → row_live r = true)) → updates s (update_live f id s).
Proof.
  intros Hf. split; try done.
  - intros i r Hr. rewrite lookup_update_live, Hr. cbn. eexists. split; [done|].
    destruct (bool_decide (i = id) && _) eqn:E; [|by split_and!].
    destruct (Hf r) as [Hs Hl]. split_and!; try done. intros Hv. rewrite Hv in E. by rewrite andb_false_r in E.
  - intros i Hn. by rewrite lookup_update_live, Hn.
Qed.

Lemma updates_terminate now ids reason : ∀ s, updates s (terminate now ids reason s).
Proof.
  induction ids as [|id ids IH]; intros s; [apply updates_refl|]. cbn. eapply updates_trans; [|apply IH].
  apply updates_live. intros r. by split.
Qed.

Lemma updates_details now sbs : ∀ s, updates s (UpdateSandboxDetails now sbs s).
Proof.
  induction sbs as [|sb sbs IH]; intros s; [apply updates_refl|]. cbn. eapply updates_trans; [|apply IH].
  assert (updates s (update_live (set_details (details_of now sb)) (sb_ID sb) s)) by (apply updates_live; by intros r).
  destruct (String.eqb (sb_State sb) StateTerminated); [|done]. eapply updates_trans; [done|]. apply updates_live. intros r. by split.
Qed.

(** Nothing of another organization's is written over, added or removed. *)
Record apart (t : string) (s s' : store) : Prop := {
  ap_sandboxes : ∀ id r, sw_org r ≠ t → st_sandboxes s' !! id = Some r ↔ st_sandboxes s !! id = Some r;
  ap_volumes : ∀ id r, rw_org r ≠ t → st_volumes s' !! id = Some r ↔ st_volumes s !! id = Some r;
  ap_snapshots : ∀ id r, rw_org r ≠ t → st_snapshots s' !! id = Some r ↔ st_snapshots s !! id = Some r
}.

Lemma apart_updates t s s' : st_rls s = true → st_tenant s = Some t → updates s s' → apart t s s'.
Proof.
  intros Hr Ht [_ _ Hv Hn Hrow Hnew]. split; [|by rewrite Hv|by rewrite Hn].
  assert (∀ o, o ≠ t → row_visible s o = false) as Hvis
    by (intros o Ho; unfold row_visible; rewrite Hr, Ht; cbn; by apply String.eqb_neq).
  intros id r Ho. destruct (st_sandboxes s !! id) as [r0|] eqn:E.
  - destruct (Hrow id r0 E) as (r' & -> & (E1 & _) & Hs & _). split; intros [= ->].
    + rewrite Hs; [done|]. apply Hvis. congruence.
    + f_equal. apply Hs. by apply Hvis.
  - by rewrite Hnew.
Qed.

Lemma put_apart {R} (org : R → string) t s (rows : gmap string R) id r0 (r : R) i :
  st_rls s = true → st_tenant s = Some t → may_put s (org <$> rows !! id) (org r0) = true →
  org r ≠ t → <[id := r0]> rows !! i = Some r ↔ rows !! i = Some r.
Proof.
  intros Hr Ht Hput Hne. unfold may_put, row_visible in Hput. rewrite Hr, Ht in Hput. cbn in Hput.
  apply andb_prop in Hput as [Hnew%String.eqb_eq Hold].
  destruct (decide (i = id)) as [->|Hi]; [|by rewrite lookup_insert_ne by done].
  rewrite lookup_insert_eq. split; [by intros [= ->]|]. intros E. rewrite E in Hold. cbn in Hold.
  by apply String.eqb_eq in Hold.
Qed.

Lemma filter_apart {R} (org : R → string) t (rows : gmap string R) (gone : string → R → bool) i (r : R) :
  (∀ j x, gone j x = true → org x = t) → org r ≠ t →
  (filter (λ ir : string * R, gone ir.1 ir.2 = false) rows !! i = Some r ↔ rows !! i = Some r).
Proof.
  intros Hg Hne. rewrite map_lookup_filter_Some. cbn. split; [by intros [? _]|]. intros Hr. split; [done|].
  destruct (gone i r) eqn:E; [by apply Hg in E|done].
Qed.

Lemma visible_tenant t s org : st_rls s = true → st_tenant s = Some t → row_visible s org = true ↔ org = t.
Proof. unfold row_visible. intros -> ->. cbn. apply String.eqb_eq. Qed.

Lemma step_apart hashSecret now o t s s' :
  st_rls s = true → st_tenant s = Some t → store_step hashSecret now o s = Ok s' → apart t s s'.
Proof.
  intros Hr Ht Hstep. pose proof (visible_tenant t s) as Hvis.
  destruct o; cbn in Hstep.
  - unfold RecordSandbox in Hstep. rewrite guard_ok in Hstep. destruct Hstep as [_ Hstep].
    destruct (ownerIDs _ _ _ _) as [u d]. rewrite guard_ok in Hstep. destruct Hstep as [Hput%negb_false_iff [= <-]].
    split; cbn; intros i r Hne; try done. by apply (put_apart sw_org t s).
  - injection Hstep as <-. apply apart_updates; [done..|]. apply updates_details.
  - injection Hstep as <-. apply apart_updates; [done..|]. apply updates_terminate.
  - injection Hstep as <-. split; cbn; intros i r Hne; try done. apply (filter_apart sw_org t _ (λ _ x, row_prunable s before x)); [|done].
    intros j x [E _]%andb_prop. by apply Hvis.
  - unfold SetVolume, put_owner in Hstep. destruct (ownerIDs _ _ _ _) as [u d]. rewrite guard_ok in Hstep.
    destruct Hstep as [Hput%negb_false_iff [= <-]]. split; cbn; intros i r Hne; try done. by apply (put_apart rw_org t s).
  - injection Hstep as <-. split; cbn; intros i r Hne; try done. apply (filter_apart rw_org t _ (λ i x, String.eqb i name && row_visible s (rw_org x))); [|done].
    intros j x [_ E]%andb_prop. by apply Hvis.
  - unfold SetSnapshot, put_owner in Hstep. destruct (ownerIDs _ _ _ _) as [u d]. rewrite guard_ok in Hstep.
    destruct Hstep as [Hput%negb_false_iff [= <-]]. split; cbn; intros i r Hne; try done. by apply (put_apart rw_org t s).
  - injection Hstep as <-. split; cbn; intros i r Hne; try done. apply (filter_apart rw_org t _ (gone_from s node holds)); [|done].
    intros j x [[_ E]%andb_prop _]%andb_prop. by apply Hvis.
  - injection Hstep as <-. split; cbn; intros i r Hne; try done. apply (filter_apart rw_org t _ (λ i x, String.eqb i id && row_visible s (rw_org x))); [|done].
    intros j x [_ E]%andb_prop. by apply Hvis.
  - unfold PutNode in Hstep. rewrite guard_ok in Hstep. by destruct Hstep as [_ [= <-]].
  - unfold RemoveNode in Hstep. rewrite guard_ok in Hstep. by destruct Hstep as [_ [= <-]].
  - destruct (AddSSHKey _ _ _ _ _ _ _ _) as [[k s1]|] eqn:E; [|done]. injection Hstep as <-.
    unfold AddSSHKey in E. rewrite !guard_ok in E. by destruct E as (_ & _ & _ & [= _ <-]).
  - unfold RemoveSSHKey in Hstep. rewrite guard_ok in Hstep. by destruct Hstep as [_ [= <-]].
  - destruct (NewSSHToken _ _ _ _ _ _ _ _) as [[[k e] s1]|] eqn:E; [|done]. injection Hstep as <-.
    unfold NewSSHToken in E. rewrite !guard_ok in E. destruct E as (_ & _ & E). destruct (ownerIDs _ _ _ _) as [u d].
    rewrite guard_ok in E. by destruct E as (_ & [= _ _ <-]).
Qed.

Lemma sandboxRows_spec keep s x :
  x ∈ sandboxRows keep s ↔
  ∃ id r, st_sandboxes s !! id = Some r ∧ row_visible s (sw_org r) = true ∧ keep id r = true ∧ x = scanSandbox id r.
Proof.
  unfold sandboxRows. rewrite list_elem_of_fmap. split.
  - intros ([id r] & -> & [Hin Hk]%elem_of_bfilter). apply elem_of_map_to_list, map_lookup_filter_Some in Hin as [Hr Hv].
    by exists id, r.
  - intros (id & r & Hr & Hv & Hk & ->). exists (id, r). split; [done|]. apply elem_of_bfilter. split; [|done].
    apply elem_of_map_to_list, map_lookup_filter_Some. done.
Qed.

Lemma sandbox_owner_spec s id o :
  sandbox_owner s id = Some o ↔
  ∃ r, st_sandboxes s !! id = Some r ∧ row_visible s (sw_org r) = true ∧ row_live r = true ∧ o = row_owner r.
Proof.
  unfold sandbox_owner, sandbox_of, seen_sandboxes. split.
  - intros Ho. destruct (filter _ _ !! id) as [r|] eqn:E; [|done]. cbn in Ho. apply map_lookup_filter_Some in E as [Hr Hv].
    destruct (row_live r) eqn:El; [|done]. injection Ho as <-. by exists r.
  - intros (r & Hr & Hv & Hl & ->). rewrite (map_lookup_filter_Some_2 _ _ id r Hr) by done. cbn. by rewrite Hl.
Qed.

Lemma SandboxHistory_spec s f x :
  x ∈ SandboxHistory s f → ∃ id r, st_sandboxes s !! id = Some r ∧ row_visible s (sw_org r) = true ∧ x = scanSandbox id r ∧
    (fl_AllTenant f = true ∨ sw_org r = fl_Tenant f) ∧ (fl_Live f = true → row_live r = true).
Proof.
  unfold SandboxHistory. set (l := sort_stable _ _). assert (∀ y, y ∈ l → ∃ id r, st_sandboxes s !! id = Some r ∧
    row_visible s (sw_org r) = true ∧ y = scanSandbox id r ∧ (fl_AllTenant f = true ∨ sw_org r = fl_Tenant f) ∧
    (fl_Live f = true → row_live r = true)) as Hl.
  { intros y Hy. apply elem_of_sort_stable, sandboxRows_spec in Hy as (id & r & Hr & Hv & Hk & ->).
    exists id, r. apply andb_prop in Hk as [[Hk1 _]%andb_prop Hk3]. split_and!; try done.
    - apply orb_true_iff in Hk1 as [?|E]; [by left|right]. by apply String.eqb_eq in E.
    - intros E. rewrite E in Hk3. done. }
  destruct (fl_Limit f >? 0); [|apply Hl]. intros Hx. apply Hl. by apply elem_of_take in Hx as (i & Hi & _); eapply list_elem_of_lookup_2.
Qed.

Lemma SandboxHistory_tenant s f x : x ∈ SandboxHistory s f → row_visible s (ow_Tenant (sx_Owner x)) = true.
Proof. by intros (id & r & _ & Hv & -> & _)%SandboxHistory_spec. Qed.

Lemma seen_owner s rows id o : owner_of_row <$> seen_owners s rows !! id = Some o → row_visible s (ow_Tenant o) = true.
Proof.
  intros (r & Hr & ->)%fmap_Some. by apply map_lookup_filter_Some in Hr as [_ Hv].
Qed.

(** C36. The second wall between tenants. On PostgreSQL, a store made for a
    tenant ([ForTenant]) reads that tenant's records only: the owner, the
    listing and the usage it answers are of no other organization's sandbox,
    volume or snapshot. And nothing written through it, by whatever statement
    and for whatever id, changes, adds, ends or removes a row of another's. *)
Theorem tenant_wall hashSecret s t (Hrls : st_rls s = true) :
  (∀ now o s', store_step hashSecret now o (as_tenant (Some t) s) = Ok s' → apart t s s') ∧
  (∀ id o, sandbox_owner (as_tenant (Some t) s) id = Some o → ow_Tenant o = t) ∧
  (∀ f x, x ∈ SandboxHistory (as_tenant (Some t) s) f → ow_Tenant (sx_Owner x) = t) ∧
  (∀ tenant, tenant ≠ t → UsageOf (as_tenant (Some t) s) tenant = {| ug_Sandboxes := 0; ug_CPUs := fzero; ug_MemoryMB := 0 |}) ∧
  (∀ id o, VolumeOwner (as_tenant (Some t) s) id = Some o ∨ SnapshotOwner (as_tenant (Some t) s) id = Some o → ow_Tenant o = t).
Proof.
  pose proof (λ org, visible_tenant t (as_tenant (Some t) s) org Hrls eq_refl) as Hvis. split_and!.
  - intros now o s' Hstep. by destruct (step_apart hashSecret now o t (as_tenant (Some t) s) s' Hrls eq_refl Hstep).
  - intros id o (r & _ & Hv & _ & ->)%sandbox_owner_spec. by apply Hvis.
  - intros f x Hx%SandboxHistory_tenant. by apply Hvis.
  - intros tenant Hne. unfold UsageOf. set (rows := sandboxRows _ _). assert (rows = []) as ->; [|done].
    destruct rows as [|x l] eqn:E; [done|]. exfalso. assert (x ∈ rows) as Hx by (rewrite E; by left).
    apply sandboxRows_spec in Hx as (id & r & _ & Hv & [Ho%String.eqb_eq _]%andb_prop & _).
    apply Hne. rewrite <- Ho. by apply Hvis.
  - intros id o [Ho|Ho]; apply seen_owner in Ho; by apply Hvis.
Qed.

(** ** A record stays until it is ended *)
Definition ends (id : string) (o : store_op) : bool :=
  match o with
  | St_record i _ _ _ => String.eqb i id
  | St_update sbs => existsb (λ sb, String.eqb (sb_ID sb) id && String.eqb (sb_State sb) StateTerminated) sbs
  | St_forget ids _ => existsb (String.eqb id) ids
  | _ => false
  end.

Lemma update_live_keeps f id i s r :
  (i = id → ∀ r, same_record r (f r) ∧ sw_terminated (f r) = sw_terminated r) → st_sandboxes s !! i = Some r →
  ∃ r', st_sandboxes (update_live f id s) !! i = Some r' ∧ same_record r r' ∧ row_live r' = row_live r.
Proof.
  intros Hf Hr. rewrite lookup_update_live, Hr. cbn. eexists. split; [done|].
  destruct (bool_decide (i = id)) eqn:E; [|by split]. apply bool_decide_eq_true in E. cbn.
  destruct (_ && _); [|by split]. destruct (Hf E r) as [Hs Ht]. split; [done|]. unfold row_live. by rewrite Ht.
Qed.

Lemma same_record_trans a b c : same_record a b → same_record b c → same_record a c.
Proof. intros (A1 & A2 & A3 & A4 & A5) (B1 & B2 & B3 & B4 & B5). repeat split; congruence. Qed.

Lemma terminate_keeps now ids reason i : ∀ s r, existsb (String.eqb i) ids = false → st_sandboxes s !! i = Some r →
  ∃ r', st_sandboxes (terminate now ids reason s) !! i = Some r' ∧ same_record r r' ∧ row_live r' = row_live r.
Proof.
  induction ids as [|id ids IH]; intros s r Hn Hr; [by exists r; repeat split|]. cbn in Hn.
  apply orb_false_iff in Hn as [Hne%String.eqb_neq Hn]. cbn.
  destruct (update_live_keeps (end_row now reason) id i s r) as (r1 & H1 & E1 & L1); [done..|].
  destruct (IH _ r1 Hn H1) as (r2 & H2 & E2 & L2). exists r2. split; [done|]. split; [by eapply same_record_trans|congruence].
Qed.

Lemma details_keeps now sbs i : ∀ s r, ends i (St_update sbs) = false → st_sandboxes s !! i = Some r →
  ∃ r', st_sandboxes (UpdateSandboxDetails now sbs s) !! i = Some r' ∧ same_record r r' ∧ row_live r' = row_live r.
Proof.
  induction sbs as [|sb sbs IH]; intros s r Hn Hr; [by exists r; repeat split|]. cbn in Hn.
  apply orb_false_iff in Hn as [Hsb Hn]. cbn.
  destruct (update_live_keeps (set_details (details_of now sb)) (sb_ID sb) i s r) as (r1 & H1 & E1 & L1); [done..|].
  assert (∃ r2, st_sandboxes (if String.eqb (sb_State sb) StateTerminated
    then terminate now [sb_ID sb] "terminated" (update_live (set_details (details_of now sb)) (sb_ID sb) s)
    else update_live (set_details (details_of now sb)) (sb_ID sb) s) !! i = Some r2 ∧ same_record r r2 ∧ row_live r2 = row_live r)
    as (r2 & H2 & E2 & L2).
  { destruct (String.eqb (sb_State sb) StateTerminated); [|by exists r1]. rewrite andb_true_r in Hsb.
    assert (existsb (String.eqb i) [sb_ID sb] = false) as Hi by (cbn; by rewrite String.eqb_sym, Hsb).
    destruct (terminate_keeps now _ "terminated" i _ r1 Hi H1) as (r2 & H2 & E2 & L2).
    exists r2. split; [done|]. split; [by eapply same_record_trans|congruence]. }
  destruct (IH _ r2 Hn H2) as (r3 & H3 & E3 & L3). exists r3. split; [done|]. split; [by eapply same_record_trans|congruence].
Qed.

(** What a statement that succeeds leaves as it is. *)
Definition writes_sandboxes (o : store_op) : bool :=
  match o with St_record _ _ _ _ | St_update _ | St_forget _ _ | St_prune _ => true | _ => false end.
Definition writes_ssh_keys (o : store_op) : bool :=
  match o with St_ssh_key _ _ _ _ _ _ | St_remove_ssh_key _ => true | _ => false end.
Record leaves (o : store_op) (s s' : store) : Prop := {
  lv_rls : st_rls s' = st_rls s;
  lv_tenant : st_tenant s' = st_tenant s;
  lv_sandboxes : writes_sandboxes o = false → st_sandboxes s' = st_sandboxes s;
  lv_ssh_keys : writes_ssh_keys o = false → st_ssh_keys s' = st_ssh_keys s
}.

Lemma terminate_ssh_keys now ids reason : ∀ s, st_ssh_keys (terminate now ids reason s) = st_ssh_keys s.
Proof. induction ids as [|id ids IH]; intros s; [done|]. cbn. unfold terminate in IH. by rewrite IH. Qed.
Lemma details_ssh_keys now sbs : ∀ s, st_ssh_keys (UpdateSandboxDetails now sbs s) = st_ssh_keys s.
Proof.
  induction sbs as [|sb sbs IH]; intros s; [done|]. cbn. unfold UpdateSandboxDetails in IH. rewrite IH.
  by destruct (String.eqb _ _).
Qed.

Lemma step_leaves hashSecret now o s s' : store_step hashSecret now o s = Ok s' → leaves o s s'.
Proof.
  intros Hstep. destruct o; cbn in Hstep.
  - unfold RecordSandbox in Hstep. rewrite guard_ok in Hstep. destruct Hstep as [_ Hstep].
    destruct (ownerIDs _ _ _ _) as [u d]. rewrite guard_ok in Hstep. by destruct Hstep as [_ [= <-]].
  - injection Hstep as <-. destruct (updates_details now sbs s). split; [done..|]. intros _. apply details_ssh_keys.
  - injection Hstep as <-. destruct (updates_terminate now ids reason s). split; [done..|]. intros _. apply terminate_ssh_keys.
  - by injection Hstep as <-.
  - unfold SetVolume, put_owner in Hstep. destruct (ownerIDs _ _ _ _) as [u d]. rewrite guard_ok in Hstep. by destruct Hstep as [_ [= <-]].
  - by injection Hstep as <-.
  - unfold SetSnapshot, put_owner in Hstep. destruct (ownerIDs _ _ _ _) as [u d]. rewrite guard_ok in Hstep. by destruct Hstep as [_ [= <-]].
  - by injection Hstep as <-.
  - by injection Hstep as <-.
  - unfold PutNode in Hstep. rewrite guard_ok in Hstep. by destruct Hstep as [_ [= <-]].
  - unfold RemoveNode in Hstep. rewrite guard_ok in Hstep. by destruct Hstep as [_ [= <-]].
  - destruct (AddSSHKey _ _ _ _ _ _ _ _) as [[k s1]|] eqn:E; [|done]. injection Hstep as <-.
    unfold AddSSHKey in E. rewrite !guard_ok in E. by destruct E as (_ & _ & _ & [= _ <-]).
  - unfold RemoveSSHKey in Hstep. rewrite guard_ok in Hstep. by destruct Hstep as [_ [= <-]].
  - destruct (NewSSHToken _ _ _ _ _ _ _ _) as [[[k e] s1]|] eqn:E; [|done]. injection Hstep as <-.
    unfold NewSSHToken in E. rewrite !guard_ok in E. destruct E as (_ & _ & E). destruct (ownerIDs _ _ _ _) as [u d].
    rewrite guard_ok in E. by destruct E as (_ & [= _ _ <-]).
Qed.

Lemma step_keeps hashSecret now o i s r s' :
  store_step hashSecret now o s = Ok s' → ends i o = false → st_sandboxes s !! i = Some r → row_live r = true →
  ∃ r', st_sandboxes s' !! i = Some r' ∧ same_record r r' ∧ row_live r' = true.
Proof.
  intros Hstep Hn Hr Hl. destruct (writes_sandboxes o) eqn:Ew.
  2: { exists r. rewrite (lv_sandboxes _ _ _ (step_leaves _ _ _ _ _ Hstep) Ew). by repeat split. }
  destruct o; try done; cbn in Hstep.
  - unfold RecordSandbox in Hstep. rewrite guard_ok in Hstep. destruct Hstep as [_ Hstep].
    destruct (ownerIDs _ _ _ _) as [u d]. rewrite guard_ok in Hstep. destruct Hstep as [_ [= <-]].
    exists r. cbn. cbn in Hn. apply String.eqb_neq in Hn. rewrite lookup_insert_ne by done. by repeat split.
  - injection Hstep as <-. rewrite <- Hl. by apply details_keeps.
  - injection Hstep as <-. rewrite <- Hl. by apply terminate_keeps.
  - injection Hstep as <-. exists r. split; [|by repeat split]. cbn. apply map_lookup_filter_Some. split; [done|]. cbn.
    unfold row_prunable. unfold row_live in Hl. apply bool_decide_eq_true in Hl. rewrite Hl. apply andb_false_r.
Qed.

(** A statement that records no sandbox leaves only rows that were there, and
    revives none. *)
Lemma step_old hashSecret now o s s' id r' :
  store_step hashSecret now o s = Ok s' → (∀ i ow sz sb, o ≠ St_record i ow sz sb) → st_sandboxes s' !! id = Some r' →
  ∃ r, st_sandboxes s !! id = Some r ∧ same_record r r' ∧ (row_live r' = true → row_live r = true).
Proof.
  intros Hstep Hn Hr'. assert (updates s s' → ∃ r, st_sandboxes s !! id = Some r ∧ same_record r r' ∧ (row_live r' = true → row_live r = true)) as Hup.
  { intros [_ _ _ _ Hrow Hnew]. destruct (st_sandboxes s !! id) as [r|] eqn:E.
    - destruct (Hrow id r E) as (r2 & E2 & Hs & _ & Hl). assert (r2 = r') as -> by congruence. by exists r.
    - rewrite (Hnew id E) in Hr'. done. }
  destruct (writes_sandboxes o) eqn:Ew.
  2: { rewrite (lv_sandboxes _ _ _ (step_leaves _ _ _ _ _ Hstep) Ew) in Hr'. exists r'. by repeat split. }
  destruct o; try done; cbn in Hstep.
  - by edestruct Hn.
  - injection Hstep as <-. apply Hup, updates_details.
  - injection Hstep as <-. apply Hup, updates_terminate.
  - injection Hstep as <-. cbn in Hr'. apply map_lookup_filter_Some in Hr' as [Hr' _]. exists r'. by repeat split.
Qed.

Lemma run_keeps hashSecret ops i : ∀ s r,
  Forall (λ o, ends i o.2 = false) ops → st_sandboxes s !! i = Some r → row_live r = true →
  ∃ r', st_sandboxes (store_run hashSecret ops s) !! i = Some r' ∧ same_record r r' ∧ row_live r' = true ∧
    st_rls (store_run hashSecret ops s) = st_rls s.
Proof.
  induction ops as [|[[now t] o] ops IH]; intros s r Hops Hr Hl; [by exists r; repeat split|].
  apply Forall_cons in Hops as [Ho Hops]. cbn in Ho |- *.
  destruct (store_step hashSecret now o (as_tenant t s)) as [s'|] eqn:E; [|by apply IH].
  destruct (step_keeps hashSecret now o i _ r s' E Ho Hr Hl) as (r1 & H1 & E1 & L1).
  destruct (IH s' r1 Hops H1 L1) as (r2 & H2 & E2 & L2 & Hrls). apply step_leaves, lv_rls in E.
  exists r2. split_and!; [done|by eapply same_record_trans|done|by rewrite Hrls, E].
Qed.

(** A sandbox recorded is its owner's, and stays theirs. The owner read
    back is the one recorded: the user by name, the tenant and the node, though
    the row names a user who may be at home elsewhere and only a member there;
    its size is what was given; and whatever is written afterwards, by any
    tenant, the owner stays until the sandbox is recorded again, is reported
    terminated or is forgotten. *)
Theorem recorded_owner_stays hashSecret now id o size sb s s'
    (Hrec : RecordSandbox now id o size sb s = Ok s') :
  sandbox_owner s' id = Some o ∧
  SizeOf s' id = Some {| nr_CPUs := nr_CPUs size; nr_MemoryMB := nr_MemoryMB size; nr_DiskMB := nr_DiskMB size; nr_GPUs := 0 |} ∧
  ∀ ops, Forall (λ x, ends id x.2 = false) ops → sandbox_owner (as_tenant (st_tenant s') (store_run hashSecret ops s')) id = Some o.
Proof.
  unfold RecordSandbox in Hrec. rewrite guard_ok in Hrec. destruct Hrec as [_ Hrec].
  pose proof (ownerIDs_name now (ow_User o) (ow_Tenant o) (st_db s)) as Hname.
  destruct (ownerIDs now (ow_User o) (ow_Tenant o) (st_db s)) as [u d]. cbn in Hname. rewrite guard_ok in Hrec.
  destruct Hrec as [[Hvis _]%negb_false_iff%andb_prop [= <-]]. set (row := {| sw_org := ow_Tenant o |}). set (s' := on_sandboxes _ _).
  assert (st_sandboxes s' !! id = Some row) as Hrow by apply lookup_insert_eq.
  assert (row_owner row = o) as Hown by (destruct o; cbn in Hname |- *; unfold row_owner; cbn; by rewrite Hname).
  split_and!.
  - apply sandbox_owner_spec. by exists row.
  - unfold SizeOf, sandbox_of, seen_sandboxes. rewrite (map_lookup_filter_Some_2 _ _ id row Hrow) by done. done.
  - intros ops Hops. destruct (run_keeps hashSecret ops id s' row Hops Hrow eq_refl) as (r & Hr & (E1 & E2 & E3 & _) & Hl & Hrls).
    apply sandbox_owner_spec. exists r. split_and!; try done.
    + cbn. rewrite E1. erewrite row_visible_same; [exact Hvis|exact Hrls|done].
    + rewrite <- Hown. unfold row_owner. by rewrite E1, E2, E3.
Qed.

(** ** A registered key is one person's *)
Record ssh_keys_ok (m : gmap string ssh_row) : Prop := {
  sko_person : ∀ i j a b, m !! i = Some a → m !! j = Some b → sh_fingerprint a = sh_fingerprint b → sh_user a = sh_user b;
  sko_once : ∀ i j a b, m !! i = Some a → m !! j = Some b → sh_fingerprint a = sh_fingerprint b → sh_sandbox a = sh_sandbox b → i = j
}.

Lemma ssh_keys_ok_insert m id r :
  ssh_keys_ok m → (∀ j b, m !! j = Some b → sh_fingerprint b = sh_fingerprint r → sh_user b = sh_user r ∧ sh_sandbox b ≠ sh_sandbox r) →
  ssh_keys_ok (<[id := r]> m).
Proof.
  intros [Hp Ho] Hr. split; intros i j a b Ha Hb Ef;
    apply lookup_insert_Some in Ha as [[<- <-]|[Hi Ha]], Hb as [[<- <-]|[Hj Hb]]; try done; try eauto.
  - symmetry. by apply (Hr j).
  - by apply (Hr i).
  - intros Es. destruct (Hr j b Hb); congruence.
  - intros Es. destruct (Hr i a Ha); congruence.
Qed.

Lemma step_ssh_keys hashSecret now o s s' :
  store_step hashSecret now o s = Ok s' → ssh_keys_ok (st_ssh_keys s) → ssh_keys_ok (st_ssh_keys s').
Proof.
  intros Hstep Hok. destruct (writes_ssh_keys o) eqn:Ew.
  2: by rewrite (lv_ssh_keys _ _ _ (step_leaves _ _ _ _ _ Hstep) Ew).
  destruct o; try done; cbn in Hstep.
  - destruct (AddSSHKey _ _ _ _ _ _ _ _) as [[k s1]|] eqn:E; [|done]. injection Hstep as <-.
    unfold AddSSHKey in E. rewrite !guard_ok in E. destruct E as (Hp & Ho & _ & [= _ <-]). cbn.
    apply ssh_keys_ok_insert; [done|]. intros j b Hb Ef. cbn in *.
    assert ((j, b) ∈ List.filter (λ '(_, r), String.eqb (sh_fingerprint r) fp) (map_to_list (st_ssh_keys s))) as Hin.
    { apply elem_of_bfilter. split; [by apply elem_of_map_to_list|]. by apply String.eqb_eq. }
    apply list_elem_of_In in Hin. split.
    + destruct (decide (sh_user b = (tenant, user))) as [|Hne]; [done|]. apply not_true_iff_false in Hp as [].
      apply existsb_exists. exists (j, b). split; [done|]. apply negb_true_iff. by apply bool_decide_eq_false.
    + intros Es. apply not_true_iff_false in Ho as []. apply existsb_exists. exists (j, b). split; [done|]. by apply String.eqb_eq.
  - unfold RemoveSSHKey in Hstep. rewrite guard_ok in Hstep. destruct Hstep as [_ [= <-]]. cbn.
    destruct Hok as [Hp Ho]. split; intros i j a b [Hi Ha]%lookup_delete_Some [Hj Hb]%lookup_delete_Some; eauto.
Qed.

(** Whoever registers what, and whenever: two registered keys of one
    fingerprint are one person's, and are limited to different sandboxes. *)
Lemma run_ssh_keys hashSecret ops : ∀ s, ssh_keys_ok (st_ssh_keys s) → ssh_keys_ok (st_ssh_keys (store_run hashSecret ops s)).
Proof.
  induction ops as [|[[now t] o] ops IH]; intros s Hok; [done|]. cbn.
  destruct (store_step hashSecret now o (as_tenant t s)) as [s'|] eqn:E; [|by apply IH].
  apply IH. by eapply step_ssh_keys.
Qed.

(** So whatever statements were made of an empty store, the keys a login's
    fingerprint finds are one person's. *)
Theorem fingerprint_one_person hashSecret rls ops fp a b :
  a ∈ ssh_by_fingerprint (store_run hashSecret ops (empty_store rls)) fp →
  b ∈ ssh_by_fingerprint (store_run hashSecret ops (empty_store rls)) fp →
  sk_User a = sk_User b ∧ sk_Tenant a = sk_Tenant b ∧ (sk_Sandbox a = sk_Sandbox b → sk_ID a = sk_ID b).
Proof.
  assert (ssh_keys_ok (st_ssh_keys (store_run hashSecret ops (empty_store rls)))) as [Hp Ho]
    by (apply run_ssh_keys; split; intros i j x y; cbn; by rewrite lookup_empty).
  set (s := store_run _ _ _) in *.
  assert (∀ k, k ∈ ssh_by_fingerprint s fp → ∃ id r, st_ssh_keys s !! id = Some r ∧ sh_fingerprint r = fp ∧ k = scanSSHKey id r) as Hin.
  { intros k Hk. apply elem_of_sort_stable, list_elem_of_fmap in Hk as ([id r] & -> & [Hr Hf]%elem_of_bfilter).
    exists id, r. apply elem_of_map_to_list in Hr. apply String.eqb_eq in Hf. done. }
  intros (i & ra & Ha & Ea & ->)%Hin (j & rb & Hb & Eb & ->)%Hin. cbn.
  assert (sh_user ra = sh_user rb) as -> by (eapply Hp; eauto; congruence). split_and!; try done.
  intros Es. eapply Ho; eauto. congruence.
Qed.
