(* ===== verification/Revocation.v ===== *)
(** * Revoking is for good, and reaches what is open

    Identity's transactions, the gateway's authentication and the recheck of
    open requests together: once a key is revoked, nothing restores it, no
    secret of it or of what was made under it lets anyone in, and the next
    recheck ends every open request it let in. *)
From S2P Require Import Prelude GoSort GoStrings Api Spec ServiceSpec Access Sessions Identity IdentityKeys SandboxStore.

(** ** A revoked root stays revoked *)
Definition dead_row (r : krow) : Prop := kr_Parent r = None ∧ kr_Revoked r = true ∧ kr_Restore r = None.
Definition dead (id : string) (d : db) : Prop := ∃ r, db_keys d !! id = Some r ∧ dead_row r.

Section dead.
Context `{Unicode} (hashSecret : string → string).

Lemma dead_same id d d' : db_keys d' = db_keys d → dead id d → dead id d'.
Proof. intros E (r & Hr & Hd). exists r. by rewrite E. Qed.

Lemma dead_keys f id d : (∀ r, dead_row r → db_keys d !! id = Some r → ∃ r', f (db_keys d) !! id = Some r' ∧ dead_row r') →
  dead id d → dead id (on_keys f d).
Proof. intros Hf (r & Hr & Hd). cbn. destruct (Hf r Hd Hr) as (r' & Hr' & Hd'). by exists r'. Qed.

Lemma dead_alter f i id d : (id = i → ∀ r, dead_row r → dead_row (f r)) → dead id d → dead id (on_keys (alter f i) d).
Proof.
  intros Hf. apply dead_keys. intros r Hd Hr. rewrite lookup_alter_if, Hr. cbn. eexists. split; [done|].
  destruct (decide (i = id)) as [->|]; [by apply Hf|done].
Qed.

Lemma dead_children f i id d : dead id d → dead id (on_keys (children f i) d).
Proof.
  apply dead_keys. intros r Hd Hr. rewrite lookup_children, Hr. exists r. split; [|done]. cbn. unfold is_child.
  destruct Hd as (-> & _). done.
Qed.

Lemma dead_delete gone id d : (∀ r, dead_row r → gone id r = false) → dead id d → dead id (delete_keys gone d).
Proof.
  intros Hg (r & Hr & Hd). exists r. split; [|done]. apply lookup_delete_keys. split; [done|]. split; [by apply Hg|].
  destruct Hd as (-> & _). done.
Qed.

Lemma dead_insertKey now k id d d' : insertKey now k d = Ok d' → dead id d → dead id d'.
Proof.
  intros (E & Hn & _)%insertKey_keys (r & Hr & Hd). exists r. split; [|done].
  rewrite E, lookup_insert_ne; [done|]. intros <-. congruence.
Qed.

Lemma dead_redeem now rid rsecret token pw id d k d' :
  RedeemInvite hashSecret now rid rsecret token pw d = Ok (k, d') → dead id d → dead id d'.
Proof.
  unfold RedeemInvite. intros ([inv iv] & _ & Hr)%bind_ok Hd. apply bind_ok in Hr as ([k1 d1] & Hr & [= <- <-]).
  apply (dead_same id d1); [done|].
  destruct (iv_Key iv) as [a|].
  - apply bind_ok in Hr as (k0 & _ & Hr). rewrite guard_ok in Hr. destruct Hr as [_ [= <- <-]].
    apply dead_children, dead_delete; [|by apply (dead_same id d)].
    intros r (E & _). unfold is_child. by rewrite E.
  - apply bind_ok in Hr as ([] & _ & Hr). rewrite guard_ok in Hr. destruct Hr as [_ Hr].
    apply bind_ok in Hr as (d2 & Hi & [= <- <-]). eapply dead_insertKey; [exact Hi|].
    apply (dead_same id d); [|done]. destruct (String.eqb _ _); [done|]. apply keys_assignPolicy.
Qed.

Lemma dead_step now o id d d' : id_step hashSecret now o d = Ok d' → dead id d → dead id d'.
Proof.
  intros Hstep. destruct (writes_keys o) eqn:Ew; [|apply dead_same; by apply (keys_unwritten hashSecret now o)].
  revert Hstep. destruct o; try done; cbn [id_step]; try (intros [x Hd]%db_of_ok; revert Hd).
  - unfold CreateKeyExpiring. cbv zeta. rewrite !guard_ok. intros (_ & _ & _ & _ & Hd). apply bind_ok in Hd as (? & _ & Hd).
    apply bind_ok in Hd as (d2 & Hi & [= _ <-]). by apply (dead_insertKey _ _ _ _ _ Hi).
  - unfold RevokeKey. rewrite guard_ok. intros [_ [= <-]] Hd. apply dead_children, dead_alter; [|done].
    intros _ r (E & _). by split_and!.
  - unfold SetKeyExpiry. intros (k & _ & Hd)%bind_ok. rewrite guard_ok in Hd. destruct Hd as [_ [= <-]] . intros Hd.
    assert (∀ t, dead id (on_keys (alter (set_Expires t) id0) d)) as Ha by (intros t; apply dead_alter; [|done]; intros _ r (?&?&?); by split_and!).
    match goal with |- dead id match ?x with _ => _ end => generalize x end.
    intros [a|]; [apply dead_children|]; apply Ha.
  - unfold SuspendKey. intros (k & Hk%of_option_ok & Hd)%bind_ok. rewrite !guard_ok in Hd. destruct Hd as (Hrev & _ & _ & [= <-]).
    intros Hd. apply dead_children. destruct Hd as (r & Hr & Hd). exists r. split; [|done]. cbn. rewrite lookup_alter_ne; [done|].
    intros ->. destruct Hd as (_ & E & _). congruence.
  - unfold RestoreKey. intros (k & Hk%of_option_ok & Hd)%bind_ok. rewrite !guard_ok in Hd.
    destruct Hd as (_ & Hs%negb_false_iff & _ & [= <-]). intros (r & Hr & Hd). exists r. split; [|done]. cbn.
    rewrite lookup_alter_ne; [done|]. intros ->. destruct Hd as (_ & E1 & E2). unfold Suspended in Hs. cbn in Hs.
    assert (k = r) as -> by congruence. by rewrite E1, E2 in Hs.
  - unfold SignIn. intros (acct & _ & Hd)%bind_ok. rewrite !guard_ok in Hd. destruct Hd as (_ & _ & Hd).
    apply bind_ok in Hd as (d2 & Hi & [= _ <-]). intros Hd. apply (dead_insertKey _ _ _ _ _ Hi). apply dead_delete; [|done].
    intros r (E & _). unfold over. by rewrite E.
  - unfold SignOut. intros (k & Hk%of_option_ok & Hd)%bind_ok. rewrite guard_ok in Hd. destruct Hd as [Hc%negb_false_iff [= <-]].
    intros (r & Hr & Hd). apply dead_delete; [|by exists r]. intros _ _. apply String.eqb_neq. intros ->.
    assert (k = r) as -> by congruence. unfold a_signin in Hc. by rewrite (proj1 Hd) in Hc.
  - unfold SetPassword. intros (k & _ & Hd)%bind_ok. rewrite guard_ok in Hd. destruct Hd as [_ [= <-]]. intros Hd.
    apply dead_delete; [|done]. intros r (E & _). unfold is_child. by rewrite E.
  - intros Hr. by apply (dead_redeem _ _ _ _ _ _ _ _ _ Hr).
  - unfold CreatePersonalKey. cbv zeta. rewrite !guard_ok. intros (_ & _ & _ & Hd).
    apply bind_ok in Hd as ([c root] & _ & Hd). rewrite !guard_ok in Hd. destruct Hd as [_ Hd].
    apply bind_ok in Hd as (o & _ & Hd). rewrite !guard_ok in Hd. destruct Hd as (_ & _ & Hd).
    apply bind_ok in Hd as (d2 & Hi & [= _ <-]). by apply (dead_insertKey _ _ _ _ _ Hi).
  - unfold RevokePersonalKey. intros ([c root] & _ & Hd)%bind_ok. apply bind_ok in Hd as (k & _ & Hd).
    rewrite guard_ok in Hd. destruct Hd as [_ [= <-]]. apply dead_alter. intros _ r (E & _). by split_and!.
Qed.

Lemma dead_run ops id : ∀ d, dead id d → dead id (id_run hashSecret ops d).
Proof.
  induction ops as [|[now o] ops IH]; intros d Hd; [done|]. cbn. apply IH.
  destruct (id_step hashSecret now o d) as [d'|] eqn:E; [by eapply dead_step|done].
Qed.
End dead.

(** ** What it reaches *)
Section reach.
Context `{Unicode} `{hash : Hash}.

(** The key, or one made under it. *)
Definition of_root (id : string) (k : Key) : Prop := k_ID k = id ∨ k_Parent k = id.

Lemma of_root_revoked d id i r :
  keys_ok (db_keys d) → dead id d → db_keys d !! i = Some r → of_root id (scanKey d i r) → kr_Revoked r = true.
Proof.
  intros Hok (rr & Hrr & Hdead) Hr [E|E]; cbn in E.
  - subst i. assert (r = rr) as -> by congruence. apply Hdead.
  - destruct (kr_Parent r) as [p|] eqn:Ep; cbn in E.
    + subst p. destruct (ko_child _ Hok i r id Hr Ep) as (r' & Hr' & Hu). assert (r' = rr) as -> by congruence.
      apply (un_revoked _ _ Hu). apply Hdead.
    + subst id. by destruct (ko_id _ Hok "" (mk_is_Some _ _ Hrr)).
Qed.

Lemma key_by_hash_row d h k : key_by_hash d h = Some k → ∃ i r, db_keys d !! i = Some r ∧ k = scanKey d i r ∧ kr_Hash r = h.
Proof.
  unfold key_by_hash. destruct (List.filter _ _) as [|[i r] l] eqn:E; [done|]. intros [= <-]. exists i, r.
  assert ((i, r) ∈ List.filter (λ '(_, k), String.eqb (kr_Hash k) h) (map_to_list (db_keys d))) as [Hr Hh]%elem_of_bfilter
    by (rewrite E; by left).
  apply elem_of_map_to_list in Hr. apply String.eqb_eq in Hh. done.
Qed.

Lemma KeyBySecret_active d now secret k : Identity.KeyBySecret hash d now secret = Some k →
  ∃ i r, db_keys d !! i = Some r ∧ k = scanKey d i r ∧ Active now k = true.
Proof.
  unfold Identity.KeyBySecret. destruct (negb _); [done|]. intros (k0 & (i & r & Hr & E & _)%key_by_hash_row & Hk)%bind_Some.
  exists i, r. destruct (negb (Active now k0)) eqn:Ea; [done|]. apply negb_false_iff in Ea.
  assert (k0 = k) as <-; [|done]. destruct (String.eqb (k_Parent k0) ""); [by injection Hk|].
  apply bind_Some in Hk as (a & _ & Hk). destruct (Active now a); [by injection Hk|done].
Qed.

Lemma all_keys_row d k : k ∈ all_keys d → ∃ i r, db_keys d !! i = Some r ∧ k = scanKey d i r.
Proof.
  intros ([i r] & -> & Hr%elem_of_map_to_list)%elem_of_sort_stable%list_elem_of_fmap. by exists i, r.
Qed.
End reach.

