(* ===== verification/ImageRef.v ===== *)
(** * Image references and registries' names (internal/image/registry.go
    ParseRef; internal/gateway/registry_logins.go canonRegistry, checkRegistry) *)
From S2P Require Import Prelude GoStrings Spec.

Record Ref := { rf_Registry : string; rf_Repo : string; rf_Tag : string; rf_Digest : string }.

Definition Ref_String (r : Ref) : string :=
  let s := rf_Registry r +:+ "/" +:+ rf_Repo r in
  if negb (String.eqb (rf_Digest r) "") then s +:+ "@" +:+ rf_Digest r else s +:+ ":" +:+ rf_Tag r.

Definition reference (r : Ref) : string :=
  if negb (String.eqb (rf_Digest r) "") then rf_Digest r else rf_Tag r.

(** One component: runs of lowercase letters and digits, with one of [._-]
    between two; [ended] says a run has begun. *)
Definition repo_sep (c : ascii) : bool := is_char "." c || is_char "_" c || is_char "-" c.
Fixpoint repo_word (ended : bool) (l : list ascii) : bool :=
  match l with
  | [] => ended
  | c :: t => if is_lower_alnum c then repo_word true t else ended && repo_sep c && repo_word false t
  end.
Definition repoRE (s : string) : bool := forallb (repo_word false) (split_chars "/" (chars s)).
Definition tag_char (c : ascii) : bool := is_alnum c || repo_sep c.
Definition tagRE : string → bool := shape (λ c, is_alnum c || is_char "_" c) tag_char 127.
Definition digestRE (s : string) : bool :=
  match cut_prefix s "sha256:" with
  | Some hex => forallb is_hex_lower (chars hex) && (String.length hex =? 64)%nat
  | None => false
  end.

Definition names_registry (first : string) : bool :=
  contains_char "." first || contains_char ":" first || String.eqb first "localhost".

(** The registry the API is served from, and the rest of the reference. *)
Definition registry_of (rest : string) : string * string :=
  let hub := ("registry-1.docker.io"%string, if contains_char "/" rest then rest else "library/" +:+ rest) in
  match cut rest "/" with
  | Some (first, after) => if names_registry first then (first, after) else hub
  | None => hub
  end.

(** The tag, after the last colon, and what is before it. *)
Definition tag_of (rest : string) : string * string :=
  match last_index_byte rest ":" with
  | Some i => (of_chars (drop (S i) (chars rest)), of_chars (take i (chars rest)))
  | None => (""%string, rest)
  end.

Definition ParseRef (s : string) : option Ref :=
  '(digest, rest) ← match cut s "@" with
                    | Some (a, d) => if digestRE d then Some (d, a) else None
                    | None => Some (""%string, s)
                    end;
  let '(registry, rest) := registry_of rest in
  let '(tag, repo) := tag_of rest in
  let tag := if String.eqb tag "" && String.eqb digest "" then "latest"%string else tag in
  if negb (repoRE repo) then None
  else if negb (String.eqb tag "") && negb (tagRE tag) then None
  else Some {| rf_Registry := registry; rf_Repo := repo; rf_Tag := tag; rf_Digest := digest |}.

(** [registryRE]: [^[a-z0-9]([a-z0-9.-]*[a-z0-9])?(:[0-9]{1,5})?$]. *)
Definition registry_host (l : list ascii) : bool :=
  match l with
  | [] => false
  | c :: _ => is_lower_alnum c && forallb (λ c, is_lower_alnum c || is_char "." c || is_char "-" c) l &&
              match last l with Some d => is_lower_alnum d | None => false end
  end.
Definition registryRE (s : string) : bool :=
  match cut_chars ":" (chars s) with
  | Some (h, p) => registry_host h && forallb is_digit p && (1 <=? length p)%nat && (length p <=? 5)%nat
  | None => registry_host (chars s)
  end.
Definition checkRegistry (host : string) : bool := (strlen host <=? 255) && registryRE host.

Definition canonRegistry `{Unicode} (host : string) : string :=
  let host := to_lower host in
  if bool_decide (host ∈ ["docker.io"; "index.docker.io"; "registry-1.docker.io"]%string) then "docker.io" else host.

(** ** Parsing what is printed *)
Lemma str_app_nil (a : string) : a +:+ "" = a.
Proof. apply (inj chars). by rewrite chars_app, app_nil_r. Qed.

Lemma cut_none s c : cut s c = None ↔ c ∉ chars s.
Proof.
  unfold cut. rewrite <- last_index_chars_none. destruct (cut_chars c (chars s)) as [[a b]|] eqn:E.
  - apply cut_chars_some in E as [E _]. split; [done|]. rewrite last_index_chars_none. rewrite E. set_solver.
  - split; [|done]. intros _. apply last_index_chars_none. clear -E. revert E. induction (chars s) as [|x t IH]; cbn; [set_solver|].
    case_decide; [done|]. destruct (cut_chars c t) as [[]|]; [done|]. intros _. apply not_elem_of_cons. split; [done|by apply IH].
Qed.

Lemma cut_join a b c : c ∉ chars a → cut (a +:+ String c b) c = Some (a, b).
Proof.
  intros Hn. unfold cut. assert (cut_chars c (chars (a +:+ String c b)) = Some (chars a, chars b)) as ->.
  { apply cut_chars_some. by rewrite chars_app. }
  by rewrite !of_chars_chars.
Qed.

Lemma cut_spec s c a b : cut s c = Some (a, b) ↔ s = a +:+ String c b ∧ c ∉ chars a.
Proof.
  split; [|intros [-> Hn]; by apply cut_join]. unfold cut.
  destruct (cut_chars c (chars s)) as [[x y]|] eqn:E; [|done]. intros [= <- <-]. apply cut_chars_some in E as [E Hn].
  rewrite chars_of_chars. split; [|done]. apply (inj chars). rewrite chars_app, E, chars_of_chars. cbn. by rewrite chars_of_chars.
Qed.

Lemma tag_of_join repo tag : ":"%char ∉ chars tag → tag_of (repo +:+ String ":" tag) = (tag, repo).
Proof.
  intros Hn. unfold tag_of, last_index_byte. rewrite chars_app. cbn [String.list_ascii_of_string].
  assert (last_index_chars ":" (chars repo ++ ":"%char :: chars tag) = Some (length (chars repo))) as ->.
  { apply last_index_chars_some. split; [by rewrite list_lookup_middle|].
    by rewrite drop_app_ge by lia; replace (S (length (chars repo)) - length (chars repo))%nat with 1%nat by lia. }
  rewrite take_app_length. assert (drop (S (length (chars repo))) (chars repo ++ ":"%char :: chars tag) = chars tag) as ->.
  { rewrite drop_app_ge by lia. by replace (S (length (chars repo)) - length (chars repo))%nat with 1%nat by lia. }
  by rewrite !of_chars_chars.
Qed.

Lemma tag_of_none rest : ":"%char ∉ chars rest → tag_of rest = (""%string, rest).
Proof. intros Hn. unfold tag_of, last_index_byte. by rewrite (proj2 (last_index_chars_none _ _) Hn). Qed.

Lemma repo_word_chars ended l c : repo_word ended l = true → c ∈ l → is_lower_alnum c = true ∨ repo_sep c = true.
Proof.
  revert ended. induction l as [|x l IH]; intros ended; [set_solver|]. cbn. destruct (is_lower_alnum x) eqn:E.
  - intros H [->|Hc]%elem_of_cons; [by left|]. by eapply IH.
  - intros [[_ Hs]%andb_true_iff H]%andb_true_iff [->|Hc]%elem_of_cons; [by right|]. by eapply IH.
Qed.

(** A repository name has no character the reference is cut at. *)
Lemma repoRE_plain s c : repoRE s = true → c ∈ [":"; "@"]%char → c ∉ chars s.
Proof.
  intros Hr Hc Hin. unfold repoRE in Hr. rewrite <- (join_split_chars "/" (chars s)) in Hin. rewrite forallb_forall in Hr.
  revert Hr Hin. induction (split_chars "/" (chars s)) as [|w ws IH]; intros Hr Hin; cbn in Hin; [set_solver|].
  assert (c ∉ w) as Hw.
  { intros Hcw. destruct (repo_word_chars false w c) as [E|E]; [apply Hr; by left|done|..]; set_unfold in Hc; destruct Hc as [->| [->|[]]]; done. }
  destruct ws as [|w' ws]; [done|]. apply elem_of_app in Hin as [?|[->|Hin]%elem_of_cons]; [done|by set_unfold in Hc; destruct Hc as [?|[?|[]]]|].
  apply IH; [|done]. intros x Hx. apply Hr. by right.
Qed.

Lemma tagRE_plain s c : tagRE s = true → c ∈ [":"; "@"; "/"]%char → c ∉ chars s.
Proof.
  unfold tagRE, shape. destruct (chars s) as [|d t]; [done|]. intros [[Hd Ht]%andb_true_iff _]%andb_true_iff Hc Hin.
  rewrite forallb_forall in Ht. apply elem_of_cons in Hin as [->|Hin].
  - set_unfold in Hc. destruct Hc as [->|[->|[->|[]]]]; done.
  - apply list_elem_of_In, Ht in Hin. set_unfold in Hc. destruct Hc as [->|[->|[->|[]]]]; done.
Qed.

Lemma registry_of_spec rest registry after :
  "@"%char ∉ chars rest → registry_of rest = (registry, after) →
  names_registry registry = true ∧ "/"%char ∉ chars registry ∧ "@"%char ∉ chars registry ∧ "@"%char ∉ chars after.
Proof.
  unfold registry_of. intros Hat.
  assert ("@"%char ∉ chars (if contains_char "/" rest then rest else "library/" +:+ rest)) as Hhub
    by (destruct (contains_char "/" rest); [done|rewrite chars_app; cbn; set_solver]).
  assert (names_registry "registry-1.docker.io" = true ∧ "/"%char ∉ chars "registry-1.docker.io" ∧ "@"%char ∉ chars "registry-1.docker.io") as Hh
    by (split_and!; [reflexivity|..]; cbn; set_solver).
  destruct (cut rest "/") as [[first aft]|] eqn:Ec; [|intros [= <- <-]; naive_solver].
  destruct (names_registry first) eqn:En; [|intros [= <- <-]; naive_solver]. intros [= <- <-]. apply cut_spec in Ec as [-> Hf].
  rewrite chars_app in Hat. cbn in Hat. split_and!; [done|done|set_solver|set_solver].
Qed.

(** An image reference that parses is parsed again from what it prints as:
    the registry, the repository and the tag are the ones read, and a digest
    pins it in the tag's place. So the image a name resolved to is the image
    that name asks for wherever it is handed on. *)
Theorem ParseRef_String s r (Hr : ParseRef s = Some r) :
  ParseRef (Ref_String r) =
    Some {| rf_Registry := rf_Registry r; rf_Repo := rf_Repo r; rf_Tag := if String.eqb (rf_Digest r) "" then rf_Tag r else "";
            rf_Digest := rf_Digest r |}.
Proof.
  unfold ParseRef in Hr. apply bind_Some in Hr as ([digest rest] & Hd & Hr).
  assert ("@"%char ∉ chars rest ∧ (digest = ""%string ∨ digestRE digest = true)) as [Hat Hdig].
  { destruct (cut s "@") as [[a d]|] eqn:Ec.
    - destruct (digestRE d) eqn:E; [|done]. injection Hd as <- <-. apply cut_spec in Ec as [_ Ha]. by split; [|right].
    - injection Hd as <- <-. apply cut_none in Ec. by split; [|left]. }
  destruct (registry_of rest) as [registry rest'] eqn:Ereg. destruct (registry_of_spec _ _ _ Hat Ereg) as (Hn & Hs & Ha & _).
  destruct (tag_of rest') as [tag repo] eqn:Etag. destruct (repoRE repo) eqn:Erepo; [|done]. cbn [negb] in Hr.
  set (tag' := if String.eqb tag "" && String.eqb digest "" then "latest"%string else tag) in *.
  destruct (negb (String.eqb tag' "") && negb (tagRE tag')) eqn:Et; [done|]. injection Hr as <-. cbn [rf_Registry rf_Repo rf_Tag rf_Digest].
  assert (∀ t, registry_of (registry +:+ "/" +:+ repo +:+ t) = (registry, repo +:+ t)) as Hreg.
  { intros t. unfold registry_of. change (registry +:+ "/" +:+ repo +:+ t) with (registry +:+ String "/" (repo +:+ t)).
    rewrite (cut_join registry (repo +:+ t) "/") by done. by rewrite Hn. }
  assert ("@"%char ∉ chars repo) as Hrat by (eapply repoRE_plain; [done|set_solver]).
  assert (":"%char ∉ chars repo) as Hrc by (eapply repoRE_plain; [done|set_solver]).
  unfold Ref_String. cbn [rf_Registry rf_Repo rf_Tag rf_Digest]. destruct (String.eqb_spec digest "") as [Ed|Ed].
  - rewrite Ed in *. cbn [negb].
    assert (tagRE tag' = true ∧ String.eqb tag' "" = false) as [Ht Hne].
    { assert (String.eqb tag' "" = false) as Hne.
      { unfold tag'. destruct (String.eqb_spec tag "") as [->|Hne]; [done|]. by apply String.eqb_neq. }
      split; [|done]. rewrite Hne in Et. by apply negb_false_iff in Et. }
    assert ("@"%char ∉ chars tag') as Htat by (eapply tagRE_plain; [done|set_solver]).
    assert (":"%char ∉ chars tag') as Htc by (eapply tagRE_plain; [done|set_solver]).
    rewrite <- (str_app_assoc registry). change (("/" +:+ repo) +:+ ":" +:+ tag') with ("/" +:+ (repo +:+ (":" +:+ tag'))).
    unfold ParseRef. assert (cut (registry +:+ "/" +:+ repo +:+ ":" +:+ tag') "@" = None) as ->.
    { apply cut_none. rewrite !chars_app. cbn. set_solver. }
    cbn [mbind option_bind]. rewrite Hreg. change (repo +:+ ":" +:+ tag') with (repo +:+ String ":" tag').
    rewrite tag_of_join by done. rewrite Hne. cbn [andb]. rewrite Erepo. cbn [negb]. by rewrite Hne, Ht.
  - cbn [negb]. destruct Hdig as [?|Hdig]; [done|]. rewrite <- (str_app_assoc registry).
    unfold ParseRef. assert (cut (registry +:+ ("/" +:+ repo) +:+ "@" +:+ digest) "@" = Some (registry +:+ "/" +:+ repo, digest)) as ->.
    { apply cut_spec. split; [by rewrite str_app_assoc|]. rewrite !chars_app. cbn. set_solver. }
    rewrite Hdig. cbn [mbind option_bind]. specialize (Hreg ""%string). rewrite str_app_nil in Hreg. rewrite Hreg.
    rewrite tag_of_none by done. apply String.eqb_neq in Ed. rewrite Ed. cbn [andb String.eqb]. by rewrite Erepo.
Qed.

Lemma ParseRef_String_witness :
  ParseRef "ghcr.io/acme/tool" = Some {| rf_Registry := "ghcr.io"; rf_Repo := "acme/tool"; rf_Tag := "latest"; rf_Digest := "" |} ∧
  ParseRef "ghcr.io/acme/tool:latest" = ParseRef "ghcr.io/acme/tool" ∧
  ParseRef "alpine" = ParseRef "registry-1.docker.io/library/alpine:latest" ∧ ParseRef "acme/Tool" = None.
Proof.
  split; [reflexivity|]. split; [exact (ParseRef_String "ghcr.io/acme/tool" _ eq_refl)|]. split; reflexivity.
Defined.
