(* ===== verification/Secrets.v ===== *)
(** * Sealed values: secrets and registry logins (internal/gateway: secrets.go,
    registry_logins.go, sql_jobs.go)

    What a tenant keeps sealed with the gateway's key, each bound to where it is
    kept, and what a run's environment or a create's login is opened from. A
    statement is asked as the tenant it is for, whose rows are the only ones it
    names, so row-level security changes nothing here. *)
From S2P Require Import Prelude GoSort GoStrings Api PolicyEnv Spec ServiceSpec Access Identity ImageRef.

(** ** Sealing *)

(** AES-256-GCM, of the standard library. *)
Class AEAD := {
  aead_seal : string → string → string → string;          (** nonce, plain, additional data *)
  aead_open : string → string → string → option string    (** nonce, sealed, additional data *)
}.
(** What is sealed opens to itself, with the data it was sealed with and no
    other. *)
Class AEADLaws `{AEAD} := {
  aead_open_seal : ∀ n p ad, aead_open n (aead_seal n p ad) ad = Some p;
  aead_bound : ∀ n p ad ad' q, aead_open n (aead_seal n p ad) ad' = Some q → ad' = ad
}.

Definition NonceSize : nat := 12.
Definition nul : string := String "000" "".

Section sealer.
Context `{AEAD}.
Definition seal (nonce plain ad : string) : string := nonce +:+ aead_seal nonce plain ad.
Definition open (sealed ad : string) : option string :=
  if (String.length sealed <? NonceSize)%nat then None
  else aead_open (of_chars (take NonceSize (chars sealed))) (of_chars (drop NonceSize (chars sealed))) ad.
End sealer.

Definition secretAD (tenant name : string) : string := "sandbox-gateway secret v1" +:+ nul +:+ tenant +:+ nul +:+ name.
Definition registryLoginAD (tenant registry username : string) : string :=
  "registry-login" +:+ nul +:+ tenant +:+ nul +:+ registry +:+ nul +:+ username.
Definition jobEnvAD (id : string) : string := "sandbox-gateway job env v1" +:+ nul +:+ id.

(** ** The tables *)
Definition maxSecretValue : Z := 65536.
Definition maxSecrets : Z := 1000.
Definition maxRegistryLogins : Z := 50.

(** Secrets under their tenant and name, logins under their tenant and
    registry. *)
Record vault := {
  va_db : db;
  va_secrets : gmap (string * string) (string * Z);
  va_logins : gmap (string * string) (string * string * Z)
}.
Definition empty_vault : vault := {| va_db := empty_db; va_secrets := ∅; va_logins := ∅ |}.

Definition of_tenant {A} (tenant : string) (m : gmap (string * string) A) : gmap (string * string) A :=
  filter (λ kx, String.eqb (fst kx.1) tenant = true) m.
Definition count_of {A} (tenant : string) (m : gmap (string * string) A) : Z := Z.of_nat (size (of_tenant tenant m)).

Inductive vault_error := TooMany | ErrNoSuchSecret | ErrNoSuchRegistryLogin.

Definition PutSecret (now : Z) (tenant name sealed : string) (v : vault) : result vault_error vault :=
  reject_if (negb (bool_decide (is_Some (va_secrets v !! (tenant, name)))) && (maxSecrets <=? count_of tenant (va_secrets v))) TooMany;;
  Ok {| va_db := make_org (micros now) tenant (va_db v); va_secrets := <[(tenant, name) := (sealed, micros now)]> (va_secrets v);
        va_logins := va_logins v |}.
Definition SealedSecret (v : vault) (tenant name : string) : option string := fst <$> va_secrets v !! (tenant, name).
(** Names and when each was set, never a value. *)
Definition SecretsOf (v : vault) (tenant : string) : list (string * Z) :=
  sort_stable (λ a b, str_ltb (fst a) (fst b)) ((λ '((_, n), (_, t)), (n, t)) <$> map_to_list (of_tenant tenant (va_secrets v))).
Definition DeleteSecret (tenant name : string) (v : vault) : result vault_error vault :=
  reject_if (negb (bool_decide (is_Some (va_secrets v !! (tenant, name))))) ErrNoSuchSecret;;
  Ok {| va_db := va_db v; va_secrets := delete (tenant, name) (va_secrets v); va_logins := va_logins v |}.

Definition PutRegistryLogin (now : Z) (tenant registry username sealed : string) (v : vault) : result vault_error vault :=
  reject_if (negb (bool_decide (is_Some (va_logins v !! (tenant, registry)))) && (maxRegistryLogins <=? count_of tenant (va_logins v))) TooMany;;
  Ok {| va_db := make_org (micros now) tenant (va_db v); va_secrets := va_secrets v;
        va_logins := <[(tenant, registry) := (username, sealed, micros now)]> (va_logins v) |}.
Definition RegistryLogin_ (v : vault) (tenant registry : string) : option (string * string) := fst <$> va_logins v !! (tenant, registry).
Definition RegistryLoginsOf (v : vault) (tenant : string) : list (string * string * Z) :=
  sort_stable (λ a b, str_ltb (fst (fst a)) (fst (fst b)))
    ((λ '((_, r), (u, _, t)), (r, u, t)) <$> map_to_list (of_tenant tenant (va_logins v))).
Definition DeleteRegistryLogin (tenant registry : string) (v : vault) : result vault_error vault :=
  reject_if (negb (bool_decide (is_Some (va_logins v !! (tenant, registry))))) ErrNoSuchRegistryLogin;;
  Ok {| va_db := va_db v; va_secrets := va_secrets v; va_logins := delete (tenant, registry) (va_logins v) |}.

(** ** The handlers *)
Definition checkRegistryLoginRequest (username password : string) : bool :=
  negb (String.eqb username "") && (strlen username <=? 256) &&
  negb (existsb (λ c, contains_char c username) [":"; "013"; "010"; "000"]%char) &&
  negb (String.eqb password "") && (strlen password <=? 8192) &&
  negb (existsb (λ c, contains_char c password) ["013"; "010"; "000"]%char).

Inductive secrets_error :=
| sx_scope | sx_no_key | sx_name (e : secret_error) | sx_value | sx_request | sx_vault (e : vault_error)
| sx_missing (name : string) | sx_sealed (name : string) | sx_refs (e : secret_error).
Abbreviation sx A := (result secrets_error A).

Section gateway.
Context `{Unicode} `{AEAD}.
(** The gateway has a secrets key. *)
Context (keyed : bool).

Definition lift_vault {A} (r : result vault_error A) : sx A := match r with Ok a => Ok a | Err e => Err (sx_vault e) end.

Definition putSecret (now : Z) (nonce : string) (p : Principal) (name value : string) (v : vault) : sx vault :=
  reject_if (negb (Can p ScopeSecretsWrite)) sx_scope;;
  reject_if (negb keyed) sx_no_key;;
  match checkSecretName name with Ok _ => Ok () | Err e => Err (sx_name e) end;;
  reject_if (strlen value >? maxSecretValue) sx_value;;
  reject_if (contains_char "000" value) sx_value;;
  lift_vault (PutSecret now (p_Tenant p) name (seal nonce value (secretAD (p_Tenant p) name)) v).
Definition listSecrets (p : Principal) (v : vault) : sx (list (string * Z)) :=
  reject_if (negb (Can p ScopeRead)) sx_scope;; Ok (SecretsOf v (p_Tenant p)).
Definition deleteSecret (p : Principal) (name : string) (v : vault) : sx vault :=
  reject_if (negb (Can p ScopeSecretsWrite)) sx_scope;; lift_vault (DeleteSecret (p_Tenant p) name v).

Definition putRegistryLogin (now : Z) (nonce : string) (p : Principal) (host username password : string) (v : vault) : sx vault :=
  reject_if (negb (Can p ScopeSecretsWrite)) sx_scope;;
  reject_if (negb keyed) sx_no_key;;
  let registry := canonRegistry host in
  reject_if (negb (checkRegistry registry)) sx_request;;
  reject_if (negb (checkRegistryLoginRequest username password)) sx_request;;
  lift_vault (PutRegistryLogin now (p_Tenant p) registry username (seal nonce password (registryLoginAD (p_Tenant p) registry username)) v).
Definition listRegistryLogins (p : Principal) (v : vault) : sx (list (string * string * Z)) :=
  reject_if (negb (Can p ScopeRead)) sx_scope;; Ok (RegistryLoginsOf v (p_Tenant p)).
Definition deleteRegistryLogin (p : Principal) (host : string) (v : vault) : sx vault :=
  reject_if (negb (Can p ScopeSecretsWrite)) sx_scope;; lift_vault (DeleteRegistryLogin (p_Tenant p) (canonRegistry host) v).

(** ** Opening them *)
Definition open_secret (v : vault) (tenant name : string) : sx string :=
  sealed ← of_option (SealedSecret v tenant name) (sx_missing name);
  of_option (open sealed (secretAD tenant name)) (sx_sealed name).

(** The variables of the references, one after another. *)
Fixpoint secret_values (v : vault) (tenant : string) (refs : list secretRef) (out : gmap string string) : sx (gmap string string) :=
  match refs with
  | [] => Ok out
  | r :: refs => plain ← open_secret v tenant (sec_name r); secret_values v tenant refs (<[sec_env r := plain]> out)
  end.
Definition secretValues (v : vault) (tenant : string) (refs : list string) : sx (gmap string string) :=
  if bool_decide (refs = []) then Ok ∅
  else
    reject_if (negb keyed) sx_no_key;;
    parsed ← match parseSecretRefs refs ∅ with Ok l => Ok l | Err e => Err (sx_refs e) end;
    secret_values v tenant parsed ∅.

(** The login a create's image is pulled with: none for an image the node is
    to refuse, or on a registry the tenant has no login for. *)
Definition login_for (v : vault) (tenant img : string) : sx (option RegistryLogin) :=
  if String.eqb img "" || negb keyed then Ok None
  else match ParseRef img with
       | None => Ok None
       | Some ref =>
           let registry := canonRegistry (rf_Registry ref) in
           match RegistryLogin_ v tenant registry with
           | None => Ok None
           | Some (user, sealed) =>
               pw ← of_option (open sealed (registryLoginAD tenant registry user)) (sx_sealed registry);
               Ok (Some {| rl_Registry := rf_Registry ref; rl_Username := user; rl_Password := pw |})
           end
       end.
End gateway.

(** ** Whatever is asked of the vault *)
Inductive vault_op :=
| V_put (nonce : string) (p : Principal) (name value : string)
| V_delete (p : Principal) (name : string)
| V_put_login (nonce : string) (p : Principal) (host username password : string)
| V_delete_login (p : Principal) (host : string).

(** What the tenants would say they keep: values under tenant and name. *)
Abbreviation kept := (gmap (string * string) string).

Section vault.
Context `{Unicode} `{AEAD}.

Definition vault_step (keyed : bool) (now : Z) (o : vault_op) (v : vault) : sx vault :=
  match o with
  | V_put nonce p name value => putSecret keyed now nonce p name value v
  | V_delete p name => deleteSecret p name v
  | V_put_login nonce p host username password => putRegistryLogin keyed now nonce p host username password v
  | V_delete_login p host => deleteRegistryLogin p host v
  end.
(** What is refused changes nothing. *)
Fixpoint vault_run (keyed : bool) (ops : list (Z * vault_op)) (v : vault) : vault :=
  match ops with
  | [] => v
  | (now, o) :: ops => vault_run keyed ops (match vault_step keyed now o v with Ok v => v | Err _ => v end)
  end.

(** ** What a tenant would say it keeps *)
Definition kept_step (o : vault_op) (k : kept) : kept :=
  match o with
  | V_put _ p name value => <[(p_Tenant p, name) := value]> k
  | V_delete p name => delete (p_Tenant p, name) k
  | _ => k
  end.
(** [accepted]: the vault took the operation. *)
Fixpoint kept_run (keyed : bool) (ops : list (Z * vault_op)) (v : vault) (k : kept) : kept :=
  match ops with
  | [] => k
  | (now, o) :: ops =>
      match vault_step keyed now o v with
      | Ok v => kept_run keyed ops v (kept_step o k)
      | Err _ => kept_run keyed ops v k
      end
  end.
End vault.

(** ** What a sealed value is bound to *)
Definition nul_free (s : string) : Prop := ("000"%char : ascii) ∉ chars s.

Lemma nul_split a b a' b' : nul_free a → nul_free a' → a +:+ nul +:+ b = a' +:+ nul +:+ b' → a = a' ∧ b = b'.
Proof.
  intros Ha Ha' E. assert (cut (a +:+ String "000" b) "000" = cut (a' +:+ String "000" b') "000") as Hc by (by f_equal).
  rewrite !cut_join in Hc by done. by injection Hc as -> ->.
Qed.

Lemma app_same_prefix (p a b : string) : p +:+ a = p +:+ b → a = b.
Proof. intros E. apply (f_equal chars) in E. rewrite !chars_app in E. apply app_inv_head in E. by apply (inj chars). Qed.

Lemma secretAD_inj t n t' n' : nul_free t → nul_free t' → secretAD t n = secretAD t' n' → t = t' ∧ n = n'.
Proof. intros Ht Ht' E. unfold secretAD in E. apply app_same_prefix, app_same_prefix in E. by apply nul_split. Qed.
Lemma registryLoginAD_inj t r u t' r' u' :
  nul_free t → nul_free t' → nul_free r → nul_free r' → registryLoginAD t r u = registryLoginAD t' r' u' → t = t' ∧ r = r' ∧ u = u'.
Proof.
  intros Ht Ht' Hr Hr' E. unfold registryLoginAD in E. apply app_same_prefix, app_same_prefix in E.
  apply nul_split in E as [-> E]; [|done..]. by apply nul_split in E as [-> ->].
Qed.
Lemma secret_not_login t n t' r u : secretAD t n ≠ registryLoginAD t' r u.
Proof. done. Qed.
Lemma secret_not_env t n id : secretAD t n ≠ jobEnvAD id.
Proof. done. Qed.
Lemma login_not_env t r u id : registryLoginAD t r u ≠ jobEnvAD id.
Proof. done. Qed.

Section sealing.
Context `{AEADLaws}.

Lemma open_eq nonce plain ad ad' :
  String.length nonce = NonceSize → open (seal nonce plain ad) ad' = aead_open nonce (aead_seal nonce plain ad) ad'.
Proof.
  intros Hn. unfold open, seal. assert ((String.length (nonce +:+ aead_seal nonce plain ad) <? NonceSize)%nat = false) as ->.
  { apply Nat.ltb_ge. rewrite <- length_chars, chars_app, length_app, length_chars. lia. }
  rewrite chars_app, <- Hn, <- (length_chars nonce), take_app_length, drop_app_length. by rewrite !of_chars_chars.
Qed.
Lemma open_seal nonce plain ad : String.length nonce = NonceSize → open (seal nonce plain ad) ad = Some plain.
Proof. intros Hn. rewrite open_eq by done. apply aead_open_seal. Qed.
Lemma open_elsewhere nonce plain ad ad' : String.length nonce = NonceSize → ad' ≠ ad → open (seal nonce plain ad) ad' = None.
Proof.
  intros Hn Hne. rewrite open_eq by done. destruct (aead_open _ _ _) as [q|] eqn:E; [|done]. by apply aead_bound in E.
Qed.
End sealing.

(** ** The count of a tenant's rows *)
Lemma count_insert {A} (t : string) (m : gmap (string * string) A) (k : string * string) (x : A) :
  count_of t (<[k := x]> m) = count_of t m + if String.eqb (fst k) t && negb (bool_decide (is_Some (m !! k))) then 1 else 0.
Proof.
  unfold count_of, of_tenant. rewrite map_filter_insert. cbn [fst snd]. case_decide as E.
  - rewrite E. cbn [andb]. destruct (m !! k) as [y|] eqn:Ek.
    + rewrite bool_decide_eq_true_2 by done. cbn. rewrite map_size_insert_Some; [lia|]. exists y. by apply map_lookup_filter_Some.
    + rewrite bool_decide_eq_false_2 by (by intros [? [=]]). cbn. rewrite map_size_insert_None; [lia|]. apply map_lookup_filter_None. by left.
  - apply not_true_is_false in E. rewrite E. cbn. rewrite map_filter_delete. rewrite delete_id; [lia|].
    apply map_lookup_filter_None. right. intros y Hy. cbn. by rewrite E.
Qed.
Lemma count_delete {A} (t : string) (m : gmap (string * string) A) (k : string * string) : count_of t (delete k m) ≤ count_of t m.
Proof.
  unfold count_of, of_tenant. rewrite map_filter_delete. rewrite map_size_delete. destruct (_ !! k); cbn; lia.
Qed.

(** ** The vault keeps what the tenants put in it *)
Definition nonce_of (o : vault_op) : Prop :=
  match o with V_put nonce p _ _ | V_put_login nonce p _ _ _ => String.length nonce = NonceSize ∧ nul_free (p_Tenant p) | _ => True end.

Section vault_facts.
Context `{Unicode} `{AEADLaws} (keyed : bool).

Record agrees (v : vault) (k : kept) : Prop := {
  ag_some : ∀ t n sealed at_, va_secrets v !! (t, n) = Some (sealed, at_) → nul_free t ∧
    ∃ nonce plain, String.length nonce = NonceSize ∧ sealed = seal nonce plain (secretAD t n) ∧ k !! (t, n) = Some plain;
  ag_none : ∀ t n, va_secrets v !! (t, n) = None → k !! (t, n) = None;
  ag_login : ∀ t r u sealed at_, va_logins v !! (t, r) = Some (u, sealed, at_) → nul_free t ∧ nul_free r ∧
    ∃ nonce pw, String.length nonce = NonceSize ∧ sealed = seal nonce pw (registryLoginAD t r u);
  ag_count : ∀ t, count_of t (va_secrets v) ≤ maxSecrets ∧ count_of t (va_logins v) ≤ maxRegistryLogins
}.

Lemma registryRE_nul_free s : registryRE s = true → nul_free s.
Proof.
  assert (∀ l, registry_host l = true → ("000"%char : ascii) ∉ l) as Hh.
  { intros [|c l]; [done|]. cbn -[forallb]. intros [[_ Hall]%andb_true_iff _]%andb_true_iff Hin. rewrite forallb_forall in Hall.
    apply list_elem_of_In, Hall in Hin. done. }
  unfold registryRE, nul_free. destruct (cut_chars ":" (chars s)) as [[h p]|] eqn:E; [|apply Hh].
  apply cut_chars_some in E as [-> _]. intros [[[Hhost Hp]%andb_true_iff _]%andb_true_iff _]%andb_true_iff.
  rewrite forallb_forall in Hp. apply Hh in Hhost. rewrite elem_of_app, elem_of_cons. intros [?|[?|Hin]]; [done|done|].
  by apply list_elem_of_In, Hp in Hin.
Qed.

Lemma agrees_step now o v k v' : nonce_of o → vault_step keyed now o v = Ok v' → agrees v k → agrees v' (kept_step o k).
Proof.
  intros Hn Hstep [A1 A2 A3 A4]. destruct o as [nonce p name value|p name|nonce p host username password|p host]; cbn in *.
  - destruct Hn as [Hn Ht]. unfold putSecret in Hstep. rewrite !guard_ok in Hstep. destruct Hstep as (_ & _ & Hstep).
    destruct (checkSecretName name); [|done]. cbn in Hstep. rewrite !guard_ok in Hstep. destruct Hstep as (_ & _ & Hstep).
    unfold lift_vault, PutSecret in Hstep. destruct (negb _ && _) eqn:Ec; [done|]. injection Hstep as <-. split; cbn; [..|done|].
    + intros t n sealed at_ [[[= <- <-] [= <- <-]]|[Hne Hs]]%lookup_insert_Some.
      * split; [done|]. exists nonce, value. by rewrite lookup_insert_eq.
      * rewrite lookup_insert_ne by done. by eapply A1.
    + intros t n [Hs Hne]%lookup_insert_None. rewrite lookup_insert_ne by done. by apply A2.
    + intros t. split; [|apply A4]. rewrite count_insert. cbn [fst]. destruct (A4 t) as [A _].
      destruct (String.eqb_spec (p_Tenant p) t) as [<-|]; cbn [andb]; [|lia]. destruct (bool_decide _); cbn in Ec |- *; lia.
  - unfold deleteSecret in Hstep. rewrite guard_ok in Hstep. destruct Hstep as [_ Hstep]. unfold lift_vault, DeleteSecret in Hstep.
    destruct (negb _) eqn:Ec; [done|]. injection Hstep as <-. split; cbn; [..|done|].
    + intros t n sealed at_ [Hne Hs]%lookup_delete_Some. rewrite lookup_delete_ne by done. by eapply A1.
    + intros t n [[= <- <-]|Hs]%lookup_delete_None; [by rewrite lookup_delete_eq|]. apply lookup_delete_None. right. by apply A2.
    + intros t. split; [|apply A4]. etransitivity; [apply count_delete|apply A4].
  - destruct Hn as [Hn Ht]. unfold putRegistryLogin in Hstep. rewrite !guard_ok in Hstep. destruct Hstep as (_ & _ & Hreg & _ & Hstep).
    unfold lift_vault, PutRegistryLogin in Hstep. destruct (negb _ && _) eqn:Ec in Hstep; [done|]. injection Hstep as <-. split; cbn; [done..| |].
    + intros t r u sealed at_ [[[= <- <-] [= <- <- <-]]|[Hne Hs]]%lookup_insert_Some; [|by eapply A3].
      apply negb_false_iff in Hreg. apply andb_prop in Hreg as [_ Hreg]. split_and!; [done|by apply registryRE_nul_free|by exists nonce, password].
    + intros t. split; [apply A4|]. rewrite count_insert. cbn [fst]. destruct (A4 t) as [_ A].
      destruct (String.eqb_spec (p_Tenant p) t) as [<-|]; cbn [andb]; [|lia]. destruct (bool_decide _); cbn in Ec |- *; lia.
  - unfold deleteRegistryLogin in Hstep. rewrite guard_ok in Hstep. destruct Hstep as [_ Hstep]. unfold lift_vault, DeleteRegistryLogin in Hstep.
    destruct (negb _) eqn:Ec in Hstep; [done|]. injection Hstep as <-. split; cbn; [done..| |].
    + intros t r u sealed at_ [Hne Hs]%lookup_delete_Some. by eapply A3.
    + intros t. split; [apply A4|]. etransitivity; [apply count_delete|apply A4].
Qed.

Lemma agrees_run ops : ∀ v k, Forall (λ x, nonce_of x.2) ops → agrees v k → agrees (vault_run keyed ops v) (kept_run keyed ops v k).
Proof.
  induction ops as [|[now o] ops IH]; intros v k Hops Hag; [done|]. apply Forall_cons in Hops as [Ho Hops]. cbn.
  destruct (vault_step keyed now o v) as [v'|e] eqn:E; [|by apply IH]. apply IH; [done|]. by eapply agrees_step.
Qed.

Lemma agrees_empty : agrees empty_vault ∅.
Proof.
  split; cbn; try (intros *; by rewrite lookup_empty). intros t. unfold count_of, of_tenant. rewrite !map_filter_empty, map_size_empty. done.
Qed.

(** The values of the references, as the tenants would say them. *)
Fixpoint kept_values (k : kept) (tenant : string) (refs : list secretRef) (out : gmap string string) : sx (gmap string string) :=
  match refs with
  | [] => Ok out
  | r :: refs =>
      match k !! (tenant, sec_name r) with
      | Some plain => kept_values k tenant refs (<[sec_env r := plain]> out)
      | None => Err (sx_missing (sec_name r))
      end
  end.

Lemma open_secret_kept v k t n : agrees v k → open_secret v t n = of_option (k !! (t, n)) (sx_missing n).
Proof.
  intros [A1 A2 _ _]. unfold open_secret, SealedSecret. destruct (va_secrets v !! (t, n)) as [[sealed at_]|] eqn:E.
  - destruct (A1 _ _ _ _ E) as (_ & nonce & plain & Hn & -> & ->). cbn. by rewrite open_seal.
  - by rewrite (A2 _ _ E).
Qed.

Lemma secret_values_kept v k t refs : agrees v k → ∀ out, secret_values v t refs out = kept_values k t refs out.
Proof.
  intros Hag. induction refs as [|r refs IH]; intros out; [done|]. cbn. rewrite (open_secret_kept v k) by done.
  destruct (k !! (t, sec_name r)); [|done]. cbn. apply IH.
Qed.

(** C33. The vault is the map of values its tenants put in it. Whatever has been
    put and removed, by whomever and in whatever order, the variables a run's
    secrets set are those of its own tenant's latest values, a reference to a
    name its tenant does not keep is refused by that name, and no value fails
    to open; what is refused puts nothing in, and no tenant ever holds more than
    its share of secrets or of registry logins. *)
Theorem vault_is_what_tenants_put ops tenant refs
    (Hkey : keyed = true) (Hops : Forall (λ x, nonce_of x.2) ops) :
  let v := vault_run keyed ops empty_vault in
  secretValues keyed v tenant refs =
    (if bool_decide (refs = []) then Ok ∅
     else match parseSecretRefs refs ∅ with
          | Ok parsed => kept_values (kept_run keyed ops empty_vault ∅) tenant parsed ∅
          | Err e => Err (sx_refs e)
          end) ∧
  count_of tenant (va_secrets v) ≤ maxSecrets ∧ count_of tenant (va_logins v) ≤ maxRegistryLogins.
Proof.
  pose proof (agrees_run ops empty_vault ∅ Hops agrees_empty) as Hag. cbn zeta. split; [|apply Hag].
  unfold secretValues. destruct (bool_decide (refs = [])); [done|]. rewrite Hkey. cbn [negb reject_if mbind result_bind].
  destruct (parseSecretRefs refs ∅) as [parsed|e]; [|done]. cbn. rewrite Hkey in Hag. by apply secret_values_kept.
Qed.

(** C26. A sealed value opens where it was put and nowhere else. Moved to another
    name, another tenant, a registry login or a job's environment, what the
    vault holds does not open, so whoever can write the database's rows but has
    not the key can put no tenant's secret within another's reach. *)
Theorem sealed_value_stays_put ops t n sealed at_
    (Hops : Forall (λ x, nonce_of x.2) ops) (Hs : va_secrets (vault_run keyed ops empty_vault) !! (t, n) = Some (sealed, at_)) :
  (∃ plain, open sealed (secretAD t n) = Some plain) ∧
  (∀ t' n', nul_free t' → (t', n') ≠ (t, n) → open sealed (secretAD t' n') = None) ∧
  (∀ t' r u, open sealed (registryLoginAD t' r u) = None) ∧ (∀ id, open sealed (jobEnvAD id) = None).
Proof.
  destruct (agrees_run ops empty_vault ∅ Hops agrees_empty) as [A1 _ _ _].
  destruct (A1 t n sealed at_ Hs) as (Ht & nonce & plain & Hn & -> & _). split_and!.
  - exists plain. by apply open_seal.
  - intros t' n' Ht' Hne. apply open_elsewhere; [done|]. intros [-> ->]%secretAD_inj; done.
  - intros t' r u. apply open_elsewhere; [done|]. intros E. by apply eq_sym, secret_not_login in E.
  - intros id. apply open_elsewhere; [done|]. intros E. by apply eq_sym, secret_not_env in E.
Qed.
End vault_facts.

(** ** A tenant's secret, on a sealing that keeps the additional data *)
Fixpoint marked (l : list ascii) : list ascii := match l with [] => ["0"%char] | c :: l => "1"%char :: c :: marked l end.
Lemma marked_prefix a : ∀ b p, marked a `prefix_of` marked b ++ p → a = b.
Proof.
  induction a as [|c a IH]; intros [|d b] p [r E]; cbn in E; [done|discriminate E..|].
  injection E as -> E. f_equal. apply (IH b p). by exists r.
Qed.
#[local] Instance plain_aead : AEAD := {|
  aead_seal _ p ad := of_chars (marked (chars ad)) +:+ p; aead_open _ s ad := cut_prefix s (of_chars (marked (chars ad))) |}.
#[local] Instance plain_aead_laws : AEADLaws.
Proof.
  split; cbn.
  - intros _ p ad. by apply cut_prefix_some.
  - intros _ p ad ad' q E. apply cut_prefix_some, (f_equal chars) in E. rewrite !chars_app, !chars_of_chars in E.
    apply (inj chars), (marked_prefix _ _ (chars p)). by eexists.
Qed.
#[local] Instance plain_letters : Unicode := ascii_unicode.

Definition writer (tenant : string) : Principal := {|
  p_User := "alice"; p_Tenant := tenant; p_KeyTenant := tenant; p_KeyID := "key_a"; p_Scopes := [ScopeSecretsWrite]; p_Sandbox := "";
  p_Bound := false; p_BoundOrg := "" |}.
Definition puts : list (Z * vault_op) := [
  (1000, V_put "123456789012" (writer "acme") "openai-prod" "sk-old"); (2000, V_put "123456789013" (writer "acme") "openai-prod" "sk-new");
  (3000, V_put "123456789014" (writer "beta") "openai-prod" "sk-beta"); (4000, V_put "123456789015" (writer "acme") "LD_PRELOAD" "x")].

Lemma puts_nonces : Forall (λ x, nonce_of x.2) puts.
Proof. repeat (apply Forall_cons; split; [split; [reflexivity|unfold nul_free; cbn; set_solver]|]). apply Forall_nil. exact I. Qed.

Lemma vault_is_what_tenants_put_witness :
  secretValues true (vault_run true puts empty_vault) "acme" ["OPENAI_API_KEY=openai-prod"%string] = Ok {["OPENAI_API_KEY"%string := "sk-new"%string]}.
Proof.
  rewrite (proj1 (vault_is_what_tenants_put true puts "acme" ["OPENAI_API_KEY=openai-prod"%string] eq_refl puts_nonces)).
  match goal with |- ?l = ?r => assert (match l with Ok m => bool_decide (m = {["OPENAI_API_KEY"%string := "sk-new"%string]}) | Err _ => false end = true) as E by (vm_compute; reflexivity); revert E; generalize l end.
  intros [m|e] E; [|discriminate E]. apply bool_decide_eq_true in E. rewrite E. reflexivity.
Defined.

Lemma sealed_row v t n s :
  match SealedSecret v t n with Some x => String.eqb x s | None => false end = true → ∃ at_, va_secrets v !! (t, n) = Some (s, at_).
Proof. unfold SealedSecret. destruct (va_secrets v !! (t, n)) as [[x at_]|]; [|done]. intros E. apply String.eqb_eq in E. cbn in E. subst x. by exists at_. Qed.

Lemma sealed_value_stays_put_witness :
  ∃ sealed at_, va_secrets (vault_run true puts empty_vault) !! ("acme"%string, "openai-prod"%string) = Some (sealed, at_) ∧
    open sealed (secretAD "acme" "openai-prod") = Some "sk-new"%string ∧ open sealed (secretAD "beta" "openai-prod") = None.
Proof.
  destruct (sealed_row (vault_run true puts empty_vault) "acme" "openai-prod" (seal "123456789013" "sk-new" (secretAD "acme" "openai-prod")))
    as [at_ Hs]; [vm_compute; reflexivity|].
  eexists _, at_. split; [exact Hs|]. split; [vm_compute; reflexivity|].
  destruct (sealed_value_stays_put true puts "acme" "openai-prod" _ at_ puts_nonces Hs) as (_ & Hmoved & _ & _).
  apply Hmoved; [clear; unfold nul_free; cbn; set_solver|clear; discriminate].
Defined.
