(* ===== verification/Requests.v ===== *)
(** * What a create asks for, before it is placed (internal/gateway:
    sandboxes.go createSpread's checks, egress_groups.go, policies.go,
    metrics_export.go)

    A client's request becomes the one a node is sent and the [Want] it is
    placed by: its groups are hosts, its lifetime within its user's policy, its
    secrets opened, and the snapshot or volumes it names its caller's own. *)
From S2P Require Import Prelude GoSort GoStrings Api PolicyEnv Spec ServiceSpec Scheduler Fleet Access Identity ImageRef Secrets Records Sandboxes.

(** ** A create's fields *)
Definition with_network (n : option NetworkPolicy) (q : CreateSandboxRequest) : CreateSandboxRequest :=
  let '(Build_CreateSandboxRequest nm im cp me di en _ it ia li sn se sk la vo rl mx gp) := q in
  Build_CreateSandboxRequest nm im cp me di en n it ia li sn se sk la vo rl mx gp.
Definition with_lifetime (l : Z) (q : CreateSandboxRequest) : CreateSandboxRequest :=
  let '(Build_CreateSandboxRequest nm im cp me di en ne it ia _ sn se sk la vo rl mx gp) := q in
  Build_CreateSandboxRequest nm im cp me di en ne it ia l sn se sk la vo rl mx gp.
Definition with_login (l : option RegistryLogin) (q : CreateSandboxRequest) : CreateSandboxRequest :=
  let '(Build_CreateSandboxRequest nm im cp me di en ne it ia li sn se sk la vo _ mx gp) := q in
  Build_CreateSandboxRequest nm im cp me di en ne it ia li sn se sk la vo l mx gp.
Definition with_export (x : option MetricsExport) (q : CreateSandboxRequest) : CreateSandboxRequest :=
  let '(Build_CreateSandboxRequest nm im cp me di en ne it ia li sn se sk la vo rl _ gp) := q in
  Build_CreateSandboxRequest nm im cp me di en ne it ia li sn se sk la vo rl x gp.
Definition with_labels (l : gmap string string) (q : CreateSandboxRequest) : CreateSandboxRequest :=
  let '(Build_CreateSandboxRequest nm im cp me di en ne it ia li sn se sk _ vo rl mx gp) := q in
  Build_CreateSandboxRequest nm im cp me di en ne it ia li sn se sk l vo rl mx gp.

Definition add_caps (caps : list string) (w : Want) : Want := {|
  w_Image := w_Image w; w_CPUs := w_CPUs w; w_MemoryMB := w_MemoryMB w; w_DiskMB := w_DiskMB w; w_GPUs := w_GPUs w;
  w_Caps := w_Caps w ++ caps; w_NetworkMode := w_NetworkMode w; w_Node := w_Node w; w_Exclude := w_Exclude w; w_Spread := w_Spread w |}.
Definition with_mode (m : string) (w : Want) : Want := {|
  w_Image := w_Image w; w_CPUs := w_CPUs w; w_MemoryMB := w_MemoryMB w; w_DiskMB := w_DiskMB w; w_GPUs := w_GPUs w;
  w_Caps := w_Caps w; w_NetworkMode := m; w_Node := w_Node w; w_Exclude := w_Exclude w; w_Spread := w_Spread w |}.
Definition with_node (n : string) (w : Want) : Want := {|
  w_Image := w_Image w; w_CPUs := w_CPUs w; w_MemoryMB := w_MemoryMB w; w_DiskMB := w_DiskMB w; w_GPUs := w_GPUs w;
  w_Caps := w_Caps w; w_NetworkMode := w_NetworkMode w; w_Node := n; w_Exclude := w_Exclude w; w_Spread := w_Spread w |}.
Definition excluding (l : list string) (w : Want) : Want := {|
  w_Image := w_Image w; w_CPUs := w_CPUs w; w_MemoryMB := w_MemoryMB w; w_DiskMB := w_DiskMB w; w_GPUs := w_GPUs w;
  w_Caps := w_Caps w; w_NetworkMode := w_NetworkMode w; w_Node := w_Node w; w_Exclude := l; w_Spread := w_Spread w |}.

(** A refusal: its status, and whether waiting may cure it. *)
Record createFail := { cf_status : Z; cf_transient : bool }.
Definition failWith (status : Z) : createFail := {| cf_status := status; cf_transient := false |}.
Definition transientFail (status : Z) : createFail := {| cf_status := status; cf_transient := true |}.
Abbreviation cres A := (result createFail A).

(** ** Allowlist groups *)
Record EgressGroup := { eg_Name : string; eg_Description : string; eg_Hosts : list string }.

Inductive group_error := bad_group | group_hosts (e : spec_error) | groups_mode | no_group (name : string).

Section groups.
Context `{Unicode}.

Definition checkEgressGroup (g : EgressGroup) : result group_error EgressGroup :=
  reject_if (negb (policyNameRE (eg_Name g))) bad_group;;
  reject_if (strlen (eg_Description g) >? 200) bad_group;;
  reject_if (bool_decide (eg_Hosts g = [])) bad_group;;
  reject_if (100 <? length (eg_Hosts g))%nat bad_group;;
  hosts ← match normalizeNames "host" (eg_Hosts g) with Ok l => Ok l | Err e => Err (group_hosts e) end;
  Ok {| eg_Name := eg_Name g; eg_Description := eg_Description g; eg_Hosts := hosts |}.

(** The store's groups, by name. *)
Definition PutEgressGroup (g : EgressGroup) (groups : gmap string EgressGroup) : result group_error (gmap string EgressGroup) :=
  g ← checkEgressGroup g; Ok (<[eg_Name g := g]> groups).
End groups.

Definition DeleteEgressGroup (name : string) (groups : gmap string EgressGroup) : result group_error (gmap string EgressGroup) :=
  reject_if (negb (bool_decide (is_Some (groups !! name)))) (no_group name);; Ok (delete name groups).
Definition EgressGroups (groups : gmap string EgressGroup) : list EgressGroup :=
  sort_stable (λ a b, str_ltb (eg_Name a) (eg_Name b)) (snd <$> map_to_list groups).

Definition add_hosts (allow hosts : list string) : list string :=
  foldl (λ allow h, if bool_decide (h ∈ allow) then allow else allow ++ [h]) allow hosts.
Fixpoint add_groups (groups : list EgressGroup) (names allow : list string) : result group_error (list string) :=
  match names with
  | [] => Ok allow
  | name :: names =>
      match List.find (λ g, String.eqb (eg_Name g) name) groups with
      | None => Err (no_group name)
      | Some g => add_groups groups names (add_hosts allow (eg_Hosts g))
      end
  end.

Definition expandGroups (groups : list EgressGroup) (net : option NetworkPolicy) : result group_error (option NetworkPolicy) :=
  match net with
  | None => Ok None
  | Some n =>
      if bool_decide (np_Groups n = []) then Ok net
      else if negb (String.eqb (np_Mode n) NetworkAllowlist) then Err groups_mode
      else allow ← add_groups groups (np_Groups n) (allow_list n);
           Ok (Some {| np_Mode := np_Mode n; np_Allow := Some allow; np_Deny := np_Deny n; np_Groups := [] |})
  end.

(** [groups] is the store's answer. *)
Definition applyGroups (groups : sres (list EgressGroup)) (net : option NetworkPolicy) : cres (option NetworkPolicy) :=
  match net with
  | Some n =>
      if bool_decide (np_Groups n = []) then Ok net
      else if negb (String.eqb (np_Mode n) NetworkAllowlist) then Err (failWith 400)
      else match groups with
           | Err _ => Err (transientFail 503)
           | Ok gs => match expandGroups gs net with Ok out => Ok out | Err _ => Err (failWith 400) end
           end
  | None => Ok None
  end.

(** A job still running or a service names it: [nets] are their networks. *)
Definition names_group (group : string) (net : option NetworkPolicy) : bool :=
  match net with Some n => bool_decide (group ∈ np_Groups n) | None => false end.
Definition groupInUse (nets : list (option NetworkPolicy)) (group : string) : bool := existsb (names_group group) nets.
Definition adminDeleteEgressGroup (p : Principal) (nets : list (option NetworkPolicy)) (name : string)
    (groups : gmap string EgressGroup) : cres (gmap string EgressGroup) :=
  reject_if (negb (Can p ScopeAdmin)) (failWith 403);;
  reject_if (groupInUse nets name) (failWith 409);;
  match DeleteEgressGroup name groups with Ok g => Ok g | Err _ => Err (failWith 404) end.

(** ** The user's policy *)
Definition policyFor `{Unicode} (d : db) (p : Principal) : option (string * Z) :=
  if Can p ScopeAdmin then None
  else if negb (String.eqb (p_KeyTenant p) "") || negb (String.eqb (p_KeyID p) "") then policyOf d (p_User p) (p_KeyTenant p)
  else PolicyActingIn d (p_User p) (p_Tenant p).

(** [pol]: the store's answer to [policyFor]; [caps]: the fleet's combined
    capabilities, if a node is answering. *)
Definition applyPolicyLifetime (pol : sres (option (string * Z))) (caps : option Capabilities) (q : CreateSandboxRequest) : cres CreateSandboxRequest :=
  match pol with
  | Err _ => Err (transientFail 503)
  | Ok None => Ok q
  | Ok (Some (_, max)) =>
      if max =? 0 then Ok q
      else if cr_LifetimeSecs q >? max then Err (failWith 400)
      else if cr_LifetimeSecs q =? 0 then
        match caps with
        | Some c => if (lim_MaxLifetimeSecs (caps_Limits c) >? 0) && (lim_MaxLifetimeSecs (caps_Limits c) <? max) then Ok q
                    else Ok (with_lifetime max q)
        | None => Ok (with_lifetime max q)
        end
      else Ok q
  end.

(** ** A metrics export's headers *)

(** [http.CanonicalHeaderKey]: a name with a byte no header may have is left. *)
Definition header_char (c : ascii) : bool :=
  is_alnum c || existsb (λ d, is_char d c) (chars "!#$%&'*+-.^_`|~").
Fixpoint canonical_chars (upper : bool) (l : list ascii) : list ascii :=
  match l with
  | [] => []
  | c :: t =>
      let c := if upper && is_lower c then char_of (code c - 32) else if negb upper && is_upper c then char_of (code c + 32) else c in
      c :: canonical_chars (is_char "-" c) t
  end.
Definition CanonicalHeaderKey (s : string) : string :=
  if forallb header_char (chars s) then of_chars (canonical_chars true (chars s)) else s.

Section export.
Context `{Unicode} `{AEAD}.
Context (range : gmap string string → list (string * string)).

Fixpoint header_secrets (v : sres vault) (tenant : string) (l : list (string * string)) (headers : gmap string string) : cres (gmap string string) :=
  match l with
  | [] => Ok headers
  | (header, name) :: l =>
      let h := CanonicalHeaderKey header in
      reject_if (bool_decide (is_Some (headers !! h))) (failWith 400);;
      match checkSecretName name with Ok _ => Ok () | Err _ => Err (failWith 400) end;;
      v' ← match v with Ok v => Ok v | Err _ => Err (transientFail 503) end;
      sealed ← of_option (SealedSecret v' tenant name) (failWith 400);
      plain ← of_option (open sealed (secretAD tenant name)) (failWith 500);
      header_secrets v tenant l (<[h := plain]> headers)
  end.

Definition resolveExportSecrets (keyed : bool) (v : sres vault) (tenant : string) (me : option MetricsExport) : cres (option MetricsExport) :=
  match me with
  | None => Ok None
  | Some m =>
      if bool_decide (me_HeaderSecrets m = ∅) then Ok me
      else
        reject_if (negb keyed) (failWith 501);;
        headers ← header_secrets v tenant (range (me_HeaderSecrets m))
          (foldl (λ h kv, <[CanonicalHeaderKey (fst kv) := snd kv]> h) ∅ (range (me_Headers m)));
        Ok (Some {| me_Endpoint := me_Endpoint m; me_IntervalSecs := me_IntervalSecs m; me_Headers := headers; me_HeaderSecrets := ∅ |})
  end.

(** ** The registry login *)
Definition addRegistryLogin (keyed : bool) (v : sres vault) (tenant : string) (q : CreateSandboxRequest) (w : Want) :
    cres (CreateSandboxRequest * Want) :=
  reject_if (bool_decide (is_Some (cr_RegistryLogin q))) (failWith 400);;
  if String.eqb (cr_Image q) "" || negb keyed || bool_decide (ParseRef (cr_Image q) = None) then Ok (q, w)
  else match v with
       | Err _ => Err (transientFail 503)
       | Ok v =>
           match login_for keyed v tenant (cr_Image q) with
           | Err _ => Err (failWith 500)
           | Ok None => Ok (q, w)
           | Ok (Some l) => Ok (with_login (Some l) q, add_caps [CapRegistryLogin] w)
           end
       end.
End export.

(** ** The checks of a create, in their order *)

(** What the checks ask of the pool and of the store. The capabilities are asked
    for twice; whether some node has a capability is asked once for a snapshot
    and once more after it. *)
Record reads := {
  rd_caps : option Capabilities;
  rd_caps' : option Capabilities;
  rd_snapshots : string → bool;
  rd_has : string → bool;
  rd_groups : sres (list EgressGroup);
  rd_policy : sres (option (string * Z));
  rd_vault : sres vault;
  rd_snapshot : string → option Owner;
  rd_volume : string → sres (option Owner)
}.

Definition anyNodeHas (cands : list Candidate) (cap : string) : bool :=
  existsb (λ c, Has (ns_Capabilities (cand_Status c)) cap) cands.

(** The node every volume named is on. *)
Fixpoint pin_volumes (p : Principal) (vols : string → sres (option Owner)) (node : string) (l : list VolumeMount) : cres string :=
  match l with
  | [] => Ok node
  | m :: l =>
      match vols (vm_Name m) with
      | Err _ => Err (transientFail 503)
      | Ok None => Err (failWith 404)
      | Ok (Some o) =>
          reject_if (negb (mayAct p o)) (failWith 404);;
          reject_if (negb (String.eqb node "") && negb (String.eqb (ow_Node o) node)) (failWith 409);;
          pin_volumes p vols (ow_Node o) l
      end
  end.

(** Where what the create names lives, and what its schedule needs. *)
Definition pin (p : Principal) (rd : reads) (q : CreateSandboxRequest) (w : Want) : cres Want :=
  if negb (String.eqb (cr_SnapshotID q) "") && (rd_snapshots rd CapMemorySnapshot || rd_snapshots rd CapDiskSnapshot) then
    match rd_snapshot rd (cr_SnapshotID q) with
    | None => Err (failWith 404)
    | Some o => reject_if (negb (mayAct p o)) (failWith 404);; Ok (with_node (ow_Node o) w)
    end
  else if cr_SnapshotEverySecs q >? 0 then
    Ok (if rd_has rd CapMemorySnapshot then add_caps [CapMemorySnapshot] w
        else if rd_has rd CapDiskSnapshot then add_caps [CapDiskSnapshot] w else w)
  else if (0 <? length (cr_Volumes q))%nat && rd_has rd CapVolumes then
    n ← pin_volumes p (rd_volume rd) (w_Node w) (cr_Volumes q);
    Ok (add_caps [CapVolumes] (with_node n w))
  else Ok w.

Definition mode_caps (net : option NetworkPolicy) (w : Want) : Want :=
  match net with
  | None => w
  | Some n =>
      let w := with_mode (np_Mode n) w in
      if String.eqb (np_Mode n) NetworkAllowlist then add_caps [CapEgressAllowlist] w
      else if String.eqb (np_Mode n) NetworkOpen then add_caps [CapEgressOpen] w else w
  end.

Definition create_want (dflt : NodeResources) (spread : option (gmap string Z)) (q : CreateSandboxRequest) : Want := {|
  w_Image := cr_Image q;
  w_CPUs := if feqb (cr_CPUs q) fzero then nr_CPUs dflt else cr_CPUs q;
  w_MemoryMB := if cr_MemoryMB q =? 0 then nr_MemoryMB dflt else cr_MemoryMB q;
  w_DiskMB := if cr_DiskMB q =? 0 then nr_DiskMB dflt else cr_DiskMB q;
  w_GPUs := cr_GPUs q; w_Caps := []; w_NetworkMode := ""; w_Node := ""; w_Exclude := []; w_Spread := spread |}.

Section checks.
Context `{Unicode} `{AEAD}.
Context (range : gmap string string → list (string * string)).
(** The gateway has a secrets key, and what a create naming no size counts as. *)
Context (keyed : bool) (dflt : NodeResources).

Definition negative_size (q : CreateSandboxRequest) : bool :=
  fltb (cr_CPUs q) fzero || (cr_MemoryMB q <? 0) || (cr_DiskMB q <? 0) || (cr_GPUs q <? 0).
Definition wants_export (q : CreateSandboxRequest) : bool :=
  match cr_MetricsExport q with Some m => negb (String.eqb (me_Endpoint m) "") | None => false end.

Definition create_checks (p : Principal) (rd : reads) (q : CreateSandboxRequest) (extra : gmap string string)
    (spread : option (gmap string Z)) : cres (CreateSandboxRequest * Want) :=
  reject_if (negb (String.eqb (cr_Name q) "") && negb (ValidName (cr_Name q))) (failWith 400);;
  reject_if (Z.of_nat (size (cr_Labels q)) >? MaxLabels - 2 - Z.of_nat (size extra)) (failWith 400);;
  reject_if (negb (is_ok (ValidateLabels range (cr_Labels q))) || negb (is_ok (ValidateVolumeMounts (cr_Volumes q)))) (failWith 400);;
  reject_if (negb (bool_decide (is_Some (rd_caps rd)))) (transientFail 503);;
  net ← applyGroups (rd_groups rd) (cr_Network q);
  q ← applyPolicyLifetime (rd_policy rd) (rd_caps' rd) (with_network net q);
  reject_if (negative_size q) (failWith 400);;
  qw ← addRegistryLogin keyed (rd_vault rd) (p_Tenant p) q (create_want dflt spread q);
  let '(q, w) := qw in
  me ← resolveExportSecrets range keyed (rd_vault rd) (p_Tenant p) (cr_MetricsExport q);
  let q := with_export me q in
  w ← pin p rd q (mode_caps (cr_Network q) w);
  let w := if String.eqb (cr_IdleAction q) IdleSuspend && rd_has rd CapSuspend then add_caps [CapSuspend] w else w in
  Ok (q, if wants_export q && rd_has rd CapMetricsExport then add_caps [CapMetricsExport] w else w).
End checks.

(** ** Its labels *)
Definition LabelOwner : string := "gateway.owner".
Definition LabelTenant : string := "gateway.tenant".
Definition gateway_label (k : string) : bool := has_prefix k "gateway.".
(** [createSandbox] refuses a client's [gateway.*] label. *)
Definition client_labels_ok (q : CreateSandboxRequest) : bool := forallb (λ kv, negb (gateway_label (fst kv))) (map_to_list (cr_Labels q)).

Definition owner_labels (p : Principal) : gmap string string :=
  let l := {[LabelOwner := p_User p]} in
  if String.eqb (p_Tenant p) "" then l else <[LabelTenant := p_Tenant p]> l.
Definition owner_stamped (p : Principal) (extra : gmap string string) (q : CreateSandboxRequest) : CreateSandboxRequest :=
  with_labels (owner_labels p ∪ (extra ∪ cr_Labels q)) q.

(** The owner's labels are the caller's, whatever the request or [extra] says. *)
Lemma stamped_owner p extra q :
  cr_Labels (owner_stamped p extra q) !! LabelOwner = Some (p_User p) ∧
  (p_Tenant p ≠ ""%string → cr_Labels (owner_stamped p extra q) !! LabelTenant = Some (p_Tenant p)).
Proof.
  assert (cr_Labels (owner_stamped p extra q) = owner_labels p ∪ (extra ∪ cr_Labels q)) as -> by by destruct q.
  unfold owner_labels. destruct (String.eqb_spec (p_Tenant p) ""); (split; [apply lookup_union_Some_l|]).
  - by rewrite lookup_singleton_eq.
  - done.
  - by rewrite lookup_insert_ne, lookup_singleton_eq.
  - intros _. apply lookup_union_Some_l. by rewrite lookup_insert_eq.
Qed.

(** ** What the checks leave of a request *)
Lemma resolve_create_ok `{Unicode} `{Backend} cf range snaps q id export have bs :
  resolve_create cf range snaps q id export have = Ok bs →
  bs_Volumes bs = cr_Volumes q ∧ bs_FromSnapshot bs = cr_SnapshotID q ∧
  resolve_lifetime (cr_LifetimeSecs q) (cf_Policy cf) = Ok (bs_LifetimeSecs bs) ∧
  (cr_SnapshotEverySecs q > 0 → bs_SnapshotEverySecs bs ≠ 0).
Proof.
  unfold resolve_create. intros ([] & _ & Hq)%bind_ok. apply bind_ok in Hq as (q' & Hsnap & Hq).
  assert (cr_Volumes q' = cr_Volumes q ∧ cr_SnapshotID q' = cr_SnapshotID q ∧ cr_LifetimeSecs q' = cr_LifetimeSecs q ∧
          cr_SnapshotEverySecs q' = cr_SnapshotEverySecs q) as (<- & <- & <- & <-).
  { destruct (String.eqb (cr_SnapshotID q) ""); [by injection Hsnap as <-|].
    apply guard_ok in Hsnap as [_ Hsnap]. unfold fromSnapshot in Hsnap. apply bind_ok in Hsnap as (rec & _ & Hsnap).
    destruct (String.eqb _ SnapshotDisk); repeat (apply guard_ok in Hsnap as [_ Hsnap]);
      injection Hsnap as <-; by destruct q. }
  apply guard_ok in Hq as [_ Hq]. apply bind_ok in Hq as (b & Hb & Hq).
  apply bind_ok in Hq as ([] & _ & Hq). cbv zeta in Hq. apply bind_ok in Hq as ([] & _ & Hq).
  apply guard_ok in Hq as [_ Hq]. apply bind_ok in Hq as ([] & _ & Hq). apply bind_ok in Hq as ([] & _ & [= <-]).
  assert (Resolve range q' (cf_Policy cf) id = Ok b) as Hr by (destruct (Resolve range q' _ id); cbn in Hb; congruence).
  clear Hb Hsnap. revert Hr. unfold Resolve.
  intros Hr. do 4 (apply bind_ok in Hr as ([] & _ & Hr)). cbv zeta in Hr.
  do 4 (apply bind_ok in Hr as ([] & _ & Hr)).
  apply bind_ok in Hr as (idle & _ & Hr). apply bind_ok in Hr as (act & _ & Hr). apply bind_ok in Hr as (life & Hl & Hr).
  apply bind_ok in Hr as (sched & Hs & Hr). apply bind_ok in Hr as (env & _ & Hr). apply bind_ok in Hr as (net & _ & [= <-]).
  cbn. split_and!; [done..|]. intros Hev. pose proof (ResolveSchedule_ok _ _ _ Hs) as [(? & ? & He)|Hk]; cbn in *; [lia|].
  unfold ResolveSchedule in Hs. split_matches_in Hs; subst; cbn; lia.
Qed.

(** What a node that accepted a create with volumes or from a snapshot has. *)
Lemma deliverable `{Unicode} `{Backend} cf range snaps q id export have bs :
  resolve_create cf range snaps q id export have = Ok bs →
  (bs_Volumes bs ≠ [] → bs_FromSnapshot bs = ""%string ∧ be_has CapVolumes = true) ∧
  (bs_FromSnapshot bs ≠ ""%string → canSnapshot = true) ∧
  (bs_SnapshotEverySecs bs ≠ 0 → bs_Volumes bs = []).
Proof.
  unfold resolve_create. intros ([] & _ & Hq)%bind_ok. apply bind_ok in Hq as (q' & Hsnap & Hq).
  apply guard_ok in Hq as [_ Hq]. apply bind_ok in Hq as (b & _ & Hq).
  apply bind_ok in Hq as ([] & _ & Hq). cbv zeta in Hq. apply bind_ok in Hq as ([] & _ & Hq).
  apply guard_ok in Hq as [_ Hq]. apply bind_ok in Hq as ([] & Hsched & Hq). apply bind_ok in Hq as ([] & Hvol & [= <-]).
  split_and!.
  - intros Hb. rewrite bool_decide_eq_false_2 in Hvol by done. apply guard_ok in Hvol as [Hf Hvol].
    split; [by apply negb_false_iff, String.eqb_eq in Hf|]. unfold volumesExist in Hvol. apply bind_ok in Hvol as ([] & Hv & _).
    unfold volumeStore in Hv. apply reject_if_ok, orb_false_iff in Hv as [_ Hv]. by apply negb_false_iff.
  - intros Hf. destruct (String.eqb_spec (cr_SnapshotID q) "") as [E|E].
    + injection Hsnap as <-. exfalso. apply Hf. destruct b. exact E.
    + apply guard_ok in Hsnap as [Hc _]. by apply negb_false_iff.
  - intros Hm. unfold scheduleRefusal in Hsched. cbn [ss_EverySecs] in Hsched.
    destruct (Z.eqb_spec (bs_SnapshotEverySecs (spec_from (cr_SnapshotID q') b)) 0); [done|].
    rewrite guard_ok, reject_if_ok in Hsched. by apply proj2, negb_false_iff, bool_decide_eq_true in Hsched.
Qed.

(** The request's fields a check may not touch, and what it may. *)
Lemma policy_lifetime_ok pol caps q q' :
  applyPolicyLifetime pol caps q = Ok q' →
  cr_Volumes q' = cr_Volumes q ∧ cr_SnapshotID q' = cr_SnapshotID q ∧ cr_SnapshotEverySecs q' = cr_SnapshotEverySecs q ∧
  ∀ name max, pol = Ok (Some (name, max)) → 0 < max →
    cr_LifetimeSecs q' ≤ max ∧
    (cr_LifetimeSecs q' = 0 → ∃ c, caps = Some c ∧ 0 < lim_MaxLifetimeSecs (caps_Limits c) < max).
Proof.
  intros Ha. destruct pol as [[[name max]|]|]; [|by injection Ha as <-|done]. cbn in Ha.
  destruct (Z.eqb_spec max 0); [injection Ha as <-; split_and!; [done..|]; intros ?? [= <- <-]; lia|].
  destruct (Z.gtb_spec (cr_LifetimeSecs q) max); [done|].
  destruct (Z.eqb_spec (cr_LifetimeSecs q) 0) as [E|E].
  - destruct caps as [c|].
    + destruct (_ && _) eqn:Hc; injection Ha as <-; (split_and!; [by destruct q..|]); intros ?? [= <- <-] Hm; cbn.
      * apply andb_true_iff in Hc as [H1 H2]. rewrite E. split; [lia|]. intros _. exists c. split; [done|lia].
      * destruct q; cbn in *. lia.
    + injection Ha as <-. split_and!; [by destruct q..|]. intros ?? [= <- <-] Hm. destruct q; cbn in *. lia.
  - injection Ha as <-. split_and!; [done..|]. intros ?? [= <- <-]. lia.
Qed.

Lemma registry_login_ok `{Unicode} `{AEAD} keyed v tenant q w q' w' :
  addRegistryLogin keyed v tenant q w = Ok (q', w') →
  cr_Volumes q' = cr_Volumes q ∧ cr_SnapshotID q' = cr_SnapshotID q ∧ cr_SnapshotEverySecs q' = cr_SnapshotEverySecs q ∧
  cr_LifetimeSecs q' = cr_LifetimeSecs q ∧ w_Node w' = w_Node w.
Proof.
  unfold addRegistryLogin. intros [_ Hq]%guard_ok. destruct (_ || _); [by simplify_eq|].
  destruct v; [|done]. destruct (login_for _ _ _ _) as [[l|]|]; simplify_eq/=; [|done..].
  by destruct q.
Qed.

Lemma pin_volumes_ok p vols l : ∀ node n,
  (∀ name o, vols name = Ok (Some o) → ow_Node o ≠ ""%string) →
  pin_volumes p vols node l = Ok n →
  (node ≠ ""%string → n = node) ∧
  ∀ m, m ∈ l → ∃ o, vols (vm_Name m) = Ok (Some o) ∧ mayAct p o = true ∧ ow_Node o = n.
Proof.
  induction l as [|x l IH]; intros node n Hn; cbn [pin_volumes].
  { intros [= <-]. split; [done|]. by intros m ?%elem_of_nil. }
  destruct (vols (vm_Name x)) as [[o|]|] eqn:E; [|done..].
  intros [Hm [Hs Hp]%guard_ok]%guard_ok. apply negb_false_iff in Hm.
  destruct (IH _ _ Hn Hp) as [Hk Hall]. pose proof (Hk (Hn _ _ E)) as ->. split.
  - intros Hne. destruct (String.eqb_spec node ""); [done|]. by apply negb_false_iff, String.eqb_eq in Hs.
  - intros m [->|Hm']%elem_of_cons; [by exists o|by apply Hall].
Qed.

(** The checks' parts, where they pass. *)
Lemma create_checks_ok `{Unicode} `{AEAD} range keyed dflt p rd q extra spread q' w :
  create_checks range keyed dflt p rd q extra spread = Ok (q', w) →
  cr_Volumes q' = cr_Volumes q ∧ cr_SnapshotID q' = cr_SnapshotID q ∧
  (∀ name max, rd_policy rd = Ok (Some (name, max)) → 0 < max →
    cr_LifetimeSecs q' ≤ max ∧
    (cr_LifetimeSecs q' = 0 → ∃ c, rd_caps' rd = Some c ∧ 0 < lim_MaxLifetimeSecs (caps_Limits c) < max)) ∧
  ∃ w0 w1, w_Node w0 = ""%string ∧ pin p rd q' w0 = Ok w1 ∧ w_Node w = w_Node w1.
Proof.
  unfold create_checks. intros Hc. repeat (apply guard_ok in Hc as [_ Hc]).
  apply bind_ok in Hc as (net & _ & Hc). apply bind_ok in Hc as (q1 & Hp & Hc). apply guard_ok in Hc as [_ Hc].
  apply bind_ok in Hc as ([q2 w2] & Hl & Hc). apply bind_ok in Hc as (me & _ & Hc). cbv zeta in Hc.
  apply bind_ok in Hc as (w1 & Hpin & [= <- <-]).
  destruct (policy_lifetime_ok _ _ _ _ Hp) as (Hv & Hs & _ & Hlife).
  destruct (registry_login_ok _ _ _ _ _ _ _ Hl) as (Hv' & Hs' & _ & Hlf & Hw).
  assert (∀ r, cr_Volumes (with_export me r) = cr_Volumes r ∧ cr_SnapshotID (with_export me r) = cr_SnapshotID r ∧
    cr_LifetimeSecs (with_export me r) = cr_LifetimeSecs r) as Hx by by intros [].
  destruct (Hx q2) as (-> & -> & ->). assert (∀ r, cr_Volumes (with_network net r) = cr_Volumes r ∧ cr_SnapshotID (with_network net r) = cr_SnapshotID r) as Hy by by intros [].
  destruct (Hy q) as [Hyv Hys]. rewrite Hlf.
  split_and!; [congruence..|done|]. eexists _, _. split; [|split; [exact Hpin|]].
  - unfold mode_caps. destruct (cr_Network _) as [n|]; [|exact Hw].
    cbv zeta. destruct (String.eqb _ _); [exact Hw|]. destruct (String.eqb _ _); exact Hw.
  - by do 2 (destruct (_ && _)).
Qed.

(** ** Groups are their hosts *)
Lemma elem_of_add_hosts hosts : ∀ allow h, h ∈ add_hosts allow hosts ↔ h ∈ allow ∨ h ∈ hosts.
Proof.
  induction hosts as [|x l IH]; intros allow h; cbn; [rewrite elem_of_nil; tauto|].
  change (foldl _ ?a l) with (add_hosts a l). rewrite IH, elem_of_cons. case_bool_decide.
  - split; [tauto|]. intros [?|[->|?]]; tauto.
  - rewrite elem_of_app, list_elem_of_singleton. tauto.
Qed.

Lemma add_hosts_nodup hosts : ∀ allow, NoDup allow → NoDup (add_hosts allow hosts).
Proof.
  induction hosts as [|x l IH]; intros allow Hn; cbn; [done|]. apply IH. case_bool_decide; [done|].
  apply NoDup_app. split_and!; [done| |apply NoDup_singleton]. intros y Hy ->%list_elem_of_singleton. done.
Qed.

Lemma add_hosts_prefix hosts : ∀ allow, allow `prefix_of` add_hosts allow hosts.
Proof.
  induction hosts as [|x l IH]; intros allow; cbn; [done|]. etrans; [|apply IH]. case_bool_decide; [done|by apply prefix_app_r].
Qed.

(** [h] is a host of a group [names] lists, as the store has it. *)
Definition host_of (groups : list EgressGroup) (names : list string) (h : string) : Prop :=
  ∃ name g, name ∈ names ∧ List.find (λ g, String.eqb (eg_Name g) name) groups = Some g ∧ h ∈ eg_Hosts g.

Lemma add_groups_ok groups names : ∀ allow out, add_groups groups names allow = Ok out →
  allow `prefix_of` out ∧ (NoDup allow → NoDup out) ∧ ∀ h, h ∈ out ↔ h ∈ allow ∨ host_of groups names h.
Proof.
  induction names as [|x names IH]; intros allow out; cbn [add_groups].
  { intros [= <-]. split_and!; [done..|]. intros h. split; [by left|]. intros [?|(? & ? & ?%elem_of_nil & _)]; done. }
  destruct (List.find _ groups) as [g|] eqn:E; [|done]. intros (Hp & Hn & Hh)%IH. split_and!.
  - etrans; [|exact Hp]. apply add_hosts_prefix.
  - intros Ha. by apply Hn, add_hosts_nodup.
  - intros h. rewrite Hh, elem_of_add_hosts. unfold host_of. split.
    + intros [[?|?]|(name & g' & ? & ? & ?)]; [by left|right; exists x, g|right; exists name, g'];
        rewrite elem_of_cons; tauto.
    + intros [?|(name & g' & [->|?]%elem_of_cons & Hf & ?)]; [tauto| |right; by exists name, g'].
      left. right. rewrite E in Hf. by injection Hf as <-.
Qed.

(** A create's allowlist groups are replaced by exactly their hosts: the
    request keeps its mode, its own names come first, every host of every group
    it names is allowed and nothing else, none twice, and no group is left for
    a node to see. *)
Theorem groups_are_their_hosts groups n out :
  expandGroups groups (Some n) = Ok out → np_Groups n ≠ [] →
  ∃ n' allow, out = Some n' ∧ np_Allow n' = Some allow ∧ np_Mode n' = np_Mode n ∧ np_Deny n' = np_Deny n ∧
    np_Mode n = NetworkAllowlist ∧ np_Groups n' = [] ∧ allow_list n `prefix_of` allow ∧
    (NoDup (allow_list n) → NoDup allow) ∧
    ∀ h, h ∈ allow ↔ h ∈ allow_list n ∨ host_of groups (np_Groups n) h.
Proof.
  intros He Hg. cbn in He. rewrite bool_decide_eq_false_2 in He by done.
  destruct (String.eqb_spec (np_Mode n) NetworkAllowlist) as [Hm|]; [|done]. cbn [negb] in He.
  apply bind_ok in He as (allow & Ha & [= <-]). destruct (add_groups_ok _ _ _ _ Ha) as (Hp & Hn & Hh).
  by eexists _, allow.
Qed.

(** ** A user's policy and the node's own limit *)

(** A user's policy bounds the lifetime of what they create, whichever way
    it is bounded: asked for within it, given by it, or left to a node whose
    own limit is the fleet's strictest. The sandbox always ends. *)
Theorem policy_bounds_lifetime `{Unicode} `{Backend} `{AEAD} range keyed dflt p rd q extra spread q' w name max
    cf range_env snaps id export have bs :
  create_checks range keyed dflt p rd q extra spread = Ok (q', w) →
  rd_policy rd = Ok (Some (name, max)) → 0 < max →
  (∀ c, rd_caps' rd = Some c → lim_MaxLifetimeSecs (pol_Limits (cf_Policy cf)) = lim_MaxLifetimeSecs (caps_Limits c)) →
  resolve_create cf range_env snaps (owner_stamped p extra q') id export have = Ok bs →
  0 < bs_LifetimeSecs bs ≤ max.
Proof.
  intros (_ & _ & Hpol & _)%create_checks_ok Hname Hmax Hnode (_ & _ & Hl & _)%resolve_create_ok.
  assert (cr_LifetimeSecs (owner_stamped p extra q') = cr_LifetimeSecs q') as E by by destruct q'. rewrite E in Hl. clear E.
  destruct (Hpol _ _ Hname Hmax) as [Hle Hz]. unfold resolve_lifetime in Hl.
  destruct (Z.ltb_spec (cr_LifetimeSecs q') 0); [done|]. destruct (Z.eqb_spec (cr_LifetimeSecs q') 0) as [E|E].
  - destruct (Hz E) as (c & Hc & Hb). injection Hl as <-. rewrite (Hnode _ Hc). lia.
  - destruct (_ && _); [done|]. injection Hl as <-. lia.
Qed.
