(* ===== verification/Creates.v ===== *)
(** * A create, from its request to a recorded sandbox (internal/gateway:
    sandboxes.go createSandbox, createSpread, place; nodes.go candidates)

    A create is checked (Requests), holds its name and its share of the quota,
    and goes to one node after another until one answers for good. Between the
    attempts the pool is anyone's: each attempt sees the pool, and gets the
    node's reply, that [env] gives it. What is done, and in which order, is the
    log. *)
From S2P Require Import Prelude GoSort GoStrings Api Spec ServiceSpec Scheduler Fleet NodeRoom Access Secrets Records Sandboxes Requests.

(** ** The pool *)
Section pool.
Context (range : gmap nat placement → list (nat * placement)).

(** [nodePool.list] and [candidates]: by name. *)
Definition pool_list (pool : gmap string gnode) : list gnode :=
  snd <$> sort_stable (λ a b, str_ltb a.1 b.1) (map_to_list pool).
Definition candidates (pool : gmap string gnode) : list Candidate := omap (candidate range) (pool_list pool).

(** [there]: the nodes [get] still finds. A node chosen with room is held. *)
Definition place (pool : gmap string gnode) (there : string → bool) (w : Want) (tried : list string) : result sched_error (string * bool) :=
  let w := excluding tried w in
  let found n held := if there n then Ok (n, held) else Err errNoCandidate in
  match Schedule (candidates pool) w with
  | Ok n => found n true
  | Err errNoCapable =>
      if negb (String.eqb (w_Node w) "") then found (w_Node w) false
      else match Fallback (candidates pool) tried w with Some n => found n false | None => Err errNoCapable end
  | Err e => Err e
  end.

(** ** Attempts *)

(** How a POST to a node ends: never sent, no reply, a reply cut short, or an
    answer, with the sandbox its body decodes to. *)
Inductive node_reply := NotSent | NoReply | CutShort | Answered (status : Z) (body : option Sandbox).

(** A node refuses before it makes anything. *)
Definition may_have_made (r : node_reply) : bool :=
  match r with NotSent => false | NoReply | CutShort => true | Answered st _ => st =? 201 end.

Record attempt := {
  at_pool : gmap string gnode;
  at_there : string → bool;
  at_reply : node_reply;
  at_recorded : bool
}.

Inductive create_event :=
| C_held (tenant : string) (r : NodeResources)
| C_reserved (node : string)
| C_posted (node : string) (q : CreateSandboxRequest) (r : node_reply)
| C_finished (node : string)
| C_recorded (o : Owner) (sb : Sandbox)
| C_deleted (node id : string)
| C_created (node id : string)
| C_released.

Section attempts.
Context (p : Principal) (q : CreateSandboxRequest) (w : Want) (env : nat → attempt).

(** A refusal another node may not give. *)
Definition refused_here (st : Z) : bool :=
  String.eqb (w_Node w) "" && (((st =? 409) && negb (String.eqb (cr_Name q) "")) || ((st =? 503) && (w_GPUs w >? 0))).
Definition held_at (held : bool) (e : create_event) : list create_event := if held then [e] else [].
(** The id names another node. *)
Definition names_other (node id : string) : bool :=
  match NodeOfID id with Some named => negb (String.eqb named node) | None => false end.
Definition create_owner (node : string) : Owner := {| ow_User := p_User p; ow_Tenant := p_Tenant p; ow_Node := node |}.

(** A node that answered 201. *)
Definition settle (n : string) (held : bool) (body : option Sandbox) (recorded : bool) : list create_event * cres Sandbox :=
  match body with
  | Some sb =>
      if negb (ValidID (sb_ID sb)) then (held_at held (C_finished n), Err (failWith 502))
      else if negb (names_other n (sb_ID sb)) && recorded
      then (C_recorded (create_owner n) sb :: held_at held (C_created n (sb_ID sb)), Ok sb)
      else (held_at held (C_finished n) ++ [C_deleted n (sb_ID sb)], Err (failWith 500))
  | None => (held_at held (C_finished n), Err (failWith 502))
  end.

Definition logged (pre : list create_event) (r : option (list create_event * cres Sandbox)) : option (list create_event * cres Sandbox) :=
  match r with Some (l, v) => Some (pre ++ l, v) | None => None end.

Fixpoint attempts (fuel k : nat) (tried : list string) (refusal : option Z) : option (list create_event * cres Sandbox) :=
  match fuel with
  | O => None
  | S fuel =>
      let a := env k in
      match place (at_pool a) (at_there a) w tried with
      | Err _ => Some ([], Err (match refusal with Some st => failWith st | None => transientFail 503 end))
      | Ok (n, held) =>
          logged (held_at held (C_reserved n) ++ [C_posted n q (at_reply a)])
            match at_reply a with
            | NotSent =>
                logged (held_at held (C_finished n))
                  (if String.eqb (w_Node w) "" then attempts fuel (S k) (tried ++ [n]) refusal else Some ([], Err (transientFail 503)))
            | NoReply => Some (held_at held (C_finished n), Err (transientFail 503))
            | CutShort => Some (held_at held (C_finished n), Err (transientFail 502))
            | Answered st body =>
                if refused_here st then logged (held_at held (C_finished n)) (attempts fuel (S k) (tried ++ [n]) (Some st))
                else if negb (st =? 201) then Some (held_at held (C_finished n), Err (failWith st))
                else Some (settle n held body (at_recorded a))
            end
      end
  end.
End attempts.
End pool.

(** ** The whole create *)

(** The rest of what a create meets: whether its name was free to claim, the
    caller's sandboxes, and whether its quota has room. *)
Record surroundings := {
  su_reads : reads;
  su_claimed : bool;
  su_listing : result route_error (list Sandbox);
  su_quota : bool;
  su_attempt : nat → attempt
}.

Definition same_name_live (name : string) (sb : Sandbox) : bool :=
  String.eqb (sb_Name sb) name && negb (String.eqb (sb_State sb) StateTerminated).

(** The name, where it has one, is no live sandbox's of the caller. *)
Definition check_name_free (su : surroundings) (name : string) : cres () :=
  if String.eqb name "" then Ok ()
  else
    reject_if (negb (su_claimed su)) (failWith 409);;
    match su_listing su with
    | Err (NodeRefused st) => Err (failWith st)
    | Err _ => Err (transientFail 502)
    | Ok l => reject_if (existsb (same_name_live name) l) (failWith 409)
    end.

Section create.
Context `{Unicode} `{AEAD}.
Context (range : gmap string string → list (string * string)) (range_placed : gmap nat placement → list (nat * placement)).
Context (keyed : bool) (dflt : NodeResources).

(** [hold.release], deferred, releases what was not recorded. *)
Definition release_log (r : cres Sandbox) : list create_event := if is_ok r then [] else [C_released].

Definition createSpread (fuel : nat) (p : Principal) (su : surroundings) (q : CreateSandboxRequest) (extra : gmap string string)
    (spread : option (gmap string Z)) : option (list create_event * cres Sandbox) :=
  match create_checks range keyed dflt p (su_reads su) q extra spread with
  | Err f => Some ([], Err f)
  | Ok (q, w) =>
      match check_name_free su (cr_Name q) with
      | Err f => Some ([], Err f)
      | Ok _ =>
          if negb (su_quota su) then Some ([], Err (transientFail 403))
          else match attempts range_placed p (owner_stamped p extra q) w (su_attempt su) fuel 0 [] None with
               | Some (log, r) => Some (C_held (p_Tenant p) (want_res w) :: log ++ release_log r, r)
               | None => None
               end
      end
  end.

Definition createSandbox (fuel : nat) (p : Principal) (su : surroundings) (q : CreateSandboxRequest) : option (list create_event * cres Sandbox) :=
  if negb (Can p ScopeCreate) then Some ([], Err (failWith 403))
  else if negb (client_labels_ok q) then Some ([], Err (failWith 400))
  else createSpread fuel p su q ∅ None.
End create.

(** ** Reading a log *)
Definition posts (log : list create_event) : list (string * node_reply) :=
  omap (λ e, match e with C_posted n _ r => Some (n, r) | _ => None end) log.

(** Every room taken is given back or becomes a sandbox's, before the next is
    taken: [held] is the node whose room is. *)
Fixpoint settled (held : option string) (log : list create_event) : bool :=
  match log with
  | [] => negb (bool_decide (is_Some held))
  | C_reserved n :: log => negb (bool_decide (is_Some held)) && settled (Some n) log
  | C_finished n :: log | C_created n _ :: log => bool_decide (held = Some n) && settled None log
  | _ :: log => settled held log
  end.

(** ** What an attempt may choose *)
Definition pool_names (pool : gmap string gnode) : list string := gn_Name <$> pool_list pool.

Section proofs.
Context (range : gmap nat placement → list (nat * placement)).

Lemma candidates_names pool c : c ∈ candidates range pool → cand_Name c ∈ pool_names pool.
Proof.
  unfold candidates, pool_names. rewrite list_elem_of_omap. intros (g & Hg & Hc). apply list_elem_of_fmap. exists g. split; [|done].
  unfold candidate in Hc. destruct (gn_status g); [|done]. destruct (gn_healthy g); [|done]. by injection Hc as <-.
Qed.

Lemma schedule_takes cands w n : Schedule cands w = Ok n → ∃ c, c ∈ cands ∧ cand_Name c = n ∧ may_take w c = true.
Proof.
  pose proof (Schedule_cases cands w) as Hc. intros E. rewrite E in Hc. inversion Hc; subst. exists c. split_and!; [done..|].
  pose proof (fit_inv w c). tauto.
Qed.
Lemma fallback_takes cands exclude w n : Fallback cands exclude w = Some n → ∃ c, c ∈ cands ∧ cand_Name c = n ∧ may_refuse exclude c = true.
Proof.
  unfold Fallback. destruct (sort_stable _ _) as [|c l] eqn:E; [done|]. intros [= <-]. exists c.
  apply sort_stable_head in E as [Hc _]; [|apply _]. apply elem_of_bfilter in Hc as [? ?]. done.
Qed.

(** The node chosen is the one that holds what the create needs, where one does,
    and otherwise one of the pool's not tried yet. *)
Lemma place_ok pool there w tried n held :
  place range pool there w tried = Ok (n, held) →
  (w_Node w ≠ ""%string → n = w_Node w) ∧ (w_Node w = ""%string → n ∈ pool_names pool ∧ n ∉ tried).
Proof.
  unfold place. cbv zeta. assert (∀ m h, (if there m then Ok (m, h) else Err errNoCandidate) = Ok (n, held) → m = n) as Hf.
  { intros m h. destruct (there m); congruence. }
  destruct (Schedule _ _) as [m|e] eqn:E.
  - intros <-%Hf. apply schedule_takes in E as (c & Hc & <- & Ht). unfold may_take, excluding in Ht. cbn in Ht.
    apply andb_true_iff in Ht as [[_ Hx]%andb_true_iff Hn]. apply negb_true_iff, bool_decide_eq_false in Hx.
    apply orb_true_iff in Hn. rewrite !String.eqb_eq in Hn. split; [intros ?; by destruct Hn|]. intros _. split; [by apply candidates_names|done].
  - destruct e; [done| |done]. cbn [w_Node excluding]. destruct (String.eqb_spec (w_Node w) "") as [Hw|Hw]; cbn [negb].
    + destruct (Fallback _ _ _) as [m|] eqn:Ef; [|done]. intros <-%Hf. apply fallback_takes in Ef as (c & Hc & <- & Hr).
      unfold may_refuse in Hr. apply andb_true_iff in Hr as [_ Hr]. apply negb_true_iff, bool_decide_eq_false in Hr.
      split; [done|]. intros _. split; [by apply candidates_names|done].
    + intros <-%Hf. split; done.
Qed.

(** ** The attempts, as a relation *)
Context (p : Principal) (q : CreateSandboxRequest) (w : Want) (env : nat → attempt).

Definition placed_at (k : nat) (tried : list string) (n : string) (held : bool) : Prop :=
  place range (at_pool (env k)) (at_there (env k)) w tried = Ok (n, held).
Definition sent (held : bool) (n : string) (r : node_reply) : list create_event := held_at held (C_reserved n) ++ [C_posted n q r].

Inductive tries : nat → list string → list create_event → cres Sandbox → Prop :=
| tries_nowhere k tried f : tries k tried [] (Err f)
| tries_next k tried n held r log res :
    placed_at k tried n held → w_Node w = ""%string → may_have_made r = false →
    tries (S k) (tried ++ [n]) log res → tries k tried (sent held n r ++ held_at held (C_finished n) ++ log) res
| tries_failed k tried n held r f :
    placed_at k tried n held → (∀ body, r ≠ Answered 201 body) → tries k tried (sent held n r ++ held_at held (C_finished n)) (Err f)
| tries_made k tried n held body recorded :
    placed_at k tried n held →
    tries k tried (sent held n (Answered 201 body) ++ (settle p n held body recorded).1) (settle p n held body recorded).2.

Lemma logged_some pre r l v : logged pre r = Some (l, v) ↔ ∃ l', r = Some (l', v) ∧ l = pre ++ l'.
Proof. destruct r as [[l' v']|]; cbn; naive_solver. Qed.

Lemma refused_here_made st body : refused_here q w st = true → may_have_made (Answered st body) = false ∧ w_Node w = ""%string.
Proof.
  unfold refused_here. intros [Hw [[H _]%andb_true_iff|[H _]%andb_true_iff]%orb_true_iff]%andb_true_iff;
    apply String.eqb_eq in Hw; cbn; split; [lia|done|lia|done].
Qed.

Lemma attempts_tries fuel : ∀ k tried refusal log res,
  attempts range p q w env fuel k tried refusal = Some (log, res) → tries k tried log res.
Proof.
  induction fuel as [|fuel IH]; intros k tried refusal log res; [done|]. cbn [attempts]. cbv zeta.
  destruct (place _ _ _ _ _) as [[n held]|e] eqn:Hp; [|intros [= <- <-]; apply tries_nowhere].
  change (held_at held (C_reserved n) ++ [C_posted n q ?r]) with (sent held n r).
  intros (l & Hl & ->)%logged_some. destruct (at_reply (env k)) as [| | |st body].
  - apply logged_some in Hl as (l' & Hl & ->). destruct (String.eqb_spec (w_Node w) "").
    + eapply tries_next; [exact Hp|done|done|]. eapply IH, Hl.
    + injection Hl as <- <-. rewrite app_nil_r. by eapply tries_failed.
  - injection Hl as <- <-. by eapply tries_failed.
  - injection Hl as <- <-. by eapply tries_failed.
  - destruct (refused_here q w st) eqn:Hr.
    + apply logged_some in Hl as (l' & Hl & ->). destruct (refused_here_made st body Hr) as [Hm Hw].
      eapply tries_next; [exact Hp|done|exact Hm|]. eapply IH, Hl.
    + destruct (Z.eqb_spec st 201) as [->|Hne]; cbn [negb] in Hl.
      * injection Hl as Hl. destruct (settle p n held body (at_recorded (env k))) as [l' v'] eqn:Es. injection Hl as <- <-.
        pose proof (tries_made k tried n held body (at_recorded (env k)) Hp) as Ht. by rewrite Es in Ht.
      * injection Hl as <- <-. eapply tries_failed; [exact Hp|]. intros b [= ? _]. done.
Qed.

(** ** They end *)
Lemma attempts_end names fuel : ∀ k tried refusal,
  (∀ j n, n ∈ pool_names (at_pool (env j)) → n ∈ names) → NoDup tried → tried ⊆ names →
  (length names < fuel + length tried)%nat → is_Some (attempts range p q w env fuel k tried refusal).
Proof.
  induction fuel as [|fuel IH]; intros k tried refusal Hn Hd Hs Hl.
  { pose proof (submseteq_length _ _ (NoDup_submseteq _ _ Hd Hs)). lia. }
  cbn [attempts]. cbv zeta. destruct (place _ _ _ _ _) as [[n held]|e] eqn:Hp; [|by eexists].
  destruct (place_ok _ _ _ _ _ _ Hp) as [_ Hnew].
  assert (w_Node w = ""%string → ∀ refusal, is_Some (attempts range p q w env fuel (S k) (tried ++ [n]) refusal)) as Hgo.
  { intros Hw refusal'. destruct (Hnew Hw) as [Hin Hout]. apply IH; [exact Hn| | |].
    - apply NoDup_app. split_and!; [done| |apply NoDup_singleton]. intros x Hx ->%list_elem_of_singleton. done.
    - intros x [Hx|Hx%list_elem_of_singleton]%elem_of_app; [by apply Hs|subst; by eapply Hn].
    - rewrite length_app. cbn. lia. }
  assert (∀ pre r, is_Some r → is_Some (logged pre r)) as Hlog by (intros pre r [[l v] ->]; by eexists).
  apply Hlog. destruct (at_reply (env k)) as [| | |st body]; [|by eexists..|].
  - apply Hlog. destruct (String.eqb_spec (w_Node w) ""); [by apply Hgo|by eexists].
  - destruct (refused_here q w st) eqn:Hr; [|destruct (negb _); by eexists].
    apply Hlog, Hgo. by apply (refused_here_made st body).
Qed.

(** ** What they log *)
Lemma posts_sent held n r l : posts (sent held n r ++ l) = (n, r) :: posts l.
Proof. by destruct held. Qed.
Lemma posts_held held n l : posts (held_at held (C_finished n) ++ l) = posts l.
Proof. by destruct held. Qed.
Lemma posts_settle n held body recorded : posts (settle p n held body recorded).1 = [].
Proof. unfold settle. destruct body; [destruct (negb _); [|destruct (_ && _)]|]; by destruct held. Qed.

Lemma tries_posts k tried log res : tries k tried log res →
  NoDup (posts log).*1 ∧
  (∀ n, n ∈ (posts log).*1 → (w_Node w ≠ ""%string → n = w_Node w) ∧ (w_Node w = ""%string → n ∉ tried)) ∧
  ∀ pre x post, posts log = pre ++ x :: post → Exists (λ y, may_have_made y.2 = true) pre → False.
Proof.
  assert (∀ k tried n held r, placed_at k tried n held → NoDup [(n, r : node_reply)].*1 ∧
    (∀ m, m ∈ [(n, r)].*1 → (w_Node w ≠ ""%string → m = w_Node w) ∧ (w_Node w = ""%string → m ∉ tried)) ∧
    ∀ pre x post, [(n, r)] = pre ++ x :: post → Exists (λ y, may_have_made y.2 = true) pre → False) as Hone.
  { intros k0 t0 n held r [Hp Hq]%place_ok. cbn. split_and!; [apply NoDup_singleton| |].
    - intros m ->%list_elem_of_singleton. split; [done|]. intros Hw. by apply Hq.
    - intros [|y [|]] x post E Hex; cbn in E; [by inversion Hex|done|done]. }
  induction 1 as [k0 t0 f|k0 t0 n held r log res Hp Hw Hm Ht (Hd & Hn & Hl)|k0 t0 n held r f Hp|k0 t0 n held body rec Hp].
  - cbn. split_and!; [apply NoDup_nil_2|by intros ? ?%elem_of_nil|by intros [] ? ? ?].
  - rewrite posts_sent, posts_held. destruct (Hone _ _ _ _ r Hp) as (_ & Hn' & _).
    destruct (Hn' n ltac:(by apply list_elem_of_singleton)) as [_ Hnt]. split_and!.
    + cbn. apply NoDup_cons. split; [|done]. intros Hin. apply Hn in Hin as [_ Hin]. apply (Hin Hw). set_solver.
    + cbn. intros m [->|Hin]%elem_of_cons; [split; [done|]; intros _; by apply Hnt|].
      apply Hn in Hin as [Ha Hb]. split; [done|]. intros _ Hin. apply (Hb Hw). set_solver.
    + intros [|y pre] x post E Hex; [by inversion Hex|]. injection E as <- E. inversion Hex as [? ? Hy|]; subst; [cbn in *; congruence|].
      by eapply Hl.
  - rewrite posts_sent. rewrite <- (app_nil_r (held_at _ _)), posts_held. by eapply Hone.
  - rewrite posts_sent, posts_settle. by eapply Hone.
Qed.

Lemma settled_sent (held : bool) n r l : settled None (sent held n r ++ l) = settled (if held then Some n else None) l.
Proof. by destruct held. Qed.
Lemma settled_finished (held : bool) n l : settled (if held then Some n else None) (held_at held (C_finished n) ++ l) = settled None l.
Proof. destruct held; [|done]. cbn. by rewrite bool_decide_eq_true_2. Qed.

Lemma tries_settled k tried log res : tries k tried log res → settled None log = true.
Proof.
  induction 1 as [|k0 t0 n held r log res Hp Hw Hm Ht IH|k0 t0 n held r f Hp|k0 t0 n held body rec Hp]; [done|..]; rewrite settled_sent.
  - by rewrite settled_finished.
  - rewrite <- (app_nil_r (held_at _ _)). by rewrite settled_finished.
  - unfold settle. destruct body as [sb|]; [destruct (negb (ValidID _)); [|destruct (_ && _)]|]; cbn [fst].
    + rewrite <- (app_nil_r (held_at _ _)). by rewrite settled_finished.
    + destruct held; cbn; [by rewrite bool_decide_eq_true_2|done].
    + by rewrite settled_finished.
    + rewrite <- (app_nil_r (held_at _ _)). by rewrite settled_finished.
Qed.

(** What became of a sandbox a node says it made. *)
Definition outcome_of (log : list create_event) (res : cres Sandbox) : Prop :=
  (∀ n q' r, C_posted n q' r ∈ log → q' = q) ∧
  (∀ n q' sb, C_posted n q' (Answered 201 (Some sb)) ∈ log → ValidID (sb_ID sb) = true →
    (res = Ok sb ∧ C_recorded (create_owner p n) sb ∈ log) ∨ (res = Err (failWith 500) ∧ C_deleted n (sb_ID sb) ∈ log)) ∧
  (∀ sb, res = Ok sb → ∃ n, C_posted n q (Answered 201 (Some sb)) ∈ log ∧ C_recorded (create_owner p n) sb ∈ log ∧
    ValidID (sb_ID sb) = true ∧ (NodeOfID (sb_ID sb) = None ∨ NodeOfID (sb_ID sb) = Some n)) ∧
  (∀ f, res = Err f → ∀ o sb, C_recorded o sb ∉ log).

Lemma elem_of_held held e x : x ∈ held_at held e ↔ held = true ∧ x = e.
Proof. destruct held; cbn; [rewrite list_elem_of_singleton; naive_solver|rewrite elem_of_nil; naive_solver]. Qed.
Lemma elem_of_sent held n r x : x ∈ sent held n r ↔ held = true ∧ x = C_reserved n ∨ x = C_posted n q r.
Proof. unfold sent. by rewrite elem_of_app, elem_of_held, list_elem_of_singleton. Qed.

Ltac in_log := repeat first [setoid_rewrite elem_of_app | setoid_rewrite elem_of_sent | setoid_rewrite elem_of_held | setoid_rewrite elem_of_cons | setoid_rewrite elem_of_nil].

Lemma tries_outcome k tried log res : tries k tried log res → outcome_of log res.
Proof.
  induction 1 as [k0 t0 f|k0 t0 n held r log res Hp Hw Hm Ht (H1 & H2 & H3 & H4)|k0 t0 n held r f Hp Hr|k0 t0 n held body rec Hp];
    unfold outcome_of.
  - split_and!; in_log; naive_solver.
  - split_and!; in_log.
    + naive_solver.
    + intros m q' sb Hin Hv. assert (C_posted m q' (Answered 201 (Some sb)) ∈ log) as Hl.
      { destruct Hin as [[[? ?]|?]|[[? ?]|?]]; naive_solver. }
      destruct (H2 m q' sb Hl Hv); naive_solver.
    + intros sb (m & ? & ? & ? & ?)%H3. exists m. naive_solver.
    + intros f Hf o sb. specialize (H4 f Hf o sb). naive_solver.
  - split_and!; in_log; naive_solver.
  - unfold settle, names_other. destruct body as [sb|]; [destruct (ValidID (sb_ID sb)) eqn:Hv; cbn [negb]; [destruct (_ && rec) eqn:Hn|]|]; cbn [fst snd].
    2, 3, 4: split_and!; in_log; naive_solver congruence.
    apply andb_true_iff in Hn as [Hn _]. split_and!; in_log; [naive_solver..| |done].
    intros sb' [= <-]. exists n. split_and!; [naive_solver..|]. destruct (NodeOfID _) as [m|]; [|naive_solver].
    apply negb_true_iff, negb_false_iff, String.eqb_eq in Hn. subst. naive_solver.
Qed.

Lemma tries_unreleased k tried log res : tries k tried log res → C_released ∉ log.
Proof.
  induction 1; in_log; unfold settle; try (destruct body as [sb|]; [destruct (negb (ValidID _)); [|destruct (_ && _)]|]; cbn [fst]); in_log; naive_solver.
Qed.
End proofs.

(** ** A create as a whole *)
Lemma createSpread_cases `{Unicode} `{AEAD} range range_placed keyed dflt fuel p su q extra spread log res :
  createSpread range range_placed keyed dflt fuel p su q extra spread = Some (log, res) →
  (log = [] ∧ ∃ f, res = Err f) ∨
  ∃ q' w body, create_checks range keyed dflt p (su_reads su) q extra spread = Ok (q', w) ∧
    attempts range_placed p (owner_stamped p extra q') w (su_attempt su) fuel 0 [] None = Some (body, res) ∧
    log = C_held (p_Tenant p) (want_res w) :: body ++ release_log res.
Proof.
  unfold createSpread. destruct (create_checks _ _ _ _ _ _ _ _) as [[q' w]|f]; [|intros [= <- <-]; left; eauto].
  destruct (check_name_free su _) as [|f]; [|intros [= <- <-]; left; eauto].
  destruct (negb (su_quota su)); [intros [= <- <-]; left; eauto|].
  destruct (attempts _ _ _ _ _ _ _ _) as [[body r]|] eqn:E; [|done]. intros [= <- <-]. right. by exists q', w, body.
Qed.

Lemma posts_whole tenant size body (res : cres Sandbox) : posts (C_held tenant size :: body ++ release_log res) = posts body.
Proof. unfold posts. cbn. rewrite omap_app. by destruct res; cbn; rewrite app_nil_r. Qed.

(** C34. A create ends: with at most [names] the nodes of the pool, at whatever
    moment, one attempt more than there are of them is enough. *)
Theorem create_ends `{Unicode} `{AEAD} range range_placed keyed dflt fuel names p su q extra spread :
  (∀ k n, n ∈ pool_names (at_pool (su_attempt su k)) → n ∈ names) → (length names < fuel)%nat →
  is_Some (createSpread range range_placed keyed dflt fuel p su q extra spread).
Proof.
  intros Hn Hf. unfold createSpread. destruct (create_checks _ _ _ _ _ _ _ _) as [[q' w]|f]; [|by eexists].
  destruct (check_name_free _ _); [|by eexists]. destruct (negb _); [by eexists|].
  destruct (attempts_end range_placed p (owner_stamped p extra q') w (su_attempt su) names fuel 0 [] None) as [[log r] ->]; [done|apply NoDup_nil_2|set_solver|cbn; lia|].
  by eexists.
Qed.

(** C25. One create makes at most one sandbox: no node is asked twice, every node
    asked before the last refused before making anything or was never reached,
    and room is held on one node at a time and always settled, whatever the
    nodes answer. *)
Theorem create_makes_one_sandbox `{Unicode} `{AEAD} range range_placed keyed dflt fuel p su q extra spread log res :
  createSpread range range_placed keyed dflt fuel p su q extra spread = Some (log, res) →
  NoDup (posts log).*1 ∧ settled None log = true ∧
  ∀ asked n r later, posts log = asked ++ (n, r) :: later → Forall (λ a, may_have_made a.2 = false) asked.
Proof.
  intros [[-> _]|(q' & w & body & _ & Ha & ->)]%createSpread_cases.
  { cbn. split_and!; [apply NoDup_nil_2|done|by intros []]. }
  apply attempts_tries in Ha. rewrite posts_whole. pose proof (tries_posts _ _ _ _ _ _ _ _ _ Ha) as (Hd & _ & Hl).
  split_and!; [done| |].
  - cbn. pose proof (tries_settled _ _ _ _ _ _ _ _ _ Ha) as Hs. revert Hs. generalize (@None string) as h. clear.
    induction body as [|e body IH]; intros h Hs; cbn in *; [by destruct res|].
    destruct e; try by apply IH. all: apply andb_true_iff in Hs as [-> Hs]; by apply IH.
  - intros asked n r later E. apply Forall_forall. intros y Hy. destruct (may_have_made y.2) eqn:Em; [|done].
    exfalso. eapply Hl; [exact E|]. apply Exists_exists. by exists y.
Qed.


(** The node a create asks is the one its snapshot or volumes are on. *)
Lemma posted_pinned `{Unicode} `{AEAD} range range_placed keyed dflt fuel p su q extra spread log res n sent r :
  createSpread range range_placed keyed dflt fuel p su q extra spread = Some (log, res) → C_posted n sent r ∈ log →
  ∃ q' w w0 w1, sent = owner_stamped p extra q' ∧ w_Node w0 = ""%string ∧ pin p (su_reads su) q' w0 = Ok w1 ∧
    w_Node w = w_Node w1 ∧ (w_Node w ≠ ""%string → n = w_Node w).
Proof.
  intros [[-> _]|(q' & w & body & Hc & Ha & ->)]%createSpread_cases; [by intros ?%elem_of_nil|]. intros Hp.
  assert (C_posted n sent r ∈ body) as Hb.
  { apply elem_of_cons in Hp as [|[?|Hp]%elem_of_app]; [done..|]. destruct res; cbn in Hp; set_solver. }
  apply attempts_tries in Ha. pose proof (tries_outcome _ _ _ _ _ _ _ _ _ Ha) as (Hq & _).
  pose proof (tries_posts _ _ _ _ _ _ _ _ _ Ha) as (_ & Hn & _).
  destruct (create_checks_ok _ _ _ _ _ _ _ _ _ _ Hc) as (_ & _ & _ & w0 & w1 & ? & ? & ?).
  exists q', w, w0, w1. split_and!; [by eapply Hq|done..|]. intros Hw. apply (Hn n); [|done].
  apply list_elem_of_fmap. exists (n, r). split; [done|]. unfold posts. apply list_elem_of_omap. by eexists.
Qed.

