(* ===== verification/Quota.v ===== *)
(** * Tenants' quotas and lost nodes (internal/gateway: gateway.go reserve to
    record, lost.go)

    A create, or a resize's growth, holds its share of its tenant's quota from
    the check until the sandbox is recorded or the create has failed. What is
    on nodes that have been down too long is not counted. The quota's lock makes
    each of these steps one. *)
From S2P Require Import Prelude GoSort GoStrings Api Scheduler Spec ServiceSpec Access Identity SandboxStore.

(** ** Lost nodes *)

(** The configured nodes: [Some since] is down since then. *)
Abbreviation fleet_health := (gmap string (option Z)).

Definition past_grace (now after_ since : Z) : bool := time_sub now since >? after_.

(** Down past the grace period, or named by a record and not configured. *)
Definition lostNodes (nodes : fleet_health) (now after_ : Z) (rows : list SandboxRow) : gmap string Z :=
  foldl (λ out r, let n := ow_Node (sx_Owner r) in
                  match out !! n, nodes !! n with None, None => <[n := zero_time]> out | _, _ => out end)
    (omap (λ d, match d with Some since => if past_grace now after_ since then Some since else None | None => None end) nodes) rows.

Definition isLost (nodes : fleet_health) (now after_ : Z) (n : string) : bool :=
  match nodes !! n with
  | None => true
  | Some None => false
  | Some (Some since) => past_grace now after_ since
  end.

Record LostSandbox := {
  lo_ID : string; lo_Name : string; lo_Image : string; lo_State : string; lo_User : string; lo_Tenant : string; lo_Node : string;
  lo_CPUs : float64; lo_MemoryMB : Z; lo_NodeDownSince : Z }.
Definition by_node_id (a b : LostSandbox) : bool :=
  if negb (String.eqb (lo_Node a) (lo_Node b)) then str_ltb (lo_Node a) (lo_Node b) else str_ltb (lo_ID a) (lo_ID b).
Definition lostAmong (nodes : fleet_health) (now after_ : Z) (rows : list SandboxRow) : list LostSandbox :=
  let lost := lostNodes nodes now after_ rows in
  sort_stable by_node_id (omap (λ r, since ← lost !! ow_Node (sx_Owner r);
    let of_details (f : Sandbox → string) := match sx_Details r with Some d => f d | None => ""%string end in
    Some {| lo_ID := sx_ID r; lo_Name := of_details sb_Name; lo_Image := of_details sb_Image; lo_State := of_details sb_State; lo_User := ow_User (sx_Owner r); lo_Tenant := ow_Tenant (sx_Owner r); lo_Node := ow_Node (sx_Owner r);
            lo_CPUs := sx_CPUs r; lo_MemoryMB := sx_MemoryMB r; lo_NodeDownSince := since |}) rows).

Definition no_usage : Usage := {| ug_Sandboxes := 0; ug_CPUs := fzero; ug_MemoryMB := 0 |}.
(** Counting rows is taken not to overflow; memory is added as Go adds it. *)
Definition count_row (u : Usage) (r : SandboxRow) : Usage := {|
  ug_Sandboxes := ug_Sandboxes u + 1; ug_CPUs := fadd (ug_CPUs u) (sx_CPUs r); ug_MemoryMB := int_add (ug_MemoryMB u) (sx_MemoryMB r) |}.
Definition usageOf (s : store) (nodes : fleet_health) (now after_ : Z) (tenant : string) : Usage :=
  let rows := SandboxHistory s {| fl_Tenant := tenant; fl_AllTenant := false; fl_User := ""; fl_Live := true; fl_Limit := 0 |} in
  let lost := lostNodes nodes now after_ rows in
  foldl (λ u r, match lost !! ow_Node (sx_Owner r) with Some _ => u | None => count_row u r end) no_usage rows.

(** ** Holds *)
Record Quota := { q_Sandboxes : Z; q_CPUs : float64; q_MemoryMB : Z }.
Record quotaHold := { qh_tenant : string; qh_r : NodeResources; qh_n : Z }.
Inductive quota_error := QuotaSandboxes | QuotaCPUs | QuotaMemory.

Definition limited (q : Quota) : bool := (q_Sandboxes q >? 0) || fltb fzero (q_CPUs q) || (q_MemoryMB q >? 0).

(** The refusal of a share of [n] sandboxes and [r] when [u] is recorded and
    [i] in flight. *)
Definition over_quota (q : Quota) (u i : Usage) (r : NodeResources) (n : Z) : option quota_error :=
  if (n >? 0) && (q_Sandboxes q >? 0) && (int_add (int_add (ug_Sandboxes u) (ug_Sandboxes i)) n >? q_Sandboxes q) then Some QuotaSandboxes
  else if fltb fzero (q_CPUs q) && fltb (fadd (q_CPUs q) epsilon_1e9) (fadd (fadd (ug_CPUs u) (ug_CPUs i)) (nr_CPUs r)) then Some QuotaCPUs
  else if (q_MemoryMB q >? 0) && (int_add (int_add (ug_MemoryMB u) (ug_MemoryMB i)) (nr_MemoryMB r) >? q_MemoryMB q) then Some QuotaMemory
  else None.

Definition in_flight (f : gmap string Usage) (tenant : string) : Usage := default no_usage (f !! tenant).

Definition reserve (q : Quota) (u : Usage) (tenant : string) (r : NodeResources) (n : Z) (f : gmap string Usage) :
    result quota_error (quotaHold * gmap string Usage) :=
  let i := in_flight f tenant in
  match (if limited q then over_quota q u i r n else None) with
  | Some e => Err e
  | None => Ok ({| qh_tenant := tenant; qh_r := r; qh_n := n |},
                <[tenant := {| ug_Sandboxes := int_add (ug_Sandboxes i) n; ug_CPUs := fadd (ug_CPUs i) (nr_CPUs r);
                               ug_MemoryMB := int_add (ug_MemoryMB i) (nr_MemoryMB r) |}]> f)
  end.

Definition drop_hold (h : quotaHold) (f : gmap string Usage) : gmap string Usage :=
  let i := in_flight f (qh_tenant h) in
  let i := {| ug_Sandboxes := int_sub (ug_Sandboxes i) (qh_n h); ug_CPUs := fsub (ug_CPUs i) (nr_CPUs (qh_r h));
              ug_MemoryMB := int_sub (ug_MemoryMB i) (nr_MemoryMB (qh_r h)) |} in
  if (ug_Sandboxes i <=? 0) && fltb (ug_CPUs i) epsilon_1e9 && (ug_MemoryMB i <=? 0)
  then delete (qh_tenant h) f else <[qh_tenant h := i]> f.

Definition recorded_size (sb : Sandbox) : NodeResources := {|
  nr_CPUs := sb_CPUs sb; nr_MemoryMB := sb_MemoryMB sb; nr_DiskMB := sb_DiskMB sb; nr_GPUs := 0 |}.

(** ** The gateway's accounts *)

(** The holds that are neither released nor recorded, each under a number. *)
Record accounts := {
  ac_store : store;
  ac_inflight : gmap string Usage;
  ac_holds : gmap nat quotaHold;
  ac_nodes : fleet_health;
  ac_now : Z
}.

Inductive account_op :=
| A_reserve (h : nat) (tenant : string) (r : NodeResources) (n : Z)
| A_release (h : nat)
| A_record (h : nat) (user node : string) (sb : Sandbox)
| A_write (t : option string) (o : store_op)
| A_nodes (nodes : fleet_health).

Section accounts.
Context (hashSecret : string → string) (q : Quota) (after_ : Z).

(** [hold.release], and [hold.record] through the tenant's store. *)
Definition release_hold (h : nat) (hold : quotaHold) (a : accounts) : accounts := {|
  ac_store := ac_store a; ac_inflight := drop_hold hold (ac_inflight a); ac_holds := delete h (ac_holds a);
  ac_nodes := ac_nodes a; ac_now := ac_now a |}.
Definition record_hold (now : Z) (hold : quotaHold) (user node : string) (sb : Sandbox) (s : store) : stx store :=
  RecordSandbox now (sb_ID sb) {| ow_User := user; ow_Tenant := qh_tenant hold; ow_Node := node |} (recorded_size sb) (Some sb)
    (as_tenant (Some (qh_tenant hold)) s).

Definition at_time (now : Z) (a : accounts) : accounts := {|
  ac_store := ac_store a; ac_inflight := ac_inflight a; ac_holds := ac_holds a; ac_nodes := ac_nodes a; ac_now := now |}.

(** A refusal changes nothing. *)
Definition account_step (now : Z) (o : account_op) (a : accounts) : accounts :=
  let a := at_time now a in
  match o with
  | A_reserve h tenant r n =>
      match ac_holds a !! h, reserve q (usageOf (ac_store a) (ac_nodes a) now after_ tenant) tenant r n (ac_inflight a) with
      | None, Ok (hold, f) => {| ac_store := ac_store a; ac_inflight := f; ac_holds := <[h := hold]> (ac_holds a);
                                 ac_nodes := ac_nodes a; ac_now := now |}
      | _, _ => a
      end
  | A_release h => match ac_holds a !! h with Some hold => release_hold h hold a | None => a end
  | A_record h user node sb =>
      match ac_holds a !! h with
      | Some hold =>
          match record_hold now hold user node sb (ac_store a) with
          | Ok s => release_hold h hold {| ac_store := as_tenant None s; ac_inflight := ac_inflight a; ac_holds := ac_holds a;
                                      ac_nodes := ac_nodes a; ac_now := now |}
          | Err _ => a
          end
      | None => a
      end
  | A_write t o =>
      match store_step hashSecret now o (as_tenant t (ac_store a)) with
      | Ok s => {| ac_store := as_tenant None s; ac_inflight := ac_inflight a; ac_holds := ac_holds a; ac_nodes := ac_nodes a; ac_now := now |}
      | Err _ => a
      end
  | A_nodes nodes => {| ac_store := ac_store a; ac_inflight := ac_inflight a; ac_holds := ac_holds a; ac_nodes := nodes; ac_now := now |}
  end.

Fixpoint account_run (ops : list (Z * account_op)) (a : accounts) : accounts :=
  match ops with [] => a | (now, o) :: ops => account_run ops (account_step now o a) end.

Definition lost_now (a : accounts) (n : string) : bool := isLost (ac_nodes a) (ac_now a) after_ n.
(** A live row of the tenant on a node that is not lost. *)
Definition counted (a : accounts) (tenant : string) (r : sandbox_row) : bool :=
  row_live r && String.eqb (sw_org r) tenant && negb (lost_now a (sw_node r)).
End accounts.

(** ** What is counted *)
Lemma isLost_later nodes now now' after_ n : now ≤ now' → isLost nodes now after_ n = true → isLost nodes now' after_ n = true.
Proof. unfold isLost, past_grace, time_sub. destruct (nodes !! n) as [[since|]|]; [|done..]. lia. Qed.

Lemma lostNodes_spec nodes now after_ rows n :
  is_Some (lostNodes nodes now after_ rows !! n) ↔ isLost nodes now after_ n = true ∧ (is_Some (nodes !! n) ∨ ∃ r, r ∈ rows ∧ ow_Node (sx_Owner r) = n).
Proof.
  unfold lostNodes. set (start := omap _ nodes).
  assert (is_Some (start !! n) ↔ isLost nodes now after_ n = true ∧ is_Some (nodes !! n)) as Hstart.
  { unfold start, isLost. rewrite lookup_omap. destruct (nodes !! n) as [[since|]|]; cbn; [destruct (past_grace now after_ since)|..]; cbn;
      split; intros H; naive_solver (by eauto). }
  assert (∀ m : gmap string Z, is_Some (foldl (λ out r, let n := ow_Node (sx_Owner r) in
      match out !! n, nodes !! n with None, None => <[n := zero_time]> out | _, _ => out end) m rows !! n) ↔
    is_Some (m !! n) ∨ nodes !! n = None ∧ ∃ r, r ∈ rows ∧ ow_Node (sx_Owner r) = n) as Hfold.
  { induction rows as [|r rows IH]; intros m; cbn; [set_solver|]. rewrite IH. clear IH.
    set (k := ow_Node (sx_Owner r)). destruct (decide (k = n)) as [E|Hne].
    - rewrite E. destruct (m !! n) eqn:Em; [rewrite Em; set_solver|]. destruct (nodes !! n) eqn:En.
      + rewrite Em. naive_solver.
      + rewrite lookup_insert_eq. split; [|by left]. intros _. right. split; [done|]. exists r. split; [by left|done].
    - assert ((match m !! k, nodes !! k with None, None => <[k := zero_time]> m | _, _ => m end) !! n = m !! n) as ->.
      { destruct (m !! k), (nodes !! k); try done. by rewrite lookup_insert_ne. }
      split; (intros [?|[? (x & Hx & ?)]]; [by left|right; split; [done|]]).
      + exists x. split; [by right|done].
      + apply elem_of_cons in Hx as [->|Hx]; [by subst k|]. by exists x. }
  rewrite Hfold, Hstart. split.
  - intros [[H1 H2]|[H1 H2]]; [by split; [|left]|]. split; [|by right]. unfold isLost. by rewrite H1.
  - intros [H1 [H2|H2]]; [by left|]. destruct (nodes !! n) eqn:E; [left; by split|by right].
Qed.

Lemma lostNodes_row nodes now after_ rows r :
  r ∈ rows → match lostNodes nodes now after_ rows !! ow_Node (sx_Owner r) with Some _ => true | None => false end =
    isLost nodes now after_ (ow_Node (sx_Owner r)).
Proof.
  intros Hr. destruct (lostNodes_spec nodes now after_ rows (ow_Node (sx_Owner r))) as [H1 H2].
  destruct (lostNodes _ _ _ _ !! _) eqn:E.
  - by destruct H1 as [-> _]; [by eexists|].
  - destruct (isLost _ _ _ _); [|done]. destruct H2 as [? [=]]. split; [done|right; by exists r].
Qed.

Lemma seen_all s : st_tenant s = None → seen_sandboxes s = st_sandboxes s.
Proof. intros Ht. apply map_filter_id. intros i x _. unfold row_visible. rewrite Ht. apply orb_true_r. Qed.

Definition listsum (l : list Z) : Z := foldr Z.add 0 l.

Lemma listsum_filter {A} (p : A → bool) (g : A → Z) l : listsum (g <$> List.filter p l) = listsum ((λ x, if p x then g x else 0) <$> l).
Proof. induction l as [|x l IH]; [done|]. cbn. destruct (p x); cbn; unfold listsum in *; lia. Qed.

Lemma listsum_ext {A} (f g : A → Z) l : (∀ x, x ∈ l → f x = g x) → listsum (f <$> l) = listsum (g <$> l).
Proof.
  intros He. f_equal. induction l as [|x l IH]; [done|]. cbn. f_equal; [apply He; by left|]. apply IH. intros y Hy. apply He. by right.
Qed.

(** The sum over a tenant's listing is the sum over its live rows. *)
Lemma history_sum s tenant (g : SandboxRow → Z) :
  st_tenant s = None →
  listsum (g <$> SandboxHistory s {| fl_Tenant := tenant; fl_AllTenant := false; fl_User := ""; fl_Live := true; fl_Limit := 0 |}) =
  msum (λ id r, if String.eqb (sw_org r) tenant && row_live r then g (scanSandbox id r) else 0) (st_sandboxes s).
Proof.
  intros Ht. unfold SandboxHistory. cbn [fl_Limit Z.gtb Z.compare].
  assert (∀ l, listsum (g <$> sort_stable newest_first l) = listsum (g <$> l)) as ->
    by (intros l; apply foldr_add_perm, fmap_Permutation, sort_stable_perm).
  unfold sandboxRows. rewrite seen_all by done. rewrite <- list_fmap_compose.
  rewrite listsum_filter. apply listsum_ext. intros [id r] _. cbn. by rewrite andb_true_r.
Qed.

Section usage.
Context (nodes : fleet_health) (now after_ : Z).

Definition lost_row (r : SandboxRow) : bool := isLost nodes now after_ (ow_Node (sx_Owner r)).

Lemma usage_fold (lost : gmap string Z) l : ∀ u,
  (∀ r, r ∈ l → match lost !! ow_Node (sx_Owner r) with Some _ => true | None => false end = lost_row r) →
  let v := foldl (λ u r, match lost !! ow_Node (sx_Owner r) with Some _ => u | None => count_row u r end) u l in
  ug_Sandboxes v = ug_Sandboxes u + listsum ((λ r, if lost_row r then 0 else 1) <$> l) ∧
  ((∀ r, r ∈ l → 0 ≤ sx_MemoryMB r) → 0 ≤ ug_MemoryMB u →
   ug_MemoryMB u + listsum ((λ r, if lost_row r then 0 else sx_MemoryMB r) <$> l) ≤ max_int64 →
   ug_MemoryMB v = ug_MemoryMB u + listsum ((λ r, if lost_row r then 0 else sx_MemoryMB r) <$> l)).
Proof.
  induction l as [|r l IH]; intros u Hl; [cbn; lia|].
  assert (∀ x, x ∈ l → match lost !! ow_Node (sx_Owner x) with Some _ => true | None => false end = lost_row x) as Hl'
    by (intros x Hx; apply Hl; by right).
  assert (0 ≤ listsum ((λ r, if lost_row r then 0 else sx_MemoryMB r) <$> l) ∨ ∃ x, x ∈ l ∧ sx_MemoryMB x < 0) as Hpos.
  { clear IH Hl Hl'. induction l as [|x l IHl]; [by left|]. cbn. destruct IHl as [IHl|(y & Hy & ?)]; [|right; exists y; set_solver].
    destruct (decide (sx_MemoryMB x < 0)); [right; exists x; set_solver|left; unfold listsum in *; destruct (lost_row x); lia]. }
  cbn. specialize (Hl r ltac:(by left)). rewrite <- Hl. destruct (lost !! ow_Node (sx_Owner r)).
  - destruct (IH u Hl') as [H1 H2]. cbn in H1, H2. unfold listsum in *. split; [lia|]. intros Hm Hu Hle. apply H2; [|done|lia].
    intros x Hx. apply Hm. by right.
  - destruct (IH (count_row u r) Hl') as [H1 H2]. cbn in H1, H2. unfold listsum in *. split; [lia|]. intros Hm Hu Hle.
    pose proof (Hm r ltac:(by left)). destruct Hpos as [Hpos|(x & Hx & ?)]; [|specialize (Hm x ltac:(by right)); lia].
    assert (int_add (ug_MemoryMB u) (sx_MemoryMB r) = ug_MemoryMB u + sx_MemoryMB r) as Hadd
      by (apply wrap64_id; unfold in_int64, min_int64; lia).
    rewrite Hadd in H2. rewrite H2; [lia|intros x Hx; apply Hm; by right|lia|lia].
Qed.
End usage.

(** ** What a quota limits: sandboxes, and their memory *)
Record dimension := {
  dm_cap : Quota → Z;
  dm_used : Usage → Z;
  dm_row : sandbox_row → Z;
  dm_share : NodeResources → Z → Z
}.
Definition Sandboxes_dim : dimension := {| dm_cap := q_Sandboxes; dm_used := ug_Sandboxes; dm_row := λ _, 1; dm_share := λ _ n, n |}.
Definition Memory_dim : dimension := {|
  dm_cap := q_MemoryMB; dm_used := ug_MemoryMB; dm_row := sw_MemoryMB; dm_share := λ r _, nr_MemoryMB r |}.

Definition rows_ok (s : store) : Prop := ∀ id r, st_sandboxes s !! id = Some r → 0 ≤ sw_MemoryMB r.

Section quota.
Context (hashSecret : string → string) (q : Quota) (after_ : Z) (D : dimension).

(** What the tenant's counted sandboxes hold, and what its holds do. *)
Definition recorded (a : accounts) (tenant : string) : Z :=
  msum (λ _ r, if counted after_ a tenant r then dm_row D r else 0) (st_sandboxes (ac_store a)).
Definition hold_share (h : quotaHold) : Z := dm_share D (qh_r h) (qh_n h).
Definition held_for (a : accounts) (tenant : string) : Z :=
  msum (λ _ h, if String.eqb (qh_tenant h) tenant then hold_share h else 0) (ac_holds a).

(** A share no larger than any machine. *)
Definition share_ok (r : NodeResources) (n : Z) : Prop := 0 ≤ nr_MemoryMB r ≤ 2 ^ 61 ∧ (n = 0 ∨ n = 1).

(** The invariant of one dimension of the quota. *)
Record kept (a : accounts) : Prop := {
  kt_tenant : st_tenant (ac_store a) = None;
  kt_rows : rows_ok (ac_store a);
  kt_holds : ∀ h hold, ac_holds a !! h = Some hold → share_ok (qh_r hold) (qh_n hold);
  kt_inflight : ∀ t, dm_used D (in_flight (ac_inflight a) t) = held_for a t;
  kt_quota : ∀ t, recorded a t + held_for a t ≤ dm_cap D q
}.
End quota.

(** What the callers keep to: time does not run back; a share is a machine's;
    what is recorded under a hold is a sandbox made within it, or a live one
    grown by no more than it, where it was; other writes record no sandbox; and
    no node whose sandboxes are lost answers again. *)
Definition fair (after_ now : Z) (o : account_op) (a : accounts) : Prop :=
  ac_now a ≤ now ∧
  match o with
  | A_reserve _ _ r n => share_ok r n
  | A_release _ => True
  | A_record h _ node sb =>
      ∀ hold, ac_holds a !! h = Some hold → 0 ≤ sb_MemoryMB sb ∧
      match st_sandboxes (ac_store a) !! sb_ID sb with
      | Some r => if row_live r
                  then sw_org r = qh_tenant hold ∧ sw_node r = node ∧ sb_MemoryMB sb ≤ sw_MemoryMB r + nr_MemoryMB (qh_r hold)
                  else qh_n hold = 1 ∧ sb_MemoryMB sb ≤ nr_MemoryMB (qh_r hold)
      | None => qh_n hold = 1 ∧ sb_MemoryMB sb ≤ nr_MemoryMB (qh_r hold)
      end
  | A_write _ o => ∀ i ow sz sb, o ≠ St_record i ow sz sb
  | A_nodes nodes =>
      ∀ id r, st_sandboxes (ac_store a) !! id = Some r → row_live r = true →
        isLost (ac_nodes a) now after_ (sw_node r) = true → isLost nodes now after_ (sw_node r) = true
  end.

(** ** The laws of a dimension *)
Record dim_laws (q : Quota) (D : dimension) : Prop := {
  dl_cap : 0 < dm_cap D q ≤ 2 ^ 62;
  dl_row : ∀ r, 0 ≤ sw_MemoryMB r → 0 ≤ dm_row D r;
  dl_row_same : ∀ r r', same_record r r' → dm_row D r' = dm_row D r;
  dl_fresh : ∀ r h, sw_MemoryMB r ≤ nr_MemoryMB (qh_r h) → qh_n h = 1 → dm_row D r ≤ hold_share D h;
  dl_grown : ∀ r r' h, sw_MemoryMB r' ≤ sw_MemoryMB r + nr_MemoryMB (qh_r h) → 0 ≤ qh_n h → dm_row D r' ≤ dm_row D r + hold_share D h;
  dl_none : dm_used D no_usage = 0;
  dl_share : ∀ r n, share_ok r n → 0 ≤ dm_share D r n ≤ 2 ^ 61;
  dl_usage : ∀ a t, st_tenant (ac_store a) = None → rows_ok (ac_store a) → ∀ after_, recorded after_ D a t ≤ 2 ^ 62 →
    dm_used D (usageOf (ac_store a) (ac_nodes a) (ac_now a) after_ t) = recorded after_ D a t;
  dl_reserve : ∀ u t r n f h f', reserve q u t r n f = Ok (h, f') →
    h = {| qh_tenant := t; qh_r := r; qh_n := n |} ∧
    (∃ i, f' = <[t := i]> f ∧ dm_used D i = int_add (dm_used D (in_flight f t)) (dm_share D r n)) ∧
    (0 < dm_share D r n → int_add (int_add (dm_used D u) (dm_used D (in_flight f t))) (dm_share D r n) ≤ dm_cap D q);
  dl_drop : ∀ h f t, 0 ≤ dm_share D (qh_r h) (qh_n h) ≤ dm_used D (in_flight f (qh_tenant h)) →
    dm_used D (in_flight f (qh_tenant h)) ≤ 2 ^ 62 →
    dm_used D (in_flight (drop_hold h f) t) =
      dm_used D (in_flight f t) - (if String.eqb (qh_tenant h) t then dm_share D (qh_r h) (qh_n h) else 0)
}.

Lemma small_add a b : 0 ≤ a ≤ 2 ^ 62 → 0 ≤ b ≤ 2 ^ 61 → int_add a b = a + b.
Proof. intros Ha Hb. apply wrap64_id. unfold in_int64, min_int64, max_int64. lia. Qed.

Lemma in_flight_insert f t t' u : in_flight (<[t := u]> f) t' = if String.eqb t t' then u else in_flight f t'.
Proof.
  unfold in_flight. destruct (String.eqb_spec t t') as [->|Hne]; [by rewrite lookup_insert_eq|by rewrite lookup_insert_ne].
Qed.
Lemma in_flight_delete f t t' : in_flight (delete t f) t' = if String.eqb t t' then no_usage else in_flight f t'.
Proof.
  unfold in_flight. destruct (String.eqb_spec t t') as [->|Hne]; [by rewrite lookup_delete_eq|by rewrite lookup_delete_ne].
Qed.

Lemma reserve_ok q u t r n f h f' :
  reserve q u t r n f = Ok (h, f') →
  h = {| qh_tenant := t; qh_r := r; qh_n := n |} ∧
  (∃ i, f' = <[t := i]> f ∧ ug_Sandboxes i = int_add (ug_Sandboxes (in_flight f t)) n ∧
        ug_MemoryMB i = int_add (ug_MemoryMB (in_flight f t)) (nr_MemoryMB r)) ∧
  (0 < q_Sandboxes q → 0 < n → int_add (int_add (ug_Sandboxes u) (ug_Sandboxes (in_flight f t))) n ≤ q_Sandboxes q) ∧
  (0 < q_MemoryMB q → int_add (int_add (ug_MemoryMB u) (ug_MemoryMB (in_flight f t))) (nr_MemoryMB r) ≤ q_MemoryMB q).
Proof.
  unfold reserve. destruct (if limited q then _ else _) eqn:E; [done|]. intros [= <- <-]. split_and!; [done|by eexists|..].
  - intros Hq Hn. assert (limited q = true) as Hl by (unfold limited; apply orb_true_iff; left; apply orb_true_iff; left; lia).
    rewrite Hl in E. unfold over_quota in E. destruct (_ >? q_Sandboxes q) eqn:Ec in E; [|lia]. exfalso.
    assert ((n >? 0) = true) as H1 by lia. assert ((q_Sandboxes q >? 0) = true) as H2 by lia. by rewrite H1, H2 in E.
  - intros Hq. assert (limited q = true) as Hl by (unfold limited; apply orb_true_iff; right; lia).
    rewrite Hl in E. unfold over_quota in E. destruct (_ && (_ >? q_Sandboxes q)); [done|]. destruct (_ && fltb _ _); [done|].
    assert ((q_MemoryMB q >? 0) = true) as H2 by lia. rewrite H2 in E. destruct (_ >? q_MemoryMB q) eqn:Ec in E; [done|]. lia.
Qed.

(** Dropping leaves every tenant what was in flight for it less the hold's
    share, or, when nothing is left, nothing. *)
Lemma drop_ok h f t :
  in_flight (drop_hold h f) t = in_flight f t ∧ qh_tenant h ≠ t ∨
  qh_tenant h = t ∧
  let i := in_flight f t in
  let n := int_sub (ug_Sandboxes i) (qh_n h) in
  let m := int_sub (ug_MemoryMB i) (nr_MemoryMB (qh_r h)) in
  (in_flight (drop_hold h f) t = no_usage ∧ n ≤ 0 ∧ m ≤ 0 ∨
   ug_Sandboxes (in_flight (drop_hold h f) t) = n ∧ ug_MemoryMB (in_flight (drop_hold h f) t) = m).
Proof.
  unfold drop_hold. cbn. destruct (decide (qh_tenant h = t)) as [<-|Hne].
  - right. split; [done|]. destruct (_ && _ && _) eqn:E.
    + left. rewrite in_flight_delete, String.eqb_refl. bool_simpl. done.
    + right. by rewrite in_flight_insert, String.eqb_refl.
  - left. split; [|done]. apply String.eqb_neq in Hne. destruct (_ && _ && _).
    + by rewrite in_flight_delete, Hne.
    + by rewrite in_flight_insert, Hne.
Qed.

Lemma small_sub a b : 0 ≤ b ≤ a → a ≤ 2 ^ 62 → int_sub a b = a - b.
Proof. intros Ha Hb. apply wrap64_id. unfold in_int64, min_int64, max_int64. lia. Qed.

Lemma usage_recorded a t after_ :
  st_tenant (ac_store a) = None →
  ug_Sandboxes (usageOf (ac_store a) (ac_nodes a) (ac_now a) after_ t) = recorded after_ Sandboxes_dim a t ∧
  (rows_ok (ac_store a) → recorded after_ Memory_dim a t ≤ 2 ^ 62 →
   ug_MemoryMB (usageOf (ac_store a) (ac_nodes a) (ac_now a) after_ t) = recorded after_ Memory_dim a t).
Proof.
  intros Ht. unfold usageOf. set (rows := SandboxHistory _ _).
  assert (∀ g : SandboxRow → Z, listsum ((λ r, if lost_row (ac_nodes a) (ac_now a) after_ r then 0 else g r) <$> rows) =
    msum (λ id r, if counted after_ a t r then g (scanSandbox id r) else 0) (st_sandboxes (ac_store a))) as Hsum.
  { intros g. unfold rows. rewrite history_sum by done. apply msum_ext. intros id r _. unfold counted, lost_now, lost_row. cbn.
    destruct (String.eqb _ _), (row_live r), (isLost _ _ _ _); done. }
  pose proof (usage_fold (ac_nodes a) (ac_now a) after_ (lostNodes (ac_nodes a) (ac_now a) after_ rows) rows no_usage) as Hfold.
  destruct Hfold as [H1 H2]; [intros r Hr; unfold lost_row; by apply lostNodes_row|]. rewrite (Hsum (λ _, 1)) in H1. rewrite (Hsum sx_MemoryMB) in H2.
  split; [rewrite H1; done|]. intros Hok Hle. rewrite H2; [done|..|done|].
  - intros r Hr. assert (∃ id x, st_sandboxes (ac_store a) !! id = Some x ∧ r = scanSandbox id x) as (id & x & Hx & ->).
    { unfold rows, SandboxHistory in Hr. cbn [fl_Limit Z.gtb Z.compare] in Hr. apply elem_of_sort_stable in Hr.
      unfold sandboxRows in Hr. rewrite seen_all in Hr by done. apply list_elem_of_fmap in Hr as ([id x] & -> & [Hx _]%elem_of_bfilter).
      exists id, x. split; [|done]. by apply elem_of_map_to_list. }
    by apply (Hok id x).
  - change (ug_MemoryMB no_usage) with 0. unfold recorded in Hle. cbn [dm_row Memory_dim] in Hle. unfold max_int64.
    match goal with |- 0 + ?x ≤ _ => assert (x ≤ 2 ^ 62) by exact Hle end. lia.
Qed.

Lemma sandboxes_laws q : 0 < q_Sandboxes q ≤ 2 ^ 62 → dim_laws q Sandboxes_dim.
Proof.
  intros Hq. split; unfold hold_share; cbn; try done; try lia.
  - intros r n [_ Hn]. lia.
  - intros a t Ht _ after_ _. by apply usage_recorded.
  - intros u t r n f h f' (H1 & (i & H2 & H3 & _) & H4 & _)%reserve_ok. split_and!; [done|by exists i|]. intros Hn. apply H4; lia.
  - intros h f t Hs Hi. destruct (drop_ok h f t) as [[-> ->%String.eqb_neq]|(E & [(-> & H1 & _)|[-> _]])]; [lia|..];
      rewrite E, String.eqb_refl in *; rewrite small_sub in * by lia; cbn; lia.
Qed.
Lemma memory_laws q : 0 < q_MemoryMB q ≤ 2 ^ 62 → dim_laws q Memory_dim.
Proof.
  intros Hq. split; unfold hold_share; cbn; try done; try lia.
  - intros r r' (_ & _ & _ & _ & ->). done.
  - intros r n [Hm _]. lia.
  - intros a t Ht Hok after_ Hle. by apply usage_recorded.
  - intros u t r n f h f' (H1 & (i & H2 & _ & H3) & _ & H4)%reserve_ok. split_and!; [done|by exists i|]. intros Hn. apply H4; lia.
  - intros h f t Hs Hi. destruct (drop_ok h f t) as [[-> ->%String.eqb_neq]|(E & [(-> & _ & H1)|[_ ->]])]; [lia|..];
      rewrite E, String.eqb_refl in *; rewrite small_sub in * by lia; cbn; lia.
Qed.

(** ** No step breaks the quota *)
Section steps.
Context (hashSecret : string → string) (q : Quota) (after_ : Z) (D : dimension) (L : dim_laws q D).

Lemma recorded_sub a a' t :
  rows_ok (ac_store a) →
  (∀ id r', st_sandboxes (ac_store a') !! id = Some r' → ∃ r, st_sandboxes (ac_store a) !! id = Some r ∧ same_record r r' ∧
     (counted after_ a' t r' = true → counted after_ a t r = true)) →
  recorded after_ D a' t ≤ recorded after_ D a t.
Proof.
  intros Hok Hrow. unfold recorded. apply msum_sub.
  - intros id r Hr. destruct (counted _ _ _ _); [|done]. apply (dl_row _ _ L). by eapply Hok.
  - intros id r' Hr'. destruct (Hrow id r' Hr') as (r & Hr & Hs & Hc). exists r. split; [done|].
    destruct (counted after_ a' t r'); [rewrite Hc, (dl_row_same _ _ L r r' Hs) by done; lia|].
    destruct (counted _ _ _ _); [|done]. apply (dl_row _ _ L). by eapply Hok.
Qed.

Lemma same_rows_ok s s' :
  rows_ok s → (∀ id r', st_sandboxes s' !! id = Some r' → ∃ r, st_sandboxes s !! id = Some r ∧ same_record r r') → rows_ok s'.
Proof. intros Hok Hrow id r' Hr'. destruct (Hrow id r' Hr') as (r & Hr & (_ & _ & _ & _ & ->)). by eapply Hok. Qed.

(** Steps that touch no hold, and leave of the rows what was there. *)
Lemma kept_rows a a' :
  kept q after_ D a → ac_holds a' = ac_holds a → ac_inflight a' = ac_inflight a → st_tenant (ac_store a') = None →
  (∀ id r', st_sandboxes (ac_store a') !! id = Some r' → ∃ r, st_sandboxes (ac_store a) !! id = Some r ∧ same_record r r' ∧
     ∀ t, counted after_ a' t r' = true → counted after_ a t r = true) →
  kept q after_ D a'.
Proof.
  intros [K1 K2 K3 K4 K5] Eh Ef Et Hrow. split; [done|..].
  - eapply same_rows_ok; [exact K2|]. intros id r' Hr'. destruct (Hrow id r' Hr') as (r & ? & ? & _). by exists r.
  - by rewrite Eh.
  - intros t. unfold held_for. by rewrite Eh, Ef, K4.
  - intros t. transitivity (recorded after_ D a t + held_for D a t); [|done]. unfold held_for. rewrite Eh.
    assert (recorded after_ D a' t ≤ recorded after_ D a t); [|lia]. apply recorded_sub; [done|].
    intros id r' Hr'. destruct (Hrow id r' Hr') as (r & ? & ? & ?). exists r. split_and!; [done|done|auto].
Qed.

Lemma counted_spec a t r : counted after_ a t r = true ↔ row_live r = true ∧ sw_org r = t ∧ lost_now after_ a (sw_node r) = false.
Proof. unfold counted. rewrite !andb_true_iff, String.eqb_eq, negb_true_iff. tauto. Qed.

(** A hold's share is within what is in flight for its tenant, and within the
    quota. *)
Lemma held_nonneg a t : kept q after_ D a → 0 ≤ held_for D a t.
Proof.
  intros K. apply msum_nonneg. intros h hold Hh. destruct (String.eqb _ _); [|done].
  apply (dl_share _ _ L). by eapply kt_holds.
Qed.
Lemma recorded_nonneg a t : kept q after_ D a → 0 ≤ recorded after_ D a t.
Proof.
  intros K. apply msum_nonneg. intros id r Hr. destruct (counted _ _ _ _); [|done].
  apply (dl_row _ _ L). by eapply kt_rows.
Qed.
Lemma held_within a h hold :
  kept q after_ D a → ac_holds a !! h = Some hold →
  0 ≤ hold_share D hold ≤ dm_used D (in_flight (ac_inflight a) (qh_tenant hold)) ∧
  dm_used D (in_flight (ac_inflight a) (qh_tenant hold)) ≤ 2 ^ 62.
Proof.
  intros K Hh. rewrite (kt_inflight _ _ _ _ K). pose proof (recorded_nonneg a (qh_tenant hold) K).
  pose proof (kt_quota _ _ _ _ K (qh_tenant hold)). pose proof (dl_cap _ _ L). split; [|lia].
  split; [apply (dl_share _ _ L); by eapply kt_holds|]. unfold held_for. rewrite (msum_delete _ _ h hold Hh), String.eqb_refl.
  assert (0 ≤ msum (λ _ h0, if String.eqb (qh_tenant h0) (qh_tenant hold) then hold_share D h0 else 0) (delete h (ac_holds a))); [|lia].
  apply msum_nonneg. intros k x [_ Hx]%lookup_delete_Some. destruct (String.eqb _ _); [|done].
  apply (dl_share _ _ L). by eapply kt_holds.
Qed.

Lemma kept_time a now : kept q after_ D a → ac_now a ≤ now → kept q after_ D (at_time now a).
Proof.
  intros K Hle. apply (kept_rows a); try done; [apply K|]. intros id r Hr. exists r. split; [done|]. split; [by repeat split|].
  intros t. rewrite !counted_spec. intros (-> & -> & Hl). split_and!; try done. apply not_true_iff_false. intros Hl'.
  apply not_true_iff_false in Hl. apply Hl. unfold lost_now in *. cbn. by eapply isLost_later.
Qed.

Lemma kept_release a h hold : kept q after_ D a → ac_holds a !! h = Some hold → kept q after_ D (release_hold h hold a).
Proof.
  intros K Hh. pose proof (held_within a h hold K Hh) as [Hs Hb]. destruct K as [K1 K2 K3 K4 K5].
  assert (∀ t, held_for D (release_hold h hold a) t = held_for D a t - if String.eqb (qh_tenant hold) t then hold_share D hold else 0) as Hheld.
  { intros t. unfold held_for. cbn. rewrite (msum_delete _ (ac_holds a) h hold Hh). lia. }
  split; [done|done|..].
  - intros k x Hx. cbn in Hx. apply lookup_delete_Some in Hx as [_ Hx]. by eapply K3.
  - intros t. rewrite Hheld, <- K4. by apply (dl_drop _ _ L).
  - intros t. rewrite Hheld. change (recorded after_ D (release_hold h hold a) t) with (recorded after_ D a t). specialize (K5 t).
    unfold hold_share in *. destruct (String.eqb _ _); lia.
Qed.

(** A sandbox recorded under a hold, with the hold given up. *)
Lemma kept_put a h hold id row s' :
  kept q after_ D a → ac_holds a !! h = Some hold →
  st_tenant s' = None → st_sandboxes s' = <[id := row]> (st_sandboxes (ac_store a)) → sw_org row = qh_tenant hold → 0 ≤ sw_MemoryMB row →
  match st_sandboxes (ac_store a) !! id with
  | Some r => if row_live r
              then sw_org r = qh_tenant hold ∧ sw_node r = sw_node row ∧ sw_MemoryMB row ≤ sw_MemoryMB r + nr_MemoryMB (qh_r hold)
              else qh_n hold = 1 ∧ sw_MemoryMB row ≤ nr_MemoryMB (qh_r hold)
  | None => qh_n hold = 1 ∧ sw_MemoryMB row ≤ nr_MemoryMB (qh_r hold)
  end →
  kept q after_ D (release_hold h hold {| ac_store := s'; ac_inflight := ac_inflight a; ac_holds := ac_holds a; ac_nodes := ac_nodes a; ac_now := ac_now a |}).
Proof.
  intros K Hh Ht Hrows Ho Hm Hfit. pose proof (kept_release a h hold K Hh) as [_ _ K3 K4 K5].
  pose proof (kt_holds _ _ _ _ K h hold Hh) as Hshare. pose proof (kt_rows _ _ _ _ K) as Hok.
  assert (0 ≤ hold_share D hold) as Hpos by by apply (dl_share _ _ L).
  split; [done|..]; [|done|done|].
  - intros i r. cbn. rewrite Hrows. intros [[<- <-]|[_ Hr]]%lookup_insert_Some; [done|]. by eapply Hok.
  - intros t. set (a' := release_hold h hold _).
    assert (recorded after_ D a' t ≤ recorded after_ D a t + if String.eqb (qh_tenant hold) t then hold_share D hold else 0) as Hrec.
    + unfold recorded. cbn [a' release_hold ac_store]. rewrite Hrows.
      assert (∀ r, counted after_ a' t r = counted after_ a t r) as Hc by done.
      rewrite (msum_ext _ (λ _ r, if counted after_ a t r then dm_row D r else 0)) by (intros i r _; by rewrite Hc).
      assert (counted after_ a t row = true → qh_tenant hold = t) as Hrow by (rewrite counted_spec; intros (_ & <- & _); done).
      destruct (st_sandboxes (ac_store a) !! id) as [r|] eqn:E.
      * rewrite (msum_insert_over _ _ _ r row E). pose proof (dl_row _ _ L r (Hok id r E)) as Hr.
        destruct (counted after_ a t row) eqn:Ec; [|destruct (counted after_ a t r), (String.eqb _ _); lia].
        rewrite (Hrow eq_refl), String.eqb_refl. apply counted_spec in Ec as (_ & Eo & Ec). destruct (row_live r) eqn:El.
        -- destruct Hfit as (F1 & F2 & F3). assert (counted after_ a t r = true) as ->.
           { apply counted_spec. rewrite El, F1, F2. split_and!; [done|congruence|done]. }
           pose proof (dl_grown _ _ L r row hold F3) as Hg. destruct Hshare as [_ Hn]. lia.
        -- destruct Hfit as [F1 F2]. pose proof (dl_fresh _ _ L row hold F2 F1). destruct (counted after_ a t r); lia.
      * rewrite msum_insert by done. destruct Hfit as [F1 F2]. pose proof (dl_fresh _ _ L row hold F2 F1).
        destruct (counted after_ a t row); [rewrite (Hrow eq_refl), String.eqb_refl; lia|destruct (String.eqb _ _); lia].
    + assert (held_for D a' t = held_for D a t - if String.eqb (qh_tenant hold) t then hold_share D hold else 0) as ->.
      { unfold held_for. cbn. rewrite (msum_delete _ (ac_holds a) h hold Hh). lia. }
      pose proof (kt_quota _ _ _ _ K t). lia.
Qed.

Lemma kept_reserve a h t r n hold f :
  kept q after_ D a → ac_holds a !! h = None → share_ok r n →
  reserve q (usageOf (ac_store a) (ac_nodes a) (ac_now a) after_ t) t r n (ac_inflight a) = Ok (hold, f) →
  kept q after_ D {| ac_store := ac_store a; ac_inflight := f; ac_holds := <[h := hold]> (ac_holds a); ac_nodes := ac_nodes a; ac_now := ac_now a |}.
Proof.
  intros K Hh Hs Hres. apply (dl_reserve _ _ L) in Hres as (-> & (i & -> & Hi) & Hle).
  pose proof (dl_share _ _ L r n Hs) as Hpos. pose proof (dl_cap _ _ L) as Hcap.
  pose proof (recorded_nonneg a t K). pose proof (held_nonneg a t K). pose proof (kt_quota _ _ _ _ K t) as Hq.
  rewrite (dl_usage _ _ L) in Hle by (apply K || lia). rewrite (kt_inflight _ _ _ _ K) in Hi, Hle.
  rewrite small_add in Hi by lia.
  set (a' := Build_accounts _ _ _ _ _).
  assert (∀ t', held_for D a' t' = held_for D a t' + if String.eqb t t' then dm_share D r n else 0) as Hheld.
  { intros t'. unfold held_for. cbn. rewrite msum_insert by done. cbn. unfold hold_share. cbn. lia. }
  destruct K as [K1 K2 K3 K4 K5]. split; [done|done|..].
  - intros k x Hx. cbn in Hx. apply lookup_insert_Some in Hx as [[<- <-]|[_ Hx]]; [done|]. by eapply K3.
  - intros t'. rewrite Hheld. cbn. rewrite in_flight_insert. destruct (String.eqb_spec t t') as [<-|_]; [lia|]. rewrite K4. lia.
  - intros t'. rewrite Hheld. change (recorded after_ D a' t') with (recorded after_ D a t'). specialize (K5 t').
    destruct (String.eqb_spec t t') as [<-|_]; [|lia]. destruct (decide (dm_share D r n = 0)) as [->|Hne]; [lia|].
    assert (int_add (recorded after_ D a t) (held_for D a t) = recorded after_ D a t + held_for D a t) as Hadd
      by (apply wrap64_id; unfold in_int64, min_int64, max_int64; lia).
    rewrite Hadd in Hle. rewrite small_add in Hle by lia. lia.
Qed.

Lemma record_hold_ok now hold user node sb s s' :
  record_hold now hold user node sb s = Ok s' →
  ∃ row, st_sandboxes s' = <[sb_ID sb := row]> (st_sandboxes s) ∧ sw_org row = qh_tenant hold ∧ sw_node row = node ∧
    sw_MemoryMB row = sb_MemoryMB sb.
Proof.
  unfold record_hold, RecordSandbox. rewrite guard_ok. intros [_ H]. destruct (ownerIDs _ _ _ _) as [u d]. rewrite guard_ok in H.
  destruct H as [_ [= <-]]. by eexists.
Qed.

Lemma account_step_kept now o a : kept q after_ D a → fair after_ now o a → kept q after_ D (account_step hashSecret q after_ now o a).
Proof.
  intros K0 [Hnow Hfair]. pose proof (kept_time a now K0 Hnow) as K. unfold account_step.
  destruct o as [h t r n|h|h user node sb|t o|nodes].
  - destruct (ac_holds (at_time now a) !! h) eqn:Eh; [done|].
    destruct (reserve _ _ _ _ _ _) as [[hold f]|e] eqn:E; [|done]. by apply (kept_reserve (at_time now a) h t r n hold f K Eh Hfair).
  - destruct (ac_holds (at_time now a) !! h) as [hold|] eqn:Eh; [|done]. by apply kept_release.
  - destruct (ac_holds (at_time now a) !! h) as [hold|] eqn:Eh; [|done]. destruct (record_hold _ _ _ _ _ _) as [s'|e] eqn:E; [|done].
    destruct (record_hold_ok _ _ _ _ _ _ _ E) as (row & Hrows & Ho & Hn & Hm). destruct (Hfair hold Eh) as [Hsb Hfit].
    apply (kept_put (at_time now a) h hold (sb_ID sb) row); try done; [lia|]. by rewrite Hm, Hn.
  - destruct (store_step _ _ _ _) as [s'|e] eqn:E; [|done]. apply (kept_rows (at_time now a)); try done.
    intros id r' Hr'. destruct (step_old _ _ _ _ _ id r' E Hfair Hr') as (r & Hr & Hs & Hl). exists r. split_and!; [done|done|].
    intros t'. rewrite !counted_spec. destruct Hs as (<- & _ & <- & _). intros (Hl' & E1 & E2). auto.
  - apply (kept_rows (at_time now a)); try done; [apply K|]. intros id r Hr. exists r. split; [done|]. split; [by repeat split|].
    intros t. rewrite !counted_spec. intros (Hl & Ho & Hlost). split_and!; [done|done|]. apply not_true_iff_false. intros Hl'.
    unfold lost_now in *. cbn in *. by rewrite (Hfair id r Hr Hl Hl') in Hlost.
Qed.

Fixpoint fair_run (ops : list (Z * account_op)) (a : accounts) : Prop :=
  match ops with
  | [] => True
  | (now, o) :: ops => fair after_ now o a ∧ fair_run ops (account_step hashSecret q after_ now o a)
  end.

Lemma account_run_kept ops : ∀ a, kept q after_ D a → fair_run ops a → kept q after_ D (account_run hashSecret q after_ ops a).
Proof.
  induction ops as [|[now o] ops IH]; intros a K Hfair; [done|]. cbn in *. destruct Hfair as [Hf Hfair].
  apply IH; [|done]. by apply account_step_kept.
Qed.
End steps.

(** The gateway as it starts: nothing in flight, nobody over its quota. *)
Definition opens (q : Quota) (after_ : Z) (a : accounts) : Prop :=
  st_tenant (ac_store a) = None ∧ rows_ok (ac_store a) ∧ ac_inflight a = ∅ ∧ ac_holds a = ∅ ∧
  ∀ t, recorded after_ Sandboxes_dim a t ≤ q_Sandboxes q ∧ recorded after_ Memory_dim a t ≤ q_MemoryMB q.

Lemma opens_kept q after_ D a :
  st_tenant (ac_store a) = None → rows_ok (ac_store a) → ac_inflight a = ∅ → ac_holds a = ∅ → dim_laws q D →
  (∀ t, recorded after_ D a t ≤ dm_cap D q) → kept q after_ D a.
Proof.
  intros H1 H2 H3 H4 L Hq.
  assert (∀ t, held_for D a t = 0) as Hz by (intros t; unfold held_for; rewrite H4; apply msum_empty).
  split; [done|done|..].
  - intros h hold. by rewrite H4, lookup_empty.
  - intros t. rewrite Hz, H3. unfold in_flight. rewrite lookup_empty. apply (dl_none _ _ L).
  - intros t. rewrite Hz. specialize (Hq t). lia.
Qed.

