(* ===== verification/Agents.v ===== *)
(** * The agents a job may name (internal/agents: agents.go, bootstrap.go,
    pins.go)

    An agent is a table entry; what runs in the sandbox is an argv built from it.
    [installs], which Go fills as the table is built, is a
    table too. *)
From S2P Require Import Prelude GoSort GoStrings.

Record Descriptor := {
  ag_Name : string;
  ag_PersistDir : string;
  ag_AuthPaths : list string;
  ag_EnvAllow : list string;
  ag_Command : list string;
  ag_AutonomousArgs : option (string → list string);
  ag_ConsoleArgs : list string;
  ag_SkipPermissionArgs : list string;
  ag_ProviderHost : string;
  ag_ConsolePromptArgs : option (string → list string)
}.

(** ** Pins *)
Record InstallPin := { pin_Version : string; pin_Unpinned : bool; pin_SelfUpdates : string }.
Definition pinned (v : string) : InstallPin := {| pin_Version := v; pin_Unpinned := false; pin_SelfUpdates := "" |}.
Definition installPins : list (string * InstallPin) := [
  ("gemini", pinned "0.53.1");
  ("opencode", {| pin_Version := "1.18.11"; pin_Unpinned := false; pin_SelfUpdates := "yes" |});
  ("cline", pinned "3.0.49"); ("kilocode", pinned "7.4.23"); ("copilot", pinned "1.0.77"); ("qwen", pinned "0.21.3");
  ("goose", pinned "1.45.0"); ("openhands", pinned "1.16.0");
  ("devin", {| pin_Version := ""; pin_Unpinned := true; pin_SelfUpdates := "" |});
  ("cursor-agent", {| pin_Version := ""; pin_Unpinned := true; pin_SelfUpdates := "" |});
  ("claude", {| pin_Version := ""; pin_Unpinned := true; pin_SelfUpdates := "yes" |})]%string.
Definition PinFor (bin : string) : option InstallPin := snd <$> List.find (λ p, String.eqb (fst p) bin) installPins.

Definition pinned_version (bin : string) : option string :=
  match PinFor bin with Some p => if String.eqb (pin_Version p) "" then None else Some (pin_Version p) | None => None end.
Definition npmSpec (bin pkg : string) : string :=
  match pinned_version bin with Some v => pkg +:+ "@" +:+ v | None => pkg end.
Definition installedVersionSuffix (bin : string) : string :=
  match pinned_version bin with Some v => " " +:+ v | None => "" end.

(** ** The bootstrap *)
Definition ToolsDir : string := "/sandbox/tools".
Definition dq : string := String "034" "".
Definition join_lines (l : list string) : string := join "010" l.

Definition bootstrap_script (bin install : string) : string := join_lines [
  "export PATH=" +:+ dq +:+ "$PATH:$HOME/.local/bin" +:+ dq;
  "if [ -x " +:+ dq +:+ "$HOME/.local/bin/" +:+ bin +:+ dq +:+ " ]; then";
  "  exec " +:+ dq +:+ "$HOME/.local/bin/" +:+ bin +:+ dq +:+ " " +:+ dq +:+ "$@" +:+ dq;
  "fi";
  "if ! command -v " +:+ bin +:+ " >/dev/null 2>&1; then";
  "  if [ -f " +:+ ToolsDir +:+ "/.sandbox-ready ] && [ -x " +:+ ToolsDir +:+ "/.local/bin/" +:+ bin +:+ " ]; then";
  "    export PATH=" +:+ dq +:+ "$PATH:" +:+ ToolsDir +:+ "/.local/bin" +:+ dq;
  "    exec " +:+ ToolsDir +:+ "/.local/bin/" +:+ bin +:+ " " +:+ dq +:+ "$@" +:+ dq;
  "  fi";
  "  echo " +:+ dq +:+ "sandbox-cli: installing " +:+ bin +:+ installedVersionSuffix bin +:+
    " into this sandbox (it is not in the image and not cached on this endpoint, so this run installs it)..." +:+ dq +:+ " >&2";
  "  " +:+ install +:+ " >/dev/null 2>&1 || true";
  "fi";
  "if ! command -v " +:+ bin +:+ " >/dev/null 2>&1; then";
  "  echo " +:+ dq +:+ "sandbox-cli: " +:+ bin +:+ " is not installed, and installing it just now failed." +:+ dq +:+ " >&2";
  "  echo " +:+ dq +:+ "sandbox-cli: an agent that is not in the image needs network access to install." +:+ dq +:+ " >&2";
  "  echo " +:+ dq +:+ "sandbox-cli: with --allow, the install host must be on the allowlist." +:+ dq +:+ " >&2";
  "  exit 127";
  "fi";
  "exec " +:+ bin +:+ " " +:+ dq +:+ "$@" +:+ dq]%string.
Definition Bootstrap (bin install : string) : list string := ["sh"; "-c"; bootstrap_script bin install; bin]%string.
Definition NpmBootstrap (bin pkg : string) : list string :=
  Bootstrap bin ("npm install -g --prefix " +:+ dq +:+ "$HOME/.local" +:+ dq +:+ " " +:+ npmSpec bin pkg).

(** ** The tools volume *)
Record Tools := { to_Bin : string; to_Install : string }.
Definition InstallScript (t : Tools) : string := join_lines [
  "set -e";
  "if command -v " +:+ to_Bin t +:+ " >/dev/null 2>&1; then";
  "  touch " +:+ ToolsDir +:+ "/.sandbox-ready";
  "  exit 0";
  "fi";
  "export HOME=" +:+ ToolsDir;
  "export npm_config_cache=/tmp/sandbox-npm-cache";
  "cd " +:+ dq +:+ "$HOME" +:+ dq;
  to_Install t;
  "test -x " +:+ dq +:+ "$HOME/.local/bin/" +:+ to_Bin t +:+ dq;
  "touch " +:+ dq +:+ "$HOME/.sandbox-ready" +:+ dq]%string.

(** ** The table *)
Definition positional : option (string → list string) := Some (λ prompt, [prompt]).
Definition registry : list Descriptor := [
  {| ag_Name := "claude"; ag_PersistDir := "claude"; ag_AuthPaths := [".claude/.credentials.json"; ".claude.json"];
     ag_EnvAllow := ["ANTHROPIC_API_KEY"; "ANTHROPIC_AUTH_TOKEN"; "ANTHROPIC_BASE_URL"; "CLAUDE_CODE_USE_BEDROCK"; "CLAUDE_CODE_USE_VERTEX"];
     ag_Command := ["claude"]; ag_AutonomousArgs := Some (λ prompt, ["-p"; prompt]); ag_ConsoleArgs := [];
     ag_SkipPermissionArgs := ["--dangerously-skip-permissions"]; ag_ProviderHost := "api.anthropic.com"; ag_ConsolePromptArgs := positional |};
  {| ag_Name := "codex"; ag_PersistDir := "codex"; ag_AuthPaths := [".codex/auth.json"];
     ag_EnvAllow := ["OPENAI_API_KEY"; "OPENAI_BASE_URL"; "CODEX_HOME"];
     ag_Command := ["codex"]; ag_AutonomousArgs := Some (λ prompt, ["exec"; prompt]); ag_ConsoleArgs := [];
     ag_SkipPermissionArgs := []; ag_ProviderHost := "api.openai.com"; ag_ConsolePromptArgs := positional |};
  {| ag_Name := "gemini"; ag_PersistDir := "gemini";
     ag_AuthPaths := [".gemini/oauth_creds.json"; ".gemini/google_accounts.json"; ".gemini/settings.json"];
     ag_EnvAllow := ["GEMINI_API_KEY"; "GOOGLE_API_KEY"; "GOOGLE_GENAI_USE_VERTEXAI"; "GOOGLE_CLOUD_PROJECT"; "GOOGLE_CLOUD_LOCATION"];
     ag_Command := NpmBootstrap "gemini" "@google/gemini-cli"; ag_AutonomousArgs := Some (λ prompt, ["-p"; prompt]); ag_ConsoleArgs := [];
     ag_SkipPermissionArgs := ["--yolo"]; ag_ProviderHost := "generativelanguage.googleapis.com"; ag_ConsolePromptArgs := positional |};
  {| ag_Name := "opencode"; ag_PersistDir := "opencode"; ag_AuthPaths := [".local/share/opencode/auth.json"];
     ag_EnvAllow := ["ANTHROPIC_API_KEY"; "OPENAI_API_KEY"; "GEMINI_API_KEY"; "GROQ_API_KEY"; "OPENROUTER_API_KEY"; "OPENCODE_CONFIG";
                     "OPENCODE_DISABLE_AUTOUPDATE"];
     ag_Command := NpmBootstrap "opencode" "opencode-ai"; ag_AutonomousArgs := Some (λ prompt, ["run"; prompt]); ag_ConsoleArgs := [];
     ag_SkipPermissionArgs := []; ag_ProviderHost := ""; ag_ConsolePromptArgs := None |};
  {| ag_Name := "cline"; ag_PersistDir := "cline"; ag_AuthPaths := [];
     ag_EnvAllow := ["ANTHROPIC_API_KEY"; "CLINE_API_KEY"; "OPENAI_API_KEY"; "OPENROUTER_API_KEY"; "AI_GATEWAY_API_KEY"; "V0_API_KEY"];
     ag_Command := NpmBootstrap "cline" "cline"; ag_AutonomousArgs := positional; ag_ConsoleArgs := ["-i"];
     ag_SkipPermissionArgs := ["--auto-approve"; "true"]; ag_ProviderHost := ""; ag_ConsolePromptArgs := None |}]%string.

Definition Lookup (name : string) : option Descriptor := List.find (λ d, String.eqb (ag_Name d) name) registry.
Definition Names : list string := sort_stable str_ltb (ag_Name <$> registry).

(** [concat] of argv fragments; a job names only agents with a headless mode. *)
Definition Autonomous (d : Descriptor) (prompt : string) (extra : list string) : list string :=
  ag_Command d ++ match ag_AutonomousArgs d with Some f => f prompt | None => [] end ++ ag_SkipPermissionArgs d ++ extra.
Definition CanSeedConsole (d : Descriptor) : bool := bool_decide (is_Some (ag_ConsolePromptArgs d)).
Definition CanSkipPermissions (d : Descriptor) : bool := (0 <? length (ag_SkipPermissionArgs d))%nat.
Definition Console (d : Descriptor) (prompt : string) (skipPermissions : bool) : list string :=
  let argv := ag_Command d ++ ag_ConsoleArgs d in
  let argv := if skipPermissions then argv ++ ag_SkipPermissionArgs d else argv in
  if String.eqb prompt "" then argv
  else match ag_ConsolePromptArgs d with Some f => argv ++ f prompt | None => argv end.

(** What each bootstrapped agent's [Bootstrap] recorded in [installs], by its
    binary. *)
Definition npm_install (bin pkg : string) : string := "npm install -g --prefix " +:+ dq +:+ "$HOME/.local" +:+ dq +:+ " " +:+ npmSpec bin pkg.
Definition installs : list Tools := (λ '(b, p), {| to_Bin := b; to_Install := npm_install b p |}) <$>
  [("gemini", "@google/gemini-cli"); ("opencode", "opencode-ai"); ("cline", "cline")]%string.
Definition Tools_of (d : Descriptor) : option Tools :=
  match ag_Command d with
  | [sh; c; _; bin] => if String.eqb sh "sh" && String.eqb c "-c" then List.find (λ t, String.eqb (to_Bin t) bin) installs else None
  | _ => None
  end.
(** [Volume]: [hash] are the first eight hexadecimal digits of SHA-256. *)
Definition Tools_Volume (hash : string → string) (t : Tools) (agent : string) : string :=
  "agent-" +:+ agent +:+ "-" +:+ hash (to_Bin t +:+ String "000" (to_Install t)).

(** ** Facts of the table *)
Lemma lookup_some name d : Lookup name = Some d → d ∈ registry ∧ ag_Name d = name.
Proof.
  intros H%List.find_some. destruct H as [H E]. split; [by apply list_elem_of_In|by apply String.eqb_eq].
Qed.

(** Every agent of the table runs headless, its prompt one argument of an argv
    that is otherwise fixed: no prompt reaches a shell, or another argument. *)
Theorem prompt_is_one_argument name d :
  Lookup name = Some d → is_Some (ag_AutonomousArgs d) ∧
  ∃ pre post, pre ≠ [] ∧ ∀ prompt, Autonomous d prompt [] = pre ++ prompt :: post.
Proof.
  intros [Hd _]%lookup_some. unfold registry in Hd. split.
  - repeat (apply elem_of_cons in Hd as [->|Hd]; [by eexists|]). by apply elem_of_nil in Hd.
  - repeat (apply elem_of_cons in Hd as [->|Hd]; [unfold Autonomous; cbn [ag_Command ag_AutonomousArgs ag_SkipPermissionArgs positional]|]); [..|by apply elem_of_nil in Hd].
    + by exists ["claude"; "-p"]%string, ["--dangerously-skip-permissions"]%string.
    + by exists ["codex"; "exec"]%string, [].
    + exists (NpmBootstrap "gemini" "@google/gemini-cli" ++ ["-p"%string]), ["--yolo"%string]. by split.
    + exists (NpmBootstrap "opencode" "opencode-ai" ++ ["run"%string]), []. by split.
    + exists (NpmBootstrap "cline" "cline"), ["--auto-approve"; "true"]%string. by split.
Qed.
