(* ===== verification/Config.v ===== *)
(** * The user's configuration (internal/policy/config.go, profile.go)

    What a configuration file holds, the two profiles' base layers, what the
    net_resolved configuration means for a run, and what is checked of it. A slice
    or a map whose nil differs from an empty one is an option. *)
From S2P Require Import Prelude GoSort GoStrings GoPath PolicyEnv ServiceSpec.

(** ** The schema *)
Record MountSpec := { ms_Host : string; ms_Container : string; ms_Mode : string }.

Record NetworkSpec := { nw_Mode : string; nw_Allow : option (list string); nw_Baseline : option bool }.

Record SecuritySpec := {
  se_NoNewPrivileges : option bool;
  se_CapDrop : option (list string);
  se_CapAdd : option (list string);
  se_PidsLimit : option Z;
  se_Memory : string;
  se_CPUs : string;
  se_Seccomp : string
}.

Record CacheSpec := { ca_Enabled : option bool; ca_Paths : option (list string) }.
Record SnapshotSpec := { sn_Enabled : option bool; sn_Interval : string; sn_Retention : string }.
Record SecretSpec := { ss_File : string; ss_Command : string; ss_Env : string }.

Record S3Spec := {
  s3_Bucket : string; s3_Region : string; s3_Endpoint : string; s3_Prefix : string; s3_PathStyle : bool;
  s3_AccessKeyEnv : string; s3_SecretKeyEnv : string; s3_SessionTokenEnv : string
}.
Record MirrorSpec := { mi_S3 : option S3Spec; mi_Upload : string; mi_MaxObjectMB : Z }.

Record Config := {
  cf_Image : string;
  cf_Workdir : string;
  cf_User : string;
  cf_Home : string;
  cf_Hostname : string;
  cf_Mounts : option (list MountSpec);
  cf_Env : option (gmap string string);
  cf_EnvAllow : option (list string);
  cf_Network : NetworkSpec;
  cf_Ports : option (list string);
  cf_Security : SecuritySpec;
  cf_Cache : CacheSpec;
  cf_Snapshot : SnapshotSpec;
  cf_Secrets : option (gmap string SecretSpec);
  cf_Routing : list string;
  cf_Providers : gmap string string;
  cf_Mirror : option MirrorSpec;
  cf_Profile : string;
  cf_PersistAuth : option bool;
  cf_Sync : option bool
}.

(** ** Field updates *)
Definition set_network (n : NetworkSpec) (c : Config) : Config := {|
  cf_Image := cf_Image c; cf_Workdir := cf_Workdir c; cf_User := cf_User c; cf_Home := cf_Home c; cf_Hostname := cf_Hostname c;
  cf_Mounts := cf_Mounts c; cf_Env := cf_Env c; cf_EnvAllow := cf_EnvAllow c; cf_Network := n; cf_Ports := cf_Ports c;
  cf_Security := cf_Security c; cf_Cache := cf_Cache c; cf_Snapshot := cf_Snapshot c; cf_Secrets := cf_Secrets c;
  cf_Routing := cf_Routing c; cf_Providers := cf_Providers c; cf_Mirror := cf_Mirror c; cf_Profile := cf_Profile c;
  cf_PersistAuth := cf_PersistAuth c; cf_Sync := cf_Sync c |}.
Definition set_profile (p : string) (c : Config) : Config := {|
  cf_Image := cf_Image c; cf_Workdir := cf_Workdir c; cf_User := cf_User c; cf_Home := cf_Home c; cf_Hostname := cf_Hostname c;
  cf_Mounts := cf_Mounts c; cf_Env := cf_Env c; cf_EnvAllow := cf_EnvAllow c; cf_Network := cf_Network c; cf_Ports := cf_Ports c;
  cf_Security := cf_Security c; cf_Cache := cf_Cache c; cf_Snapshot := cf_Snapshot c; cf_Secrets := cf_Secrets c;
  cf_Routing := cf_Routing c; cf_Providers := cf_Providers c; cf_Mirror := cf_Mirror c; cf_Profile := p;
  cf_PersistAuth := cf_PersistAuth c; cf_Sync := cf_Sync c |}.
Definition set_providers (m : gmap string string) (c : Config) : Config := {|
  cf_Image := cf_Image c; cf_Workdir := cf_Workdir c; cf_User := cf_User c; cf_Home := cf_Home c; cf_Hostname := cf_Hostname c;
  cf_Mounts := cf_Mounts c; cf_Env := cf_Env c; cf_EnvAllow := cf_EnvAllow c; cf_Network := cf_Network c; cf_Ports := cf_Ports c;
  cf_Security := cf_Security c; cf_Cache := cf_Cache c; cf_Snapshot := cf_Snapshot c; cf_Secrets := cf_Secrets c;
  cf_Routing := cf_Routing c; cf_Providers := m; cf_Mirror := cf_Mirror c; cf_Profile := cf_Profile c;
  cf_PersistAuth := cf_PersistAuth c; cf_Sync := cf_Sync c |}.
Definition net_with_mode (m : string) (n : NetworkSpec) : NetworkSpec :=
  {| nw_Mode := m; nw_Allow := nw_Allow n; nw_Baseline := nw_Baseline n |}.
Definition with_baseline (b : option bool) (n : NetworkSpec) : NetworkSpec :=
  {| nw_Mode := nw_Mode n; nw_Allow := nw_Allow n; nw_Baseline := b |}.

(** The zero value: what a file that says nothing parses as. *)
Definition no_security : SecuritySpec := {|
  se_NoNewPrivileges := None; se_CapDrop := None; se_CapAdd := None; se_PidsLimit := None;
  se_Memory := ""; se_CPUs := ""; se_Seccomp := "" |}.
Definition zero_config : Config := {|
  cf_Image := ""; cf_Workdir := ""; cf_User := ""; cf_Home := ""; cf_Hostname := ""; cf_Mounts := None; cf_Env := None;
  cf_EnvAllow := None; cf_Network := {| nw_Mode := ""; nw_Allow := None; nw_Baseline := None |}; cf_Ports := None;
  cf_Security := no_security; cf_Cache := {| ca_Enabled := None; ca_Paths := None |};
  cf_Snapshot := {| sn_Enabled := None; sn_Interval := ""; sn_Retention := "" |}; cf_Secrets := None; cf_Routing := [];
  cf_Providers := ∅; cf_Mirror := None; cf_Profile := ""; cf_PersistAuth := None; cf_Sync := None |}.

(** ** What a field that may be unset comes to *)
Definition NoNewPriv (s : SecuritySpec) : bool := default true (se_NoNewPrivileges s).
Definition Pids (s : SecuritySpec) : Z := default 0 (se_PidsLimit s).
Definition BaselineEnabled (n : NetworkSpec) : bool := default true (nw_Baseline n).
Definition CacheEnabled (c : CacheSpec) : bool := default false (ca_Enabled c).
Definition SnapshotEnabled (s : SnapshotSpec) : bool := default true (sn_Enabled s).
Definition PersistAuthEnabled (c : Config) : bool := default true (cf_PersistAuth c).
Definition SyncEnabled (c : Config) : bool := default true (cf_Sync c).

(** The slice as a [range] over it sees it. *)
Definition elems {A} (s : option (list A)) : list A := default [] s.
Definition map_entries {A} (m : option (gmap string A)) : gmap string A := default ∅ m.

(** Trimmed, without the empty ones and those seen before. *)
Fixpoint dedupe `{Unicode} (seen : gset string) (l : list string) : list string :=
  match l with
  | [] => []
  | d :: rest =>
      let d := trim_space d in
      if String.eqb d "" || bool_decide (d ∈ seen) then dedupe seen rest
      else d :: dedupe ({[d]} ∪ seen) rest
  end.
Definition DedupeDomains `{Unicode} (l : list string) : list string := dedupe ∅ l.
Definition dedupePaths `{Unicode} (l : list string) : list string := dedupe ∅ l.

Definition EgressDomains `{Unicode} (n : NetworkSpec) : option (list string) :=
  if String.eqb (nw_Mode n) "allowlist" then
    Some (DedupeDomains (if BaselineEnabled n then BaselineEgress ++ elems (nw_Allow n) else elems (nw_Allow n)))
  else None.

Definition DefaultCachePaths : list string :=
  ["/sandbox/home/.npm"; "/sandbox/home/.cache/pip"; "/sandbox/home/.cargo/registry";
   "/sandbox/home/go/pkg/mod"; "/sandbox/home/.cache/yarn"]%string.
Definition CachePaths `{Unicode} (c : CacheSpec) : list string := dedupePaths (DefaultCachePaths ++ elems (ca_Paths c)).

(** The first of the three homes the path is under is taken off. *)
Definition cache_relative (p : string) : string :=
  match cut_prefix p "/sandbox/home/", cut_prefix p "/root/", cut_prefix p "/home/" with
  | Some r, _, _ | None, Some r, _ | None, None, Some r => r
  | None, None, None => p
  end.
(** Each run of anything but letters and digits is one dash. Every byte of a
    rune past ASCII is such, so the runes' own boundaries do not show. *)
Fixpoint dashed (prevDash : bool) (l : list ascii) : list ascii :=
  match l with
  | [] => []
  | c :: t => if is_alnum c then c :: dashed false t
              else if prevDash then dashed true t else "-"%char :: dashed true t
  end.
Fixpoint trim_dashes (l : list ascii) : list ascii :=
  match l with c :: t => if is_char "-" c then trim_dashes t else l | [] => [] end.
Definition CacheVolumeName (containerPath : string) : string :=
  of_chars (reverse (trim_dashes (reverse (chars "sandbox-cache-" ++ dashed true (chars (cache_relative containerPath)))))).

Definition DefaultSnapshotInterval : Z := 2 * minute.
Definition DefaultSnapshotRetention : Z := 14 * 24 * 60 * minute.
Definition parseDurationOr (s : string) (fallback : Z) : Z :=
  if String.eqb s "" then fallback else default fallback (ParseDuration s).
Definition EveryDuration (s : SnapshotSpec) : Z := parseDurationOr (sn_Interval s) DefaultSnapshotInterval.
Definition RetentionDuration (s : SnapshotSpec) : Z := parseDurationOr (sn_Retention s) DefaultSnapshotRetention.

Definition NetworkArg (c : Config) : string := if String.eqb (nw_Mode (cf_Network c)) "none" then "none" else "".

Definition MirrorBringBack : string := "bring-back".
Definition MirrorAll : string := "all".
Definition DefaultMirrorMaxObjectMB : Z := 2048.
Definition UploadMode (m : option MirrorSpec) : string :=
  match m with
  | Some m => if String.eqb (mi_Upload m) "" then MirrorBringBack else mi_Upload m
  | None => MirrorBringBack
  end.
Definition MaxObjectBytes (m : option MirrorSpec) : Z :=
  match m with
  | Some m => if mi_MaxObjectMB m <=? 0 then Z.shiftl DefaultMirrorMaxObjectMB 20 else wrap64 (Z.shiftl (mi_MaxObjectMB m) 20)
  | None => Z.shiftl DefaultMirrorMaxObjectMB 20
  end.

(** ** The base layers *)
Definition Default : Config := {|
  cf_Image := DefaultImage; cf_Workdir := "/workspace"; cf_User := "sandbox"; cf_Home := "/sandbox/home";
  cf_Hostname := "sandbox"; cf_Mounts := None; cf_Env := Some ∅; cf_EnvAllow := None;
  cf_Network := {| nw_Mode := ""; nw_Allow := None; nw_Baseline := None |}; cf_Ports := None;
  cf_Security := {| se_NoNewPrivileges := Some true; se_CapDrop := Some ["ALL"%string]; se_CapAdd := None;
                    se_PidsLimit := Some 1024; se_Memory := ""; se_CPUs := ""; se_Seccomp := "" |};
  cf_Cache := {| ca_Enabled := None; ca_Paths := None |};
  cf_Snapshot := {| sn_Enabled := None; sn_Interval := ""; sn_Retention := "" |}; cf_Secrets := None; cf_Routing := [];
  cf_Providers := ∅; cf_Mirror := None; cf_Profile := ""; cf_PersistAuth := None; cf_Sync := None |}.

Definition ProfileDev : string := "dev".
Definition ProfileProd : string := "prod".
Definition SeccompRequired : string := "required".

Definition profileStrength (name : string) : Z :=
  if String.eqb name ProfileDev then 1 else if String.eqb name ProfileProd then 2 else 0.
Definition KnownProfile (name : string) : bool := String.eqb name ProfileDev || String.eqb name ProfileProd.

Definition profileBase (name : string) : Config :=
  let c := Default in
  if String.eqb name ProfileProd then {|
    cf_Image := cf_Image c; cf_Workdir := cf_Workdir c; cf_User := cf_User c; cf_Home := cf_Home c; cf_Hostname := cf_Hostname c;
    cf_Mounts := cf_Mounts c; cf_Env := cf_Env c; cf_EnvAllow := cf_EnvAllow c;
    cf_Network := {| nw_Mode := "allowlist"; nw_Allow := nw_Allow (cf_Network c); nw_Baseline := Some false |};
    cf_Ports := Some [];
    cf_Security := {| se_NoNewPrivileges := se_NoNewPrivileges (cf_Security c); se_CapDrop := se_CapDrop (cf_Security c);
                      se_CapAdd := se_CapAdd (cf_Security c); se_PidsLimit := Some 512; se_Memory := "2g"; se_CPUs := "2";
                      se_Seccomp := SeccompRequired |};
    cf_Cache := cf_Cache c; cf_Snapshot := cf_Snapshot c; cf_Secrets := cf_Secrets c; cf_Routing := cf_Routing c;
    cf_Providers := cf_Providers c; cf_Mirror := cf_Mirror c; cf_Profile := cf_Profile c;
    cf_PersistAuth := Some false; cf_Sync := Some false |}
  else c.

(** ** Which profile, and whether a configuration delivers it *)
Inductive load_error :=
| unknown_profile (name : string)
| config_not_found (path : string)
| read_failed (path : string)
| parse_failed (path : string)
| restricted (path : string) (keys : list string)
| breaks_profile (bad : list string)
| dead_keys (path : string) (keys : list string)
| invalid (what : string).

Definition ResolveProfile (flag user project : string) : result load_error string :=
  if negb (String.eqb flag "") then
    reject_if (negb (KnownProfile flag)) (unknown_profile flag);; Ok flag
  else
    reject_if (negb (String.eqb user "") && negb (KnownProfile user)) (unknown_profile user);;
    let chosen := if String.eqb user "" then ProfileDev else user in
    Ok (if KnownProfile project && (profileStrength chosen <? profileStrength project) then project else chosen).

Definition IsRootUser `{Unicode} (user : string) : bool :=
  let u := trim_space user in
  let u := match cut u ":" with Some (a, _) => a | None => u end in
  String.eqb u "root" || String.eqb u "0".

(** The settings of prod that [cfg] does not have, by the key at fault. *)
Definition prod_breaks `{Unicode} (cfg : Config) : list string :=
  let unless (ok : bool) (what : string) := if ok then [] else [what] in
  let se := cf_Security cfg in
  unless (String.eqb (nw_Mode (cf_Network cfg)) "allowlist") "network.mode" ++
  unless (negb (BaselineEnabled (cf_Network cfg))) "network.baseline" ++
  unless (negb (default false (cf_PersistAuth cfg))) "persist_auth" ++
  unless (negb (default false (cf_Sync cfg))) "sync" ++
  unless (String.eqb (se_Seccomp se) SeccompRequired) "security.seccomp" ++
  unless (negb (IsRootUser (cf_User cfg))) "user" ++
  unless (bool_decide (elems (se_CapAdd se) = [])) "security.cap_add" ++
  unless (negb (String.eqb (se_Memory se) "")) "security.memory" ++
  unless (negb (String.eqb (se_CPUs se) "")) "security.cpus" ++
  unless (0 <? default 0 (se_PidsLimit se)) "security.pids_limit" ++
  unless (bool_decide (elems (cf_Ports cfg) = [])) "ports".
Definition ValidateProfile `{Unicode} (name : string) (cfg : Config) : result load_error () :=
  if negb (String.eqb name ProfileProd) then Ok ()
  else let bad := prod_breaks cfg in reject_if (negb (bool_decide (bad = []))) (breaks_profile bad).

(** ** Validate: the merged result as a whole *)
Definition one_of (s : string) (l : list string) : bool := bool_decide (s ∈ l).
Definition set_env_name (s : string) : bool := String.eqb s "" || ValidEnvName s.

Definition validateMirror (m : option MirrorSpec) : result load_error () :=
  match m with
  | None => Ok ()
  | Some m =>
      reject_if (negb (one_of (mi_Upload m) [""%string; MirrorBringBack; MirrorAll])) (invalid "mirror.upload");;
      reject_if (mi_MaxObjectMB m <? 0) (invalid "mirror.max_object_mb");;
      match mi_S3 m with
      | None => Err (invalid "mirror.s3.bucket")
      | Some s3 =>
          reject_if (String.eqb (s3_Bucket s3) "") (invalid "mirror.s3.bucket");;
          reject_if (negb (set_env_name (s3_AccessKeyEnv s3) && set_env_name (s3_SecretKeyEnv s3) && set_env_name (s3_SessionTokenEnv s3)))
            (invalid "mirror.s3")
      end
  end.

Definition every_key {A} (f : string → bool) (m : gmap string A) : bool := forallb f (map_to_list m).*1.
Definition one_source (s : SecretSpec) : bool :=
  let set (v : string) : Z := if String.eqb v "" then 0 else 1 in
  set (ss_File s) + set (ss_Command s) + set (ss_Env s) =? 1.
Definition mount_ok (m : MountSpec) : bool :=
  negb (String.eqb (ms_Host m) "") && negb (String.eqb (ms_Container m) "") && one_of (ms_Mode m) [""; "ro"; "rw"]%string.
Definition duration_ok (s : string) : bool := String.eqb s "" || bool_decide (is_Some (ParseDuration s)).

Definition Validate `{Unicode} (c : Config) : result load_error () :=
  reject_if (String.eqb (cf_Image c) "") (invalid "image");;
  reject_if (has_prefix (cf_Image c) "-") (invalid "image");;
  reject_if (existsb (λ ch, is_char " " ch || is_char "009" ch || is_char "010" ch) (chars (cf_Image c))) (invalid "image");;
  validateMirror (cf_Mirror c);;
  reject_if (negb (every_key (λ k, negb (IsReservedEnv k) && ValidEnvName k) (map_entries (cf_Env c)))) (invalid "env");;
  reject_if (negb (every_key (λ k, ValidEnvName k && negb (IsReservedEnv k)) (map_entries (cf_Secrets c)))) (invalid "secrets");;
  reject_if (String.eqb (cf_Workdir c) "") (invalid "workdir");;
  reject_if (negb (one_of (nw_Mode (cf_Network c)) [""; "default"; "none"; "allowlist"]%string)) (invalid "network.mode");;
  reject_if (negb (forallb mount_ok (elems (cf_Mounts c)))) (invalid "mounts");;
  reject_if (negb (duration_ok (sn_Interval (cf_Snapshot c)) && duration_ok (sn_Retention (cf_Snapshot c)))) (invalid "snapshot");;
  reject_if (negb (forallb (λ kv, one_source kv.2) (map_to_list (map_entries (cf_Secrets c))))) (invalid "secrets").

(** ** Lemmas *)
Lemma dedupe_elem `{Unicode} l : ∀ seen d, d ∈ dedupe seen l ↔ d ∉ seen ∧ d ≠ ""%string ∧ d ∈ (trim_space <$> l).
Proof.
  induction l as [|x l IH]; intros seen d; cbn.
  - split; [intros Hd; by apply not_elem_of_nil in Hd|]. intros (_ & _ & Hd). by apply not_elem_of_nil in Hd.
  - rewrite elem_of_cons. destruct (String.eqb_spec (trim_space x) ""); cbn.
    { rewrite IH. naive_solver. }
    case_bool_decide as Hs; cbn.
    + rewrite IH. naive_solver.
    + rewrite elem_of_cons, IH. rewrite not_elem_of_union, not_elem_of_singleton.
      destruct (decide (d = trim_space x)); naive_solver.
Qed.

Lemma elem_DedupeDomains `{Unicode} l d : d ∈ DedupeDomains l ↔ d ≠ ""%string ∧ d ∈ (trim_space <$> l).
Proof. unfold DedupeDomains. rewrite dedupe_elem. set_solver. Qed.

Lemma DedupeDomains_mono `{Unicode} l l' : l ⊆ l' → DedupeDomains l ⊆ DedupeDomains l'.
Proof. intros Hl d. rewrite !elem_DedupeDomains. intros [? Hd]. split; [done|]. set_solver. Qed.

Lemma dedupe_nodup `{Unicode} l : ∀ seen, NoDup (dedupe seen l).
Proof.
  induction l as [|x l IH]; intros seen; cbn; [constructor|].
  destruct (_ || _); [done|]. constructor; [|done]. rewrite dedupe_elem. set_solver.
Qed.

Lemma unless_nil {A} (b : bool) (x : A) (l : list A) : (if b then [] else [x]) ++ l = [] ↔ b = true ∧ l = [].
Proof. destruct b; cbn; naive_solver. Qed.

Lemma ResolveProfile_known flag user project p : ResolveProfile flag user project = Ok p → KnownProfile p = true.
Proof.
  unfold ResolveProfile. destruct (negb (String.eqb flag "")).
  { rewrite guard_ok. intros [Hk [= <-]]. by apply negb_false_iff in Hk. }
  rewrite guard_ok. intros [Hk [= <-]]. destruct (KnownProfile project) eqn:Ep; cbn.
  2: destruct (String.eqb user ""); cbn in *; [done|]; by apply negb_false_iff in Hk.
  destruct (_ <? _); [done|]. destruct (String.eqb user ""); cbn in *; [done|]. by apply negb_false_iff in Hk.
Qed.
