(* ===== verification/ConfigTrust.v ===== *)
(** * What a project's file may set (internal/policy/trust.go)

    A [.sandbox.yaml] found in the working directory or above it comes with
    the repository: the keys that reach the host, choose what runs or widen
    the sandbox are refused from it, and those that may go either way are
    refused where they loosen what is in force. *)
From S2P Require Import Prelude GoSort GoStrings GoPath PolicyEnv ServiceSpec Config.

Definition networkStrength (mode : string) : Z :=
  if String.eqb mode "none" then 2
  else if String.eqb mode "allowlist" || String.eqb mode "" then 1
  else 0.

Definition is_nil {A} (o : option A) : bool := negb (bool_decide (is_Some o)).

Definition securityIsZero (s : SecuritySpec) : bool :=
  is_nil (se_NoNewPrivileges s) && is_nil (se_CapDrop s) && is_nil (se_CapAdd s) && is_nil (se_PidsLimit s) &&
  String.eqb (se_Memory s) "" && String.eqb (se_CPUs s) "" && String.eqb (se_Seccomp s) "".

Definition inheritedNetworkMode (inherited : Config) : string :=
  if String.eqb (nw_Mode (cf_Network inherited)) "" then "server's default" else nw_Mode (cf_Network inherited).

Definition quote : string := String "034" "".
Definition weaker_mode (src inherited : Config) : string :=
  "network.mode (" +:+ quote +:+ nw_Mode (cf_Network src) +:+ quote +:+ " is weaker than the " +:+ quote +:+
  inheritedNetworkMode inherited +:+ quote +:+ " already in force; remove the key, or load this file deliberately with --config)".

(** The keys [src] sets that a project's file laid over [inherited] may not,
    sorted; a file is taken only when there is none. *)
Definition restrictedProjectKeys (src inherited : Config) : list string :=
  let add (bad : bool) (key : string) := if bad then [key] else [] in
  let set (s : string) := negb (String.eqb s "") in
  let has {A} (o : option A) := negb (is_nil o) in
  let turns_on (o : option bool) (already : bool) := default false o && negb already in
  sort_stable str_ltb (
    add (set (cf_Image src)) "image" ++
    add (set (cf_Workdir src)) "workdir" ++
    add (set (cf_User src)) "user" ++
    add (negb (bool_decide (cf_Providers src = ∅))) "providers" ++
    add (negb (bool_decide (cf_Routing src = []))) "routing" ++
    add (has (cf_Mirror src)) "mirror" ++
    add (set (cf_Home src)) "home" ++
    add (has (cf_Mounts src)) "mounts" ++
    add (has (cf_Secrets src)) "secrets" ++
    add (has (cf_Env src)) "env" ++
    add (has (cf_EnvAllow src)) "env_allow" ++
    add (has (ca_Paths (cf_Cache src))) "cache.paths" ++
    add (negb (securityIsZero (cf_Security src))) "security" ++
    add (has (nw_Allow (cf_Network src))) "network.allow" ++
    add (has (cf_Ports src)) "ports" ++
    add (has (sn_Enabled (cf_Snapshot src)) || set (sn_Interval (cf_Snapshot src)) || set (sn_Retention (cf_Snapshot src))) "snapshot" ++
    add (set (nw_Mode (cf_Network src)) &&
         (networkStrength (nw_Mode (cf_Network src)) <? networkStrength (nw_Mode (cf_Network inherited)))) (weaker_mode src inherited) ++
    add (turns_on (nw_Baseline (cf_Network src)) (BaselineEnabled (cf_Network inherited))) "network.baseline" ++
    add (set (cf_Profile src) && (profileStrength (cf_Profile src) <? profileStrength (cf_Profile inherited))) "profile" ++
    add (turns_on (cf_PersistAuth src) (PersistAuthEnabled inherited)) "persist_auth" ++
    add (turns_on (cf_Sync src) (SyncEnabled inherited)) "sync").

(** ** What is left when no key is refused *)
Record unrestricted (src inherited : Config) : Prop := {
  un_Image : cf_Image src = ""%string;
  un_Workdir : cf_Workdir src = ""%string;
  un_User : cf_User src = ""%string;
  un_Home : cf_Home src = ""%string;
  un_Providers : cf_Providers src = ∅;
  un_Routing : cf_Routing src = [];
  un_Mirror : cf_Mirror src = None;
  un_Mounts : cf_Mounts src = None;
  un_Secrets : cf_Secrets src = None;
  un_Env : cf_Env src = None;
  un_EnvAllow : cf_EnvAllow src = None;
  un_Paths : ca_Paths (cf_Cache src) = None;
  un_Security : cf_Security src = no_security;
  un_Allow : nw_Allow (cf_Network src) = None;
  un_Ports : cf_Ports src = None;
  un_Snapshot : cf_Snapshot src = {| sn_Enabled := None; sn_Interval := ""; sn_Retention := "" |};
  un_Mode : nw_Mode (cf_Network src) = ""%string ∨
            networkStrength (nw_Mode (cf_Network inherited)) ≤ networkStrength (nw_Mode (cf_Network src));
  un_Baseline : nw_Baseline (cf_Network src) = Some true → BaselineEnabled (cf_Network inherited) = true;
  un_Profile : cf_Profile src = ""%string ∨ profileStrength (cf_Profile inherited) ≤ profileStrength (cf_Profile src);
  un_PersistAuth : cf_PersistAuth src = Some true → PersistAuthEnabled inherited = true;
  un_Sync : cf_Sync src = Some true → SyncEnabled inherited = true
}.

Lemma add_nil (b : bool) (k : string) (l : list string) : (if b then [k] else []) ++ l = [] ↔ b = false ∧ l = [].
Proof. destruct b; cbn; naive_solver. Qed.

Lemma is_nil_true {A} (o : option A) : is_nil o = true ↔ o = None.
Proof. unfold is_nil. destruct o; cbn; naive_solver. Qed.

Lemma securityIsZero_true s : securityIsZero s = true ↔ s = no_security.
Proof.
  unfold securityIsZero. rewrite !andb_true_iff, !is_nil_true, !String.eqb_eq.
  destruct s as [a b c d e f g]; cbn. unfold no_security. split.
  - intros H. destruct_and! H. by subst.
  - intros [= -> -> -> -> -> -> ->]. by split_and!.
Qed.

Lemma turns_on_false (o : option bool) b : default false o && negb b = false ↔ (o = Some true → b = true).
Proof. destruct o as [[]|], b; cbn; naive_solver. Qed.

Lemma unset (s : string) : negb (String.eqb s "") = false ↔ s = ""%string.
Proof. rewrite negb_false_iff. apply String.eqb_eq. Qed.

Lemma set_and_weaker (s : string) a b : negb (String.eqb s "") && (a <? b) = false ↔ s = ""%string ∨ b ≤ a.
Proof. destruct (String.eqb_spec s ""); cbn; [naive_solver|]. rewrite Z.ltb_ge. naive_solver. Qed.

Lemma restricted_none src inherited : restrictedProjectKeys src inherited = [] → unrestricted src inherited.
Proof.
  intros Hr. apply sort_stable_nil_inv in Hr. rewrite !add_nil in Hr.
  rewrite <- (app_nil_r (if _ && negb (SyncEnabled _) then _ else _)), add_nil in Hr.
  rewrite !set_and_weaker, !turns_on_false, !orb_false_iff, !unset, !negb_false_iff, !is_nil_true, !bool_decide_eq_true,
    securityIsZero_true in Hr.
  destruct Hr as (? & ? & ? & ? & ? & ? & ? & ? & ? & ? & ? & ? & ? & ? & ? & [[? ?] ?] & ? & ? & ? & ? & ? & ?).
  split; try done. destruct (cf_Snapshot src); cbn in *. by subst.
Qed.
