(* ===== verification/ConfigLoad.v ===== *)
(** * Loading the configuration (internal/policy/load.go, keys.go)

    The layers, lowest first: the profile's base, what Studio keeps, the
    user's own file, then the file named explicitly or the project's, found by
    walking up; then the flags. What the files hold is the host's, an argument;
    the load reads them twice, first for the profile alone, and they may change
    between the two passes. *)
From S2P Require Import Prelude GoSort GoStrings GoPath PolicyEnv ServiceSpec Config ConfigTrust.

(** ** The host *)

(** A file as the YAML reader sees it: the schema it fills, where it does, and
    its top-level keys, where it is a mapping. *)
Record Doc := { doc_config : option Config; doc_keys : option (list string) }.
Inductive contents := Absent | Unreadable | Contains (d : Doc).
Inductive stat_result := StatAbsent | StatFailed | StatFile | StatDir.

Record Host := {
  h_cwd : option string;              (** [os.Getwd] *)
  h_home : option string;             (** [os.UserHomeDir] *)
  h_xdg : string;                     (** [$XDG_CONFIG_HOME] *)
  h_read : string → contents;         (** [os.ReadFile], decoded *)
  h_stat : string → stat_result;      (** [os.Stat] *)
  h_entry : string → bool;            (** [os.Lstat] succeeds *)
  h_providers : string → option (gmap string string)  (** Studio's JSON file *)
}.

Section host.
Context (h : Host).

Definition configRoot : string :=
  if negb (String.eqb (h_xdg h) "") then Join [h_xdg h; "sandbox"]%string
  else match h_home h with Some home => Join [home; ".config"; "sandbox"]%string | None => "" end.
Definition under_root (elems : list string) : string :=
  if String.eqb configRoot "" then "" else Join (configRoot :: elems).
Definition userConfigPath : string := under_root ["config.yaml"%string].
Definition AgentStateDir (name : string) : string := under_root ["agents"%string; name].
Definition SharedDir : string := under_root ["shared"%string].
Definition RescueDir : string := under_root ["rescue"%string].
Definition AuditDir : string := under_root ["audit"%string].
Definition ContextsDir : string := under_root ["contexts"%string].
Definition StudioDir : string := under_root ["studio"%string].
Definition ProviderOverridesPath : string :=
  if String.eqb StudioDir "" then "" else Join [StudioDir; "providers.json"%string].
Definition loadProviderOverrides : gmap string string :=
  if String.eqb ProviderOverridesPath "" then ∅ else default ∅ (h_providers h ProviderOverridesPath).

(** *** Finding the project's file *)
Definition projectFileName : string := ".sandbox.yaml".

Fixpoint repoRootOf (d : list string) : option (list string) :=
  if h_entry h (path_of (".git"%string :: d)) then Some d
  else match d with [] => None | _ :: up => repoRootOf up end.

(** [strings.HasPrefix(p, r+"/")] of two clean absolute paths: as components,
    but for the root, whose [r+"/"] is two slashes and begins no clean path. *)
Definition withinDir (root path : list string) : bool :=
  bool_decide (root = path) || (negb (bool_decide (root = [])) && bool_decide (root `suffix_of` path)).

Definition projectSearchBoundary (d : list string) : list string :=
  match repoRootOf d with
  | Some root => root
  | None =>
      match h_home h ≫= Abs (h_cwd h) with
      | Some home => if withinDir home d then home else d
      | None => d
      end
  end.

Definition is_file (s : stat_result) : bool := match s with StatFile => true | _ => false end.
Fixpoint search_up (stopAt d : list string) : option (list string) :=
  if is_file (h_stat h (path_of (projectFileName :: d))) then Some (projectFileName :: d)
  else if bool_decide (d = stopAt) then None
  else match d with [] => None | _ :: up => search_up stopAt up end.

(** The file's components, or [None] for [""]. *)
Definition findProjectConfig (dir : string) : option (list string) :=
  d ← Abs (h_cwd h) dir; search_up (projectSearchBoundary d) d.

(** ** Reading and merging *)
Definition readConfigFile (path : string) : result load_error (option Config) :=
  match h_read h path with
  | Absent => Ok None
  | Unreadable => Err (read_failed path)
  | Contains d => match doc_config d with Some f => Ok (Some f) | None => Err (parse_failed path) end
  end.

Definition ExpandTilde (p : string) : string :=
  match h_home h with
  | Some home => if String.eqb p "~" then home
                 else match cut_prefix p "~/" with Some rest => Join [home; rest] | None => p end
  | None => p
  end.
Definition resolveHostPath (p baseDir : string) : string :=
  let p := ExpandTilde p in
  if IsAbs p then Clean p else Clean (Join [baseDir; p]).

(** [if src is set]. *)
Definition nearer_str (src dst : string) : string := if String.eqb src "" then dst else src.
Definition nearer_opt {A} (src dst : option A) : option A := match src with Some _ => src | None => dst end.
(** [append(dst, src...)]: nil only where both have nothing. *)
Definition append_slice {A} (dst src : option (list A)) : option (list A) :=
  match dst, elems src with
  | None, [] => None
  | _, l => Some (elems dst ++ l)
  end.
(** Key by key; the map is made for the first. *)
Definition merge_map {A} (dst src : option (gmap string A)) : option (gmap string A) :=
  if bool_decide (map_entries src = ∅) then dst else Some (map_entries src ∪ map_entries dst).

Definition mergeSecurity (dst src : SecuritySpec) : SecuritySpec := {|
  se_NoNewPrivileges := nearer_opt (se_NoNewPrivileges src) (se_NoNewPrivileges dst);
  se_CapDrop := nearer_opt (se_CapDrop src) (se_CapDrop dst);
  se_CapAdd := nearer_opt (se_CapAdd src) (se_CapAdd dst);
  se_PidsLimit := nearer_opt (se_PidsLimit src) (se_PidsLimit dst);
  se_Memory := nearer_str (se_Memory src) (se_Memory dst);
  se_CPUs := nearer_str (se_CPUs src) (se_CPUs dst);
  se_Seccomp := nearer_str (se_Seccomp src) (se_Seccomp dst) |}.

Definition resolve_mount (baseDir : string) (m : MountSpec) : MountSpec :=
  {| ms_Host := resolveHostPath (ms_Host m) baseDir; ms_Container := ms_Container m; ms_Mode := ms_Mode m |}.

Definition mergeInto (dst src : Config) (baseDir : string) : Config := {|
  cf_Image := nearer_str (cf_Image src) (cf_Image dst);
  cf_Workdir := nearer_str (cf_Workdir src) (cf_Workdir dst);
  cf_User := nearer_str (cf_User src) (cf_User dst);
  cf_Home := nearer_str (cf_Home src) (cf_Home dst);
  cf_Hostname := nearer_str (cf_Hostname src) (cf_Hostname dst);
  cf_Mounts := append_slice (cf_Mounts dst) (Some (resolve_mount baseDir <$> elems (cf_Mounts src)));
  cf_Env := merge_map (cf_Env dst) (cf_Env src);
  cf_EnvAllow := append_slice (cf_EnvAllow dst) (cf_EnvAllow src);
  cf_Network := {| nw_Mode := nearer_str (nw_Mode (cf_Network src)) (nw_Mode (cf_Network dst));
                   nw_Allow := nearer_opt (nw_Allow (cf_Network src)) (nw_Allow (cf_Network dst));
                   nw_Baseline := nearer_opt (nw_Baseline (cf_Network src)) (nw_Baseline (cf_Network dst)) |};
  cf_Ports := nearer_opt (cf_Ports src) (cf_Ports dst);
  cf_Security := mergeSecurity (cf_Security dst) (cf_Security src);
  cf_Cache := {| ca_Enabled := nearer_opt (ca_Enabled (cf_Cache src)) (ca_Enabled (cf_Cache dst));
                 ca_Paths := nearer_opt (ca_Paths (cf_Cache src)) (ca_Paths (cf_Cache dst)) |};
  cf_Snapshot := {| sn_Enabled := nearer_opt (sn_Enabled (cf_Snapshot src)) (sn_Enabled (cf_Snapshot dst));
                    sn_Interval := nearer_str (sn_Interval (cf_Snapshot src)) (sn_Interval (cf_Snapshot dst));
                    sn_Retention := nearer_str (sn_Retention (cf_Snapshot src)) (sn_Retention (cf_Snapshot dst)) |};
  cf_Secrets := merge_map (cf_Secrets dst) (cf_Secrets src);
  cf_Routing := match cf_Routing src with [] => cf_Routing dst | l => l end;
  cf_Providers := cf_Providers src ∪ cf_Providers dst;
  cf_Mirror := nearer_opt (cf_Mirror src) (cf_Mirror dst);
  cf_Profile := cf_Profile dst;
  cf_PersistAuth := nearer_opt (cf_PersistAuth src) (cf_PersistAuth dst);
  cf_Sync := nearer_opt (cf_Sync src) (cf_Sync dst) |}.

Definition mergeFile (dst : Config) (path : string) : result load_error Config :=
  f ← readConfigFile path;
  Ok match f with Some f => mergeInto dst f (Dir path) | None => dst end.

Definition mergeProjectFile (dst : Config) (path : string) : result load_error Config :=
  f ← readConfigFile path;
  match f with
  | None => Ok dst
  | Some f =>
      let bad := restrictedProjectKeys f dst in
      reject_if (negb (bool_decide (bad = []))) (restricted path bad);;
      Ok (mergeInto dst f (Dir path))
  end.

(** ** The first pass: which profile *)
Definition declared_profile (path : string) : string :=
  match readConfigFile path with Ok (Some f) => cf_Profile f | _ => "" end.

Definition discoverProfile (startDir explicitPath flagProfile : string) : result load_error string :=
  let user := if String.eqb userConfigPath "" then ""%string else declared_profile userConfigPath in
  if negb (String.eqb explicitPath "") then
    let named := declared_profile explicitPath in
    ResolveProfile flagProfile (if String.eqb named "" then user else named) ""
  else
    ResolveProfile flagProfile user
      match findProjectConfig startDir with Some p => declared_profile (path_of p) | None => ""%string end.

(** ** The second *)
Record Overrides := { ov_NetworkMode : string; ov_Allow : list string; ov_NoBaseline : bool }.
Definition no_overrides : Overrides := {| ov_NetworkMode := ""; ov_Allow := []; ov_NoBaseline := false |}.

Definition apply_overrides (ov : Overrides) (n : NetworkSpec) : NetworkSpec :=
  let n := if negb (bool_decide (ov_Allow ov = [])) && negb (String.eqb (nw_Mode n) "none") then net_with_mode "allowlist" n else n in
  let n := if negb (String.eqb (ov_NetworkMode ov) "") then net_with_mode (ov_NetworkMode ov) n else n in
  if ov_NoBaseline ov then with_baseline (Some false) n else n.

(** What lies under the project's file: the base, Studio's hosts, the user's. *)
Definition user_layers (name : string) : result load_error Config :=
  let cfg := set_profile name (profileBase name) in
  let cfg := set_providers (loadProviderOverrides ∪ cf_Providers cfg) cfg in
  if String.eqb userConfigPath "" then Ok cfg else mergeFile cfg userConfigPath.

Definition nearest_layer (startDir explicitPath : string) (cfg : Config) : result load_error Config :=
  if negb (String.eqb explicitPath "") then
    match h_stat h explicitPath with
    | StatAbsent => Err (config_not_found explicitPath)
    | StatFailed => Err (read_failed explicitPath)
    | _ => mergeFile cfg explicitPath
    end
  else match findProjectConfig startDir with
       | Some p => mergeProjectFile cfg (path_of p)
       | None => Ok cfg
       end.

Definition load_named (startDir explicitPath name : string) (ov : Overrides) : result load_error Config :=
  cfg ← user_layers name;
  cfg ← nearest_layer startDir explicitPath cfg;
  Ok (set_network (apply_overrides ov (cf_Network cfg)) (set_profile name cfg)).

(** *** Keys that do nothing *)
Definition liveKeys : gset string := list_to_set
  ["image"; "env"; "env_allow"; "network"; "secrets"; "routing"; "providers"; "profile"; "persist_auth"]%string.
Definition CheckLiveKeys (path : string) : result load_error () :=
  if String.eqb path "" then Ok ()
  else match h_read h path with
       | Contains d =>
           match doc_keys d with
           | Some keys =>
               let dead := sort_stable str_ltb (filter (λ k, k ∉ liveKeys) keys) in
               reject_if (negb (bool_decide (dead = []))) (dead_keys path dead)
           | None => Ok ()
           end
       | _ => Ok ()
       end.

(** *** A slip of extension in the explicit path *)
Definition siblingConfigPath (path : string) : string :=
  let try (alt : string) := match h_stat h alt with StatFile => alt | _ => ""%string end in
  if String.eqb (Ext path) ".yml" then try (trim_suffix path ".yml" +:+ ".yaml")
  else if String.eqb (Ext path) ".yaml" then try (trim_suffix path ".yaml" +:+ ".yml")
  else "".
End host.

(** The whole load, the files as [h1] when the profile is looked for and as
    [h2] when they are merged. *)
Definition LoadProfileWith `{Unicode} (h1 h2 : Host) (startDir explicitPath flagProfile : string) (ov : Overrides)
    : result load_error Config :=
  name ← discoverProfile h1 startDir explicitPath flagProfile;
  cfg ← load_named h2 startDir explicitPath name ov;
  ValidateProfile name cfg;;
  Ok cfg.
Definition LoadProfile `{Unicode} (h1 h2 : Host) (startDir explicitPath flagProfile : string) : result load_error Config :=
  LoadProfileWith h1 h2 startDir explicitPath flagProfile no_overrides.
Definition Load `{Unicode} (h1 h2 : Host) (startDir explicitPath : string) : result load_error Config :=
  LoadProfile h1 h2 startDir explicitPath "".
