(* ===== verification/ConfigSafe.v ===== *)
(** * What the layers may do to a run

    The search for a project's file stays in the project; the file only ever
    tightens; and a run that asks for prod gets it whole. *)
From S2P Require Import Prelude GoSort GoStrings GoPath PolicyEnv ServiceSpec Config ConfigTrust ConfigLoad.

(** ** Where a project's file is looked for *)
Section search.
Context (h : Host).

Definition holds_file (d : list string) : Prop := h_stat h (path_of (projectFileName :: d)) = StatFile.
Definition holds_git (d : list string) : Prop := h_entry h (path_of (".git"%string :: d)) = true.
(** [d] is at or above [e]. *)
Definition above (d e : list string) : Prop := d `suffix_of` e.

(** The nearest directory at or above [e] with [P]. *)
Definition nearest (P : list string → Prop) (e d : list string) : Prop :=
  above d e ∧ P d ∧ ∀ d', above d' e → above d d' → P d' → d' = d.

Lemma above_tail d x e : above d (x :: e) ↔ d = x :: e ∨ above d e.
Proof.
  unfold above. split; [|intros [->|?]; [done|by apply suffix_cons_r]].
  intros [[|y k] Hk]; [by left|]. right. injection Hk as _ ->. by exists k.
Qed.

Lemma above_antisym d e : above d e → above e d → d = e.
Proof.
  intros [k Hk] [k' Hk']. subst d. apply (f_equal length) in Hk as Hl. rewrite !length_app in Hl.
  destruct k'; [done|cbn in Hl; lia].
Qed.

Lemma above_nil e : above [] e.
Proof. apply suffix_nil. Qed.
Lemma nil_above d : above d [] → d = [].
Proof. intros Hd. by apply above_antisym; [|apply above_nil]. Qed.

Lemma nearest_here (P : list string → Prop) e : P e → nearest P e e.
Proof. intros HP. split; [done|]. split; [done|]. intros. by apply above_antisym. Qed.

Lemma nearest_up (P : list string → Prop) x e d : ¬ P (x :: e) → nearest P (x :: e) d ↔ nearest P e d.
Proof.
  intros Hx. unfold nearest. setoid_rewrite above_tail. split.
  - intros ([->|Ha] & HP & Hn); [done|]. split; [done|]. split; [done|]. intros d' Hd'. apply Hn. by right.
  - intros (Ha & HP & Hn). split; [by right|]. split; [done|]. intros d' [->|Hd']; [done|]. by apply Hn.
Qed.

Lemma repoRootOf_some e d : repoRootOf h e = Some d ↔ nearest holds_git e d.
Proof.
  assert (∀ e', holds_git e' → Some e' = Some d ↔ nearest holds_git e' d) as Hhere.
  { intros e' He. split; [intros [= <-]; by apply nearest_here|]. intros (Ha & Hd & Hn). f_equal. by apply Hn. }
  induction e as [|x e IH]; cbn [repoRootOf].
  - destruct (h_entry h _) eqn:E; [by apply Hhere|]. split; [done|].
    intros (Ha & Hd & _). apply nil_above in Ha as ->. unfold holds_git in Hd. congruence.
  - destruct (h_entry h _) eqn:E; [by apply Hhere|]. rewrite IH. symmetry. apply nearest_up.
    unfold holds_git. congruence.
Qed.

Lemma repoRootOf_none e d : repoRootOf h e = None → above d e → ¬ holds_git d.
Proof.
  induction e as [|x e IH]; cbn [repoRootOf]; destruct (h_entry h _) eqn:E; try done; intros He Ha.
  - apply nil_above in Ha as ->. unfold holds_git. congruence.
  - apply above_tail in Ha as [->|Ha]; [unfold holds_git; congruence|by apply IH].
Qed.

Lemma withinDir_above root d : withinDir root d = true → above root d.
Proof.
  unfold withinDir. rewrite orb_true_iff, andb_true_iff, !bool_decide_eq_true. intros [->|[_ ?]]; [|done].
  by exists [].
Qed.

Lemma boundary_above d : above (projectSearchBoundary h d) d.
Proof.
  unfold projectSearchBoundary. destruct (repoRootOf h d) as [r|] eqn:E.
  { by apply repoRootOf_some in E as [? _]. }
  destruct (h_home h ≫= Abs (h_cwd h)) as [home|]; [|by exists []].
  destruct (withinDir home d) eqn:Ew; [by apply withinDir_above|by exists []].
Qed.

Lemma search_up_some stopAt d c :
  above stopAt d →
  search_up h stopAt d = Some c ↔ ∃ d', c = projectFileName :: d' ∧ above stopAt d' ∧ nearest holds_file d d'.
Proof.
  assert (∀ e, above stopAt e → holds_file e → Some (projectFileName :: e) = Some c ↔
    ∃ d', c = projectFileName :: d' ∧ above stopAt d' ∧ nearest holds_file e d') as Hhere.
  { intros e Hs He. split; [intros [= <-]; exists e; eauto using nearest_here|].
    intros (d' & -> & _ & Ha & Hd & Hn). do 2 f_equal. by apply Hn. }
  assert (∀ e, above stopAt e → is_file (h_stat h (path_of (projectFileName :: e))) = false → ¬ holds_file e) as Hnot.
  { intros e _ He Hf. unfold holds_file in Hf. by rewrite Hf in He. }
  induction d as [|x d IH]; cbn [search_up]; intros Hs;
    destruct (is_file _) eqn:E; try (apply Hhere; [done|]; unfold holds_file; by destruct (h_stat h _)).
  - case_bool_decide; (split; [done|]); intros (d' & -> & _ & Ha & Hd & _); apply nil_above in Ha as ->; by apply Hnot in E.
  - apply Hnot in E; [|done]. case_bool_decide as Hx.
    + split; [done|]. intros (d' & -> & Hb & Hn). subst stopAt. apply nearest_up in Hn; [|done].
      destruct Hn as (Ha & _). exfalso. destruct Hb as [k Hk]. destruct Ha as [k' Hk'].
      apply (f_equal length) in Hk. apply (f_equal length) in Hk'. rewrite !length_app in *. cbn in *. lia.
    + apply above_tail in Hs as [|Hs]; [congruence|]. rewrite IH by done.
      by setoid_rewrite (nearest_up holds_file x d _ E).
Qed.
End search.

(** C30. The project's file is the nearest one to the starting directory, at or
    below where the search must stop: the root of the repository the directory
    is in; without one the home directory, where it is inside that; otherwise
    the directory itself. *)
Theorem project_config_is_in_bounds h dir c :
  findProjectConfig h dir = Some c ↔
  ∃ d d' stop, Abs (h_cwd h) dir = Some d ∧ c = projectFileName :: d' ∧ nearest (holds_file h) d d' ∧ above stop d' ∧
    (nearest (holds_git h) d stop ∨
     (∀ e, above e d → ¬ holds_git h e) ∧
     stop = match h_home h ≫= Abs (h_cwd h) with Some home => if withinDir home d then home else d | None => d end).
Proof.
  unfold findProjectConfig. destruct (Abs (h_cwd h) dir) as [d|] eqn:Ed; cbn; [|naive_solver].
  rewrite search_up_some by apply boundary_above. unfold projectSearchBoundary.
  destruct (repoRootOf h d) as [r|] eqn:Er.
  - pose proof (proj1 (repoRootOf_some _ _ _) Er) as Hr. split.
    + intros (d' & -> & Hs & Hn). exists d, d', r. eauto 10.
    + intros (d0 & d' & stop & [= <-] & -> & Hn & Hs & [Hg|[Hno _]]).
      * apply repoRootOf_some in Hg. rewrite Er in Hg. injection Hg as <-. eauto.
      * exfalso. destruct Hr as (? & ? & _). by eapply Hno.
  - assert (∀ e, above e d → ¬ holds_git h e) as Hno by (intros e; by apply repoRootOf_none). split.
    + intros (d' & -> & Hs & Hn). exists d, d'. eexists. split; [done|]. split; [done|]. split; [done|].
      split; [exact Hs|]. right. split; [exact Hno|done].
    + intros (d0 & d' & stop & [= <-] & -> & Hn & Hs & [(? & ? & _)|[_ ->]]); [by edestruct Hno|]. eauto.
Qed.

(** ** What a project's file changes *)

(** [c] is no looser than [c0] in what either direction of a key decides. *)
Record tighter `{Unicode} (c c0 : Config) : Prop := {
  ti_Mode : networkStrength (nw_Mode (cf_Network c0)) ≤ networkStrength (nw_Mode (cf_Network c));
  ti_Unset : nw_Mode (cf_Network c) = ""%string → nw_Mode (cf_Network c0) = ""%string;
  ti_Baseline : BaselineEnabled (cf_Network c) = true → BaselineEnabled (cf_Network c0) = true;
  ti_PersistAuth : PersistAuthEnabled c = true → PersistAuthEnabled c0 = true;
  ti_Sync : SyncEnabled c = true → SyncEnabled c0 = true;
  ti_Egress : ∀ l l0, EgressDomains (cf_Network c) = Some l → EgressDomains (cf_Network c0) = Some l0 → l ⊆ l0
}.

(** What neither a project's file nor the profile it may demand decides. *)
Record same_reach (c c0 : Config) : Prop := {
  sr_Image : cf_Image c = cf_Image c0;
  sr_Workdir : cf_Workdir c = cf_Workdir c0;
  sr_User : cf_User c = cf_User c0;
  sr_Home : cf_Home c = cf_Home c0;
  sr_Mounts : cf_Mounts c = cf_Mounts c0;
  sr_Env : cf_Env c = cf_Env c0;
  sr_EnvAllow : cf_EnvAllow c = cf_EnvAllow c0;
  sr_Allow : nw_Allow (cf_Network c) = nw_Allow (cf_Network c0);
  sr_NoNewPriv : se_NoNewPrivileges (cf_Security c) = se_NoNewPrivileges (cf_Security c0);
  sr_CapDrop : se_CapDrop (cf_Security c) = se_CapDrop (cf_Security c0);
  sr_CapAdd : se_CapAdd (cf_Security c) = se_CapAdd (cf_Security c0);
  sr_Paths : ca_Paths (cf_Cache c) = ca_Paths (cf_Cache c0);
  sr_Snapshot : cf_Snapshot c = cf_Snapshot c0;
  sr_Secrets : cf_Secrets c = cf_Secrets c0;
  sr_Routing : cf_Routing c = cf_Routing c0;
  sr_Providers : cf_Providers c = cf_Providers c0;
  sr_Mirror : cf_Mirror c = cf_Mirror c0
}.

(** [c0] with the six settings a project's file may change. *)
Definition retuned (c0 : Config) (hostname mode : string) (baseline enabled persist sync : option bool) : Config := {|
  cf_Image := cf_Image c0; cf_Workdir := cf_Workdir c0; cf_User := cf_User c0; cf_Home := cf_Home c0; cf_Hostname := hostname;
  cf_Mounts := cf_Mounts c0; cf_Env := cf_Env c0; cf_EnvAllow := cf_EnvAllow c0;
  cf_Network := {| nw_Mode := mode; nw_Allow := nw_Allow (cf_Network c0); nw_Baseline := baseline |};
  cf_Ports := cf_Ports c0; cf_Security := cf_Security c0;
  cf_Cache := {| ca_Enabled := enabled; ca_Paths := ca_Paths (cf_Cache c0) |};
  cf_Snapshot := cf_Snapshot c0; cf_Secrets := cf_Secrets c0; cf_Routing := cf_Routing c0; cf_Providers := cf_Providers c0;
  cf_Mirror := cf_Mirror c0; cf_Profile := cf_Profile c0; cf_PersistAuth := persist; cf_Sync := sync |}.

(** The order without the lists of hosts, which follow. *)
Definition tight (c c0 : Config) : Prop :=
  (networkStrength (nw_Mode (cf_Network c0)) ≤ networkStrength (nw_Mode (cf_Network c)) ∧
   (nw_Mode (cf_Network c) = ""%string → nw_Mode (cf_Network c0) = ""%string)) ∧
  (BaselineEnabled (cf_Network c) = true → BaselineEnabled (cf_Network c0) = true) ∧
  (PersistAuthEnabled c = true → PersistAuthEnabled c0 = true) ∧
  (SyncEnabled c = true → SyncEnabled c0 = true).

Section tight.
Context `{Unicode}.

Lemma egress_mono (n n0 : NetworkSpec) l l0 :
  nw_Allow n = nw_Allow n0 → (BaselineEnabled n = true → BaselineEnabled n0 = true) →
  EgressDomains n = Some l → EgressDomains n0 = Some l0 → l ⊆ l0.
Proof.
  unfold EgressDomains. intros Ha Hb. destruct (String.eqb _ _); [|done]. destruct (String.eqb _ _); [|done].
  intros [= <-] [= <-]. apply DedupeDomains_mono. rewrite Ha.
  destruct (BaselineEnabled n); [by rewrite Hb|]. destruct (BaselineEnabled n0); [|done]. intros d Hd. apply (elem_of_app BaselineEgress). by right.
Qed.

Lemma tight_tighter c c0 : tight c c0 → nw_Allow (cf_Network c) = nw_Allow (cf_Network c0) → tighter c c0.
Proof. intros ([? ?] & ? & ? & ?) ?. split; eauto using egress_mono. Qed.

Lemma tight_refl c : tight c c.
Proof. unfold tight. split_and!; [lia|done..]. Qed.
Lemma tight_trans c1 c2 c3 : tight c1 c2 → tight c2 c3 → tight c1 c3.
Proof. intros ([? ?] & ? & ? & ?) ([? ?] & ? & ? & ?). split_and!; [lia|auto..]. Qed.
Lemma same_reach_refl c : same_reach c c.
Proof. done. Qed.
Lemma same_reach_trans c1 c2 c3 : same_reach c1 c2 → same_reach c2 c3 → same_reach c1 c3.
Proof. intros [] []. split; congruence. Qed.

Lemma nearer_enabled (src dst : option bool) d :
  (src = Some true → default d dst = true) → default d (nearer_opt src dst) = true → default d dst = true.
Proof. destruct src as [[]|]; cbn; auto; done. Qed.

Lemma nearer_mode src dst :
  src = ""%string ∨ networkStrength dst ≤ networkStrength src → networkStrength dst ≤ networkStrength (nearer_str src dst).
Proof. unfold nearer_str. destruct (String.eqb_spec src ""); [lia|]. by intros [|]. Qed.

Lemma append_nothing {A} (dst src : option (list A)) : elems src = [] → append_slice dst src = dst.
Proof. unfold append_slice. intros ->. destruct dst; cbn; [by rewrite app_nil_r|done]. Qed.

Lemma merge_unrestricted h f dst base :
  unrestricted f dst →
  mergeInto h dst f base = retuned dst (nearer_str (cf_Hostname f) (cf_Hostname dst))
    (nearer_str (nw_Mode (cf_Network f)) (nw_Mode (cf_Network dst))) (nearer_opt (nw_Baseline (cf_Network f)) (nw_Baseline (cf_Network dst)))
    (nearer_opt (ca_Enabled (cf_Cache f)) (ca_Enabled (cf_Cache dst))) (nearer_opt (cf_PersistAuth f) (cf_PersistAuth dst))
    (nearer_opt (cf_Sync f) (cf_Sync dst)).
Proof.
  intros []. unfold mergeInto, retuned.
  rewrite un_Image, un_Workdir, un_User, un_Home, un_Providers, un_Routing, un_Mirror, un_Mounts, un_Secrets, un_Env,
    un_EnvAllow, un_Paths, un_Security, un_Allow, un_Ports, un_Snapshot, !append_nothing by done.
  cbn. rewrite (left_id_L ∅ (∪)). by destruct (cf_Security dst), (cf_Snapshot dst).
Qed.

Lemma merge_unrestricted_tight h f dst base : unrestricted f dst → tight (mergeInto h dst f base) dst.
Proof.
  intros Hu. rewrite (merge_unrestricted _ _ _ _ Hu). destruct Hu. unfold tight, retuned. cbn. split_and!.
  - by apply nearer_mode.
  - unfold nearer_str. by destruct (String.eqb_spec (nw_Mode (cf_Network f)) "").
  - by apply nearer_enabled.
  - by apply nearer_enabled.
  - by apply nearer_enabled.
Qed.

Lemma mergeProjectFile_ok h dst path c :
  mergeProjectFile h dst path = Ok c → c = dst ∨ ∃ f, unrestricted f dst ∧ c = mergeInto h dst f (Dir path).
Proof.
  unfold mergeProjectFile. destruct (readConfigFile h path) as [[f|]|]; cbn; try done; [|intros [= <-]; by left].
  rewrite guard_ok. intros [Hb [= <-]]. apply negb_false_iff, bool_decide_eq_true in Hb. right.
  exists f. split; [by apply restricted_none|done].
Qed.
End tight.


(** ** Through the whole load *)

(** The same host with no project file anywhere. *)
Definition unproject (h : Host) : Host := {|
  h_cwd := h_cwd h; h_home := h_home h; h_xdg := h_xdg h; h_read := h_read h;
  h_stat p := if has_suffix p ("/" +:+ projectFileName) then StatAbsent else h_stat h p;
  h_entry := h_entry h; h_providers := h_providers h |}.

Section loads.
Context `{Unicode}.
Implicit Types (h : Host).

Lemma search_up_unproject h stopAt d : search_up (unproject h) stopAt d = None.
Proof.
  assert (∀ d, h_stat (unproject h) (path_of (projectFileName :: d)) = StatAbsent) as Hs.
  { intros d'. cbn [unproject h_stat]. rewrite (proj2 (has_suffix_true _ _)); [done|].
    unfold path_of. rewrite reverse_cons. unfold join.
    destruct (reverse d') as [|x l] eqn:E; [by exists ""%string|].
    exists ("/" +:+ of_chars (join_chars "/" (chars <$> (x :: l)))).
    rewrite fmap_app. apply (inj chars). rewrite !chars_app, !chars_of_chars, <- app_assoc. clear E. f_equal. revert x.
    induction l as [|y l IH]; intros x; [done|].
    change (chars x ++ ("/"%char : ascii) :: join_chars "/" ((chars <$> (y :: l)) ++ (chars <$> [projectFileName])) =
      (chars x ++ ("/"%char : ascii) :: join_chars "/" (chars <$> (y :: l))) ++ (chars "/" ++ chars projectFileName)).
    rewrite IH, <- app_assoc. done. }
  induction d as [|x d IH]; cbn [search_up]; rewrite Hs; cbn [is_file]; case_bool_decide; done.
Qed.

Lemma findProjectConfig_unproject h dir : findProjectConfig (unproject h) dir = None.
Proof. unfold findProjectConfig. destruct (Abs _ dir); cbn; [apply search_up_unproject|done]. Qed.

Lemma user_layers_unproject h name : user_layers (unproject h) name = user_layers h name.
Proof. done. Qed.

(** *** The base of prod is the tighter, and layers keep that *)
Definition below (c c0 : Config) : Prop := same_reach c c0 ∧ tight c c0.

Lemma below_refl c : below c c.
Proof. split; [done|apply tight_refl]. Qed.
Lemma below_trans c1 c2 c3 : below c1 c2 → below c2 c3 → below c1 c3.
Proof. intros [] []. split; eauto using same_reach_trans, tight_trans. Qed.

Lemma prod_below_dev : below (profileBase ProfileProd) (profileBase ProfileDev).
Proof. by split; [split|split_and!]. Qed.

Lemma below_merge h c c0 f base : below c c0 → below (mergeInto h c f base) (mergeInto h c0 f base).
Proof.
  intros [[] ([Hm Hun] & Hb & Hp & Hs)].
  split; [split; unfold mergeInto, mergeSecurity; cbn [cf_Image cf_Workdir cf_User cf_Home cf_Mounts cf_Env cf_EnvAllow cf_Network
    nw_Allow cf_Security se_NoNewPrivileges se_CapDrop se_CapAdd cf_Cache ca_Paths cf_Snapshot cf_Secrets cf_Routing cf_Providers cf_Mirror];
    rewrite ?sr_Image0, ?sr_Workdir0, ?sr_User0, ?sr_Home0, ?sr_Mounts0, ?sr_Env0, ?sr_EnvAllow0, ?sr_Allow0, ?sr_NoNewPriv0,
      ?sr_CapDrop0, ?sr_CapAdd0, ?sr_Paths0, ?sr_Snapshot0, ?sr_Secrets0, ?sr_Routing0, ?sr_Providers0, ?sr_Mirror0; done|]. unfold tight. cbn. split_and!.
  - unfold nearer_str. destruct (String.eqb _ _); [done|lia].
  - unfold nearer_str. by destruct (String.eqb_spec (nw_Mode (cf_Network f)) "").
  - by destruct (nw_Baseline (cf_Network f)).
  - unfold PersistAuthEnabled. cbn. by destruct (cf_PersistAuth f).
  - unfold SyncEnabled. cbn. by destruct (cf_Sync f).
Qed.

Lemma below_set c c0 p p' : below c c0 → below (set_profile p c) (set_profile p' c0).
Proof. intros [[] Ht]. by split; [split|]. Qed.
Lemma below_providers c c0 m : below c c0 → below (set_providers (m ∪ cf_Providers c) c) (set_providers (m ∪ cf_Providers c0) c0).
Proof. intros [[] Ht]. by split; [split; cbn; congruence|]. Qed.

Lemma merge_project_below h dst path c : mergeProjectFile h dst path = Ok c → below c dst.
Proof.
  intros [->|(f & Hu & ->)]%mergeProjectFile_ok; [apply below_refl|]. split; [|by apply merge_unrestricted_tight].
  by rewrite (merge_unrestricted _ _ _ _ Hu).
Qed.

Lemma strength_le m : networkStrength m ≤ networkStrength "none".
Proof. unfold networkStrength at 1. by destruct (String.eqb m "none"), (String.eqb m "allowlist" || String.eqb m ""). Qed.
Lemma strength_none m : networkStrength "none" ≤ networkStrength m → m = "none"%string.
Proof. unfold networkStrength at 2. destruct (String.eqb_spec m "none"); [done|]. by destruct (String.eqb m "allowlist" || String.eqb m ""). Qed.

Lemma below_overrides ov c c0 :
  below c c0 → below (set_network (apply_overrides ov (cf_Network c)) c) (set_network (apply_overrides ov (cf_Network c0)) c0).
Proof.
  intros [[] ([Hm Hun] & Hb & Hp & Hs)].
  assert (∀ n, nw_Allow (apply_overrides ov n) = nw_Allow n) as Ha.
  { intros n. unfold apply_overrides. by destruct (ov_NoBaseline ov), (_ && _), (negb _). }
  assert (∀ n, BaselineEnabled (apply_overrides ov n) = negb (ov_NoBaseline ov) && BaselineEnabled n) as Hbase.
  { intros n. unfold apply_overrides. by destruct (ov_NoBaseline ov), (_ && _), (negb _). }
  assert (∀ n, nw_Mode (apply_overrides ov n) = if negb (String.eqb (ov_NetworkMode ov) "") then ov_NetworkMode ov else
    if negb (bool_decide (ov_Allow ov = [])) && negb (String.eqb (nw_Mode n) "none") then "allowlist"%string else nw_Mode n) as Hmode.
  { intros n. unfold apply_overrides. by destruct (ov_NoBaseline ov), (negb (String.eqb (ov_NetworkMode ov) "")), (_ && _). }
  split; [split; cbn; rewrite ?Ha; done|]. unfold tight. cbn [set_network cf_Network]. rewrite !Hbase, !Hmode.
  split_and!; [| |by destruct (ov_NoBaseline ov)|done|done].
  - destruct (negb (String.eqb _ "")); [lia|]. destruct (negb (bool_decide _)); cbn [andb]; [|lia].
    destruct (String.eqb_spec (nw_Mode (cf_Network c)) "none") as [->|Hn]; cbn [negb].
    { destruct (negb _); apply strength_le. }
    destruct (String.eqb_spec (nw_Mode (cf_Network c0)) "none") as [E|]; [|cbn [negb]; lia].
    rewrite E in Hm. apply strength_none in Hm. congruence.
  - destruct (negb (String.eqb _ "")); [done|]. destruct (negb (bool_decide _)); cbn [andb]; [|done].
    destruct (String.eqb_spec (nw_Mode (cf_Network c)) "none") as [->|Hn]; cbn [negb]; [|done]. done.
Qed.

Lemma user_layers_below h name name0 c c0 :
  below (profileBase name) (profileBase name0) → user_layers h name = Ok c → user_layers h name0 = Ok c0 → below c c0.
Proof.
  intros Hb. apply (below_set _ _ name name0) in Hb. apply (below_providers _ _ (loadProviderOverrides h)) in Hb.
  unfold user_layers. destruct (String.eqb _ _); [by intros [= <-] [= <-]|]. unfold mergeFile.
  destruct (readConfigFile h _) as [[f|]|]; cbn; [|by intros [= <-] [= <-]|done].
  intros [= <-] [= <-]. by apply below_merge.
Qed.

Lemma ResolveProfile_raised flag user project name name0 :
  ResolveProfile flag user project = Ok name → ResolveProfile flag user "" = Ok name0 →
  name = name0 ∨ name = ProfileProd ∧ name0 = ProfileDev.
Proof.
  unfold ResolveProfile. destruct (negb (String.eqb flag "")).
  { destruct (reject_if _ _); cbn; [|done]. intros [= <-] [= <-]. by left. }
  rewrite !guard_ok. intros [Hk [= <-]] [_ [= <-]].
  destruct (KnownProfile project) eqn:Ep; cbn; [|by left].
  unfold KnownProfile in Ep. apply orb_true_iff in Ep as [->%String.eqb_eq| ->%String.eqb_eq].
  - left. destruct (String.eqb user ""); [done|]. destruct (KnownProfile user) eqn:Eu; [|done].
    unfold KnownProfile in Eu. by apply orb_true_iff in Eu as [->%String.eqb_eq| ->%String.eqb_eq].
  - destruct (String.eqb user ""); [by right|]. destruct (KnownProfile user) eqn:Eu; [|done].
    unfold KnownProfile in Eu. apply orb_true_iff in Eu as [->%String.eqb_eq| ->%String.eqb_eq]; [by right|by left].
Qed.

Lemma load_parts h1 h2 dir flag ov c :
  LoadProfileWith h1 h2 dir "" flag ov = Ok c →
  ∃ name c1 c2, discoverProfile h1 dir "" flag = Ok name ∧ user_layers h2 name = Ok c1 ∧ nearest_layer h2 dir "" c1 = Ok c2 ∧
    c = set_network (apply_overrides ov (cf_Network c2)) (set_profile name c2) ∧ ValidateProfile name c = Ok ().
Proof.
  unfold LoadProfileWith, load_named. intros (name & Hn & (c' & Hl & ([] & Hv & [= <-])%bind_ok)%bind_ok)%bind_ok.
  apply bind_ok in Hl as (c1 & Hu & (c2 & Hp & [= <-])%bind_ok). by exists name, c1, c2.
Qed.
End loads.

(** A load that finds a project's file comes to a configuration that
    reaches no more than the same load would without one, whatever the files'
    layers and the flags: the same image, mounts, environment, secrets, hosts
    and login, each two-way setting no looser, and the profile the same or
    prod. *)
Lemma project_never_widens `{Unicode} h1 h2 dir flag ov c c0 :
  LoadProfileWith h1 h2 dir "" flag ov = Ok c →
  LoadProfileWith (unproject h1) (unproject h2) dir "" flag ov = Ok c0 →
  same_reach c c0 ∧ tighter c c0 ∧ (cf_Profile c = cf_Profile c0 ∨ cf_Profile c = ProfileProd).
Proof.
  intros (name & c1 & c2 & Hn & Hu & Hp & -> & _)%load_parts (name0 & c1' & c2' & Hn' & Hu' & Hp' & -> & _)%load_parts.
  unfold discoverProfile in Hn, Hn'. unfold nearest_layer in Hp, Hp'. cbn [negb String.eqb] in *.
  rewrite findProjectConfig_unproject in Hn', Hp'. injection Hp' as <-.
  destruct (ResolveProfile_raised _ _ _ _ _ Hn Hn') as [Hname|[-> ->]].
  - subst name0. rewrite user_layers_unproject, Hu in Hu'. injection Hu' as <-.
    assert (below c2 c1) as Hb.
    { destruct (findProjectConfig h2 dir); [by eapply merge_project_below|]. injection Hp as <-. apply below_refl. }
    apply (below_set _ _ name name), (below_overrides ov) in Hb as [Hr Ht].
    split; [done|]. split; [apply tight_tighter; [done|apply Hr]|by left].
  - rewrite user_layers_unproject in Hu'. pose proof (user_layers_below _ _ _ _ _ prod_below_dev Hu Hu') as Hb.
    assert (below c2 c1') as Hb2.
    { destruct (findProjectConfig h2 dir); [|by injection Hp as <-]. eapply below_trans; [by eapply merge_project_below|done]. }
    apply (below_set _ _ ProfileProd ProfileDev), (below_overrides ov) in Hb2 as [Hr Ht].
    split; [done|]. split; [apply tight_tighter; [done|apply Hr]|by right].
Qed.

(** ** Prod *)
Section prod.
Context `{Unicode}.
Implicit Types (h : Host).

(** Logins and history are decided one way or the other. *)
Definition login_decided (c : Config) : Prop := is_Some (cf_PersistAuth c) ∧ is_Some (cf_Sync c).

Lemma decided_nearer {A} (src dst : option A) : is_Some dst → is_Some (nearer_opt src dst).
Proof. by destruct src. Qed.

Lemma mergeFile_decided h dst path c : login_decided dst → mergeFile h dst path = Ok c → login_decided c.
Proof.
  intros [Hp Hs]. unfold mergeFile. destruct (readConfigFile h path) as [[f|]|]; cbn; [| |done]; intros [= <-]; [|done].
  split; by apply decided_nearer.
Qed.

Lemma mergeProjectFile_decided h dst path c : login_decided dst → mergeProjectFile h dst path = Ok c → login_decided c.
Proof. intros [Hp Hs] [->|(f & _ & ->)]%mergeProjectFile_ok; [done|]. split; by apply decided_nearer. Qed.

Lemma load_named_decided h dir explicit ov c : load_named h dir explicit ProfileProd ov = Ok c → login_decided c ∧ cf_Profile c = ProfileProd.
Proof.
  unfold load_named. intros (c1 & Hu & (c2 & Hn & [= <-])%bind_ok)%bind_ok. split; [|done].
  assert (login_decided c1) as H1.
  { unfold user_layers in Hu. destruct (String.eqb _ _); [injection Hu as <-; by split|].
    eapply mergeFile_decided; [|exact Hu]. by split. }
  assert (login_decided c2) as H2; [|exact H2]. unfold nearest_layer in Hn.
  destruct (negb (String.eqb explicit "")).
  - destruct (h_stat h explicit); try done; by eapply mergeFile_decided.
  - destruct (findProjectConfig h dir); [by eapply mergeProjectFile_decided|by injection Hn as <-].
Qed.

Lemma prod_breaks_none c :
  prod_breaks c = [] →
  nw_Mode (cf_Network c) = "allowlist"%string ∧ BaselineEnabled (cf_Network c) = false ∧
  default false (cf_PersistAuth c) = false ∧ default false (cf_Sync c) = false ∧
  se_Seccomp (cf_Security c) = SeccompRequired ∧ IsRootUser (cf_User c) = false ∧ elems (se_CapAdd (cf_Security c)) = [] ∧
  se_Memory (cf_Security c) ≠ ""%string ∧ se_CPUs (cf_Security c) ≠ ""%string ∧ 0 < Pids (cf_Security c) ∧ elems (cf_Ports c) = [].
Proof.
  unfold prod_breaks. intros Hb. rewrite <- (app_nil_r (if bool_decide (elems (cf_Ports c) = []) then _ else _)) in Hb.
  rewrite !unless_nil, !negb_true_iff, !bool_decide_eq_true, !String.eqb_eq, !String.eqb_neq, Z.ltb_lt in Hb.
  destruct_and! Hb. by split_and!.
Qed.

(** Who may ask for prod, and does: the flag, or without one the user's file,
    a file named explicitly, or the project's. *)
Definition demands_prod h (dir explicit flag : string) : Prop :=
  flag = ProfileProd ∨
  flag = ""%string ∧
    if negb (String.eqb explicit "") then
      declared_profile h explicit = ProfileProd ∨
      declared_profile h explicit = ""%string ∧ userConfigPath h ≠ ""%string ∧ declared_profile h (userConfigPath h) = ProfileProd
    else
      (userConfigPath h ≠ ""%string ∧ declared_profile h (userConfigPath h) = ProfileProd) ∨
      ∃ p, findProjectConfig h dir = Some p ∧ declared_profile h (path_of p) = ProfileProd.

Lemma resolve_prod_project flag user p :
  flag = ""%string → ResolveProfile flag user ProfileProd = Ok p → p = ProfileProd.
Proof.
  intros ->. unfold ResolveProfile. cbn [negb String.eqb]. rewrite guard_ok. intros [Hk [= <-]].
  destruct (String.eqb user "") eqn:E; [done|]. cbn [negb andb] in Hk. apply negb_false_iff in Hk.
  unfold KnownProfile in Hk. by apply orb_true_iff in Hk as [->%String.eqb_eq| ->%String.eqb_eq].
Qed.

Lemma resolve_prod_user flag project p :
  flag = ""%string → ResolveProfile flag ProfileProd project = Ok p → p = ProfileProd.
Proof.
  intros ->. unfold ResolveProfile. cbn [negb String.eqb reject_if mbind result_bind andb KnownProfile orb]. intros [= <-].
  destruct (KnownProfile project) eqn:Ek; [|done].
  unfold KnownProfile in Ek. by apply orb_true_iff in Ek as [->%String.eqb_eq| ->%String.eqb_eq].
Qed.

Lemma demanded h dir explicit flag name :
  demands_prod h dir explicit flag → discoverProfile h dir explicit flag = Ok name → name = ProfileProd.
Proof.
  unfold discoverProfile. intros [->|[-> Hd]].
  { by destruct (negb (String.eqb explicit "")); intros [= <-]. }
  destruct (negb (String.eqb explicit "")).
  - destruct Hd as [->|(-> & Hu%String.eqb_neq & Hd)]; cbn [String.eqb].
    + by apply resolve_prod_user.
    + rewrite Hu, Hd. by apply resolve_prod_user.
  - destruct Hd as [[Hu%String.eqb_neq Hd]|(p & -> & Hd)].
    + rewrite Hu, Hd. by apply resolve_prod_user.
    + rewrite Hd. by apply resolve_prod_project.
Qed.
End prod.

(** C13. Whoever may ask for prod gets it or an error: a load they asked it of
    comes to the profile prod, and a configuration of that profile has every
    control prod names, whatever the layers above its base say: the allowlist
    is the hosts named and no more, no login and no history, a syscall filter
    required, no root, no capability added, bounded memory, CPUs and
    processes, and no port published. *)
Theorem prod_holds `{Unicode} h1 h2 dir explicit flag ov c :
  LoadProfileWith h1 h2 dir explicit flag ov = Ok c →
  (demands_prod h1 dir explicit flag → cf_Profile c = ProfileProd) ∧
  (cf_Profile c = ProfileProd →
    EgressDomains (cf_Network c) = Some (DedupeDomains (elems (nw_Allow (cf_Network c)))) ∧
    PersistAuthEnabled c = false ∧ SyncEnabled c = false ∧
    se_Seccomp (cf_Security c) = SeccompRequired ∧ IsRootUser (cf_User c) = false ∧ elems (se_CapAdd (cf_Security c)) = [] ∧
    se_Memory (cf_Security c) ≠ ""%string ∧ se_CPUs (cf_Security c) ≠ ""%string ∧ 0 < Pids (cf_Security c) ∧
    elems (cf_Ports c) = []).
Proof.
  unfold LoadProfileWith. intros (name & Hn & (c' & Hl & ([] & Hv & [= <-])%bind_ok)%bind_ok)%bind_ok.
  assert (cf_Profile c' = name) as Hname.
  { unfold load_named in Hl. by apply bind_ok in Hl as (? & _ & (? & _ & [= <-])%bind_ok). }
  rewrite Hname. split; [intros Hd; by eapply demanded|]. intros ->.
  apply load_named_decided in Hl as [[[p Hp] [s Hs]] _].
  unfold ValidateProfile in Hv. cbn [negb ProfileProd String.eqb] in Hv. apply reject_if_ok, negb_false_iff, bool_decide_eq_true in Hv.
  apply prod_breaks_none in Hv as (Hm & Hb & Ha & Hy & Hrest).
  unfold EgressDomains, PersistAuthEnabled, SyncEnabled. rewrite Hm, Hb. rewrite Hp in Ha |- *. rewrite Hs in Hy |- *.
  by split_and!; try apply Hrest.
Qed.
