(* ===== verification/RunConfig.v ===== *)
(** * What a run asks the server for (internal/cli/config.go, timezone.go,
    run.go buildEnv, internal/creds)

    The loaded configuration becomes a create's image, environment and network,
    the flags over it. *)
From S2P Require Import Prelude GoSort GoStrings GoPath Api EgressNames PolicyEnv ServiceSpec Agents Config ConfigTrust ConfigLoad.

(** ** Flags *)
Record runFlags := {
  rf_configPath : string; rf_profile : string; rf_image : string; rf_env : list string;
  rf_network : string; rf_allow : list string; rf_deny : list string; rf_groups : list string;
  rf_noBaseline : bool; rf_noPersistAuth : bool
}.

Inductive run_error :=
| bad_load (e : load_error) | bad_network_flag (mode : string) | reserved_env (name : string)
| bad_secret (name : string) | groups_need_allowlist | empty_list.

Definition overrides (rf : runFlags) : result run_error Overrides :=
  let ov (m : string) := {| ov_NetworkMode := m; ov_Allow := rf_allow rf; ov_NoBaseline := rf_noBaseline rf |} in
  if String.eqb (rf_network rf) "" then Ok (ov "")
  else if String.eqb (rf_network rf) NetworkNone || String.eqb (rf_network rf) NetworkAllowlist then Ok (ov (rf_network rf))
  else if String.eqb (rf_network rf) NetworkOpen then Ok (ov "default")
  else Err (bad_network_flag (rf_network rf)).

(** ** The load, and what is checked of it. [h3] is the host when the keys are
    read again. *)
Definition loadConfig `{Unicode} (h1 h2 h3 : Host) (project configPath profile : string) (ov : Overrides) : result load_error Config :=
  cfg ← LoadProfileWith h1 h2 project configPath profile ov;
  CheckLiveKeys h3 (userConfigPath h3);;
  CheckLiveKeys h3 match findProjectConfig h3 project with Some p => path_of p | None => "" end;;
  CheckLiveKeys h3 configPath;;
  Validate cfg;;
  Ok cfg.

(** ** The user's machine: its environment, files and commands *)
Record Machine := {
  m_env : string → option string;        (** [os.LookupEnv] *)
  m_file : string → option string;       (** [os.ReadFile] *)
  m_command : string → option string;    (** [sh -c], its output *)
  m_link : string → option string        (** [os.Readlink] *)
}.

Section machine.
Context `{Unicode} (m : Machine).

Definition zone_char (c : ascii) : bool :=
  is_alnum c || is_char "/" c || is_char "_" c || is_char "-" c || is_char "+" c || is_char ":" c || is_char "." c.
Fixpoint has_dotdot (l : list ascii) : bool :=
  match l with
  | a :: ((b :: _) as t) => (is_char "." a && is_char "." b) || has_dotdot t
  | _ => false
  end.
Definition validZoneName (s : string) : bool :=
  negb (String.eqb s "" || (64 <? strlen s) || has_prefix s "/") && forallb zone_char (chars s) && negb (has_dotdot (chars s)).

(** [strings.Cut(dest, "zoneinfo/")]: what follows the first. *)
Fixpoint after_chars (p l : list ascii) : option (list ascii) :=
  if bool_decide (p `prefix_of` l) then Some (drop (length p) l)
  else match l with [] => None | _ :: t => after_chars p t end.
Definition zone_of_link (dest : string) : option string := of_chars <$> after_chars (chars "zoneinfo/") (chars dest).

Definition valid_zone (o : option string) : option string := s ← o; if validZoneName s then Some s else None.
Definition resolveHostTimezone : string :=
  match valid_zone (m_env m "TZ"), valid_zone (m_link m "/etc/localtime" ≫= zone_of_link),
        valid_zone (trim_space <$> m_file m "/etc/timezone") with
  | Some tz, _, _ | None, Some tz, _ | None, None, Some tz => tz
  | None, None, None => ""
  end.

(** *** creds.Resolve *)
Definition resolveOne (name : string) (s : SecretSpec) : result run_error string :=
  if negb (String.eqb (ss_File s) "") then of_option (trim_space <$> m_file m (ss_File s)) (bad_secret name)
  else if negb (String.eqb (ss_Command s) "") then of_option (trim_space <$> m_command m (ss_Command s)) (bad_secret name)
  else if negb (String.eqb (ss_Env s) "") then of_option (m_env m (ss_Env s)) (bad_secret name)
  else Err (bad_secret name).

Fixpoint resolve_all (secrets : gmap string SecretSpec) (names : list string) : result run_error (list (string * string)) :=
  match names with
  | [] => Ok []
  | n :: rest =>
      v ← resolveOne n (default {| ss_File := ""; ss_Command := ""; ss_Env := "" |} (secrets !! n));
      vs ← resolve_all secrets rest;
      Ok ((n, v) :: vs)
  end.
Definition creds_Resolve (secrets : gmap string SecretSpec) : result run_error (list (string * string)) :=
  resolve_all secrets (sort_stable str_ltb (map_to_list secrets).*1).

(** ** The environment *)

(** [consts]: the agent's constant settings; [saved]: the keys saved for it. *)
Definition agent_env (consts allow : list string) (saved : gmap string string) : gmap string string :=
  let c := foldl (λ e kv, match cut kv "=" with Some (k, v) => <[k := v]> e | None => e end) ∅ consts in
  foldl (λ e name, match m_env m name, saved !! name with
                   | Some v, _ | None, Some v => <[name := v]> e
                   | None, None => e
                   end) c allow.

Fixpoint flag_env (flags : list string) (env : gmap string string) : result run_error (gmap string string) :=
  match flags with
  | [] => Ok env
  | e :: rest =>
      match (match cut e "=" with Some kv => Some kv | None => v ← m_env m e; Some (e, v) end) with
      | None => flag_env rest env
      | Some (k, v) => reject_if (IsReservedEnv k) (reserved_env k);; flag_env rest (<[k := v]> env)
      end
  end.
Definition buildEnv (flags : list string) (agent : option (Descriptor * list string)) (saved : gmap string string)
    : result run_error (gmap string string) :=
  flag_env flags match agent with Some (d, consts) => agent_env consts (ag_EnvAllow d) saved | None => ∅ end.

(** [set]: only what nothing above has set. *)
Definition set_env (k v : string) (env : gmap string string) : gmap string string :=
  match env !! k with Some _ => env | None => <[k := v]> env end.

Definition config_env (cfg : Config) (env : gmap string string) : result run_error (gmap string string) :=
  let env := env ∪ map_entries (cf_Env cfg) in
  let env := if String.eqb resolveHostTimezone "" then env else set_env "TZ" resolveHostTimezone env in
  let env := foldl (λ e name, match m_env m name with Some v => set_env name v e | None => e end) env (elems (cf_EnvAllow cfg)) in
  vals ← creds_Resolve (map_entries (cf_Secrets cfg));
  Ok (foldl (λ e kv, set_env kv.1 kv.2 e) env vals).
End machine.

(** ** The network *)
Definition with_host (host : string) (n : NetworkPolicy) (allow : list string) (deny : list string) (groups : list string) : NetworkPolicy :=
  {| np_Mode := NetworkAllowlist; np_Allow := Some (allow ++ [host]); np_Deny := deny; np_Groups := groups |}.

Definition withAgentAPI (n : option NetworkPolicy) (agent : option Descriptor) (caps : Capabilities) : option NetworkPolicy :=
  let host := match agent with Some d => ag_ProviderHost d | None => ""%string end in
  if String.eqb host "" then n else
  match n with
  | None =>
      let d := nc_Default (caps_Network caps) in
      if negb (String.eqb (np_Mode d) NetworkAllowlist) || bool_decide (host ∈ allow_list d) then None
      else Some (with_host host d (allow_list d) [] [])
  | Some p =>
      if negb (String.eqb (np_Mode p) NetworkAllowlist) || bool_decide (host ∈ allow_list p) then Some p
      else Some (with_host host p (allow_list p) (np_Deny p) (np_Groups p))
  end.

Definition resolveNetwork `{Unicode} (cfg : Config) (allow deny groups : list string) (caps : Capabilities) (agentHost : string)
    : result run_error (option NetworkPolicy) :=
  let mode := nw_Mode (cf_Network cfg) in
  reject_if ((String.eqb mode "none" || String.eqb mode "default") && negb (bool_decide (groups = []))) groups_need_allowlist;;
  if String.eqb mode "none" then
    Ok (Some {| np_Mode := NetworkNone; np_Allow := None; np_Deny := []; np_Groups := [] |})
  else if String.eqb mode "default" then
    Ok (Some {| np_Mode := NetworkOpen; np_Allow := None; np_Deny := deny; np_Groups := [] |})
  else
    let named := DedupeDomains (elems (nw_Allow (cf_Network cfg)) ++ allow) in
    if String.eqb mode "" && bool_decide (named = []) && bool_decide (deny = []) && bool_decide (groups = []) then Ok None
    else
      let d := nc_Default (caps_Network caps) in
      let base := if BaselineEnabled (cf_Network cfg)
                  then if String.eqb (np_Mode d) NetworkAllowlist then allow_list d else BaselineEgress
                  else [] in
      let named := if String.eqb agentHost "" then named else named ++ [agentHost] in
      let domains := DedupeDomains (base ++ named) in
      reject_if (bool_decide (groups = []) && bool_decide (domains = [])) empty_list;;
      Ok (Some {| np_Mode := NetworkAllowlist; np_Allow := Some domains; np_Deny := deny; np_Groups := groups |}).

(** ** applyConfig: the request's image, environment and network, and whether
    logins are left out. [env] is the flags' and the agent's. *)
Record run_request := { rq_Image : string; rq_Env : gmap string string; rq_Network : option NetworkPolicy; rq_noPersistAuth : bool }.

Definition applyConfig `{Unicode} (m : Machine) (h1 h2 h3 : Host) (rf : runFlags) (project : string) (env : gmap string string)
    (caps : Capabilities) (agentHost : string) : result run_error run_request :=
  ov ← overrides rf;
  match loadConfig h1 h2 h3 project (rf_configPath rf) (rf_profile rf) ov with
  | Err e => Err (bad_load e)
  | Ok cfg =>
      env ← config_env m cfg env;
      net ← resolveNetwork cfg (rf_allow rf) (rf_deny rf) (rf_groups rf) caps agentHost;
      Ok {| rq_Image := if String.eqb (rf_image rf) "" && negb (String.eqb (cf_Image cfg) "") && negb (String.eqb (cf_Image cfg) DefaultImage)
                        then cf_Image cfg else rf_image rf;
            rq_Env := env; rq_Network := net;
            rq_noPersistAuth := rf_noPersistAuth rf || negb (PersistAuthEnabled cfg) |}
  end.

Definition guestGitIdentity : gmap string string := {[
  "GIT_AUTHOR_NAME" := "sandbox"; "GIT_AUTHOR_EMAIL" := "sandbox@localhost";
  "GIT_COMMITTER_NAME" := "sandbox"; "GIT_COMMITTER_EMAIL" := "sandbox@localhost" ]}%string.

(** What run makes of it all, up to the create. *)
Definition run_asks `{Unicode} (m : Machine) (h1 h2 h3 : Host) (rf : runFlags) (project : string)
    (agent : option (Descriptor * list string)) (saved : gmap string string) (caps : Capabilities) : result run_error run_request :=
  env ← buildEnv m (rf_env rf) agent saved;
  let d := fst <$> agent in
  q ← applyConfig m h1 h2 h3 rf project env caps (match d with Some d => ag_ProviderHost d | None => "" end);
  Ok {| rq_Image := rq_Image q; rq_Env := rq_Env q ∪ guestGitIdentity; rq_Network := withAgentAPI (rq_Network q) d caps;
        rq_noPersistAuth := rq_noPersistAuth q |}.
