(* ===== verification/RunSafe.v ===== *)
(** * What a project's file may change of a run

    From the file to the request: the run a project's file has a part in
    carries the same environment, image and secrets as the one it would be
    without, and its network permits no name the other does not, on a server
    whose own default is open or an allowlist that denies nothing. *)
From S2P Require Import Prelude GoSort GoStrings GoPath Api EgressNames PolicyEnv ServiceSpec Agents Config ConfigTrust ConfigLoad ConfigSafe RunConfig.

(** ** What a network permits *)
Section run_permits.
Context `{Unicode}.
(** [hosts]: what the gateway's groups stand for. *)
Context (hosts : list string → list string).

Definition run_permits (caps : Capabilities) (n : option NetworkPolicy) (host : string) : bool :=
  let p := default (nc_Default (caps_Network caps)) n in
  if String.eqb (np_Mode p) NetworkNone then false
  else if String.eqb (np_Mode p) NetworkOpen then Allows (NewDenyMatcher (np_Deny p)) host
  else Allows (NewPolicyMatcher (allow_list p ++ hosts (np_Groups p)) (np_Deny p)) host.

(** A server whose default is open or an allowlist, with no name denied. *)
Definition plain_default (caps : Capabilities) : Prop :=
  let d := nc_Default (caps_Network caps) in
  (np_Mode d = NetworkOpen ∨ np_Mode d = NetworkAllowlist) ∧ np_Deny d = [] ∧ np_Groups d = [].

Lemma Allows_mono allow allow' deny host :
  (∀ h, named allow h → named allow' h) →
  Allows (NewPolicyMatcher allow deny) host = true → Allows (NewPolicyMatcher allow' deny) host = true.
Proof.
  intros Hn. rewrite !policy_allows_spec. naive_solver.
Qed.

Lemma Allows_open allow deny host :
  Allows (NewPolicyMatcher allow deny) host = true → Allows (NewDenyMatcher deny) host = true.
Proof. rewrite policy_allows_spec, open_allows_spec. naive_solver. Qed.

Lemma named_subseteq l l' h : l ⊆ l' → named l h → named l' h.
Proof. intros Hl (p & Hp & Hn). exists p. auto. Qed.

(** Trimming twice is trimming once. *)
Context (trim_idem : ∀ s, trim_space (trim_space s) = trim_space s).

Lemma normalizeHost_trim s : normalizeHost (trim_space s) = normalizeHost s.
Proof. unfold normalizeHost. by rewrite trim_idem. Qed.

Lemma names_trim p h : names (trim_space p) h ↔ names p h.
Proof. unfold names. by rewrite normalizeHost_trim. Qed.

Lemma named_dedupe l h : named (DedupeDomains l) h ↔ named l h.
Proof.
  unfold named. setoid_rewrite elem_DedupeDomains. split.
  - intros (d & [_ (p & -> & Hp)%list_elem_of_fmap] & Hn). exists p. split; [done|]. by apply names_trim.
  - intros (p & Hp & Hn). exists (trim_space p). split; [|by apply names_trim]. split; [|by apply list_elem_of_fmap_2].
    apply names_trim in Hn. destruct Hn as [Hn _]. intros E. apply Hn. rewrite E. done.
Qed.

(** *** With the agent's own host *)
Definition agent_hosts (agent : option Descriptor) : list string :=
  match agent with Some d => if String.eqb (ag_ProviderHost d) "" then [] else [ag_ProviderHost d] | None => [] end.
Definition agent_host (agent : option Descriptor) : string :=
  match agent with Some d => ag_ProviderHost d | None => "" end.

Lemma Allows_equiv allow allow' deny host :
  (∀ h, named allow h ↔ named allow' h) →
  Allows (NewPolicyMatcher allow deny) host = Allows (NewPolicyMatcher allow' deny) host.
Proof. intros Hn. apply eq_true_iff_eq. split; apply Allows_mono; intros; by apply Hn. Qed.

Lemma agent_hosts_host agent : agent_hosts agent = if String.eqb (agent_host agent) "" then [] else [agent_host agent].
Proof. by destruct agent. Qed.

Lemma permits_list caps p agent host :
  np_Mode p = NetworkAllowlist →
  run_permits caps (withAgentAPI (Some p) agent caps) host =
  Allows (NewPolicyMatcher ((allow_list p ++ agent_hosts agent) ++ hosts (np_Groups p)) (np_Deny p)) host.
Proof.
  intros Hm. unfold withAgentAPI. rewrite agent_hosts_host. fold (agent_host agent).
  destruct (String.eqb (agent_host agent) ""); [|rewrite Hm; cbn [negb String.eqb NetworkAllowlist orb Ascii.eqb Bool.eqb]; case_bool_decide];
    unfold run_permits; cbn [default from_option id with_host np_Mode np_Deny np_Groups allow_list np_Allow]; rewrite ?Hm;
    cbn [String.eqb NetworkAllowlist NetworkNone NetworkOpen Ascii.eqb Bool.eqb]; apply Allows_equiv; intros h;
    rewrite ?named_app; unfold named; set_solver.
Qed.

Lemma permits_open caps deny agent host :
  run_permits caps (withAgentAPI (Some {| np_Mode := NetworkOpen; np_Allow := None; np_Deny := deny; np_Groups := [] |}) agent caps) host =
  Allows (NewDenyMatcher deny) host.
Proof. unfold withAgentAPI. by destruct (String.eqb _ ""). Qed.

Lemma permits_none caps agent host :
  run_permits caps (withAgentAPI (Some {| np_Mode := NetworkNone; np_Allow := None; np_Deny := []; np_Groups := [] |}) agent caps) host = false.
Proof. unfold withAgentAPI. by destruct (String.eqb _ ""). Qed.

Lemma permits_default caps agent host :
  plain_default caps →
  run_permits caps (withAgentAPI None agent caps) host =
  let d := nc_Default (caps_Network caps) in
  if String.eqb (np_Mode d) NetworkOpen then Allows (NewDenyMatcher []) host
  else Allows (NewPolicyMatcher ((allow_list d ++ agent_hosts agent) ++ hosts []) []) host.
Proof.
  intros (Hm & Hd & Hg). unfold withAgentAPI. fold (agent_host agent). rewrite agent_hosts_host. destruct Hm as [Hm|Hm].
  - rewrite Hm. destruct (String.eqb (agent_host agent) ""); unfold run_permits; cbn [negb String.eqb orb NetworkAllowlist NetworkOpen
      Ascii.eqb Bool.eqb default from_option id]; rewrite ?Hm, ?Hd; done.
  - rewrite Hm. destruct (String.eqb (agent_host agent) ""); cbn [negb String.eqb orb NetworkAllowlist NetworkOpen Ascii.eqb Bool.eqb];
      [|case_bool_decide]; unfold run_permits; cbn [default from_option id with_host np_Mode np_Deny np_Groups allow_list np_Allow];
      rewrite ?Hm, ?Hd, ?Hg; cbn [String.eqb NetworkAllowlist NetworkNone NetworkOpen Ascii.eqb Bool.eqb]; apply Allows_equiv; intros h;
      rewrite ?named_app; unfold named; set_solver.
Qed.
(** *** What [resolveNetwork] comes to *)
Definition base_hosts (caps : Capabilities) (n : NetworkSpec) : list string :=
  if BaselineEnabled n then
    if String.eqb (np_Mode (nc_Default (caps_Network caps))) NetworkAllowlist
    then allow_list (nc_Default (caps_Network caps)) else BaselineEgress
  else [].
Definition named_hosts (cfg : Config) (allow : list string) : list string :=
  DedupeDomains (elems (nw_Allow (cf_Network cfg)) ++ allow).
Definition known_mode (cfg : Config) : Prop := nw_Mode (cf_Network cfg) ∈ [""; "default"; "none"; "allowlist"]%string.

Inductive net_resolved (cfg : Config) (allow deny groups : list string) (caps : Capabilities) (agent : option Descriptor) :
    option NetworkPolicy → Prop :=
| resolved_none : nw_Mode (cf_Network cfg) = "none"%string →
    net_resolved cfg allow deny groups caps agent (Some {| np_Mode := NetworkNone; np_Allow := None; np_Deny := []; np_Groups := [] |})
| resolved_open : nw_Mode (cf_Network cfg) = "default"%string → groups = [] →
    net_resolved cfg allow deny groups caps agent (Some {| np_Mode := NetworkOpen; np_Allow := None; np_Deny := deny; np_Groups := [] |})
| resolved_default : nw_Mode (cf_Network cfg) = ""%string → named_hosts cfg allow = [] → deny = [] → groups = [] →
    net_resolved cfg allow deny groups caps agent None
| resolved_list : nw_Mode (cf_Network cfg) = ""%string ∧ ¬ (named_hosts cfg allow = [] ∧ deny = [] ∧ groups = []) ∨
      nw_Mode (cf_Network cfg) = "allowlist"%string →
    net_resolved cfg allow deny groups caps agent
      (Some {| np_Mode := NetworkAllowlist;
               np_Allow := Some (DedupeDomains (base_hosts caps (cf_Network cfg) ++ named_hosts cfg allow ++ agent_hosts agent));
               np_Deny := deny; np_Groups := groups |}).

Lemma resolveNetwork_resolved cfg allow deny groups caps agent n :
  known_mode cfg → resolveNetwork cfg allow deny groups caps (agent_host agent) = Ok n →
  net_resolved cfg allow deny groups caps agent n.
Proof.
  unfold known_mode, resolveNetwork. intros Hk. rewrite guard_ok. intros [Hg Hr].
  destruct (String.eqb_spec (nw_Mode (cf_Network cfg)) "none") as [Hm|Hnn].
  { injection Hr as <-. by constructor. }
  destruct (String.eqb_spec (nw_Mode (cf_Network cfg)) "default") as [Hm|Hnd].
  { injection Hr as <-. cbn in Hg. constructor; [done|]. by apply negb_false_iff, bool_decide_eq_true in Hg. }
  fold (named_hosts cfg allow) in Hr.
  assert (nw_Mode (cf_Network cfg) = ""%string ∨ nw_Mode (cf_Network cfg) = "allowlist"%string) as Hm by set_solver.
  revert Hr. destruct (String.eqb (nw_Mode (cf_Network cfg)) "" && _ && _ && _) eqn:E; intros Hr.
  - rewrite !andb_true_iff, !bool_decide_eq_true, String.eqb_eq in E. destruct_and! E. injection Hr as <-. by constructor.
  - apply guard_ok in Hr as [_ [= <-]].
    replace (if String.eqb (agent_host agent) "" then named_hosts cfg allow else named_hosts cfg allow ++ [agent_host agent])
      with (named_hosts cfg allow ++ agent_hosts agent)
      by (rewrite agent_hosts_host; destruct (String.eqb (agent_host agent) ""); by rewrite ?app_nil_r).
    apply resolved_list. destruct Hm as [Hm|Hm]; [|by right]. left. split; [done|]. intros (H1 & H2 & H3).
    rewrite Hm, H1, H2, H3 in E. done.
Qed.

Lemma base_hosts_mono caps n n0 :
  (BaselineEnabled n = true → BaselineEnabled n0 = true) → base_hosts caps n ⊆ base_hosts caps n0.
Proof. unfold base_hosts. destruct (BaselineEnabled n); [intros ->; done|]. intros _. apply list_subseteq_nil. Qed.

Lemma listed_narrower caps p p0 agent host :
  np_Mode p = NetworkAllowlist → np_Mode p0 = NetworkAllowlist → np_Deny p = np_Deny p0 → np_Groups p = np_Groups p0 →
  (∀ h, named (allow_list p) h → named (allow_list p0 ++ agent_hosts agent) h) →
  run_permits caps (withAgentAPI (Some p) agent caps) host = true → run_permits caps (withAgentAPI (Some p0) agent caps) host = true.
Proof.
  intros Hm Hm0 Hd Hg Hn. rewrite !permits_list, Hd, Hg by done. apply Allows_mono. intros h. specialize (Hn h).
  rewrite !named_app. rewrite named_app in Hn. naive_solver.
Qed.

(** A tighter configuration's network permits no more. *)
Lemma resolve_narrower caps c c0 allow deny groups agent n n0 host :
  plain_default caps → tighter c c0 → nw_Allow (cf_Network c) = nw_Allow (cf_Network c0) → known_mode c → known_mode c0 →
  resolveNetwork c allow deny groups caps (agent_host agent) = Ok n →
  resolveNetwork c0 allow deny groups caps (agent_host agent) = Ok n0 →
  run_permits caps (withAgentAPI n agent caps) host = true → run_permits caps (withAgentAPI n0 agent caps) host = true.
Proof.
  intros Hd Ht Ha Hk Hk0 Hr%(resolveNetwork_resolved _ _ _ _ _ _ _ Hk) Hr0%(resolveNetwork_resolved _ _ _ _ _ _ _ Hk0).
  assert (named_hosts c allow = named_hosts c0 allow) as Hnh by (unfold named_hosts; by rewrite Ha).
  pose proof (ti_Mode _ _ Ht) as Hs. pose proof (ti_Unset _ _ Ht) as Hu.
  pose proof (base_hosts_mono caps _ _ (ti_Baseline _ _ Ht)) as Hb.
  destruct Hr as [Hm|Hm Hg|Hm Hn Hdy Hg|Hm].
  - by rewrite permits_none.
  - rewrite Hm in Hs. destruct Hr0 as [Hm0|Hm0 Hg0|Hm0 Hn0 Hd0 Hg0|[[Hm0 _]|Hm0]]; try (rewrite Hm0 in Hs; by cbv in Hs).
  - specialize (Hu Hm). destruct Hr0 as [Hm0|Hm0 Hg0|Hm0 Hn0 Hd0 Hg0|Hm0]; [congruence|congruence|done|].
    exfalso. destruct Hm0 as [[_ Hno]|?]; [|congruence]. apply Hno. split_and!; congruence.
  - destruct Hr0 as [Hm0|Hm0 Hg0|Hm0 Hn0 Hd0 Hg0|Hm0].
    + exfalso. rewrite Hm0 in Hs. destruct Hm as [[Hm _]|Hm]; rewrite Hm in Hs; by cbv in Hs.
    + rewrite permits_open, permits_list by done. apply Allows_open.
    + subst deny groups. rewrite permits_default, permits_list by done. cbn [np_Deny np_Groups allow_list np_Allow default from_option id].
      destruct Hd as ([Hdm|Hdm] & _ & _); rewrite Hdm; [apply Allows_open|].
      apply Allows_mono. intros h. rewrite !named_app, named_dedupe, !named_app, Hnh, Hn0. intros [[[Hh|[Hh|Hh]]|Hh]|Hh]; [| | | |by right].
      * left. left. revert Hh. apply named_subseteq. unfold base_hosts. rewrite Hdm. destruct (BaselineEnabled _); [done|apply list_subseteq_nil].
      * by destruct Hh as (? & ?%not_elem_of_nil & _).
      * by left; right.
      * by left; right.
    + apply listed_narrower; try done. intros h. cbn [allow_list np_Allow default from_option id].
      rewrite named_app, !named_dedupe, Hnh. intros Hh. left. revert Hh. apply named_subseteq. set_solver.
Qed.
End run_permits.

(** ** From the files to the request *)
Section run.
Context `{Unicode}.

Lemma loadConfig_ok h1 h2 h3 project configPath profile ov c :
  loadConfig h1 h2 h3 project configPath profile ov = Ok c →
  LoadProfileWith h1 h2 project configPath profile ov = Ok c ∧ known_mode c.
Proof.
  unfold loadConfig. intros (c' & Hl & ([] & _ & ([] & _ & ([] & _ & ([] & Hv & [= <-])%bind_ok)%bind_ok)%bind_ok)%bind_ok)%bind_ok.
  split; [done|]. unfold Validate in Hv. rewrite !guard_ok in Hv. destruct Hv as (_ & _ & _ & Hv).
  apply bind_ok in Hv as ([] & _ & Hv). rewrite !guard_ok in Hv. destruct Hv as (_ & _ & _ & Hm & _).
  by apply negb_false_iff, bool_decide_eq_true in Hm.
Qed.

Lemma config_env_same m c c0 env : same_reach c c0 → config_env m c env = config_env m c0 env.
Proof. intros Hr. unfold config_env. by rewrite (sr_Env _ _ Hr), (sr_EnvAllow _ _ Hr), (sr_Secrets _ _ Hr). Qed.

Lemma run_asks_ok m h1 h2 h3 rf project agent saved caps q :
  run_asks m h1 h2 h3 rf project agent saved caps = Ok q →
  ∃ env ov c env' n, buildEnv m (rf_env rf) agent saved = Ok env ∧ overrides rf = Ok ov ∧
    LoadProfileWith h1 h2 project (rf_configPath rf) (rf_profile rf) ov = Ok c ∧ known_mode c ∧
    config_env m c env = Ok env' ∧
    resolveNetwork c (rf_allow rf) (rf_deny rf) (rf_groups rf) caps (agent_host (fst <$> agent)) = Ok n ∧
    q = {| rq_Image := if String.eqb (rf_image rf) "" && negb (String.eqb (cf_Image c) "") && negb (String.eqb (cf_Image c) DefaultImage)
                       then cf_Image c else rf_image rf;
           rq_Env := env' ∪ guestGitIdentity; rq_Network := withAgentAPI n (fst <$> agent) caps;
           rq_noPersistAuth := rf_noPersistAuth rf || negb (PersistAuthEnabled c) |}.
Proof.
  unfold run_asks, applyConfig. intros (env & He & (q' & (ov & Ho & Hq)%bind_ok & [= <-])%bind_ok)%bind_ok.
  destruct (loadConfig _ _ _ _ _ _ _) as [c|] eqn:El; [|done]. apply loadConfig_ok in El as [Hl Hk].
  apply bind_ok in Hq as (env' & Hc & (n & Hn & [= <-])%bind_ok). by exists env, ov, c, env', n.
Qed.
End run.

