(* ===== verification/PublicNet.v ===== *)
(** * Addresses on the public internet (internal/publicnet/publicnet.go;
    internal/gateway/jobs.go checkNotifyURL)

    What a host connects to for a client is a public address. An address is its
    bytes; what net/url and net/netip read of a URL is an argument. *)
From Stdlib Require Import Btauto.
From S2P Require Import Prelude GoStrings EgressNames Sni Dns Proxy.

(** [netip.Addr]: 4 bytes, or 16. *)
Definition Unmap (ip : list Z) : list Z :=
  if (length ip =? 16)%nat && bool_decide (take 12 ip = repeat 0 10 ++ [255; 255]) then drop 12 ip else ip.
Definition IsValid (ip : list Z) : bool := (length ip =? 4)%nat || (length ip =? 16)%nat.

Definition byte_i (ip : list Z) (i : nat) : Z := nth i ip 0.
Definition Is4 (ip : list Z) : bool := (length ip =? 4)%nat.

(** The standard library's predicates, on an unmapped address. *)
Definition IsLoopback (ip : list Z) : bool :=
  if Is4 ip then byte_i ip 0 =? 127 else bool_decide (ip = repeat 0 15 ++ [1]).
Definition IsMulticast (ip : list Z) : bool :=
  if Is4 ip then Z.land (byte_i ip 0) 240 =? 224 else byte_i ip 0 =? 255.
Definition IsLinkLocalUnicast (ip : list Z) : bool :=
  if Is4 ip then (byte_i ip 0 =? 169) && (byte_i ip 1 =? 254) else (byte_i ip 0 =? 254) && (Z.land (byte_i ip 1) 192 =? 128).
Definition IsPrivate (ip : list Z) : bool :=
  if Is4 ip then (byte_i ip 0 =? 10) || ((byte_i ip 0 =? 172) && (Z.land (byte_i ip 1) 240 =? 16)) || ((byte_i ip 0 =? 192) && (byte_i ip 1 =? 168))
  else Z.land (byte_i ip 0) 254 =? 252.
Definition IsGlobalUnicast (ip : list Z) : bool :=
  if Is4 ip && (bool_decide (ip = [0; 0; 0; 0]) || bool_decide (ip = [255; 255; 255; 255])) then false
  else negb (bool_decide (ip = repeat 0 16)) && negb (IsLoopback ip) && negb (IsMulticast ip) && negb (IsLinkLocalUnicast ip).
(** [100.64.0.0/10]. *)
Definition cgnat_contains (ip : list Z) : bool := Is4 ip && (byte_i ip 0 =? 100) && (Z.land (byte_i ip 1) 192 =? 64).

Definition Addr (ip : list Z) : bool :=
  let ip := Unmap ip in
  IsValid ip && IsGlobalUnicast ip && negb (IsPrivate ip) && negb (cgnat_contains ip).

(** [Control]: the dialled address, where it reads as one. *)
Definition Control (address : option (list Z)) : bool := match address with Some ip => Addr ip | None => false end.

(** ** Where a URL may point *)

(** What net/url reads of a URL; [pu_addr] is its host as an address, if it is
    one. *)
Record parsed_url := { pu_Scheme : string; pu_Host : string; pu_Hostname : string; pu_addr : option (list Z) }.

Definition url_host `{Unicode} (u : parsed_url) : string := trim_suffix (to_lower (pu_Hostname u)) ".".
Definition local_name (h : string) : bool := String.eqb h "localhost" || has_suffix h ".localhost".
Definition not_public_host (h : string) (addr : option (list Z)) : bool :=
  local_name h || match addr with Some ip => negb (Addr ip) | None => false end.
(** [net.IP.IsLoopback] of a host that reads as an address. *)
Definition loopback_addr (addr : option (list Z)) : bool := match addr with Some ip => IsLoopback (Unmap ip) | None => false end.

Definition maxNotifyURL : Z := 2048.
Definition checkNotifyURL `{Unicode} (s : string) (u : option parsed_url) (allowPrivate : bool) : bool :=
  if strlen s >? maxNotifyURL then false
  else match u with
       | None => false
       | Some u =>
           if String.eqb (pu_Host u) "" then false
           else
             let h := url_host u in
             if String.eqb (pu_Scheme u) "https" then allowPrivate || negb (not_public_host h (pu_addr u))
             else if String.eqb (pu_Scheme u) "http" then
               (String.eqb h "localhost" || loopback_addr (pu_addr u)) && (allowPrivate || negb (not_public_host h (pu_addr u)))
             else false
       end.

(** ** What is public *)
Definition is_ip (ip : list Z) : Prop := Forall is_byte ip ∧ IsValid ip = true.

Lemma bytes4 ip : Forall is_byte ip → Is4 ip = true → ∃ a b c d, ip = [a; b; c; d] ∧ is_byte a ∧ is_byte b ∧ is_byte c ∧ is_byte d.
Proof.
  unfold Is4. intros Hb Hl%Nat.eqb_eq. destruct ip as [|a [|b [|c [|d []]]]]; try discriminate Hl.
  rewrite !Forall_cons in Hb. exists a, b, c, d. tauto.
Qed.

(** Two tests of a byte that agree on all of them are one. *)
Lemma byte_test (f g : Z → bool) b : forallb (λ b, Bool.eqb (f b) (g b)) (seqZ 0 256) = true → is_byte b → f b = g b.
Proof.
  intros Hall Hb. apply Bool.eqb_prop. rewrite forallb_forall in Hall. apply Hall, list_elem_of_In, elem_of_seqZ. unfold is_byte in Hb. lia.
Qed.

(** The addresses that are no public one, byte by byte. *)
Definition internal_ipv4 (a b c d : Z) : bool :=
  (a =? 10) || (a =? 127) || ((224 <=? a) && (a <? 240)) || ((a =? 169) && (b =? 254)) || ((a =? 172) && (16 <=? b) && (b <? 32)) ||
  ((a =? 192) && (b =? 168)) || ((a =? 100) && (64 <=? b) && (b <? 128)) ||
  ((a =? 0) && (b =? 0) && (c =? 0) && (d =? 0)) || ((a =? 255) && (b =? 255) && (c =? 255) && (d =? 255)).

Lemma ip4_eq (a b c d x : Z) : bool_decide ([a; b; c; d] = [x; x; x; x]) = (a =? x) && (b =? x) && (c =? x) && (d =? x).
Proof.
  apply eq_true_iff_eq. rewrite bool_decide_eq_true, !andb_true_iff, !Z.eqb_eq. split; [intros [= -> -> -> ->]; done|].
  by intros [[[-> ->] ->] ->].
Qed.

(** An IPv4 address is taken for public exactly when it is in none of the
    private, loopback, link-local, shared and multicast networks and neither
    the unspecified nor the broadcast address, also when it is written as an
    IPv6 one. *)
Theorem Addr_ipv4 a b c d :
  is_byte a → is_byte b → is_byte c → is_byte d →
  Addr [a; b; c; d] = negb (internal_ipv4 a b c d) ∧ Addr (repeat 0 10 ++ [255; 255; a; b; c; d]) = Addr [a; b; c; d].
Proof.
  intros Ha Hb Hc Hd. split.
  - unfold Addr. assert (Unmap [a; b; c; d] = [a; b; c; d]) as -> by done.
    unfold IsGlobalUnicast, IsValid, IsLoopback, IsMulticast, IsLinkLocalUnicast, IsPrivate, cgnat_contains, Is4, byte_i. cbn [length Nat.eqb nth orb andb].
    rewrite !ip4_eq. rewrite bool_decide_eq_false_2 by done.
    rewrite (byte_test (λ b, Z.land b 240 =? 224) (λ b, (224 <=? b) && (b <? 240)) a eq_refl Ha).
    rewrite (byte_test (λ b, Z.land b 240 =? 16) (λ b, (16 <=? b) && (b <? 32)) b eq_refl Hb).
    rewrite (byte_test (λ b, Z.land b 192 =? 64) (λ b, (64 <=? b) && (b <? 128)) b eq_refl Hb).
    unfold internal_ipv4. 
    match goal with |- context [if ?c then false else ?x] => replace (if c then false else x) with (negb c && x) by by destruct c end. btauto.
  - unfold Addr. f_equal.
Qed.

(** What open egress reaches is public here too, and not the other way round:
    reserved and documentation addresses, and IPv6 ones that carry a private
    IPv4 address through a translator, are taken for public. *)
Theorem egress_is_stricter a b c d :
  is_byte a → is_byte b → is_byte c → is_byte d → Unreachable [a; b; c; d] [] = None → Addr [a; b; c; d] = true.
Proof.
  intros Ha Hb Hc Hd [Hp _]%unreachable_spec; [|done..]. rewrite (proj1 (Addr_ipv4 a b c d Ha Hb Hc Hd)).
  apply negb_true_iff. destruct (internal_ipv4 a b c d) eqn:Hi; [|done]. exfalso. revert Hp. apply not_false_iff_true.
  unfold private_ipv4, internal_ipv4, is_byte in *. rewrite ?orb_true_iff, ?andb_true_iff, ?Z.eqb_eq, ?Z.leb_le, ?Z.ltb_lt in Hi.
  rewrite ?orb_true_iff, ?andb_true_iff, ?orb_true_iff, ?Z.eqb_eq, ?Z.leb_le, ?Z.ltb_lt, Z.geb_le. destruct_or!; destruct_and?; pick_lia.
Qed.
Example reserved_taken_for_public :
  Addr [240; 0; 0; 1] = true ∧ Addr [192; 0; 2; 1] = true ∧ Addr [0; 100; 255; 155; 0; 0; 0; 0; 0; 0; 0; 0; 169; 254; 169; 254] = true.
Proof. vm_compute. by split_and!. Qed.

Lemma loopback_not_public ip : IsLoopback (Unmap ip) = true → Addr ip = false.
Proof. unfold Addr, IsGlobalUnicast. intros ->. destruct (Is4 _ && _); cbn; by rewrite ?andb_false_r. Qed.

(** A URL taken for a job's notifications, where the operator allows no private
    ones, is https, and names neither this machine nor an address that is not
    public. *)
Theorem notify_only_public `{Unicode} (s : string) (u : parsed_url) (Hok : checkNotifyURL s (Some u) false = true) :
  pu_Scheme u = "https"%string ∧ local_name (url_host u) = false ∧ ∀ ip, pu_addr u = Some ip → Addr ip = true.
Proof.
  revert Hok. unfold checkNotifyURL. destruct (strlen s >? maxNotifyURL); [done|]. destruct (String.eqb (pu_Host u) ""); [done|]. cbn [orb].
  unfold not_public_host. destruct (String.eqb_spec (pu_Scheme u) "https") as [->|_].
  - intros Hn%negb_true_iff. apply orb_false_iff in Hn as [Hl Ha]. split_and!; [done..|]. intros ip Hip. rewrite Hip in Ha. by apply negb_false_iff.
  - destruct (String.eqb _ "http"); [|done]. intros [Hl Hn]%andb_true_iff. exfalso. apply negb_true_iff, orb_false_iff in Hn as [Hn Ha].
    apply orb_true_iff in Hl as [Hl|Hl].
    + unfold local_name in Hn. by rewrite Hl in Hn.
    + unfold loopback_addr in Hl. destruct (pu_addr u) as [ip|]; [|done]. by rewrite (loopback_not_public ip Hl) in Ha.
Qed.

Definition hook : parsed_url := {| pu_Scheme := "https"; pu_Host := "hooks.example.com:8443"; pu_Hostname := "hooks.example.com"; pu_addr := None |}.
Definition metadata_hook : parsed_url := {| pu_Scheme := "https"; pu_Host := "169.254.169.254"; pu_Hostname := "169.254.169.254"; pu_addr := Some [169; 254; 169; 254] |}.
Lemma notify_only_public_witness : checkNotifyURL (H := ascii_unicode) "https://169.254.169.254/" (Some metadata_hook) false = false ∧
  checkNotifyURL (H := ascii_unicode) "https://hooks.example.com:8443/" (Some hook) false = true ∧ local_name (url_host (H := ascii_unicode) hook) = false.
Proof.
  split; [vm_compute; reflexivity|]. split; [vm_compute; reflexivity|].
  destruct (notify_only_public (H := ascii_unicode) "https://hooks.example.com:8443/" hook ltac:(vm_compute; reflexivity)) as (_ & Hl & _). exact Hl.
Defined.
