(* ===== verification/Jobs.v ===== *)
(** * Jobs: what one is, its checks, its record and its handlers
    (internal/api/jobs_types.go; internal/gateway: jobs.go, sql_jobs.go, and
    the records jobrun.go writes)

    A job's record is one row and its runs' rows, read and written in one
    transaction. An empty slice and a nil one are one here, and so are a nil map
    and an empty one. Output and files kept on disk are not modelled beyond a
    run's list of them; texts of errors are kept where the code reads them
    again. *)
From stdpp Require Import pretty.
From S2P Require Import Prelude GoSort GoStrings GoPath Api EgressNames PolicyEnv Spec ServiceSpec Scheduler Fleet Access Identity ImageRef Secrets Requests PublicNet Agents.

Definition JobRunning : string := "running".
Definition JobSucceeded : string := "succeeded".
Definition JobFailed : string := "failed".
Definition JobCancelled : string := "cancelled".
Definition RunQueued : string := "queued".
Definition RunRunning : string := "running".
Definition RunSucceeded : string := "succeeded".
Definition RunFailed : string := "failed".
Definition RunTimedOut : string := "timed_out".
Definition RunCancelled : string := "cancelled".

Record JobResources := { jr_CPUs : float64; jr_MemoryMB : Z; jr_DiskMB : Z }.
Record JobKeep := { jk_Output : option bool; jk_Files : list string }.

Record JobSpec := {
  js_Name : string;
  js_Image : string;
  js_Labels : gmap string string;
  js_Command : list string;
  js_Agent : string;
  js_Prompt : string;
  js_Prompts : list string;
  js_Parallelism : Z;
  js_Completions : Z;
  js_Retries : Z;
  js_TimeoutSecs : Z;
  js_Env : gmap string string;
  js_Secrets : list string;
  js_Network : option NetworkPolicy;
  js_Resources : option JobResources;
  js_FromSnapshot : string;
  js_Keep : option JobKeep;
  js_Notify : string
}.

Record JobFile := { jf_Path : string; jf_Size : Z; jf_Truncated : bool; jf_Error : string }.

Record JobRun := {
  jn_N : nat;
  jn_State : string;
  jn_Sandbox : string;
  jn_PID : Z;
  jn_Attempts : Z;
  jn_ExitCode : option Z;
  jn_Started : option Z;
  jn_Finished : option Z;
  jn_Error : string;
  jn_OutputTruncated : bool;
  jn_Files : list JobFile
}.

Record jobRecord := {
  jb_ID : string;
  jb_User : string;
  jb_Tenant : string;
  jb_Spec : JobSpec;
  jb_EnvNames : list string;
  jb_EnvSealed : option string;
  jb_State : string;
  jb_Error : string;
  jb_Cancelled : bool;
  jb_Created : Z;
  jb_Finished : option Z;
  jb_Runs : list JobRun
}.

(** ** Fields *)
Definition spec_numbers (c p t : Z) (s : JobSpec) : JobSpec :=
  let '(Build_JobSpec nm im la co ag pr ps _ _ re _ en se ne rs fs ke no) := s in
  Build_JobSpec nm im la co ag pr ps p c re t en se ne rs fs ke no.
Definition spec_env (e : gmap string string) (s : JobSpec) : JobSpec :=
  let '(Build_JobSpec nm im la co ag pr ps pa cp re ti _ se ne rs fs ke no) := s in
  Build_JobSpec nm im la co ag pr ps pa cp re ti e se ne rs fs ke no.

Definition set_runs (runs : list JobRun) (j : jobRecord) : jobRecord :=
  let '(Build_jobRecord id us te sp en es st er ca cr fi _) := j in Build_jobRecord id us te sp en es st er ca cr fi runs.
Definition set_cancel (error : string) (j : jobRecord) : jobRecord :=
  let '(Build_jobRecord id us te sp en es st _ _ cr fi ru) := j in Build_jobRecord id us te sp en es st error true cr fi ru.
Definition set_end (state : string) (finished : option Z) (j : jobRecord) : jobRecord :=
  let '(Build_jobRecord id us te sp en es _ er ca cr _ ru) := j in Build_jobRecord id us te sp en es state er ca cr finished ru.

Definition job_owner (j : jobRecord) : Owner := {| ow_User := jb_User j; ow_Tenant := jb_Tenant j; ow_Node := "" |}.
Definition runFinal (state : string) : bool :=
  bool_decide (state ∈ [RunSucceeded; RunFailed; RunTimedOut; RunCancelled]).
Definition jobIDRE (s : string) : bool :=
  match cut_prefix s "job_" with Some h => forallb is_hex_lower (chars h) && (String.length h =? 16)%nat | None => false end.

(** ** The bounds *)
Definition maxJobRuns : Z := 10000.
Definition maxJobParallelism : Z := 1000.
Definition maxJobRetries : Z := 100.
Definition defaultJobTimeout : Z := 3600 * second.
Definition maxJobTimeout : Z := 7 * 24 * 3600 * second.
Definition maxKeptFiles : Z := 32.
Definition maxPromptLen : Z := 262144.

(** ** The check of a spec *)
Section check.
Context `{Unicode}.
Context (range : gmap string string → list (string * string)).
(** The gateway has a secrets key, and posts notifications to private
    addresses. *)
Context (keyed notify_private : bool).

Fixpoint prompts_ok (l : list string) : bool :=
  match l with [] => true | pr :: l => negb (String.eqb pr "") && (strlen pr <=? maxPromptLen) && prompts_ok l end.

(** What the job runs. *)
Definition check_work (s : JobSpec) : bool :=
  match js_Command s with
  | prog :: _ =>
      String.eqb (js_Agent s) "" && String.eqb (js_Prompt s) "" && bool_decide (js_Prompts s = []) && negb (String.eqb prog "")
  | [] =>
      if String.eqb (js_Agent s) "" then false
      else match Lookup (js_Agent s) with
           | None => false
           | Some d =>
               bool_decide (is_Some (ag_AutonomousArgs d)) &&
               negb (eqb (String.eqb (js_Prompt s) "") (bool_decide (js_Prompts s = []))) &&
               (strlen (js_Prompt s) <=? maxPromptLen) && prompts_ok (js_Prompts s)
           end
  end.

Definition default_1 (n : Z) : Z := if n =? 0 then 1 else n.
Definition prompt_count (s : JobSpec) : Z := Z.of_nat (length (js_Prompts s)).
Definition completions_of (s : JobSpec) : Z :=
  if negb (bool_decide (js_Prompts s = [])) then prompt_count s else default_1 (js_Completions s).

Definition negative_resources (r : option JobResources) : bool :=
  match r with Some r => fltb (jr_CPUs r) fzero || (jr_MemoryMB r <? 0) || (jr_DiskMB r <? 0) | None => false end.

(** A name that is no variable's is a bad request, a reserved one refused. *)
Fixpoint check_env_job (l : list (string * string)) : result Z () :=
  match l with
  | [] => Ok ()
  | (k, v) :: l =>
      reject_if (negb (envNameRE k)) 400;; reject_if (IsReservedEnv k) 403;; reject_if (contains_char "000" v) 400;; check_env_job l
  end.

Fixpoint secrets_exist (v : sres vault) (tenant : string) (refs : list secretRef) : result Z () :=
  match refs with
  | [] => Ok ()
  | r :: refs =>
      match v with
      | Err _ => Err 503
      | Ok v => reject_if (negb (bool_decide (is_Some (SealedSecret v tenant (sec_name r))))) 400;; secrets_exist (Ok v) tenant refs
      end
  end.

Definition kept_file_ok (f : string) : bool :=
  has_prefix f "/" && String.eqb (clean_rooted f) f && negb (contains_char "000" f).
Definition keep_ok (k : option JobKeep) : bool :=
  match k with Some k => (Z.of_nat (length (jk_Files k)) <=? maxKeptFiles) && forallb kept_file_ok (jk_Files k) | None => true end.

(** [checkGroups]: the store is asked only where there are groups. *)
Definition checkGroups (groups : sres (list EgressGroup)) (net : option NetworkPolicy) : result Z () :=
  match net with
  | Some n =>
      if bool_decide (np_Groups n = []) then Ok ()
      else if negb (String.eqb (np_Mode n) NetworkAllowlist) then Err 400
      else match groups with
           | Err _ => Err 503
           | Ok gs => match expandGroups gs net with Ok _ => Ok () | Err _ => Err 400 end
           end
  | None => Ok ()
  end.

(** [url]: what net/url reads of the notify URL. The answer is the spec with its
    defaults, or the status of the refusal. *)
Definition checkJobSpec (p : Principal) (v : sres vault) (groups : sres (list EgressGroup)) (url : option parsed_url) (s : JobSpec) : result Z JobSpec :=
  reject_if (negb (String.eqb (js_Name s) "") && negb (ValidName (js_Name s))) 400;;
  reject_if (negb (is_ok (ValidateLabels range (js_Labels s)))) 400;;
  reject_if (negb (check_work s)) 400;;
  reject_if (negb (bool_decide (js_Prompts s = [])) && negb (js_Completions s =? 0) && negb (js_Completions s =? prompt_count s)) 400;;
  let s := spec_numbers (completions_of s) (default_1 (js_Parallelism s)) (js_TimeoutSecs s) s in
  reject_if ((js_Completions s <? 0) || (js_Completions s >? maxJobRuns)) 400;;
  reject_if ((js_Parallelism s <? 0) || (js_Parallelism s >? maxJobParallelism)) 400;;
  reject_if ((js_Retries s <? 0) || (js_Retries s >? maxJobRetries)) 400;;
  reject_if ((js_TimeoutSecs s <? 0) || (secs (js_TimeoutSecs s) >? maxJobTimeout)) 400;;
  let s := spec_numbers (js_Completions s) (js_Parallelism s) (if js_TimeoutSecs s =? 0 then 3600 else js_TimeoutSecs s) s in
  reject_if (negative_resources (js_Resources s)) 400;;
  check_env_job (range (js_Env s));;
  refs ← match parseSecretRefs (js_Secrets s) (js_Env s) with Ok l => Ok l | Err _ => Err 400 end;
  (if bool_decide (refs = []) then Ok () else reject_if (negb keyed) 501;; secrets_exist v (p_Tenant p) refs);;
  reject_if (negb (keep_ok (js_Keep s))) 400;;
  reject_if (negb (String.eqb (js_Notify s) "") && negb (checkNotifyURL (js_Notify s) url notify_private)) 400;;
  checkGroups groups (js_Network s);;
  Ok s.

(** ** Submitting *)
Definition queued_run (n : nat) : JobRun := {|
  jn_N := n; jn_State := RunQueued; jn_Sandbox := ""; jn_PID := 0; jn_Attempts := 0; jn_ExitCode := None; jn_Started := None; jn_Finished := None;
  jn_Error := ""; jn_OutputTruncated := false; jn_Files := [] |}.

(** [encode] writes the environment as JSON; [rnd] is [newID]'s randomness. *)
Definition new_job `{AEAD} (encode : gmap string string → string) (now : Z) (id nonce : string) (p : Principal) (s : JobSpec) : jobRecord := {|
  jb_ID := id; jb_User := p_User p; jb_Tenant := p_Tenant p; jb_Spec := spec_env ∅ s;
  jb_EnvNames := sort_stable str_ltb (fst <$> map_to_list (js_Env s));
  jb_EnvSealed := if negb (bool_decide (js_Env s = ∅)) && keyed then Some (seal nonce (encode (js_Env s)) (jobEnvAD id)) else None;
  jb_State := JobRunning; jb_Error := ""; jb_Cancelled := false; jb_Created := now; jb_Finished := None;
  jb_Runs := queued_run <$> seq 0 (Z.to_nat (js_Completions s)) |}.
End check.

(** ** The tables *)
Abbreviation jobs := (gmap string jobRecord).
Inductive job_error := ErrNoSuchJob | job_store.
Abbreviation jx A := (result job_error A).

Definition PutJob (r : jobRecord) (m : jobs) : jx jobs :=
  reject_if (bool_decide (is_Some (m !! jb_ID r))) job_store;; Ok (<[jb_ID r := r]> m).
Definition UpdateJob (id : string) (f : jobRecord → jobRecord) (m : jobs) : jx jobs :=
  r ← of_option (m !! id) ErrNoSuchJob; Ok (<[id := f r]> m).
Definition UpdateRun (id : string) (n : nat) (f : JobRun → JobRun) (m : jobs) : jx (JobRun * jobs) :=
  r ← of_option (m !! id) ErrNoSuchJob;
  run ← of_option (jb_Runs r !! n) ErrNoSuchJob;
  Ok (f run, <[id := set_runs (<[n := f run]> (jb_Runs r)) r]> m).
Definition ForgetJob (id : string) (m : jobs) : jobs := delete id m.
Definition RunningJobs (m : jobs) : gmap string Owner :=
  job_owner <$> filter (λ ij, String.eqb (jb_State ij.2) JobRunning && negb (jb_Cancelled ij.2) = true) m.
Definition older_job (a b : jobRecord) : bool :=
  if negb (jb_Created a =? jb_Created b) then jb_Created a <? jb_Created b else str_ltb (jb_ID a) (jb_ID b).
Definition AllJobs (m : jobs) : list jobRecord := sort_stable older_job (snd <$> map_to_list m).
Definition JobsOf (user tenant : string) (m : jobs) : list jobRecord :=
  List.filter (λ j, String.eqb (jb_User j) user && String.eqb (jb_Tenant j) tenant) (AllJobs m).

(** ** A job as the API reports it *)
Definition in_state (states : list string) (r : JobRun) : bool := bool_decide (jn_State r ∈ states).
Definition count_runs (states : list string) (l : list JobRun) : nat := length (List.filter (in_state states) l).
Record Job := {
  jo_ID : string; jo_Name : string; jo_State : string; jo_Spec : JobSpec; jo_EnvNames : list string;
  jo_Created : Z; jo_Finished : option Z; jo_Expires : option Z;
  jo_Queued : nat; jo_Running : nat; jo_Succeeded : nat; jo_Failed : nat;
  jo_Runs : list JobRun; jo_Error : string
}.
Definition jobView (retention : Z) (r : jobRecord) (withRuns : bool) : Job := {|
  jo_ID := jb_ID r; jo_Name := js_Name (jb_Spec r); jo_State := jb_State r; jo_Spec := spec_env ∅ (jb_Spec r); jo_EnvNames := jb_EnvNames r;
  jo_Created := jb_Created r; jo_Finished := jb_Finished r; jo_Expires := (λ t, t + retention) <$> jb_Finished r;
  jo_Queued := count_runs [RunQueued] (jb_Runs r); jo_Running := count_runs [RunRunning] (jb_Runs r);
  jo_Succeeded := count_runs [RunSucceeded] (jb_Runs r); jo_Failed := count_runs [RunFailed; RunTimedOut] (jb_Runs r);
  jo_Runs := if withRuns then jb_Runs r else []; jo_Error := jb_Error r |}.

(** ** The handlers' reads *)
Definition jobFor (p : Principal) (scope id : string) (m : jobs) : result Z jobRecord :=
  reject_if (negb (Can p scope)) 403;;
  reject_if (negb (jobIDRE id)) 404;;
  j ← of_option (m !! id) 404;
  reject_if (negb (mayAct p (job_owner j))) 404;; Ok j.
Definition newer_job (a b : Job) : bool :=
  if negb (jo_Created a =? jo_Created b) then jo_Created b <? jo_Created a else str_ltb (jo_ID b) (jo_ID a).
Definition listJobs (retention : Z) (p : Principal) (m : jobs) : result Z (list Job) :=
  reject_if (negb (Can p ScopeRead)) 403;;
  Ok (sort_stable newer_job ((λ j, jobView retention j false) <$> JobsOf (p_User p) (p_Tenant p) m)).
(** [n]: the run's number as it is written. *)
Definition runOf (p : Principal) (id n : string) (m : jobs) : result Z (jobRecord * JobRun) :=
  j ← jobFor p ScopeRead id m;
  k ← of_option (List.find (λ k, String.eqb (pretty (Z.of_nat k)) n) (seq 0 (length (jb_Runs j)))) 404;
  run ← of_option (jb_Runs j !! k) 404;
  Ok (j, run).

(** ** The manager: whether jobs are run, and the environments not sealed *)
Record jobManager := { jm_started : bool; jm_closed : bool; jm_env : gmap string (gmap string string) }.
Definition with_env (e : gmap string (gmap string string)) (jm : jobManager) : jobManager :=
  {| jm_started := jm_started jm; jm_closed := jm_closed jm; jm_env := e |}.
Definition hold (id : string) (env : gmap string string) (jm : jobManager) : option jobManager :=
  if negb (jm_started jm) || jm_closed jm then None
  else Some (if bool_decide (env = ∅) then jm else with_env (<[id := env]> (jm_env jm)) jm).
Definition drop_env (id : string) (jm : jobManager) : jobManager := with_env (delete id (jm_env jm)) jm.

Inductive env_error := env_no_key | env_sealed | env_corrupt | env_lost.
(** [decode] reads JSON. *)
Definition jobEnv `{AEAD} (keyed : bool) (decode : string → option (gmap string string)) (r : jobRecord) (jm : jobManager) : result env_error (gmap string string) :=
  if bool_decide (jb_EnvNames r = []) then Ok ∅
  else match jb_EnvSealed r with
       | Some sealed =>
           reject_if (negb keyed) env_no_key;;
           plain ← of_option (open sealed (jobEnvAD (jb_ID r))) env_sealed;
           of_option (decode plain) env_corrupt
       | None => of_option (jm_env jm !! jb_ID r) env_lost
       end.

Section submit.
Context `{Unicode} `{AEAD}.
Context (range : gmap string string → list (string * string)) (keyed notify_private : bool) (encode : gmap string string → string).

(** [submitJob]: what is checked is recorded; a record that fails is let go. *)
Definition submitJob (now : Z) (id nonce : string) (p : Principal) (v : sres vault) (groups : sres (list EgressGroup)) (url : option parsed_url)
    (s : JobSpec) (jm : jobManager) (m : jobs) : result Z (jobRecord * jobManager * jobs) :=
  s ← checkJobSpec range keyed notify_private p v groups url s;
  let r := new_job keyed encode now id nonce p s in
  jm ← of_option (hold id (js_Env s) jm) 503;
  match PutJob r m with Ok m => Ok (r, jm, m) | Err _ => Err 500 end.

Definition createJob now id nonce p v groups url s jm m : result Z (jobRecord * jobManager * jobs) :=
  reject_if (negb (Can p ScopeCreate)) 403;; submitJob now id nonce p v groups url s jm m.

(** An agent run is a job without the batch's fields. *)
Definition createAgentRun now id nonce p v groups url s jm m : result Z (jobRecord * jobManager * jobs) :=
  reject_if (negb (Can p ScopeCreate)) 403;;
  reject_if (String.eqb (js_Agent s) "" || String.eqb (js_Prompt s) "") 400;;
  let '(Build_JobSpec nm im _ _ ag pr _ _ _ re ti en se ne rs fs ke no) := s in
  submitJob now id nonce p v groups url (Build_JobSpec nm im ∅ [] ag pr [] 0 0 re ti en se ne rs fs ke no) jm m.
End submit.

(** ** What becomes of a job *)
Definition reasonOwnerRevoked : string := "cancelled: the owner's access was revoked".

(** What one attempt came to. *)
Record outcome := {
  ou_state : string; ou_exit : option Z; ou_err : string; ou_truncated : bool; ou_files : list JobFile;
  ou_counted : bool; ou_final : bool }.
Definition outcome_of (state err : string) : outcome := {|
  ou_state := state; ou_exit := None; ou_err := err; ou_truncated := false; ou_files := []; ou_counted := false; ou_final := false |}.
Definition failed (msg : string) : outcome := outcome_of RunFailed msg.
Definition counted_failure (final : bool) (msg : string) : outcome := {|
  ou_state := RunFailed; ou_exit := None; ou_err := msg; ou_truncated := false; ou_files := []; ou_counted := true; ou_final := final |}.

Definition attempts_after (o : outcome) (r : JobRun) : Z := if ou_counted o then jn_Attempts r + 1 else jn_Attempts r.
Definition may_retry (retries : Z) (live : bool) (o : outcome) (r : JobRun) : bool :=
  (String.eqb (ou_state o) RunFailed || String.eqb (ou_state o) RunTimedOut) && negb (ou_final o) &&
  (attempts_after o r <=? retries) && live.
(** [runOne]'s write of an attempt's end; [live]: the job is not stopping. *)
Definition record_outcome (retries : Z) (live : bool) (now : Z) (o : outcome) (r : JobRun) : JobRun :=
  let retry := may_retry retries live o r in {|
  jn_N := jn_N r; jn_State := if retry then RunQueued else ou_state o; jn_Sandbox := jn_Sandbox r; jn_PID := 0; jn_Attempts := attempts_after o r;
  jn_ExitCode := ou_exit o; jn_Started := jn_Started r; jn_Finished := if retry then None else Some now; jn_Error := ou_err o;
  jn_OutputTruncated := ou_truncated o; jn_Files := ou_files o |}.
(** [attempt]'s two writes. *)
Definition record_made (sb : string) (r : JobRun) : JobRun := {|
  jn_N := jn_N r; jn_State := RunRunning; jn_Sandbox := sb; jn_PID := 0; jn_Attempts := jn_Attempts r + 1; jn_ExitCode := None; jn_Started := None;
  jn_Finished := None; jn_Error := ""; jn_OutputTruncated := jn_OutputTruncated r; jn_Files := jn_Files r |}.
Definition record_started (pid now : Z) (r : JobRun) : JobRun := {|
  jn_N := jn_N r; jn_State := jn_State r; jn_Sandbox := jn_Sandbox r; jn_PID := pid; jn_Attempts := jn_Attempts r; jn_ExitCode := jn_ExitCode r;
  jn_Started := Some now; jn_Finished := jn_Finished r; jn_Error := jn_Error r; jn_OutputTruncated := jn_OutputTruncated r; jn_Files := jn_Files r |}.

Definition finish_run (now : Z) (why : string) (r : JobRun) : JobRun :=
  if runFinal (jn_State r) then r else {|
  jn_N := jn_N r; jn_State := RunCancelled; jn_Sandbox := jn_Sandbox r; jn_PID := jn_PID r; jn_Attempts := jn_Attempts r;
  jn_ExitCode := jn_ExitCode r; jn_Started := jn_Started r;
  jn_Finished := match jn_Finished r with Some t => Some t | None => Some now end;
  jn_Error := if String.eqb (jn_Error r) "" && String.eqb why reasonOwnerRevoked then why else jn_Error r;
  jn_OutputTruncated := jn_OutputTruncated r; jn_Files := jn_Files r |}.
Definition not_succeeded (r : JobRun) : bool := negb (String.eqb (jn_State r) RunSucceeded).
(** [finishJob]'s write. *)
Definition finish_job (now : Z) (j : jobRecord) : jobRecord :=
  let runs := finish_run now (jb_Error j) <$> jb_Runs j in
  let bad := existsb not_succeeded runs in
  set_end (if jb_Cancelled j && bad then JobCancelled else if bad then JobFailed else JobSucceeded) (Some now) (set_runs runs j).

(** [revokeJob]'s write, and whether it is the first. *)
Definition revoke_job (j : jobRecord) : jobRecord * bool :=
  if negb (String.eqb (jb_State j) JobRunning) || jb_Cancelled j then (j, false)
  else (set_cancel (if String.eqb (jb_Error j) "" then reasonOwnerRevoked else jb_Error j) j, true).
(** [cancelJob]'s. *)
Definition cancelJob (p : Principal) (id : string) (m : jobs) : result Z (bool * jobs) :=
  j ← jobFor p ScopeCreate id m;
  if negb (String.eqb (jb_State j) JobRunning) then Ok (false, m)
  else match UpdateJob id (λ j, set_cancel (jb_Error j) j) m with Ok m => Ok (true, m) | Err _ => Err 500 end.

(** [forgetOldJobs]: [removed] says what a job kept is gone from the disk. *)
Definition forgettable (now retention : Z) (j : jobRecord) : bool :=
  match jb_Finished j with Some t => negb (time_sub now t <? retention) | None => false end.
Definition forgetOldJobs (now retention : Z) (removed : string → bool) (m : jobs) : jobs :=
  filter (λ ij, forgettable now retention ij.2 && removed ij.1 = false) m.

(** [revokeOrphanedJobs]' decision for each running job: whether its owner's
    access is known to have ended. *)
Definition orphaned (active : Owner → sres bool) (m : jobs) : list string :=
  fst <$> List.filter (λ io, match active io.2 with Ok ok => negb ok | Err _ => false end) (map_to_list (RunningJobs m)).

(** [runJob]: the runs under way first, then the queued ones. *)
Definition pending (l : list JobRun) : list nat :=
  (jn_N <$> List.filter (in_state [RunRunning]) l) ++ (jn_N <$> List.filter (in_state [RunQueued]) l).

(** ** What a run asks for *)
Definition gitIdentity : gmap string string := {[
  "GIT_AUTHOR_NAME" := "sandbox"; "GIT_AUTHOR_EMAIL" := "sandbox@localhost";
  "GIT_COMMITTER_NAME" := "sandbox"; "GIT_COMMITTER_EMAIL" := "sandbox@localhost" ]}%string.
Definition GuestHome : string := "/sandbox/home".
Definition LabelJob : string := "gateway.job".
Definition LabelJobRun : string := "gateway.job-run".

(** The agent's own host, on an allowlist that lacks it. *)
Definition provider_network (host : string) (caps : option Capabilities) (net : option NetworkPolicy) : option NetworkPolicy :=
  if String.eqb host "" then net
  else
    let net := match net with
      | Some n => Some n
      | None => match caps with
                | Some c => let d := nc_Default (caps_Network c) in
                    if String.eqb (np_Mode d) NetworkAllowlist
                    then Some {| np_Mode := np_Mode d; np_Allow := np_Allow d; np_Deny := np_Deny d; np_Groups := [] |} else None
                | None => None
                end
      end in
    match net with
    | Some n => if String.eqb (np_Mode n) NetworkAllowlist && negb (bool_decide (host ∈ allow_list n))
                then Some {| np_Mode := np_Mode n; np_Allow := Some (allow_list n ++ [host]); np_Deny := np_Deny n; np_Groups := np_Groups n |}
                else Some n
    | None => None
    end.

Definition runRequest (caps : option Capabilities) (s : JobSpec) (n : nat) (env secrets : gmap string string) :
    CreateSandboxRequest * list string * string :=
  let zero := {| jr_CPUs := fzero; jr_MemoryMB := 0; jr_DiskMB := 0 |} in
  let rs := default zero (js_Resources s) in
  let req (net : option NetworkPolicy) := {|
    cr_Name := ""; cr_Image := js_Image s; cr_CPUs := jr_CPUs rs; cr_MemoryMB := jr_MemoryMB rs; cr_DiskMB := jr_DiskMB rs;
    cr_Env := secrets ∪ (env ∪ gitIdentity); cr_Network := net; cr_IdleTimeoutSecs := 0; cr_IdleAction := ""; cr_LifetimeSecs := 0;
    cr_SnapshotID := js_FromSnapshot s; cr_SnapshotEverySecs := 0; cr_SnapshotKeep := 0; cr_Labels := ∅; cr_Volumes := []; cr_RegistryLogin := None;
    cr_MetricsExport := None; cr_GPUs := 0 |} in
  match Lookup (js_Agent s) with
  | Some d =>
      let prompt := match js_Prompts s with [] => js_Prompt s | l => default ""%string (l !! n) end in
      (req (provider_network (ag_ProviderHost d) caps (js_Network s)), Autonomous d prompt [], GuestHome)
  | None => (req (js_Network s), js_Command s, ""%string)
  end.
Definition run_labels (id : string) (n : nat) : gmap string string := {[ LabelJob := id; LabelJobRun := pretty (Z.of_nat n) ]}.
