(* ===== verification/JobRun.v ===== *)
(** * The job controller (internal/gateway/jobrun.go)

    One job: its record in the store, and the goroutines that run it. A step is
    what the controller does between two answers from outside: the store, the
    create path, a node, the clock. Answers come with the events; the gateway
    may stop, or be killed, between any two of them. Output, files kept and
    notifications change nothing here and are left out. *)
From S2P Require Import Prelude GoStrings Api Spec Access Jobs.

(** Why the job's context has ended: the first cause stays. *)
Inductive stop_cause := stop_cancelled | stop_revoked | stop_gateway.
Definition is_cancel (c : stop_cause) : bool := match c with stop_gateway => false | _ => true end.

(** Where a run's goroutine is. *)
Inductive phase :=
| Ph_begin                                   (** about to read its run *)
| Ph_create                                  (** the owner was active: asking for a sandbox *)
| Ph_made (sb : string)                      (** has one, not recorded *)
| Ph_recorded (sb : string)                  (** recorded; about to start the command *)
| Ph_started (sb : string) (pid : Z)         (** started, not recorded *)
| Ph_watch (sb : string) (pid started : Z)   (** following it *)
| Ph_came (o : outcome).                     (** the attempt ended; about to write it *)

Record ctl := {
  ct_stop : option stop_cause;
  ct_pending : list nat;
  ct_runs : gmap nat phase
}.

(** [jw_made] are the sandboxes made for the runs, [jw_down] those the gateway
    has gone to terminate, and [jw_lost] counts a run's sandboxes that were made
    and never recorded in it. *)
Record jworld := {
  jw_job : jobRecord;
  jw_ctl : option ctl;
  jw_made : list (nat * string);
  jw_down : list string;
  jw_lost : nat → nat
}.

Inductive watched := W_exit (code : Z) | W_deadline | W_gone | W_lost | W_stopped.

(** What the owner check, the environment and the secrets came to. *)
Inductive readiness := R_store_failed | R_no_access (recorded : bool) | R_not_ready (why : string) | R_ready.

Inductive job_event :=
| J_start                                          (** [startJob], [runJob]'s reads *)
| J_take                                           (** the next run is given its turn *)
| J_break                                          (** [ctx.Done] while waiting for one *)
| J_unread (n : nat)                               (** [currentRun] found nothing *)
| J_begin (n : nat) (node_found : bool) (r : readiness)
| J_created (n : nat) (sb : string)
| J_refused (n : nat) (transient : bool) (why : string)
| J_record_made (n : nat) (ok : bool)
| J_start_process (n : nat) (node_found : bool) (pid : option Z) (why : string)
| J_record_started (n : nat) (now : Z) (ok : bool)
| J_watched (n : nat) (o : watched)
| J_write (n : nat) (now : Z) (ok : bool)
| J_finish (now : Z) (ok : bool)
| J_cancel                                         (** DELETE /v1/jobs/{id}, which found it running *)
| J_revoke (ok : bool)                             (** [revokeJob] *)
| J_stop                                           (** the gateway is stopping *)
| J_kill.                                          (** the gateway is gone *)

(** ** The world's parts *)
Definition with_job (f : jobRecord → jobRecord) (w : jworld) : jworld :=
  {| jw_job := f (jw_job w); jw_ctl := jw_ctl w; jw_made := jw_made w; jw_down := jw_down w; jw_lost := jw_lost w |}.
Definition with_ctl (c : option ctl) (w : jworld) : jworld :=
  {| jw_job := jw_job w; jw_ctl := c; jw_made := jw_made w; jw_down := jw_down w; jw_lost := jw_lost w |}.
Definition now_made (n : nat) (sb : string) (w : jworld) : jworld :=
  {| jw_job := jw_job w; jw_ctl := jw_ctl w; jw_made := (n, sb) :: jw_made w; jw_down := jw_down w; jw_lost := jw_lost w |}.
(** [terminateRunSandbox], which only logs its failures. *)
Definition take_down (sb : string) (w : jworld) : jworld :=
  {| jw_job := jw_job w; jw_ctl := jw_ctl w; jw_made := jw_made w; jw_down := sb :: jw_down w; jw_lost := jw_lost w |}.
Definition lose (f : nat → nat) (w : jworld) : jworld :=
  {| jw_job := jw_job w; jw_ctl := jw_ctl w; jw_made := jw_made w; jw_down := jw_down w; jw_lost := λ n, (jw_lost w n + f n)%nat |}.

Definition ctl_runs (f : gmap nat phase → gmap nat phase) (c : ctl) : ctl :=
  {| ct_stop := ct_stop c; ct_pending := ct_pending c; ct_runs := f (ct_runs c) |}.
Definition ctl_pending (l : list nat) (c : ctl) : ctl := {| ct_stop := ct_stop c; ct_pending := l; ct_runs := ct_runs c |}.
Definition stopped (why : stop_cause) (c : ctl) : ctl :=
  {| ct_stop := match ct_stop c with Some x => Some x | None => Some why end; ct_pending := ct_pending c; ct_runs := ct_runs c |}.

(** The goroutine of run [n] goes on to [ph], or returns. *)
Definition goes (n : nat) (ph : phase) (w : jworld) : jworld := with_ctl (ctl_runs <[n := ph]> <$> jw_ctl w) w.
Definition returns (n : nat) (w : jworld) : jworld := with_ctl (ctl_runs (delete n) <$> jw_ctl w) w.
Definition stops (why : stop_cause) (w : jworld) : jworld := with_ctl (stopped why <$> jw_ctl w) w.

Definition update_run (n : nat) (f : JobRun → JobRun) (j : jobRecord) : jobRecord := set_runs (alter f n (jb_Runs j)) j.
Definition phase_of (w : jworld) (n : nat) : option phase := c ← jw_ctl w; ct_runs c !! n.
Definition is_made (ph : option phase) : bool := match ph with Some (Ph_made _) => true | _ => false end.
Definition stop_of (w : jworld) : option stop_cause := c ← jw_ctl w; ct_stop c.
Definition retries_of (w : jworld) : Z := js_Retries (jb_Spec (jw_job w)).

Definition cancelledOutcome (why : stop_cause) : outcome :=
  outcome_of RunCancelled (match why with stop_revoked => reasonOwnerRevoked | _ => "" end).

(** What follows a failure when the context may have ended: cancelled or
    interrupted, else [other]. *)
Definition unless_stopping (n : nat) (down : list string) (other : jworld → option jworld) (w : jworld) : option jworld :=
  match stop_of w with
  | None => other w
  | Some stop_gateway => Some (returns n w)
  | Some why => Some (goes n (Ph_came (cancelledOutcome why)) (foldr take_down w down))
  end.

(** ** The steps *)

(** [attempt], up to the owner's check and what a create needs. *)
Definition begin_attempt (n : nat) (node_found : bool) (r : readiness) (w : jworld) : option jworld :=
  run ← jb_Runs (jw_job w) !! n;
  if String.eqb (jn_State run) RunRunning && negb (String.eqb (jn_Sandbox run) "") then
    match jn_Started run with
    | Some t =>
        if jn_PID run =? 0 then Some (goes n (Ph_came (failed "stopped before the command")) (take_down (jn_Sandbox run) w))
        else if node_found then Some (goes n (Ph_watch (jn_Sandbox run) (jn_PID run) t) w)
        else Some (goes n (Ph_came (failed "the sandbox ended unwatched")) w)
    | None => Some (goes n (Ph_came (failed "stopped before the command")) (take_down (jn_Sandbox run) w))
    end
  else
    unless_stopping n [] (λ w,
      match r with
      | R_store_failed => Some (returns n w)
      | R_no_access recorded =>
          let w := if recorded then with_job (λ j, fst (revoke_job j)) w else w in
          Some (goes n (Ph_came (outcome_of RunCancelled reasonOwnerRevoked)) (stops stop_revoked w))
      | R_not_ready why => Some (goes n (Ph_came (counted_failure true why)) w)
      | R_ready => Some (goes n Ph_create w)
      end) w.

Definition refused_create (n : nat) (transient : bool) (why : string) : jworld → option jworld :=
  unless_stopping n [] (λ w, Some (if transient then w else goes n (Ph_came (counted_failure false why)) w)).

Definition recorded_made (n : nat) (sb : string) (ok : bool) (w : jworld) : jworld :=
  if ok then goes n (Ph_recorded sb) (with_job (update_run n (record_made sb)) w)
  else goes n (Ph_came (failed "recording the run failed")) (lose (λ m, if decide (m = n) then 1 else 0)%nat (take_down sb w)).

Definition start_process (n : nat) (sb : string) (node_found : bool) (pid : option Z) (why : string) (w : jworld) : option jworld :=
  if negb node_found then Some (goes n (Ph_came (failed "the run's node is not answering")) w)
  else match pid with
       | Some pid => Some (goes n (Ph_started sb pid) w)
       | None => unless_stopping n [sb] (λ w, Some (goes n (Ph_came (failed why)) (take_down sb w))) w
       end.

Definition recorded_started (n : nat) (sb : string) (pid now : Z) (ok : bool) (w : jworld) : jworld :=
  if ok then goes n (Ph_watch sb pid now) (with_job (update_run n (record_started pid now)) w)
  else goes n (Ph_came (failed "recording the run failed")) (take_down sb w).

(** [watch]: the end of the process, the deadline, the sandbox gone, its node
    lost, or the context ended. *)
Definition exited (code : Z) : outcome := {|
  ou_state := if code =? 0 then RunSucceeded else RunFailed; ou_exit := Some code; ou_err := if code =? 0 then "" else "exited";
  ou_truncated := false; ou_files := []; ou_counted := false; ou_final := false |}.
Definition watch_ends (n : nat) (sb : string) (o : watched) (w : jworld) : option jworld :=
  match o with
  | W_exit code => Some (goes n (Ph_came (exited code)) (take_down sb w))
  | W_stopped => unless_stopping n [sb] (λ _, None) w
  | W_deadline => match stop_of w with None => Some (goes n (Ph_came (outcome_of RunTimedOut "timed out")) (take_down sb w)) | Some _ => None end
  | W_gone => match stop_of w with None => Some (goes n (Ph_came (failed "gone")) (take_down sb w)) | Some _ => None end
  | W_lost => match stop_of w with None => Some (goes n (Ph_came (failed "lost")) (take_down sb w)) | Some _ => None end
  end.

(** [runOne]'s write of an attempt's end; a run back to queued tries again. *)
Definition write_outcome (n : nat) (now : Z) (o : outcome) (ok : bool) (w : jworld) : option jworld :=
  run ← jb_Runs (jw_job w) !! n;
  if negb ok then Some (returns n w)
  else
    let live := negb (bool_decide (is_Some (stop_of w))) in
    let w' := with_job (update_run n (record_outcome (retries_of w) live now o)) w in
    Some (if may_retry (retries_of w) live o run then goes n Ph_begin w' else returns n w').

(** [runJob] with no run in flight: a job stopped by the gateway is left. *)
Definition finish (now : Z) (ok : bool) (w : jworld) : jworld :=
  with_ctl None (if ok && match stop_of w with Some stop_gateway => false | _ => true end then with_job (finish_job now) w else w).

(** [startJob] and the reads of [runJob]: a cancel that was asked is finished. *)
Definition started_ctl (j : jobRecord) : ctl := {|
  ct_stop := if jb_Cancelled j then Some (if String.eqb (jb_Error j) reasonOwnerRevoked then stop_revoked else stop_cancelled) else None;
  ct_pending := pending (jb_Runs j); ct_runs := ∅ |}.

Definition job_step (e : job_event) (w : jworld) : option jworld :=
  match e with
  | J_start =>
      match jw_ctl w with
      | None => if String.eqb (jb_State (jw_job w)) JobRunning then Some (with_ctl (Some (started_ctl (jw_job w))) w) else None
      | Some _ => None
      end
  | J_take =>
      c ← jw_ctl w;
      match ct_pending c with
      | n :: l => if Z.of_nat (size (ct_runs c)) <? js_Parallelism (jb_Spec (jw_job w))
                  then Some (with_ctl (Some (ctl_runs <[n := Ph_begin]> (ctl_pending l c))) w) else None
      | [] => None
      end
  | J_break =>
      c ← jw_ctl w;
      match ct_stop c, ct_pending c with Some _, _ :: _ => Some (with_ctl (Some (ctl_pending [] c)) w) | _, _ => None end
  | J_unread n => match phase_of w n with Some Ph_begin => Some (returns n w) | _ => None end
  | J_begin n found r => match phase_of w n with Some Ph_begin => begin_attempt n found r w | _ => None end
  | J_created n sb =>
      match phase_of w n with
      | Some Ph_create => if String.eqb sb "" then None else Some (goes n (Ph_made sb) (now_made n sb w))
      | _ => None
      end
  | J_refused n transient why => match phase_of w n with Some Ph_create => refused_create n transient why w | _ => None end
  | J_record_made n ok => match phase_of w n with Some (Ph_made sb) => Some (recorded_made n sb ok w) | _ => None end
  | J_start_process n found pid why => match phase_of w n with Some (Ph_recorded sb) => start_process n sb found pid why w | _ => None end
  | J_record_started n now ok => match phase_of w n with Some (Ph_started sb pid) => Some (recorded_started n sb pid now ok w) | _ => None end
  | J_watched n o => match phase_of w n with Some (Ph_watch sb _ _) => watch_ends n sb o w | _ => None end
  | J_write n now ok => match phase_of w n with Some (Ph_came o) => write_outcome n now o ok w | _ => None end
  | J_finish now ok =>
      c ← jw_ctl w; if bool_decide (ct_pending c = []) && bool_decide (ct_runs c = ∅) then Some (finish now ok w) else None
  | J_cancel => Some (stops stop_cancelled (with_job (λ j, set_cancel (jb_Error j) j) w))
  | J_revoke ok => Some (stops stop_revoked (if ok then with_job (λ j, fst (revoke_job j)) w else w))
  | J_stop => Some (stops stop_gateway w)
  | J_kill => Some (with_ctl None (lose (λ n, if is_made (phase_of w n) then 1 else 0)%nat w))
  end.

Fixpoint job_run (es : list job_event) (w : jworld) : option jworld :=
  match es with [] => Some w | e :: es => w ← job_step e w; job_run es w end.

Definition job_initial (j : jobRecord) : jworld := {| jw_job := j; jw_ctl := None; jw_made := []; jw_down := []; jw_lost := λ _, O |}.

(** ** One run's part of the world *)
Record view := { v_run : option JobRun; v_phase : option phase; v_pend : bool; v_made : nat; v_lost : nat }.
Definition is_pending (w : jworld) (n : nat) : bool := match jw_ctl w with Some c => bool_decide (n ∈ ct_pending c) | None => false end.
Definition made_for (n : nat) (l : list (nat * string)) : nat := length (List.filter (λ x, Nat.eqb x.1 n) l).
Definition view_at (w : jworld) (n : nat) : view := {|
  v_run := jb_Runs (jw_job w) !! n; v_phase := phase_of w n; v_pend := is_pending w n;
  v_made := made_for n (jw_made w); v_lost := jw_lost w n |}.

Definition open_run (r : JobRun) : Prop := jn_State r = RunQueued ∨ jn_State r = RunRunning.
(** A run's attempts are within its retries; one under way has a sandbox; one
    that is final says when it ended. *)
Definition run_wf (retries : Z) (r : JobRun) : Prop :=
  0 ≤ jn_Attempts r ∧
  (jn_State r = RunQueued ∧ jn_Attempts r ≤ retries ∨
   jn_State r = RunRunning ∧ jn_Attempts r ≤ retries + 1 ∧ jn_Sandbox r ≠ ""%string ∨
   runFinal (jn_State r) = true ∧ jn_Attempts r ≤ retries + 1 ∧ is_Some (jn_Finished r)).
Definition fits (ph : option phase) (r : JobRun) : Prop :=
  match ph with
  | None => True
  | Some Ph_begin => open_run r
  | Some Ph_create => jn_State r = RunQueued
  | Some (Ph_made sb) => jn_State r = RunQueued ∧ sb ≠ ""%string
  | Some (Ph_recorded sb) | Some (Ph_started sb _) => jn_State r = RunRunning ∧ jn_Sandbox r = sb
  | Some (Ph_watch sb pid t) => jn_State r = RunRunning ∧ jn_Sandbox r = sb ∧ jn_PID r = pid ∧ jn_Started r = Some t
  | Some (Ph_came o) => runFinal (ou_state o) = true ∧ open_run r ∧ (ou_counted o = true → jn_State r = RunQueued)
  end.
Definition view_ok (retries : Z) (n : nat) (v : view) : Prop :=
  match v_run v with
  | None => v_phase v = None ∧ v_pend v = false ∧ v_made v = O
  | Some r =>
      jn_N r = n ∧ run_wf retries r ∧ fits (v_phase v) r ∧ (v_pend v = true → v_phase v = None ∧ open_run r) ∧
      Z.of_nat (v_made v) ≤ jn_Attempts r + Z.of_nat (v_lost v) + (if is_made (v_phase v) then 1 else 0)
  end.

(** How a job that is over came to be so. *)
Definition ended_ok (j : jobRecord) : Prop :=
  jb_State j = JobRunning ∨
  (∀ r, r ∈ jb_Runs j → runFinal (jn_State r) = true) ∧ is_Some (jb_Finished j) ∧
  (jb_State j = JobSucceeded ∧ (∀ r, r ∈ jb_Runs j → jn_State r = RunSucceeded) ∨
   (jb_State j = JobFailed ∨ jb_State j = JobCancelled ∧ jb_Cancelled j = true) ∧ ∃ r, r ∈ jb_Runs j ∧ jn_State r ≠ RunSucceeded).

Record JInv (w : jworld) : Prop := {
  ji_retries : 0 ≤ retries_of w;
  ji_view n : view_ok (retries_of w) n (view_at w n);
  ji_ctl : is_Some (jw_ctl w) → jb_State (jw_job w) = JobRunning;
  ji_pending c : jw_ctl w = Some c → NoDup (ct_pending c);
  ji_ended : ended_ok (jw_job w)
}.

(** ** Steps change one run at a time *)
Lemma runs_update n f j : jb_Runs (update_run n f j) = alter f n (jb_Runs j).
Proof. by destruct j. Qed.
Lemma state_update n f j : jb_State (update_run n f j) = jb_State j.
Proof. by destruct j. Qed.
Lemma spec_update n f j : jb_Spec (update_run n f j) = jb_Spec j.
Proof. by destruct j. Qed.
Lemma revoke_keeps j : jb_Runs (fst (revoke_job j)) = jb_Runs j ∧ jb_State (fst (revoke_job j)) = jb_State j ∧ jb_Spec (fst (revoke_job j)) = jb_Spec j.
Proof. unfold revoke_job. destruct (_ || _); [done|]. by destruct j. Qed.
Lemma cancel_keeps e j : jb_Runs (set_cancel e j) = jb_Runs j ∧ jb_State (set_cancel e j) = jb_State j ∧ jb_Spec (set_cancel e j) = jb_Spec j.
Proof. by destruct j. Qed.

Lemma phase_some w n ph : phase_of w n = Some ph → ∃ c, jw_ctl w = Some c ∧ ct_runs c !! n = Some ph.
Proof. unfold phase_of. destruct (jw_ctl w) as [c|]; [|done]. intros H. by exists c. Qed.

(** What the run [n] of a controlled job is like, in a phase. *)
Lemma JInv_phase w n ph : JInv w → phase_of w n = Some ph →
  ∃ c r, jw_ctl w = Some c ∧ ct_runs c !! n = Some ph ∧ jb_State (jw_job w) = JobRunning ∧ jb_Runs (jw_job w) !! n = Some r ∧ jn_N r = n ∧
    run_wf (retries_of w) r ∧ fits (Some ph) r ∧ (n ∉ ct_pending c) ∧
    Z.of_nat (made_for n (jw_made w)) ≤ jn_Attempts r + Z.of_nat (jw_lost w n) + (if is_made (Some ph) then 1 else 0).
Proof.
  intros Hi Hp. destruct (phase_some _ _ _ Hp) as (c & Hc & Hr). pose proof (ji_view w Hi n) as Hv.
  unfold view_ok, view_at in Hv. cbn in Hv. rewrite Hp in Hv. destruct (jb_Runs (jw_job w) !! n) as [r|] eqn:Er; [|by destruct Hv].
  destruct Hv as (Hn & Hwf & Hf & Hpend & Hm). exists c, r. split_and!; try done.
  - apply (ji_ctl w Hi). by rewrite Hc.
  - unfold is_pending in Hpend. rewrite Hc in Hpend. intros Hin. destruct (Hpend ltac:(by apply bool_decide_eq_true)) as [? _]. done.
Qed.

(** A step that leaves the other runs as they are. *)
Lemma JInv_local n w w' :
  JInv w → is_Some (jw_ctl w) → jb_Spec (jw_job w') = jb_Spec (jw_job w) → jb_State (jw_job w') = jb_State (jw_job w) →
  (∀ c', jw_ctl w' = Some c' → NoDup (ct_pending c')) → (∀ m, m ≠ n → view_at w' m = view_at w m) →
  view_ok (retries_of w) n (view_at w' n) → JInv w'.
Proof.
  intros Hi Hc Hsp Hst Hp Hm Hn. pose proof (ji_ctl w Hi Hc) as Hrun. assert (retries_of w' = retries_of w) as Hret by (unfold retries_of; by rewrite Hsp).
  split.
  - rewrite Hret. by apply ji_retries.
  - intros m. rewrite Hret. destruct (decide (m = n)) as [->|Hne]; [done|]. rewrite (Hm m Hne). by apply ji_view.
  - intros _. by rewrite Hst.
  - done.
  - left. by rewrite Hst.
Qed.

(** The run's goroutine goes on, or returns, and its run's record may change
    with it. *)
Definition run_to (n : nat) (ph : option phase) (f : JobRun → JobRun) (w w' : jworld) : Prop :=
  jb_Spec (jw_job w') = jb_Spec (jw_job w) ∧ jb_State (jw_job w') = jb_State (jw_job w) ∧
  jb_Runs (jw_job w') = alter f n (jb_Runs (jw_job w)) ∧
  ∃ c c', jw_ctl w = Some c ∧ jw_ctl w' = Some c' ∧ ct_pending c' = ct_pending c ∧ ct_runs c' = partial_alter (λ _, ph) n (ct_runs c).

Lemma JInv_run_to n ph f w w' r k l :
  JInv w → run_to n ph f w w' → is_Some (phase_of w n) → jb_Runs (jw_job w) !! n = Some r →
  (∀ m, made_for m (jw_made w') = (made_for m (jw_made w) + if decide (m = n) then k else 0)%nat) →
  (∀ m, jw_lost w' m = (jw_lost w m + if decide (m = n) then l else 0)%nat) →
  jn_N (f r) = n → run_wf (retries_of w) (f r) → fits ph (f r) →
  jn_Attempts r + (if is_made (phase_of w n) then 1 else 0) + Z.of_nat k ≤ jn_Attempts (f r) + (if is_made ph then 1 else 0) + Z.of_nat l →
  JInv w'.
Proof.
  intros Hi (Hsp & Hst & Hr & c & c' & Hc & Hc' & Hpe & Hru) [ph0 Hph] Er Hmade Hlost Hn Hwf Hf Hcount.
  destruct (JInv_phase _ _ _ Hi Hph) as (c0 & r0 & Hc0 & Hru0 & _ & Er0 & _ & _ & _ & Hnp & Hm).
  rewrite Hc in Hc0. injection Hc0 as <-. rewrite Er in Er0. injection Er0 as <-.
  apply (JInv_local n w); [done|by rewrite Hc|done|done| | |].
  - intros c1 H1. rewrite Hc' in H1. injection H1 as <-. rewrite Hpe. by apply (ji_pending w Hi).
  - intros m Hne. unfold view_at, phase_of, is_pending. rewrite Hr, Hc, Hc', Hmade, Hlost. cbn. rewrite Hpe, Hru, !decide_False, !Nat.add_0_r by done.
    by rewrite list_lookup_alter_ne, lookup_partial_alter_ne.
  - unfold view_ok, view_at, phase_of, is_pending. rewrite Hr, Hc', Hmade, Hlost. cbn. rewrite Hpe, Hru, list_lookup_alter_eq, Er, !decide_True by done. cbn.
    rewrite lookup_partial_alter, decide_True by done. split_and!; [done..| |].
    + intros Hin%bool_decide_eq_true. done.
    + rewrite Hph in Hcount. lia.
Qed.

(** ** Every step keeps it *)
Lemma made_for_cons m n sb l : made_for m ((n, sb) :: l) = (made_for m l + if decide (m = n) then 1 else 0)%nat.
Proof.
  unfold made_for. cbn. destruct (Nat.eqb_spec n m) as [->|Hne].
  - rewrite decide_True by done. cbn. lia.
  - rewrite decide_False by congruence. lia.
Qed.

Lemma take_downs sbs w : jw_job (foldr take_down w sbs) = jw_job w ∧ jw_ctl (foldr take_down w sbs) = jw_ctl w ∧
  jw_made (foldr take_down w sbs) = jw_made w ∧ jw_lost (foldr take_down w sbs) = jw_lost w.
Proof. by induction sbs as [|sb sbs IH]. Qed.

(** The goroutine changes and the record does not. *)
Lemma JInv_goes n ph ph' w w' :
  JInv w → phase_of w n = Some ph → run_to n ph' id w w' → jw_made w' = jw_made w → jw_lost w' = jw_lost w →
  is_made ph' = is_made (Some ph) → (∀ r, jb_Runs (jw_job w) !! n = Some r → run_wf (retries_of w) r → fits (Some ph) r → fits ph' r) → JInv w'.
Proof.
  intros Hi Hp Hr Hm Hl Hmade Hf. destruct (JInv_phase _ _ _ Hi Hp) as (c & r & _ & _ & _ & Er & Hn & Hwf & Hfit & _ & _).
  apply (JInv_run_to n ph' id w w' r 0 0 Hi Hr ltac:(by rewrite Hp) Er); try done.
  - intros m. rewrite Hm. destruct (decide _); lia.
  - intros m. rewrite Hl. destruct (decide _); lia.
  - by apply Hf.
  - cbn. rewrite Hp, Hmade. lia.
Qed.

Ltac run_to_ok c Hc :=
  unfold run_to; cbn; rewrite ?Hc; split_and!;
  [done|done|by rewrite ?list_alter_id|exists c; eexists; split_and!; [done|reflexivity|done|done]].

Lemma run_to_same n ph c w w' : jw_ctl w = Some c → jw_job w' = jw_job w →
  (∃ c', jw_ctl w' = Some c' ∧ ct_pending c' = ct_pending c ∧ ct_runs c' = partial_alter (λ _, ph) n (ct_runs c)) → run_to n ph id w w'.
Proof.
  intros Hc Hj (c' & Hc' & Hp & Hr). unfold run_to. rewrite Hj. split_and!; [done..| |by exists c, c'].
  symmetry. apply list_eq. intros i. destruct (decide (i = n)) as [->|Hne].
  - rewrite list_lookup_alter_eq. by destruct (_ !! _).
  - by rewrite list_lookup_alter_ne.
Qed.

Lemma goes_run_to n ph sbs w : is_Some (jw_ctl w) → run_to n (Some ph) id w (goes n ph (foldr take_down w sbs)).
Proof.
  intros [c Hc]. destruct (take_downs sbs w) as (Hj & Hct & _). apply (run_to_same n _ c); [done|done|].
  cbn. rewrite Hct, Hc. by eexists.
Qed.
Lemma returns_run_to n w : is_Some (jw_ctl w) → run_to n None id w (returns n w).
Proof. intros [c Hc]. apply (run_to_same n _ c); [done|done|]. cbn. rewrite Hc. by eexists. Qed.

Lemma JInv_goes_down n ph ph' sbs w :
  JInv w → phase_of w n = Some ph → is_made (Some ph') = is_made (Some ph) →
  (∀ r, jb_Runs (jw_job w) !! n = Some r → run_wf (retries_of w) r → fits (Some ph) r → fits (Some ph') r) → JInv (goes n ph' (foldr take_down w sbs)).
Proof.
  intros Hi Hp Hm Hf. destruct (phase_some _ _ _ Hp) as (c & Hc & _). destruct (take_downs sbs w) as (_ & _ & H1 & H2).
  apply (JInv_goes n ph (Some ph') w); [done|done|apply goes_run_to; by rewrite Hc|done|done|done|done].
Qed.
Lemma JInv_returns n ph w : JInv w → phase_of w n = Some ph → is_made (Some ph) = false → JInv (returns n w).
Proof.
  intros Hi Hp Hm. destruct (phase_some _ _ _ Hp) as (c & Hc & _).
  apply (JInv_goes n ph None w); [done|done|apply returns_run_to; by rewrite Hc|done|done|done|done].
Qed.

Lemma JInv_unless_stopping n ph sbs other w w' :
  JInv w → phase_of w n = Some ph → is_made (Some ph) = false → (∀ r, fits (Some ph) r → open_run r) →
  (∀ w', other w = Some w' → JInv w') → unless_stopping n sbs other w = Some w' → JInv w'.
Proof.
  intros Hi Hp Hm Hf Ho. unfold unless_stopping. destruct (stop_of w) as [[]|]; intros E; [..|by apply Ho]; injection E as <-.
  - apply (JInv_goes_down n ph); [done..|]. intros r _ _ Hr. split_and!; [done|by apply Hf|done].
  - apply (JInv_goes_down n ph); [done..|]. intros r _ _ Hr. split_and!; [done|by apply Hf|done].
  - by apply (JInv_returns n ph).
Qed.

Lemma run_wf_open retries r : run_wf retries r → open_run r →
  jn_State r = RunQueued ∧ jn_Attempts r ≤ retries ∨ jn_State r = RunRunning ∧ jn_Attempts r ≤ retries + 1 ∧ jn_Sandbox r ≠ ""%string.
Proof. intros [_ [?|[?|[Hf _]]]] Ho; [by left|by right|]. by destruct Ho as [E|E]; rewrite E in Hf. Qed.

Lemma final_not_open (o : Prop) r : runFinal (jn_State r) = true → open_run r → o.
Proof. by intros Hf [E|E]; rewrite E in Hf. Qed.

(** A step that writes the run's record as it moves the goroutine. *)
Lemma JInv_recorded n ph ph' f w w' :
  JInv w → phase_of w n = Some ph → run_to n ph' f w w' → jw_made w' = jw_made w →
  (∃ l, (∀ m, jw_lost w' m = (jw_lost w m + if decide (m = n) then l else 0)%nat) ∧
    ∀ r, run_wf (retries_of w) r → fits (Some ph) r → jn_N r = n →
      jn_N (f r) = n ∧ run_wf (retries_of w) (f r) ∧ fits ph' (f r) ∧
      jn_Attempts r + (if is_made (Some ph) then 1 else 0) ≤ jn_Attempts (f r) + (if is_made ph' then 1 else 0) + Z.of_nat l) → JInv w'.
Proof.
  intros Hi Hp Hr Hm (l & Hl & Hf). destruct (JInv_phase _ _ _ Hi Hp) as (c & r & _ & _ & _ & Er & Hn & Hwf & Hfit & _ & _).
  destruct (Hf r Hwf Hfit Hn) as (H1 & H2 & H3 & H4).
  apply (JInv_run_to n ph' f w w' r 0 l Hi Hr ltac:(by rewrite Hp) Er); try done.
  - intros m. rewrite Hm. destruct (decide _); lia.
  - rewrite Hp. cbn [is_made] in *. lia.
Qed.

Lemma JInv_begin n found r w w' : JInv w → phase_of w n = Some Ph_begin → begin_attempt n found r w = Some w' → JInv w'.
Proof.
  intros Hi Hp. destruct (JInv_phase _ _ _ Hi Hp) as (c & run & Hc & _ & _ & Er & Hn & Hwf & Hfit & _ & _). unfold begin_attempt. rewrite Er. cbn.
  destruct (run_wf_open _ _ Hwf Hfit) as [[Es _]|(Es & _ & Hsb)].
  - rewrite Es. cbn. apply (JInv_unless_stopping n Ph_begin []); [done..|]. intros w1 E. destruct r; injection E as <-.
    + by apply (JInv_returns n Ph_begin).
    + apply (JInv_goes n Ph_begin (Some (Ph_came (outcome_of RunCancelled reasonOwnerRevoked))) w);
        [done|done| |by destruct recorded|by destruct recorded|done|by intros r _ _ Hr; split_and!].
      destruct (revoke_keeps (jw_job w)) as (H1 & H2 & H3). unfold run_to. destruct recorded; cbn; rewrite Hc; cbn.
      * rewrite H1, H2, H3. split_and!; [done..| |by eexists _, _]. symmetry. apply list_alter_id. done.
      * split_and!; [done..| |by eexists _, _]. symmetry. by apply list_alter_id.
    + apply (JInv_goes_down n Ph_begin _ []); [done..|]. intros r0 E0 _ Hr. rewrite Er in E0. injection E0 as <-. by split_and!.
    + apply (JInv_goes_down n Ph_begin _ []); [done..|]. intros r0 E0 _ Hr. rewrite Er in E0. by injection E0 as <-.
  - rewrite Es. cbn. apply String.eqb_neq in Hsb. rewrite Hsb. cbn.
    assert (∀ ph sbs, Some (goes n ph (foldr take_down w sbs)) = Some w' → is_made (Some ph) = false → fits (Some ph) run → JInv w') as Hgo.
    { intros ph sbs E Hm Hf. injection E as <-. apply (JInv_goes_down n Ph_begin); [done..|]. intros r0 E0 _ _. rewrite Er in E0. by injection E0 as <-. }
    assert (∀ e, fits (Some (Ph_came (failed e))) run) as Hf by (intros e; split_and!; [done|by right|done]).
    destruct (jn_Started run) eqn:Est; [destruct (Z.eqb_spec (jn_PID run) 0); [|destruct found]|]; intros E.
    + by apply (Hgo _ [jn_Sandbox run] E).
    + by apply (Hgo _ [] E).
    + by apply (Hgo _ [] E).
    + by apply (Hgo _ [jn_Sandbox run] E).
Qed.

Lemma JInv_created n sb w : JInv w → phase_of w n = Some Ph_create → sb ≠ ""%string → JInv (goes n (Ph_made sb) (now_made n sb w)).
Proof.
  intros Hi Hp Hsb. destruct (JInv_phase _ _ _ Hi Hp) as (c & r & Hc & _ & _ & Er & Hn & Hwf & Hfit & _ & _).
  apply (JInv_run_to n (Some (Ph_made sb)) id w _ r 1 0); try done.
  - apply (run_to_same n _ c); [done|done|]. cbn. rewrite Hc. by eexists.
  - intros m. cbn. apply made_for_cons.
  - intros m. cbn. destruct (decide _); lia.
  - rewrite Hp. cbn. lia.
Qed.

Lemma JInv_refused n transient why w w' : JInv w → phase_of w n = Some Ph_create → refused_create n transient why w = Some w' → JInv w'.
Proof.
  intros Hi Hp. apply (JInv_unless_stopping n Ph_create []); [done..|by left|]. intros w1 E. destruct transient; injection E as <-; [done|].
  apply (JInv_goes_down n Ph_create _ []); [done..|]. intros r _ _ Hr. split_and!; [done|by left|done].
Qed.

Lemma run_to_job n ph f c w w' : jw_ctl w = Some c → jw_job w' = update_run n f (jw_job w) →
  (∃ c', jw_ctl w' = Some c' ∧ ct_pending c' = ct_pending c ∧ ct_runs c' = partial_alter (λ _, ph) n (ct_runs c)) → run_to n ph f w w'.
Proof.
  intros Hc Hj (c' & Hc' & Hp & Hr). unfold run_to. rewrite Hj, spec_update, state_update, runs_update. split_and!; [done..|by exists c, c'].
Qed.

Lemma JInv_record_made n sb ok w : JInv w → phase_of w n = Some (Ph_made sb) → JInv (recorded_made n sb ok w).
Proof.
  intros Hi Hp. destruct (phase_some _ _ _ Hp) as (c & Hc & _). destruct ok; cbn.
  - apply (JInv_recorded n (Ph_made sb) (Some (Ph_recorded sb)) (record_made sb) w); [done|done| |done|].
    + apply (run_to_job n _ _ c); [done|done|]. cbn. rewrite Hc. by eexists.
    + exists 0%nat. split; [intros m; cbn; destruct (decide _); lia|]. intros r [H0 Hwf] [Hq Hsb] Hn. cbn.
      destruct (run_wf_open _ _ (conj H0 Hwf) (or_introl Hq)) as [[_ ?]|[Hr _]]; [|by rewrite Hq in Hr].
      split_and!; [done| |done|done|lia]. split; cbn; [lia|]. right; left. split_and!; [done|lia|done].
  - apply (JInv_recorded n (Ph_made sb) (Some (Ph_came (failed "recording the run failed"))) id w); [done|done| |done|].
    + apply (run_to_same n _ c); [done|done|]. cbn. rewrite Hc. by eexists.
    + exists 1%nat. split; [intros m; cbn; destruct (decide _); lia|]. intros r Hwf [Hq Hsb] Hn. cbn.
      split_and!; [done..|by left|done|lia].
Qed.

Lemma JInv_start_process n sb found pid why w w' : JInv w → phase_of w n = Some (Ph_recorded sb) → start_process n sb found pid why w = Some w' → JInv w'.
Proof.
  intros Hi Hp. unfold start_process. destruct found; cbn; [destruct pid as [pid|]|]; intros E.
  - injection E as <-. apply (JInv_goes_down n (Ph_recorded sb) _ []); done.
  - revert E. apply (JInv_unless_stopping n (Ph_recorded sb)); [done..|by intros r [? _]; right|]. intros w1 E. injection E as <-.
    apply (JInv_goes_down n (Ph_recorded sb) _ [sb]); [done..|]. intros r _ _ [? _]. split_and!; [done|by right|done].
  - injection E as <-. apply (JInv_goes_down n (Ph_recorded sb) _ []); [done..|]. intros r _ _ [? _]. split_and!; [done|by right|done].
Qed.

Lemma JInv_record_started n sb pid now ok w : JInv w → phase_of w n = Some (Ph_started sb pid) → JInv (recorded_started n sb pid now ok w).
Proof.
  intros Hi Hp. destruct (phase_some _ _ _ Hp) as (c & Hc & _). destruct ok; cbn.
  - apply (JInv_recorded n (Ph_started sb pid) (Some (Ph_watch sb pid now)) (record_started pid now) w); [done|done| |done|].
    + apply (run_to_job n _ _ c); [done|done|]. cbn. rewrite Hc. by eexists.
    + exists 0%nat. split; [intros m; cbn; destruct (decide _); lia|]. intros r [H0 Hwf] [Hs Hsb] Hn. cbn. split_and!; [done| |done..|lia].
      split; cbn; [done|]. rewrite Hs in *. destruct Hwf as [[? _]|[Hwf|[? _]]]; [done|by right; left|done].
  - apply (JInv_goes_down n (Ph_started sb pid) _ [sb]); [done..|]. intros r _ _ [? _]. split_and!; [done|by right|done].
Qed.

Lemma JInv_watched n sb pid t o w w' : JInv w → phase_of w n = Some (Ph_watch sb pid t) → watch_ends n sb o w = Some w' → JInv w'.
Proof.
  intros Hi Hp. assert (∀ o', runFinal (ou_state o') = true → ou_counted o' = false → JInv (goes n (Ph_came o') (take_down sb w))) as Hgo.
  { intros o' Hf Hc. apply (JInv_goes_down n (Ph_watch sb pid t) _ [sb]); [done..|]. intros r _ _ [? _]. split_and!; [done|by right|by rewrite Hc]. }
  unfold watch_ends. destruct o as [code| | | |].
  - intros E. injection E as <-. apply Hgo; [|done]. cbn. by destruct (code =? 0).
  - destruct (stop_of w); intros E; [done|]. injection E as <-. by apply Hgo.
  - destruct (stop_of w); intros E; [done|]. injection E as <-. by apply Hgo.
  - destruct (stop_of w); intros E; [done|]. injection E as <-. by apply Hgo.
  - apply (JInv_unless_stopping n (Ph_watch sb pid t)); [done..|by intros r [? _]; right|done].
Qed.

Lemma record_outcome_wf retries live now o r : run_wf retries r → fits (Some (Ph_came o)) r →
  run_wf retries (record_outcome retries live now o r) ∧ (may_retry retries live o r = true → jn_State (record_outcome retries live now o r) = RunQueued).
Proof.
  intros Hwf (Hf & Ho & Hq). destruct (run_wf_open _ _ Hwf Ho) as [[Hs Ha]|(Hs & Ha & Hsb)]; destruct Hwf as [H0 _]; split.
  - unfold record_outcome. split; cbn; unfold attempts_after; [destruct (ou_counted o); lia|]. destruct (may_retry _ _ _ _) eqn:E.
    + left. split; [done|]. unfold may_retry, attempts_after in E. rewrite !andb_true_iff, Z.leb_le in E. by destruct E as [[_ ?] _].
    + right; right. split_and!; [done|destruct (ou_counted o); lia|done].
  - unfold record_outcome. cbn. by intros ->.
  - unfold record_outcome. split; cbn; unfold attempts_after; [destruct (ou_counted o); lia|]. destruct (may_retry _ _ _ _) eqn:E.
    + left. split; [done|]. unfold may_retry, attempts_after in E. rewrite !andb_true_iff, Z.leb_le in E. by destruct E as [[_ ?] _].
    + right; right. split_and!; [done| |done]. destruct (ou_counted o) eqn:Ec; [|done]. rewrite Hq in Hs; done.
  - unfold record_outcome. cbn. by intros ->.
Qed.

Lemma JInv_write n now o ok w w' : JInv w → phase_of w n = Some (Ph_came o) → write_outcome n now o ok w = Some w' → JInv w'.
Proof.
  intros Hi Hp. destruct (JInv_phase _ _ _ Hi Hp) as (c & r & Hc & _ & _ & Er & _). unfold write_outcome. rewrite Er. cbn [mbind option_bind].
  destruct ok; cbn [negb]; intros E; injection E as <-; [|by apply (JInv_returns n (Ph_came o))].
  set (live := negb _). set (ph' := if may_retry (retries_of w) live o r then Some Ph_begin else None).
  apply (JInv_run_to n ph' (record_outcome (retries_of w) live now o) w _ r 0 0); [done| |by rewrite Hp|done|..].
  - apply (run_to_job n _ _ c); [done|by destruct (may_retry _ _ _ _)|]. subst ph'. destruct (may_retry _ _ _ _); cbn; rewrite Hc; by eexists.
  - intros m. unfold made_for. by destruct (may_retry _ _ _ _), (decide _); rewrite Nat.add_0_r.
  - intros m. destruct (may_retry _ _ _ _), (decide _); cbn; lia.
  - destruct (JInv_phase _ _ _ Hi Hp) as (_ & r0 & _ & _ & _ & Er0 & Hn & _). rewrite Er in Er0. by injection Er0 as <-.
  - destruct (JInv_phase _ _ _ Hi Hp) as (_ & r0 & _ & _ & _ & Er0 & _ & Hwf & Hfit & _). rewrite Er in Er0. injection Er0 as <-. by apply record_outcome_wf.
  - destruct (JInv_phase _ _ _ Hi Hp) as (_ & r0 & _ & _ & _ & Er0 & _ & Hwf & Hfit & _). rewrite Er in Er0. injection Er0 as <-.
    subst ph'. destruct (may_retry _ _ _ _) eqn:E; [|done]. cbn. left. by apply record_outcome_wf.
  - rewrite Hp. subst ph'. cbn. unfold attempts_after. destruct (ou_counted o), (may_retry _ _ _ _); cbn; lia.
Qed.

(** ** The job as a whole *)
Lemma pending_elem n l : n ∈ pending l → ∃ r, r ∈ l ∧ jn_N r = n ∧ open_run r.
Proof.
  unfold pending. rewrite elem_of_app, !list_elem_of_fmap. intros [(r & -> & Hr)|(r & -> & Hr)]; apply list_elem_of_In, List.filter_In in Hr as [Hin Hs];
    unfold in_state in Hs; apply bool_decide_eq_true, list_elem_of_singleton in Hs; exists r; (split; [by apply list_elem_of_In|]); split; [done|by right|done|by left].
Qed.

Lemma NoDup_fmap_filter (P : JobRun → bool) l : NoDup (jn_N <$> l) → NoDup (jn_N <$> List.filter P l).
Proof.
  induction l as [|r l IH]; cbn; [done|]. rewrite NoDup_cons. intros [Hn Hl]. destruct (P r); [|by apply IH]. cbn. apply NoDup_cons. split; [|by apply IH].
  intros (r' & Heq & Hin%list_elem_of_In%List.filter_In)%list_elem_of_fmap. apply Hn. rewrite Heq. apply list_elem_of_fmap_2, list_elem_of_In. by destruct Hin.
Qed.

Lemma NoDup_pending l : NoDup (jn_N <$> l) → NoDup (pending l).
Proof.
  intros Hl. unfold pending. apply NoDup_app. split_and!; [by apply NoDup_fmap_filter| |by apply NoDup_fmap_filter].
  intros n (r & -> & [Hr Hs]%list_elem_of_In%List.filter_In)%list_elem_of_fmap (r' & Heq & [Hr' Hs']%list_elem_of_In%List.filter_In)%list_elem_of_fmap.
  apply list_elem_of_In, list_elem_of_lookup in Hr as [i Hi]. apply list_elem_of_In, list_elem_of_lookup in Hr' as [k Hk].
  assert (i = k) as <-. { eapply NoDup_lookup; [exact Hl|rewrite list_lookup_fmap, Hi; done|rewrite list_lookup_fmap, Hk; cbn; by rewrite Heq]. }
  rewrite Hi in Hk. injection Hk as <-. unfold in_state in Hs, Hs'. apply bool_decide_eq_true, list_elem_of_singleton in Hs, Hs'. by rewrite Hs in Hs'.
Qed.

Lemma JInv_numbers w i r : JInv w → jb_Runs (jw_job w) !! i = Some r → jn_N r = i.
Proof. intros Hi Er. pose proof (ji_view w Hi i) as Hv. unfold view_ok, view_at in Hv. cbn in Hv. rewrite Er in Hv. by destruct Hv as [? _]. Qed.

Lemma JInv_NoDup w : JInv w → NoDup (jn_N <$> jb_Runs (jw_job w)).
Proof.
  intros Hi. apply NoDup_alt. intros i k n Hin Hk. rewrite list_lookup_fmap in Hin, Hk.
  destruct (jb_Runs (jw_job w) !! i) as [r|] eqn:Er; [|done]. destruct (jb_Runs (jw_job w) !! k) as [r'|] eqn:Ek; [|done].
  apply (JInv_numbers _ _ _ Hi) in Er, Ek. cbn in Hin, Hk. congruence.
Qed.

Lemma JInv_start w : JInv w → jw_ctl w = None → jb_State (jw_job w) = JobRunning → JInv (with_ctl (Some (started_ctl (jw_job w))) w).
Proof.
  intros Hi Hc Hs. split; cbn; [exact (ji_retries w Hi)| |done| |by left].
  - intros n. pose proof (ji_view w Hi n) as Hv. unfold view_ok, view_at, phase_of, is_pending in *. cbn in *. rewrite Hc, ?lookup_empty in *. cbn in *.
    destruct (jb_Runs (jw_job w) !! n) as [r|] eqn:Er.
    + destruct Hv as (Hn & Hwf & _ & _ & Hm). split_and!; [done..| |done]. intros Hin%bool_decide_eq_true. split; [done|].
      destruct (pending_elem _ _ Hin) as (r' & [k Ek]%list_elem_of_lookup & Hn' & Ho). rewrite <- (JInv_numbers _ _ _ Hi Ek), Hn', Er in Ek. by injection Ek as <-.
    + destruct Hv as (_ & _ & Hm). split_and!; [done| |done]. apply bool_decide_eq_false. intros Hin.
      destruct (pending_elem _ _ Hin) as (r' & [k Ek]%list_elem_of_lookup & Hn' & Ho). by rewrite <- (JInv_numbers _ _ _ Hi Ek), Hn', Er in Ek.
  - intros c E. injection E as <-. cbn. by apply NoDup_pending, JInv_NoDup.
Qed.

Lemma JInv_take w c n l : JInv w → jw_ctl w = Some c → ct_pending c = n :: l → JInv (with_ctl (Some (ctl_runs <[n := Ph_begin]> (ctl_pending l c))) w).
Proof.
  intros Hi Hc Hp. pose proof (ji_pending w Hi c Hc) as Hnd. rewrite Hp in Hnd. apply NoDup_cons in Hnd as [Hnl Hnd].
  apply (JInv_local n w); [done|by rewrite Hc|done|done| | |].
  - intros c' E. injection E as <-. done.
  - intros m Hne. unfold view_at, phase_of, is_pending. cbn. rewrite Hc. cbn. rewrite lookup_insert_ne by done. f_equal. rewrite Hp.
    apply bool_decide_ext. rewrite elem_of_cons. naive_solver.
  - pose proof (ji_view w Hi n) as Hv. unfold view_ok, view_at, phase_of, is_pending in *. rewrite Hc in Hv. cbn in *. rewrite Hp in Hv.
    rewrite lookup_insert_eq. rewrite bool_decide_true in Hv by by left. destruct (jb_Runs (jw_job w) !! n) as [r|]; [|by destruct Hv as (_ & ? & _)].
    destruct Hv as (Hn & Hwf & Hf & Hpe & Hm). destruct (Hpe eq_refl) as [Hph Ho]. rewrite Hph in Hm. split_and!; [done..| |done].
    intros Hin%bool_decide_eq_true. done.
Qed.

(** Less is pending, or no goroutine is left. *)
Lemma view_ok_less retries n r ph ph' p made lost lost' :
  view_ok retries n {| v_run := r; v_phase := ph; v_pend := p; v_made := made; v_lost := lost |} →
  (ph' = ph ∧ lost' = lost ∨ ph' = None ∧ lost' = (lost + if is_made ph then 1 else 0)%nat) →
  view_ok retries n {| v_run := r; v_phase := ph'; v_pend := false; v_made := made; v_lost := lost' |}.
Proof.
  unfold view_ok. cbn. destruct r as [r|]; intros Hv [[-> ->]|[-> ->]]; try done.
  - destruct Hv as (? & ? & ? & ? & ?). by split_and!.
  - destruct Hv as (? & ? & ? & ? & ?). split_and!; [done..|]. cbn. destruct (is_made ph); lia.
  - by destruct Hv as (? & ? & ?).
  - by destruct Hv as (? & ? & ?).
Qed.

Lemma JInv_break w c : JInv w → jw_ctl w = Some c → JInv (with_ctl (Some (ctl_pending [] c)) w).
Proof.
  intros Hi Hc. split; cbn; [exact (ji_retries w Hi)| |intros _; by apply (ji_ctl w Hi); rewrite Hc|intros c' E; injection E as <-; by apply NoDup_nil|exact (ji_ended w Hi)].
  intros n. apply (view_ok_less _ _ _ (phase_of w n) _ (is_pending w n) _ (jw_lost w n)); [by apply (ji_view w Hi n)|]. left. by unfold phase_of; rewrite Hc.
Qed.

Lemma JInv_kill w : JInv w → JInv (with_ctl None (lose (λ n, if is_made (phase_of w n) then 1 else 0)%nat w)).
Proof.
  intros Hi. split; cbn; [exact (ji_retries w Hi)| |by intros [? ?]|done|exact (ji_ended w Hi)].
  intros n. apply (view_ok_less _ _ _ (phase_of w n) _ (is_pending w n) _ (jw_lost w n)); [by apply (ji_view w Hi n)|]. by right.
Qed.

(** The cancel's writes leave the runs alone. *)
Lemma JInv_cancel why f w : JInv w → jb_Runs (f (jw_job w)) = jb_Runs (jw_job w) → jb_State (f (jw_job w)) = jb_State (jw_job w) →
  jb_Spec (f (jw_job w)) = jb_Spec (jw_job w) → jb_Finished (f (jw_job w)) = jb_Finished (jw_job w) →
  (jb_Cancelled (jw_job w) = true → jb_Cancelled (f (jw_job w)) = true) → JInv (stops why (with_job f w)).
Proof.
  intros Hi Hr Hst Hsp Hfi Hca. assert (retries_of (stops why (with_job f w)) = retries_of w) as Hret by (unfold retries_of; cbn; by rewrite Hsp). split.
  - rewrite Hret. exact (ji_retries w Hi).
  - intros n. rewrite Hret. pose proof (ji_view w Hi n) as Hv. unfold view_at, phase_of, is_pending in *. cbn in *. rewrite Hr. destruct (jw_ctl w); exact Hv.
  - cbn. rewrite Hst. intros [c Hc]. apply (ji_ctl w Hi). by destruct (jw_ctl w).
  - cbn. intros c Hc. destruct (jw_ctl w) as [c0|] eqn:E0; [|done]. injection Hc as <-. by apply (ji_pending w Hi c0).
  - pose proof (ji_ended w Hi) as He. unfold ended_ok in *. cbn. rewrite Hr, Hst, Hfi. naive_solver.
Qed.

Lemma finish_run_final now why r : runFinal (jn_State (finish_run now why r)) = true.
Proof. unfold finish_run. destruct (runFinal (jn_State r)) eqn:E; [done|reflexivity]. Qed.
Lemma finish_run_wf now why retries r : run_wf retries r → run_wf retries (finish_run now why r).
Proof.
  intros Hwf. unfold finish_run. destruct (runFinal (jn_State r)) eqn:E; [done|]. destruct Hwf as [H0 Hwf]. split; cbn; [done|]. right; right.
  split_and!; [done|destruct Hwf as [[_ ?]|[(_ & ? & _)|[? _]]]; [lia|done|congruence]|destruct (jn_Finished r); by eexists].
Qed.

Lemma finish_job_ended now j : ended_ok (finish_job now j).
Proof.
  right. unfold finish_job. destruct j as [id us te sp en es st er ca cr fi runs]. cbn. split_and!; [|by eexists|].
  - intros r (r0 & -> & _)%list_elem_of_fmap. apply finish_run_final.
  - destruct (existsb not_succeeded (finish_run now er <$> runs)) eqn:E.
    + right. split; [rewrite andb_true_r; by destruct ca; [right|left]|]. apply existsb_exists in E as (r & Hin & Hn). exists r.
      split; [by apply list_elem_of_In|]. by apply String.eqb_neq, negb_true_iff.
    + left. rewrite andb_false_r. split; [done|]. intros r Hin. apply String.eqb_eq, negb_false_iff.
      destruct (not_succeeded r) eqn:En; [|done]. exfalso. apply not_true_iff_false in E. apply E, existsb_exists. exists r. split; [by apply list_elem_of_In|done].
Qed.

Lemma finish_job_parts now j : jb_Runs (finish_job now j) = (finish_run now (jb_Error j) <$> jb_Runs j) ∧ jb_Spec (finish_job now j) = jb_Spec j.
Proof. by destruct j. Qed.

Lemma JInv_finish now ok c w : JInv w → jw_ctl w = Some c → ct_pending c = [] → ct_runs c = ∅ → JInv (finish now ok w).
Proof.
  intros Hi Hc Hp Hr. unfold finish. destruct (ok && _).
  - assert (retries_of (with_ctl None (with_job (finish_job now) w)) = retries_of w) as Hret by (unfold retries_of; cbn; by rewrite (proj2 (finish_job_parts _ _))).
    split; [rewrite Hret; exact (ji_retries w Hi)| |by intros [? ?]|done|apply finish_job_ended].
    intros n. rewrite Hret. pose proof (ji_view w Hi n) as Hv. unfold view_ok, view_at, phase_of, is_pending in *. cbn in *.
    rewrite (proj1 (finish_job_parts _ _)), list_lookup_fmap. rewrite Hc in Hv. cbn in Hv. rewrite Hr, Hp, lookup_empty in Hv.
    destruct (jb_Runs (jw_job w) !! n) as [r|]; cbn in *; [|done]. destruct Hv as (Hn & Hwf & _ & _ & Hm). split_and!; [|by apply finish_run_wf|done..|].
    + unfold finish_run. by destruct (runFinal _).
    + unfold finish_run. by destruct (runFinal _).
  - split; cbn; [exact (ji_retries w Hi)| |by intros [? ?]|done|exact (ji_ended w Hi)].
    intros n. apply (view_ok_less _ _ _ (phase_of w n) _ (is_pending w n) _ (jw_lost w n)); [by apply (ji_view w Hi n)|].
    left. unfold phase_of. rewrite Hc. cbn. by rewrite Hr, lookup_empty.
Qed.

Theorem JInv_step e w w' : JInv w → job_step e w = Some w' → JInv w'.
Proof.
  intros Hi E. destruct e; cbn in E; repeat (match type of E with
    | match phase_of ?w ?n with _ => _ end = Some _ => destruct (phase_of w n) as [[]|] eqn:Hp; try discriminate E end).
  - destruct (jw_ctl w) eqn:Hc; [done|]. destruct (String.eqb_spec (jb_State (jw_job w)) JobRunning); [|done]. injection E as <-. by apply JInv_start.
  - destruct (jw_ctl w) as [c|] eqn:Hc; [cbn in E|done]. destruct (ct_pending c) as [|n l] eqn:Hp; [done|]. destruct (_ <? _); [|done]. injection E as <-. by apply JInv_take.
  - destruct (jw_ctl w) as [c|] eqn:Hc; [cbn in E|done]. destruct (ct_stop c), (ct_pending c); try done. injection E as <-. by apply JInv_break.
  - injection E as <-. by apply (JInv_returns n Ph_begin).
  - by apply (JInv_begin n node_found r w w').
  - destruct (String.eqb_spec sb ""); [done|]. injection E as <-. by apply JInv_created.
  - by apply (JInv_refused n transient why w w').
  - injection E as <-. by apply JInv_record_made.
  - by apply (JInv_start_process n sb node_found pid why w w').
  - injection E as <-. by apply JInv_record_started.
  - by apply (JInv_watched n sb pid started o w w').
  - by apply (JInv_write n now o ok w w').
  - destruct (jw_ctl w) as [c|] eqn:Hc; [cbn in E|done]. destruct (_ && _) eqn:Hb; [|done]. injection E as <-.
    apply andb_true_iff in Hb as [H1%bool_decide_eq_true H2%bool_decide_eq_true]. by apply (JInv_finish _ _ c).
  - injection E as <-. apply JInv_cancel; [done|..]; by destruct (jw_job w).
  - injection E as <-. destruct ok.
    + destruct (revoke_keeps (jw_job w)) as (H1 & H2 & H3). apply JInv_cancel; try done; unfold revoke_job; destruct (_ || _); by destruct (jw_job w).
    + by apply (JInv_cancel stop_revoked id w).
  - injection E as <-. by apply (JInv_cancel stop_gateway id w).
  - injection E as <-. by apply JInv_kill.
Qed.

Lemma JInv_run es w w' : JInv w → job_run es w = Some w' → JInv w'.
Proof.
  revert w. induction es as [|e es IH]; cbn; intros w Hi E; [by injection E as <-|]. apply bind_Some in E as (w1 & E1 & E). by apply (IH w1 (JInv_step _ _ _ Hi E1)).
Qed.

(** A job as it is submitted. *)
Definition fresh_job (j : jobRecord) : Prop :=
  0 ≤ js_Retries (jb_Spec j) ∧ jb_State j = JobRunning ∧ jb_Runs j = queued_run <$> seq 0 (length (jb_Runs j)).

Lemma JInv_fresh j : fresh_job j → JInv (job_initial j).
Proof.
  intros (Hret & Hs & Hr). split; cbn; [done| |by intros [? ?]|done|by left]. intros n. unfold view_ok, view_at. cbn. rewrite Hr, list_lookup_fmap.
  destruct (seq 0 _ !! n) as [i|] eqn:E; cbn; [|done]. apply lookup_seq in E as [-> _]. split_and!; [done| |done..]. split; cbn; [lia|]. by left.
Qed.
