(* ===== verification/JobEnds.v ===== *)
(** * What a job does over its life (internal/gateway/jobrun.go)

    What holds of a job however its controller's steps, the answers it gets and
    the gateway's stops and restarts come: how many attempts and sandboxes a run
    is given, what the job's end says, who may still make sandboxes, which
    sandboxes are left, and that the controller comes to an end. *)
From S2P Require Import Prelude GoStrings Api Spec Access Jobs JobRun.

(** Every branch of a step. *)
Ltac step_cases E :=
  cbn in E; unfold begin_attempt, refused_create, recorded_made, start_process, recorded_started, watch_ends, write_outcome, finish, unless_stopping in E;
  repeat (first
    [ discriminate E
    | progress cbn in E
    | apply bind_Some in E as (? & ? & E)
    | match type of E with
      | match ?x with _ => _ end = Some _ => destruct x eqn:?
      | Some (if ?x then _ else _) = Some _ => destruct x eqn:?
      | Some (goes _ _ (stops _ (if ?x then _ else _))) = Some _ => destruct x eqn:?
      | Some (finish _ ?x _) = Some _ => unfold finish in E
      | Some (stops _ (if ?x then _ else _)) = Some _ => destruct x eqn:?
      end ]);
  injection E as <-.

(** What no step changes. *)
Lemma job_step_same e w w' : job_step e w = Some w' →
  jb_Spec (jw_job w') = jb_Spec (jw_job w) ∧ length (jb_Runs (jw_job w')) = length (jb_Runs (jw_job w)).
Proof.
  intros E. destruct e; step_cases E; cbn; rewrite ?spec_update, ?runs_update, ?length_alter; try done.
  1, 4: by destruct (revoke_keeps (jw_job w)) as (-> & _ & ->).
  - destruct (ok && _); [|done]. cbn. destruct (finish_job_parts now (jw_job w)) as [-> ->]. by rewrite length_fmap.
  - by destruct (jw_job w).
Qed.
Lemma job_run_same es w w' : job_run es w = Some w' →
  jb_Spec (jw_job w') = jb_Spec (jw_job w) ∧ length (jb_Runs (jw_job w')) = length (jb_Runs (jw_job w)).
Proof.
  revert w. induction es as [|e es IH]; cbn; intros w E; [by injection E as <-|]. apply bind_Some in E as (w1 & E1 & E).
  destruct (job_step_same _ _ _ E1) as [<- <-]. by apply IH.
Qed.

(** The sandboxes a run may lose: one to each kill, one to each write that
    failed. *)
Definition loses (n : nat) (e : job_event) : nat :=
  match e with J_kill => 1 | J_record_made m false => if Nat.eqb m n then 1 else 0 | _ => 0 end.
Definition losses (n : nat) (es : list job_event) : nat := sum_list (loses n <$> es).

Lemma job_step_lost e w w' n : job_step e w = Some w' → (jw_lost w' n ≤ jw_lost w n + loses n e)%nat.
Proof.
  intros E. destruct e; step_cases E; cbn; rewrite ?Nat.add_0_r; try lia.
  - destruct (decide (n = n0)) as [->|]; [rewrite Nat.eqb_refl|]; lia.
  - by destruct (ok && _).
  - destruct (is_made _); lia.
Qed.
Lemma job_run_lost es w w' n : job_run es w = Some w' → (jw_lost w' n ≤ jw_lost w n + losses n es)%nat.
Proof.
  revert w. induction es as [|e es IH]; cbn; intros w E; [injection E as <-; lia|]. apply bind_Some in E as (w1 & E1 & E).
  pose proof (job_step_lost _ _ _ n E1). specialize (IH _ E). unfold losses in *. lia.
Qed.

(** What is known of each run of a submitted job, whatever has happened. *)
Lemma job_run_view j es w n r : fresh_job j → job_run es (job_initial j) = Some w → jb_Runs (jw_job w) !! n = Some r →
  jn_N r = n ∧ run_wf (js_Retries (jb_Spec j)) r ∧ Z.of_nat (made_for n (jw_made w)) ≤ js_Retries (jb_Spec j) + 1 + Z.of_nat (losses n es).
Proof.
  intros Hj E Er. pose proof (JInv_run _ _ _ (JInv_fresh j Hj) E) as Hi. pose proof (ji_view w Hi n) as Hv.
  pose proof (job_run_lost _ _ _ n E) as Hl. destruct (job_run_same _ _ _ E) as [Hsp _]. cbn in Hl, Hsp.
  unfold view_ok, view_at, retries_of in Hv. cbn in Hv. rewrite Er, Hsp in Hv. destruct Hv as (Hn & Hwf & Hf & _ & Hm). split_and!; [done..|].
  destruct (phase_of w n) as [[| | | | | |]|]; cbn [is_made] in Hm; destruct Hwf as [H0 [[Hs ?]|[(Hs & ? & _)|(Hs & ? & _)]]]; try lia;
    destruct Hf as [Hq _]; rewrite Hq in Hs; done.
Qed.

(** C29. Whatever a submitted job goes through — sandboxes refused, commands
    failing, nodes lost, writes that fail, cancels, the gateway stopped or
    killed and started again — each of its runs keeps its number, is attempted
    at most once more than the job's retries, and is given at most as many
    sandboxes, but for those whose record failed or was cut short by a kill;
    and once the job is over every run is final and says when it ended. *)
Theorem job_runs_bounded (j : jobRecord) (es : list job_event) (w : jworld) (n : nat) (r : JobRun)
    (Hj : fresh_job j) (Hw : job_run es (job_initial j) = Some w) (Hr : jb_Runs (jw_job w) !! n = Some r) :
  jn_N r = n ∧ 0 ≤ jn_Attempts r ≤ js_Retries (jb_Spec j) + 1 ∧
  Z.of_nat (made_for n (jw_made w)) ≤ js_Retries (jb_Spec j) + 1 + Z.of_nat (losses n es) ∧
  (jb_State (jw_job w) ≠ JobRunning → runFinal (jn_State r) = true ∧ is_Some (jn_Finished r)).
Proof.
  destruct (job_run_view _ _ _ _ _ Hj Hw Hr) as (Hn & [H0 Hwf] & Hm). split_and!; [done|done| |done|].
  - destruct Hwf as [[_ ?]|[(_ & ? & _)|(_ & ? & _)]]; lia.
  - intros Hs. destruct (ji_ended w (JInv_run _ _ _ (JInv_fresh j Hj) Hw)) as [?|(Hf & _)]; [done|].
    assert (runFinal (jn_State r) = true) as Hfin by (apply Hf; by eapply list_elem_of_lookup_2). split; [done|].
    destruct Hwf as [[Hq _]|[(Hq & _)|(_ & _ & ?)]]; [by rewrite Hq in Hfin..|done].
Qed.

(** A submitted job is running, or it is over and its state is what its
    runs came to: succeeded exactly where every run did, cancelled only where a
    cancel was recorded, failed otherwise; and it has as many runs as it was
    submitted with. *)
Theorem job_end_is_its_runs (j : jobRecord) (es : list job_event) (w : jworld)
    (Hj : fresh_job j) (Hw : job_run es (job_initial j) = Some w) :
  length (jb_Runs (jw_job w)) = length (jb_Runs j) ∧
  (jb_State (jw_job w) ∈ [JobRunning; JobSucceeded; JobFailed; JobCancelled]) ∧
  (jb_State (jw_job w) ≠ JobRunning →
    is_Some (jb_Finished (jw_job w)) ∧
    (jb_State (jw_job w) = JobSucceeded ↔ ∀ r, r ∈ jb_Runs (jw_job w) → jn_State r = RunSucceeded) ∧
    (jb_State (jw_job w) = JobCancelled → jb_Cancelled (jw_job w) = true)).
Proof.
  split; [by destruct (job_run_same _ _ _ Hw)|]. destruct (ji_ended w (JInv_run _ _ _ (JInv_fresh j Hj) Hw)) as [Hs|(_ & Hfi & He)].
  { rewrite Hs. split; [by left|done]. }
  destruct He as [[Hs Hall]|[[Hs|[Hs Hc]] (r & Hin & Hne)]]; rewrite Hs.
  - split; [set_solver|]. done.
  - split; [set_solver|]. intros _. split_and!; [done| |done]. split; [done|]. intros Hall. by destruct (Hne (Hall r Hin)).
  - split; [set_solver|]. intros _. split_and!; [done| |done]. split; [done|]. intros Hall. by destruct (Hne (Hall r Hin)).
Qed.

(** ** Who may make sandboxes *)
Definition asks (e : job_event) : bool := match e with J_begin _ _ R_ready => true | _ => false end.
Definition is_create (ph : option phase) : bool := match ph with Some Ph_create => true | _ => false end.
Definition may_make (w : jworld) (n : nat) : nat := (made_for n (jw_made w) + if is_create (phase_of w n) then 1 else 0)%nat.

Lemma phase_goes n ph w m : is_Some (jw_ctl w) → phase_of (goes n ph w) m = if decide (m = n) then Some ph else phase_of w m.
Proof.
  intros [c Hc]. unfold phase_of, goes. cbn. rewrite Hc. cbn. destruct (decide (m = n)) as [->|]; [by rewrite lookup_insert_eq|by rewrite lookup_insert_ne].
Qed.
Lemma phase_returns n w m : phase_of (returns n w) m = if decide (m = n) then None else phase_of w m.
Proof.
  unfold phase_of, returns. cbn. destruct (jw_ctl w); cbn; [|by destruct (decide _)].
  destruct (decide (m = n)) as [->|]; [by rewrite lookup_delete_eq|by rewrite lookup_delete_ne].
Qed.

(** The phases in a step's outcome, from those before it. *)
Ltac phases :=
  unfold phase_of, is_pending, stop_of, goes, returns, stops, started_ctl in *; cbn in *;
  repeat match goal with
  | H : mbind _ (jw_ctl ?w) = Some _ |- _ =>
      let c := fresh "c" in let Hc := fresh "Hc" in let Hl := fresh "Hl" in apply bind_Some in H as (c & Hc & Hl)
  end;
  repeat match goal with H1 : jw_ctl ?w = Some ?a, H2 : jw_ctl ?w = Some ?b |- _ => rewrite H1 in H2; injection H2 as H2; try subst b; try subst a end;
  repeat match goal with H : jw_ctl ?w = _, K : context[jw_ctl ?w] |- _ => lazymatch K with H => fail | _ => rewrite H in K; cbn in K end end;
  repeat match goal with H : jw_ctl ?w = _ |- _ => rewrite !H; clear H end; cbn.
Ltac at_run n m :=
  destruct (decide (m = n)) as [->|?]; rewrite ?lookup_insert_eq, ?lookup_delete_eq, ?lookup_insert_ne, ?lookup_delete_ne by done.

#[local] Arguments made_for : simpl never.

Lemma may_make_step e w w' m : asks e = false → job_step e w = Some w' → (may_make w' m ≤ may_make w m)%nat.
Proof.
  intros Ha E. unfold may_make. destruct e; step_cases E; cbn; rewrite ?made_for_cons; phases; try lia; try (at_run n m; try lia; (try match goal with H : ct_runs _ !! _ = Some _ |- _ => rewrite H; cbn; lia end)).
  - rewrite lookup_empty. cbn. lia.
  - cbn. lia.
  - destruct (ok && _); cbn; lia.
  - by destruct (jw_ctl w).
  - by destruct (jw_ctl w).
  - by destruct (jw_ctl w).
  - by destruct (jw_ctl w).
Qed.
Lemma may_make_run es w w' m : existsb asks es = false → job_run es w = Some w' → (may_make w' m ≤ may_make w m)%nat.
Proof.
  revert w. induction es as [|e es IH]; cbn; intros w Ha E; [by injection E as <-|]. apply orb_false_iff in Ha as [Ha1 Ha2].
  apply bind_Some in E as (w1 & E1 & E). pose proof (may_make_step _ _ _ m Ha1 E1). specialize (IH _ Ha2 E). lia.
Qed.
Lemma made_for_step e w w' m : job_step e w = Some w' → (made_for m (jw_made w) ≤ made_for m (jw_made w'))%nat.
Proof. intros E. destruct e; step_cases E; cbn; rewrite ?made_for_cons; try lia. by destruct (ok && _). Qed.
Lemma made_for_run es w w' m : job_run es w = Some w' → (made_for m (jw_made w) ≤ made_for m (jw_made w'))%nat.
Proof.
  revert w. induction es as [|e es IH]; cbn; intros w E; [by injection E as <-|].
  apply bind_Some in E as (w1 & E1 & E). pose proof (made_for_step _ _ _ m E1). specialize (IH _ E). lia.
Qed.

(** C15. From the moment no check of the owner's access succeeds any more,
    whatever else happens to the job — retries, restarts, cancels that fail to
    be written — no run is given another sandbox, but for the one answer each
    run already past its check may be waiting for; a gateway that was stopped
    then waits for none. *)
Theorem no_access_no_sandbox (w w' : jworld) (es : list job_event) (n : nat)
    (Hes : existsb asks es = false) (Hw : job_run es w = Some w') :
  (made_for n (jw_made w') ≤ made_for n (jw_made w) + if is_create (phase_of w n) then 1 else 0)%nat ∧
  (phase_of w n ≠ Some Ph_create → made_for n (jw_made w') = made_for n (jw_made w)) ∧
  (jw_ctl w = None → made_for n (jw_made w') = made_for n (jw_made w)).
Proof.
  pose proof (may_make_run _ _ _ n Hes Hw) as H. pose proof (made_for_run _ _ _ n Hw) as H'. unfold may_make in H. split_and!.
  - destruct (is_create (phase_of w' n)); lia.
  - intros Hp. assert (is_create (phase_of w n) = false) as E by (destruct (phase_of w n) as [[]|]; done). rewrite E in H. lia.
  - intros Hc. assert (is_create (phase_of w n) = false) as E by (unfold phase_of; by rewrite Hc). rewrite E in H. lia.
Qed.

(** ** Which sandboxes are left *)
Definition holds (ph : option phase) : option string :=
  match ph with Some (Ph_made sb) | Some (Ph_recorded sb) | Some (Ph_started sb _) | Some (Ph_watch sb _ _) => Some sb | _ => None end.

(** A sandbox made for the run [n] is gone, in its goroutine's hands, or its
    record's, which a goroutine is yet to read. *)
Definition resumable (w : jworld) (n : nat) : Prop :=
  jw_ctl w = None ∨ is_pending w n = true ∨ phase_of w n = Some Ph_begin ∨ phase_of w n = None ∧ stop_of w = Some stop_gateway.
Definition of_run (w : jworld) (n : nat) (sb : string) : Prop :=
  ∃ r, jb_Runs (jw_job w) !! n = Some r ∧ jn_State r = RunRunning ∧ jn_Sandbox r = sb.
Definition kept (w : jworld) (n : nat) (sb : string) : Prop :=
  sb ∈ jw_down w ∨ holds (phase_of w n) = Some sb ∨ of_run w n sb ∧ resumable w n.

(** The steps that leave none behind: every sandbox's node is found, every run
    is read, and neither a kill nor a cancel comes where the record does not say
    what there is to take down. *)
Definition tidy (e : job_event) (w : jworld) : Prop :=
  match e with
  | J_unread _ => False
  | J_begin _ found _ | J_start_process _ found _ _ => found = true
  | J_break => stop_of w = Some stop_gateway ∨ ∀ n r, is_pending w n = true → jb_Runs (jw_job w) !! n = Some r → jn_State r ≠ RunRunning
  | J_kill => ∀ n, is_made (phase_of w n) = false
  | _ => True
  end.
Fixpoint tidy_run (es : list job_event) (w : jworld) : Prop :=
  match es with [] => True | e :: es => tidy e w ∧ ∀ w', job_step e w = Some w' → tidy_run es w' end.

Lemma holds_record w n sb : JInv w → holds (phase_of w n) = Some sb → is_made (phase_of w n) = true ∨ of_run w n sb.
Proof.
  intros Hi Hh. destruct (phase_of w n) as [ph|] eqn:Hp; [|done]. destruct (JInv_phase _ _ _ Hi Hp) as (c & r & _ & _ & _ & Er & _ & _ & Hf & _).
  destruct ph; try done; [by left|..]; right; exists r; injection Hh as <-; naive_solver.
Qed.

Lemma holds_not_pending w n sb : JInv w → holds (phase_of w n) = Some sb → is_pending w n = false.
Proof.
  intros Hi Hh. destruct (phase_of w n) as [ph|] eqn:Hp; [|done]. destruct (JInv_phase _ _ _ Hi Hp) as (c & r & Hc & _ & _ & _ & _ & _ & _ & Hn & _).
  unfold is_pending. rewrite Hc. by apply bool_decide_eq_false.
Qed.
Lemma begin_not_pending w n ph : JInv w → phase_of w n = Some ph → is_pending w n = false.
Proof.
  intros Hi Hp. destruct (JInv_phase _ _ _ Hi Hp) as (c & r & Hc & _ & _ & _ & _ & _ & _ & Hn & _).
  unfold is_pending. rewrite Hc. by apply bool_decide_eq_false.
Qed.

Ltac kept_cases E Ht n m :=
  step_cases E; cbn in Ht |- *; unfold kept, of_run, resumable in *; phases; try (at_run n m); cbn; rewrite ?list_elem_of_singleton, ?elem_of_cons;
  repeat match goal with H : ct_runs ?c !! ?n = _, K : context[ct_runs ?c !! ?n] |- _ => lazymatch K with H => fail | _ => rewrite H in K; cbn in K end end;
  try naive_solver.

Definition is_stop (e : job_event) : bool := match e with J_cancel | J_revoke _ | J_stop => true | _ => false end.

Lemma kept_stops why f w m sb : jb_Runs (f (jw_job w)) = jb_Runs (jw_job w) → kept w m sb → kept (stops why (with_job f w)) m sb.
Proof.
  intros Hr. unfold kept, of_run, resumable, phase_of, is_pending, stop_of. cbn. rewrite Hr.
  destruct (jw_ctl w) as [c|]; cbn; [destruct (ct_stop c); cbn|]; naive_solver.
Qed.

(** A step passes on what a goroutine holds. *)
Lemma held_step e w w' m sb : JInv w → tidy e w → is_stop e = false → job_step e w = Some w' → holds (phase_of w m) = Some sb → kept w' m sb.
Proof.
  intros Hi Ht He E K. pose proof (holds_record _ _ _ Hi K) as Hr. pose proof (holds_not_pending _ _ _ Hi K) as Hnp.
  destruct e; try discriminate He; kept_cases E Ht n m.
  - apply bool_decide_eq_false in Hnp. rewrite Heql in Hnp. set_solver.
  - apply andb_true_iff in Heqb as [_ Hru%bool_decide_eq_true]. by rewrite Hru, lookup_empty in K.
  - specialize (Ht m). naive_solver congruence.
Qed.

(** A step of one run's goroutine leaves the others. *)
Definition event_run (e : job_event) : option nat :=
  match e with
  | J_unread n | J_begin n _ _ | J_created n _ | J_refused n _ _ | J_record_made n _ | J_start_process n _ _ _ | J_record_started n _ _
  | J_watched n _ | J_write n _ _ => Some n
  | _ => None
  end.
Lemma event_phase e w w' n : job_step e w = Some w' → event_run e = Some n → ∃ ph, phase_of w n = Some ph ∧ (ph = Ph_begin → ∃ found r, e = J_unread n ∨ e = J_begin n found r).
Proof.
  intros E He. destruct e; try discriminate He; injection He as ->; cbn in E; destruct (phase_of w n) as [[]|] eqn:Hp; try discriminate E;
    eexists; (split; [reflexivity|]); try done; intros _; [exists true, R_ready; by left|by eexists _, _; right].
Qed.
Lemma step_other e w w' n m : job_step e w = Some w' → event_run e = Some n → m ≠ n →
  jb_Runs (jw_job w') !! m = jb_Runs (jw_job w) !! m ∧ phase_of w' m = phase_of w m ∧ is_pending w' m = is_pending w m ∧
  (stop_of w = Some stop_gateway → stop_of w' = Some stop_gateway) ∧ jw_ctl w ≠ None ∧ (∀ x, x ∈ jw_down w → x ∈ jw_down w').
Proof.
  intros E He Hne. destruct e; try discriminate He; injection He as ->; step_cases E; cbn; rewrite ?runs_update, ?list_lookup_alter_ne by done;
    phases; rewrite ?lookup_insert_ne, ?lookup_delete_ne by done; try (split_and!; try done; cbn; intros; rewrite ?elem_of_cons; by auto).
  destruct (revoke_keeps (jw_job w)) as [-> _]. by split_and!.
Qed.

(** And what only the record says. *)
Lemma owed_other e w w' n m sb : job_step e w = Some w' → event_run e = Some n → m ≠ n → of_run w m sb → resumable w m → kept w' m sb.
Proof.
  intros E He Hne Hr K. destruct (step_other _ _ _ _ _ E He Hne) as (H1 & H2 & H3 & H4 & H5 & _).
  right; right. unfold of_run, resumable in *. rewrite H1, H2, H3. split; [done|]. naive_solver.
Qed.

Lemma resumable_phase w n ph : JInv w → phase_of w n = Some ph → resumable w n → ph = Ph_begin.
Proof.
  intros Hi Hp [Hc|[Hpe|[Hb|[Hb _]]]].
  - unfold phase_of in Hp. by rewrite Hc in Hp.
  - by rewrite (begin_not_pending _ _ _ Hi Hp) in Hpe.
  - congruence.
  - congruence.
Qed.

Lemma owed_begin n r w w' sb : JInv w → phase_of w n = Some Ph_begin → of_run w n sb → begin_attempt n true r w = Some w' → kept w' n sb.
Proof.
  intros Hi Hp (run & Er & Hs & Hsb) E. destruct (JInv_phase _ _ _ Hi Hp) as (c & run' & Hc & _ & _ & Er' & _ & Hwf & Hf & _ & _).
  rewrite Er in Er'. injection Er' as <-. destruct (run_wf_open _ _ Hwf Hf) as [[Hq _]|(_ & _ & Hne)]; [by rewrite Hs in Hq|].
  unfold begin_attempt in E. rewrite Er in E. cbn in E. apply String.eqb_neq in Hne. rewrite Hs, Hne in E. cbn in E.
  unfold kept. rewrite <- Hsb. destruct (jn_Started run); [destruct (_ =? 0)|]; injection E as <-; rewrite phase_goes, ?decide_True by (by rewrite ?Hc); cbn.
  - left. by left.
  - right; by left.
  - left. by left.
Qed.

Lemma pending_running l r n : l !! n = Some r → jn_N r = n → jn_State r = RunRunning → n ∈ pending l.
Proof.
  intros Er Hn Hs. unfold pending. apply elem_of_app. left. rewrite <- Hn. apply list_elem_of_fmap_2, list_elem_of_In, List.filter_In.
  split; [by apply list_elem_of_In, list_elem_of_lookup_2 with n|]. unfold in_state. rewrite Hs. done.
Qed.

Lemma owed_step e w w' m sb : JInv w → tidy e w → is_stop e = false → job_step e w = Some w' → of_run w m sb → resumable w m → kept w' m sb.
Proof.
  intros Hi Ht He E Hr K. destruct (event_run e) as [n|] eqn:Hev.
  { destruct (decide (m = n)) as [->|Hne]; [|by apply (owed_other e w w' n)].
    destruct (event_phase _ _ _ _ E Hev) as (ph & Hp & Hb). destruct (Hb (resumable_phase _ _ _ Hi Hp K)) as (found & r & [->| ->]); cbn in Ht; [done|].
    subst found. cbn in E. rewrite Hp in E. destruct ph; try discriminate E. by apply (owed_begin n r w w'). }
  unfold kept. destruct e; try discriminate He; try discriminate Hev; cbn in E, Ht.
  - destruct (jw_ctl w) eqn:Hc; [done|]. destruct (_ =? _)%string; [|done]. injection E as <-. right; right. split; [done|]. right; left.
    unfold is_pending. cbn. apply bool_decide_eq_true. destruct Hr as (r & Er & Hs & _). apply (pending_running _ r); [done|by apply (JInv_numbers w)|done].
  - destruct (jw_ctl w) as [c|] eqn:Hc; [cbn in E|done]. destruct (ct_pending c) as [|n l] eqn:Hp; [done|]. destruct (_ <? _); [|done]. injection E as <-.
    right; right. split; [done|]. unfold resumable, is_pending, phase_of, stop_of in *. rewrite Hc in K. cbn in *. rewrite Hp in K.
    destruct (decide (m = n)) as [->|Hne]; [right; right; left; by rewrite lookup_insert_eq|]. rewrite lookup_insert_ne by done.
    rewrite bool_decide_eq_true, elem_of_cons in K. rewrite bool_decide_eq_true. naive_solver.
  - destruct (jw_ctl w) as [c|] eqn:Hc; [cbn in E|done]. destruct (ct_stop c) as [why|] eqn:Hs, (ct_pending c) as [|n l] eqn:Hp; try done. injection E as <-.
    right; right. split; [done|]. pose proof (begin_not_pending w m) as Hnp. destruct Hr as (r & Er & Hrs & _).
    unfold resumable, is_pending, phase_of, stop_of in *. rewrite Hc in *. cbn in *. rewrite Hs in *. right; right.
    destruct K as [K|[K|[K|K]]]; [done| |by left|by right].
    destruct Ht as [Ht|Ht]; [|by destruct (Ht m r K Er)]. right. split; [|done]. destruct (ct_runs c !! m) as [ph|] eqn:Hph; [|done].
    by rewrite (Hnp ph Hi eq_refl) in K.
  - destruct (jw_ctl w) as [c|] eqn:Hc; [cbn in E|done]. destruct (_ && _) eqn:Hb; [|done]. injection E as <-.
    apply andb_true_iff in Hb as [Hpe%bool_decide_eq_true Hru%bool_decide_eq_true].
    unfold resumable, is_pending, phase_of, stop_of in K. rewrite Hc in K. cbn in K. rewrite Hpe, Hru, lookup_empty in K.
    assert (ct_stop c = Some stop_gateway) as Hs by naive_solver. unfold finish, stop_of. rewrite Hc. cbn. rewrite Hs, andb_false_r. right; right. split; [done|by left].
  - injection E as <-. right; right. split; [done|by left].
Qed.

Lemma kept_step e w w' m sb : JInv w → tidy e w → job_step e w = Some w' → kept w m sb → kept w' m sb.
Proof.
  intros Hi Ht E K. destruct (is_stop e) eqn:He.
  - destruct e; try discriminate He; cbn in E; injection E as <-.
    + apply (kept_stops stop_cancelled (λ j, set_cancel (jb_Error j) j)); [by destruct (jw_job w)|done].
    + destruct ok; [|by apply (kept_stops stop_revoked id w)]. apply (kept_stops stop_revoked (λ j, fst (revoke_job j))); [by apply revoke_keeps|done].
    + by apply (kept_stops stop_gateway id w).
  - destruct K as [K|[K|[Hr K]]]; [|by apply (held_step e w)|by apply (owed_step e w)].
    left. destruct e; step_cases E; cbn; rewrite ?elem_of_cons; try (by right); try done. by destruct (ok && _).
Qed.

(** Every sandbox made so far is accounted for. *)
Definition all_kept (w : jworld) : Prop := ∀ n sb, (n, sb) ∈ jw_made w → kept w n sb.
Lemma made_step e w w' n sb : job_step e w = Some w' → (n, sb) ∈ jw_made w' → (n, sb) ∈ jw_made w ∨ phase_of w' n = Some (Ph_made sb).
Proof.
  intros E. destruct e; step_cases E; cbn; try (by left).
  - rewrite elem_of_cons. intros [Heq|?]; [|by left]. injection Heq as -> ->. right. phases. by rewrite lookup_insert_eq.
  - destruct (ok && _); by left.
Qed.
Lemma all_kept_step e w w' : JInv w → tidy e w → job_step e w = Some w' → all_kept w → all_kept w'.
Proof.
  intros Hi Ht E Hk n sb Hin. destruct (made_step _ _ _ _ _ E Hin) as [?|Hp]; [by apply (kept_step e w); [..|apply Hk]|]. right; left. by rewrite Hp.
Qed.
Lemma all_kept_run es w w' : JInv w → tidy_run es w → job_run es w = Some w' → all_kept w → all_kept w'.
Proof.
  revert w. induction es as [|e es IH]; cbn; intros w Hi Ht E Hk; [by injection E as <-|]. apply bind_Some in E as (w1 & E1 & E). destruct Ht as [Ht Htr].
  apply (IH w1); [by apply (JInv_step e w)|by apply Htr|done|by apply (all_kept_step e w)].
Qed.

(** C8. When a job is over — its runs done, retried, timed out, cancelled by
    its owner or because the owner's access ended, across any restarts — the
    gateway has gone to take down every sandbox it made for it: provided each
    sandbox's node was found, the gateway was not killed between making a
    sandbox and recording it, and no cancel was finished before the runs under
    way had their turn. *)
Theorem job_leaves_no_sandbox (j : jobRecord) (es : list job_event) (w : jworld) (n : nat) (sb : string)
    (Hj : fresh_job j) (Ht : tidy_run es (job_initial j)) (Hw : job_run es (job_initial j) = Some w)
    (Hend : jb_State (jw_job w) ≠ JobRunning) (Hmade : (n, sb) ∈ jw_made w) : sb ∈ jw_down w.
Proof.
  pose proof (JInv_run _ _ _ (JInv_fresh j Hj) Hw) as Hi.
  assert (all_kept w) as Hk.
  { apply (all_kept_run es (job_initial j)); [by apply JInv_fresh|done|done|]. intros m x Hin. by apply elem_of_nil in Hin. }
  destruct (Hk n sb Hmade) as [?|[Hh|[(r & Er & Hs & _) _]]]; [done| |].
  - exfalso. destruct (phase_of w n) as [ph|] eqn:Hp; [|done]. destruct (JInv_phase _ _ _ Hi Hp) as (c & _ & _ & _ & ? & _). done.
  - exfalso. destruct (ji_ended w Hi) as [?|(Hf & _)]; [done|]. assert (runFinal (jn_State r) = true) as H by (apply Hf; by eapply list_elem_of_lookup_2).
    by rewrite Hs in H.
Qed.

(** ** The controller comes to an end *)

(** What a run may still take: ten steps to each attempt it may still be given,
    and those of the one under way. *)
Definition chances (retries : Z) (r : JobRun) : nat := Z.to_nat (retries + 1 - jn_Attempts r).
Definition queued (r : JobRun) : bool := String.eqb (jn_State r) RunQueued.
Definition retryable (o : outcome) : bool := (String.eqb (ou_state o) RunFailed || String.eqb (ou_state o) RunTimedOut) && negb (ou_final o).
Definition phase_work (retries : Z) (r : JobRun) (ph : option phase) : nat :=
  let k := (10 * chances retries r)%nat in
  match ph with
  | None => 0
  | Some Ph_begin => if queued r then k else k + 8
  | Some Ph_create => k - 1
  | Some (Ph_made _) => k - 2
  | Some (Ph_recorded _) => k + 7
  | Some (Ph_started _ _) => k + 6
  | Some (Ph_watch _ _ _) => k + 5
  | Some (Ph_came o) => if queued r then (if retryable o && negb (ou_counted o) then k + 1 else k - 4) else k + 4
  end%nat.
Definition view_work (retries : Z) (v : view) : nat :=
  match v_run v with
  | None => 0
  | Some r => (phase_work retries r (v_phase v) + if v_pend v then S (phase_work retries r (Some Ph_begin)) else 0)%nat
  end.
Definition work (w : jworld) : nat :=
  match jw_ctl w with
  | None => 0
  | Some _ => S (sum_list ((λ n, view_work (retries_of w) (view_at w n)) <$> seq 0 (length (jb_Runs (jw_job w)))))
  end.

(** The controller's own steps, with whatever answers: but that a create put
    off is asked again, and that a sandbox whose record failed is one the
    attempt does not count. *)
Definition forward (e : job_event) : bool :=
  match e with
  | J_start | J_cancel | J_revoke _ | J_stop | J_kill => false
  | J_refused _ transient _ => negb transient
  | J_record_made _ ok => ok
  | _ => true
  end.

Lemma sum_le (f g : nat → nat) l : (∀ m, m ∈ l → (f m ≤ g m)%nat) → (sum_list (f <$> l) ≤ sum_list (g <$> l))%nat.
Proof.
  induction l as [|a l IH]; cbn; intros H; [done|]. pose proof (H a ltac:(by left)). specialize (IH (λ m Hm, H m ltac:(by right))). lia.
Qed.
Lemma sum_lt (f g : nat → nat) l n : n ∈ l → (f n < g n)%nat → (∀ m, m ∈ l → (f m ≤ g m)%nat) → (sum_list (f <$> l) < sum_list (g <$> l))%nat.
Proof.
  induction l as [|a l IH]; cbn; intros Hn Hlt H; [by apply elem_of_nil in Hn|]. pose proof (H a ltac:(by left)).
  pose proof (sum_le f g l (λ m Hm, H m ltac:(by right))). apply elem_of_cons in Hn as [->|Hn]; [lia|].
  specialize (IH Hn Hlt (λ m Hm, H m ltac:(by right))). lia.
Qed.

Lemma chances_open retries r : run_wf retries r → jn_State r = RunQueued → (1 ≤ chances retries r)%nat.
Proof. intros Hwf Hq. unfold chances. destruct (run_wf_open _ _ Hwf (or_introl Hq)) as [[_ ?]|[Hs _]]; [lia|by rewrite Hq in Hs]. Qed.
Lemma chances_made retries sb r : 0 ≤ jn_Attempts r ≤ retries → (chances retries (record_made sb r) + 1 = chances retries r)%nat.
Proof. unfold chances. cbn. lia. Qed.

(** Writing an attempt's end and trying again takes one of the chances, or the
    attempt under way. *)
Lemma write_work retries live now o r : run_wf retries r → fits (Some (Ph_came o)) r →
  (phase_work retries (record_outcome retries live now o r) (if may_retry retries live o r then Some Ph_begin else None)
     < phase_work retries r (Some (Ph_came o)))%nat.
Proof.
  intros Hwf (Hf & Ho & Hc). assert (queued r = true → 1 ≤ chances retries r)%nat as Hch.
  { intros Hq. apply chances_open; [done|by apply String.eqb_eq]. }
  unfold phase_work. destruct (may_retry retries live o r) eqn:Em.
  - assert (queued (record_outcome retries live now o r) = true) as Hq' by (unfold queued, record_outcome; cbn; by rewrite Em). rewrite Hq'.
    unfold may_retry in Em. rewrite !andb_true_iff, Z.leb_le in Em. destruct Em as [[[Hst Hfi] Ha] Hl].
    unfold retryable. rewrite Hst, Hfi. cbn [andb]. unfold chances, record_outcome in *. cbn [jn_Attempts]. unfold attempts_after in *.
    destruct (ou_counted o) eqn:Ec; cbn [negb].
    + assert (queued r = true) as Hq by (unfold queued; by rewrite Hc). rewrite Hq. destruct Hwf. lia.
    + destruct (queued r); lia.
  - destruct (queued r); [|lia]. specialize (Hch eq_refl). destruct (retryable o && negb (ou_counted o)); lia.
Qed.

#[local] Arguments phase_work : simpl never.

Lemma work_at w n : (∀ c, jw_ctl w = Some c → n ∉ ct_pending c) → view_work (retries_of w) (view_at w n) =
  match jb_Runs (jw_job w) !! n with Some r => phase_work (retries_of w) r (phase_of w n) | None => O end.
Proof.
  intros Hn. unfold view_work. cbn. destruct (jb_Runs (jw_job w) !! n); [|done]. unfold is_pending. destruct (jw_ctl w) as [c|]; [|by rewrite Nat.add_0_r].
  rewrite bool_decide_eq_false_2 by (by apply Hn). by rewrite Nat.add_0_r.
Qed.

(** Bounds on what each phase leaves to do. *)
Lemma work_queued retries r ph : run_wf retries r → jn_State r = RunQueued → (1 ≤ chances retries r)%nat ∧
  phase_work retries r ph = match ph with
    | None => 0 | Some Ph_begin => 10 * chances retries r | Some Ph_create => 10 * chances retries r - 1 | Some (Ph_made _) => 10 * chances retries r - 2
    | Some (Ph_recorded _) => 10 * chances retries r + 7 | Some (Ph_started _ _) => 10 * chances retries r + 6
    | Some (Ph_watch _ _ _) => 10 * chances retries r + 5
    | Some (Ph_came o) => if retryable o && negb (ou_counted o) then 10 * chances retries r + 1 else 10 * chances retries r - 4 end%nat.
Proof. intros Hwf Hq. split; [by apply chances_open|]. unfold phase_work, queued. rewrite Hq. by destruct ph as [[]|]. Qed.
Lemma work_running retries r ph : jn_State r = RunRunning →
  phase_work retries r ph = match ph with
    | None => 0 | Some Ph_begin => 10 * chances retries r + 8 | Some Ph_create => 10 * chances retries r - 1 | Some (Ph_made _) => 10 * chances retries r - 2
    | Some (Ph_recorded _) => 10 * chances retries r + 7 | Some (Ph_started _ _) => 10 * chances retries r + 6
    | Some (Ph_watch _ _ _) => 10 * chances retries r + 5 | Some (Ph_came o) => 10 * chances retries r + 4 end%nat.
Proof. intros Hq. unfold phase_work, queued. rewrite Hq. by destruct ph as [[]|]. Qed.
Lemma work_made retries sb ph r : run_wf retries r → jn_State r = RunQueued →
  (phase_work retries (record_made sb r) (Some (Ph_recorded sb)) < phase_work retries r (Some (Ph_made ph)))%nat.
Proof.
  intros Hwf Hq. rewrite (work_running _ (record_made sb r)) by done. destruct (work_queued retries r (Some (Ph_made ph)) Hwf Hq) as [_ ->].
  destruct (run_wf_open _ _ Hwf (or_introl Hq)) as [[_ Ha]|[Hs _]]; [|by rewrite Hq in Hs]. pose proof (chances_made retries sb r ltac:(destruct Hwf; lia)). lia.
Qed.

Ltac work_lt :=
  match goal with
  | |- context[record_made] => by apply work_made
  | Hs : jn_State ?r = RunRunning |- context[record_started ?p ?t ?r] =>
      rewrite (work_running _ r), (work_running _ (record_started p t r)) by exact Hs; unfold chances; cbn; lia
  | Hs : jn_State ?r = RunRunning |- _ => rewrite !(work_running _ r) by done; cbn; lia
  | Hwf : run_wf ?k ?r, Hs : jn_State ?r = RunQueued |- (phase_work _ _ ?p1 < phase_work _ _ ?p2)%nat =>
      destruct (work_queued k r p1 Hwf Hs) as [? ->], (work_queued k r p2 Hwf Hs) as [? ->]; cbn; try destruct (_ && _); lia
  end.

Lemma fits_open ph r : fits (Some ph) r → open_run r.
Proof. destruct ph; cbn; unfold open_run; naive_solver. Qed.
Ltac open_cases Hwf Hfit Ho :=
  destruct (run_wf_open _ _ Hwf Ho) as [[Hs _]|(Hs & _ & Hsb)]; cbn [fits] in Hfit;
  match type of Hs with ?x = _ =>
    repeat match goal with H : context[x] |- _ => lazymatch H with Hs => fail | _ => rewrite Hs in H end end end;
  try discriminate; try (by destruct Hfit).

Lemma forward_run e w w' n : JInv w → forward e = true → job_step e w = Some w' → event_run e = Some n →
  (view_work (retries_of w) (view_at w' n) < view_work (retries_of w) (view_at w n))%nat.
Proof.
  intros Hi Hf E Hev. destruct (event_phase _ _ _ _ E Hev) as (ph & Hp & _).
  destruct (JInv_phase _ _ _ Hi Hp) as (c & r & Hc & Hph & _ & Er & _ & Hwf & Hfit & Hnp & _).
  pose proof (begin_not_pending _ _ _ Hi Hp) as Hnp'. pose proof (fits_open _ _ Hfit) as Ho.
  rewrite (work_at w n) by (intros c0 Hc0; rewrite Hc in Hc0; by injection Hc0 as <-). rewrite Er, Hp.
  unfold view_work, view_at. cbn.
  destruct e; try discriminate Hf; try discriminate Hev; injection Hev as ->; cbn in E; rewrite Hp in E; destruct ph; try discriminate E;
  unfold begin_attempt, write_outcome in E; rewrite ?Er in E;
  step_cases E; cbn in Hf; try discriminate Hf; cbn; rewrite ?runs_update, ?list_lookup_alter_eq, ?(proj1 (revoke_keeps _)), ?Er; cbn; clear Hi;
  phases; rewrite ?lookup_insert_eq, ?lookup_delete_eq, ?(bool_decide_eq_false_2 _ Hnp), ?Nat.add_0_r.
  all: try (match goal with
    | H : may_retry _ _ _ _ = _ |- context[record_outcome ?k ?l ?t ?o ?r] =>
        pose proof (write_work k l t o r Hwf Hfit) as HW; rewrite H in HW; exact HW end).
  all: open_cases Hwf Hfit Ho; work_lt.
Qed.

Lemma view_work_same w w' m : view_at w' m = view_at w m → view_work (retries_of w) (view_at w' m) = view_work (retries_of w) (view_at w m).
Proof. by intros ->. Qed.

Lemma JInv_pending_run w c n l : JInv w → jw_ctl w = Some c → ct_pending c = n :: l →
  ∃ r, jb_Runs (jw_job w) !! n = Some r ∧ phase_of w n = None ∧ n ∉ l.
Proof.
  intros Hi Hc Hp. pose proof (ji_view w Hi n) as Hv. pose proof (ji_pending w Hi c Hc) as Hnd. rewrite Hp in Hnd. apply NoDup_cons in Hnd as [Hnl _].
  assert (is_pending w n = true) as Hpe by (unfold is_pending; rewrite Hc, Hp; apply bool_decide_eq_true; by left).
  unfold view_ok, view_at in Hv. cbn in Hv. rewrite Hpe in Hv. destruct (jb_Runs (jw_job w) !! n) as [r|]; [|by destruct Hv as (_ & ? & _)].
  exists r. destruct Hv as (_ & _ & _ & Hv & _). by destruct (Hv eq_refl).
Qed.

(** The whole job has less to do after a step of one run, or of the queue. *)
Lemma work_less w w' n c c' : jw_ctl w = Some c → jw_ctl w' = Some c' → retries_of w' = retries_of w →
  length (jb_Runs (jw_job w')) = length (jb_Runs (jw_job w)) → (n < length (jb_Runs (jw_job w)))%nat →
  (view_work (retries_of w) (view_at w' n) < view_work (retries_of w) (view_at w n))%nat →
  (∀ m, (view_work (retries_of w) (view_at w' m) ≤ view_work (retries_of w) (view_at w m))%nat) → (work w' < work w)%nat.
Proof.
  intros Hc Hc' Hr Hl Hn Hlt Hle. unfold work. rewrite Hc, Hc', Hr, Hl. apply (proj1 (Nat.succ_lt_mono _ _)). apply (sum_lt _ _ _ n); [apply elem_of_seq; lia|done|by intros m _].
Qed.

Lemma ctl_stays e w w' n : job_step e w = Some w' → event_run e = Some n → ∃ c c', jw_ctl w = Some c ∧ jw_ctl w' = Some c'.
Proof.
  intros E He. destruct (event_phase _ _ _ _ E He) as (ph & Hp & _). destruct (phase_some _ _ _ Hp) as (c & Hc & _). exists c.
  destruct e; try discriminate He; step_cases E; cbn; rewrite Hc; eexists; by split.
Qed.

Lemma forward_step e w w' : JInv w → forward e = true → job_step e w = Some w' → (work w' < work w)%nat.
Proof.
  intros Hi Hf E. destruct (job_step_same _ _ _ E) as [Hsp Hlen]. assert (retries_of w' = retries_of w) as Hret by (unfold retries_of; by rewrite Hsp).
  destruct (event_run e) as [n|] eqn:Hev.
  - destruct (ctl_stays _ _ _ _ E Hev) as (c & c' & Hc & Hc'). destruct (event_phase _ _ _ _ E Hev) as (ph & Hp & _).
    destruct (JInv_phase _ _ _ Hi Hp) as (_ & r & _ & _ & _ & Er & _). pose proof (forward_run _ _ _ _ Hi Hf E Hev) as Hlt.
    apply (work_less w w' n c c'); [done..|by eapply lookup_lt_Some|done|]. intros m. destruct (decide (m = n)) as [->|Hne]; [lia|].
    destruct (step_other _ _ _ _ _ E Hev Hne) as (H1 & H2 & H3 & _). unfold view_work, view_at. cbn. rewrite H1, H2, H3. lia.
  - destruct e; try discriminate Hf; try discriminate Hev; cbn in E; destruct (jw_ctl w) as [c|] eqn:Hc; try discriminate E; cbn in E.
    + destruct (ct_pending c) as [|n l] eqn:Hpe; [done|]. destruct (_ <? _); [|done]. injection E as <-.
      pose proof (JInv_pending_run w c n l Hi Hc Hpe) as (r & Er & Hp & Hnl).
      eapply (work_less w _ n c); [done|reflexivity|done|done|by eapply lookup_lt_Some| |].
      * unfold view_work, view_at, is_pending, phase_of in *. cbn. rewrite Hc, Er, lookup_insert_eq in *. cbn in *. rewrite Hp, Hpe.
        rewrite bool_decide_eq_false_2, bool_decide_eq_true_2 by (done || by left). cbn. lia.
      * intros m. unfold view_work, view_at, is_pending, phase_of in *. cbn. rewrite Hc in *. cbn in *. destruct (decide (m = n)) as [->|Hne].
        -- rewrite Er, lookup_insert_eq, Hp, Hpe. rewrite bool_decide_eq_false_2, bool_decide_eq_true_2 by (done || by left). cbn. lia.
        -- rewrite lookup_insert_ne by done. rewrite (bool_decide_ext (m ∈ ct_pending c) (m ∈ l)) by (rewrite Hpe, elem_of_cons; naive_solver). done.
    + destruct (ct_stop c) as [why|], (ct_pending c) as [|n l] eqn:Hpe; try done. injection E as <-.
      pose proof (JInv_pending_run w c n l Hi Hc Hpe) as (r & Er & Hp & Hnl).
      eapply (work_less w _ n c); [done|reflexivity|done|done|by eapply lookup_lt_Some| |].
      * unfold view_work, view_at, is_pending, phase_of in *. cbn. rewrite Hc, Er in *. cbn in *. rewrite Hp, Hpe.
        rewrite (bool_decide_eq_true_2 (n ∈ n :: l)), (bool_decide_eq_false_2 (n ∈ [])) by (by left || apply not_elem_of_nil). lia.
      * intros m. unfold view_work, view_at, is_pending, phase_of in *. cbn. rewrite Hc in *. cbn in *. destruct (_ !! m); [|done].
        rewrite (bool_decide_eq_false_2 (m ∈ [])) by apply not_elem_of_nil. destruct (bool_decide (m ∈ ct_pending c)); lia.
    + destruct (_ && _); [|done]. injection E as <-. unfold work, finish. cbn. rewrite Hc. lia.
Qed.

Lemma forward_bounded es w w' : JInv w → forallb forward es = true → job_run es w = Some w' → (length es + work w' ≤ work w)%nat.
Proof.
  revert w. induction es as [|e es IH]; cbn; intros w Hi Hf E; [injection E as <-; lia|]. apply andb_true_iff in Hf as [Hf Hfs].
  apply bind_Some in E as (w1 & E1 & E). pose proof (forward_step _ _ _ Hi Hf E1). specialize (IH w1 (JInv_step _ _ _ Hi E1) Hfs E). lia.
Qed.

(** A controlled job can always go on. *)
Lemma begin_possible w n run : jb_Runs (jw_job w) !! n = Some run → is_Some (begin_attempt n true R_ready w).
Proof.
  intros Er. unfold begin_attempt. rewrite Er. cbn. destruct (_ && _).
  - destruct (jn_Started run); [destruct (_ =? 0)|]; by eexists.
  - unfold unless_stopping. destruct (stop_of w) as [[]|]; by eexists.
Qed.
Lemma phase_possible w n ph : JInv w → phase_of w n = Some ph → ∃ e, forward e = true ∧ is_Some (job_step e w).
Proof.
  intros Hi Hp. destruct (JInv_phase _ _ _ Hi Hp) as (_ & r & _ & _ & _ & Er & _). destruct ph.
  - exists (J_begin n true R_ready). cbn. rewrite Hp. split; [done|]. by apply (begin_possible w n r).
  - exists (J_created n "sb"). cbn. rewrite Hp. by split; [|eexists].
  - exists (J_record_made n true). cbn. rewrite Hp. by split; [|eexists].
  - exists (J_start_process n true (Some 1) ""). cbn. rewrite Hp. by split; [|eexists].
  - exists (J_record_started n 0 true). cbn. rewrite Hp. by split; [|eexists].
  - exists (J_watched n (W_exit 0)). cbn. rewrite Hp. by split; [|eexists].
  - exists (J_write n 0 true). cbn. rewrite Hp. unfold write_outcome. rewrite Er. cbn. by split; [|eexists].
Qed.
Lemma job_possible w : JInv w → 1 ≤ js_Parallelism (jb_Spec (jw_job w)) → jw_ctl w ≠ None → ∃ e, forward e = true ∧ is_Some (job_step e w).
Proof.
  intros Hi Hpar Hc. destruct (jw_ctl w) as [c|] eqn:Ec; [|done]. destruct (decide (ct_runs c = ∅)) as [Hr|Hr].
  - destruct (ct_pending c) as [|n l] eqn:Hp.
    + exists (J_finish 0 true). cbn. rewrite Ec. cbn. rewrite Hp, Hr. by split; [|eexists].
    + exists J_take. cbn. rewrite Ec. cbn. rewrite Hp, Hr, map_size_empty. split; [done|]. destruct (Z.ltb_spec (Z.of_nat 0) (js_Parallelism (jb_Spec (jw_job w)))); [by eexists|lia].
  - apply map_choose in Hr as (n & ph & Hr). apply (phase_possible w n ph Hi). unfold phase_of. by rewrite Ec.
Qed.


(** ** A restart *)

(** A run's record stays while no step is its own, until the job is over. *)
Definition stays (n : nat) (r : JobRun) (w : jworld) : Prop := jb_Runs (jw_job w) !! n = Some r ∨ jb_State (jw_job w) ≠ JobRunning.
Lemma stays_step n r e w w' : JInv w → event_run e ≠ Some n → job_step e w = Some w' → stays n r w → stays n r w'.
Proof.
  intros Hi He E K. unfold stays in *. destruct (event_run e) as [m|] eqn:Hev.
  - assert (n ≠ m) as Hne by congruence. destruct (step_other _ _ _ _ _ E Hev Hne) as (-> & _). destruct K as [K|K]; [by left|].
    destruct (event_phase _ _ _ _ E Hev) as (ph & Hp & _). by destruct (JInv_phase _ _ _ Hi Hp) as (_ & _ & _ & _ & ? & _).
  - destruct e; try discriminate Hev; step_cases E; cbn in *; try done.
    + unfold finish_job. destruct (ok && _); [|done]. right. cbn. destruct (jw_job w) as [id us te sp en es0 st er ca cr fi runs]. cbn.
      by destruct (ca && _); [|destruct (existsb _ _)].
    + by destruct (jw_job w).
    + by destruct (revoke_keeps (jw_job w)) as (-> & -> & _).
Qed.
Lemma stays_run n r es w w' : JInv w → Forall (λ e, event_run e ≠ Some n) es → job_run es w = Some w' → stays n r w → stays n r w'.
Proof.
  revert w. induction es as [|e es IH]; cbn; intros w Hi Hf E K; [by injection E as <-|]. apply bind_Some in E as (w1 & E1 & E). apply Forall_cons in Hf as [He Hf].
  apply (IH w1 (JInv_step _ _ _ Hi E1) Hf E). by apply (stays_step _ _ e w).
Qed.

(** A command that was running when the gateway was killed goes on: the run
    waits for its turn in the new gateway, which, its node found, follows the
    same process in the same sandbox against the same deadline, and takes
    nothing down. *)
Theorem watched_run_survives_restart (j : jobRecord) (es es' : list job_event) (w w1 w' w'' : jworld) (n : nat) (sb : string) (pid t : Z) (r : readiness)
    (Hj : fresh_job j) (Hw : job_run es (job_initial j) = Some w) (Hp : phase_of w n = Some (Ph_watch sb pid t)) (Hpid : pid ≠ 0)
    (Hstart : job_run [J_kill; J_start] w = Some w1) (Hes : Forall (λ e, event_run e ≠ Some n) es') (Hw' : job_run es' w1 = Some w')
    (Hb : phase_of w' n = Some Ph_begin) (Hstep : job_step (J_begin n true r) w' = Some w'') :
  is_pending w1 n = true ∧ phase_of w'' n = Some (Ph_watch sb pid t) ∧ jw_down w'' = jw_down w' ∧ jw_made w'' = jw_made w'.
Proof.
  pose proof (JInv_run _ _ _ (JInv_fresh j Hj) Hw) as Hi. pose proof (JInv_run _ _ _ Hi Hstart) as Hi1. pose proof (JInv_run _ _ _ Hi1 Hw') as Hi'.
  destruct (JInv_phase _ _ _ Hi Hp) as (c & run & Hc & _ & Hs & Er & Hn & Hwf & (Hrs & Hsb & Hpd & Hst) & _).
  assert (jb_Runs (jw_job w1) = jb_Runs (jw_job w) ∧ jw_ctl w1 = Some (started_ctl (jw_job w))) as [Hr1 Hc1].
  { cbn in Hstart. apply bind_Some in Hstart as (w2 & E & E2). injection E2 as ->. rewrite Hs in E. cbn in E. by injection E as <-. }
  assert (stays n run w1) as K by (left; by rewrite Hr1). pose proof (stays_run _ _ _ _ _ Hi1 Hes Hw' K) as K'.
  destruct (JInv_phase _ _ _ Hi' Hb) as (c' & run' & Hc' & _ & Hs' & _ & _ & Hwf' & _). destruct K' as [K'|]; [|done].
  assert (jn_Sandbox run ≠ ""%string) as Hne by (destruct Hwf as [_ [[Hf _]|[(_ & _ & ?)|(Hf & _)]]]; [by rewrite Hrs in Hf|done|by rewrite Hrs in Hf]).
  split.
  - unfold is_pending. rewrite Hc1. apply bool_decide_eq_true. by apply (pending_running _ run).
  - cbn in Hstep. rewrite Hb in Hstep. unfold begin_attempt in Hstep. rewrite K' in Hstep. cbn in Hstep. apply String.eqb_neq in Hne.
    rewrite Hrs, Hne, Hst, Hpd in Hstep. cbn in Hstep. apply Z.eqb_neq in Hpid. rewrite Hpid, Hsb in Hstep. injection Hstep as <-.
    rewrite phase_goes, decide_True by (by rewrite ?Hc'). done.
Qed.
