(* ===== verification/JobSubmit.v ===== *)
(** * What is submitted (internal/gateway/jobs.go, jobrun.go)

    What a spec that passes [checkJobSpec] is like, what [submitJob] records,
    that its environment reaches the runs and nothing else, and what is kept of
    a run's output ([capped]). *)
From S2P Require Import Prelude GoStrings Api EgressNames Spec Fleet Access Identity Secrets Requests PublicNet Agents Jobs JobRun.

(** ** An accepted spec *)
Record accepted (s : JobSpec) : Prop := {
  ac_completions : 1 ≤ js_Completions s ≤ maxJobRuns;
  ac_parallelism : 1 ≤ js_Parallelism s ≤ maxJobParallelism;
  ac_retries : 0 ≤ js_Retries s ≤ maxJobRetries;
  ac_timeout : 1 ≤ js_TimeoutSecs s ∧ secs (js_TimeoutSecs s) ≤ maxJobTimeout;
  ac_prompts : js_Prompts s ≠ [] → js_Completions s = prompt_count s;
  ac_work : check_work s = true
}.

Lemma spec_numbers_parts c p t s :
  js_Completions (spec_numbers c p t s) = c ∧ js_Parallelism (spec_numbers c p t s) = p ∧ js_TimeoutSecs (spec_numbers c p t s) = t ∧
  js_Retries (spec_numbers c p t s) = js_Retries s ∧ js_Prompts (spec_numbers c p t s) = js_Prompts s ∧ js_Env (spec_numbers c p t s) = js_Env s ∧
  check_work (spec_numbers c p t s) = check_work s.
Proof. by destruct s. Qed.

Section check.
Context `{Unicode}.
Context (range : gmap string string → list (string * string)) (keyed notify_private : bool).

(** What passes, and the fields the defaults leave. *)
Lemma checkJobSpec_ok p v groups url s s' : checkJobSpec range keyed notify_private p v groups url s = Ok s' →
  accepted s' ∧ js_Env s' = js_Env s.
Proof.
  unfold checkJobSpec. intros E.
  apply guard_ok in E as [_ E]. apply guard_ok in E as [_ E]. apply guard_ok in E as [Hw E]. apply guard_ok in E as [Hp E].
  apply negb_false_iff in Hw. cbv zeta in E. set (s1 := spec_numbers (completions_of s) (default_1 (js_Parallelism s)) (js_TimeoutSecs s) s) in E.
  destruct (spec_numbers_parts (completions_of s) (default_1 (js_Parallelism s)) (js_TimeoutSecs s) s) as (Hc & Hpa & Ht & Hr & Hps & He & Hwk). fold s1 in Hc, Hpa, Ht, Hr, Hps, He, Hwk.
  apply guard_ok in E as [Hnc E]. apply guard_ok in E as [Hnp E]. apply guard_ok in E as [Hnr E]. apply guard_ok in E as [Hnt E].
  set (t := if js_TimeoutSecs s1 =? 0 then 3600 else js_TimeoutSecs s1) in E. set (s2 := spec_numbers (js_Completions s1) (js_Parallelism s1) t s1) in E.
  destruct (spec_numbers_parts (js_Completions s1) (js_Parallelism s1) t s1) as (Hc2 & Hpa2 & Ht2 & Hr2 & Hps2 & He2 & Hwk2). fold s2 in Hc2, Hpa2, Ht2, Hr2, Hps2, He2, Hwk2.
  assert (s' = s2) as ->.
  { apply guard_ok in E as [_ E]. apply bind_ok in E as (? & _ & E). apply bind_ok in E as (refs & _ & E). apply bind_ok in E as (? & _ & E).
    apply guard_ok in E as [_ E]. apply guard_ok in E as [_ E]. apply bind_ok in E as (? & _ & E). by injection E. }
  clear E. split; [|by rewrite He2, He]. apply orb_false_iff in Hnc, Hnp, Hnr, Hnt.
  assert (js_Prompts s ≠ [] → js_Completions s2 = prompt_count s2) as Hprompts.
  { intros Hne. rewrite Hc2, Hc. unfold completions_of, prompt_count. rewrite Hps2, Hps. by rewrite bool_decide_false. }
  split.
  - rewrite Hc2. assert (js_Completions s1 ≠ 0); [|lia]. rewrite Hc. unfold completions_of, default_1, prompt_count.
    destruct (js_Prompts s); cbn; [|lia]. by destruct (Z.eqb_spec (js_Completions s) 0).
  - rewrite Hpa2. assert (js_Parallelism s1 ≠ 0); [|lia]. rewrite Hpa. unfold default_1. by destruct (Z.eqb_spec (js_Parallelism s) 0).
  - rewrite Hr2. lia.
  - rewrite Ht2. subst t. destruct (Z.eqb_spec (js_TimeoutSecs s1) 0); [|lia]. by split.
  - rewrite Hps2, Hps. done.
  - by rewrite Hwk2, Hwk.
Qed.

(** A job of an agent runs the agent; another runs its command. *)
Lemma argv_nonempty caps s n env secrets : check_work s = true → snd (fst (runRequest caps s n env secrets)) ≠ [].
Proof.
  unfold check_work, runRequest. destruct (js_Command s) as [|prog args] eqn:Ec.
  - destruct (String.eqb (js_Agent s) ""); [done|]. destruct (Lookup (js_Agent s)) as [d|] eqn:El; [|done]. intros _. cbn.
    destruct (lookup_some _ _ El) as [Hd _]. unfold Autonomous.
    assert (ag_Command d ≠ []) as Hne by (unfold registry in Hd; repeat (apply elem_of_cons in Hd as [->|Hd]; [done|]); by apply elem_of_nil in Hd).
    by destruct (ag_Command d).
  - intros Hw. destruct (Lookup (js_Agent s)) as [d|] eqn:El; [|done]. exfalso. destruct (lookup_some _ _ El) as [Hd Hn].
    rewrite !andb_true_iff in Hw. destruct Hw as [[[Ha%String.eqb_eq _] _] _]. rewrite Ha in Hn.
    unfold registry in Hd. repeat (apply elem_of_cons in Hd as [->|Hd]; [done|]). by apply elem_of_nil in Hd.
Qed.
End check.

(** ** Submitting one *)
Section submit.
Context `{Unicode} `{AEAD}.
Context (range : gmap string string → list (string * string)) (keyed notify_private : bool) (encode : gmap string string → string).

Lemma submitJob_ok now id nonce p v groups url s jm m r jm' m' :
  submitJob range keyed notify_private encode now id nonce p v groups url s jm m = Ok (r, jm', m') →
  ∃ s', accepted s' ∧ js_Env s' = js_Env s ∧ r = new_job keyed encode now id nonce p s' ∧ hold id (js_Env s') jm = Some jm' ∧
    m !! id = None ∧ m' = <[id := r]> m.
Proof.
  unfold submitJob. intros E. apply bind_ok in E as (s' & Hs & E). destruct (checkJobSpec_ok _ _ _ _ _ _ _ _ _ Hs) as [Ha He].
  apply bind_ok in E as (jm1 & Hh%of_option_ok & E). unfold PutJob in E. cbn [jb_ID new_job] in E.
  destruct (bool_decide (is_Some (m !! id))) eqn:Hb; cbn in E; [done|]. injection E as <- <- <-. exists s'. split_and!; try done.
  apply bool_decide_eq_false in Hb. destruct (m !! id); [|done]. by destruct Hb.
Qed.


Lemma env_names_nil (e : gmap string string) : GoSort.sort_stable GoSort.str_ltb (fst <$> map_to_list e) = [] ↔ e = ∅.
Proof.
  split; [|by intros ->]. intros Hs%GoSort.sort_stable_nil_inv. apply fmap_nil_inv in Hs. by apply map_to_list_empty_iff.
Qed.
Lemma env_sealed_opens `{!AEADLaws} decode now id nonce p s jm : (∀ e, decode (encode e) = Some e) → String.length nonce = NonceSize →
  jobEnv true decode (new_job true encode now id nonce p s) jm = Ok (js_Env s).
Proof.
  intros Hd Hn. unfold jobEnv. cbn [new_job jb_EnvNames jb_EnvSealed jb_ID]. destruct (decide (js_Env s = ∅)) as [He|Hne].
  - rewrite bool_decide_true by (by apply env_names_nil). by rewrite He.
  - rewrite bool_decide_false by (by rewrite env_names_nil). rewrite (bool_decide_false (js_Env s = ∅)) by done. cbn. rewrite open_seal by done. cbn. by rewrite Hd.
Qed.
Lemma env_held decode now id nonce p s jm : (js_Env s ≠ ∅ → jm_env jm !! id = Some (js_Env s)) →
  jobEnv false decode (new_job false encode now id nonce p s) jm = Ok (js_Env s).
Proof.
  intros Hj. unfold jobEnv. cbn [new_job jb_EnvNames jb_EnvSealed jb_ID]. rewrite andb_false_r. destruct (decide (js_Env s = ∅)) as [He|Hne].
  - rewrite bool_decide_true by (by apply env_names_nil). by rewrite He.
  - rewrite bool_decide_false by (by rewrite env_names_nil). by rewrite Hj.
Qed.

(** The environment a job is submitted with is the one its runs get:
    sealed in the store under a secrets key, which opens for this job alone, or
    held in memory without one; lost with the gateway in the second case only,
    and never read as another job's. *)
Theorem job_env_reaches_its_runs `{!AEADLaws} (decode : string → option (gmap string string)) (now : Z) (id nonce : string) (p : Principal)
    (v : sres vault) (groups : sres (list EgressGroup)) (url : option parsed_url) (s : JobSpec) (jm jm' : jobManager) (m m' : jobs) (r : jobRecord)
    (Hdecode : ∀ e, decode (encode e) = Some e) (Hnonce : String.length nonce = NonceSize)
    (Hsub : submitJob range keyed notify_private encode now id nonce p v groups url s jm m = Ok (r, jm', m')) :
  jobEnv keyed decode r jm' = Ok (js_Env s) ∧
  (keyed = true → ∀ jm'', jobEnv keyed decode r jm'' = Ok (js_Env s)) ∧
  (keyed = false → js_Env s ≠ ∅ → ∀ jm'', jm_env jm'' !! id = None → jobEnv keyed decode r jm'' = Err env_lost) ∧
  (∀ sealed, jb_EnvSealed r = Some sealed → ∀ id', id' ≠ id → open sealed (jobEnvAD id') = None) ∧
  (∀ id', id' ≠ id → jm_env jm' !! id' = jm_env jm !! id').
Proof.
  destruct (submitJob_ok _ _ _ _ _ _ _ _ _ _ _ _ _ Hsub) as (s' & _ & He & -> & Hh & Hm & ->).
  rewrite <- He. split_and!.
  - destruct keyed; [by apply env_sealed_opens|]. apply env_held. unfold hold in Hh. destruct (_ || _); [done|]. injection Hh as <-.
    intros Hne. rewrite bool_decide_false by done. cbn. by rewrite lookup_insert_eq.
  - intros -> jm''. by apply env_sealed_opens.
  - intros -> Hne jm'' Hnone. unfold jobEnv. cbn [new_job jb_EnvNames jb_EnvSealed jb_ID].
    rewrite bool_decide_false by (by rewrite env_names_nil). rewrite andb_false_r. by rewrite Hnone.
  - cbn [new_job jb_EnvSealed]. destruct (_ && _); [|done]. intros sealed E id' Hne. injection E as <-. apply open_elsewhere; [done|].
    unfold jobEnvAD. intros Heq. apply Hne. by apply (inj (String.app _)), (inj (String.app nul)) in Heq.
  - intros id' Hne. unfold hold in Hh. destruct (_ || _); [done|]. injection Hh as <-. destruct (bool_decide _); [done|]. cbn. by rewrite lookup_insert_ne.
Qed.
End submit.

(** ** What is kept of a run's output: [capped] of jobrun.go *)
Definition maxKeptOutput : Z := 1048576.
Record capped := { cp_buf : list Z; cp_max : Z; cp_cut : bool }.
Definition new_capped (max : Z) : capped := {| cp_buf := []; cp_max := max; cp_cut := false |}.
Definition capped_Write (p : list Z) (c : capped) : capped :=
  let room := cp_max c - Z.of_nat (length (cp_buf c)) in
  if Z.of_nat (length p) >? room
  then {| cp_buf := cp_buf c ++ take (Z.to_nat (Z.max room 0)) p; cp_max := cp_max c; cp_cut := true |}
  else {| cp_buf := cp_buf c ++ p; cp_max := cp_max c; cp_cut := cp_cut c |}.

(** However a command's output comes in pieces, what is kept is the first
    [max] bytes of the whole, and it is marked as cut exactly where there was
    more. *)
Theorem capped_keeps_first (max : Z) (pieces : list (list Z)) (Hmax : 0 ≤ max) :
  foldl (λ c p, capped_Write p c) (new_capped max) pieces =
    {| cp_buf := take (Z.to_nat max) (concat pieces); cp_max := max; cp_cut := max <? Z.of_nat (length (concat pieces)) |}.
Proof.
  induction pieces as [|p pieces IH] using rev_ind; [cbn; rewrite take_nil; unfold new_capped; f_equal; symmetry; apply Z.ltb_ge; cbn; lia|].
  rewrite foldl_app, IH, concat_app. cbn. rewrite app_nil_r. unfold capped_Write. cbn. rewrite length_app, length_take.
  set (w := concat pieces). destruct (Z.gtb_spec (Z.of_nat (length p)) (max - Z.of_nat (Z.to_nat max `min` length w))) as [Hgt|Hle]; f_equal.
  - rewrite take_app. f_equal. f_equal. lia.
  - symmetry. apply Z.ltb_lt. lia.
  - rewrite take_app. f_equal. symmetry. apply take_ge. lia.
  - destruct (Z.ltb_spec max (Z.of_nat (length w))), (Z.ltb_spec max (Z.of_nat (length w + length p))); try done; lia.
Qed.
