(* ===== verification/GatewayExamples.v ===== *)
(** * A gateway in small

    One store with two users, a sandbox each, an SSH key and a token, on which
    the theorems of Access, Sessions, SandboxStore, Revocation and Quota are
    applied. *)
From S2P Require Import Prelude GoSort GoStrings Api Spec ServiceSpec Access Sessions Identity IdentityKeys SandboxStore Revocation Quota.

#[local] Instance plain_unicode : Unicode := ascii_unicode.
(** Secrets kept as they are. *)
#[local] Instance plain_hash : Hash := λ s, s.

Definition all_of : list string := [ScopeRead; ScopeCreate; ScopeDelete; ScopeSSH].
Definition two_keys : list (Z * id_op) := [
  (1000, Op_key "a" "alice-secret" "alice" "" all_of None);
  (2000, Op_key "b" "bob-secret" "bob" "" [ScopeRead] None)].
Definition two_users : db := id_run plain_hash two_keys empty_db.

Definition box_a : string := "sbx_n1_00000000000000aa".
Definition box_b : string := "sbx_n1_00000000000000bb".
Definition owned_by_user (u : string) : Owner := {| ow_User := u; ow_Tenant := ""; ow_Node := "n1" |}.
Definition small : NodeResources := {| nr_CPUs := float_of_Z 1; nr_MemoryMB := 512; nr_DiskMB := 1024; nr_GPUs := 0 |}.

Definition start (rls : bool) : store := on_db (λ _, two_users) (empty_store rls).
Definition without_bob : store := store_run plain_hash
  [(3000, None, St_record box_a (owned_by_user "alice") small None);
   (4000, None, St_ssh_key "1" "alice" "" "" "SHA256:alice" "ssh-ed25519 alice");
   (5000, None, St_ssh_token "alice-token" "alice" "" box_a (60 * second))] (start true).
Definition with_bob : store := store_run plain_hash [(6000, None, St_record box_b (owned_by_user "bob") small None)] without_bob.

Definition gate (s : store) : gateway store := {|
  gw_store := s; gw_tombs := {| tb_max := 10; tb_ttl := 60 * second; tb_m := ∅; tb_order := [] |}; gw_nodes := {["n1" := true]} |}.

Definition alice : Principal := {|
  p_User := "alice"; p_Tenant := ""; p_KeyTenant := ""; p_KeyID := "key_a"; p_Scopes := all_of; p_Sandbox := ""; p_Bound := false;
  p_BoundOrg := "" |}.

Definition box (id name : string) : Sandbox := {|
  sb_ID := id; sb_Name := name; sb_State := "running"; sb_Image := ""; sb_CPUs := float_of_Z 1; sb_MemoryMB := 512;
  sb_DiskMB := 1024; sb_EnvNames := []; sb_Network := no_network; sb_CreatedAt := 3000; sb_IdleTimeoutSecs := 0;
  sb_IdleAction := ""; sb_IdleSuspended := false; sb_LifetimeSecs := 0; sb_ExpiresAt := None; sb_SnapshotEverySecs := 0;
  sb_SnapshotKeep := 0; sb_Labels := ∅; sb_Volumes := []; sb_GPUs := [] |}.
Definition listing (bobs : list Sandbox) : list (string * node_answer) := [("n1"%string, Listed (box box_a "web" :: bobs))].

(** ** Another's sandbox, or none *)
Lemma record_rows now id o size s :
  String.eqb id "" || String.eqb (ow_User o) "" || String.eqb (ow_Node o) "" = false →
  may_put (as_tenant None s) (sw_org <$> st_sandboxes s !! id) (ow_Tenant o) = true →
  ∃ row, sw_org row = ow_Tenant o ∧
    st_sandboxes (store_run plain_hash [(now, None, St_record id o size None)] s) = <[id := row]> (st_sandboxes s).
Proof.
  intros Hargs Hput. cbn [store_run store_step]. unfold RecordSandbox. rewrite Hargs. cbn [reject_if mbind result_bind].
  destruct (ownerIDs _ _ _ _) as [u d]. cbn [as_tenant st_sandboxes]. rewrite Hput. by eexists {| sw_org := ow_Tenant o |}.
Qed.

Lemma with_bob_rows : ∃ row, sw_org row = ""%string ∧ st_sandboxes with_bob = <[box_b := row]> (st_sandboxes without_bob).
Proof. apply (record_rows 6000 box_b (owned_by_user "bob")); vm_compute; reflexivity. Qed.

Lemma owner_others s s' b row t id :
  sw_org row = t → st_sandboxes s' = <[b := row]> (st_sandboxes s) → st_rls s' = st_rls s → id ≠ b →
  sandbox_owner (as_tenant (Some t) s') id = sandbox_owner (as_tenant (Some t) s) id.
Proof.
  intros Ho Hrows Hrls Hne. unfold sandbox_owner, sandbox_of, seen_sandboxes. cbn [as_tenant st_sandboxes]. rewrite Hrows.
  rewrite map_filter_insert_True by (unfold row_visible; cbn; rewrite Ho, String.eqb_refl; apply orb_true_r).
  rewrite lookup_insert_ne by done.
  unfold row_visible. cbn [as_tenant st_rls st_tenant]. by rewrite Hrls.
Qed.

Lemma no_tombs now id : tomb_get now id {| tb_max := 10; tb_ttl := 60 * second; tb_m := ∅; tb_order := [] |} = None.
Proof. unfold tomb_get. cbn [tb_m]. by rewrite lookup_empty. Qed.

Lemma owner_alike s s' p now b row id :
  Can p ScopeAdmin = false → sw_org row = p_Tenant p → st_sandboxes s' = <[b := row]> (st_sandboxes s) → st_rls s' = st_rls s →
  (id = b → own_view p (sandbox_owner (as_tenant (Some (p_Tenant p)) s') id) = None ∧
            own_view p (sandbox_owner (as_tenant (Some (p_Tenant p)) s) id) = None) →
  same_owner p (ownerOf (gate s') p now id) (ownerOf (gate s) p now id).
Proof.
  intros Hc Ho Hrows Hrls Hb. unfold ownerOf, storeFor. rewrite Hc. cbn [OwnerOf ForTenant sql_store gw_store gate gw_tombs].
  rewrite no_tombs. destruct (decide (id = b)) as [E|Hne].
  - destruct (Hb E) as [H1 H2].
    destruct (sandbox_owner (as_tenant _ s') id), (sandbox_owner (as_tenant _ s) id); cbn in H1, H2 |- *; congruence.
  - rewrite (owner_others s s' b row) by done. clear Hb. destruct (sandbox_owner _ id); exact eq_refl.
Qed.

Lemma alike_example : looks_alike alice 7000 (gate with_bob) (gate without_bob) (listing [box box_b "web"]) (listing []).
Proof.
  split; [cbn [gate gw_nodes]; reflexivity| |vm_compute; reflexivity|].
  - intros id. destruct with_bob_rows as (row & Ho & Hrows).
    apply (owner_alike without_bob with_bob alice 7000 box_b row id);
      [reflexivity|exact Ho|exact Hrows|vm_compute; reflexivity|].
    intros ->. split; vm_compute; reflexivity.
  - constructor; [|constructor]. split; [reflexivity|]. vm_compute. reflexivity.
Qed.


Definition asks (path : string) : request := {|
  rq_origin := true; rq_authorization := "Bearer sgk_alice-secret"; rq_orgs := []; rq_typed := true; rq_path := path;
  rq_ref := "web" |}.
Definition run_route : route := {| rt_method := "POST"; rt_rest := "/run"; rt_scope := ScopeCreate |}.
Definition sent : forwarded := {|
  fw_node := "n1"; fw_id := box_a; fw_owner := owned_by_user "alice"; fw_target := "/v1/sandboxes/sbx_n1_00000000000000aa/run";
  fw_background := false |}.


(** ** A login, with a token and with a key *)
Definition plain_key : string → option string := Some.
Definition one_fingerprint : string → string := λ _, "SHA256:alice"%string.

Lemma ssh_login_sound_witness :
  ∃ l, authToken (gate with_bob) 7000 [] "sgt_alice-token" = Ok l ∧ login_ok (gate with_bob) 7000 l ∧
  ∃ l', authKey plain_key one_fingerprint (gate with_bob) 7000 [] box_a "ssh-ed25519 alice" = Ok l' ∧ login_ok (gate with_bob) 7000 l'.
Proof.
  assert (∃ l, authToken (gate with_bob) 7000 [] "sgt_alice-token" = Ok l) as [l Hl] by (eexists; vm_compute; reflexivity).
  assert (∃ l, authKey plain_key one_fingerprint (gate with_bob) 7000 [] box_a "ssh-ed25519 alice" = Ok l) as [l' Hl'] by (eexists; vm_compute; reflexivity).
  exists l. split; [exact Hl|]. split; [exact (proj1 (ssh_login_sound plain_key one_fingerprint (gate with_bob) 7000 [] "sgt_alice-token" None l Hl))|].
  exists l'. split; [exact Hl'|].
  exact (proj1 (ssh_login_sound plain_key one_fingerprint (gate with_bob) 7000 [] box_a (Some "ssh-ed25519 alice"%string) l' Hl')).
Defined.

(** ** The tables *)
Lemma tenant_wall_witness :
  st_rls with_bob = true ∧ (∀ id o, sandbox_owner (as_tenant (Some "acme"%string) with_bob) id = Some o → ow_Tenant o = "acme"%string).
Proof. split; [vm_compute; reflexivity|]. apply (tenant_wall plain_hash with_bob "acme"). vm_compute. reflexivity. Defined.

Lemma recorded_owner_stays_witness :
  ∃ s', RecordSandbox 8000 box_b (owned_by_user "bob") small None without_bob = Ok s' ∧ sandbox_owner s' box_b = Some (owned_by_user "bob").
Proof.
  destruct (RecordSandbox 8000 box_b (owned_by_user "bob") small None without_bob) as [s'|e] eqn:E.
  - exists s'. split; [reflexivity|]. apply (recorded_owner_stays plain_hash _ _ _ _ _ _ _ E).
  - exfalso. assert (is_ok (RecordSandbox 8000 box_b (owned_by_user "bob") small None without_bob) = true) as Hok by (vm_compute; reflexivity).
    rewrite E in Hok. discriminate Hok.
Defined.

(** ** A key revoked while it is in use *)
Definition in_use : liveReq := {| lr_p := alice; lr_scope := ScopeCreate; lr_id := box_a; lr_ended := false |}.


(** ** A tenant at its quota *)
Definition two_boxes : Quota := {| q_Sandboxes := 2; q_CPUs := float_of_Z 2; q_MemoryMB := 1024 |}.
Definition fresh : accounts := {|
  ac_store := empty_store true; ac_inflight := ∅; ac_holds := ∅; ac_nodes := {["n1" := None]}; ac_now := 0 |}.
(** Two sandboxes fill the quota and a third is refused; once their node is
    lost, another is let in. *)
Definition filling : list (Z * account_op) := [
  (1000, A_reserve 1 "" small 1); (1000, A_reserve 2 "" small 1); (1000, A_reserve 3 "" small 1);
  (2000, A_record 1 "alice" "n1" (box box_a "web")); (2000, A_record 2 "alice" "n1" (box box_b "db"));
  (3000, A_reserve 4 "" small 1); (3000, A_nodes {["n1" := Some 3000]});
  (3000 + 600 * second, A_reserve 5 "" small 1)].

(** What the callers keep to, decided. *)
Definition fairb (after_ now : Z) (o : account_op) (a : accounts) : bool :=
  (ac_now a <=? now) &&
  match o with
  | A_reserve _ _ r n => (0 <=? nr_MemoryMB r) && (nr_MemoryMB r <=? 2 ^ 61) && ((n =? 0) || (n =? 1))
  | A_release _ => true
  | A_record h _ node sb =>
      match ac_holds a !! h with
      | None => true
      | Some hold =>
          let new := (qh_n hold =? 1) && (sb_MemoryMB sb <=? nr_MemoryMB (qh_r hold)) in
          (0 <=? sb_MemoryMB sb) &&
          match st_sandboxes (ac_store a) !! sb_ID sb with
          | Some r => if row_live r
                      then String.eqb (sw_org r) (qh_tenant hold) && String.eqb (sw_node r) node &&
                           (sb_MemoryMB sb <=? sw_MemoryMB r + nr_MemoryMB (qh_r hold))
                      else new
          | None => new
          end
      end
  | A_write _ o => match o with St_record _ _ _ _ => false | _ => true end
  | A_nodes nodes => forallb (λ '(_, r), negb (row_live r) || negb (isLost (ac_nodes a) now after_ (sw_node r)) ||
                                         isLost nodes now after_ (sw_node r)) (map_to_list (st_sandboxes (ac_store a)))
  end.

Lemma fairb_fair after_ now o a : fairb after_ now o a = true → fair after_ now o a.
Proof.
  unfold fairb, fair. intros [H1 H2]%andb_true_iff. split; [lia|]. destruct o as [h t r n|h|h user node sb|t o|nodes].
  - unfold share_ok. lia.
  - done.
  - intros hold E. rewrite E in H2. apply andb_true_iff in H2 as [H2 H3]. split; [lia|].
    assert ((qh_n hold =? 1) && (sb_MemoryMB sb <=? nr_MemoryMB (qh_r hold)) = true →
      qh_n hold = 1 ∧ sb_MemoryMB sb ≤ nr_MemoryMB (qh_r hold)) as Hnew by lia.
    destruct (st_sandboxes (ac_store a) !! sb_ID sb) as [r|]; [|by apply Hnew]. destruct (row_live r); [|by apply Hnew].
    apply andb_true_iff in H3 as [[H3%String.eqb_eq H4%String.eqb_eq]%andb_true_iff H5]. split_and!; [done|done|lia].
  - by destruct o.
  - intros id r Hr Hl Hlost. rewrite forallb_forall in H2. specialize (H2 (id, r)). cbn beta iota in H2. rewrite Hl, Hlost in H2. apply H2.
    apply list_elem_of_In, elem_of_map_to_list, Hr.
Qed.

Fixpoint fair_runb (q : Quota) (after_ : Z) (ops : list (Z * account_op)) (a : accounts) : bool :=
  match ops with
  | [] => true
  | (now, o) :: ops => fairb after_ now o a && fair_runb q after_ ops (account_step plain_hash q after_ now o a)
  end.
Lemma fair_runb_fair q after_ ops : ∀ a, fair_runb q after_ ops a = true → fair_run plain_hash q after_ ops a.
Proof.
  induction ops as [|[now o] ops IH]; intros a H; [exact I|]. cbn in H |- *. apply andb_true_iff in H as [H1 H2].
  split; [by apply fairb_fair|by apply IH].
Qed.


(** Reserving adds in 64 bits: a create of the largest size passes the check
    of a tenant that already has a sandbox, and while it is in flight so does
    any other. *)
Definition vast : NodeResources := {| nr_CPUs := float_of_Z 0; nr_MemoryMB := max_int64; nr_DiskMB := 0; nr_GPUs := 0 |}.
Definition large : NodeResources := {| nr_CPUs := float_of_Z 1; nr_MemoryMB := 65536; nr_DiskMB := 0; nr_GPUs := 0 |}.
Definition large_box : Sandbox := {|
  sb_ID := box_b; sb_Name := "big"; sb_State := "running"; sb_Image := ""; sb_CPUs := float_of_Z 1; sb_MemoryMB := 65536;
  sb_DiskMB := 1024; sb_EnvNames := []; sb_Network := no_network; sb_CreatedAt := 3000; sb_IdleTimeoutSecs := 0;
  sb_IdleAction := ""; sb_IdleSuspended := false; sb_LifetimeSecs := 0; sb_ExpiresAt := None; sb_SnapshotEverySecs := 0;
  sb_SnapshotKeep := 0; sb_Labels := ∅; sb_Volumes := []; sb_GPUs := [] |}.
Definition overflowing : list (Z * account_op) := [
  (1000, A_reserve 1 "" small 1); (2000, A_record 1 "alice" "n1" (box box_a "web"));
  (3000, A_reserve 2 "" vast 1); (3000, A_reserve 3 "" large 1); (4000, A_record 3 "alice" "n1" large_box)].
Definition roomy : Quota := {| q_Sandboxes := 10; q_CPUs := float_of_Z 8; q_MemoryMB := 1024 |}.

Lemma reserve_overflows :
  let a := account_run plain_hash roomy (300 * second) overflowing fresh in
  q_MemoryMB roomy = 1024 ∧ recorded (300 * second) Memory_dim a "" = 66048.
Proof. split; [done|vm_compute; reflexivity]. Qed.
