(* ===== verification/CreateExamples.v ===== *)
(** * Creates in small

    Two nodes and one caller: a create whose first node is gone, one that mounts
    a volume, and a policy on a fleet of unlike nodes. *)
From S2P Require Import Prelude GoSort GoStrings Api Spec ServiceSpec Scheduler Fleet NodeRoom Access Identity SandboxStore Secrets Records Sandboxes Daemon Requests Creates.

#[local] Instance plain_case : Unicode := ascii_unicode.
#[local] Instance open_box : AEAD := {| aead_seal _ p _ := p; aead_open _ s _ := Some s |}.
#[local] Existing Instance every_backend.

Definition creator : Principal := {|
  p_User := "alice"; p_Tenant := "acme"; p_KeyTenant := ""; p_KeyID := "key_a"; p_Scopes := [ScopeRead; ScopeCreate]; p_Sandbox := "";
  p_Bound := false; p_BoundOrg := "" |}.
Definition up (name : string) : gnode := {|
  gn_Name := name; gn_healthy := true; gn_fails := 0; gn_lastSeen := 0; gn_status := Some (cand_Status (example_node name 8192));
  gn_placed := ∅; gn_heldFree := 0; gn_downSince := 0; gn_wantCordon := false |}.
Definition two_nodes : gmap string gnode := {["n1" := up "n1"; "n2" := up "n2"]}.

(** A volume of [owner]'s on n1, whichever is named. *)
Definition asked (owner : Owner) : reads := {|
  rd_caps := Some (ns_Capabilities (cand_Status (example_node "n1" 0))); rd_caps' := None;
  rd_snapshots := λ _, true; rd_has := λ _, true; rd_groups := Ok []; rd_policy := Ok (Some ("day"%string, 86400)); rd_vault := Err ErrStore;
  rd_snapshot := λ _, None; rd_volume := λ _, Ok (Some owner) |}.
Definition alices : Owner := {| ow_User := "alice"; ow_Tenant := "acme"; ow_Node := "n1" |}.
Definition made (id : string) : Sandbox := {|
  sb_ID := id; sb_Name := ""; sb_State := "running"; sb_Image := ""; sb_CPUs := float_of_Z 1; sb_MemoryMB := 512;
  sb_DiskMB := 0; sb_EnvNames := []; sb_Network := no_network; sb_CreatedAt := 3000; sb_IdleTimeoutSecs := 0;
  sb_IdleAction := ""; sb_IdleSuspended := false; sb_LifetimeSecs := 86400; sb_ExpiresAt := None; sb_SnapshotEverySecs := 0;
  sb_SnapshotKeep := 0; sb_Labels := ∅; sb_Volumes := []; sb_GPUs := [] |}.
(** The node asked first cannot be reached; the next makes it. *)
Definition first_gone (id : string) : surroundings := {|
  su_reads := asked alices; su_claimed := true; su_listing := Ok []; su_quota := true;
  su_attempt := λ k, {| at_pool := two_nodes; at_there := λ _, true;
    at_reply := match k with O => NotSent | _ => Answered 201 (Some (made id)) end; at_recorded := true |} |}.

Definition half : NodeResources := {| nr_CPUs := float_of_Z 1; nr_MemoryMB := 512; nr_DiskMB := 0; nr_GPUs := 0 |}.
Definition mounting : CreateSandboxRequest :=
  let '(Build_CreateSandboxRequest nm im cp me di en ne it ia li sn se sk la _ rl mx gp) := empty_create in
  Build_CreateSandboxRequest nm im cp me di en ne it ia li sn se sk la [{| vm_Name := "data"; vm_Path := "/data"; vm_ReadOnly := false |}] rl mx gp.
Definition creates (su : surroundings) (q : CreateSandboxRequest) : option (list create_event * cres Sandbox) :=
  createSpread map_to_list map_to_list false half 3 creator su q ∅ None.
Definition box_2 : string := "sbx_n2_00000000000000bb".

Lemma create_ends_witness : is_Some (creates (first_gone box_2) empty_create).
Proof.
  apply (create_ends map_to_list map_to_list false half 3 ["n1"; "n2"]%string); [|cbn; lia].
  intros k n Hn. cbn [first_gone su_attempt at_pool] in Hn. vm_compute in Hn. exact Hn.
Defined.

(** What a log's node names and replies show. *)
Definition asked_nodes (o : option (list create_event * cres Sandbox)) : list (string * bool) :=
  match o with Some (log, _) => (λ x : string * node_reply, (x.1, may_have_made x.2)) <$> posts log | None => [] end.

Lemma create_makes_one_sandbox_witness : ∃ log res,
  creates (first_gone box_2) empty_create = Some (log, res) ∧ is_ok res = true ∧
  (posts log).*1 = ["n1"; "n2"]%string ∧ NoDup (posts log).*1 ∧ settled None log = true.
Proof.
  destruct (creates (first_gone box_2) empty_create) as [[log res]|] eqn:E; [|vm_compute in E; discriminate E].
  assert (match creates (first_gone box_2) empty_create with
          | Some (l, r) => is_ok r && bool_decide ((posts l).*1 = ["n1"; "n2"]%string) | None => false end = true) as Hx by (vm_compute; reflexivity).
  rewrite E in Hx. apply andb_true_iff in Hx as [Hr Hp]. apply bool_decide_eq_true in Hp. exists log, res.
  destruct (create_makes_one_sandbox _ _ _ _ _ _ _ _ _ _ _ _ E) as (Hd & Hs & _). tauto.
Defined.

(** The node's id names n1, and n2 answered: deleted, not recorded. *)
Definition box_other : string := "sbx_n1_00000000000000bb".

Definition mounting_sent : CreateSandboxRequest := owner_stamped creator ∅ (with_lifetime 86400 mounting).
Definition mount_resolved : result refusal BackendSpec :=
  resolve_create one_node listed ∅ mounting_sent "sbx_1" (Ok ()) (Ok ["data"%string]).

Lemma groups_are_their_hosts_witness :
  let g := {| eg_Name := "py"; eg_Description := ""; eg_Hosts := ["pypi.org"; "files.pythonhosted.org"]%string |} in
  let n := {| np_Mode := NetworkAllowlist; np_Allow := Some ["pypi.org"]%string; np_Deny := []; np_Groups := ["py"]%string |} in
  ∃ n', expandGroups [g] (Some n) = Ok (Some n') ∧ np_Allow n' = Some ["pypi.org"; "files.pythonhosted.org"]%string ∧
    ∀ h, h ∈ allow_list n' ↔ h ∈ ["pypi.org"]%string ∨ host_of [g] ["py"]%string h.
Proof.
  intros g n. eexists. split; [reflexivity|]. split; [reflexivity|].
  destruct (groups_are_their_hosts [g] n _ eq_refl ltac:(discriminate)) as (n' & allow & [= <-] & Ha & _ & _ & _ & _ & _ & _ & Hh).
  injection Ha as <-. exact Hh.
Defined.

(** ** A policy on unlike nodes *)
Lemma policy_bounds_lifetime_witness : ∃ q w bs,
  create_checks map_to_list false half creator (asked alices) empty_create ∅ None = Ok (q, w) ∧
  resolve_create one_node listed ∅ (owner_stamped creator ∅ q) "sbx_1" (Ok ()) (Ok []) = Ok bs ∧ 0 < bs_LifetimeSecs bs ≤ 86400.
Proof.
  destruct (create_checks map_to_list false half creator (asked alices) empty_create ∅ None) as [[q w]|] eqn:E; [|vm_compute in E; discriminate E].
  destruct (resolve_create one_node listed ∅ (owner_stamped creator ∅ q) "sbx_1" (Ok ()) (Ok [])) as [bs|] eqn:Hbs.
  2: { vm_compute in E. injection E as <- <-. vm_compute in Hbs. discriminate Hbs. }
  exists q, w, bs. split; [reflexivity|]. split; [exact Hbs|].
  apply (policy_bounds_lifetime map_to_list false half creator (asked alices) empty_create ∅ None q w "day" 86400 one_node listed ∅ "sbx_1" (Ok ()) (Ok []) bs);
    [exact E|reflexivity|lia|intros c [=]|exact Hbs].
Defined.

(** Of two nodes one bounds lifetimes at an hour, and the other does not. A day's
    policy leaves a create that asks for none to the fleet's hour, and on the
    other node it never ends. *)
Theorem policy_lost_on_unlike_nodes :
  let hour := {| lim_MaxCPUs := float_of_Z 8; lim_MaxMemoryMB := 1; lim_MaxDiskMB := 1; lim_MaxIdleTimeoutSecs := 0; lim_MaxLifetimeSecs := 3600;
                 lim_MinSnapshotEverySecs := 0; lim_MaxSnapshotKeep := 0; lim_MinMetricsExportSecs := 0; lim_MaxGPUs := 0 |} in
  let st := ns_Capabilities (cand_Status (example_node "n1" 0)) in
  let bounded := {| caps_APIVersion := ""; caps_Backend := ""; caps_Capabilities := ∅; caps_Limits := hour; caps_Network := caps_Network st |} in
  lim_MaxLifetimeSecs (combine_limits hour (caps_Limits st)) = 3600 ∧
  applyPolicyLifetime (Ok (Some ("day"%string, 86400))) (Some bounded) empty_create = Ok empty_create ∧
  resolve_lifetime (cr_LifetimeSecs empty_create) DefaultPolicy = Ok 0.
Proof. vm_compute. by split_and!. Qed.
