(* ===== verification/JobExamples.v ===== *)
(** * Jobs in small

    One job of one run, through kills, retries and cancels, and what the checks
    of a spec let through. *)
From S2P Require Import Prelude GoSort GoStrings Api EgressNames Spec ServiceSpec Fleet Access Identity Secrets Requests PublicNet Agents Jobs JobRun JobEnds JobSubmit.

#[local] Instance plain_case : Unicode := ascii_unicode.
#[local] Existing Instances plain_aead plain_aead_laws.

Definition one_spec (retries : Z) : JobSpec := {|
  js_Name := "nightly"; js_Image := ""; js_Labels := ∅; js_Command := ["make"; "test"]; js_Agent := ""; js_Prompt := ""; js_Prompts := [];
  js_Parallelism := 1; js_Completions := 1; js_Retries := retries; js_TimeoutSecs := 60; js_Env := ∅; js_Secrets := []; js_Network := None;
  js_Resources := None; js_FromSnapshot := ""; js_Keep := None; js_Notify := "" |}.
Definition one_job (retries : Z) : jobRecord := {|
  jb_ID := "job_0000000000000001"; jb_User := "alice"; jb_Tenant := "acme"; jb_Spec := one_spec retries; jb_EnvNames := []; jb_EnvSealed := None;
  jb_State := JobRunning; jb_Error := ""; jb_Cancelled := false; jb_Created := 0; jb_Finished := None; jb_Runs := [queued_run 0] |}.
Lemma one_job_fresh retries : 0 ≤ retries → fresh_job (one_job retries).
Proof. intros. by repeat split. Qed.

(** ** Its life *)
Definition try (sb : string) (pid : Z) : list job_event :=
  [J_begin 0 true R_ready; J_created 0 sb; J_record_made 0 true; J_start_process 0 true (Some pid) ""; J_record_started 0 100 true].
Definition restart : list job_event := [J_kill; J_start; J_take].
(** Killed with a sandbox made and not recorded; then with a command running,
    which goes on; it fails, and the second attempt succeeds. *)
Definition hard_life : list job_event :=
  [J_start; J_take; J_begin 0 true R_ready; J_created 0 "sbx_1"] ++ restart ++ try "sbx_2" 7 ++ restart ++
  [J_begin 0 true R_ready; J_watched 0 (W_exit 1); J_write 0 200 true] ++ try "sbx_3" 9 ++ [J_watched 0 (W_exit 0); J_write 0 300 true; J_finish 400 true].
Definition after (es : list job_event) (retries : Z) : option jworld := job_run es (job_initial (one_job retries)).
Definition shows (o : option jworld) : option (string * list (string * Z) * list string * list string) :=
  w ← o; Some (jb_State (jw_job w), (λ r, (jn_State r, jn_Attempts r)) <$> jb_Runs (jw_job w), snd <$> jw_made w, jw_down w).

Example hard_life_shown : shows (after hard_life 1) =
  Some (JobSucceeded, [(RunSucceeded, 2)], ["sbx_3"; "sbx_2"; "sbx_1"], ["sbx_3"; "sbx_2"])%string.
Proof. vm_compute. reflexivity. Qed.

Ltac story w E := match goal with |- context[after ?es ?k] => destruct (after es k) as [w|] eqn:E; [|vm_compute in E; discriminate E] end.

Lemma job_runs_bounded_witness : ∃ w r, after hard_life 1 = Some w ∧ jb_Runs (jw_job w) !! 0%nat = Some r ∧ losses 0 hard_life = 2%nat ∧
  jn_Attempts r ≤ 2 ∧ Z.of_nat (made_for 0 (jw_made w)) ≤ 2 + 2.
Proof.
  story w E. assert (∃ r, jb_Runs (jw_job w) !! 0%nat = Some r) as [r Er] by (vm_compute in E; injection E as <-; by eexists).
  exists w, r. split; [done|]. split; [done|]. split; [done|].
  destruct (job_runs_bounded (one_job 1) hard_life w 0 r (one_job_fresh 1 ltac:(lia)) E Er) as (_ & [_ Ha] & Hm & _). split; [exact Ha|exact Hm].
Defined.

Lemma job_end_is_its_runs_witness : ∃ w, after hard_life 1 = Some w ∧ length (jb_Runs (jw_job w)) = 1%nat ∧ jb_State (jw_job w) ≠ JobRunning ∧ is_Some (jb_Finished (jw_job w)).
Proof.
  story w E. exists w. split; [done|].
  destruct (job_end_is_its_runs (one_job 1) hard_life w (one_job_fresh 1 ltac:(lia)) E) as (Hl & _ & Hend). split; [exact Hl|].
  assert (jb_State (jw_job w) ≠ JobRunning) as Hs by (vm_compute in E; by injection E as <-). split; [exact Hs|]. by apply Hend.
Defined.

(** The owner's access ends while the first attempt runs; it fails, and the
    retry's check finds out. *)
Definition first_try : list job_event := [J_start; J_take] ++ try "sbx_1" 7.
Definition access_ends : list job_event := [J_watched 0 (W_exit 1); J_write 0 200 true; J_begin 0 true (R_no_access false); J_write 0 201 true; J_finish 202 true].
Lemma no_access_no_sandbox_witness : ∃ w w', after first_try 5 = Some w ∧ job_run access_ends w = Some w' ∧
  made_for 0 (jw_made w') = made_for 0 (jw_made w) ∧ jb_State (jw_job w') = JobFailed.
Proof.
  story w E. destruct (job_run access_ends w) as [w'|] eqn:E'; [|vm_compute in E; injection E as <-; vm_compute in E'; discriminate E'].
  exists w, w'. split; [done|]. split; [exact E'|]. split.
  - destruct (no_access_no_sandbox w w' access_ends 0 eq_refl E') as (_ & H & _). apply H. intros Hp. vm_compute in E. injection E as <-. vm_compute in Hp. discriminate Hp.
  - vm_compute in E. injection E as <-. vm_compute in E'. by injection E' as <-.
Defined.

(** Cancelled with the command running; all is taken down. *)
Definition cancelled_life : list job_event := first_try ++ [J_cancel; J_watched 0 W_stopped; J_write 0 200 true; J_finish 201 true].
Lemma job_leaves_no_sandbox_witness : ∃ w, after cancelled_life 3 = Some w ∧ jb_State (jw_job w) = JobCancelled ∧ "sbx_1"%string ∈ jw_down w.
Proof.
  story w E. exists w. split; [done|]. assert (jb_State (jw_job w) = JobCancelled) as Hs by (vm_compute in E; by injection E as <-). split; [exact Hs|].
  apply (job_leaves_no_sandbox (one_job 3) cancelled_life w 0 "sbx_1" (one_job_fresh 3 ltac:(lia))); [|exact E|by rewrite Hs|].
  - unfold cancelled_life, first_try, try. cbn -[job_step]. repeat (split; [done|intros ? _]). done.
  - vm_compute in E. injection E as <-. by left.
Defined.


Lemma watched_run_survives_restart_witness : ∃ w w1 w' w'', after first_try 1 = Some w ∧ job_run [J_kill; J_start] w = Some w1 ∧ job_run [J_take] w1 = Some w' ∧
  job_step (J_begin 0 true R_ready) w' = Some w'' ∧ phase_of w'' 0 = Some (Ph_watch "sbx_1" 7 100) ∧ jw_down w'' = jw_down w'.
Proof.
  story w E. assert (phase_of w 0 = Some (Ph_watch "sbx_1" 7 100)) as Hp by (vm_compute in E; by injection E as <-).
  destruct (job_run [J_kill; J_start] w) as [w1|] eqn:E1; [|vm_compute in E; injection E as <-; vm_compute in E1; discriminate E1].
  destruct (job_run [J_take] w1) as [w'|] eqn:E2; [|vm_compute in E; injection E as <-; vm_compute in E1; injection E1 as <-; vm_compute in E2; discriminate E2].
  assert (phase_of w' 0 = Some Ph_begin) as Hb by (vm_compute in E; injection E as <-; vm_compute in E1; injection E1 as <-; vm_compute in E2; by injection E2 as <-).
  destruct (job_step (J_begin 0 true R_ready) w') as [w''|] eqn:E3;
    [|vm_compute in E; injection E as <-; vm_compute in E1; injection E1 as <-; vm_compute in E2; injection E2 as <-; vm_compute in E3; discriminate E3].
  exists w, w1, w', w''. split; [done|]. split; [exact E1|]. split; [exact E2|]. split; [exact E3|].
  destruct (watched_run_survives_restart (one_job 1) first_try [J_take] w w1 w' w'' 0 "sbx_1" 7 100 R_ready (one_job_fresh 1 ltac:(lia)) E Hp ltac:(done) E1
    ltac:(repeat constructor; done) E2 Hb E3) as (_ & H1 & H2 & _). by split.
Defined.

(** ** Ends that are not the run's *)

(** The store fails one check of the owner: the run, which no one cancelled, is
    cancelled, and the job has failed. *)
Example store_error_ends_the_job : shows (after [J_start; J_take; J_begin 0 true R_store_failed; J_finish 300 true] 5) =
  Some (JobFailed, [(RunCancelled, 0)], [], [])%string.
Proof. vm_compute. reflexivity. Qed.

(** The node does not answer once, after it made the sandbox: the run has
    failed, and its sandbox runs on. *)
Example unanswered_node_keeps_the_sandbox :
  shows (after [J_start; J_take; J_begin 0 true R_ready; J_created 0 "sbx_1"; J_record_made 0 true; J_start_process 0 false None ""; J_write 0 200 true;
                J_finish 201 true] 0) = Some (JobFailed, [(RunFailed, 1)], ["sbx_1"], [])%string.
Proof. vm_compute. reflexivity. Qed.

(** A cancel that was recorded just before the gateway stopped is finished by the
    next one before the run under way has its turn. *)
Example cancel_across_a_restart_keeps_the_sandbox :
  shows (after (first_try ++ [J_kill; J_cancel; J_start; J_break; J_finish 300 true]) 0) = Some (JobCancelled, [(RunCancelled, 1)], ["sbx_1"], [])%string.
Proof. vm_compute. reflexivity. Qed.

(** Writes that fail are not attempts: more sandboxes than attempts are made. *)
Definition unrecorded (sb : string) : list job_event := [J_begin 0 true R_ready; J_created 0 sb; J_record_made 0 false; J_write 0 100 true].
Example unrecorded_attempts_are_not_counted :
  shows (after ([J_start; J_take] ++ unrecorded "a" ++ unrecorded "b" ++ unrecorded "c") 0) = Some (JobRunning, [(RunQueued, 0)], ["c"; "b"; "a"], ["c"; "b"; "a"])%string.
Proof. vm_compute. reflexivity. Qed.

(** ** Submitting *)
Definition caller : Principal := {|
  p_User := "alice"; p_Tenant := "acme"; p_KeyTenant := ""; p_KeyID := "key_a"; p_Scopes := [ScopeRead; ScopeCreate]; p_Sandbox := "";
  p_Bound := false; p_BoundOrg := "" |}.
Definition job_id : string := "job_0123456789abcdef".
Definition the_nonce : string := "000000000000".
Definition idle : jobManager := {| jm_started := true; jm_closed := false; jm_env := ∅ |}.

(** An environment written in digits, and read. *)
Fixpoint pos_digits (p : positive) : string := match p with xH => "" | xO p => String "0" (pos_digits p) | xI p => String "1" (pos_digits p) end.
Fixpoint digits_pos (s : string) : option positive :=
  match s with
  | EmptyString => Some xH
  | String a s => p ← digits_pos s; if Ascii.eqb a "0" then Some (xO p) else Some (xI p)
  end.
Lemma digits_of p : digits_pos (pos_digits p) = Some p.
Proof. by induction p as [p IH|p IH|]; cbn; rewrite ?IH. Qed.
Definition write_env (e : gmap string string) : string := pos_digits (encode e).
Definition read_env (s : string) : option (gmap string string) := p ← digits_pos s; decode p.
Lemma read_write_env e : read_env (write_env e) = Some e.
Proof. unfold read_env, write_env. rewrite digits_of. cbn. by rewrite decode_encode. Qed.

Definition agent_spec (prompts : list string) (timeout : Z) (env : gmap string string) : JobSpec := {|
  js_Name := "review"; js_Image := ""; js_Labels := ∅; js_Command := []; js_Agent := "claude"; js_Prompt := ""; js_Prompts := prompts;
  js_Parallelism := 0; js_Completions := 0; js_Retries := 2; js_TimeoutSecs := timeout; js_Env := env; js_Secrets := []; js_Network := None;
  js_Resources := None; js_FromSnapshot := ""; js_Keep := None; js_Notify := "" |}.
Definition submitted (keyed : bool) (s : JobSpec) : result Z (jobRecord * jobManager * jobs) :=
  submitJob map_to_list keyed false write_env 5 job_id the_nonce caller (Err ErrStore) (Ok []) None s idle ∅.
Definition two_prompts : JobSpec := agent_spec ["fix the tests"; "write the docs"] 0 {["CI" := "1"]}.


Lemma submitted_is keyed s : is_ok (submitted keyed s) = true → ∃ r jm m, submitted keyed s = Ok (r, jm, m).
Proof. destruct (submitted keyed s) as [[[r jm] m]|]; [by eexists _, _, _|done]. Qed.
Definition submitted_spec (keyed : bool) (s : JobSpec) : option JobSpec := match submitted keyed s with Ok (r, _, _) => Some (jb_Spec r) | Err _ => None end.


Lemma job_env_reaches_its_runs_witness : ∃ r jm m, submitted true two_prompts = Ok (r, jm, m) ∧
  jobEnv true read_env r jm = Ok {["CI" := "1"]}%string ∧ jobEnv true read_env r idle = Ok {["CI" := "1"]}%string.
Proof.
  destruct (submitted_is true two_prompts ltac:(vm_compute; reflexivity)) as (r & jm & m & E). exists r, jm, m. split; [exact E|]. unfold submitted in E.
  destruct (job_env_reaches_its_runs _ _ _ _ read_env _ _ the_nonce _ _ _ _ _ _ _ _ _ _ read_write_env ltac:(reflexivity) E) as (H1 & H2 & _).
  split; [exact H1|]. apply H2. reflexivity.
Defined.

Lemma capped_keeps_first_witness : 0 ≤ 4 ∧
  foldl (λ c p, capped_Write p c) (new_capped 4) [[1; 2]; [3]; []; [4; 5]] = {| cp_buf := [1; 2; 3; 4]; cp_max := 4; cp_cut := true |}.
Proof. split; [lia|]. rewrite (capped_keeps_first 4 [[1; 2]; [3]; []; [4; 5]]) by lia. reflexivity. Defined.

(** ** What the checks let through *)

(** A timeout of over five hundred years is accepted: as a duration it has
    wrapped around to under a second, which is the deadline a run is given. *)
Example long_timeout_wraps : is_ok (submitted true (agent_spec ["x"%string] 18446744074 ∅)) = true ∧ secs 18446744074 = 290448384.
Proof. split; vm_compute; reflexivity. Qed.

(** A job that asks for an allowlist and names no host gets its agent's host
    alone, where a create with the same policy gets the node's defaults. *)
Definition no_hosts : NetworkPolicy := {| np_Mode := NetworkAllowlist; np_Allow := None; np_Deny := []; np_Groups := [] |}.
Example bare_allowlist_is_the_agents_host :
  provider_network "api.anthropic.com" None (Some no_hosts) =
  Some {| np_Mode := NetworkAllowlist; np_Allow := Some ["api.anthropic.com"%string]; np_Deny := []; np_Groups := [] |}.
Proof. reflexivity. Qed.
