(* ===== verification/HostFs.v ===== *)
(** * The host's file system, as its calls see it

    What a process on the host does to files by path: the kernel walks a path
    component by component, through the symbolic links it meets on the way,
    and acts on the last one. A path is its components, innermost first; a
    file's content is an inode's, which several names may share. Any call may
    fail with an error of the host's; a removal that fails may have removed
    part of the tree. *)
From S2P Require Import Prelude GoSort GoStrings GoPath.

Record attr := { at_mode : Z; at_uid : Z; at_gid : Z }.
Inductive node :=
| Directory (a : attr)
| File (i : nat)
| Link (target : string)
| Special.
Record inode := { in_data : string; in_attr : attr }.

Inductive err :=
| ENOENT | ENOTDIR | ELOOP | EEXIST | EINVAL | ENOTEMPTY | EISDIR | EPERM
| HostError (n : Z)          (** EIO, ENOSPC, ENAMETOOLONG and the like *)
| Refused (why : string).    (** an error the program makes itself *)
#[export] Instance err_eq_dec : EqDecision err.
Proof. solve_decision. Defined.

(** What the host makes of the next call: nothing goes wrong, or it fails; a
    removal then leaves what is [kept], with all above it. *)
Inductive fault := fine | failing (e : err) (kept : list (list string)).

Record world := {
  w_nodes : gmap (list string) node;
  w_inodes : gmap nat inode;
  w_next : nat;                 (** every inode number in use is below *)
  w_faults : list fault
}.

Definition set_nodes (m : gmap (list string) node) (w : world) : world :=
  {| w_nodes := m; w_inodes := w_inodes w; w_next := w_next w; w_faults := w_faults w |}.
Definition set_inodes (m : gmap nat inode) (w : world) : world :=
  {| w_nodes := w_nodes w; w_inodes := m; w_next := w_next w; w_faults := w_faults w |}.

(** ** Calls: a world in, a world and an answer out *)
Definition sys (A : Type) : Type := world → world * result err A.
#[export] Instance sys_ret : MRet sys := λ A a w, (w, Ok a).
#[export] Instance sys_bind : MBind sys := λ A B f m w,
  match m w with (w, Ok a) => f a w | (w, Err e) => (w, Err e) end.
Definition fail {A} (e : err) : sys A := λ w, (w, Err e).
(** Go on whatever the answer. *)
Definition try {A B} (m : sys A) (f : result err A → sys B) : sys B := λ w, let '(w, r) := m w in f r w.

(** ** Walking a path *)
Section walk.
Context (nodes : gmap (list string) node).
(** Where [".."] stops, and where an absolute link starts again: the root of
    the file system, or of a guest. *)
Context (top : list string).

(** From [cur] along [parts], every link followed, at most [links] of them;
    [any]: the last component may be other than a directory. *)
Fixpoint walk (any : bool) (links : nat) : list string → list string → result err (list string) :=
  fix go (cur parts : list string) {struct parts} : result err (list string) :=
    match parts with
    | [] => Ok cur
    | el :: rest =>
        if String.eqb el "" || String.eqb el "." then go cur rest
        else if String.eqb el ".." then go (if bool_decide (cur = top) then cur else parent cur) rest
        else match nodes !! (el :: cur) with
             | None => Err ENOENT
             | Some (Directory _) => go (el :: cur) rest
             | Some (Link t) =>
                 match links with
                 | O => Err ELOOP
                 | S links => walk any links (if has_prefix t "/" then top else cur) (split "/" t ++ rest)
                 end
             | Some _ => if any && bool_decide (rest = []) then Ok (el :: cur) else Err ENOTDIR
             end
    end.
End walk.

Definition max_links : nat := 40.

(** The directory the kernel finds [d] to be, and the place [p]'s last
    component names in its own. *)
Definition kernel_dir (nodes : gmap (list string) node) (d : list string) : result err (list string) :=
  walk nodes [] false max_links [] (reverse d).
Definition kernel_place (nodes : gmap (list string) node) (p : list string) : result err (list string) :=
  match p with
  | [] => Ok []
  | base :: d => d ← kernel_dir nodes d; Ok (base :: d)
  end.

(** ** The calls *)

(** Runs [act] unless the host fails the call, which [undone] then leaves. *)
Definition call {A} (undone : list (list string) → world → world) (act : sys A) : sys A := λ w,
  match w_faults w with
  | [] => act w
  | f :: rest =>
      let w := {| w_nodes := w_nodes w; w_inodes := w_inodes w; w_next := w_next w; w_faults := rest |} in
      match f with fine => act w | failing e kept => (undone kept w, Err e) end
  end.
Definition unchanged_but (kept : list (list string)) (w : world) : world := w.

(** At the place the kernel takes [p] for. *)
Definition at_place {A} (p : list string) (act : list string → sys A) : sys A := λ w,
  match kernel_place (w_nodes w) p with Ok q => act q w | Err e => (w, Err e) end.

(** Looking a name up does not fail by itself. *)
Definition lstat (p : list string) : sys node := at_place p (λ q w, (w, of_option (w_nodes w !! q) ENOENT)).
Definition readlink (p : list string) : sys string := at_place p (λ q w,
  (w, match w_nodes w !! q with Some (Link t) => Ok t | Some _ => Err EINVAL | None => Err ENOENT end)).

(** Makes a node where there is none. *)
Definition make (p : list string) (n : node) : sys () := at_place p (λ q w,
  match w_nodes w !! q with
  | Some _ => (w, Err EEXIST)
  | None => (set_nodes (<[q := n]> (w_nodes w)) w, Ok ())
  end).
Definition own_attr (mode : Z) : attr := {| at_mode := mode; at_uid := 0; at_gid := 0 |}.
Definition mkdir (p : list string) (mode : Z) : sys () := call unchanged_but (make p (Directory (own_attr mode))).
Definition symlink (target : string) (p : list string) : sys () :=
  call unchanged_but (if String.eqb target "" then fail ENOENT else if contains_char "000" target then fail EINVAL else make p (Link target)).
(** [link(2)]: the source's last component is not followed. *)
Definition link (src p : list string) : sys () := call unchanged_but (at_place src (λ q w,
  match w_nodes w !! q with
  | None => (w, Err ENOENT)
  | Some (Directory _) => (w, Err EPERM)
  | Some n => make p n w
  end)).

(** [O_CREATE|O_EXCL]: a new inode, open for writing. *)
Definition create_excl (p : list string) (mode : Z) : sys nat := call unchanged_but (λ w,
  let i := w_next w in
  match make p (File i) w with
  | (w, Ok _) => ({| w_nodes := w_nodes w; w_inodes := <[i := {| in_data := ""; in_attr := own_attr mode |}]> (w_inodes w);
                     w_next := S i; w_faults := w_faults w |}, Ok i)
  | (w, Err e) => (w, Err e)
  end).
(** Writes [data] at the end; a write that fails has written some of it. *)
Definition write_data (i : nat) (data : string) (w : world) : world :=
  set_inodes (alter (λ n, {| in_data := in_data n +:+ data; in_attr := in_attr n |}) i (w_inodes w)) w.
Definition write (i : nat) (data : string) : sys () :=
  call (λ kept, write_data i (of_chars (take (length kept) (chars data)))) (λ w, (write_data i data w, Ok ())).

Definition beneath (d p : list string) : bool := bool_decide (d `suffix_of` p).
Definition names_in (nodes : gmap (list string) node) (d : list string) : list string :=
  omap (λ p, match p with base :: d' => if bool_decide (d' = d) then Some base else None | [] => None end) (map_to_list nodes).*1.

(** [os.Remove]. *)
Definition remove (p : list string) : sys () := call unchanged_but (at_place p (λ q w,
  match w_nodes w !! q with
  | None => (w, Err ENOENT)
  | Some (Directory _) => if bool_decide (names_in (w_nodes w) q = []) then (set_nodes (delete q (w_nodes w)) w, Ok ()) else (w, Err ENOTEMPTY)
  | Some _ => (set_nodes (delete q (w_nodes w)) w, Ok ())
  end)).

(** [os.RemoveAll]: the tree at [p], no link in it followed; what is not there
    is no error. *)
Definition remove_tree (q : list string) (kept : list (list string)) (w : world) : world :=
  set_nodes (filter (λ kv, negb (beneath q kv.1) || existsb (beneath kv.1) kept = true) (w_nodes w)) w.
Definition remove_all (p : list string) : sys () :=
  call (λ kept w, match kernel_place (w_nodes w) p with Ok q => remove_tree q kept w | Err _ => w end)
    (λ w, match kernel_place (w_nodes w) p with
          | Ok q => (remove_tree q [] w, Ok ())
          | Err ENOENT => (w, Ok ())
          | Err e => (w, Err e)
          end).

(** [os.ReadDir]: the names, sorted. *)
Definition read_dir (d : list string) : sys (list string) := call unchanged_but (λ w,
  match kernel_dir (w_nodes w) d with
  | Ok q => (w, Ok (sort_stable str_ltb (names_in (w_nodes w) q)))
  | Err e => (w, Err e)
  end).

(** [os.Chmod] follows the last component, [os.Lchown] does not. *)
Definition set_attr (f : attr → attr) (q : list string) (w : world) : world * result err () :=
  match w_nodes w !! q with
  | Some (Directory a) => (set_nodes (<[q := Directory (f a)]> (w_nodes w)) w, Ok ())
  | Some (File i) => (set_inodes (alter (λ n, {| in_data := in_data n; in_attr := f (in_attr n) |}) i (w_inodes w)) w, Ok ())
  | Some _ => (w, Ok ())
  | None => (w, Err ENOENT)
  end.
Definition chmod (p : list string) (mode : Z) : sys () := call unchanged_but (λ w,
  match walk (w_nodes w) [] true max_links [] (reverse p) with
  | Ok q => set_attr (λ a, {| at_mode := mode; at_uid := at_uid a; at_gid := at_gid a |}) q w
  | Err e => (w, Err e)
  end).
Definition lchown (p : list string) (uid gid : Z) : sys () :=
  call unchanged_but (at_place p (set_attr (λ a, {| at_mode := at_mode a; at_uid := uid; at_gid := gid |}))).
