(* ===== verification/Unpack.v ===== *)
(** * Unpacking an image's layers (internal/image/unpack.go, rootfs.go)

    A layer is what its registry serves: untrusted names, links and contents,
    written below a directory of the host, as root. The calls are [HostFs]'s;
    the reader of the archive is an argument: its entries in order, each with
    what reading its content gives. *)
From S2P Require Import Prelude GoSort GoStrings GoPath HostFs.

Inductive typeflag := TypeDir | TypeReg | TypeRegA | TypeSymlink | TypeLink | TypeChar | TypeBlock | TypeFifo | TypeOther.
Record header := {
  h_Name : string; h_Typeflag : typeflag; h_Size : Z; h_Mode : Z; h_Uid : Z; h_Gid : Z; h_Linkname : string;
  h_data : string;            (** what the reader gives for the content *)
  h_data_err : option err     (** and the error it ends with, if not its end *)
}.

Record UnpackStats := {
  us_Files : Z; us_Dirs : Z; us_Symlinks : Z; us_Hardlinks : Z;
  us_SkippedDevices : Z; us_UnmappedOwners : Z; us_Bytes : Z
}.
Definition no_stats : UnpackStats :=
  {| us_Files := 0; us_Dirs := 0; us_Symlinks := 0; us_Hardlinks := 0; us_SkippedDevices := 0; us_UnmappedOwners := 0; us_Bytes := 0 |}.
Definition add_stats (files dirs symlinks hardlinks skipped unmapped bytes : Z) (s : UnpackStats) : UnpackStats := {|
  us_Files := us_Files s + files; us_Dirs := us_Dirs s + dirs; us_Symlinks := us_Symlinks s + symlinks;
  us_Hardlinks := us_Hardlinks s + hardlinks; us_SkippedDevices := us_SkippedDevices s + skipped;
  us_UnmappedOwners := us_UnmappedOwners s + unmapped; us_Bytes := us_Bytes s + bytes |}.

(** ** Names *)
Fixpoint trim_slashes (l : list ascii) : list ascii :=
  match l with c :: t => if is_char "/" c then trim_slashes t else l | [] => [] end.

Definition cleanEntryName (name : string) : result err string :=
  let n := match cut_prefix name "./" with Some r => r | None => name end in
  let n := of_chars (trim_slashes (chars n)) in
  reject_if (bool_decide (".."%string ∈ split "/" n)) (Refused "climbs out of the image");;
  reject_if (contains_char "000" n) (Refused "contains a NUL");;
  Ok (of_chars (tail (chars (clean_rooted ("/" +:+ n))))).

(** [path.Split]. *)
Definition path_split (rel : string) : string * string :=
  match last_index_byte rel "/" with
  | Some i => (of_chars (take (S i) (chars rel)), of_chars (drop (S i) (chars rel)))
  | None => (""%string, rel)
  end.

(** ** Resolving a path inside [root] *)
Section resolve.
Context (root : list string) (create : bool).

Fixpoint resolve_from (links : nat) : list string → list string → sys (list string) :=
  fix go (cur parts : list string) {struct parts} : sys (list string) :=
    match parts with
    | [] => mret cur
    | el :: rest =>
        if String.eqb el "" || String.eqb el "." then go cur rest
        else if String.eqb el ".." then go (if bool_decide (cur = root) then cur else parent cur) rest
        else try (lstat (el :: cur)) (λ r,
          match r with
          | Err ENOENT => if create then mkdir (el :: cur) 493;; go (el :: cur) rest else fail ENOENT
          | Err e => fail e
          | Ok (Link _) =>
              match links with
              | O => fail (Refused "too many levels of symbolic links")
              | S links =>
                  t ← readlink (el :: cur);
                  resolve_from links (if has_prefix t "/" then root else cur) (split "/" t ++ rest)
              end
          | Ok (Directory _) => go (el :: cur) rest
          | Ok _ => fail (Refused "not a directory")
          end)
    end.
End resolve.

Definition maxSymlinkHops : nat := 40.
Definition resolve (root : list string) (rel : string) (create : bool) : sys (list string) :=
  resolve_from root create maxSymlinkHops root (split "/" rel).
Definition resolveDir (root : list string) (rel : string) : sys (list string) := resolve root rel true.

(** [filepath.Join(dir, base)] of one component. *)
Definition join_base (dir : list string) (base : string) : list string := clean_step dir base.

Definition lift {A} (r : result err A) : sys A := λ w, (w, r).

Definition resolveLinkTarget (root : list string) (name : string) : sys (list string) :=
  rel ← lift (cleanEntryName name);
  let '(dir, base) := path_split rel in
  parent ← resolve root dir false;
  n ← lstat (join_base parent base);
  match n with
  | File _ => mret (join_base parent base)
  | _ => fail (Refused "not a regular file")
  end.

Definition replace (target : list string) : sys () :=
  try (lstat target) (λ r,
    match r with
    | Err ENOENT => mret ()
    | Err e => fail e
    | Ok (Directory _) => remove_all target
    | Ok _ => remove target
    end).

Fixpoint remove_each (dir : list string) (names : list string) : sys () :=
  match names with
  | [] => mret ()
  | n :: rest => remove_all (n :: dir);; remove_each dir rest
  end.
Definition emptyDir (dir : list string) : sys () := names ← read_dir dir; remove_each dir names.

(** ** One entry *)

(** The Unix bits of [h.FileInfo().Mode()] that are kept. *)
Definition entry_mode (isRoot : bool) (h : header) : Z :=
  let mode := Z.land (h_Mode h) 4095 in
  if isRoot then mode
  else let mode := Z.ldiff mode 3072 in
       match h_Typeflag h with TypeDir => Z.lor mode 448 | _ => mode end.

Definition make_dir (target : list string) : sys () :=
  try (lstat target) (λ r,
    match r with Ok (Directory _) | Err _ => mret () | Ok _ => remove target end;;
    try (mkdir target 493) (λ r, match r with Ok _ | Err EEXIST => mret () | Err e => fail e end)).

(** [io.LimitReader]: what the size lets through. *)
Definition limited_data (h : header) : string := of_chars (take (Z.to_nat (Z.min (h_Size h) (strlen (h_data h)))) (chars (h_data h))).
Definition make_file (maxBytes : Z) (h : header) (bytes : Z) (target : list string) : sys () :=
  replace target;;
  (if int_add bytes (h_Size h) >? maxBytes then fail (Refused "image exceeds its bytes of content") else mret ());;
  i ← create_excl target 384;
  write i (limited_data h);;
  match h_data_err h with Some e => fail e | None => mret () end.

(** The owner and the mode of a file or directory just made. *)
Definition finish_entry (isRoot : bool) (h : header) (target : list string) (st : UnpackStats) : sys UnpackStats :=
  st ← (if isRoot then
          try (lchown target (h_Uid h) (h_Gid h)) (λ r,
            match r with
            | Ok _ => mret st
            | Err EINVAL => mret (add_stats 0 0 0 0 0 1 0 st)
            | Err e => fail e
            end)
        else mret st);
  chmod target (entry_mode isRoot h);;
  mret st.

(** What is not a whiteout, at its place. *)
Definition place_entry (root : list string) (isRoot : bool) (maxBytes : Z) (h : header) (target : list string) (st : UnpackStats) : sys UnpackStats :=
  match h_Typeflag h with
  | TypeDir => make_dir target;; finish_entry isRoot h target (add_stats 0 1 0 0 0 0 0 st)
  | TypeReg | TypeRegA =>
      make_file maxBytes h (us_Bytes st) target;;
      finish_entry isRoot h target (add_stats 1 0 0 0 0 0 (strlen (limited_data h)) st)
  | TypeSymlink => replace target;; symlink (h_Linkname h) target;; mret (add_stats 0 0 1 0 0 0 0 st)
  | TypeLink =>
      src ← resolveLinkTarget root (h_Linkname h);
      replace target;; link src target;; mret (add_stats 0 0 0 1 0 0 0 st)
  | TypeChar | TypeBlock | TypeFifo => mret (add_stats 0 0 0 0 1 0 0 st)
  | TypeOther => mret st
  end.

Definition unpack_at (root : list string) (isRoot : bool) (maxBytes : Z) (h : header) (dir base : string) (st : UnpackStats) : sys UnpackStats :=
  parent ← resolveDir root dir;
  if String.eqb base ".wh..wh..opq" then emptyDir parent;; mret st
  else match cut_prefix base ".wh." with
  | Some name =>
      if String.eqb name "" || String.eqb name "." || String.eqb name ".." then fail (Refused "malformed whiteout")
      else remove_all (name :: parent);; mret st
  | None => place_entry root isRoot maxBytes h (join_base parent base) st
  end.

Definition unpack_entry (root : list string) (isRoot : bool) (maxBytes : Z) (h : header) (st : UnpackStats) : sys UnpackStats :=
  rel ← lift (cleanEntryName (h_Name h));
  if String.eqb rel "" then mret st
  else let '(dir, base) := path_split rel in unpack_at root isRoot maxBytes h dir base st.

(** The entries as [tar.Reader.Next] gives them; an error ends the layer. *)
Fixpoint Unpack (root : list string) (isRoot : bool) (maxBytes : Z) (layer : list (result err header)) (st : UnpackStats) : sys UnpackStats :=
  match layer with
  | [] => mret st
  | Err e :: _ => fail e
  | Ok h :: rest => st ← unpack_entry root isRoot maxBytes h st; Unpack root isRoot maxBytes rest st
  end.

(** An image's layers, in order, the counts theirs together. *)
Fixpoint unpack_layers (root : list string) (isRoot : bool) (maxBytes : Z) (layers : list (list (result err header))) (st : UnpackStats)
    : sys UnpackStats :=
  match layers with
  | [] => mret st
  | l :: rest => st ← Unpack root isRoot maxBytes l st; unpack_layers root isRoot maxBytes rest st
  end.

(** ** The rest of what fills a root disk *)

(** [copyFile], given the source's content. *)
Definition copyFile (data : string) (dst : list string) (mode : Z) : sys () :=
  i ← create_excl dst mode; write i data;; chmod dst mode.

(** A kit's tree as [filepath.WalkDir] visits it, by relative path. *)
Inductive kit_node := KitDir | KitLink (target : string) | KitFile (data : string) (mode : Z) | KitOther.
Definition copy_node (root : list string) (rel : string) (n : kit_node) : sys () :=
  match n with
  | KitDir => resolveDir root rel;; mret ()
  | _ =>
      parent ← resolveDir root (Dir rel);
      let dst := join_base parent (snd (path_split rel)) in
      replace dst;;
      match n with
      | KitLink t => symlink t dst
      | KitFile data mode => copyFile data dst (Z.land mode 511)
      | _ => fail (Refused "not a file, directory or symlink")
      end
  end.
Fixpoint copyTree (root : list string) (kit : list (string * kit_node)) : sys () :=
  match kit with
  | [] => mret ()
  | (rel, n) :: rest => copy_node root rel n;; copyTree root rest
  end.

Definition GuestAgentPath : string := "/sbin/sandbox-guestd".
Definition ImageConfigPath : string := "/etc/sandbox/image.json".
(** A number as [fs.FileMode] has only its permission bits where Unix has them. *)
Definition go_perm (mode : Z) : Z := Z.land mode 511.
Fixpoint prepare (root : list string) (dirs : list string) : sys () :=
  match dirs with
  | [] => mret ()
  | d :: rest =>
      p ← resolveDir root d;
      (if String.eqb d "tmp" then try (chmod p (go_perm 1023)) (λ _, mret ()) else mret ());;
      prepare root rest
  end.

(** The directory found, or, where the error is dropped, the process's own,
    which is what a name with no directory is in. *)
Definition or_cwd (cwd : list string) (r : result err (list string)) : list string := match r with Ok p => p | Err _ => cwd end.
Definition inject (cwd root : list string) (agent config : string) : sys () :=
  prepare root ["proc"; "sys"; "dev"; "run"; "tmp"; "mnt"; "workspace"; "sbin"; "etc/sandbox"]%string;;
  try (resolveDir root "sbin") (λ r,
    let dst := "sandbox-guestd"%string :: or_cwd cwd r in
    replace dst;;
    copyFile agent dst 493;;
    try (resolveDir root "etc/sandbox") (λ r,
      let cfgPath := "image.json"%string :: or_cwd cwd r in
      replace cfgPath;;
      i ← create_excl cfgPath 420;
      write i config)).
