(* ===== verification/UnpackSafe.v ===== *)
(** * What unpacking may touch

    Whatever a layer or a kit names, and whatever the host does to a call, only
    what lies below the root changes; and a path is resolved as the guest's
    kernel resolves it in the tree that results. *)
From S2P Require Import Prelude GoSort GoStrings GoPath HostFs Unpack.

(** ** What stays *)
Definition within_root (root p : list string) : Prop := ∃ x k, p = (x :: k) ++ root.

(** Nothing but what is below [root] has changed: no name, and no inode that a
    name elsewhere has. *)
Definition frame (root : list string) (w w' : world) : Prop :=
  (∀ p, ¬ within_root root p → w_nodes w' !! p = w_nodes w !! p) ∧
  (∀ p i, ¬ within_root root p → w_nodes w !! p = Some (File i) → w_inodes w' !! i = w_inodes w !! i).

(** [d] is a directory, and so is every one above it, by plain names. *)
Definition real (w : world) (d : list string) : Prop :=
  Forall plain_segment d ∧ ∀ s, s `suffix_of` d → ∃ a, w_nodes w !! s = Some (Directory a).

(** The root is there, its files have no name outside it, and new inodes are
    new. *)
Record sound (root : list string) (w : world) : Prop := {
  so_root : real w root;
  so_own : ∀ p q i, within_root root p → ¬ within_root root q → w_nodes w !! p = Some (File i) → w_nodes w !! q ≠ Some (File i);
  so_fresh : ∀ p i, w_nodes w !! p = Some (File i) → (i < w_next w)%nat
}.

Section logic.
Context (root : list string).

Lemma frame_refl w : frame root w w.
Proof. by split. Qed.
Lemma frame_trans w1 w2 w3 : frame root w1 w2 → frame root w2 w3 → frame root w1 w3.
Proof.
  intros [Hn Hi] [Hn' Hi']. split; [intros p Hp; by rewrite Hn', Hn|].
  intros p i Hp Hf. rewrite (Hi' p i); [by eapply Hi|done|by rewrite Hn].
Qed.

(** From a sound world with [P], [m] leaves all else alone, the world sound,
    and [Q] of its answer. *)
Definition triple (P : world → Prop) {A} (m : sys A) (Q : A → world → Prop) : Prop :=
  ∀ w, sound root w → P w →
    frame root w (m w).1 ∧ sound root (m w).1 ∧ ∀ a, (m w).2 = Ok a → Q a (m w).1.

Lemma triple_ret {A} (P : world → Prop) (a : A) (Q : A → world → Prop) : (∀ w, P w → Q a w) → triple P (mret a) Q.
Proof. intros HQ w Hs Hp. split_and!; [apply frame_refl|done|]. intros ? [= <-]. by apply HQ. Qed.

Lemma triple_fail {A} (P : world → Prop) e (Q : A → world → Prop) : triple P (fail e) Q.
Proof. intros w Hs Hp. split_and!; [apply frame_refl|done|done]. Qed.

Lemma triple_lift {A} (P : world → Prop) (r : result err A) : triple P (lift r) (λ a w, r = Ok a ∧ P w).
Proof. intros w Hs Hp. split_and!; [apply frame_refl|done|]. by intros a [= ->]. Qed.

Lemma triple_try {A B} (P : world → Prop) (m : sys A) (f : result err A → sys B) (M : result err A → world → Prop) Q :
  (∀ w, sound root w → P w → frame root w (m w).1 ∧ sound root (m w).1 ∧ M (m w).2 (m w).1) →
  (∀ r, triple (M r) (f r) Q) → triple P (try m f) Q.
Proof.
  intros Hm Hf w Hs Hp. destruct (Hm w Hs Hp) as (Hfr & Hs' & HM). unfold try. destruct (m w) as [w1 r]. cbn in *.
  destruct (Hf r w1 Hs' HM) as (Hfr2 & Hs2 & HQ). split_and!; [by eapply frame_trans|done|done].
Qed.

Lemma triple_bind {A B} (P : world → Prop) (m : sys A) (f : A → sys B) (M : A → world → Prop) Q :
  triple P m M → (∀ a, triple (M a) (f a) Q) → triple P (m ≫= f) Q.
Proof.
  intros Hm Hf w Hs Hp. destruct (Hm w Hs Hp) as (Hfr & Hs' & HM). unfold mbind, sys_bind.
  destruct (m w) as [w1 [a|e]]; cbn in *; [|split_and!; done].
  destruct (Hf a w1 Hs' (HM a eq_refl)) as (Hfr2 & Hs2 & HQ). split_and!; [by eapply frame_trans|done|done].
Qed.

Lemma sys_bind_assoc {A B C} (m : sys A) (k : sys B) (f : B → sys C) w : ((m;; k) ≫= f) w = (m;; k ≫= f) w.
Proof. unfold mbind, sys_bind. by destruct (m w) as [w' [a|e]]. Qed.

Lemma triple_weaken {A} (P P' : world → Prop) (m : sys A) (Q Q' : A → world → Prop) :
  triple P' m Q' → (∀ w, sound root w → P w → P' w) → (∀ a w, Q' a w → Q a w) → triple P m Q.
Proof. intros Hm HP HQ w Hs Hp. destruct (Hm w Hs (HP w Hs Hp)) as (? & ? & Ha). split_and!; [done..|]. intros a Ho. by apply HQ, Ha. Qed.

Lemma triple_case {A} (P : world → Prop) (m1 m2 : sys A) (b : bool) Q :
  (b = true → triple P m1 Q) → (b = false → triple P m2 Q) → triple P (if b then m1 else m2) Q.
Proof. destruct b; auto. Qed.
End logic.

(** ** The kernel on real directories *)
Lemma plain_tests s : plain_segment s →
  String.eqb s "" = false ∧ String.eqb s "." = false ∧ String.eqb s ".." = false.
Proof. intros (H1 & H2 & H3). by rewrite !String.eqb_neq. Qed.

Lemma join_base_plain d b : plain_segment b → join_base d b = b :: d.
Proof. intros (E1 & E2 & E3)%plain_tests. unfold join_base, clean_step. by rewrite E1, E2, E3. Qed.

Lemma real_cons w x d : plain_segment x → real w d → (∃ a, w_nodes w !! (x :: d) = Some (Directory a)) → real w (x :: d).
Proof.
  intros Hx [Hp Hd] Ha. split; [by constructor|]. intros s [k Hk]. destruct k as [|y k]; [by simplify_eq/=|].
  injection Hk as -> Hk. apply Hd. by exists k.
Qed.

Lemma real_up w x d : real w (x :: d) → real w d.
Proof. intros [Hp Hd]. apply Forall_cons in Hp as [_ Hp]. split; [done|]. intros s Hs. apply Hd. by apply suffix_cons_r. Qed.

Lemma walk_real nodes top any links rest parts : ∀ cur,
  Forall plain_segment parts →
  (∀ s, s `suffix_of` (reverse parts ++ cur) → cur `suffix_of` s → s ≠ cur → ∃ a, nodes !! s = Some (Directory a)) →
  walk nodes top any links cur (parts ++ rest) = walk nodes top any links (reverse parts ++ cur) rest.
Proof.
  induction parts as [|el parts IH]; intros cur Hp Hd; [done|].
  apply Forall_cons in Hp as [Hel Hp]. rewrite reverse_cons, <- app_assoc in Hd |- *. cbn [app] in Hd |- *.
  destruct (Hd (el :: cur)) as [a Ha].
  { by exists (reverse parts). }
  { by exists [el]. }
  { intros E. apply (f_equal length) in E. cbn in E. lia. }
  specialize (IH (el :: cur) Hp). destruct (plain_tests el Hel) as (E1 & E2 & E3).
  destruct links; cbn [walk]; rewrite E1, E2, E3, Ha; cbn [orb]; apply IH.
  all: intros s Hs Hc Hne; apply Hd; [done|by etrans; [|exact Hc]; apply suffix_cons_r|].
  all: intros ->; apply suffix_length in Hc; cbn in Hc; lia.
Qed.

Lemma walk_down w any rest d : real w d → walk (w_nodes w) [] any max_links [] (reverse d ++ rest) = walk (w_nodes w) [] any max_links d rest.
Proof.
  intros [Hp Hd]. rewrite walk_real; [by rewrite reverse_involutive, app_nil_r|by apply Forall_reverse|].
  rewrite reverse_involutive, app_nil_r. intros s Hs _ _. by apply Hd.
Qed.

Lemma kernel_dir_real w d : real w d → kernel_dir (w_nodes w) d = Ok d.
Proof. intros Hr. unfold kernel_dir. rewrite <- (app_nil_r (reverse d)). by rewrite walk_down. Qed.

Lemma kernel_place_real w x d : real w d → kernel_place (w_nodes w) (x :: d) = Ok (x :: d).
Proof. intros Hr. unfold kernel_place. by rewrite (kernel_dir_real _ _ Hr). Qed.

(** Where directories have only gone, the kernel finds the same place or none. *)
Lemma walk_pruned nodes top links parts : ∀ cur q,
  Forall plain_segment parts →
  (∀ s, s `suffix_of` (reverse parts ++ cur) → cur `suffix_of` s → s ≠ cur → nodes !! s = None ∨ ∃ a, nodes !! s = Some (Directory a)) →
  walk nodes top false links cur parts = Ok q → q = reverse parts ++ cur.
Proof.
  induction parts as [|el parts IH]; intros cur q Hp Hd; [by destruct links; intros [= <-]|].
  apply Forall_cons in Hp as [Hel Hp]. rewrite reverse_cons, <- app_assoc in Hd |- *. cbn [app] in Hd |- *.
  destruct (plain_tests el Hel) as (E1 & E2 & E3).
  assert (∀ q, walk nodes top false links (el :: cur) parts = Ok q → q = reverse parts ++ el :: cur) as IH'.
  { intros q'. apply IH; [done|]. intros s Hs Hc Hne. apply Hd; [done|by etrans; [|exact Hc]; apply suffix_cons_r|].
    intros ->. apply suffix_length in Hc. cbn in Hc. lia. }
  destruct (Hd (el :: cur)) as [Hn|[a Ha]].
  { by exists (reverse parts). }
  { by exists [el]. }
  { intros E. apply (f_equal length) in E. cbn in E. lia. }
  - destruct links; cbn [walk]; by rewrite E1, E2, E3, Hn.
  - destruct links; cbn [walk]; rewrite E1, E2, E3, Ha; cbn [orb]; apply IH'.
Qed.

(** ** A change at and below one place *)
Section edits.
Context (root : list string).

Record edit (q : list string) (w w' : world) : Prop := {
  ed_else : ∀ p, ¬ q `suffix_of` p → w_nodes w' !! p = w_nodes w !! p;
  ed_files : ∀ p i, w_nodes w' !! p = Some (File i) →
    w_nodes w !! p = Some (File i) ∨
    p = q ∧ ((w_next w ≤ i < w_next w')%nat ∨ ∃ p', within_root root p' ∧ w_nodes w !! p' = Some (File i));
  ed_inodes : ∀ p i, ¬ within_root root p → w_nodes w !! p = Some (File i) → w_inodes w' !! i = w_inodes w !! i;
  ed_next : (w_next w ≤ w_next w')%nat
}.

Lemma inside_cons x d : root `suffix_of` d → within_root root (x :: d).
Proof. intros [k ->]. by exists x, k. Qed.
Lemma inside_below q p : within_root root q → q `suffix_of` p → within_root root p.
Proof.
  intros (x & k & ->) [k' ->]. destruct k' as [|y k']; [by exists x, k|]. exists y, (k' ++ x :: k). cbn. by rewrite <- app_assoc.
Qed.
Lemma inside_root : ¬ within_root root root.
Proof. intros (x & k & E). apply (f_equal length) in E. rewrite length_app in E. cbn in E. lia. Qed.
Lemma not_below_self (x : string) d : ¬ (x :: d) `suffix_of` d.
Proof. intros H%suffix_length. cbn in H. lia. Qed.
Lemma suffix_of_suffix (q s d : list string) : s `suffix_of` d → ¬ q `suffix_of` d → ¬ q `suffix_of` s.
Proof. intros Hs Hq Hqs. apply Hq. by etrans. Qed.

Lemma edit_real q w w' d : edit q w w' → real w d → ¬ q `suffix_of` d → real w' d.
Proof.
  intros He [Hp Hd] Hq. split; [done|]. intros s Hs. rewrite (ed_else _ _ _ He); [by apply Hd|by eapply suffix_of_suffix].
Qed.

Lemma edit_frame q w w' : within_root root q → edit q w w' → frame root w w'.
Proof.
  intros Hq He. split; [|by apply (ed_inodes _ _ _ He)]. intros p Hp. apply (ed_else _ _ _ He).
  intros Hqp. apply Hp. by apply (inside_below q).
Qed.

Lemma edit_sound q w w' : within_root root q → edit q w w' → sound root w → sound root w'.
Proof.
  intros Hq He [Hroot Hown Hfresh]. split.
  - eapply edit_real; [done..|]. intros Hqr. apply inside_root. by apply (inside_below q).
  - intros p r i Hp Hr Hf Hf'.
    assert (w_nodes w !! r = Some (File i)) as Hw.
    { rewrite <- Hf'. symmetry. apply (ed_else _ _ _ He). intros Hqr. apply Hr. by apply (inside_below q). }
    destruct (ed_files _ _ _ He p i Hf) as [Hf0|[_ [Hn|(p' & Hp' & Hf0)]]]; [by eapply (Hown p r)| |by eapply (Hown p' r)].
    apply Hfresh in Hw. lia.
  - intros p i Hf. pose proof (ed_next _ _ _ He).
    destruct (ed_files _ _ _ He p i Hf) as [Hf0|[_ [Hn|(p' & Hp' & Hf0)]]]; [|lia|]; apply Hfresh in Hf0; lia.
Qed.

(** The faults that are left play no part. *)
Definition with_faults (f : list fault) (w : world) : world :=
  {| w_nodes := w_nodes w; w_inodes := w_inodes w; w_next := w_next w; w_faults := f |}.
Lemma edit_faults q f w w' : edit q (with_faults f w) w' → edit q w w'.
Proof. by intros []. Qed.
Lemma edit_refl q w : edit q w w.
Proof. split; auto. Qed.

(** A call at [q]: what it does, and what its failing leaves, are edits there. *)
Lemma call_edit {A} q undone (act : sys A) w (Q : A → world → Prop) :
  (∀ f, edit q (with_faults f w) (act (with_faults f w)).1 ∧
        ∀ a, (act (with_faults f w)).2 = Ok a → Q a (act (with_faults f w)).1) →
  (∀ f kept, edit q (with_faults f w) (undone kept (with_faults f w))) →
  edit q w (call undone act w).1 ∧ ∀ a, (call undone act w).2 = Ok a → Q a (call undone act w).1.
Proof.
  intros Ha Hu. unfold call. destruct (w_faults w) as [|[|e kept] f] eqn:E.
  - specialize (Ha []). replace (with_faults [] w) with w in Ha by (destruct w; cbn in *; by subst). done.
  - destruct (Ha f) as [H1 H2]. split; [by eapply edit_faults|done].
  - split; [by eapply edit_faults, Hu|done].
Qed.

Lemma real_faults f w d : real (with_faults f w) d ↔ real w d.
Proof. done. Qed.

(** *** Putting a node where there was none *)
Lemma make_edit q n w :
  (∀ i, n = File i → ∃ p', within_root root p' ∧ w_nodes w !! p' = Some (File i)) → edit q w (set_nodes (<[q := n]> (w_nodes w)) w).
Proof.
  intros Hn. split; cbn; [| |done|done].
  - intros p Hp. apply lookup_insert_ne. intros ->. by apply Hp.
  - intros p i. destruct (decide (p = q)) as [->|Hne]; [|rewrite lookup_insert_ne by done; auto].
    rewrite lookup_insert_eq. intros [= ->]. right. split; [done|]. right. by apply Hn.
Qed.

Lemma prune_edit q w m :
  (∀ p, ¬ q `suffix_of` p → m !! p = w_nodes w !! p) → m ⊆ w_nodes w → edit q w (set_nodes m w).
Proof. intros He Hm. split; cbn; [done| |done|done]. intros p i Hf. left. by eapply lookup_weaken. Qed.
End edits.

(** ** The calls, at a place below the root *)
Section calls.
Context (root : list string) (x : string) (d : list string).
Context (Hd : root `suffix_of` d) (Hx : plain_segment x).
Let q : list string := x :: d.
Let Hq : within_root root q := inside_cons root x d Hd.

Definition here (w : world) : Prop := real w d.
Definition no_link (w : world) : Prop := here w ∧ ∀ t, w_nodes w !! q ≠ Some (Link t).
Definition nothing (w : world) : Prop := here w ∧ w_nodes w !! q = None.

Lemma sound_faults f w : sound root w → sound root (with_faults f w).
Proof. by intros []. Qed.

Lemma edit_here w w' : edit root q w w' → here w → here w'.
Proof. intros He Hw. by apply (edit_real root q w); [| |apply not_below_self]. Qed.

(** An edit at [q], its answer aside. *)
Lemma triple_edit {A} (P : world → Prop) (m : sys A) (Q : A → world → Prop) :
  (∀ w, sound root w → P w → edit root q w (m w).1 ∧ ∀ a, (m w).2 = Ok a → Q a (m w).1) → triple root P m Q.
Proof.
  intros Hm w Hs Hp. destruct (Hm w Hs Hp) as [He Ha]. split_and!; [by eapply edit_frame|by eapply edit_sound|done].
Qed.

Lemma triple_call {A} (P : world → Prop) undone (act : sys A) (Q : A → world → Prop) :
  (∀ f w, P w → P (with_faults f w)) →
  (∀ w, sound root w → P w → edit root q w (act w).1 ∧ ∀ a, (act w).2 = Ok a → Q a (act w).1) →
  (∀ w kept, sound root w → P w → edit root q w (undone kept w)) → triple root P (call undone act) Q.
Proof.
  intros Hf Ha Hu. apply triple_edit. intros w Hs Hp. apply call_edit.
  - intros f. apply Ha; [by apply sound_faults|by apply Hf].
  - intros f kept. apply Hu; [by apply sound_faults|by apply Hf].
Qed.

Lemma place_here w : here w → kernel_place (w_nodes w) q = Ok q.
Proof. apply kernel_place_real. Qed.

Lemma at_place_here {A} w (act : list string → sys A) : here w → at_place q act w = act q w.
Proof. intros Hw. unfold at_place. by rewrite (place_here _ Hw). Qed.

Lemma lstat_here w : here w → lstat q w = (w, of_option (w_nodes w !! q) ENOENT).
Proof. intros Hw. unfold lstat. by rewrite at_place_here. Qed.

Lemma make_here n w :
  here w → make q n w = match w_nodes w !! q with Some _ => (w, Err EEXIST) | None => (set_nodes (<[q := n]> (w_nodes w)) w, Ok ()) end.
Proof. intros Hw. unfold make. by rewrite at_place_here. Qed.

(** Making a directory or a link. *)
Lemma make_ok n w :
  (∀ i, n = File i → ∃ p', within_root root p' ∧ w_nodes w !! p' = Some (File i)) → here w →
  edit root q w (make q n w).1 ∧ ∀ u, (make q n w).2 = Ok u → here (make q n w).1 ∧ w_nodes (make q n w).1 !! q = Some n.
Proof.
  intros Hn Hw. rewrite make_here by done. destruct (w_nodes w !! q) eqn:E; cbn; [split; [apply edit_refl|done]|].
  pose proof (make_edit root q n w Hn) as He. split; [done|]. intros _ _. split; [by eapply edit_here|]. apply lookup_insert_eq.
Qed.

Lemma mkdir_triple mode : triple root here (mkdir q mode) (λ _ w, real w q).
Proof.
  apply triple_call; [done| |intros; apply edit_refl]. intros w Hs Hw.
  destruct (make_ok (Directory (own_attr mode)) w ltac:(done) Hw) as [He Ha]. split; [done|].
  intros u Hu. destruct (Ha u Hu) as [Hh Hn]. by apply real_cons; eauto.
Qed.

Lemma symlink_triple t : triple root here (symlink t q) (λ _ _, True).
Proof.
  apply triple_call; [done| |intros; apply edit_refl]. intros w Hs Hw.
  destruct (String.eqb t ""); [split; [apply edit_refl|done]|].
  destruct (contains_char "000" t); [split; [apply edit_refl|done]|].
  destruct (make_ok (Link t) w ltac:(done) Hw) as [He _]. done.
Qed.

(** *** Removing *)
Lemma subset_edit w m : (∀ p, ¬ q `suffix_of` p → m !! p = w_nodes w !! p) → m ⊆ w_nodes w → edit root q w (set_nodes m w).
Proof. apply prune_edit. Qed.

Lemma delete_edit w : edit root q w (set_nodes (delete q (w_nodes w)) w).
Proof. apply subset_edit; [|apply delete_subseteq]. intros p Hp. apply lookup_delete_ne. intros E. apply Hp. by rewrite <- E. Qed.

Lemma remove_triple : triple root here (remove q) (λ _ w, nothing w).
Proof.
  apply triple_call; [done| |intros; apply edit_refl]. intros w Hs Hw. rewrite at_place_here by done.
  assert (nothing (set_nodes (delete q (w_nodes w)) w)) as Hn.
  { split; [by eapply edit_here; [apply delete_edit|]|]. apply lookup_delete_eq. }
  destruct (w_nodes w !! q) as [[a|i|t|]|]; cbn; try (by split; [apply delete_edit|]); [|by split; [apply edit_refl|]].
  case_bool_decide; [by split; [apply delete_edit|]|by split; [apply edit_refl|]].
Qed.

Lemma remove_tree_edit kept w : edit root q w (remove_tree q kept w).
Proof.
  apply subset_edit; [|apply map_filter_subseteq]. intros p Hp.
  destruct (w_nodes w !! p) as [n|] eqn:E; [|by apply map_lookup_filter_None_2; left].
  apply map_lookup_filter_Some_2; [done|]. cbn. unfold beneath. by rewrite bool_decide_eq_false_2.
Qed.

Lemma remove_tree_gone w : w_nodes (remove_tree q [] w) !! q = None.
Proof.
  apply map_lookup_filter_None_2. right. intros n _. cbn. unfold beneath. by rewrite bool_decide_eq_true_2.
Qed.

Lemma remove_all_triple : triple root here (remove_all q) (λ _ w, nothing w).
Proof.
  apply triple_call; [done| |].
  - intros w Hs Hw. rewrite (place_here _ Hw). split; [apply remove_tree_edit|]. intros _ _.
    split; [by eapply edit_here; [apply remove_tree_edit|]|apply remove_tree_gone].
  - intros w kept Hs Hw. rewrite (place_here _ Hw). apply remove_tree_edit.
Qed.

Lemma replace_triple : triple root here (replace q) (λ _ w, nothing w).
Proof.
  unfold replace. apply (triple_try _ _ _ _ (λ r w, here w ∧ r = of_option (w_nodes w !! q) ENOENT)).
  { intros w Hs Hw. rewrite lstat_here by done. cbn. split_and!; [apply frame_refl|done|done|done]. }
  intros r. destruct r as [n|[]]; try apply triple_fail.
  - destruct n; eapply triple_weaken; (apply remove_all_triple || apply remove_triple || idtac); naive_solver.
  - apply triple_ret. intros w [Hw E]. split; [done|]. by destruct (w_nodes w !! q).
Qed.
(** *** A new file, and writing it *)
Definition has_file (i : nat) (w : world) : Prop := here w ∧ w_nodes w !! q = Some (File i).

Lemma create_triple mode : triple root here (create_excl q mode) has_file.
Proof.
  apply triple_call; [done| |intros; apply edit_refl]. intros w Hs Hw. cbv beta zeta. rewrite make_here by done.
  destruct (w_nodes w !! q) eqn:E; cbn; [by split; [apply edit_refl|]|].
  assert (edit root q w {| w_nodes := <[q := File (w_next w)]> (w_nodes w);
    w_inodes := <[w_next w := {| in_data := ""; in_attr := own_attr mode |}]> (w_inodes w); w_next := S (w_next w); w_faults := w_faults w |}) as He.
  { split; cbn; [| | |lia].
    - intros p Hp. apply lookup_insert_ne. intros Ep. apply Hp. by rewrite <- Ep.
    - intros p i. destruct (decide (p = q)) as [->|Hne]; [|rewrite lookup_insert_ne by done; auto].
      rewrite lookup_insert_eq. intros [= <-]. right. split; [done|]. left. lia.
    - intros p i Hp Hf. apply (so_fresh _ _ Hs) in Hf. apply lookup_insert_ne. lia. }
  split; [done|]. intros i [= <-]. split; [by eapply edit_here|apply lookup_insert_eq].
Qed.

Lemma write_edit i data w : sound root w → has_file i w → edit root q w (write_data i data w).
Proof.
  intros Hs [_ Hf]. split; cbn; [done|auto| |done]. intros p j Hp Hj. apply lookup_alter_ne. intros ->.
  by apply (so_own _ _ Hs q p j).
Qed.

Lemma write_triple i data : triple root (has_file i) (write i data) (λ _, has_file i).
Proof.
  apply triple_call; [done| |].
  - intros w Hs Hw. cbn. split; [by apply write_edit|]. done.
  - intros w kept Hs Hw. by apply write_edit.
Qed.

(** *** A hard link to a file below the root *)
Definition kept_dirs (ds : list string) (w : world) : Prop :=
  Forall plain_segment ds ∧ ∀ s, s `suffix_of` ds → w_nodes w !! s = None ∨ ∃ a, w_nodes w !! s = Some (Directory a).

Lemma link_triple xs ds :
  root `suffix_of` ds → triple root (λ w, here w ∧ kept_dirs ds w) (link (xs :: ds) q) (λ _ _, True).
Proof.
  intros Hds. apply triple_call; [done| |intros; apply edit_refl]. intros w Hs [Hw [Hp Hk]]. unfold at_place, kernel_place.
  destruct (kernel_dir (w_nodes w) ds) as [d'|e] eqn:E; cbn; [|by split; [apply edit_refl|]].
  apply walk_pruned in E; [|by apply Forall_reverse|rewrite reverse_involutive, app_nil_r; intros; by apply Hk].
  rewrite reverse_involutive, app_nil_r in E. subst d'.
  destruct (w_nodes w !! (xs :: ds)) as [[a|i|t|]|] eqn:En; cbn; try (by split; [apply edit_refl|]).
  - destruct (make_ok (File i) w) as [He _]; [|done|done]. intros j [= <-]. exists (xs :: ds). split; [by apply inside_cons|done].
  - by destruct (make_ok (Link t) w) as [He _].
  - by destruct (make_ok Special w) as [He _].
Qed.

(** *** Owner and mode *)
Lemma set_attr_edit f w : sound root w → no_link w → edit root q w (set_attr f q w).1 ∧ no_link (set_attr f q w).1.
Proof.
  intros Hs [Hw Hn]. unfold set_attr. destruct (w_nodes w !! q) as [[a|i|t|]|] eqn:E; cbn.
  - assert (edit root q w (set_nodes (<[q := Directory (f a)]> (w_nodes w)) w)) as He by by apply make_edit.
    split; [done|]. split; [by eapply edit_here|]. intros t. cbn. by rewrite lookup_insert_eq.
  - split; [|split; [done|cbn; by rewrite E]]. split; cbn; [done|auto| |done]. intros p j Hp Hj. apply lookup_alter_ne. intros ->.
    by apply (so_own _ _ Hs q p j).
  - by destruct (Hn t).
  - split; [apply edit_refl|]. split; [done|by rewrite E].
  - split; [apply edit_refl|]. split; [done|by rewrite E].
Qed.

Lemma chmod_triple mode : triple root no_link (chmod q mode) (λ _ _, True).
Proof.
  apply triple_call; [done| |intros; apply edit_refl]. intros w Hs [Hw Hn].
  assert (walk (w_nodes w) [] true max_links [] (reverse q) = match w_nodes w !! q with None => Err ENOENT | Some _ => Ok q end) as ->.
  { unfold q. rewrite reverse_cons, (walk_down _ _ _ _ Hw). unfold max_links. cbn [walk].
    destruct (plain_tests x Hx) as (-> & -> & ->). cbn [orb]. fold q. destruct (w_nodes w !! q) as [[| | |]|] eqn:E; try done.
    by destruct (Hn target). }
  pose proof (set_attr_edit (λ a, {| at_mode := mode; at_uid := at_uid a; at_gid := at_gid a |}) w Hs (conj Hw Hn)) as [He _].
  destruct (w_nodes w !! q); [done|by split; [apply edit_refl|]].
Qed.

Lemma lchown_always uid gid w :
  sound root w → no_link w →
  frame root w (lchown q uid gid w).1 ∧ sound root (lchown q uid gid w).1 ∧ no_link (lchown q uid gid w).1.
Proof.
  intros Hs Hn. assert (edit root q w (lchown q uid gid w).1 ∧ no_link (lchown q uid gid w).1) as [He Hn'].
  2: split_and!; [by eapply edit_frame|by eapply edit_sound|done].
  unfold lchown, call. destruct (w_faults w) as [|[|e kept] f].
  - rewrite at_place_here by apply Hn. by apply set_attr_edit.
  - change (at_place q ?a ?w') with (at_place q a (with_faults f w)). rewrite at_place_here by apply Hn.
    destruct (set_attr_edit (λ a, {| at_mode := at_mode a; at_uid := uid; at_gid := gid |}) (with_faults f w)) as [He Hn']; [by apply sound_faults|done|].
    split; [by eapply edit_faults|done].
  - split; [apply (edit_faults _ _ f); apply edit_refl|done].
Qed.
End calls.

(** ** Resolving stays below the root *)
Section resolving.
Context (root : list string).

Definition found (d : list string) (w : world) : Prop := real w d ∧ root `suffix_of` d.

Lemma found_up x d w : found (x :: d) w → x :: d ≠ root → found d w.
Proof.
  intros [Hr [[|y k] Hk]] Hne; [by destruct Hne|]. split; [by eapply real_up|]. injection Hk as _ ->. by exists k.
Qed.

(** Looking at [x] in a directory that is there. *)
Lemma lstat_try {A} x d (P : world → Prop) (f : result err node → sys A) Q :
  (∀ w, P w → real w d) →
  (∀ r, triple root (λ w, P w ∧ r = of_option (w_nodes w !! (x :: d)) ENOENT) (f r) Q) → triple root P (try (lstat (x :: d)) f) Q.
Proof.
  intros HP Hf. apply (triple_try _ _ _ _ (λ r w, P w ∧ r = of_option (w_nodes w !! (x :: d)) ENOENT)); [|exact Hf].
  intros w Hs Hp. unfold lstat, at_place. rewrite (kernel_place_real _ _ _ (HP w Hp)). cbn. split_and!; [apply frame_refl|done..].
Qed.

Lemma readlink_triple x d (P : world → Prop) : (∀ w, P w → real w d) → triple root P (readlink (x :: d)) (λ _, P).
Proof.
  intros HP w Hs Hp. unfold readlink, at_place. rewrite (kernel_place_real _ _ _ (HP w Hp)). cbn. split_and!; [apply frame_refl|done..].
Qed.

Lemma found_root w : sound root w → found root w.
Proof. intros Hs. split; [apply Hs|done]. Qed.

Lemma resolve_triple create links : ∀ parts cur, triple root (found cur) (resolve_from root create links cur parts) found.
Proof.
  induction links as [|links IHl]; intros parts; induction parts as [|el parts IH]; intros cur.
  1, 3: by apply triple_ret.
  all: cbn [resolve_from]; apply triple_case; [intros _; apply IH|intros E1]; apply triple_case; [intros _|intros E2].
  1, 3: case_bool_decide as Hc; [apply IH|]; eapply triple_weaken; [apply IH| |done]; intros w Hs Hf;
    destruct cur as [|x cur]; [done|]; by apply found_up in Hf.
  all: assert (plain_segment el) as Hel by (apply orb_false_iff in E1 as [?%String.eqb_neq ?%String.eqb_neq]; apply String.eqb_neq in E2; done).
  all: apply lstat_try; [by intros w [? _]|]; intros [[a|i|t|]|[]]; try apply triple_fail.
  all: try (eapply triple_weaken; [apply IH| |done]; intros w Hs [[Hr Hrt] Hn]; split; [|by apply suffix_cons_r];
    apply real_cons; [done|done|]; destruct (w_nodes w !! (el :: cur)) as [n|]; [|done]; injection Hn as <-; by eexists).
  all: try (destruct create; [|apply triple_fail]; eapply (triple_bind _ _ _ _ (λ _, found (el :: cur))); [|intros _; apply IH];
    intros w Hs [[Hr Hrt] _]; destruct (mkdir_triple root el cur Hrt Hel 493 w Hs Hr) as (H1 & H2 & H3);
    split_and!; [done|done|]; intros u Hu; split; [by eapply H3|by apply suffix_cons_r]).
  eapply (triple_bind _ _ _ _ (λ _, found cur)).
  { eapply triple_weaken; [apply (readlink_triple el cur (found cur)); by intros w []|by intros w _ [? _]|done]. }
  intros t'. destruct (has_prefix t' "/"); [|apply IHl]. eapply triple_weaken; [apply IHl| |done]. intros w Hs _. by apply found_root.
Qed.
End resolving.

(** ** An entry's name *)
Lemma join_chars_snoc c ls b : join_chars c (ls ++ [b]) = match ls with [] => b | _ => join_chars c ls ++ c :: b end.
Proof.
  induction ls as [|l ls IH]; [done|]. destruct ls as [|l' ls]; [done|].
  change (l ++ c :: join_chars c ((l' :: ls) ++ [b]) = (l ++ c :: join_chars c (l' :: ls)) ++ c :: b).
  rewrite IH, <- app_assoc. done.
Qed.

Lemma path_split_base d b : ("/"%char : ascii) ∉ chars b → snd (path_split (join "/" (reverse (b :: d)))) = b.
Proof.
  intros Hb. unfold path_split, join, last_index_byte. rewrite reverse_cons, fmap_app, chars_of_chars. cbn [fmap list_fmap].
  rewrite join_chars_snoc. destruct (chars <$> reverse d) as [|l ls].
  - rewrite (proj2 (last_index_chars_none _ _) Hb). cbn. apply of_chars_chars.
  - rewrite (proj2 (last_index_chars_some "/" (join_chars "/" (l :: ls) ++ "/"%char :: chars b) (length (join_chars "/" (l :: ls))))).
    + cbn [snd]. rewrite (cons_middle _ _ (chars b)), app_assoc. rewrite drop_app_length'; [apply of_chars_chars|].
      rewrite length_app. cbn. lia.
    + split; [by apply list_lookup_middle|]. rewrite (cons_middle _ _ (chars b)), app_assoc. rewrite drop_app_length'; [done|].
      rewrite length_app. cbn. lia.
Qed.

Lemma cleanEntryName_ok name rel : cleanEntryName name = Ok rel → rel = ""%string ∨ plain_segment (snd (path_split rel)).
Proof.
  unfold cleanEntryName. rewrite !guard_ok. intros (_ & _ & Hr).
  match type of Hr with context [clean_rooted ?m] => set (n := m) in Hr end. clearbody n.
  assert (rel = of_chars (tail (chars (clean_rooted n)))) as -> by congruence. clear Hr.
  rewrite clean_rooted_components. unfold path_of. rewrite chars_app. change (tail (chars "/" ++ ?l)) with l. rewrite of_chars_chars.
  pose proof (components_plain n) as Hp. pose proof (components_free n) as Hf. destruct (components n) as [|b d]; [by left|].
  right. rewrite path_split_base; [by apply Forall_cons in Hp as [? _]|by apply Forall_cons in Hf as [? _]].
Qed.

(** ** An entry *)
Section entries.
Context (root : list string).

Lemma resolve_found create rel : triple root (λ _, True) (resolve root rel create) (found root).
Proof. eapply triple_weaken; [apply resolve_triple| |done]. intros w Hs _. by apply found_root. Qed.

(** What a call at [x :: d] does, from a directory found. *)
Lemma at_found {A} d (P : world → Prop) (m : sys A) (Q : A → world → Prop) :
  (root `suffix_of` d → triple root P m Q) → (∀ w, P w → found root d w) → triple root P m Q.
Proof. intros Hm HP w Hs Hp. by apply Hm; [apply (HP w Hp)|done|done]. Qed.

Lemma lstat_found d w : real w d → ∃ a, lstat d w = (w, Ok (Directory a)).
Proof.
  intros Hr. destruct (proj2 Hr d ltac:(by exists [])) as [a Ha]. exists a. unfold lstat, at_place.
  destruct d as [|x d]; [cbn; by rewrite Ha|]. rewrite (kernel_place_real _ _ _ (real_up _ _ _ Hr)). by rewrite Ha.
Qed.

Lemma lstat_triple x d : triple root (found root d) (lstat (x :: d)) (λ _, found root d).
Proof. intros w Hs [Hr Hd]. rewrite lstat_here by done. cbn. split_and!; [apply frame_refl|done|done]. Qed.

Lemma resolveLinkTarget_triple name :
  triple root (λ _, True) (resolveLinkTarget root name) (λ src w, ∃ xs ds, src = xs :: ds ∧ found root ds w).
Proof.
  unfold resolveLinkTarget. eapply triple_bind; [apply triple_lift|]. intros rel. cbn beta.
  destruct (path_split rel) as [dir base] eqn:Es.
  eapply (triple_bind _ _ _ _ (λ d w, found root d w ∧ cleanEntryName name = Ok rel)).
  { intros w Hs [Hn _]. destruct (resolve_found false dir w Hs I) as (? & ? & Ha). split_and!; [done|done|]. eauto. }
  intros parent w Hs [Hf Hn]. destruct (cleanEntryName_ok _ _ Hn) as [->|Hb].
  - injection Es as <- <-. destruct (lstat_found parent w (proj1 Hf)) as [a Ha]. change (join_base parent "") with parent.
    unfold mbind, sys_bind. rewrite Ha. cbn. split_and!; [apply frame_refl|done|done].
  - rewrite Es in Hb. cbn in Hb. rewrite join_base_plain by done.
    revert w Hs Hf. cut (triple root (found root parent) (lstat (base :: parent) ≫= λ n,
      match n with File _ => mret (base :: parent) | _ => fail (Refused "not a regular file") end)
      (λ src w, ∃ xs ds, src = xs :: ds ∧ found root ds w)); [by eauto|].
    eapply triple_bind; [apply lstat_triple|]. intros [|i| |]; try apply triple_fail. apply triple_ret. eauto.
Qed.

Lemma make_dir_triple x d : root `suffix_of` d → plain_segment x → triple root (here d) (make_dir (x :: d)) (λ _, no_link x d).
Proof.
  intros Hd Hx. unfold make_dir. apply lstat_try; [done|]. intros r.
  eapply (triple_bind _ _ _ _ (λ _, no_link x d)).
  - assert (∀ w, here d w ∧ r = of_option (w_nodes w !! (x :: d)) ENOENT → (∀ n, r = Ok n → ∀ t, n ≠ Link t) → no_link x d w) as Hnl.
    { intros w [Hw Hr] Hn. split; [done|]. intros t Ht. rewrite Ht in Hr. by apply (Hn _ Hr t). }
    assert (triple root (λ w, here d w ∧ r = of_option (w_nodes w !! (x :: d)) ENOENT) (remove (x :: d)) (λ _, no_link x d)) as Hrm.
    { eapply triple_weaken; [by apply remove_triple|by intros w _ [? _]|]. intros a w [Hw Hn]. split; [done|]. by rewrite Hn. }
    destruct r as [[a|i|t|]|e]; try exact Hrm; apply triple_ret; intros w Hw; apply Hnl; [done|naive_solver|done|naive_solver].
  - intros ?. apply (triple_try _ _ _ _ (λ _, no_link x d)).
    + intros w Hs [Hw Hn].
      assert (edit root (x :: d) w (mkdir (x :: d) 493 w).1 ∧ no_link x d (mkdir (x :: d) 493 w).1) as [He Hl].
      2: split_and!; [by eapply edit_frame; [apply inside_cons|]|by eapply edit_sound; [apply inside_cons|..]|done].
      assert (∀ f, edit root (x :: d) w (make (x :: d) (Directory (own_attr 493)) (with_faults f w)).1 ∧
        no_link x d (make (x :: d) (Directory (own_attr 493)) (with_faults f w)).1) as Hm.
      { intros f. rewrite make_here by done. cbn [with_faults w_nodes].
        destruct (w_nodes w !! (x :: d)) eqn:E; cbn [fst].
        { split; [apply (edit_faults _ _ f), edit_refl|]. split; [done|]. cbn. by rewrite E. }
        assert (edit root (x :: d) w (set_nodes (<[x :: d := Directory (own_attr 493)]> (w_nodes w)) (with_faults f w))) as He.
        { apply (edit_faults _ _ f). by apply (make_edit root (x :: d) _ (with_faults f w)). }
        split; [exact He|]. split; [by eapply edit_here|]. intros t. cbn. by rewrite lookup_insert_eq. }
      unfold mkdir, call. destruct (w_faults w) as [|[|e kept] f] eqn:Ef.
      * specialize (Hm []). by replace (with_faults [] w) with w in Hm by (destruct w; cbn in *; by subst).
      * apply Hm.
      * split; [apply (edit_faults _ _ f), edit_refl|done].
    + intros [|[]]; try apply triple_fail; apply triple_ret; done.
Qed.

Lemma finish_triple x d isRoot h st :
  root `suffix_of` d → plain_segment x → triple root (no_link x d) (finish_entry isRoot h (x :: d) st) (λ _ _, True).
Proof.
  intros Hd Hx. unfold finish_entry. eapply (triple_bind _ _ _ _ (λ _, no_link x d)).
  - destruct isRoot; [|by apply triple_ret]. apply (triple_try _ _ _ _ (λ _, no_link x d)).
    + intros w Hs Hn. by apply lchown_always.
    + intros [u|[]]; try apply triple_fail; by apply triple_ret.
  - intros st'. eapply triple_bind; [by apply chmod_triple|]. intros ?. by apply triple_ret.
Qed.

Lemma make_file_triple x d maxBytes h bytes :
  root `suffix_of` d → plain_segment x → triple root (here d) (make_file maxBytes h bytes (x :: d)) (λ _, no_link x d).
Proof.
  intros Hd Hx. unfold make_file. eapply triple_bind; [by apply replace_triple|]. intros ?.
  eapply (triple_bind _ _ _ _ (λ _, here d)).
  { destruct (_ >? _); [apply triple_fail|]. apply triple_ret. by intros w [? _]. }
  intros ?. eapply triple_bind; [by apply create_triple|]. intros i. eapply triple_bind; [by apply write_triple|]. intros ?.
  destruct (h_data_err h); [apply triple_fail|]. apply triple_ret. intros w [Hw Hf]. split; [done|]. by rewrite Hf.
Qed.

Lemma remove_each_triple d names : root `suffix_of` d → triple root (here d) (remove_each d names) (λ _, here d).
Proof.
  intros Hd. induction names as [|n names IH]; cbn [remove_each]; [by apply triple_ret|].
  eapply (triple_bind _ _ _ _ (λ _, here d)); [|by intros _].
  eapply triple_weaken; [by apply remove_all_triple|done|by intros ? w [? _]].
Qed.

Lemma emptyDir_triple d : triple root (found root d) (emptyDir d) (λ _ _, True).
Proof.
  apply (at_found d); [intros Hd|done]. apply (triple_weaken _ _ (here d) _ _ (λ _ _, True)); [|by intros w _ [? _]|done]. unfold emptyDir.
  eapply (triple_bind _ _ _ _ (λ _, here d)).
  - intros w Hs Hw. assert (∀ f, frame root w (with_faults f w) ∧ sound root (with_faults f w) ∧ here d (with_faults f w)) as Hf.
    { intros f. split_and!; [done|by apply sound_faults|done]. }
    unfold read_dir, call. destruct (w_faults w) as [|[|e k] f]; cbn [w_nodes]; rewrite ?(kernel_dir_real w d Hw); cbn [fst snd];
      try (split_and!; [apply Hf|apply Hf|done]). split_and!; [apply frame_refl|done|done].
  - intros names. eapply triple_weaken; [by apply remove_each_triple|done|done].
Qed.

(** Replacing only takes away. *)
Lemma call_shrinks {A} undone (act : sys A) w :
  (∀ w, w_nodes (act w).1 ⊆ w_nodes w) → (∀ kept w, w_nodes (undone kept w) ⊆ w_nodes w) →
  w_nodes (call undone act w).1 ⊆ w_nodes w.
Proof.
  intros Ha Hu. unfold call. destruct (w_faults w) as [|[|e k] f]; [apply Ha|etrans; [apply Ha|done]|etrans; [apply Hu|done]].
Qed.

Lemma replace_shrinks p w : w_nodes (replace p w).1 ⊆ w_nodes w.
Proof.
  unfold replace, try. assert ((lstat p w).1 = w) as E by (unfold lstat, at_place; by destruct (kernel_place (w_nodes w) p)).
  destruct (lstat p w) as [w' r]. cbn in E. subst w'.
  assert (w_nodes (remove p w).1 ⊆ w_nodes w) as Hr.
  { apply call_shrinks; [|done]. intros w0. unfold at_place. destruct (kernel_place (w_nodes w0) p) as [q|]; [|done].
    destruct (w_nodes w0 !! q) as [[| | |]|]; cbn; try done; try apply delete_subseteq.
    case_bool_decide; [apply delete_subseteq|done]. }
  destruct r as [[| | |]|[]]; try done. apply call_shrinks.
  - intros w0. destruct (kernel_place (w_nodes w0) p) as [q|[]]; try done. apply map_filter_subseteq.
  - intros kept w0. destruct (kernel_place (w_nodes w0) p); [apply map_filter_subseteq|done].
Qed.

Lemma replace_link_triple xs ds x d :
  plain_segment x →
  triple root (λ w, found root d w ∧ found root ds w) (replace (x :: d);; link (xs :: ds) (x :: d)) (λ _ _, True).
Proof.
  intros Hx w Hs [[Hw Hd] [Hds Hrd]].
  cut (triple root (λ w, here d w ∧ real w ds) (replace (x :: d);; link (xs :: ds) (x :: d)) (λ _ _, True)); [by intros Ht; apply Ht|].
  clear w Hs Hw Hds. eapply (triple_bind _ _ _ _ (λ _ w, here d w ∧ kept_dirs ds w)); [|intros ?; by apply link_triple].
  intros w Hs [Hw [Hp Hk]]. destruct (replace_triple root x d Hd w Hs Hw) as (Hf & Hs' & Ha).
  split_and!; [done|done|]. intros u Hu. split; [by apply (Ha u)|]. split; [done|]. intros s Hsuf.
  destruct (Hk s Hsuf) as [a Hsa]. destruct (w_nodes (replace (x :: d) w).1 !! s) as [n|] eqn:E; [|by left].
  right. exists a. pose proof (lookup_weaken _ _ _ _ E (replace_shrinks _ _)). congruence.
Qed.

(** An entry, of whatever kind. *)
(** Looking for a link's source changes nothing. *)
Lemma lstat_same p w : (lstat p w).1 = w.
Proof. unfold lstat, at_place. by destruct (kernel_place (w_nodes w) p). Qed.
Lemma readlink_same p w : (readlink p w).1 = w.
Proof. unfold readlink, at_place. by destruct (kernel_place (w_nodes w) p). Qed.
Lemma bind_same {A B} (m : sys A) (f : A → sys B) w : (m w).1 = w → (∀ a, (f a w).1 = w) → ((m ≫= f) w).1 = w.
Proof. unfold mbind, sys_bind. destruct (m w) as [w' [a|e]]; cbn; intros ->; auto. Qed.
Lemma try_same {A B} (m : sys A) (f : result err A → sys B) w : (m w).1 = w → (∀ r, (f r w).1 = w) → (try m f w).1 = w.
Proof. unfold try. destruct (m w) as [w' r]; cbn; intros ->; auto. Qed.

Lemma resolve_same links w : ∀ parts cur, (resolve_from root false links cur parts w).1 = w.
Proof.
  induction links as [|links IHl]; intros parts; induction parts as [|el parts IH]; intros cur; try done.
  all: cbn [resolve_from]; destruct (_ || _); [apply IH|]; destruct (String.eqb el ".."); [apply IH|].
  all: apply try_same; [apply lstat_same|]; intros [[| | |]|[]]; try done; try apply IH.
  apply bind_same; [apply readlink_same|]. intros t. apply IHl.
Qed.

Lemma resolveLinkTarget_same name w : (resolveLinkTarget root name w).1 = w.
Proof.
  unfold resolveLinkTarget. apply bind_same; [done|]. intros rel. destruct (path_split rel) as [dir base].
  apply bind_same; [apply resolve_same|]. intros parent. apply bind_same; [apply lstat_same|]. by intros [].
Qed.

Lemma place_entry_triple isRoot maxBytes h x d st :
  plain_segment x → triple root (found root d) (place_entry root isRoot maxBytes h (x :: d) st) (λ _ _, True).
Proof.
  intros Hx. apply (at_found d); [intros Hd|done].
  assert (∀ st', triple root (λ _, True) (mret st') (λ (_ : UnpackStats) _, True)) as Hret by (intros; by apply triple_ret).
  assert (triple root (found root d) (make_file maxBytes h (us_Bytes st) (x :: d);;
    finish_entry isRoot h (x :: d) (add_stats 1 0 0 0 0 0 (strlen (limited_data h)) st)) (λ _ _, True)) as Hfile.
  { eapply triple_bind; [|intros ?; by apply finish_triple].
    eapply triple_weaken; [by apply make_file_triple|by intros w _ [? _]|done]. }
  unfold place_entry. destruct (h_Typeflag h); try exact Hfile; try by apply triple_ret.
  - eapply triple_bind; [|intros ?; by apply finish_triple].
    eapply triple_weaken; [by apply make_dir_triple|by intros w _ [? _]|done].
  - eapply (triple_bind _ _ _ _ (λ _, here d)).
    { eapply triple_weaken; [by apply replace_triple|by intros w _ [? _]|by intros ? w [? _]]. }
    intros ?. eapply triple_bind; [by apply symlink_triple|]. intros ?. apply Hret.
  - eapply (triple_bind _ _ _ _ (λ src w, found root d w ∧ ∃ xs ds, src = xs :: ds ∧ found root ds w)).
    { intros w Hs Hf. destruct (resolveLinkTarget_triple (h_Linkname h) w Hs I) as (H1 & H2 & H3).
      rewrite resolveLinkTarget_same in *. eauto. }
    intros src w Hs [Hf (xs & ds & -> & Hds)]. revert w Hs Hf Hds.
    cut (triple root (λ w, found root d w ∧ found root ds w)
      (replace (x :: d);; link (xs :: ds) (x :: d);; mret (add_stats 0 0 0 1 0 0 0 st)) (λ _ _, True)); [by eauto|].
    assert (triple root (λ w, found root d w ∧ found root ds w)
      ((replace (x :: d);; link (xs :: ds) (x :: d)) ≫= λ _, mret (add_stats 0 0 0 1 0 0 0 st)) (λ _ _, True)) as Ht.
    { eapply triple_bind; [by apply replace_link_triple|]. intros ?. apply Hret. }
    intros w Hs Hw. specialize (Ht w Hs Hw). by rewrite sys_bind_assoc in Ht.
Qed.

Lemma unpack_entry_triple isRoot maxBytes h st : triple root (λ _, True) (unpack_entry root isRoot maxBytes h st) (λ _ _, True).
Proof.
  unfold unpack_entry. eapply triple_bind; [apply triple_lift|]. intros rel w Hs [Hn _].
  destruct (String.eqb_spec rel "") as [->|Hrel]; [by split_and!; [apply frame_refl|..]|].
  destruct (cleanEntryName_ok _ _ Hn) as [->|Hb]; [done|]. destruct (path_split rel) as [dir base]. cbn in Hb.
  revert w Hs. cut (triple root (λ _, True) (unpack_at root isRoot maxBytes h dir base st) (λ _ _, True)); [by eauto|].
  unfold unpack_at. eapply triple_bind; [apply resolve_found|]. intros parent.
  destruct (String.eqb base ".wh..wh..opq").
  { eapply triple_bind; [apply emptyDir_triple|]. intros ?. by apply triple_ret. }
  destruct (cut_prefix base ".wh.") as [name|].
  - destruct (String.eqb name "" || _ || _); [apply triple_fail|]. apply (at_found parent); [intros Hp|done].
    eapply (triple_bind _ _ _ _ (λ _ _, True)); [|intros ?; by apply triple_ret].
    eapply triple_weaken; [by apply remove_all_triple|by intros w _ [? _]|done].
  - rewrite join_base_plain by done. by apply place_entry_triple.
Qed.

Lemma Unpack_triple isRoot maxBytes layer : ∀ st, triple root (λ _, True) (Unpack root isRoot maxBytes layer st) (λ _ _, True).
Proof.
  induction layer as [|[h|e] layer IH]; intros st; cbn [Unpack]; [by apply triple_ret| |apply triple_fail].
  eapply triple_bind; [apply unpack_entry_triple|]. intros st'. apply IH.
Qed.
Lemma unpack_layers_triple isRoot maxBytes layers : ∀ st, triple root (λ _, True) (unpack_layers root isRoot maxBytes layers st) (λ _ _, True).
Proof.
  induction layers as [|l layers IH]; intros st; cbn [unpack_layers]; [by apply triple_ret|].
  eapply triple_bind; [apply Unpack_triple|]. intros st'. apply IH.
Qed.

(** A kit's paths, as [filepath.WalkDir] gives them. *)
Definition walked (kit : list (string * kit_node)) : Prop := Forall (λ e, plain_segment (snd (path_split e.1))) kit.

Lemma copy_node_triple rel n : plain_segment (snd (path_split rel)) → triple root (λ _, True) (copy_node root rel n) (λ _ _, True).
Proof.
  intros Hb. assert (∀ m : list string → sys (), (∀ parent, triple root (found root parent) (m parent) (λ _ _, True)) →
    triple root (λ _, True) (parent ← resolveDir root (Dir rel); m parent) (λ _ _, True)) as Hin.
  { intros m Hm. eapply triple_bind; [apply resolve_found|]. exact Hm. }
  assert (∀ m : list string → sys (), (∀ d, root `suffix_of` d → triple root (here d) (m (snd (path_split rel) :: d)) (λ _ _, True)) →
    ∀ parent, triple root (found root parent) (replace (join_base parent (snd (path_split rel)));; m (join_base parent (snd (path_split rel))))
      (λ _ _, True)) as Hat.
  { intros m Hm parent. rewrite join_base_plain by done. apply (at_found parent); [intros Hp|done].
    eapply (triple_bind _ _ _ _ (λ _, here parent)); [|intros ?; by apply Hm].
    eapply triple_weaken; [by apply replace_triple|by intros w _ [? _]|by intros ? w [? _]]. }
  destruct n as [|t|data mode|]; unfold copy_node.
  - eapply triple_bind; [apply resolve_found|]. intros ?. by apply triple_ret.
  - apply (Hin (λ p, _)), (Hat (symlink t)). intros d Hd. by apply symlink_triple.
  - apply (Hin (λ p, _)), (Hat (λ q, copyFile data q (Z.land mode 511))). intros d Hd. unfold copyFile.
    eapply triple_bind; [by apply create_triple|]. intros i. eapply triple_bind; [by apply write_triple|]. intros ?.
    eapply triple_weaken; [by apply chmod_triple| |done]. intros w _ [Hw Hf]. split; [done|]. by rewrite Hf.
  - apply (Hin (λ p, _)), (Hat (λ q, fail _)). intros d Hd. apply triple_fail.
Qed.

Lemma copyTree_triple kit : walked kit → triple root (λ _, True) (copyTree root kit) (λ _ _, True).
Proof.
  induction kit as [|[rel n] kit IH]; intros Hw; cbn [copyTree]; [by apply triple_ret|]. apply Forall_cons in Hw as [Hn Hw].
  eapply triple_bind; [by apply copy_node_triple|]. intros ?. by apply IH.
Qed.
End entries.


(** ** As the guest's kernel resolves it *)
Section guest.
Context (root : list string).

Lemma real_mono w w' d : w_nodes w ⊆ w_nodes w' → real w d → real w' d.
Proof. intros Hsub [Hp Hd]. split; [done|]. intros s Hs. destruct (Hd s Hs) as [a Ha]. exists a. by eapply lookup_weaken. Qed.

Lemma mkdir_ok x d mode w w' u :
  real w d → mkdir (x :: d) mode w = (w', Ok u) →
  w_nodes w ⊆ w_nodes w' ∧ w_nodes w' !! (x :: d) = Some (Directory (own_attr mode)).
Proof.
  intros Hr. assert (∀ f, make (x :: d) (Directory (own_attr mode)) (with_faults f w) = (w', Ok u) →
    w_nodes w ⊆ w_nodes w' ∧ w_nodes w' !! (x :: d) = Some (Directory (own_attr mode))) as Hm.
  { intros f. rewrite make_here by done. cbn [with_faults w_nodes]. destruct (w_nodes w !! (x :: d)) eqn:E; [done|].
    intros [= <- _]. cbn. split; [by apply insert_subseteq|apply lookup_insert_eq]. }
  unfold mkdir, call. destruct (w_faults w) as [|[|e k] f] eqn:E; [|apply Hm|done].
  specialize (Hm []). by replace (with_faults [] w) with w in Hm by (destruct w; cbn in *; by subst).
Qed.

Lemma resolve_walks create links : ∀ parts cur w w' d,
  real w root → real w cur → resolve_from root create links cur parts w = (w', Ok d) →
  w_nodes w ⊆ w_nodes w' ∧ walk (w_nodes w') root false links cur parts = Ok d.
Proof.
  induction links as [|links IHl]; intros parts; induction parts as [|el parts IH]; intros cur w w' d Hroot Hcur.
  1, 3: by intros [= <- <-].
  all: cbn [resolve_from walk]; destruct (String.eqb el "" || String.eqb el ".") eqn:E1; [by apply IH|].
  all: destruct (String.eqb el "..") eqn:E2; [case_bool_decide; [by apply IH|apply IH; [done|]; destruct cur; [done|by eapply real_up]]|].
  all: assert (plain_segment el) as Hel by (apply orb_false_iff in E1 as [?%String.eqb_neq ?%String.eqb_neq]; apply String.eqb_neq in E2; done).
  all: unfold try; rewrite (lstat_here el cur w Hcur).
  all: destruct (w_nodes w !! (el :: cur)) as [[a|i|t|]|] eqn:En; cbn [of_option]; try done.
  all: try (intros Hr; destruct (IH (el :: cur) w w' d) as [Hsub Hw]; [done|apply real_cons; eauto|exact Hr|];
    split; [exact Hsub|]; rewrite (lookup_weaken _ _ _ _ En Hsub); exact Hw).
  all: try (destruct create; [|done]; unfold mbind, sys_bind; destruct (mkdir (el :: cur) 493 w) as [w1 [u|e]] eqn:Em; [|done];
    intros Hr; destruct (mkdir_ok _ _ _ _ _ _ Hcur Em) as [Hs1 H1];
    destruct (IH (el :: cur) w1 w' d) as [Hsub Hw];
      [by eapply real_mono|apply real_cons; [done|by eapply real_mono|by eexists]|exact Hr|];
    split; [by etrans|]; rewrite (lookup_weaken _ _ _ _ H1 Hsub); exact Hw).
  unfold readlink, at_place, mbind, sys_bind. rewrite (kernel_place_real _ _ _ Hcur), En. intros Hr.
  destruct (IHl (split "/" t ++ parts) (if has_prefix t "/" then root else cur) w w' d) as [Hsub Hw];
    [done|by destruct (has_prefix t "/")|exact Hr|]. split; [exact Hsub|]. by rewrite (lookup_weaken _ _ _ _ En Hsub).
Qed.

(** And where the guest's kernel finds a directory, so does it. *)
Lemma walk_resolves links w : ∀ parts cur d,
  real w root → real w cur → walk (w_nodes w) root false links cur parts = Ok d → resolve_from root false links cur parts w = (w, Ok d).
Proof.
  intros parts cur d Hroot. revert parts cur d.
  induction links as [|links IHl]; intros parts; induction parts as [|el parts IH]; intros cur d Hcur.
  1, 3: by intros [= <-].
  all: cbn [resolve_from walk]; destruct (String.eqb el "" || String.eqb el ".") eqn:E1; [by apply IH|].
  all: destruct (String.eqb el "..") eqn:E2; [case_bool_decide; [by apply IH|apply IH; destruct cur; [done|by eapply real_up]]|].
  all: assert (plain_segment el) as Hel by (apply orb_false_iff in E1 as [?%String.eqb_neq ?%String.eqb_neq]; apply String.eqb_neq in E2; done).
  all: unfold try; rewrite (lstat_here el cur w Hcur).
  all: destruct (w_nodes w !! (el :: cur)) as [[a|i|t|]|] eqn:En; cbn [of_option andb]; try done.
  all: try (intros Hr; apply IH; [apply real_cons; eauto|exact Hr]).
  intros Hr. unfold readlink, at_place, mbind, sys_bind. rewrite (kernel_place_real _ _ _ Hcur), En.
  apply IHl; [by destruct (has_prefix t "/")|exact Hr].
Qed.
End guest.

(** C24. A path is resolved in the tree being built as the guest's kernel will
    resolve it once that is its /: without creating, to a directory exactly
    where the kernel finds it; creating what is missing, to where the kernel
    finds it in the tree that results, in which everything that was there
    still is. *)
Theorem resolve_is_the_guests root rel w :
  real w root →
  (∀ d, resolve root rel false w = (w, Ok d) ↔ walk (w_nodes w) root false max_links root (split "/" rel) = Ok d) ∧
  (∀ w' d, resolve root rel true w = (w', Ok d) →
     w_nodes w ⊆ w_nodes w' ∧ walk (w_nodes w') root false max_links root (split "/" rel) = Ok d).
Proof.
  intros Hr. split.
  - intros d. split; [intros Hd; by eapply resolve_walks|by apply walk_resolves].
  - intros w' d Hd. by eapply resolve_walks.
Qed.
