(* ===== verification/ConfigExamples.v ===== *)
(** * The configuration's theorems at a concrete machine *)
From S2P Require Import Prelude GoSort GoStrings GoPath Api EgressNames PolicyEnv ServiceSpec Agents Config ConfigTrust ConfigLoad ConfigSafe RunConfig RunSafe.

#[local] Existing Instance ascii_unicode.

(** ** A machine: a user with a file of their own, and a repository under home *)
Definition doc (keys : list string) (c : Config) : contents := Contains {| doc_config := Some c; doc_keys := Some keys |}.

Definition at_home (user project : contents) : Host := {|
  h_cwd := Some "/home/ada"%string; h_home := Some "/home/ada"%string; h_xdg := "";
  h_read p := if String.eqb p "/home/ada/.config/sandbox/config.yaml" then user
              else if String.eqb p "/home/ada/repo/.sandbox.yaml" then project else Absent;
  h_stat p := if String.eqb p "/home/ada/repo/.sandbox.yaml" || String.eqb p "/home/.sandbox.yaml" then StatFile else StatAbsent;
  h_entry p := String.eqb p "/home/ada/repo/.git";
  h_providers _ := None |}.

Definition with_net (mode : string) (allow : option (list string)) (baseline : option bool) (c : Config) : Config :=
  set_network {| nw_Mode := mode; nw_Allow := allow; nw_Baseline := baseline |} c.

(** The user lists a host; the project turns the baseline off. *)
Definition user_doc : contents := doc ["network"]%string (with_net "allowlist" (Some ["pypi.org"]%string) None zero_config).
Definition project_doc : contents := doc ["network"; "profile"]%string (with_net "" None (Some false) zero_config).
Definition home : Host := at_home user_doc project_doc.

Example paths :
  path_of ["b"; "a"]%string = "/a/b"%string ∧ Clean "a/../../b/./c//" = "../b/c"%string ∧ Dir "/a/b" = "/a"%string ∧ Dir "c" = "."%string ∧
  Join [""; "a"; "..";"b"]%string = "b"%string ∧ userConfigPath home = "/home/ada/.config/sandbox/config.yaml"%string ∧
  CacheVolumeName "/sandbox/home/.cache/pip" = "sandbox-cache-cache-pip"%string.
Proof. by vm_compute. Qed.

Example search :
  findProjectConfig home "repo/src/deep" = Some [".sandbox.yaml"; "repo"; "ada"; "home"]%string ∧
  findProjectConfig home "/home" = Some [".sandbox.yaml"; "home"]%string ∧ findProjectConfig home "/home/other" = None ∧
  findProjectConfig home "/home/ada/elsewhere" = None.
Proof. by vm_compute. Qed.

Definition tightened : Config := retuned (with_net "allowlist" (Some ["pypi.org"]%string) None Default)
  "sandbox" "allowlist" (Some false) None None None.


Lemma project_config_is_in_bounds_witness :
  findProjectConfig home "repo/src" = Some [".sandbox.yaml"; "repo"; "ada"; "home"]%string ∧
  ∃ d d' stop, Abs (Some "/home/ada"%string) "repo/src" = Some d ∧ [".sandbox.yaml"; "repo"; "ada"; "home"]%string = projectFileName :: d' ∧
    nearest (holds_file home) d d' ∧ above stop d' ∧
    (nearest (holds_git home) d stop ∨
     (∀ e, above e d → ¬ holds_git home e) ∧
     stop = match h_home home ≫= Abs (h_cwd home) with Some hd => if withinDir hd d then hd else d | None => d end).
Proof.
  assert (findProjectConfig home "repo/src" = Some [".sandbox.yaml"; "repo"; "ada"; "home"]%string) as E by (vm_compute; reflexivity).
  split; [exact E|]. exact (proj1 (project_config_is_in_bounds home "repo/src" _) E).
Defined.

(** ** Prod, asked for by the repository *)
Definition prod_project : contents := doc ["profile"]%string (set_profile "prod" zero_config).
Definition prod_home : Host := at_home user_doc prod_project.
Definition loaded (r : result load_error Config) : Config := match r with Ok c => c | Err _ => zero_config end.

Lemma prod_holds_witness :
  let c := loaded (LoadProfileWith prod_home prod_home "repo" "" "" no_overrides) in
  LoadProfileWith prod_home prod_home "repo" "" "" no_overrides = Ok c ∧
  demands_prod prod_home "repo" "" "" ∧ cf_Profile c = ProfileProd ∧ PersistAuthEnabled c = false ∧
  EgressDomains (cf_Network c) = Some ["pypi.org"]%string.
Proof.
  intros c. assert (LoadProfileWith prod_home prod_home "repo" "" "" no_overrides = Ok c) as E by (vm_compute; reflexivity).
  assert (demands_prod prod_home "repo" "" "") as Hd.
  { right. split; [reflexivity|]. right. exists [".sandbox.yaml"; "repo"; "ada"; "home"]%string. split; vm_compute; reflexivity. }
  destruct (prod_holds prod_home prod_home "repo" "" "" no_overrides c E) as [H1 H2]. specialize (H1 Hd). destruct (H2 H1) as (_ & Hp & _).
  split_and!; [exact E|exact Hd|exact H1|exact Hp|vm_compute; reflexivity].
Defined.

(** ** A run *)
Definition caps_of (d : NetworkPolicy) : Capabilities := {|
  caps_APIVersion := "v1"; caps_Backend := "firecracker"; caps_Capabilities := ∅;
  caps_Limits := {| lim_MaxCPUs := fzero; lim_MaxMemoryMB := 0; lim_MaxDiskMB := 0; lim_MaxIdleTimeoutSecs := 0; lim_MaxLifetimeSecs := 0;
                    lim_MinSnapshotEverySecs := 0; lim_MaxSnapshotKeep := 0; lim_MinMetricsExportSecs := 0; lim_MaxGPUs := 0 |};
  caps_Network := {| nc_Default := d; nc_Ceiling := NetworkOpen; nc_MayAllow := [] |} |}.
Definition open_default : NetworkPolicy := {| np_Mode := NetworkOpen; np_Allow := None; np_Deny := []; np_Groups := [] |}.
Definition machine : Machine := {|
  m_env n := if String.eqb n "BASH_ENV" then Some "/tmp/rc"%string else None; m_file _ := None; m_command _ := None; m_link _ := None |}.
Definition plain_flags : runFlags := {|
  rf_configPath := ""; rf_profile := ""; rf_image := ""; rf_env := []; rf_network := ""; rf_allow := []; rf_deny := []; rf_groups := [];
  rf_noBaseline := false; rf_noPersistAuth := false |}.
Definition asked (r : result run_error run_request) : run_request :=
  match r with Ok q => q | Err _ => {| rq_Image := ""; rq_Env := ∅; rq_Network := None; rq_noPersistAuth := false |} end.
Definition run_in (project : contents) (user : contents) (d : NetworkPolicy) : result run_error run_request :=
  run_asks machine (at_home user project) (at_home user project) (at_home user project) plain_flags "repo" None ∅ (caps_of d).
Definition run_without (user : contents) (d : NetworkPolicy) : result run_error run_request :=
  run_asks machine (unproject (at_home user project_doc)) (unproject (at_home user project_doc)) (unproject (at_home user project_doc))
    plain_flags "repo" None ∅ (caps_of d).
Definition reaches (d : NetworkPolicy) (r : result run_error run_request) (host : string) : bool :=
  run_permits (λ _, []) (caps_of d) (rq_Network (asked r)) host.


(** ** What the sources' comments do not say *)

(** A profile nobody defines, in a project's file, refuses the load. *)
Example unknown_project_profile_refuses :
  ResolveProfile "" "" "prodd" = Ok "dev"%string ∧
  (let h := at_home Absent (doc ["profile"]%string (set_profile "prodd" zero_config)) in
   LoadProfileWith h h "repo" "" "" no_overrides = Err (restricted "/home/ada/repo/.sandbox.yaml" ["profile"%string])).
Proof. by vm_compute. Qed.

(** The project's [mode: allowlist] stands against the user's silence as no
    weaker; on a server whose default is no network it opens one. *)
Definition none_default : NetworkPolicy := {| np_Mode := NetworkNone; np_Allow := None; np_Deny := []; np_Groups := [] |}.
Definition asks_allowlist : contents := doc ["network"]%string (with_net "allowlist" None None zero_config).
Example allowlist_opens_a_closed_default :
  reaches none_default (run_in asks_allowlist Absent none_default) "github.com" = true ∧
  reaches none_default (run_without Absent none_default) "github.com" = false.
Proof. by vm_compute. Qed.

(** And where the default denies names, the project's word for the same
    allowlist drops them. *)
Definition denying_default : NetworkPolicy :=
  {| np_Mode := NetworkAllowlist; np_Allow := Some ["*.corp.example"]%string; np_Deny := ["vault.corp.example"]%string; np_Groups := [] |}.
Example allowlist_drops_the_default_deny :
  reaches denying_default (run_in asks_allowlist Absent denying_default) "vault.corp.example" = true ∧
  reaches denying_default (run_without Absent denying_default) "vault.corp.example" = false.
Proof. by vm_compute. Qed.

(** An agent's host spelled out over the default drops them too. *)
Example agent_host_drops_the_default_deny :
  let agent := Lookup "claude" in
  run_permits (λ _, []) (caps_of denying_default) (withAgentAPI None agent (caps_of denying_default)) "vault.corp.example" = true ∧
  run_permits (λ _, []) (caps_of denying_default) None "vault.corp.example" = false.
Proof. by vm_compute. Qed.

(** A name the environment reserves is refused of [env:] and of --env, and
    forwarded where [env_allow:] lists it. *)
Definition forwards_reserved : Config :=
  {| cf_Image := ""; cf_Workdir := ""; cf_User := ""; cf_Home := ""; cf_Hostname := ""; cf_Mounts := None; cf_Env := None;
     cf_EnvAllow := Some ["BASH_ENV"]%string; cf_Network := cf_Network zero_config; cf_Ports := None; cf_Security := no_security;
     cf_Cache := cf_Cache zero_config; cf_Snapshot := cf_Snapshot zero_config; cf_Secrets := None; cf_Routing := [];
     cf_Providers := ∅; cf_Mirror := None; cf_Profile := ""; cf_PersistAuth := None; cf_Sync := None |}.
Example reserved_name_forwarded :
  rq_Env (asked (run_in Absent (doc ["env_allow"]%string forwards_reserved) open_default)) !! "BASH_ENV"%string = Some "/tmp/rc"%string.
Proof. by vm_compute. Qed.
