(* ===== verification/UnpackExamples.v ===== *)
(** * Layers, concretely *)
From S2P Require Import Prelude GoSort GoStrings GoPath HostFs Unpack UnpackSafe.

Definition at_root : attr := {| at_mode := 493; at_uid := 0; at_gid := 0 |}.
(** The build's directory below /cache, a file of the host's, and the server's
    own directory. *)
Definition stage : list string := ["stage"; "cache"]%string.
Definition host : world := {|
  w_nodes := list_to_map [([], Directory at_root); (["cache"], Directory at_root); (stage, Directory at_root); (["srv"], Directory at_root);
                          (["passwd"; "srv"], File 0)]%string;
  w_inodes := {[ 0%nat := {| in_data := "root"; in_attr := at_root |} ]}; w_next := 1; w_faults := [] |}.

Definition entry (t : typeflag) (name data : string) : result err header :=
  Ok {| h_Name := name; h_Typeflag := t; h_Size := strlen data; h_Mode := 420; h_Uid := 0; h_Gid := 0; h_Linkname := data;
        h_data := data; h_data_err := None |}.
Definition unpacked (layer : list (result err header)) : world * result err UnpackStats := Unpack stage true (2 ^ 36) layer no_stats host.
Definition at_path (p : string) (w : world) : option node := w_nodes w !! components p.
Definition content (p : string) (w : world) : option string :=
  match at_path p w with Some (File i) => in_data <$> w_inodes w !! i | _ => None end.

(** A link out of the image is followed to the image's own root. *)
Example link_stays_inside :
  let w := (unpacked [entry TypeSymlink "d" "/srv"; entry TypeReg "d/passwd" "mine"]).1 in
  content "/cache/stage/srv/passwd" w = Some "mine"%string ∧ content "/srv/passwd" w = Some "root"%string.
Proof. by vm_compute. Qed.

(** ** The theorems, here *)
Definition host_nodes : list (list string * node) :=
  [([], Directory at_root); (["cache"], Directory at_root); (stage, Directory at_root); (["srv"], Directory at_root);
   (["passwd"; "srv"], File 0)]%string.

Lemma host_file p i : w_nodes host !! p = Some (File i) → p = ["passwd"; "srv"]%string ∧ i = O.
Proof.
  intros Hf. change (w_nodes host) with (list_to_map host_nodes : gmap (list string) node) in Hf.
  apply elem_of_list_to_map_2 in Hf. unfold host_nodes in Hf.
  repeat (apply elem_of_cons in Hf as [Hf|Hf]; [by inversion Hf|]). by apply not_elem_of_nil in Hf.
Qed.

Lemma host_real : real host stage.
Proof.
  split; [by repeat constructor|]. intros s Hs. exists at_root.
  assert (s ∈ [stage; ["cache"%string]; []]) as Hin.
  { destruct Hs as [[|x [|y k]] Hk]; unfold stage in *; cbn in Hk.
    - rewrite <- Hk. left.
    - injection Hk as _ <-. right. left.
    - injection Hk as _ _ Hk. symmetry in Hk. apply app_nil in Hk as [_ ->]. right. right. left. }
  repeat (apply elem_of_cons in Hin as [->|Hin]; [vm_compute; reflexivity|]). by apply not_elem_of_nil in Hin.
Qed.

Lemma host_sound : sound stage host.
Proof.
  split.
  - apply host_real.
  - intros p q i (x & k & ->) _ [Hp _]%host_file _. unfold stage in Hp. destruct k as [|y [|z k]]; done.
  - intros p i [_ ->]%host_file. cbn. lia.
Qed.

Definition sneaky : list (result err header) :=
  [entry TypeSymlink "d" "/srv"; entry TypeReg "d/passwd" "mine"; entry TypeLink "e" "srv/passwd"; entry TypeSymlink "up" "../../srv";
   entry TypeReg "up/passwd" "mine too"].


Lemma resolve_is_the_guests_witness :
  real host stage ∧
  (∀ w' d, resolve stage "a/../b" true host = (w', Ok d) →
     walk (w_nodes w') stage false max_links stage (split "/" "a/../b") = Ok d) ∧
  (resolve stage "a/../b" true host).2 = Ok ("b"%string :: stage).
Proof.
  split; [exact host_real|]. split; [|vm_compute; reflexivity].
  intros w' d Hd. exact (proj2 (proj2 (resolve_is_the_guests stage "a/../b" host host_real) w' d Hd)).
Defined.

(** ** What the comments do not say *)

(** The second [resolveDir] of /etc/sandbox drops its error: where /etc leads
    into the directory the guest agent replaces, the image's configuration is
    written to the server's own directory, over what has its name there. *)
Definition crooked : list (result err header) := [entry TypeDir "sbin/sandbox-guestd" ""; entry TypeSymlink "etc" "/sbin/sandbox-guestd"].
Example inject_writes_outside :
  let w := (unpacked crooked).1 in
  let '(w', r) := inject ["srv"]%string stage "agent" "chosen by the image" w in
  r = Ok () ∧ at_path "/srv/image.json" w = None ∧ content "/srv/image.json" w' = Some "chosen by the image"%string.
Proof. by vm_compute. Qed.

(** [0o1777] has no sticky bit as an [fs.FileMode]. *)
Example tmp_is_not_sticky :
  let w := (inject ["srv"]%string stage "agent" "{}" host).1 in
  at_path "/cache/stage/tmp" w = Some (Directory {| at_mode := 511; at_uid := 0; at_gid := 0 |}).
Proof. by vm_compute. Qed.

(** A size near the largest wraps the sum the limit is compared with, and the
    content is bounded by nothing but the stream. *)
Definition sized (name : string) (size : Z) (data : string) : result err header :=
  Ok {| h_Name := name; h_Typeflag := TypeReg; h_Size := size; h_Mode := 420; h_Uid := 0; h_Gid := 0; h_Linkname := "";
        h_data := data; h_data_err := None |}.
Example huge_size_passes_the_limit :
  let layer := [sized "a" 1 "x"; sized "b" max_int64 "far more than the limit"] in
  let '(w, r) := Unpack stage true 10 layer no_stats host in
  match r with Ok st => us_Bytes st = 24 | Err _ => False end ∧
  content "/cache/stage/b" w = Some "far more than the limit"%string.
Proof. by vm_compute. Qed.

(** A whiteout removes what the same layer put there before it. *)
Example whiteout_removes_its_own_layers :
  let '(w, r) := unpacked [entry TypeReg "d/new" "new"; entry TypeReg "d/.wh..wh..opq" ""] in
  is_ok r = true ∧ at_path "/cache/stage/d/new" w = None.
Proof. by vm_compute. Qed.
