(* ===== verification/SignIns.v ===== *)
(** * The throttle of sign-ins (internal/gateway/accounts.go, signInThrottle)

    Failures anywhere spend a shared bucket, and an address that keeps failing
    is locked for a while. A sign-in calls [allow] before it checks a password
    and [failed] or [succeeded] after, each under the throttle's lock: between
    the two, other sign-ins run. *)
From S2P Require Import Prelude.

Record failRecord := { fl_n : Z; fl_until : Z; fl_last : Z }.
Record signInThrottle := { th_tokens : float64; th_last : Z; th_fails : gmap string failRecord }.

Definition fdiv : float64 → float64 → float64 := SFdiv 53 1024.
(** The builtin [max]. *)
Definition fmax (a b : float64) : float64 := if is_nan a then a else if is_nan b then b else if fltb a b then b else a.

Definition burst : float64 := float_of_Z 20.
Definition per : Z := 3 * second.
Definition lockFor : Z := 15 * minute.
Definition lockAfter : Z := 5.
Definition maxFails : nat := Z.to_nat 10000.
#[global] Arguments maxFails : simpl never.

Definition newSignInThrottle (now : Z) : signInThrottle := {| th_tokens := float_of_Z 20; th_last := now; th_fails := ∅ |}.

Inductive held_back := AddressLocked | TooManyFailures.
#[export] Instance held_back_eq_dec : EqDecision held_back.
Proof. solve_decision. Defined.

Definition refill (now : Z) (t : signInThrottle) : signInThrottle := {|
  th_tokens := fmin burst (fadd (th_tokens t) (fdiv (float_of_Z (time_sub now (th_last t))) (float_of_Z per)));
  th_last := now; th_fails := th_fails t |}.

(** [Some]: why it may not be tried now. *)
Definition allow (now : Z) (email : string) (t : signInThrottle) : signInThrottle * option held_back :=
  let t := refill now t in
  if match th_fails t !! email with Some f => now <? fl_until f | None => false end then (t, Some AddressLocked)
  else if fltb (th_tokens t) (float_of_Z 1) then (t, Some TooManyFailures)
  else (t, None).

Definition count_failure (now : Z) (f : failRecord) : failRecord :=
  if lockAfter <=? fl_n f + 1 then {| fl_n := 0; fl_until := now + lockFor; fl_last := now |}
  else {| fl_n := fl_n f + 1; fl_until := fl_until f; fl_last := now |}.

(** At the cap, what is old is forgotten; if that is not enough, the failure
    is. *)
Definition forget_old (now : Z) (fails : gmap string failRecord) : gmap string failRecord :=
  if decide (maxFails ≤ size fails)%nat then filter (λ kf, (time_sub now (fl_last kf.2) >? lockFor) = false) fails else fails.

Definition failed (now : Z) (email : string) (t : signInThrottle) : signInThrottle :=
  let spent fails := {| th_tokens := fmax fzero (fsub (th_tokens t) (float_of_Z 1)); th_last := th_last t; th_fails := fails |} in
  match th_fails t !! email with
  | Some f => spent (<[email := count_failure now f]> (th_fails t))
  | None =>
      let fails := forget_old now (th_fails t) in
      if decide (maxFails ≤ size fails)%nat then spent fails
      else spent (<[email := count_failure now {| fl_n := 0; fl_until := zero_time; fl_last := zero_time |}]> fails)
  end.

Definition succeeded (email : string) (t : signInThrottle) : signInThrottle :=
  {| th_tokens := th_tokens t; th_last := th_last t; th_fails := delete email (th_fails t) |}.

(** ** Sign-ins at once *)
Inductive throttle_call := Ask (now : Z) (email : string) | Fails (now : Z) (email : string) | Succeeds (now : Z) (email : string).
Definition call_time (c : throttle_call) : Z := match c with Ask now _ | Fails now _ | Succeeds now _ => now end.
Definition call_email (c : throttle_call) : string := match c with Ask _ e | Fails _ e | Succeeds _ e => e end.

Definition throttle_step (c : throttle_call) (t : signInThrottle) : signInThrottle :=
  match c with
  | Ask now e => (allow now e t).1
  | Fails now e => failed now e t
  | Succeeds _ e => succeeded e t
  end.

(** How many of an address's sign-ins the throttle lets through, and how many
    fail. *)
Definition lets_through (e : string) (c : throttle_call) (t : signInThrottle) : bool :=
  match c with Ask now e' => String.eqb e' e && bool_decide ((allow now e' t).2 = None) | _ => false end.
Fixpoint guesses (e : string) (cs : list throttle_call) (t : signInThrottle) : Z :=
  match cs with [] => 0 | c :: cs => (if lets_through e c t then 1 else 0) + guesses e cs (throttle_step c t) end.
Fixpoint failures (e : string) (cs : list throttle_call) : Z :=
  match cs with [] => 0 | c :: cs => (match c with Fails _ e' => if String.eqb e' e then 1 else 0 | _ => 0 end) + failures e cs end.

Lemma allow_fails now a t : th_fails (allow now a t).1 = th_fails t.
Proof. unfold allow. destruct (match _ with Some f => _ | None => _ end); [done|]. by destruct (fltb _ _). Qed.

(** ** What an address is held to *)
Section address.
Context (e : string) (start : Z) (c : Z).

Definition fails_counted (t : signInThrottle) : Z := match th_fails t !! e with Some f => fl_n f | None => 0 end.
(** Locked for as long as the window lasts. *)
Definition locked (t : signInThrottle) : Prop := ∃ f, th_fails t !! e = Some f ∧ start + lockFor ≤ fl_until f.
Definition counts_ok (t : signInThrottle) : Prop := ∀ a f, th_fails t !! a = Some f → 0 ≤ fl_n f < lockAfter.
(** The addresses that have failed, and those that may. *)
Definition few (cs : list throttle_call) (t : signInThrottle) : Prop :=
  (size (dom (th_fails t) ∪ list_to_set (call_email <$> cs)) < maxFails)%nat.

Lemma counts_ok_counted t : counts_ok t → 0 ≤ fails_counted t < lockAfter.
Proof. intros Hok. unfold fails_counted. destruct (th_fails t !! e) eqn:E; [by apply (Hok e)|]. done. Qed.

Lemma count_failure_ok now f : 0 ≤ fl_n f < lockAfter → 0 ≤ fl_n (count_failure now f) < lockAfter.
Proof. unfold count_failure. intros Hf. destruct (Z.leb_spec lockAfter (fl_n f + 1)); cbn [fl_n]; unfold lockAfter in *; lia. Qed.

(** With few addresses nothing is forgotten, and no failure goes uncounted. *)
Lemma failed_few now a t cs :
  few (Fails now a :: cs) t →
  th_fails (failed now a t) =
  <[a := count_failure now (default {| fl_n := 0; fl_until := zero_time; fl_last := zero_time |} (th_fails t !! a))]> (th_fails t).
Proof.
  unfold few. cbn [fmap list_fmap call_email list_to_set]. intros Hfew. assert (size (th_fails t) < maxFails)%nat as Hs.
  { rewrite <- size_dom. eapply Nat.le_lt_trans; [|exact Hfew]. apply subseteq_size. set_solver. }
  unfold failed, forget_old. destruct (th_fails t !! a); [done|]. cbv zeta.
  assert (¬ (maxFails ≤ size (th_fails t))%nat) as Hn by (intros ?; lia). rewrite (decide_False _ _ Hn). by rewrite (decide_False _ _ Hn).
Qed.

Lemma dom_step x t cs : few (x :: cs) t → dom (th_fails (throttle_step x t)) ⊆ dom (th_fails t) ∪ {[ call_email x ]}.
Proof.
  destruct x as [now a|now a|now a]; intros Hfew; cbn [throttle_step call_email].
  - rewrite allow_fails. set_solver.
  - rewrite (failed_few now a t cs Hfew). rewrite dom_insert_L. set_solver.
  - cbn. rewrite dom_delete_L. set_solver.
Qed.

Lemma few_step x t cs : few (x :: cs) t → few cs (throttle_step x t).
Proof.
  intros Hfew. pose proof (dom_step x t cs Hfew). unfold few in *. cbn in Hfew. eapply Nat.le_lt_trans; [|exact Hfew].
  apply subseteq_size. set_solver.
Qed.

Lemma counts_ok_step x t cs : few (x :: cs) t → counts_ok t → counts_ok (throttle_step x t).
Proof.
  intros Hfew Hok a f. destruct x as [now b|now b|now b]; cbn [throttle_step].
  - rewrite allow_fails. apply Hok.
  - rewrite (failed_few now b t cs Hfew). intros [[-> <-]|[_ Hf]]%lookup_insert_Some; [|by apply (Hok a)].
    apply count_failure_ok. destruct (th_fails t !! a) eqn:E; cbn; [by apply (Hok a)|done].
  - cbn. intros [_ Hf]%lookup_delete_Some. by apply (Hok a).
Qed.

Definition in_window (x : throttle_call) : Prop := start ≤ call_time x < start + lockFor.
Definition no_success (x : throttle_call) : Prop := ∀ now, x ≠ Succeeds now e.

(** A lock of the window stays while none succeeds. *)
Lemma locked_step x t cs : few (x :: cs) t → in_window x → no_success x → locked t → locked (throttle_step x t).
Proof.
  intros Hfew Hw Hn (f & Hf & Hu). destruct x as [now b|now b|now b]; cbn [throttle_step].
  - exists f. by rewrite allow_fails.
  - unfold locked. rewrite (failed_few now b t cs Hfew). destruct (decide (b = e)) as [->|Hne].
    + rewrite lookup_insert_eq, Hf. eexists. split; [done|]. unfold count_failure, in_window in *. cbn in *.
      destruct (lockAfter <=? _); cbn; [unfold lockFor in *; lia|done].
    + exists f. by rewrite lookup_insert_ne.
  - exists f. split; [|done]. cbn. rewrite lookup_delete_ne; [done|]. intros ->. by destruct (Hn now).
Qed.

Lemma locked_lets_none x t : in_window x → locked t → lets_through e x t = false.
Proof.
  intros Hw (f & Hf & Hu). destruct x as [now b| |]; try done. cbn. destruct (String.eqb_spec b e) as [->|]; [|done].
  cbn. apply bool_decide_eq_false. unfold allow, refill, in_window in *. cbn in *. rewrite Hf.
  assert ((now <? fl_until f) = true) as -> by lia. done.
Qed.

Lemma locked_guesses cs : ∀ t, few cs t → Forall in_window cs → Forall no_success cs → locked t → guesses e cs t = 0.
Proof.
  induction cs as [|x cs IH]; intros t Hfew Hw Hn Hl; [done|]. inversion_clear Hw. inversion_clear Hn. cbn.
  rewrite locked_lets_none by done. rewrite IH; [done|by apply few_step|done|done|by apply (locked_step _ _ cs)].
Qed.

(** One call: what it lets through and what it counts. *)
Lemma counted_step x t cs :
  few (x :: cs) t → in_window x → no_success x → counts_ok t →
  locked (throttle_step x t) ∨
  fails_counted (throttle_step x t) = fails_counted t + failures e [x] ∧ fails_counted t + failures e [x] < lockAfter.
Proof.
  intros Hfew Hw Hn Hok. pose proof (counts_ok_counted t Hok) as Hc.
  destruct x as [now b|now b|now b]; cbn [throttle_step failures].
  - right. unfold fails_counted in *. rewrite allow_fails. split; lia.
  - unfold locked, fails_counted. rewrite (failed_few now b t cs Hfew). destruct (String.eqb_spec b e) as [->|Hne].
    + rewrite lookup_insert_eq. unfold fails_counted in Hc. unfold count_failure.
      destruct (th_fails t !! e) as [f|] eqn:Ef; cbn in *.
      * destruct (lockAfter <=? fl_n f + 1) eqn:Hle; [left|right; cbn; lia].
        eexists. split; [done|]. cbn. unfold in_window in Hw. cbn in Hw. lia.
      * by right.
    + right. rewrite lookup_insert_ne by done. unfold fails_counted in Hc. split; lia.
  - right. unfold fails_counted in *. cbn. destruct (decide (b = e)) as [->|Hne]; [by destruct (Hn now)|].
    rewrite lookup_delete_ne by done. split; lia.
Qed.

(** [i]: the sign-ins of the address running already. *)
Lemma guesses_from cs : ∀ t i,
  few cs t → Forall in_window cs → Forall no_success cs → counts_ok t →
  (∀ pre post, cs = pre ++ post → i + guesses e pre t - failures e pre ≤ c) →
  guesses e cs t ≤ lockAfter - 1 - fails_counted t + c - i.
Proof.
  induction cs as [|x cs IH]; intros t i Hfew Hw Hn Hok Hc; cbn [guesses].
  - pose proof (Hc [] [] eq_refl) as H0. cbn in H0. pose proof (counts_ok_counted t Hok). lia.
  - inversion_clear Hw as [|?? Hx Hw']. inversion_clear Hn as [|?? Hnx Hn'].
    pose proof (few_step _ _ _ Hfew) as Hfew'. pose proof (counts_ok_step _ _ _ Hfew Hok) as Hok'.
    pose proof (Hc [] (x :: cs) eq_refl) as H0. pose proof (Hc [x] cs eq_refl) as H1. cbn [guesses] in H0, H1. cbn in H0.
    pose proof (counts_ok_counted t Hok) as Hct.
    destruct (counted_step x t cs Hfew Hx Hnx Hok) as [Hl|[E Hlt]].
    + rewrite (locked_guesses cs) by done. assert (0 ≤ failures e [x] ≤ (if lets_through e x t then 0 else 1)) by (destruct x; cbn; split_matches; lia).
      destruct (lets_through e x t); lia.
    + etrans; [apply Z.add_le_mono_l, (IH _ (i + (if lets_through e x t then 1 else 0) - failures e [x]) Hfew' Hw' Hn' Hok')|lia].
      intros pre post ->. pose proof (Hc (x :: pre) post eq_refl) as Hp. cbn [guesses failures] in Hp |- *. lia.
Qed.
End address.

