(* ===== verification/Base64.v ===== *)
(** * Base64, as encoding/base64 (StdEncoding and RawStdEncoding)

    Three bytes are four characters; a rest of one or two is two or three, and
    padding to four unless the encoding is raw. Decoding skips line ends, and
    leaves the low bits of a rest's last character unread. *)
From S2P Require Import Prelude GoStrings.

Definition b64_char (z : Z) : ascii :=
  if z <? 26 then char_of (65 + z) else if z <? 52 then char_of (71 + z) else if z <? 62 then char_of (z - 4)
  else if z =? 62 then "+"%char else "/"%char.
Definition b64_value (c : ascii) : option Z :=
  if is_upper c then Some (code c - 65) else if is_lower c then Some (code c - 71) else if is_digit c then Some (code c + 4)
  else if is_char "+" c then Some 62 else if is_char "/" c then Some 63 else None.

Definition b64_pad (raw : bool) (n : nat) : list ascii := if raw then [] else repeat "="%char n.

(** Sextets of the big-endian number the bytes make. *)
Fixpoint b64_encode (raw : bool) (b : list Z) : list ascii :=
  match b with
  | [] => []
  | [x] => [b64_char (x / 4); b64_char (x mod 4 * 16)] ++ b64_pad raw 2
  | [x; y] => [b64_char (x / 4); b64_char (x mod 4 * 16 + y / 16); b64_char (y mod 16 * 4)] ++ b64_pad raw 1
  | x :: y :: z :: b =>
      [b64_char (x / 4); b64_char (x mod 4 * 16 + y / 16); b64_char (y mod 16 * 4 + z / 64); b64_char (z mod 64)] ++ b64_encode raw b
  end.

Definition b64_two (a b : Z) : list Z := [a * 4 + b / 16].
Definition b64_three (a b c : Z) : list Z := b64_two a b ++ [b mod 16 * 16 + c / 4].
Definition b64_four (a b c d : Z) : list Z := b64_three a b c ++ [c mod 4 * 64 + d].

(** Four characters that end the text. *)
Definition b64_last (raw : bool) (a b c d : ascii) : option (list Z) :=
  x ← b64_value a; y ← b64_value b;
  match b64_value c, b64_value d with
  | Some z, Some w => Some (b64_four x y z w)
  | Some z, None => if negb raw && is_char "=" d then Some (b64_three x y z) else None
  | None, _ => if negb raw && is_char "=" c && is_char "=" d then Some (b64_two x y) else None
  end.

Fixpoint b64_quads (raw : bool) (l : list ascii) : option (list Z) :=
  match l with
  | [] => Some []
  | [a; b] => if raw then x ← b64_value a; y ← b64_value b; Some (b64_two x y) else None
  | [a; b; c] => if raw then x ← b64_value a; y ← b64_value b; z ← b64_value c; Some (b64_three x y z) else None
  | [a; b; c; d] => b64_last raw a b c d
  | a :: b :: c :: d :: l =>
      x ← b64_value a; y ← b64_value b; z ← b64_value c; w ← b64_value d; rest ← b64_quads raw l; Some (b64_four x y z w ++ rest)
  | _ => None
  end.

Definition line_end (c : ascii) : bool := bool_decide (c = cr) || bool_decide (c = lf).
Definition b64_decode (raw : bool) (l : list ascii) : option (list Z) := b64_quads raw (List.filter (λ c, negb (line_end c)) l).

Definition EncodeToString (raw : bool) (b : list Z) : string := of_chars (b64_encode raw b).
Definition DecodeString (raw : bool) (s : string) : option (list Z) := b64_decode raw (chars s).

(** ** The characters *)
Lemma b64_char_plain z : 0 ≤ z < 64 → b64_value (b64_char z) = Some z ∧ line_end (b64_char z) = false ∧ is_char "=" (b64_char z) = false ∧
  ascii_space (b64_char z) = false ∧ ascii_char (b64_char z) = true ∧ (32 < code (b64_char z) < 127).
Proof.
  intros Hz. assert (z ∈ seqZ 0 64) as Hin by (apply elem_of_seqZ; lia). clear Hz. 
  assert (forallb (λ z, let c := b64_char z in bool_decide (b64_value c = Some z) && negb (line_end c) && negb (is_char "=" c) &&
    negb (ascii_space c) && ascii_char c && (32 <? code c) && (code c <? 127)) (seqZ 0 64) = true) as Hall by by vm_compute.
  rewrite forallb_forall in Hall. specialize (Hall z (proj1 (list_elem_of_In _ _) Hin)). cbv zeta in Hall. bool_simpl. split_and!; done || lia.
Qed.

Lemma b64_value_range c v : b64_value c = Some v → 0 ≤ v < 64.
Proof.
  unfold b64_value, is_upper, is_lower, is_digit, in_range. intros Hv. repeat (case_match; simplify_eq); bool_simpl; lia.
Qed.

(** Reads back characters that were written. *)
Ltac sextets := repeat match goal with |- context [b64_value (b64_char ?z)] =>
  let Hz := fresh in assert (0 ≤ z < 64) as Hz by (Z.to_euclidean_division_equations; lia);
  rewrite (proj1 (b64_char_plain z Hz)); clear Hz end.

Lemma bytes_ind (P : list Z → Prop) :
  P [] → (∀ x, P [x]) → (∀ x y, P [x; y]) → (∀ x y z b, P b → P (x :: y :: z :: b)) → ∀ b, P b.
Proof.
  intros H0 H1 H2 H3 b. induction b as [b IH] using (induction_ltof1 _ (@length Z)). unfold ltof in IH.
  destruct b as [|x [|y [|z b]]]; [done|done|done|]. apply H3, IH. cbn. lia.
Qed.

Lemma b64_encode_plain raw b : Forall is_byte b → Forall (λ c, line_end c = false) (b64_encode raw b).
Proof.
  assert (∀ z, 0 ≤ z < 64 → line_end (b64_char z) = false) as Hc by (intros z Hz; by apply b64_char_plain).
  assert (∀ n, Forall (λ c, line_end c = false) (b64_pad raw n)) as Hp.
  { intros n. unfold b64_pad. destruct raw; [constructor|]. induction n; cbn; repeat constructor. done. }
  induction b as [|x|x y|x y z b IH] using bytes_ind; intros Hb; unfold is_byte in *; repeat (apply Forall_cons in Hb as [? Hb]); cbn [b64_encode app].
  all: repeat (constructor; [apply Hc; Z.to_euclidean_division_equations; lia|]); auto.
Qed.

Lemma b64_quads_more raw a b c d e l :
  b64_quads raw (a :: b :: c :: d :: e :: l) =
  (x ← b64_value a; y ← b64_value b; z ← b64_value c; w ← b64_value d; rest ← b64_quads raw (e :: l); Some (b64_four x y z w ++ rest)).
Proof. done. Qed.

(** Decoding gives back the bytes that were encoded. *)
Theorem decode_encode raw b : Forall is_byte b → DecodeString raw (EncodeToString raw b) = Some b.
Proof.
  intros Hb. unfold DecodeString, EncodeToString, b64_decode. rewrite chars_of_chars.
  assert (List.filter (λ c, negb (line_end c)) (b64_encode raw b) = b64_encode raw b) as ->.
  { pose proof (b64_encode_plain raw b Hb) as Hp. induction Hp as [|c l Hc _ IH]; [done|]. cbn. by rewrite Hc, IH. }
  revert Hb. induction b as [|x|x y|x y z b IH] using bytes_ind; intros Hb; unfold is_byte in *; repeat (apply Forall_cons in Hb as [? Hb]).
  - done.
  - destruct raw; cbn; unfold b64_last; sextets; cbn; unfold b64_two; repeat f_equal; Z.to_euclidean_division_equations; lia.
  - destruct raw; cbn; unfold b64_last; sextets; cbn; unfold b64_three, b64_two; cbn; repeat f_equal; Z.to_euclidean_division_equations; lia.
  - specialize (IH Hb). cbn [b64_encode app]. destruct b as [|u b].
    + cbn. unfold b64_last. sextets. cbn. repeat f_equal; Z.to_euclidean_division_equations; lia.
    + assert (∃ e l, b64_encode raw (u :: b) = e :: l) as (e & l & E) by (destruct b as [|v [|w b]]; eauto).
      rewrite E in IH |- *. rewrite b64_quads_more. sextets. rewrite IH. cbn. repeat f_equal; Z.to_euclidean_division_equations; lia.
Qed.

(** ** What decoding gives *)
Lemma quads_ind (P : list ascii → Prop) :
  (∀ l, (length l ≤ 4)%nat → P l) → (∀ a b c d e l, P (e :: l) → P (a :: b :: c :: d :: e :: l)) → ∀ l, P l.
Proof.
  intros H0 H1 l. induction l as [l IH] using (induction_ltof1 _ (@length ascii)). unfold ltof in IH.
  destruct l as [|a [|b [|c [|d [|e l]]]]]; try (apply H0; cbn; lia). apply H1, IH. cbn. lia.
Qed.

Ltac b64_values := repeat match goal with
  | H : (_ ≫= _) = Some _ |- _ => apply bind_Some in H as (? & ? & H)
  | H : Some _ = Some _ |- _ => injection H as H
  | H : b64_value ?c = Some ?v |- _ => lazymatch goal with H' : 0 ≤ v < 64 |- _ => fail | _ => pose proof (b64_value_range c v H) end
  end.

Lemma b64_quads_bytes raw l b : b64_quads raw l = Some b → Forall is_byte b.
Proof.
  revert b. induction l as [l Hl|a0 a1 a2 a3 e l IH] using quads_ind; intros b Hb.
  - destruct l as [|a [|a' [|c [|d [|]]]]]; cbn in Hb, Hl; try lia; simplify_eq; try done.
    + destruct raw; [|done]. b64_values. subst. unfold b64_two, is_byte. repeat constructor; Z.to_euclidean_division_equations; lia.
    + destruct raw; [|done]. b64_values. subst. unfold b64_three, b64_two, is_byte. repeat constructor; Z.to_euclidean_division_equations; lia.
    + unfold b64_last in Hb. b64_values. repeat (case_match; simplify_eq); b64_values; unfold b64_four, b64_three, b64_two, is_byte;
        repeat constructor; Z.to_euclidean_division_equations; lia.
  - rewrite b64_quads_more in Hb. b64_values. subst b. specialize (IH _ ltac:(eassumption)).
    unfold b64_four, b64_three, b64_two. cbn. unfold is_byte in *. repeat (apply Forall_cons; split); [..|done]; Z.to_euclidean_division_equations; lia.
Qed.

Lemma DecodeString_bytes raw s b : DecodeString raw s = Some b → Forall is_byte b.
Proof. apply b64_quads_bytes. Qed.

(** What was read without line ends is as long as what is written of it. *)
Lemma b64_quads_length l b : b64_quads false l = Some b → length (b64_encode false b) = length l.
Proof.
  revert b. induction l as [l Hl|a0 a1 a2 a3 e l IH] using quads_ind; intros b Hb.
  - destruct l as [|a [|a' [|c [|d [|]]]]]; cbn in Hb, Hl; try lia; simplify_eq; try done.
    unfold b64_last in Hb. b64_values. repeat (case_match; simplify_eq); done.
  - rewrite b64_quads_more in Hb. b64_values. subst b. cbn. by erewrite IH by eassumption.
Qed.

Lemma DecodeString_length s b :
  Forall (λ c, line_end c = false) (chars s) → DecodeString false s = Some b → String.length (EncodeToString false b) = String.length s.
Proof.
  intros Hs. unfold DecodeString, b64_decode, EncodeToString.
  assert (List.filter (λ c, negb (line_end c)) (chars s) = chars s) as ->.
  { induction Hs as [|c l Hc _ IH]; [done|]. cbn. by rewrite Hc, IH. }
  intros Hb%b64_quads_length. by rewrite <- !length_chars, chars_of_chars.
Qed.
