(* ===== verification/SshKeys.v ===== *)
(** * Registered SSH keys (internal/gateway/sshkey.go)

    One authorized_keys line: a type, the key and a comment, and what is kept
    of it. [NewPublicKey] is crypto/ecdh's: an uncompressed point on the
    curve. SHA-256 is an argument. *)
From S2P Require Import Prelude GoStrings Base64.

Inductive key_error :=
| KeyTooLong | NoKeyGiven | MoreThanOneLine | ControlCharacter | OptionsRefused (name : string) | UnknownType | TypeAlone
| NotBase64 | NotOfItsType | Malformed | TrailingBytes.
#[export] Instance key_error_eq_dec : EqDecision key_error.
Proof. solve_decision. Defined.

Record ParsedKey := { pk_Type : string; pk_Blob : list Z; pk_Comment : string; pk_Fingerprint : string }.

Definition maxAuthorizedKey : Z := Z.shiftl 8 10.

Definition Line (k : ParsedKey) : string :=
  let s := pk_Type k +:+ " " +:+ EncodeToString false (pk_Blob k) in
  if String.eqb (pk_Comment k) "" then s else s +:+ " " +:+ pk_Comment k.

(** ** The wire format *)
Definition wire_str (b : list Z) : option (list Z * list Z) :=
  if (length b <? 4)%nat then None
  else
    let n := from_be (take 4 b) in
    if n >? blen b - 4 then None else Some (take (Z.to_nat n) (drop 4 b), drop (Z.to_nat n) (drop 4 b)).

(** What follows a key that is well formed. *)
Abbreviation key_check := (list Z → option (list Z)).

Definition checkApplication : key_check := λ b,
  '(app, rest) ← wire_str b; if has_prefix (string_of_bytes app) "ssh:" then Some rest else None.

Definition checkEd25519 (sk : bool) : key_check := λ b,
  '(k, rest) ← wire_str b;
  if negb (blen k =? 32) then None else if sk then checkApplication rest else Some rest.

(** A curve [y^2 = x^3 - 3 x + b] over a prime field. *)
Record Curve := { cv_p : Z; cv_b : Z; cv_bytes : nat }.
Definition P256 : Curve := {| cv_p := 2 ^ 256 - 2 ^ 224 + 2 ^ 192 + 2 ^ 96 - 1;
  cv_b := 0x5ac635d8aa3a93e7b3ebbd55769886bc651d06b0cc53b0f63bce3c3e27d2604b; cv_bytes := 32 |}.
Definition P384 : Curve := {| cv_p := 2 ^ 384 - 2 ^ 128 - 2 ^ 96 + 2 ^ 32 - 1;
  cv_b := 0xb3312fa7e23ee7e4988e056be3f82d19181d9c6efe8141120314088f5013875ac656398d8a2ed19d2a85c8edd3ec2aef; cv_bytes := 48 |}.
Definition P521 : Curve := {| cv_p := 2 ^ 521 - 1;
  cv_b := 0x51953eb9618e1c9a1f929a21a0b68540eea2da725b99b315f3b8b489918ef109e156193951ec7e937b1652c0bd3bb1bf073573df883d2c34f1ef451fd46b503f00; cv_bytes := 66 |}.
Definition NewPublicKey (c : Curve) (key : list Z) : bool :=
  match key with
  | 4 :: xy =>
      let x := from_be (take (cv_bytes c) xy) in
      let y := from_be (drop (cv_bytes c) xy) in
      (length xy =? 2 * cv_bytes c)%nat && (x <? cv_p c) && (y <? cv_p c) &&
      (y * y mod cv_p c =? (x * x * x - 3 * x + cv_b c) mod cv_p c)
  | _ => false
  end.

Definition checkECDSA (curve : string) (c : Curve) (sk : bool) : key_check := λ b,
  '(name, b) ← wire_str b;
  if negb (String.eqb (string_of_bytes name) curve) then None
  else
    '(point, rest) ← wire_str b;
    if negb (NewPublicKey c point) then None else if sk then checkApplication rest else Some rest.

Definition minRSABits : Z := 2048.
Definition bit_len (z : Z) : Z := if z =? 0 then 0 else Z.log2 z + 1.
Definition unsigned (m : list Z) : bool := match m with [] => false | x :: _ => Z.land x 128 =? 0 end.
Definition checkRSA : key_check := λ b,
  '(e, b) ← wire_str b;
  '(n, rest) ← wire_str b;
  if negb (unsigned e && unsigned n) then None
  else
    let ev := from_be e in
    let bits := bit_len (from_be n) in
    if (ev <? 3) || negb (Z.odd ev) || (bit_len ev >? 64) then None
    else if (bits <? minRSABits) || (bits >? 16384) then None
    else Some rest.

Definition keyTypes : list (string * key_check) := [
  ("ssh-ed25519", checkEd25519 false);
  ("sk-ssh-ed25519@openssh.com", checkEd25519 true);
  ("ecdsa-sha2-nistp256", checkECDSA "nistp256" P256 false);
  ("ecdsa-sha2-nistp384", checkECDSA "nistp384" P384 false);
  ("ecdsa-sha2-nistp521", checkECDSA "nistp521" P521 false);
  ("sk-ecdsa-sha2-nistp256@openssh.com", checkECDSA "nistp256" P256 true);
  ("ssh-rsa", checkRSA)]%string.
Definition key_type (f : string) : option key_check := snd <$> List.find (λ kt, String.eqb kt.1 f) keyTypes.

(** ** A line *)
Definition looksLikeOptions (f : string) : bool :=
  contains_char "=" f || contains_char "," f || contains_char "034" f || has_prefix f "no-" ||
  String.eqb f "restrict" || String.eqb f "cert-authority" || String.eqb f "pty" || String.eqb f "verify-required" ||
  String.eqb f "touch-required".
Definition before_char (c : ascii) (s : string) : string := match cut s c with Some (a, _) => a | None => s end.
Definition optionName (f : string) : string := of_chars (take 32 (chars (before_char "," (before_char "=" f)))).

(** [strings.TrimRight] of line ends. *)
Fixpoint drop_line_ends (l : list ascii) : list ascii :=
  match l with c :: t => if line_end c then drop_line_ends t else l | [] => [] end.
Definition trim_line_ends (s : string) : string := of_chars (reverse (drop_line_ends (reverse (chars s)))).

(** The first character a line may not have. A byte that is part of a longer
    rune is none. *)
Definition line_error (c : ascii) : option key_error :=
  if line_end c then Some MoreThanOneLine
  else if ((code c <? 32) && negb (code c =? 9)) || (code c =? 127) then Some ControlCharacter else None.

Section keys.
Context `{Unicode} (sha256 : list Z → list Z).

Definition Fingerprint (blob : list Z) : string := "SHA256:" +:+ EncodeToString true (sha256 blob).

Definition parse_fields (fs : list string) : result key_error ParsedKey :=
  match fs with
  | [] => Err NoKeyGiven
  | typ :: fs =>
      match key_type typ with
      | None => Err (if looksLikeOptions typ then OptionsRefused (optionName typ) else UnknownType)
      | Some check =>
          match fs with
          | [] => Err TypeAlone
          | b64 :: comment =>
              blob ← of_option (DecodeString false b64) NotBase64;
              '(t, b) ← of_option (wire_str blob) NotOfItsType;
              reject_if (negb (String.eqb (string_of_bytes t) typ)) NotOfItsType;;
              rest ← of_option (check b) Malformed;
              reject_if (negb (bool_decide (rest = []))) TrailingBytes;;
              Ok {| pk_Type := typ; pk_Blob := blob; pk_Comment := join " " comment; pk_Fingerprint := Fingerprint blob |}
          end
      end
  end.

Definition ParseAuthorizedKey (line : string) : result key_error ParsedKey :=
  reject_if (strlen line >? maxAuthorizedKey) KeyTooLong;;
  let line := trim_space (trim_line_ends line) in
  reject_if (String.eqb line "") NoKeyGiven;;
  match head (omap line_error (chars line)) with
  | Some e => Err e
  | None => parse_fields (fields line)
  end.
End keys.

(** ** Words and spaces *)
Definition plain_word (w : list ascii) : Prop := w ≠ [] ∧ Forall (λ c, ascii_space c = false) w.

Lemma fields_chars_words cur l :
  Forall (λ c, ascii_space c = false) cur → Forall plain_word (fields_chars cur l).
Proof.
  revert cur. induction l as [|c l IH]; intros cur Hc; cbn [fields_chars].
  - destruct cur; [constructor|]. repeat constructor; [|by apply Forall_reverse]. intros E%(f_equal reverse). by rewrite reverse_involutive in E.
  - destruct (ascii_space c) eqn:E.
    + apply Forall_app. split; [|by apply IH]. destruct cur; [constructor|]. repeat constructor; [|by apply Forall_reverse].
      intros E'%(f_equal reverse). by rewrite reverse_involutive in E'.
    + apply IH. by constructor.
Qed.

Lemma fields_chars_run w cur t :
  Forall (λ c, ascii_space c = false) w → fields_chars cur (w ++ t) = fields_chars (reverse w ++ cur) t.
Proof.
  revert cur. induction w as [|c w IH]; intros cur Hw; [done|]. inversion_clear Hw as [|?? Hc Hw']. cbn [app fields_chars]. rewrite Hc, IH by done.
  by rewrite reverse_cons, <- app_assoc.
Qed.

(** Words joined by a space are read apart. *)
Lemma fields_chars_join ws : Forall plain_word ws → fields_chars [] (join_chars " " ws) = ws.
Proof.
  induction 1 as [|w ws [Hne Hw] Hws IH]; [done|]. destruct ws as [|w' ws].
  - cbn. rewrite <- (app_nil_r w) at 1. rewrite fields_chars_run by done. cbn. rewrite app_nil_r.
    destruct (reverse w) eqn:E; [by apply (f_equal reverse) in E; rewrite reverse_involutive in E|].
    by rewrite <- E, reverse_involutive.
  - change (join_chars " " (w :: w' :: ws)) with (w ++ " "%char :: join_chars " " (w' :: ws)).
    rewrite fields_chars_run by done. cbn [fields_chars]. rewrite app_nil_r. change (ascii_space " ") with true. cbn iota.
    rewrite IH. destruct (reverse w) eqn:E; [by apply (f_equal reverse) in E; rewrite reverse_involutive in E|].
    by rewrite <- E, reverse_involutive.
Qed.

(** Joined, the words of a text are no longer than it, and of its characters. *)
Lemma fields_chars_sum l : ∀ cur,
  (length (join_chars " " (fields_chars cur l)) ≤ length cur + length l)%nat ∧
  (cur = [] → ∀ c t, l = c :: t → ascii_space c = true → (length (join_chars " " (fields_chars cur l)) ≤ length t)%nat).
Proof.
  assert (∀ ws (w : list ascii), (length (join_chars " " (w :: ws)) ≤ length w + S (length (join_chars " " ws)))%nat) as Hj.
  { intros ws w. destruct ws as [|v ws]; cbn; [lia|]. rewrite length_app. cbn. lia. }
  induction l as [|c l IH]; intros cur; cbn [fields_chars].
  - split; [|done]. destruct cur as [|d cur]; cbn [join_chars]; [cbn; lia|]. rewrite length_reverse. cbn. lia.
  - destruct (ascii_space c) eqn:E.
    + destruct (IH []) as [IH1 _]. destruct cur as [|d cur]; cbn [app].
      * split; [cbn in *; lia|]. intros _ c' t [= <- <-] _. cbn in *. lia.
      * split; [|done]. pose proof (Hj (fields_chars [] l) (reverse (d :: cur))) as H1. rewrite length_reverse in H1. cbn in *. lia.
    + destruct (IH (c :: cur)) as [IH1 _]. split; [cbn in *; lia|]. intros _ c' t [= <- <-]. congruence.
Qed.

Lemma fields_chars_elem c w cur l : w ∈ fields_chars cur l → c ∈ w → c ∈ cur ∨ c ∈ l.
Proof.
  revert cur. induction l as [|d l IH]; intros cur; cbn [fields_chars].
  - destruct cur; [by intros ?%elem_of_nil|]. intros ->%list_elem_of_singleton. rewrite elem_of_reverse. auto.
  - destruct (ascii_space d).
    + intros [Hw|Hw]%elem_of_app Hc.
      * destruct cur; [by apply elem_of_nil in Hw|]. apply list_elem_of_singleton in Hw as ->. rewrite elem_of_reverse in Hc. auto.
      * destruct (IH [] Hw Hc) as [?%elem_of_nil|?]; [done|]. right. by right.
    + intros Hw Hc. destruct (IH _ Hw Hc) as [[->|?]%elem_of_cons|?]; auto; right; [by left|by right].
Qed.

(** ** What is accepted *)
Section accepted.
Context `{Unicode} (sha256 : list Z → list Z).

Lemma parse_fields_ok fs k : parse_fields sha256 fs = Ok k →
  ∃ typ b64 comment, fs = typ :: b64 :: comment ∧ pk_Type k = typ ∧ DecodeString false b64 = Some (pk_Blob k) ∧
    pk_Comment k = join " " comment ∧ parse_fields sha256 (typ :: EncodeToString false (pk_Blob k) :: comment) = Ok k.
Proof.
  destruct fs as [|typ fs]; [done|]. cbn [parse_fields]. destruct (key_type typ) as [check|] eqn:Ek; [|done]. destruct fs as [|b64 comment]; [done|].
  intros (blob & Hb%of_option_ok & Hp)%bind_ok.
  assert (Forall is_byte blob) as Hbytes by (by eapply DecodeString_bytes).
  assert (pk_Type k = typ ∧ pk_Blob k = blob ∧ pk_Comment k = join " " comment) as (<- & <- & Hc).
  { apply bind_ok in Hp as ([t b] & _ & Hp). rewrite guard_ok in Hp. destruct Hp as [_ Hp].
    apply bind_ok in Hp as (rest & _ & Hp). rewrite guard_ok in Hp. by destruct Hp as [_ [= <-]]. }
  exists (pk_Type k), b64, comment. split_and!; [done..|]. cbn [parse_fields]. rewrite Ek, decode_encode by done. exact Hp.
Qed.

Lemma head_omap_none {A B} (f : A → option B) l : head (omap f l) = None → Forall (λ x, f x = None) l.
Proof. induction l as [|x l IH]; [constructor|]. cbn. destruct (f x) eqn:E; [done|]. intros ?. constructor; [done|by apply IH]. Qed.

Lemma omap_none {A B} (f : A → option B) l : Forall (λ x, f x = None) l → omap f l = [].
Proof. induction 1 as [|x l Hx _ IH]; [done|]. cbn. by rewrite Hx. Qed.

(** Printable ASCII. *)
Definition printable (c : ascii) : Prop := 32 ≤ code c < 127.

Lemma printable_line_error c : printable c → line_error c = None ∧ line_end c = false ∧ ascii_char c = true.
Proof.
  unfold printable, line_error, line_end, ascii_char. intros Hc.
  assert (c ≠ cr) as H1 by (intros ->; change (code cr) with 13 in Hc; lia).
  assert (c ≠ lf) as H2 by (intros ->; change (code lf) with 10 in Hc; lia).
  rewrite !bool_decide_eq_false_2 by done. cbn [orb]. split_and!; [by if_false|done|lia].
Qed.

Lemma word_printable c : line_error c = None → ascii_space c = false → ascii_char c = true → printable c.
Proof.
  unfold printable, line_error, ascii_space, ascii_char, in_range. intros He Hs Ha. pose proof (code_range c).
  destruct (line_end c); [done|]. destruct (_ || _) eqn:E in He; [done|]. bool_simpl. lia.
Qed.

(** Printable words, the first and the last of which end a trimmed line. *)
Lemma trim_words ws :
  Forall plain_word ws → Forall (Forall printable) ws → ws ≠ [] →
  let s := of_chars (join_chars " " ws) in
  trim_space (trim_line_ends s) = s ∧ s ≠ ""%string ∧ is_ascii s = true ∧ Forall printable (chars s) ∧ fields s = of_chars <$> ws.
Proof.
  intros Hw Hp Hne s.
  assert (Forall printable (chars s)) as Hps.
  { unfold s. rewrite chars_of_chars. clear Hw Hne s. induction Hp as [|w ws Hw Hws IH]; [constructor|]. destruct ws as [|v ws]; [done|].
    change (join_chars " " (w :: v :: ws)) with (w ++ " "%char :: join_chars " " (v :: ws)). apply Forall_app. split; [done|].
    constructor; [by vm_compute|done]. }
  assert (is_ascii s = true) as Ha by (apply is_ascii_chars; eapply Forall_impl; [exact Hps|]; intros c Hc; by apply printable_line_error).
  assert (trim_line_ends s = s) as ->.
  { unfold trim_line_ends. assert (drop_line_ends (reverse (chars s)) = reverse (chars s)) as ->; [|by rewrite reverse_involutive, of_chars_chars].
    destruct (reverse (chars s)) as [|c l] eqn:E; [done|]. cbn. assert (c ∈ chars s) as Hc by (apply elem_of_reverse; rewrite E; by left).
    rewrite Forall_forall in Hps. by destruct (printable_line_error c (Hps c Hc)) as (_ & -> & _). }
  assert (fields s = of_chars <$> ws) as Hf by (unfold fields; rewrite Ha; unfold s; rewrite chars_of_chars; by rewrite fields_chars_join).
  split_and!; [|intros E|done..].
  - unfold trim_space. rewrite Ha. rewrite trim_spaces_id; [apply of_chars_chars|..]; unfold s; rewrite chars_of_chars.
    + intros c. destruct Hw as [|w ws [Hwn Hww] _]; [done|]. destruct w as [|d w]; [done|]. inversion_clear Hww. destruct ws; cbn; by intros [= <-].
    + intros c. rewrite <- head_reverse. clear Hp s Hps Ha Hf. induction Hw as [|w ws [Hwn Hww] Hws IH]; [done|]. destruct ws as [|v ws].
      * cbn [join_chars]. destruct (reverse w) as [|d l] eqn:E; [done|]. cbn. intros [= <-]. rewrite Forall_forall in Hww. apply Hww, elem_of_reverse. rewrite E. by left.
      * change (join_chars " " (w :: v :: ws)) with (w ++ " "%char :: join_chars " " (v :: ws)). rewrite reverse_app, reverse_cons, <- !app_assoc.
        intros Hc. apply IH; [done|]. destruct (reverse (join_chars " " (v :: ws))) as [|d l] eqn:E; [|exact Hc].
        exfalso. apply (f_equal reverse) in E. rewrite reverse_involutive in E. inversion_clear Hws as [|?? [Hvn _] _].
        destruct v; [done|]. by destruct ws.
  - rewrite E in Hf. by destruct ws.
Qed.

Lemma b64_encode_words b : Forall is_byte b → Forall (λ c, ascii_space c = false ∧ printable c) (b64_encode false b).
Proof.
  assert (∀ z, 0 ≤ z < 64 → ascii_space (b64_char z) = false ∧ printable (b64_char z)) as Hc.
  { intros z Hz. destruct (b64_char_plain z Hz) as (_ & _ & _ & Hs & _ & Hr). split; [done|]. unfold printable. lia. }
  induction b as [|x|x y|x y z b IH] using bytes_ind; intros Hb; unfold is_byte in *; repeat (apply Forall_cons in Hb as [? Hb]); cbn [b64_encode app b64_pad repeat].
  all: repeat (constructor; [first [apply Hc; Z.to_euclidean_division_equations; lia | by vm_compute]|]); auto.
Qed.

Lemma Line_words k comment :
  pk_Comment k = join " " (of_chars <$> comment) → Forall plain_word comment →
  Line k = of_chars (join_chars " " (chars (pk_Type k) :: b64_encode false (pk_Blob k) :: comment)).
Proof.
  intros Hc Hw. unfold Line. rewrite Hc. unfold join, EncodeToString.
  assert (chars <$> (of_chars <$> comment) = comment) as ->.
  { rewrite <- list_fmap_compose. rewrite <- (list_fmap_id comment) at 2. apply list_fmap_ext. intros _ l _. cbn. apply chars_of_chars. }
  assert (∀ l : list ascii, of_chars (chars (pk_Type k) ++ " "%char :: l) = pk_Type k +:+ " " +:+ of_chars l) as Ht.
  { intros l. rewrite of_chars_app, of_chars_chars. done. }
  destruct comment as [|w ws].
  - cbn [join_chars]. rewrite Ht. done.
  - inversion_clear Hw as [|?? [Hne _] _]. destruct (String.eqb_spec (of_chars (join_chars " " (w :: ws))) "") as [E|_].
    { destruct w; [done|]. by destruct ws. }
    change (join_chars " " (chars (pk_Type k) :: b64_encode false (pk_Blob k) :: w :: ws))
      with (chars (pk_Type k) ++ " "%char :: (b64_encode false (pk_Blob k) ++ " "%char :: join_chars " " (w :: ws))).
    rewrite Ht, of_chars_app. by rewrite <- !str_app_assoc.
Qed.

Lemma trimmed_length s : is_ascii s = true → (String.length (trim_space (trim_line_ends s)) ≤ String.length s)%nat ∧ is_ascii (trim_space (trim_line_ends s)) = true.
Proof.
  intros Ha.
  assert (∀ l, drop_line_ends l `suffix_of` l) as Hd.
  { induction l as [|c l IH]; cbn; [done|]. destruct (line_end c); [by apply suffix_cons_r|done]. }
  assert (chars (trim_line_ends s) `sublist_of` chars s) as Hs1.
  { unfold trim_line_ends. rewrite chars_of_chars. rewrite <- (reverse_involutive (chars s)) at 2.
    destruct (Hd (reverse (chars s))) as [p Hp]. rewrite Hp at 2. rewrite reverse_app. by apply sublist_inserts_r. }
  assert (∀ a b, chars a `sublist_of` chars b → is_ascii b = true → is_ascii a = true) as Hsub.
  { intros a b Hab. rewrite !is_ascii_chars. rewrite !Forall_forall. intros Hb c Hc. apply Hb. by eapply elem_of_sublist. }
  pose proof (Hsub _ _ Hs1 Ha) as Ha1.
  assert (chars (trim_space (trim_line_ends s)) `sublist_of` chars (trim_line_ends s)) as Hs2.
  { unfold trim_space. rewrite Ha1, chars_of_chars. apply trim_spaces_sublist. }
  split; [|by eapply Hsub]. rewrite <- !length_chars. etrans; by apply sublist_length.
Qed.
End accepted.

