(* ===== verification/Accounts.v ===== *)
(** * Accounts, keys and organizations over HTTP (internal/gateway:
    accounts.go, access.go, orgs.go, keys_suspend.go, keys_personal.go,
    policies.go)

    A request is a program of steps: a transaction, a read, a look at the
    clock, a call on the throttle. Between two of them any other request may
    take its own. A step is given its moment: the time, what is random, and
    whether the database answers. PBKDF2 is an argument; what a handler prints
    and logs, emails and records in the audit log is left out. *)
From stdpp Require Import pretty.
From S2P Require Import Prelude GoSort GoStrings Api Spec ServiceSpec Access Sessions Identity SandboxStore Base64 SshKeys SignIns.

(** ** Passwords *)
Definition passwordMin : Z := 10.
Definition passwordMax : Z := 256.
Definition checkPassword (pw : string) : bool := negb (strlen pw <? passwordMin) && negb (strlen pw >? passwordMax).
Definition passwordIterations : Z := 600000.

Section passwords.
(** Password, salt, iterations and length. *)
Context (pbkdf2 : string → list Z → Z → Z → option (list Z)).

Definition hashPassword (salt : list Z) (pw : string) : option string :=
  dk ← pbkdf2 pw salt passwordIterations 32;
  Some ("pbkdf2-sha256$" +:+ pretty passwordIterations +:+ "$" +:+ EncodeToString true salt +:+ "$" +:+ EncodeToString true dk).

Definition verifyPassword (encoded pw : string) : bool :=
  match split "$" encoded with
  | [name; n; salt64; want64] =>
      String.eqb name "pbkdf2-sha256" &&
      match Atoi n with
      | Some iter =>
          negb ((iter <? 1) || (iter >? 10000000)) &&
          match DecodeString true salt64, DecodeString true want64 with
          | Some salt, Some want =>
              match pbkdf2 pw salt iter (blen want) with Some got => bool_decide (got = want) | None => false end
          | _, _ => false
          end
      | None => false
      end
  | _ => false
  end.
End passwords.

(** ** What is answered *)
Record KeyInfo := { ki_Key : Key; ki_Suspended : bool; ki_Org : string; ki_Policy : string }.
Record InviteInfo := { ii_ID : string; ii_Invite : inviteRecord; ii_Reset : bool }.
Record OrgMember := { om_User : string; om_Tenant : string; om_Role : string; om_Added : Z }.
Record orgRecord := { or_Name : string; or_Created : Z; or_CreatedBy : option uid; or_Members : list OrgMember }.
Record OrgInfo := { oi_Name : string; oi_Role : string; oi_Created : Z; oi_Current : bool }.
Record Whoami := { wh_User : string; wh_Tenant : string; wh_KeyID : string; wh_Scopes : list string; wh_Org : string;
                   wh_Policy : option (string * Z); wh_Email : string }.

Inductive response :=
| Refused (status : Z)
| Done (status : Z)
| Gave_login (secret : string) (k : Key) (email : string)
| Gave_key (secret : string) (k : KeyInfo)
| Gave_invite (status : Z) (token : string) (iv : InviteInfo)
| Gave_access (token host : string) (port : Z) (expires : Z)
| Shows_key (k : KeyInfo)
| Shows_keys (l : list KeyInfo)
| Shows_invite (iv : InviteInfo)
| Shows_invites (l : list InviteInfo) (can_email : bool)
| Shows_who (w : Whoami)
| Shows_org (status : Z) (o : OrgInfo)
| Shows_orgs (l : list OrgInfo)
| Shows_records (l : list orgRecord)
| Shows_member (status : Z) (m : OrgMember)
| Shows_members (l : list OrgMember)
| Shows_ssh_key (k : SSHKey)
| Shows_ssh_keys (l : list SSHKey)
| Shows_policies (l : list (string * Z)).

(** ** Programs *)

(** The gateway's state that these requests read and write. *)
Record front := {
  fr_gw : gateway store;
  fr_signIns : signInThrottle;
  fr_live : list liveReq;
  fr_ssh : list login
}.

(** A transaction runs; or does not; or runs, and that is not known. *)
Inductive db_fate := Answers | Fails | Unheard.
Record instant := {
  mo_now : Z; mo_fate : db_fate; mo_id : string; mo_secret : string; mo_salt : list Z; mo_listed : list (string * node_answer) }.

Inductive prog (A : Type) : Type :=
| Ret (a : A)
| Halt (r : response)
| Step (B : Type) (f : instant → front → front * B) (k : B → prog A).
Arguments Ret {A} a.
Arguments Halt {A} r.
Arguments Step {A B} f k.

Fixpoint prog_bind {A B} (p : prog A) (k : A → prog B) : prog B :=
  match p with
  | Ret a => k a
  | Halt r => Halt r
  | Step f c => Step f (λ b, prog_bind (c b) k)
  end.
#[export] Instance prog_ret_inst : MRet prog := λ A, Ret.
#[export] Instance prog_bind_inst : MBind prog := λ A B k p, prog_bind p k.

Definition refuse {A} (status : Z) : prog A := Halt (Refused status).
Definition refuse_if (b : bool) (status : Z) : prog () := if b then refuse status else Ret ().
Definition or_refuse {A} (o : option A) (status : Z) : prog A := match o with Some a => Ret a | None => refuse status end.
Definition need (p : Principal) (scope : string) : prog () := refuse_if (negb (Can p scope)) 403.
(** [None]: not a JSON body of the type, or more than one. *)
Definition decode {A} (body : option A) : prog A := or_refuse body 400.

Definition on_store (f : store → store) (fr : front) : front := {|
  fr_gw := {| gw_store := f (gw_store (fr_gw fr)); gw_tombs := gw_tombs (fr_gw fr); gw_nodes := gw_nodes (fr_gw fr) |};
  fr_signIns := fr_signIns fr; fr_live := fr_live fr; fr_ssh := fr_ssh fr |}.
Definition front_store (fr : front) : store := gw_store (fr_gw fr).

Definition clock : prog Z := Step (λ m fr, (fr, mo_now m)) Ret.
Definition answers_now (m : instant) : bool := match mo_fate m with Answers => true | _ => false end.
(** A read; [None] when the database does not answer. *)
Definition ask {A} (f : Z → store → A) : prog (option A) :=
  Step (λ m fr, (fr, if answers_now m then Some (f (mo_now m) (front_store fr)) else None)) Ret.
Definition read {A} (f : Z → store → A) : prog A := o ← ask f; or_refuse o 503.

(** A transaction on Identity's tables. *)
Definition identity_call {A} (f : db → tx (A * db)) (s : store) : tx (A * store) :=
  '(a, d) ← f (with_work (work_of s) (st_db s));
  Ok (a, on_db (λ d0, with_work (db_work d0 ∪ (db_work d ∖ work_of s)) d) s).
Definition run_tx {E A} (failure : E) (f : instant → store → result E (A * store)) : prog (result E A) :=
  Step (λ m fr,
    match mo_fate m with
    | Fails => (fr, Err failure)
    | _ =>
        match f m (front_store fr) with
        | Ok (a, s) => (on_store (λ _, s) fr, match mo_fate m with Unheard => Err failure | _ => Ok a end)
        | Err e => (fr, Err e)
        end
    end) Ret.
Definition transact {A} (f : instant → db → tx (A * db)) : prog (tx A) := run_tx StoreFailed (λ m, identity_call (f m)).
Definition plainly {X E} (r : result E X) : result E (() * X) := x ← r; Ok ((), x).

(** [switch err]. *)
Definition on_error {E A} (r : result E A) (status : E → Z) : prog A :=
  match r with Ok a => Ret a | Err e => refuse (status e) end.
Definition writeStoreErr (e : id_error) : Z := match e with StoreFailed => 503 | _ => 500 end.

(** What an operator sets. *)
Record settings := {
  cf_Mail : bool; cf_MaxOrgsPerUser : Z; cf_SSH : option (string * Z); cf_SSHAccessTTL : Z; cf_SSHAccessMaxTTL : Z }.

Definition loginTTL : Z := 12 * 3600 * second.
Definition loginMaxTTL : Z := 7 * 24 * 3600 * second.
Definition suspendGrace : Z := 3600 * second.
Definition minPersonalKeyLife : Z := 3600 * second.
Definition maxPersonalKeyLife : Z := 366 * 24 * 3600 * second.

Definition signInTTL (n : Z) : option Z :=
  let d := secs n in
  if (n <? 0) || (d >? loginMaxTTL) then None else if n =? 0 then Some loginTTL else Some d.

Section handlers.
Context `{Unicode} `{hash : Hash} (pbkdf2 : string → list Z → Z → Z → option (list Z)) (sha256 : list Z → list Z).
(** [IsPrint] of every rune; the salt of the hash for unknown addresses. *)
Context (is_print : string → bool) (dummy_salt : list Z) (cfg : settings).

Definition dummyHash : string := default ""%string (hashPassword pbkdf2 dummy_salt "not a password anyone has").
(** A hash of a new password. PBKDF2 of these parameters does not fail. *)
Definition hashing (pw : string) : prog string :=
  Step (λ m fr, (fr, default ""%string (hashPassword pbkdf2 (mo_salt m) pw))) Ret.

(** Open requests and connections are checked again. *)
Definition access_changed (now : Z) (fr : front) : front := {|
  fr_gw := fr_gw fr; fr_signIns := fr_signIns fr;
  fr_live := recheckLive (front_store fr) now (fr_live fr);
  fr_ssh := RecheckAccess (λ u, Ok (SSHKeysFor (front_store fr) u)) (front_store fr) now (fr_ssh fr) |}.
Definition accessChanged : prog () := Step (λ m fr, (access_changed (mo_now m) fr, ())) Ret.

Definition throttled {A} (f : Z → signInThrottle → signInThrottle * A) : prog A :=
  Step (λ m fr, let '(t, a) := f (mo_now m) (fr_signIns fr) in
    ({| fr_gw := fr_gw fr; fr_signIns := t; fr_live := fr_live fr; fr_ssh := fr_ssh fr |}, a)) Ret.
Definition may_try (email : string) : prog () :=
  why ← throttled (λ now, allow now email); refuse_if (bool_decide (why ≠ None)) 429.
Definition has_failed (email : string) : prog () := throttled (λ now t, (SignIns.failed now email t, ())).
Definition has_succeeded (email : string) : prog () := throttled (λ _ t, (succeeded email t, ())).

(** ** Signing in and out *)
Definition sign_in (account : string) (ttl : Z) : prog (tx (string * Key)) :=
  transact (λ m d, '(k, d) ← SignIn hash_secret (mo_now m) (mo_id m) (mo_secret m) account ttl d;
    Ok ((newSecret keySecretPrefix (mo_secret m), k), d)).

Definition login_request (email password : string) (ttl_secs : Z) : prog response :=
  ttl ← or_refuse (signInTTL ttl_secs) 400;
  let email := (NormalEmail email).1 in
  may_try email;;
  acct ← read (λ _ s, Account (st_db s) email);
  let password_hash := match acct with Some a => if String.eqb (k_Password a) "" then dummyHash else k_Password a | None => dummyHash end in
  match acct with
  | Some a =>
      if verifyPassword pbkdf2 password_hash password && negb (strlen password >? passwordMax) then
        has_succeeded email;;
        now ← clock;
        refuse_if (negb (Active now a)) 403;;
        r ← sign_in (k_ID a) ttl;
        '(secret, k) ← on_error r (λ _, 403);
        Ret (Gave_login secret k (k_Email a))
      else has_failed email;; refuse 401
  | None => has_failed email;; refuse 401
  end.

Definition invite_info (iiv : string * inviteRecord) : InviteInfo :=
  {| ii_ID := iiv.1; ii_Invite := iiv.2; ii_Reset := bool_decide (is_Some (iv_Key iiv.2)) |}.
Definition invite_of_token (token : string) : prog (string * inviteRecord) :=
  iv ← read (λ now s, inviteByToken hash_secret (st_db s) now token); or_refuse iv 404.
Definition inviteFor (token : string) : prog response := iv ← invite_of_token token; Ret (Shows_invite (invite_info iv)).

Definition redeem_status (e : id_error) : Z :=
  match e with
  | ErrNoSuchInvite => 404
  | ErrEmailTaken | ErrUserHasAccount | ErrMemberName | ErrNoSuchPolicy => 409
  | _ => 500
  end.
Definition register_request (token password : string) (ttl_secs : Z) : prog response :=
  ttl ← or_refuse (signInTTL ttl_secs) 400;
  refuse_if (negb (checkPassword password)) 400;;
  invite_of_token token;;
  pw ← hashing password;
  r ← transact (λ m, RedeemInvite hash_secret (mo_now m) (mo_id m) (mo_secret m) token pw);
  acct ← on_error r redeem_status;
  accessChanged;;
  r ← sign_in (k_ID acct) ttl;
  '(secret, k) ← on_error r (λ _, 403);
  Ret (Gave_login secret k (k_Email acct)).

Definition logout (p : Principal) : prog response :=
  r ← transact (λ _ d, plainly (SignOut (p_KeyID p) d)); on_error r (λ _, 400);;
  accessChanged;; Ret (Done 204).

Definition changePassword (p : Principal) (current new : string) : prog response :=
  o ← read (λ _ s, AccountOf (st_db s) (p_KeyID p));
  acct ← or_refuse o 400;
  refuse_if (negb (checkPassword new)) 400;;
  may_try (k_Email acct);;
  if (strlen current >? passwordMax) || negb (verifyPassword pbkdf2 (k_Password acct) current) then
    has_failed (k_Email acct);; refuse 403
  else
    pw ← hashing new;
    r ← transact (λ _ d, plainly (SetPassword (k_ID acct) pw (p_KeyID p) d));
    on_error r (λ _, 500);;
    accessChanged;; Ret (Done 204).

(** ** Whoami *)
Definition whoami (p : Principal) : prog response :=
  pol ← read (λ _ s, if Can p ScopeAdmin then None
                     else if negb (String.eqb (p_KeyTenant p) "") || negb (String.eqb (p_KeyID p) "") then policyOf (st_db s) (p_User p) (p_KeyTenant p)
                     else PolicyActingIn (st_db s) (p_User p) (p_Tenant p));
  acct ← read (λ _ s, AccountOf (st_db s) (p_KeyID p));
  Ret (Shows_who {| wh_User := p_User p; wh_Tenant := p_KeyTenant p; wh_KeyID := p_KeyID p; wh_Scopes := p_Scopes p;
    wh_Org := wireOrg (p_Tenant p); wh_Policy := pol; wh_Email := match acct with Some a => k_Email a | None => "" end |}).

(** ** SSH keys and access *)
Definition sshEndpoint (p : Principal) : prog response :=
  '(host, port) ← or_refuse (cf_SSH cfg) 404; Ret (Gave_access "" host port 0).

(** [resolve] on the store as the caller's tenant. *)
Definition resolve_step (p : Principal) (ref scope : string) : prog (string * Owner) :=
  r ← Step (λ m fr, (fr, if answers_now m then Access.resolve (fr_gw fr) p (mo_now m) (mo_listed m) ref scope else Err RouteStore)) Ret;
  on_error r route_status.

Definition ssh_add_status (e : key_error + sandbox_store_error) : Z :=
  match e with inr ErrKeyTaken | inr ErrKeyRegistered => 409 | _ => 400 end.
Definition to_right {E A} (r : result sandbox_store_error A) : result (E + sandbox_store_error) A :=
  match r with Ok a => Ok a | Err e => Err (inr e) end.
Definition addSSHKey (p : Principal) (body : option (string * string)) : prog response :=
  need p ScopeSSH;;
  '(key, ref) ← decode body;
  sandbox ← (if String.eqb ref "" then Ret ""%string else '(id, _) ← resolve_step p ref ScopeSSH; Ret id);
  r ← match ParseAuthorizedKey sha256 key with
      | Err e => Ret (Err (inl e))
      | Ok pk => run_tx (inr Failed) (λ m s, to_right (AddSSHKey (mo_now m) (mo_id m) (p_User p) (p_KeyTenant p) sandbox
                   (pk_Fingerprint pk) (Line pk) s))
      end;
  k ← on_error r ssh_add_status;
  Ret (Shows_ssh_key k).

Definition own_ssh_keys (p : Principal) (l : list SSHKey) : list SSHKey := List.filter (λ k, String.eqb (sk_Tenant k) (p_KeyTenant p)) l.
Definition listSSHKeys (p : Principal) : prog response :=
  need p ScopeSSH;;
  l ← read (λ _ s, SSHKeysFor s (p_User p)); Ret (Shows_ssh_keys (own_ssh_keys p l)).
Definition remove_ssh_key (id : string) : prog (stx ()) := run_tx Failed (λ _ s, plainly (RemoveSSHKey id s)).
Definition removeSSHKey (p : Principal) (id : string) : prog response :=
  need p ScopeSSH;;
  l ← read (λ _ s, SSHKeysFor s (p_User p));
  if existsb (λ k, String.eqb (sk_ID k) id) (own_ssh_keys p l) then
    r ← remove_ssh_key id;
    (match r with Ok _ | Err NoSuchSSHKey => Ret () | Err _ => refuse 500 end);;
    accessChanged;; Ret (Done 204)
  else refuse 404.

Definition sshAccess (p : Principal) (ref : string) (ttl_secs : Z) : prog response :=
  '(id, _) ← resolve_step p ref ScopeSSH;
  '(host, port) ← or_refuse (cf_SSH cfg) 404;
  refuse_if (ttl_secs <? 0) 400;;
  refuse_if (ttl_secs >? cf_SSHAccessMaxTTL cfg / second) 400;;
  let ttl := if ttl_secs >? 0 then secs ttl_secs else cf_SSHAccessTTL cfg in
  r ← run_tx Failed (λ m s, '(tok, exp, s) ← NewSSHToken hash_secret (mo_now m) (mo_secret m) (p_User p) (p_Tenant p) id ttl s; Ok ((tok, exp), s));
  '(tok, exp) ← on_error r (λ _, 500);
  Ret (Gave_access tok host port exp).

(** ** Keys *)
Definition key_info (now : Z) (d : db) (k : Key) : KeyInfo := {|
  ki_Key := k; ki_Suspended := Suspended now k; ki_Org := if k_Bound k then wireOrg (k_Org k) else "";
  ki_Policy := match policyOf d (k_User k) (k_Tenant k) with Some (name, _) => name | None => "" end |}.
Definition keyInfo (k : Key) : prog KeyInfo := read (λ now s, key_info now (st_db s) k).
Fixpoint keyInfos (l : list Key) : prog (list KeyInfo) :=
  match l with [] => Ret [] | k :: l => ki ← keyInfo k; kis ← keyInfos l; Ret (ki :: kis) end.
Definition writeKey (k : Key) (secret : string) : prog response :=
  ki ← keyInfo k; Ret (if String.eqb secret "" then Shows_key ki else Gave_key secret ki).

Definition policy_list (d : db) : list (string * Z) := sort_stable (λ a b, str_ltb a.1 b.1) (map_to_list (db_policies d)).

(** A lifetime asked for: none for ever. *)
Definition asked_expiry (now n : Z) : option Z := if n >? 0 then Some (now + secs n) else None.

Record createKeyRequest := { ck_User : string; ck_Tenant : string; ck_Scopes : list string; ck_Policy : string; ck_ExpiresInSecs : Z }.
Definition adminCreateKey (p : Principal) (body : option createKeyRequest) : prog response :=
  need p ScopeAdmin;;
  req ← decode body;
  pols ← read (λ _ s, policy_list (st_db s));
  refuse_if (negb (String.eqb (ck_Policy req) "") && negb (existsb (λ pol, String.eqb pol.1 (ck_Policy req)) pols)) 400;;
  refuse_if (ck_ExpiresInSecs req <? 0) 400;;
  now ← clock;
  r ← transact (λ m d, '(k, d) ← CreateKeyExpiring hash_secret (mo_now m) (mo_id m) (mo_secret m) (ck_User req) (ck_Tenant req)
                         (ck_Scopes req) (asked_expiry now (ck_ExpiresInSecs req)) d;
                       Ok ((newSecret keySecretPrefix (mo_secret m), k), d));
  '(secret, k) ← on_error r (λ _, 400);
  (if String.eqb (ck_Policy req) "" then Ret ()
   else
     r ← transact (λ m d, plainly (AssignPolicy (mo_now m) (k_User k) (k_Tenant k) (ck_Policy req) d));
     match r with
     | Ok _ => Ret ()
     | Err _ => transact (λ _ d, plainly (RevokeKey (k_ID k) d));; refuse 400
     end);;
  writeKey k secret.

Definition adminListKeys (p : Principal) : prog response :=
  need p ScopeAdmin;;
  l ← read (λ _ s, all_keys (st_db s));
  kis ← keyInfos (List.filter (λ k, String.eqb (k_Parent k) "" || k_Personal k) l);
  Ret (Shows_keys kis).

Definition expiry_status (e : id_error) : Z := match e with ErrNoSuchKey => 404 | ErrKeyRevoked => 409 | _ => 500 end.
(** Negative is now. *)
Definition adminKeyExpiry (p : Principal) (id : string) (body : option Z) : prog response :=
  need p ScopeAdmin;;
  n ← decode body;
  now ← clock;
  let at_ := if n <? 0 then Some now else asked_expiry now n in
  r ← transact (λ m d, d' ← SetKeyExpiry id at_ d; k ← of_option (key_of d' id) StoreFailed; Ok (k, d'));
  k ← on_error r expiry_status;
  now ← clock;
  (if match at_ with Some t => t <=? now | None => false end then accessChanged else Ret ());;
  writeKey k "".

Definition adminRevokeKey (p : Principal) (id : string) : prog response :=
  need p ScopeAdmin;;
  r ← transact (λ _ d, plainly (RevokeKey id d));
  on_error r (λ e, match e with ErrNoSuchKey => 404 | _ => 500 end);;
  accessChanged;; Ret (Done 204).

Definition suspend_status (e : id_error) : Z :=
  match e with ErrNoSuchKey => 404 | ErrKeyRevoked => 409 | ErrSignInKey | ErrPersonalSuspend => 400 | _ => writeStoreErr e end.
Definition adminSuspendKey (p : Principal) (id : string) : prog response :=
  need p ScopeAdmin;;
  refuse_if (String.eqb id (p_KeyID p)) 409;;
  acct ← read (λ _ s, AccountOf (st_db s) (p_KeyID p));
  refuse_if (match acct with Some a => String.eqb (k_ID a) id | None => false end) 409;;
  now ← clock;
  r ← transact (λ _ d, d' ← SuspendKey id (now + suspendGrace) d; k ← of_option (key_of d' id) StoreFailed; Ok (k, d'));
  k ← on_error r suspend_status;
  accessChanged;; writeKey k "".

Definition restore_status (e : id_error) : Z :=
  match e with ErrNoSuchKey => 404 | ErrNotSuspended | ErrKeyRevoked => 409 | _ => writeStoreErr e end.
Definition adminRestoreKey (p : Principal) (id : string) : prog response :=
  need p ScopeAdmin;;
  r ← transact (λ m d, d' ← RestoreKey (mo_now m) id d; k ← of_option (key_of d' id) StoreFailed; Ok (k, d'));
  k ← on_error r restore_status;
  accessChanged;; writeKey k "".

Definition adminListSSHKeys (p : Principal) (user : string) : prog response :=
  need p ScopeAdmin;;
  refuse_if (String.eqb user "") 400;;
  l ← read (λ _ s, SSHKeysFor s user); Ret (Shows_ssh_keys l).
Definition adminRemoveSSHKey (p : Principal) (id : string) : prog response :=
  need p ScopeAdmin;;
  r ← remove_ssh_key id;
  on_error r (λ e, match e with NoSuchSSHKey => 404 | _ => 500 end);;
  accessChanged;; Ret (Done 204).

(** *** Personal keys *)
Definition personalCaller (p : Principal) : prog () := refuse_if (negb (String.eqb (p_Sandbox p) "") || String.eqb (p_KeyID p) "") 403.
Definition writePersonalErr (e : id_error) : Z :=
  match e with
  | ErrPersonalKey | ErrNotInOrg | ErrScopeNotHeld | ErrKeyRevoked => 403
  | ErrNoSuchKey => 404
  | ErrTooManyKeys => 409
  | BadRequest => 400
  | _ => writeStoreErr e
  end.
Definition checkKeyName (name : string) : bool := negb (String.eqb name "") && (strlen name <=? 64) && is_print name.
Record personalRequest := { pr_Name : string; pr_Scopes : list string; pr_ExpiresInSecs : Z }.
Definition createPersonalKey (p : Principal) (body : option personalRequest) : prog response :=
  personalCaller p;;
  req ← decode body;
  let name := trim_space (pr_Name req) in
  refuse_if (negb (checkKeyName name)) 400;;
  let life := secs (pr_ExpiresInSecs req) in
  refuse_if ((pr_ExpiresInSecs req <=? 0) || (life <? minPersonalKeyLife) || (life >? maxPersonalKeyLife)) 400;;
  refuse_if (existsb (λ sc, bool_decide (sc ∈ AllScopes) && negb (Can p sc)) (pr_Scopes req)) 403;;
  now ← clock;
  r ← transact (λ m d, '(k, d) ← CreatePersonalKey hash_secret (mo_now m) (mo_id m) (mo_secret m) (p_KeyID p) (p_Tenant p) name
                         (pr_Scopes req) (now + life) d;
                       Ok ((newSecret keySecretPrefix (mo_secret m), k), d));
  '(secret, k) ← on_error r writePersonalErr;
  writeKey k secret.

Definition PersonalKeys (now : Z) (by_ org : string) (d : db) : tx (list Key) :=
  '(_, root) ← personalRoot now by_ d;
  let org := if equal_fold org (k_Tenant root) then k_Tenant root else to_lower org in
  Ok (List.filter (λ k, String.eqb (k_Parent k) (k_ID root) && k_Personal k && k_Bound k && String.eqb (k_Org k) org) (all_keys d)).
Definition listPersonalKeys (p : Principal) : prog response :=
  personalCaller p;;
  r ← read (λ now s, PersonalKeys now (p_KeyID p) (p_Tenant p) (st_db s));
  l ← on_error r writePersonalErr;
  kis ← keyInfos l;
  Ret (Shows_keys kis).
Definition revokePersonalKey (p : Principal) (id : string) : prog response :=
  personalCaller p;;
  r ← transact (λ m d, plainly (RevokePersonalKey (mo_now m) (p_KeyID p) id d));
  on_error r writePersonalErr;;
  accessChanged;; Ret (Done 204).

(** ** Invites *)
Definition invite_status (e : id_error) : Z :=
  match e with ErrEmailTaken | ErrUserHasAccount | ErrMemberName | ErrTenantTaken => 409 | _ => 400 end.
(** [send_email]: the request asks for the invite to be emailed. *)
Definition adminCreateInvite (p : Principal) (body : option (inviteRequest * bool)) : prog response :=
  need p ScopeAdmin;;
  '(req, send_email) ← decode body;
  refuse_if (send_email && negb (cf_Mail cfg)) 400;;
  r ← transact (λ m d, '(iv, d) ← CreateInvite hash_secret (mo_now m) (mo_id m) (mo_secret m) req d;
                       Ok ((newSecret inviteSecretPrefix (mo_secret m), (newID "inv_" (mo_id m), iv)), d));
  '(token, iv) ← on_error r invite_status;
  Ret (Gave_invite 201 token (invite_info iv)).

Definition invite_before (a b : string * inviteRecord) : bool :=
  if negb (iv_Created a.2 =? iv_Created b.2) then iv_Created a.2 <? iv_Created b.2 else str_ltb a.1 b.1.
Definition Invites (now : Z) (d : db) : list (string * inviteRecord) :=
  sort_stable invite_before (List.filter (λ '(_, iv), now <? iv_Expires iv) (map_to_list (db_invites d))).
Definition adminListInvites (p : Principal) : prog response :=
  need p ScopeAdmin;;
  l ← read (λ now s, Invites now (st_db s));
  Ret (Shows_invites (invite_info <$> l) (cf_Mail cfg)).

Definition adminRevokeInvite (p : Principal) (id : string) : prog response :=
  need p ScopeAdmin;;
  r ← transact (λ _ d, plainly (RevokeInvite id d)); on_error r (λ _, 404);;
  Ret (Done 204).

Definition adminResendInvite (p : Principal) (id : string) (body : option bool) : prog response :=
  need p ScopeAdmin;;
  send_email ← decode body;
  refuse_if (send_email && negb (cf_Mail cfg)) 400;;
  r ← transact (λ m d, d' ← RenewInvite hash_secret (mo_now m) id (mo_secret m) inviteValid d;
                       iv ← of_option (db_invites d' !! id) ErrNoSuchInvite; Ok ((newSecret inviteSecretPrefix (mo_secret m), (id, iv)), d'));
  '(token, iv) ← on_error r (λ _, 404);
  Ret (Gave_invite 200 token (invite_info iv)).

Definition reset_status (e : id_error) : Z :=
  match e with ErrNoSuchKey => 404 | ErrNotAccount => 400 | ErrKeyRevoked => 409 | _ => 500 end.
Definition adminResetPassword (p : Principal) (id : string) (body : option bool) : prog response :=
  need p ScopeAdmin;;
  send_email ← decode body;
  refuse_if (send_email && negb (cf_Mail cfg)) 400;;
  r ← transact (λ m d, '(iv, d) ← CreateResetInvite hash_secret (mo_now m) (mo_id m) (mo_secret m) id inviteValid d;
                       Ok ((newSecret inviteSecretPrefix (mo_secret m), (newID "inv_" (mo_id m), iv)), d));
  '(token, iv) ← on_error r reset_status;
  Ret (Gave_invite 201 token (invite_info iv)).

(** ** Policies *)
Definition adminListPolicies (p : Principal) : prog response :=
  need p ScopeAdmin;; l ← read (λ _ s, policy_list (st_db s)); Ret (Shows_policies l).
Definition adminPutPolicy (p : Principal) (name : string) (body : option (string * Z)) : prog response :=
  need p ScopeAdmin;;
  '(given, max) ← decode body;
  let given := if String.eqb given "" then name else given in
  refuse_if (negb (String.eqb given name)) 400;;
  r ← transact (λ _ d, plainly (PutPolicy given max d)); on_error r (λ _, 400);;
  Ret (Done 200).
Definition adminDeletePolicy (p : Principal) (name : string) : prog response :=
  need p ScopeAdmin;;
  r ← transact (λ _ d, plainly (DeletePolicy name d));
  on_error r (λ e, match e with ErrNoSuchPolicy => 404 | ErrPolicyInUse => 409 | _ => 500 end);;
  Ret (Done 204).
Definition adminAssignPolicy (p : Principal) (body : option (string * string * string)) : prog response :=
  need p ScopeAdmin;;
  '(user, tenant, name) ← decode body;
  r ← transact (λ m d, plainly (AssignPolicy (mo_now m) user tenant name d)); on_error r (λ _, 400);;
  Ret (Done 204).

(** ** Organizations *)
Definition member_before (a b : OrgMember) : bool :=
  if negb (om_Added a =? om_Added b) then om_Added a <? om_Added b else str_ltb (om_User a) (om_User b).
Definition org_record (d : db) (key : string) (o : org) : orgRecord := {|
  or_Name := og_name o; or_Created := og_created o; or_CreatedBy := og_by o;
  or_Members := sort_stable member_before ((λ '((_, u), m), {| om_User := snd u; om_Tenant := fst u; om_Role := mb_Role m; om_Added := mb_Added m |}) <$>
    List.filter (λ '((k, _), _), String.eqb k key) (map_to_list (db_members d))) |}.
Definition Org (d : db) (name : string) : option orgRecord := '(key, o) ← teamOrg d name; Some (org_record d key o).
Definition Orgs (d : db) : list orgRecord :=
  (λ '(key, o), org_record d key o) <$> sort_stable (λ a b, str_ltb a.1 b.1) (List.filter (λ '(_, o), is_team o) (map_to_list (db_orgs d))).
Definition or_tenant (o : orgRecord) : string := to_lower (or_Name o).
Definition owner_members (o : orgRecord) : list OrgMember := List.filter (λ m, String.eqb (om_Role m) RoleOwner) (or_Members o).

(** The organizations a user is in: the key, the name as given, the role. *)
Definition MembershipsOf (d : db) (user userTenant : string) : list (string * OrgInfo) :=
  sort_stable (λ a b, str_ltb a.1 b.1)
    (omap (λ '((key, u), m),
       if bool_decide (u = (userTenant, user)) then
         o ← db_orgs d !! key;
         if is_team o then Some (key, {| oi_Name := if String.eqb (og_name o) "" then key else og_name o; oi_Role := mb_Role m;
                                         oi_Created := og_created o; oi_Current := false |})
         else None
       else None) (map_to_list (db_members d))).

Definition MemberRole_of (d : db) (org user userTenant : string) : option string := if String.eqb org "" then None else role_in d org user userTenant.

Definition listed_once (p : Principal) (acc : list string * list OrgInfo) (m : string * OrgInfo) : list string * list OrgInfo :=
  if bool_decide (m.1 ∈ acc.1) then acc
  else (m.1 :: acc.1, acc.2 ++ [{| oi_Name := oi_Name m.2; oi_Role := oi_Role m.2; oi_Created := oi_Created m.2;
                                   oi_Current := String.eqb (p_Tenant p) m.1 |}]).
Definition listOrgs (p : Principal) : prog response :=
  rec ← read (λ _ s, Org (st_db s) (p_KeyTenant p));
  role ← read (λ _ s, MemberRole_of (st_db s) (p_KeyTenant p) (p_User p) (p_KeyTenant p));
  let own := {| oi_Name := match rec with Some o => or_Name o | None => wireOrg (p_KeyTenant p) end; oi_Role := default RoleMember role;
                oi_Created := match rec with Some o => or_Created o | None => zero_time end;
                oi_Current := String.eqb (p_Tenant p) (p_KeyTenant p) |} in
  ms ← read (λ _ s, MembershipsOf (st_db s) (p_User p) (p_KeyTenant p));
  let '(seen, orgs) := foldl (listed_once p) ([to_lower (p_KeyTenant p)], [own]) ms in
  if bool_decide (p_Tenant p ∈ seen) then Ret (Shows_orgs orgs)
  else
    rec ← ask (λ _ s, Org (st_db s) (p_Tenant p));
    let last := match mjoin rec with
                | Some o => {| oi_Name := or_Name o; oi_Role := RoleMember; oi_Created := or_Created o; oi_Current := true |}
                | None => {| oi_Name := wireOrg (p_Tenant p); oi_Role := RoleMember; oi_Created := zero_time; oi_Current := true |}
                end in
    Ret (Shows_orgs (orgs ++ [last])).

Definition createOrg (p : Principal) (body : option string) : prog response :=
  need p ScopeOrgCreate;;
  name ← decode body;
  refuse_if (negb (CheckOrgName name)) 400;;
  r ← transact (λ m d, d ← CreateOrg (mo_now m) name (p_User p) (p_KeyTenant p) (cf_MaxOrgsPerUser cfg) d; Ok (micros (mo_now m), d));
  created ← on_error r (λ e, match e with ErrOrgExists => 409 | ErrOrgCap => 403 | _ => 500 end);
  Ret (Shows_org 201 {| oi_Name := name; oi_Role := RoleOwner; oi_Created := created; oi_Current := String.eqb (p_Tenant p) name |}).

(** Whoever may see the organization, or with [manage] change it. *)
Definition orgFor (p : Principal) (name : string) (manage : bool) : prog orgRecord :=
  rec ← read (λ _ s, Org (st_db s) (tenantOfOrg name));
  rec ← or_refuse rec 404;
  if Can p ScopeAdmin then Ret rec
  else
    role ← read (λ _ s, MemberRole_of (st_db s) (or_tenant rec) (p_User p) (p_KeyTenant p));
    let role := match role with None => if equal_fold (p_KeyTenant p) (or_Name rec) then Some RoleMember else None | r => r end in
    role ← or_refuse role 404;
    refuse_if (manage && negb (String.eqb role RoleOwner)) 403;;
    Ret rec.

Definition memberTenant (given : string) (p : Principal) : string := if String.eqb given "" then p_KeyTenant p else tenantOfOrg given.

Definition listOrgMembers (p : Principal) (name : string) : prog response :=
  rec ← orgFor p name false; Ret (Shows_members (or_Members rec)).

Record memberRequest := { mr_User : string; mr_Tenant : string; mr_Role : string }.
Definition setOrgMember (p : Principal) (name : string) (body : option memberRequest) : prog response :=
  rec ← orgFor p name true;
  req ← decode body;
  let tenant := memberTenant (mr_Tenant req) p in
  let role := if String.eqb (mr_Role req) "" then RoleMember else mr_Role req in
  refuse_if (negb (ValidUser (mr_User req))) 400;;
  refuse_if (negb (String.eqb tenant "") && negb (ValidUser tenant)) 400;;
  refuse_if (negb (String.eqb role RoleOwner) && negb (String.eqb role RoleMember)) 400;;
  r ← transact (λ m d, SetMember (mo_now m) (or_tenant rec) (mr_User req) tenant role d);
  prev ← on_error r (λ e, match e with ErrLastOwner | ErrMemberName => 409 | ErrNoSuchOrg => 404 | _ => 500 end);
  cur ← ask (λ _ s, Org (st_db s) (or_tenant rec));
  let m := match mjoin cur with
           | Some o => default {| om_User := mr_User req; om_Tenant := tenant; om_Role := role; om_Added := zero_time |}
                         (last (List.filter (λ m, String.eqb (om_User m) (mr_User req) && String.eqb (om_Tenant m) tenant) (or_Members o)))
           | None => {| om_User := mr_User req; om_Tenant := tenant; om_Role := role; om_Added := zero_time |}
           end in
  if String.eqb prev role then Ret (Shows_member 200 m)
  else if String.eqb prev "" then Ret (Shows_member 201 m)
  else accessChanged;; Ret (Shows_member 200 m).

Definition removeOrgMember (p : Principal) (name user given_tenant : string) : prog response :=
  rec ← orgFor p name true;
  let tenant := memberTenant given_tenant p in
  refuse_if (negb (ValidUser user) || (negb (String.eqb tenant "") && negb (ValidUser tenant))) 404;;
  r ← transact (λ _ d, plainly (RemoveMember (or_tenant rec) user tenant d));
  on_error r (λ e, match e with ErrLastOwner => 409 | ErrNoSuchMember | ErrNoSuchOrg => 404 | _ => 500 end);;
  accessChanged;; Ret (Done 204).

Definition adminListOrgs (p : Principal) : prog response :=
  need p ScopeAdmin;; l ← read (λ _ s, Orgs (st_db s)); Ret (Shows_records l).

(** ** Every request *)
Inductive open_call :=
| C_login (body : option (string * string * Z))
| C_invite (body : option string)
| C_register (body : option (string * string * Z)).

(** With a key. [None] is a body that does not decode. *)
Inductive key_call :=
| C_logout
| C_password (body : option (string * string))
| C_whoami
| C_orgs
| C_create_org (body : option string)
| C_members (org : string)
| C_set_member (org : string) (body : option memberRequest)
| C_remove_member (org user tenant : string)
| C_ssh
| C_ssh_access (ref : string) (body : option Z)
| C_add_ssh_key (body : option (string * string))
| C_ssh_keys
| C_remove_ssh_key (id : string)
| C_create_personal (body : option personalRequest)
| C_personal
| C_revoke_personal (id : string)
| A_create_key (body : option createKeyRequest)
| A_keys
| A_revoke_key (id : string)
| A_suspend_key (id : string)
| A_restore_key (id : string)
| A_key_expiry (id : string) (body : option Z)
| A_reset (id : string) (body : option bool)
| A_create_invite (body : option (inviteRequest * bool))
| A_invites
| A_revoke_invite (id : string)
| A_resend_invite (id : string) (body : option bool)
| A_ssh_keys (user : string)
| A_remove_ssh_key (id : string)
| A_orgs
| A_policies
| A_put_policy (name : string) (body : option (string * Z))
| A_delete_policy (name : string)
| A_assign_policy (body : option (string * string * string)).

Definition handle_open (c : open_call) : prog response :=
  match c with
  | C_login body => '(email, password, ttl) ← decode body; login_request email password ttl
  | C_invite body => token ← decode body; inviteFor token
  | C_register body => '(token, password, ttl) ← decode body; register_request token password ttl
  end.
Definition handle_key (p : Principal) (c : key_call) : prog response :=
  match c with
  | C_logout => logout p
  | C_password body => '(current, new) ← decode body; changePassword p current new
  | C_whoami => whoami p
  | C_orgs => listOrgs p
  | C_create_org body => createOrg p body
  | C_members org => listOrgMembers p org
  | C_set_member org body => setOrgMember p org body
  | C_remove_member org user tenant => removeOrgMember p org user tenant
  | C_ssh => sshEndpoint p
  | C_ssh_access ref body => ttl ← decode body; sshAccess p ref ttl
  | C_add_ssh_key body => addSSHKey p body
  | C_ssh_keys => listSSHKeys p
  | C_remove_ssh_key id => removeSSHKey p id
  | C_create_personal body => createPersonalKey p body
  | C_personal => listPersonalKeys p
  | C_revoke_personal id => revokePersonalKey p id
  | A_create_key body => adminCreateKey p body
  | A_keys => adminListKeys p
  | A_revoke_key id => adminRevokeKey p id
  | A_suspend_key id => adminSuspendKey p id
  | A_restore_key id => adminRestoreKey p id
  | A_key_expiry id body => adminKeyExpiry p id body
  | A_reset id body => adminResetPassword p id body
  | A_create_invite body => adminCreateInvite p body
  | A_invites => adminListInvites p
  | A_revoke_invite id => adminRevokeInvite p id
  | A_resend_invite id body => adminResendInvite p id body
  | A_ssh_keys user => adminListSSHKeys p user
  | A_remove_ssh_key id => adminRemoveSSHKey p id
  | A_orgs => adminListOrgs p
  | A_policies => adminListPolicies p
  | A_put_policy name body => adminPutPolicy p name body
  | A_delete_policy name => adminDeletePolicy p name
  | A_assign_policy body => adminAssignPolicy p body
  end.

(** ** Requests at once *)

(** A database that does not answer. *)
#[local] Instance down_store : Store () := {|
  ForTenant _ s := s; Access.KeyBySecret _ _ _ := Err ErrStore; Keys _ := Err ErrStore; KeysOfUser _ _ := Err ErrStore;
  MemberRole _ _ _ _ := Err ErrStore; OwnerOf _ _ := Err ErrStore; LiveOf _ _ _ := Err ErrStore;
  SSHKeysByFingerprint _ _ := Err ErrStore; RedeemSSHToken _ _ _ := Err ErrStore |}.

Definition select_step (rq : request) (p : Principal) : prog Principal :=
  r ← Step (λ m fr, (fr, if answers_now m then selectOrg (front_store fr) (rq_orgs rq) p else selectOrg () (rq_orgs rq) p)) Ret;
  on_error r (λ st, st).
(** [guard], past the credential. *)
Definition serve (rq : request) (c : key_call) (p : Principal) : prog response :=
  p ← select_step rq p;
  refuse_if (negb (rq_typed rq)) 415;;
  handle_key p c.
Definition serve_open (rq : request) (c : open_call) : prog response :=
  refuse_if (negb (rq_origin rq)) 403;;
  refuse_if (negb (rq_typed rq)) 415;;
  handle_open c.

(** A request with a key, before the key is looked up; one being served; one
    that is answered. *)
Inductive thread :=
| Arrived (rq : request) (c : key_call)
| Serving (todo : prog response)
| Answered (r : response).
Record gateway_world := { gw_front : front; gw_threads : gmap nat thread }.
Definition on_thread (i : nat) (t : thread) (w : gateway_world) : gateway_world :=
  {| gw_front := gw_front w; gw_threads := <[i := t]> (gw_threads w) |}.

Definition authenticated (m : instant) (fr : front) (rq : request) : sres (option Principal) :=
  if answers_now m then authenticate (front_store fr) (mo_now m) (rq_authorization rq) else authenticate () (mo_now m) (rq_authorization rq).
Definition front_db (fr : front) : db := st_db (front_store fr).

(** A step, and whom it lets in. [W_other]: what the rest of the gateway
    writes; it writes no key and no invite. *)
Inductive world_step : option Principal → gateway_world → gateway_world → Prop :=
| W_open i rq c w : gw_threads w !! i = None → world_step None w (on_thread i (Serving (serve_open rq c)) w)
| W_arrive i rq c w : gw_threads w !! i = None → world_step None w (on_thread i (Arrived rq c) w)
| W_origin i rq c w : gw_threads w !! i = Some (Arrived rq c) → rq_origin rq = false → world_step None w (on_thread i (Answered (Refused 403)) w)
| W_refused i rq c m w st : gw_threads w !! i = Some (Arrived rq c) → rq_origin rq = true →
    match authenticated m (gw_front w) rq with Err _ => st = 503 | Ok None => st = 401 | Ok (Some _) => False end →
    world_step None w (on_thread i (Answered (Refused st)) w)
| W_enter i rq c m w p : gw_threads w !! i = Some (Arrived rq c) → rq_origin rq = true →
    authenticated m (gw_front w) rq = Ok (Some p) → world_step (Some p) w (on_thread i (Serving (serve rq c p)) w)
| W_step i B f (k : B → prog response) m w : gw_threads w !! i = Some (Serving (Step f k)) →
    world_step None w {| gw_front := (f m (gw_front w)).1;
                         gw_threads := <[i := Serving (k (f m (gw_front w)).2)]> (gw_threads w) |}
| W_answer i r w : gw_threads w !! i = Some (Serving (Ret r)) → world_step None w (on_thread i (Answered r) w)
| W_halt i r w : gw_threads w !! i = Some (Serving (Halt r)) → world_step None w (on_thread i (Answered r) w)
| W_other fr w : db_keys (front_db fr) = db_keys (front_db (gw_front w)) → db_invites (front_db fr) = db_invites (front_db (gw_front w)) →
    world_step None w {| gw_front := fr; gw_threads := gw_threads w |}.

(** No step lets in an admin. *)
Definition without_admin (w w' : gateway_world) : Prop := ∃ l, world_step l w w' ∧ ∀ p, l = Some p → Can p ScopeAdmin = false.
End handlers.

(** ** One request, whatever happens between its steps *)

(** [env]: the moment of each step, and the state it finds. *)
Fixpoint answer_in (p : prog response) (env : list (instant * front)) : option response :=
  match p with
  | Ret r | Halt r => Some r
  | Step f k => match env with (m, fr) :: env => answer_in (k (f m fr).2) env | [] => None end
  end.
(** The steps taken: where, and what each leaves. *)
Fixpoint steps_in (p : prog response) (env : list (instant * front)) : list (instant * front * front) :=
  match p with
  | Ret _ | Halt _ => []
  | Step f k => match env with (m, fr) :: env => (m, fr, (f m fr).1) :: steps_in (k (f m fr).2) env | [] => [] end
  end.
