(* ===== verification/AccountsSafe.v ===== *)
(** * What requests about accounts cannot do

    No request but an admin's adds to what anyone may do, however requests
    interleave; a sign-in is a password's or an invite's; and an
    organization's members are changed by its owners and admins. *)
From S2P Require Import Prelude GoSort GoStrings Api Spec ServiceSpec Access Sessions Identity IdentityKeys SandboxStore Base64 SshKeys SignIns Accounts.

(** ** A logic of programs

    [G] holds of each step, given what the earlier ones found; [Q] of an
    answer given early, [P] of what is returned. *)
Abbreviation seen := (list (instant * front)).

Section logic.
Context (G : seen → instant → front → front → Prop) (Q : seen → response → Prop).

Fixpoint wp {A} (p : prog A) (P : seen → A → Prop) (h : seen) : Prop :=
  match p with
  | Ret a => P h a
  | Halt r => Q h r
  | Step f k => ∀ m fr, G h m fr (f m fr).1 ∧ wp (k (f m fr).2) P (h ++ [(m, fr)])
  end.

Lemma wp_mono {A} (p : prog A) (P P' : seen → A → Prop) h : (∀ h' a, P h' a → P' h' a) → wp p P h → wp p P' h.
Proof.
  intros HP. revert h. induction p as [a|r|B f k IH]; intros h; cbn; [apply HP|done|].
  intros Hp m fr. destruct (Hp m fr) as [HG Hk]. split; [done|]. by apply IH.
Qed.

Lemma wp_ret {A} (a : A) (P : seen → A → Prop) h : P h a → wp (Ret a) P h.
Proof. done. Qed.
Lemma wp_halt {A} r (P : seen → A → Prop) h : Q h r → wp (Halt r) P h.
Proof. done. Qed.

Lemma wp_bind {A B} (p : prog A) (k : A → prog B) P h : wp p (λ h a, wp (k a) P h) h → wp (p ≫= k) P h.
Proof.
  revert h. induction p as [a|r|X f c IH]; intros h; cbn; [done..|].
  intros Hp m fr. destruct (Hp m fr) as [HG Hk]. split; [done|]. by apply IH.
Qed.

Lemma wp_refuse_if b st P h : (b = true → Q h (Refused st)) → (b = false → P h ()) → wp (refuse_if b st) P h.
Proof. destruct b; cbn; auto. Qed.
Lemma wp_or_refuse {A} (o : option A) st P h : (o = None → Q h (Refused st)) → (∀ a, o = Some a → P h a) → wp (or_refuse o st) P h.
Proof. destruct o; cbn; auto. Qed.
Lemma wp_on_error {E A} (r : result E A) st P h :
  (∀ e, r = Err e → Q h (Refused (st e))) → (∀ a, r = Ok a → P h a) → wp (on_error r st) P h.
Proof. destruct r; cbn; auto. Qed.

(** What the logic proves of a request alone holds whatever happens between
    its steps. *)
Lemma wp_steps (p : prog response) h env : wp p Q h →
  ∀ before m fr fr' after, steps_in p env = before ++ (m, fr, fr') :: after → G (h ++ before.*1) m fr fr'.
Proof.
  revert h env. induction p as [r|r|B f k IH]; intros h env Hp before m fr fr' after; cbn [steps_in].
  1, 2: by intros ?%app_cons_not_nil.
  destruct env as [|[m0 fr0] env]; [by intros ?%app_cons_not_nil|]. destruct (Hp m0 fr0) as [HG Hk].
  destruct before as [|x before]; cbn.
  - intros [= <- <- <- _]. by rewrite app_nil_r.
  - intros [= <- E]. pose proof (IH _ _ _ Hk _ _ _ _ _ E) as HG'. cbn. by rewrite <- app_assoc in HG'.
Qed.

Lemma wp_answer (p : prog response) h env r : wp p Q h → answer_in p env = Some r →
  Q (h ++ take (length (steps_in p env)) env) r.
Proof.
  revert h env. induction p as [r0|r0|B f k IH]; intros h env Hp; cbn [answer_in steps_in].
  1, 2: intros [= <-]; by rewrite app_nil_r.
  destruct env as [|[m fr] env]; [done|]. intros Hr. destruct (Hp m fr) as [_ Hk].
  pose proof (IH _ _ _ Hk Hr) as HQ. cbn. by rewrite <- app_assoc in HQ.
Qed.
End logic.

(** Takes a program apart as far as its next step, or a choice. *)
Ltac wp_pure := progress repeat first
  [ progress cbv zeta
  | apply wp_bind
  | apply wp_refuse_if; intros ?
  | apply wp_or_refuse; [intros ?|intros ??]
  | apply wp_on_error; [intros ??|intros ??]
  | progress cbn beta ].

(** ** What a user may do *)
Definition row_on (t : Z) (r : krow) : bool := negb (kr_Revoked r) && match kr_Expires r with None => true | Some e => t <? e end.
Definition gives (scopes : list string) (scope : string) : Prop := ScopeAdmin ∈ scopes ∨ scope ∈ scopes.
(** By a key that works at the moment, or by an invite that is to become
    one. *)
Definition may_do (d : db) (u : uid) (scope : string) (t : Z) : Prop :=
  (∃ id r, db_keys d !! id = Some r ∧ kr_User r = u ∧ row_on t r = true ∧ gives (kr_Scopes r) scope) ∨
  (∃ id iv, db_invites d !! id = Some iv ∧ iv_Key iv = None ∧ (iv_Tenant iv, iv_User iv) = u ∧ gives (iv_Scopes iv) scope).

Lemma row_on_active d t id r : Active t (scanKey d id r) = row_on t r.
Proof. done. Qed.

(** No key was added, and none does more. *)
Definition no_more (d d' : db) : Prop := keys_ok (db_keys d) → keys_ok (db_keys d') ∧ ∀ u sc t, may_do d' u sc t → may_do d u sc t.

Lemma no_more_refl d : no_more d d.
Proof. done. Qed.
Lemma no_more_trans d1 d2 d3 : no_more d1 d2 → no_more d2 d3 → no_more d1 d3.
Proof. intros H12 H23 Hok. destruct (H12 Hok) as [Hok2 H2]. destruct (H23 Hok2) as [Hok3 H3]. auto. Qed.
Lemma no_more_same d d' : db_keys d' = db_keys d → db_invites d' = db_invites d → no_more d d'.
Proof. intros Ek Ei Hok. unfold may_do. rewrite Ek, Ei. done. Qed.

Lemma may_do_fewer d d' u sc t :
  (∀ id r', db_keys d' !! id = Some r' → ∃ r, db_keys d !! id = Some r ∧ kr_User r = kr_User r' ∧ kr_Scopes r = kr_Scopes r' ∧
     (row_on t r' = true → row_on t r = true)) →
  (∀ id iv, db_invites d' !! id = Some iv → db_invites d !! id = Some iv) → may_do d' u sc t → may_do d u sc t.
Proof.
  intros Hk Hi [(id & r' & Hr & Hu & Ha & Hg)|(id & iv & Hiv & Hrest)].
  - left. destruct (Hk id r' Hr) as (r & Hr' & Eu & Es & Hact). exists id, r. rewrite Eu, Es. auto.
  - right. exists id, iv. auto.
Qed.

Lemma under_does_less r c t sc : under r c → row_on t c = true → gives (kr_Scopes c) sc → row_on t r = true ∧ gives (kr_Scopes r) sc.
Proof.
  intros Hu [Hrev%negb_true_iff Hex]%andb_prop Hg. split.
  - apply andb_true_iff. split; [apply negb_true_iff; destruct (kr_Revoked r) eqn:E; [|done]; rewrite (un_revoked _ _ Hu) in Hrev; done|].
    pose proof (un_expires _ _ Hu) as Hle. destruct (kr_Expires r), (kr_Expires c); cbn in Hle; try done. lia.
  - destruct (kr_Personal c) eqn:Ep.
    + destruct (un_personal _ _ Hu Ep) as (Hadm & _ & Hsub). destruct Hg as [?|Hin]; [done|]. destruct (Hsub sc Hin); [by right|by left].
    + destruct (un_signin _ _ Hu Ep) as [<- _]. done.
Qed.

Section invites.
Context `{Unicode} (hashSecret : string → string).

Lemma invites_make_org now t d : db_invites (make_org now t d) = db_invites d.
Proof. unfold make_org. destruct (db_orgs d !! t); [done|]. by destruct (String.eqb t ""). Qed.
Lemma invites_make_user now u d : db_invites (make_user now u d) = db_invites d.
Proof. unfold make_user. destruct (db_users _ !! u); cbn; by rewrite invites_make_org. Qed.
Lemma invites_assignPolicy now u name d : db_invites (assignPolicy now u name d) = db_invites d.
Proof. unfold assignPolicy. destruct (String.eqb name ""); [done|]. cbn. apply invites_make_user. Qed.
Lemma invites_insertKey now k d d' : insertKey now k d = Ok d' → db_invites d' = db_invites d.
Proof.
  unfold insertKey. rewrite guard_ok. intros [_ Hi]. apply bind_ok in Hi as (d2 & Hd2 & Hi).
  assert (db_invites d2 = db_invites d) as E2.
  { destruct (negb (String.eqb (k_Email k) "")); [|injection Hd2 as <-; apply invites_make_user].
    unfold claim_email in Hd2. rewrite guard_ok in Hd2. destruct Hd2 as [_ [= <-]]. cbn. apply invites_make_user. }
  rewrite !guard_ok in Hi. destruct Hi as (_ & _ & Hi). destruct (String.eqb (k_Parent k) ""); [|by injection Hi as <-].
  unfold ownFirstOrg in Hi. destruct (db_orgs _ !! _); [|by injection Hi as <-]. destruct (_ && _); [|by injection Hi as <-].
  rewrite guard_ok in Hi. by destruct Hi as [_ [= <-]].
Qed.
Lemma invites_delete_keys gone d id iv : db_invites (delete_keys gone d) !! id = Some iv → db_invites d !! id = Some iv.
Proof. unfold delete_keys. cbn. by intros [? _]%map_lookup_filter_Some. Qed.

(** A key made under one that was there, whatever went. *)
Lemma no_more_child d d1 d' now k :
  keys_ok (db_keys d') → insertKey now k d1 = Ok d' → k_Parent k ≠ ""%string →
  (∀ id r, db_keys d1 !! id = Some r → db_keys d !! id = Some r) → (∀ id iv, db_invites d1 !! id = Some iv → db_invites d !! id = Some iv) →
  ∀ u sc t, may_do d' u sc t → may_do d u sc t.
Proof.
  intros Hok' Hi Hne Hk Hiv u sc t. pose proof (invites_insertKey _ _ _ _ Hi) as Ei. apply insertKey_keys in Hi as (Ek & Hnew & _).
  intros [(id & r & Hr & Hu & Ha & Hg)|(id & iv & Hin & Hrest)].
  - left. rewrite Ek in Hr. destruct (decide (id = k_ID k)) as [->|Hid].
    + rewrite lookup_insert_eq in Hr. injection Hr as <-.
      assert (kr_Parent (row_of (k_Tenant k, k_User k) k) = Some (k_Parent k)) as Ep.
      { cbn. apply String.eqb_neq in Hne. by rewrite Hne. }
      destruct (ko_child _ Hok' (k_ID k) _ (k_Parent k) ltac:(by rewrite Ek, lookup_insert_eq) Ep) as (r & Hr & Hun).
      destruct (under_does_less _ _ t sc Hun Ha Hg) as [Ha' Hg']. exists (k_Parent k), r. split_and!; [|by rewrite <- (un_user _ _ Hun)|done|done].
      apply Hk. rewrite Ek in Hr. rewrite lookup_insert_ne in Hr; [done|]. intros E.
      rewrite <- E, lookup_insert_eq in Hr. injection Hr as <-. pose proof (un_root _ _ Hun). congruence.
    + rewrite lookup_insert_ne in Hr by done. exists id, r. auto.
  - right. rewrite Ei in Hin. exists id, iv. auto.
Qed.

Lemma no_more_delete gone d : no_more d (delete_keys gone d).
Proof.
  intros Hok. split; [by apply keys_ok_delete|]. intros u sc t. apply may_do_fewer; [|apply invites_delete_keys].
  intros id r (Hr & _)%lookup_delete_keys. exists r. auto.
Qed.

Lemma no_more_SignIn now rid rsecret account ttl d k d' : SignIn hashSecret now rid rsecret account ttl d = Ok (k, d') → no_more d d'.
Proof.
  intros Hs Hok. pose proof (keys_ok_SignIn _ _ _ _ _ _ _ _ _ Hok Hs) as Hok'. split; [done|]. revert Hs. unfold SignIn.
  intros (acct & (r & Hr & ->)%of_option_ok%key_of_Some & Hd)%bind_ok. rewrite !guard_ok in Hd.
  destruct Hd as (_ & _ & Hd). apply bind_ok in Hd as (d2 & Hi & [= <- <-]).
  eapply no_more_child; [done|exact Hi| | |].
  - cbn. intros ->. by destruct (ko_id _ Hok ""%string (mk_is_Some _ _ Hr)).
  - intros id r' (Hr' & _)%lookup_delete_keys. done.
  - intros id iv Hiv%invites_delete_keys. done.
Qed.

Lemma no_more_personal now rid rsecret by_ org name scopes expires d k d' :
  CreatePersonalKey hashSecret now rid rsecret by_ org name scopes expires d = Ok (k, d') → no_more d d'.
Proof.
  intros Hs Hok. pose proof (keys_ok_personal _ _ _ _ _ _ _ _ _ _ _ _ Hok Hs) as Hok'. split; [done|]. revert Hs. unfold CreatePersonalKey.
  rewrite !guard_ok. intros (_ & _ & _ & Hd). apply bind_ok in Hd as ([caller root] & Hroot & Hd).
  apply (personalRoot_ok _ _ _ _ _ Hok) in Hroot as (r & Hr & _). rewrite guard_ok in Hd. destruct Hd as [_ Hd].
  apply bind_ok in Hd as (o & _ & Hd). rewrite !guard_ok in Hd. destruct Hd as (_ & _ & Hd). apply bind_ok in Hd as (d2 & Hi & [= <- <-]).
  eapply no_more_child; [done|exact Hi| |done|done]. cbn. intros E. rewrite E in Hr. by destruct (ko_id _ Hok ""%string (mk_is_Some _ _ Hr)).
Qed.

Lemma no_more_revoke_personal now by_ id d d' : RevokePersonalKey now by_ id d = Ok d' → no_more d d'.
Proof.
  intros Hs Hok. split; [by eapply (keys_step hashSecret now (Op_revoke_personal by_ id))|]. revert Hs. unfold RevokePersonalKey.
  intros ([? root] & _ & Hd)%bind_ok. apply bind_ok in Hd as (k1 & _ & Hd). rewrite guard_ok in Hd. destruct Hd as [_ [= <-]].
  intros u sc t. apply may_do_fewer; [|done]. cbn. intros i r'. rewrite lookup_alter_if. destruct (db_keys d !! i) as [r|] eqn:Er; [|done].
  cbn. intros [= <-]. exists r. by destruct (decide (id = i)).
Qed.

Lemma no_more_redeem now rid rsecret token pw d k d' : RedeemInvite hashSecret now rid rsecret token pw d = Ok (k, d') → no_more d d'.
Proof.
  intros Hs Hok. split; [by eapply keys_ok_redeem|]. revert Hs. unfold RedeemInvite.
  intros ([inv iv] & Htok%of_option_ok & Hd)%bind_ok. apply bind_ok in Hd as ([k1 d1] & Hd & [= <- <-]).
  assert (db_invites d !! inv = Some iv) as Hinv.
  { unfold inviteByToken in Htok. destruct (negb _); [done|]. apply head_Some_elem_of, elem_of_bfilter in Htok as [Hin _].
    by apply elem_of_map_to_list in Hin. }
  intros u sc t Hm. assert (may_do d1 u sc t ∨ may_do d u sc t) as [Hm'|]; [| |done].
  { left. eapply may_do_fewer; [| |exact Hm]; cbn; [|by intros id iv' [_ ?]%lookup_delete_Some]. intros id r' Hr'. exists r'. done. }
  clear Hm. destruct (iv_Key iv) as [a|] eqn:Ekey.
  - apply bind_ok in Hd as (k0 & _ & Hd). rewrite guard_ok in Hd. destruct Hd as [_ [= _ <-]]. revert Hm'.
    apply may_do_fewer; [|intros id iv' Hiv; by apply invites_delete_keys in Hiv].
    intros id r'. cbn [on_keys db_keys]. rewrite lookup_children.
    destruct (db_keys (delete_keys _ _) !! id) as [r|] eqn:Er; [|done]. apply lookup_delete_keys in Er as (Er & _). cbn in Er |- *.
    intros [= <-]. exists r. split; [done|]. destruct (is_child a r); [|done]. by destruct (kr_Personal r).
  - apply bind_ok in Hd as (? & _ & Hd). rewrite guard_ok in Hd. destruct Hd as [_ Hd]. apply bind_ok in Hd as (d2 & Hi & [= _ <-]).
    set (d0 := if String.eqb (iv_Policy iv) "" then d else _) in *.
    assert (db_keys d0 = db_keys d ∧ db_invites d0 = db_invites d) as [E1 E2].
    { unfold d0. destruct (String.eqb _ _); [done|]. by rewrite keys_assignPolicy, invites_assignPolicy. }
    pose proof (invites_insertKey _ _ _ _ Hi) as Ei. apply insertKey_keys in Hi as (Ek & _).
    destruct Hm' as [(id & r & Hr & Hu & Ha & Hg)|(id & iv' & Hin & Hrest)].
    + rewrite Ek, E1 in Hr. apply lookup_insert_Some in Hr as [[_ <-]|[_ Hr]]; [|left; exists id, r; auto].
      right. exists inv, iv. cbn in Hu, Hg. auto.
    + right. rewrite Ei, E2 in Hin. exists id, iv'. auto.
Qed.
End invites.

(** ** The steps handlers are made of *)
Lemma identity_call_ok {A} (f : db → tx (A * db)) s a s' : identity_call f s = Ok (a, s') →
  ∃ d' w, f (with_work (work_of s) (st_db s)) = Ok (a, d') ∧ st_db s' = with_work w d'.
Proof. unfold identity_call. intros ([a' d'] & Hf & [= <- <-])%bind_ok. exists d'. eexists. split; [done|]. done. Qed.

Lemma plainly_ok {X E} (r : result E X) x u : plainly r = Ok (u, x) → r = Ok x.
Proof. unfold plainly. intros (y & Hy & [= _ <-])%bind_ok. done. Qed.

Section steps.
Context (G : seen → instant → front → front → Prop) (Q : seen → response → Prop).
(** A step that leaves the tables alone is fine. *)
Context (HG : ∀ h m fr fr', front_db fr' = front_db fr → G h m fr fr').

Lemma wp_clock P h : (∀ m fr, P (h ++ [(m, fr)]) (mo_now m)) → wp G Q clock P h.
Proof. intros HP m fr. split; [by apply HG|]. apply HP. Qed.
Lemma wp_ask {A} (f : Z → store → A) P h :
  (∀ m fr, P (h ++ [(m, fr)]) (if answers_now m then Some (f (mo_now m) (front_store fr)) else None)) → wp G Q (ask f) P h.
Proof. intros HP m fr. split; [by apply HG|]. apply HP. Qed.
Lemma wp_read {A} (f : Z → store → A) P h :
  (∀ m fr, Q (h ++ [(m, fr)]) (Refused 503)) → (∀ m fr, P (h ++ [(m, fr)]) (f (mo_now m) (front_store fr))) → wp G Q (read f) P h.
Proof. intros HQ HP m fr. split; [by apply HG|]. destruct (answers_now m); cbn; auto. Qed.
Lemma wp_throttled {A} (f : Z → signInThrottle → signInThrottle * A) P h :
  (∀ m fr a, P (h ++ [(m, fr)]) a) → wp G Q (throttled f) P h.
Proof. intros HP m fr. destruct (f (mo_now m) (fr_signIns fr)) as [t a]. split; [by apply HG|]. apply HP. Qed.
Lemma wp_accessChanged `{Unicode} `{Hash} P h : (∀ m fr, P (h ++ [(m, fr)]) ()) → wp G Q accessChanged P h.
Proof. intros HP m fr. split; [by apply HG|]. apply HP. Qed.
Lemma wp_hashing pbkdf2 pw P h : (∀ m fr a, P (h ++ [(m, fr)]) a) → wp G Q (hashing pbkdf2 pw) P h.
Proof. intros HP m fr. split; [by apply HG|]. apply HP. Qed.
Lemma wp_resolve `{Unicode} `{Hash} p ref scope P h :
  (∀ h' st, Q h' (Refused st)) →
  (∀ m fr r, Access.resolve (fr_gw fr) p (mo_now m) (mo_listed m) ref scope = Ok r → P (h ++ [(m, fr)]) r) → wp G Q (resolve_step p ref scope) P h.
Proof.
  intros HQ HP m fr. split; [by apply HG|]. destruct (answers_now m); [|apply HQ].
  destruct (Access.resolve _ _ _ _ _ _) eqn:E; cbn; [by apply HP|apply HQ].
Qed.

Lemma wp_run_tx {E A} (failure : E) (f : instant → store → result E (A * store)) P h :
  (∀ m fr a s, f m (front_store fr) = Ok (a, s) → G h m fr (on_store (λ _, s) fr)) →
  (∀ m fr r, (∀ a, r = Ok a → ∃ s, f m (front_store fr) = Ok (a, s)) → P (h ++ [(m, fr)]) r) → wp G Q (run_tx failure f) P h.
Proof.
  intros Hf HP m fr. destruct (mo_fate m) eqn:Em.
  - destruct (f m (front_store fr)) as [[a s]|e] eqn:Ef; cbn; (split; [by (eapply Hf || apply HG)|]); apply HP; [|done].
    intros b [= <-]. eauto.
  - split; [by apply HG|]. by apply HP.
  - destruct (f m (front_store fr)) as [[a s]|e] eqn:Ef; cbn; (split; [by (eapply Hf || apply HG)|]); by apply HP.
Qed.

Lemma wp_transact {A} (f : instant → db → tx (A * db)) P h :
  (∀ m fr fr' a w d' w', f m (with_work w (front_db fr)) = Ok (a, d') → front_db fr' = with_work w' d' → G h m fr fr') →
  (∀ m fr r, (∀ a, r = Ok a → ∃ w d', f m (with_work w (front_db fr)) = Ok (a, d')) → P (h ++ [(m, fr)]) r) → wp G Q (transact f) P h.
Proof.
  intros Hf HP. apply wp_run_tx.
  - intros m fr a s (d' & w & Hd & Es)%identity_call_ok. by eapply Hf.
  - intros m fr r Hr. apply HP. intros a (s & (d' & w & Hd & Es)%identity_call_ok)%Hr. eauto.
Qed.

Lemma wp_keyInfos (l : list Key) P h : (∀ h', Q h' (Refused 503)) → (∀ h' kis, P h' kis) → wp G Q (keyInfos l) P h.
Proof.
  intros HQ HP. revert P h HP. induction l as [|k l IH]; intros P h HP; cbn [keyInfos]; [apply HP|].
  apply wp_bind, wp_read; [intros; apply HQ|]. intros m fr. apply wp_bind, IH. intros h' kis. apply HP.
Qed.
End steps.

(** ** Nobody but an admin adds to what anyone may do *)
Definition adds_nothing (_ : seen) (_ : instant) (fr fr' : front) : Prop := no_more (front_db fr) (front_db fr').

Lemma adds_nothing_same h m fr fr' : front_db fr' = front_db fr → adds_nothing h m fr fr'.
Proof. intros E. unfold adds_nothing. by rewrite E. Qed.

(** The work a transaction runs with is neither here nor there. *)
Lemma adds_nothing_tx h m fr fr' w d' w' :
  no_more (with_work w (front_db fr)) d' → front_db fr' = with_work w' d' → adds_nothing h m fr fr'.
Proof. intros Hm E Hok. unfold front_db in *. rewrite E. exact (Hm Hok). Qed.

(** Keys and invites unwritten. *)
Lemma adds_nothing_store h m fr s :
  db_keys (st_db s) = db_keys (front_db fr) → db_invites (st_db s) = db_invites (front_db fr) → adds_nothing h m fr (on_store (λ _, s) fr).
Proof. intros Ek Ei. by apply no_more_same. Qed.

(** Applies the rule of a program's next step; what a transaction does is left. *)
Ltac wp_next hg :=
  first
  [ apply (wp_clock _ _ hg); intros ??
  | apply (wp_read _ _ hg); intros ??
  | apply (wp_ask _ _ hg); intros ??
  | apply (wp_throttled _ _ hg); intros ???
  | apply (wp_accessChanged _ _ hg); intros ??
  | apply (wp_hashing _ _ hg); intros ???
  | apply (wp_resolve _ _ hg); [intros ??|intros ????]
  | apply (wp_keyInfos _ _ hg); [intros ?|intros ??]
  | apply (wp_transact _ _ hg); [intros ??? ???? ??|intros ????]
  | apply (wp_run_tx _ _ hg); [intros ?? ???|intros ????]
  | match goal with |- wp _ _ (match ?x with _ => _ end) _ _ => destruct x eqn:? end
  | apply wp_ret | apply wp_halt ].

Ltac open_handler := unfold handle_open, handle_key, login_request, register_request, inviteFor, invite_of_token, may_try, has_failed, has_succeeded,
  sign_in, logout, changePassword, whoami, sshEndpoint, addSSHKey, listSSHKeys, remove_ssh_key, removeSSHKey, sshAccess,
  createPersonalKey, listPersonalKeys, revokePersonalKey, personalCaller, writeKey, keyInfo, listOrgs, createOrg, listOrgMembers,
  setOrgMember, removeOrgMember, decode.
Ltac harm hg := repeat first [ done | wp_pure | wp_next hg ].

Section harmless.
Context `{Unicode} `{hash : Hash} (pbkdf2 : string → list Z → Z → Z → option (list Z)) (sha256 : list Z → list Z).
Context (is_print : string → bool) (dummy_salt : list Z) (cfg : settings).

Lemma invites_SetMember now org user tenant role d prev d' : SetMember now org user tenant role d = Ok (prev, d') → db_invites d' = db_invites d.
Proof.
  unfold SetMember. intros ([key o] & _ & Hd)%bind_ok. destruct (db_members d !! _).
  - rewrite guard_ok in Hd. by destruct Hd as [_ [= _ <-]].
  - apply bind_ok in Hd as (? & _ & [= _ <-]). cbn. apply invites_make_user.
Qed.
Lemma no_more_CreateOrg now name user tenant max d d' : CreateOrg now name user tenant max d = Ok d' → no_more d d'.
Proof.
  intros Hd. apply no_more_same; [by eapply (keys_unwritten hash now (Op_org name user tenant max))|].
  revert Hd. unfold CreateOrg. cbv zeta. rewrite !guard_ok. intros (_ & _ & _ & _ & _ & [= <-]). cbn. apply invites_make_user.
Qed.
Lemma no_more_SetMember now org user tenant role d prev d' : SetMember now org user tenant role d = Ok (prev, d') → no_more d d'.
Proof.
  intros Hd. apply no_more_same; [|by eapply invites_SetMember].
  eapply (keys_unwritten hash now (Op_set_member org user tenant role)); [done|]. cbn [id_step]. by rewrite Hd.
Qed.
Lemma no_more_RemoveMember org user tenant d d' : RemoveMember org user tenant d = Ok d' → no_more d d'.
Proof.
  unfold RemoveMember. intros ([key o] & _ & Hd)%bind_ok. apply bind_ok in Hd as (m & _ & Hd). rewrite guard_ok in Hd.
  destruct Hd as [_ [= <-]]. by apply no_more_same.
Qed.
Lemma no_more_SetPassword account pw keep d d' : SetPassword account pw keep d = Ok d' → no_more d d'.
Proof.
  unfold SetPassword. intros (k & _ & Hd)%bind_ok. rewrite guard_ok in Hd. destruct Hd as [_ [= <-]].
  eapply no_more_trans; [|apply no_more_delete]. by apply no_more_same.
Qed.
Lemma no_more_SignOut id d d' : SignOut id d = Ok d' → no_more d d'.
Proof. unfold SignOut. intros (k & _ & Hd)%bind_ok. rewrite guard_ok in Hd. destruct Hd as [_ [= <-]]. apply no_more_delete. Qed.

Lemma members_make_org now t d : db_members (make_org now t d) = db_members d.
Proof. unfold make_org. destruct (db_orgs d !! t); [done|]. by destruct (String.eqb t ""). Qed.
Lemma members_make_user now u d : db_members (make_user now u d) = db_members d.
Proof. unfold make_user. destruct (db_users _ !! u); cbn; by rewrite members_make_org. Qed.

Lemma same_AddSSHKey now rid user tenant sandbox fp line s k s' : AddSSHKey now rid user tenant sandbox fp line s = Ok (k, s') →
  db_keys (st_db s') = db_keys (st_db s) ∧ db_invites (st_db s') = db_invites (st_db s) ∧ db_members (st_db s') = db_members (st_db s).
Proof.
  unfold AddSSHKey. cbv zeta. rewrite !guard_ok. intros (_ & _ & _ & [= _ <-]). cbn.
  by rewrite keys_make_user, invites_make_user, members_make_user.
Qed.
Lemma same_NewSSHToken now rtoken user tenant sandbox ttl s tok exp s' :
  NewSSHToken hash_secret now rtoken user tenant sandbox ttl s = Ok (tok, exp, s') →
  db_keys (st_db s') = db_keys (st_db s) ∧ db_invites (st_db s') = db_invites (st_db s) ∧ db_members (st_db s') = db_members (st_db s).
Proof.
  unfold NewSSHToken. cbv zeta. rewrite !guard_ok. intros (_ & _ & Hs). destruct (ownerIDs _ _ _ _) as [u d] eqn:Eo.
  rewrite guard_ok in Hs. destruct Hs as [_ [= _ _ <-]]. cbn. unfold ownerIDs in Eo. revert Eo.
  destruct (owner_uid _ _ _); intros [= _ Ed]; subst d; cbn;
    by rewrite ?keys_make_user, ?invites_make_user, ?members_make_user, keys_make_org, invites_make_org, members_make_org.
Qed.
Lemma same_RemoveSSHKey id s s' : RemoveSSHKey id s = Ok s' → st_db s' = st_db s.
Proof. unfold RemoveSSHKey. rewrite guard_ok. by intros [_ [= <-]]. Qed.

Let Q : seen → response → Prop := λ _ _, True.

Lemma plain_ssh h m fr s :
  db_keys (st_db s) = db_keys (front_db fr) ∧ db_invites (st_db s) = db_invites (front_db fr) ∧ db_members (st_db s) = db_members (front_db fr) →
  adds_nothing h m fr (on_store (λ _, s) fr).
Proof. intros (? & ? & _). by apply adds_nothing_store. Qed.

(** The transactions such a request makes. *)
Ltac harmless_tx :=
  repeat match goal with
  | Hf : (SignIn _ _ _ _ _ _ _ ≫= _) = Ok _ |- _ => apply bind_ok in Hf as ([? ?] & ? & [= <- <-])
  | Hf : (CreatePersonalKey _ _ _ _ _ _ _ _ _ _ ≫= _) = Ok _ |- _ => apply bind_ok in Hf as ([? ?] & ? & [= <- <-])
  | Hf : plainly _ = Ok (_, _) |- _ => apply plainly_ok in Hf
  end;
  try match goal with E : front_db _ = with_work _ _ |- _ => eapply adds_nothing_tx; [|exact E] end;
  lazymatch goal with
  | Hf : SignIn _ _ _ _ _ _ _ = Ok _ |- _ => exact (no_more_SignIn _ _ _ _ _ _ _ _ _ Hf)
  | Hf : RedeemInvite _ _ _ _ _ _ _ = Ok _ |- _ => exact (no_more_redeem _ _ _ _ _ _ _ _ _ Hf)
  | Hf : CreatePersonalKey _ _ _ _ _ _ _ _ _ _ = Ok _ |- _ => exact (no_more_personal _ _ _ _ _ _ _ _ _ _ _ _ Hf)
  | Hf : RevokePersonalKey _ _ _ _ = Ok _ |- _ => exact (no_more_revoke_personal hash _ _ _ _ _ Hf)
  | Hf : SetMember _ _ _ _ _ _ = Ok _ |- _ => exact (no_more_SetMember _ _ _ _ _ _ _ _ Hf)
  | Hf : RemoveMember _ _ _ _ = Ok _ |- _ => exact (no_more_RemoveMember _ _ _ _ _ Hf)
  | Hf : SetPassword _ _ _ _ = Ok _ |- _ => exact (no_more_SetPassword _ _ _ _ _ Hf)
  | Hf : SignOut _ _ = Ok _ |- _ => exact (no_more_SignOut _ _ _ Hf)
  | Hf : CreateOrg _ _ _ _ _ _ ≫= _ = Ok _ |- _ => apply bind_ok in Hf as (? & Hf & [= _ <-]); exact (no_more_CreateOrg _ _ _ _ _ _ _ Hf)
  | Hf : to_right (AddSSHKey _ _ _ _ _ _ _ _) = Ok _ |- _ =>
      let E := fresh in unfold to_right in Hf; destruct (AddSSHKey _ _ _ _ _ _ _ _) as [[? ?]|] eqn:E; [|done];
      injection Hf as <- <-; apply plain_ssh; exact (same_AddSSHKey _ _ _ _ _ _ _ _ _ _ E)
  | Hf : NewSSHToken _ _ _ _ _ _ _ _ ≫= _ = Ok _ |- _ =>
      apply bind_ok in Hf as ([[? ?] ?] & Hf & [= <- <-]); apply plain_ssh; exact (same_NewSSHToken _ _ _ _ _ _ _ _ _ _ Hf)
  | Hf : RemoveSSHKey _ _ = Ok _ |- _ => apply adds_nothing_same; exact (same_RemoveSSHKey _ _ _ Hf)
  | _ => idtac
  end.

Lemma harmless_open c h : wp adds_nothing Q (handle_open pbkdf2 dummy_salt c) Q h.
Proof.
  destruct c; open_handler; unfold orgFor; harm adds_nothing_same.
  all: harmless_tx.
Qed.

(** What only admins may ask is refused at once. *)
Definition admin_call (c : key_call) : bool :=
  match c with
  | A_create_key _ | A_keys | A_revoke_key _ | A_suspend_key _ | A_restore_key _ | A_key_expiry _ _ | A_reset _ _ | A_create_invite _
  | A_invites | A_revoke_invite _ | A_resend_invite _ _ | A_ssh_keys _ | A_remove_ssh_key _ | A_orgs | A_policies | A_put_policy _ _
  | A_delete_policy _ | A_assign_policy _ => true
  | _ => false
  end.
Lemma admin_refused p c : admin_call c = true → Can p ScopeAdmin = false → handle_key pbkdf2 sha256 is_print cfg p c = refuse 403.
Proof.
  intros Hc Hp. destruct c; try done; unfold handle_key, adminCreateKey, adminListKeys, adminRevokeKey, adminSuspendKey, adminRestoreKey, adminKeyExpiry,
    adminResetPassword, adminCreateInvite, adminListInvites, adminRevokeInvite, adminResendInvite, adminListSSHKeys, adminRemoveSSHKey,
    adminListOrgs, adminListPolicies, adminPutPolicy, adminDeletePolicy, adminAssignPolicy, need; by rewrite Hp.
Qed.

(** Any request that is no admin's. *)
Lemma harmless p c h : Can p ScopeAdmin = false → wp adds_nothing Q (handle_key pbkdf2 sha256 is_print cfg p c) Q h.
Proof.
  intros Hp. destruct (admin_call c) eqn:Ec; [by rewrite admin_refused|]. destruct c; try done; open_handler; unfold orgFor; harm adds_nothing_same.
  all: harmless_tx.
Qed.

Lemma selectOrg_scopes {S : Type} `{Store S} (s : S) vals p p' :
  selectOrg s vals p = Ok p' → p_Scopes p' = p_Scopes p ∧ p_User p' = p_User p ∧ p_KeyTenant p' = p_KeyTenant p ∧ p_KeyID p' = p_KeyID p ∧
    p_Sandbox p' = p_Sandbox p.
Proof.
  unfold selectOrg. cbv zeta. rewrite !guard_ok. intros (_ & _ & Hs). destruct (String.eqb _ ""); [by injection Hs as <-|].
  destruct (_ || _); [by injection Hs as <-|]. destruct (MemberRole _ _ _ _) as [[r|]|]; [|done..]. by injection Hs as <-.
Qed.

Lemma wp_select G Q' rq p P h :
  (∀ h m fr fr', front_db fr' = front_db fr → G h m fr fr') → (∀ h' st, Q' h' (Refused st)) →
  (∀ h' p', p_Scopes p' = p_Scopes p → p_User p' = p_User p → p_KeyTenant p' = p_KeyTenant p → p_KeyID p' = p_KeyID p → P h' p') →
  wp G Q' (select_step rq p) P h.
Proof.
  intros HG HQ HP m fr. split; [by apply HG|]. apply wp_on_error; [intros; apply HQ|]. intros p' Hp'.
  destruct (answers_now m); apply selectOrg_scopes in Hp' as (? & ? & ? & ? & _); by apply HP.
Qed.

Lemma harmless_serve rq c p h : Can p ScopeAdmin = false → wp adds_nothing Q (serve pbkdf2 sha256 is_print cfg rq c p) Q h.
Proof.
  intros Hp. unfold serve. apply wp_bind, wp_select; [apply adds_nothing_same|done|]. intros h' p' E _ _ _. wp_pure; [done|]. apply harmless.
  unfold Can in *. by rewrite E.
Qed.

Definition all_harmless (w : gateway_world) : Prop :=
  ∀ i todo, gw_threads w !! i = Some (Serving todo) → ∃ h, wp adds_nothing Q todo Q h.

Lemma all_harmless_set w i t fr :
  all_harmless w → (∀ todo, t = Serving todo → ∃ h, wp adds_nothing Q todo Q h) →
  all_harmless {| gw_front := fr; gw_threads := <[i := t]> (gw_threads w) |}.
Proof. intros Ha Ht j todo. cbn. intros [[_ E]|[_ Hj]]%lookup_insert_Some; [by apply Ht|by apply (Ha j)]. Qed.

Definition world_db (w : gateway_world) : db := front_db (gw_front w).

Lemma harmless_step w w' :
  without_admin pbkdf2 sha256 is_print dummy_salt cfg w w' → all_harmless w → all_harmless w' ∧ no_more (world_db w) (world_db w').
Proof.
  intros (l & Hstep & Hl) Ha. destruct Hstep as [i rq c w Hi|i rq c w Hi|i rq c w Hi Ho|i rq c m w st Hi Ho Hst|i rq c m w p Hi Ho Hau|
    i B f k m w Hi|i r w Hi|i r w Hi|fr w Ek Ei].
  1-5, 7, 8: split; [|apply no_more_refl]; (apply all_harmless_set; [done|]); intros todo [= <-].
  - exists []. unfold serve_open. wp_pure; [done|done|]. apply harmless_open.
  - exists []. by apply harmless_serve, Hl.
  - destruct (Ha i _ Hi) as (h & Hwp). destruct (Hwp m (gw_front w)) as [HG Hk]. split; [|done].
    apply all_harmless_set; [done|]. intros todo [= <-]. eauto.
  - split; [exact Ha|]. by apply no_more_same.
Qed.
End harmless.


(** ** Who changes an organization's members *)
Section members.
Context `{Unicode} `{hash : Hash} (pbkdf2 : string → list Z → Z → Z → option (list Z)) (sha256 : list Z → list Z).
Context (is_print : string → bool) (dummy_salt : list Z) (cfg : settings).
Context (p : Principal) (c : key_call).

(** An owner at a moment of the request, or whoever makes the organization. *)
Definition was_owner (h : seen) (key : string) : Prop :=
  ∃ m fr org, (m, fr) ∈ h ∧ key = to_lower org ∧ role_in (front_db fr) org (p_User p) (p_KeyTenant p) = Some RoleOwner.
Definition makes_it (fr : front) (key : string) (u : uid) : Prop :=
  u = (p_KeyTenant p, p_User p) ∧ ∃ name, c = C_create_org (Some name) ∧ key = to_lower name ∧ team_named (front_db fr) key = false.
Definition by_owner (h : seen) (_ : instant) (fr fr' : front) : Prop :=
  ∀ key u, db_members (front_db fr') !! (key, u) ≠ db_members (front_db fr) !! (key, u) → was_owner h key ∨ makes_it fr key u.

Lemma by_owner_members h m fr fr' : db_members (front_db fr') = db_members (front_db fr) → by_owner h m fr fr'.
Proof. intros E key u Hne. by rewrite E in Hne. Qed.
Lemma by_owner_same h m fr fr' : front_db fr' = front_db fr → by_owner h m fr fr'.
Proof. intros E. apply by_owner_members. by rewrite E. Qed.

Lemma was_owner_app h h' key : was_owner h key → was_owner (h ++ h') key.
Proof. intros (m & fr & org & Hin & Hrest). exists m, fr, org. split; [|done]. apply elem_of_app. by left. Qed.

Lemma by_owner_tx h m fr fr' d' w' :
  front_db fr' = with_work w' d' → db_members d' = db_members (front_db fr) → by_owner h m fr fr'.
Proof. intros E Em. apply by_owner_members. unfold front_db in *. by rewrite E. Qed.

Lemma members_insertKey now k d d' : insertKey now k d = Ok d' → k_Parent k ≠ ""%string → db_members d' = db_members d.
Proof.
  unfold insertKey. rewrite guard_ok. intros [_ Hi] Hne. apply bind_ok in Hi as (d2 & Hd2 & Hi).
  assert (db_members d2 = db_members d) as E2.
  { destruct (negb (String.eqb (k_Email k) "")); [|injection Hd2 as <-; apply members_make_user].
    unfold claim_email in Hd2. rewrite guard_ok in Hd2. destruct Hd2 as [_ [= <-]]. cbn. apply members_make_user. }
  rewrite !guard_ok in Hi. destruct Hi as (_ & _ & Hi). apply String.eqb_neq in Hne. rewrite Hne in Hi. by injection Hi as <-.
Qed.
Lemma personalRoot_id now by_ d caller root : personalRoot now by_ d = Ok (caller, root) → by_ ≠ ""%string → k_ID root ≠ ""%string.
Proof.
  unfold personalRoot. intros (k & (r & _ & ->)%of_option_ok%key_of_Some & Hp)%bind_ok Hne. rewrite guard_ok in Hp. destruct Hp as [_ Hp].
  apply bind_ok in Hp as (rt & (q & _ & ->)%of_option_ok%key_of_Some & Hp). rewrite guard_ok in Hp. destruct Hp as [_ [= _ <-]].
  cbn. by destruct (String.eqb_spec (default ""%string (kr_Parent r)) "").
Qed.
Lemma members_personal now rid rsecret by_ org name scopes expires d k d' :
  CreatePersonalKey hash now rid rsecret by_ org name scopes expires d = Ok (k, d') → by_ ≠ ""%string → db_members d' = db_members d.
Proof.
  unfold CreatePersonalKey. rewrite !guard_ok. intros (_ & _ & _ & Hd) Hne. apply bind_ok in Hd as ([caller root] & Hroot & Hd).
  rewrite guard_ok in Hd. destruct Hd as [_ Hd]. apply bind_ok in Hd as (o & _ & Hd). rewrite !guard_ok in Hd. destruct Hd as (_ & _ & Hd).
  apply bind_ok in Hd as (d2 & Hi & [= <- <-]). eapply members_insertKey; [exact Hi|]. by eapply personalRoot_id.
Qed.
Lemma members_SetPassword account pw keep d d' : SetPassword account pw keep d = Ok d' → db_members d' = db_members d.
Proof. unfold SetPassword. intros (k & _ & Hd)%bind_ok. rewrite guard_ok in Hd. by destruct Hd as [_ [= <-]]. Qed.
Lemma members_SignOut id d d' : SignOut id d = Ok d' → db_members d' = db_members d.
Proof. unfold SignOut. intros (k & _ & Hd)%bind_ok. rewrite guard_ok in Hd. by destruct Hd as [_ [= <-]]. Qed.
Lemma members_revoke_personal now by_ id d d' : RevokePersonalKey now by_ id d = Ok d' → db_members d' = db_members d.
Proof.
  unfold RevokePersonalKey. intros ([? root] & _ & Hd)%bind_ok. apply bind_ok in Hd as (? & _ & Hd). rewrite guard_ok in Hd.
  by destruct Hd as [_ [= <-]].
Qed.
Lemma members_SetMember now org user tenant role d prev d' key u :
  SetMember now org user tenant role d = Ok (prev, d') → db_members d' !! (key, u) ≠ db_members d !! (key, u) → key = to_lower org.
Proof.
  unfold SetMember, teamOrg. intros ([k o] & Ht%of_option_ok & Hd)%bind_ok Hne.
  assert (k = to_lower org) as ->.
  { destruct (String.eqb org ""); [done|]. apply bind_Some in Ht as (o' & _ & Ht). destruct (is_team o'); [|done]. by injection Ht. }
  destruct (decide (key = to_lower org)) as [|Hk]; [done|]. exfalso. apply Hne.
  destruct (db_members d !! (to_lower org, _)).
  - rewrite guard_ok in Hd. destruct Hd as [_ [= _ <-]]. cbn. rewrite lookup_insert_ne; [done|]. congruence.
  - apply bind_ok in Hd as (? & _ & [= _ <-]). cbn. rewrite lookup_insert_ne by congruence. by rewrite members_make_user.
Qed.
Lemma members_RemoveMember org user tenant d d' key u :
  RemoveMember org user tenant d = Ok d' → db_members d' !! (key, u) ≠ db_members d !! (key, u) → key = to_lower org.
Proof.
  unfold RemoveMember, teamOrg. intros ([k o] & Ht%of_option_ok & Hd)%bind_ok Hne.
  assert (k = to_lower org) as ->.
  { destruct (String.eqb org ""); [done|]. apply bind_Some in Ht as (o' & _ & Ht). destruct (is_team o'); [|done]. by injection Ht. }
  apply bind_ok in Hd as (m & _ & Hd). rewrite guard_ok in Hd. destruct Hd as [_ [= <-]].
  destruct (decide (key = to_lower org)) as [|Hk]; [done|]. exfalso. apply Hne. cbn. rewrite lookup_delete_ne; [done|]. congruence.
Qed.
Lemma team_make_user now u d key : team_named d key = true → team_named (make_user now u d) key = true.
Proof.
  unfold team_named, make_user. set (d1 := make_org now u.1 d). assert (db_orgs d1 !! key = db_orgs d !! key ∨ db_orgs d !! key = None) as Ho.
  { unfold d1, make_org. destruct (db_orgs d !! u.1) eqn:E; [by left|]. destruct (decide (key = u.1)) as [->|Hne]; [by right|].
    left. destruct (String.eqb _ _); cbn; by rewrite lookup_insert_ne. }
  destruct Ho as [Ho|Ho]; [|by rewrite Ho]. destruct (db_users d1 !! u); cbn; by rewrite Ho.
Qed.
Lemma members_CreateOrg now name user tenant max d d' key u :
  CreateOrg now name user tenant max d = Ok d' → db_members d' !! (key, u) ≠ db_members d !! (key, u) →
  key = to_lower name ∧ u = (tenant, user) ∧ team_named d key = false.
Proof.
  unfold CreateOrg. cbv zeta. rewrite !guard_ok. intros (_ & _ & _ & Hk & _ & [= <-]) Hne. cbn in Hne.
  rewrite lookup_insert in Hne. rewrite members_make_user in Hne. case_decide as Ed; [|done]. injection Ed as <- <-.
  split_and!; [done..|]. apply not_true_iff_false. intros Ht. apply (team_make_user (micros now) (tenant, user)) in Ht. revert Ht Hk.
  unfold team_named. destruct (db_orgs _ !! _) as [o|]; [|done]. unfold is_team. intros Ek%bool_decide_eq_true. rewrite Ek. by vm_compute.
Qed.

Let Q : seen → response → Prop := λ _ _, True.

Lemma wp_orgFor name P h q :
  p_User q = p_User p → p_KeyTenant q = p_KeyTenant p → Can q ScopeAdmin = false →
  (∀ h' rec, was_owner h' (to_lower (or_tenant rec)) → P h' rec) → wp by_owner Q (orgFor q name true) P h.
Proof.
  intros Eu Et Hadm HP. unfold orgFor. apply wp_bind, (wp_read _ _ by_owner_same); [done|]. intros m fr. wp_pure; [done|].
  rewrite Hadm. apply wp_bind, (wp_read _ _ by_owner_same); [done|]. intros m1 fr1. wp_pure; [done..|]. apply wp_ret.
  match goal with Hr : match ?o with Some _ => _ | None => _ end = Some ?r, Hm : _ && _ = false |- _ => rename Hr into Hrole, Hm into Howner end.
  apply HP. exists m1, fr1, (or_tenant a). split; [set_solver|]. split; [done|].
  cbn in Howner. apply negb_false_iff, String.eqb_eq in Howner as ->. rewrite <- Eu, <- Et. unfold front_db.
  destruct (MemberRole_of _ _ _ _) as [r|] eqn:Em.
  - injection Hrole as ->. unfold MemberRole_of in Em. by destruct (String.eqb _ _).
  - by destruct (equal_fold _ _).
Qed.

(** The transactions that leave the members alone, and those that do not. *)
Ltac by_owner_tx :=
  repeat match goal with
  | Hf : (CreatePersonalKey _ _ _ _ _ _ _ _ _ _ ≫= _) = Ok _ |- _ => apply bind_ok in Hf as ([? ?] & ? & [= <- <-])
  | Hf : plainly _ = Ok (_, _) |- _ => apply plainly_ok in Hf
  end;
  try match goal with E : front_db _ = with_work _ _ |- by_owner ?h ?m _ _ =>
    match goal with
    | Hf : SignOut _ _ = Ok _ |- _ => exact (by_owner_tx h m _ _ _ _ E (members_SignOut _ _ _ Hf))
    | Hf : SetPassword _ _ _ _ = Ok _ |- _ => exact (by_owner_tx h m _ _ _ _ E (members_SetPassword _ _ _ _ _ Hf))
    | Hf : RevokePersonalKey _ _ _ _ = Ok _ |- _ => exact (by_owner_tx h m _ _ _ _ E (members_revoke_personal _ _ _ _ _ Hf))
    | Hf : CreatePersonalKey _ _ _ _ _ _ _ _ _ _ = Ok _, Hc : _ || String.eqb _ "" = false |- _ =>
        apply orb_false_iff in Hc as [_ Hc%String.eqb_neq]; exact (by_owner_tx h m _ _ _ _ E (members_personal _ _ _ _ _ _ _ _ _ _ _ Hf Hc))
    end
  end;
  lazymatch goal with
  | Hf : to_right (AddSSHKey _ _ _ _ _ _ _ _) = Ok _ |- _ =>
      let E := fresh in unfold to_right in Hf; destruct (AddSSHKey _ _ _ _ _ _ _ _) as [[? ?]|] eqn:E; [|done];
      injection Hf as <- <-; apply by_owner_members; exact (proj2 (proj2 (same_AddSSHKey _ _ _ _ _ _ _ _ _ _ E)))
  | Hf : NewSSHToken _ _ _ _ _ _ _ _ ≫= _ = Ok _ |- _ =>
      apply bind_ok in Hf as ([[? ?] ?] & Hf & [= <- <-]); apply by_owner_members; exact (proj2 (proj2 (same_NewSSHToken _ _ _ _ _ _ _ _ _ _ Hf)))
  | Hf : RemoveSSHKey _ _ = Ok _ |- _ => apply by_owner_same; exact (same_RemoveSSHKey _ _ _ Hf)
  | _ => idtac
  end.

Lemma by_owner_handle q h :
  p_User q = p_User p → p_KeyTenant q = p_KeyTenant p → Can q ScopeAdmin = false →
  wp by_owner Q (handle_key pbkdf2 sha256 is_print cfg q c) Q h.
Proof.
  intros Eu Et Hq. destruct (admin_call c) eqn:Ec; [by rewrite admin_refused|]. destruct c eqn:Ecall; try done; open_handler.
  all: try (lazymatch goal with |- context [orgFor _ _ true] => apply wp_bind, (wp_orgFor _ _ _ q Eu Et Hq); intros h' rec Hown end).
  all: harm by_owner_same.
  all: by_owner_tx.
  - apply bind_ok in H3 as (d1 & Hmk & [= _ <-]). intros key u Hne. rewrite H4 in Hne. right.
    destruct (members_CreateOrg _ _ _ _ _ _ _ _ _ Hmk Hne) as (-> & -> & Ht). split; [by rewrite Eu, Et|].
    exists a. rewrite Ecall, H1. split_and!; [done..|exact Ht].
  - intros key u Hne. left. match goal with Hf : SetMember _ _ _ _ _ _ = Ok _, E : front_db _ = _ |- _ =>
      rewrite E in Hne; rewrite (members_SetMember _ _ _ _ _ _ _ _ _ _ Hf Hne) end.
    eauto using was_owner_app.
  - intros key u Hne. left. match goal with Hf : RemoveMember _ _ _ _ = Ok _, E : front_db _ = _ |- _ =>
      rewrite E in Hne; rewrite (members_RemoveMember _ _ _ _ _ _ _ Hf Hne) end.
    eauto using was_owner_app.
Qed.

Lemma members_serve rq h : Can p ScopeAdmin = false → wp by_owner Q (serve pbkdf2 sha256 is_print cfg rq c p) Q h.
Proof.
  intros Hp. unfold serve. apply wp_bind, wp_select; [apply by_owner_same|done|]. intros h' q Es Eu Et _. wp_pure; [done|].
  apply by_owner_handle; [done..|]. unfold Can in *. by rewrite Es.
Qed.
End members.

(** C11. Who changes the members. Take any request let in with a key that is
    no admin's, and let anything at all happen between its steps. When one of
    its steps changes whether somebody is a member of an organization, or as
    what, then at an earlier step of the request its user owned the
    organization — or that step makes the organization, named as asked, which
    was not there, and its user is the member. *)
Theorem members_change_by_owners `{Unicode} `{hash : Hash} pbkdf2 sha256 is_print cfg p rq c env before m fr fr' after key u
    (Hadmin : Can p ScopeAdmin = false)
    (Hstep : steps_in (serve pbkdf2 sha256 is_print cfg rq c p) env = before ++ (m, fr, fr') :: after)
    (Hchange : db_members (front_db fr') !! (key, u) ≠ db_members (front_db fr) !! (key, u)) :
  was_owner p before.*1 key ∨ makes_it p c fr key u.
Proof.
  pose proof (members_serve pbkdf2 sha256 is_print [] cfg p c rq [] Hadmin) as Hwp.
  exact (wp_steps _ _ _ _ _ Hwp _ _ _ _ _ Hstep _ _ Hchange).
Qed.

(** ** What a sign-in takes *)
Section sign_in.
Context `{Unicode} `{hash : Hash} (pbkdf2 : string → list Z → Z → Z → option (list Z)) (dummy_salt : list Z).

(** The key signs an account's user in: at a moment of the request the
    account worked, and the key does what it does and ends no later. *)
Definition signed_in (h : seen) (account : string) (k : Key) : Prop :=
  ∃ m fr r, (m, fr) ∈ h ∧ db_keys (front_db fr) !! account = Some r ∧ row_on (micros (mo_now m)) r = true ∧
    k_Parent k = account ∧ (k_Tenant k, k_User k) = kr_User r ∧ k_Scopes k = kr_Scopes r ∧
    ∀ t, kr_Expires r = Some t → ∃ e, k_Expires k = Some e ∧ e ≤ t.

Lemma signed_in_SignIn m fr h rid rsecret account ttl w k d' :
  (m, fr) ∈ h → SignIn hash_secret (mo_now m) rid rsecret account ttl (with_work w (front_db fr)) = Ok (k, d') → signed_in h account k.
Proof.
  intros Hin. unfold SignIn. intros (acct & (r & Hr & ->)%of_option_ok%key_of_Some & Hd)%bind_ok. rewrite !guard_ok in Hd.
  destruct Hd as (_ & Hact & Hd). apply bind_ok in Hd as (d2 & _ & [= <- _]). exists m, fr, r.
  split_and!; [done|done| | | | |].
  - apply negb_false_iff in Hact. exact Hact.
  - done.
  - cbn. by destruct (kr_User r).
  - done.
  - cbn. intros t ->. eexists. split; [done|]. destruct (_ <? _) eqn:E; lia.
Qed.

(** The account's password, or an invite's token. *)
Definition proven (c : open_call) (h : seen) (k : Key) : Prop :=
  match c with
  | C_login (Some (email, password, _)) => ∃ m fr a,
      (m, fr) ∈ h ∧ Account (front_db fr) (NormalEmail email).1 = Some a ∧
      verifyPassword pbkdf2 (if String.eqb (k_Password a) "" then dummyHash pbkdf2 dummy_salt else k_Password a) password = true ∧
      strlen password ≤ passwordMax ∧ signed_in h (k_ID a) k
  | C_register (Some (token, password, _)) => ∃ m fr i iv,
      (m, fr) ∈ h ∧ inviteByToken hash_secret (front_db fr) (micros (mo_now m)) token = Some (i, iv) ∧ checkPassword password = true ∧
      signed_in h (match iv_Key iv with Some account => account | None => newID "key_" (mo_id m) end) k
  | _ => False
  end.
Let Q (c : open_call) (h : seen) (r : response) : Prop := match r with Gave_login _ k _ => proven c h k | _ => True end.
Let any : seen → instant → front → front → Prop := λ _ _ _ _, True.
Let any_ok h m fr fr' : front_db fr' = front_db fr → any h m fr fr' := λ _, I.

Lemma RedeemInvite_ok now rid rsecret token pw d k d' : RedeemInvite hash_secret now rid rsecret token pw d = Ok (k, d') →
  ∃ i iv, inviteByToken hash_secret d (micros now) token = Some (i, iv) ∧
    k_ID k = match iv_Key iv with Some account => account | None => newID "key_" rid end.
Proof.
  unfold RedeemInvite. intros ([inv iv] & Htok%of_option_ok & Hd)%bind_ok. apply bind_ok in Hd as ([k1 d1] & Hd & [= <- _]).
  exists inv, iv. split; [done|]. destruct (iv_Key iv) as [a|].
  - apply bind_ok in Hd as (k0 & (r & _ & ->)%of_option_ok%key_of_Some & Hd). rewrite guard_ok in Hd. by destruct Hd as [_ [= <- _]].
  - apply bind_ok in Hd as (? & _ & Hd). rewrite guard_ok in Hd. destruct Hd as [_ Hd]. by apply bind_ok in Hd as (d2 & _ & [= <- _]).
Qed.

Lemma wp_sign_in {A} c account ttl (next : string * Key → prog A) P h :
  (∀ h' st, Q c h' (Refused st)) →
  (∀ x secret k, signed_in (h ++ x) account k → wp any (Q c) (next (secret, k)) P (h ++ x)) →
  wp any (Q c) (sign_in account ttl ≫= λ r, on_error r (λ _, 403) ≫= next) P h.
Proof.
  intros HQ HP. apply wp_bind, (wp_transact any (Q c) any_ok); [intros; exact I|]. intros m fr r Hr.
  apply wp_bind, wp_on_error; [intros; apply HQ|]. intros [secret k] Hok. destruct (Hr _ Hok) as (w & d' & Hs).
  apply bind_ok in Hs as ([k' d2] & Hs & [= _ <- _]). apply HP. eapply signed_in_SignIn; [|exact Hs]. set_solver.
Qed.

Lemma wp_failing {A} c email P h : wp any (Q c) (has_failed email;; refuse (A := A) 401) P h.
Proof. apply wp_bind, (wp_throttled _ _ any_ok). intros. exact I. Qed.

Lemma wp_login email password ttl h (c := C_login (Some (email, password, ttl))) :
  wp any (Q c) (login_request pbkdf2 dummy_salt email password ttl) (Q c) h.
Proof.
  assert (∀ h' st, Q c h' (Refused st)) as HQ by (intros; exact I). unfold login_request, may_try, has_succeeded. cbv zeta.
  apply wp_bind, wp_or_refuse; [intros; apply HQ|]. intros ttl' _.
  apply wp_bind, wp_bind, (wp_throttled _ _ any_ok). intros m1 fr1 why. apply wp_refuse_if; [intros; apply HQ|intros _].
  apply wp_bind, (wp_read _ _ any_ok); [intros; apply HQ|]. intros m fr.
  destruct (Account _ _) as [a|] eqn:Ea; [|apply wp_failing].
  destruct (verifyPassword _ _ _) eqn:Ev; cbn [andb]; [|apply wp_failing].
  destruct (strlen password >? passwordMax) eqn:El; cbn [negb]; [apply wp_failing|].
  apply wp_bind, (wp_throttled _ _ any_ok). intros m2 fr2 _. apply wp_bind, (wp_clock _ _ any_ok). intros m3 fr3.
  apply wp_bind, wp_refuse_if; [intros; apply HQ|intros _]. apply (wp_sign_in c); [exact HQ|]. intros x secret k Hin.
  exists m, fr, a. split; [|split; [exact Ea|split; [exact Ev|split; [lia|exact Hin]]]]. set_solver.
Qed.

Lemma wp_register token password ttl h (c := C_register (Some (token, password, ttl))) :
  wp any (Q c) (register_request pbkdf2 token password ttl) (Q c) h.
Proof.
  assert (∀ h' st, Q c h' (Refused st)) as HQ by (intros; exact I). unfold register_request, invite_of_token.
  apply wp_bind, wp_or_refuse; [intros; apply HQ|]. intros ttl' _. apply wp_bind, wp_refuse_if; [intros; apply HQ|].
  intros Hpw%negb_false_iff. apply wp_bind, wp_bind, (wp_read _ _ any_ok); [intros; apply HQ|]. intros m1 fr1.
  apply wp_or_refuse; [intros; apply HQ|]. intros _ _. apply wp_bind, (wp_hashing _ _ any_ok). intros m2 fr2 pw.
  apply wp_bind, (wp_transact any (Q c) any_ok); [intros; exact I|]. intros m fr r Hr. apply wp_bind, wp_on_error; [intros; apply HQ|].
  intros acct Hok. destruct (Hr _ Hok) as (w & d' & (i & iv & Htok & Eid)%RedeemInvite_ok).
  apply wp_bind, (wp_accessChanged _ _ any_ok). intros m3 fr3. apply (wp_sign_in c); [exact HQ|]. intros x secret k Hin.
  exists m, fr, i, iv. rewrite <- Eid. split; [|split; [exact Htok|split; [exact Hpw|exact Hin]]]. set_solver.
Qed.

Lemma signed_in_mono h h' account k : h ⊆ h' → signed_in h account k → signed_in h' account k.
Proof. intros Hh (m & fr & r & Hin & Hrest). exists m, fr, r. auto. Qed.
Lemma proven_mono c h h' k : h ⊆ h' → proven c h k → proven c h' k.
Proof.
  intros Hh. destruct c as [[[[email password] ttl]|]|[token|]|[[[token password] ttl]|]]; cbn [proven]; [|done..| |done].
  - intros (m & fr & a & Hin & Ha & Hv & Hl & Hs). exists m, fr, a. eauto 10 using signed_in_mono.
  - intros (m & fr & i & iv & Hin & Ht & Hp & Hs). exists m, fr, i, iv. eauto 10 using signed_in_mono.
Qed.

Lemma wp_open c h : wp any (Q c) (handle_open pbkdf2 dummy_salt c) (Q c) h.
Proof.
  destruct c as [[[[email password] ttl]|]|[token|]|[[[token password] ttl]|]]; cbn [handle_open decode or_refuse]; try exact I.
  - apply wp_login.
  - unfold inviteFor, invite_of_token. cbn [mbind prog_bind_inst]. apply wp_bind, wp_bind, (wp_read _ _ any_ok); [done|]. intros m fr.
    by apply wp_or_refuse.
  - apply wp_register.
Qed.
End sign_in.

(** C10. A sign-in is proven. Whatever happens between the steps of a request
    made with no key, and whatever the database does: if it is answered with a
    sign-in, then either it gave an address and, at one moment of the request,
    the password of the address's account — or it gave the token of an invite
    that was pending at one moment of it, and a password that may be one. The
    account worked at a moment of the request, and what it is given is the
    account's user's, does what the account does and ends no later. *)
Theorem sign_in_is_proven `{Unicode} `{hash : Hash} pbkdf2 dummy_salt c env secret k email
    (Hanswer : answer_in (handle_open pbkdf2 dummy_salt c) env = Some (Gave_login secret k email)) :
  proven pbkdf2 dummy_salt c env k.
Proof.
  pose proof (wp_answer _ _ _ [] env _ (wp_open pbkdf2 dummy_salt c []) Hanswer) as Hp. cbn in Hp.
  eapply proven_mono; [|exact Hp]. apply subseteq_take.
Qed.
