(* ===== verification/AccountExamples.v ===== *)
(** * Accounts in small

    The theorems of SignIns, SshKeys and AccountsSafe applied to one account,
    and what requests at once, a leaked key and a huge lifetime come to. *)
From stdpp Require Import pretty.
From S2P Require Import Prelude GoSort GoStrings Api Spec ServiceSpec Access Sessions Identity IdentityKeys SandboxStore Base64 SshKeys SignIns Accounts AccountsSafe.

#[local] Instance plain_unicode : Unicode := ascii_unicode.
#[local] Instance plain_hash : Hash := λ s, s.

(** Stand-ins for PBKDF2 and SHA-256. *)
Definition stretch (pw : string) (salt : list Z) (iter len : Z) : option (list Z) := Some (take (Z.to_nat len) (code <$> chars pw)).
Definition digest (b : list Z) : list Z := take 32 b.
Definition hashed (pw : string) : string := default ""%string (hashPassword stretch [1; 2; 3] pw).

Definition ann_invite : inviteRequest := {|
  ir_Email := "Ann@example.test"; ir_User := "ann"; ir_Tenant := ""; ir_Scopes := [ScopeRead; ScopeSSH; ScopeOrgCreate]; ir_Policy := "";
  ir_ExpiresInSecs := 0; ir_ValidSecs := 0 |}.
Definition tables : db := id_run plain_hash [
  (1000, Op_invite "1" "invited" ann_invite);
  (2000, Op_redeem "ann" "account-secret" "sgi_invited" (hashed "correct horse"));
  (3000, Op_org "acme" "ann" "ann" 5);
  (4000, Op_personal "ci" "ci-secret" "key_ann" "ann" "ci" [ScopeRead; ScopeSSH] (3600 * second))] empty_db.
Definition front_with (d : db) : front := {|
  fr_gw := {| gw_store := on_db (λ _, d) (empty_store true); gw_tombs := {| tb_max := 10; tb_ttl := minute; tb_m := ∅; tb_order := [] |};
              gw_nodes := ∅ |};
  fr_signIns := newSignInThrottle 0; fr_live := []; fr_ssh := [] |}.
Definition at_ (t : Z) (n : string) : instant := {|
  mo_now := t; mo_fate := Answers; mo_id := n; mo_secret := "secret-" +:+ n; mo_salt := [7]; mo_listed := [] |}.
(** Alone: each step finds what the last one left. *)
Fixpoint alone (p : prog response) (fr : front) (ms : list instant) : list (instant * front) :=
  match p, ms with
  | Step f k, m :: ms => (m, fr) :: alone (k (f m fr).2) (f m fr).1 ms
  | _, _ => []
  end.
Definition moments (t : Z) : list instant := (λ i, at_ (t + Z.of_nat i) (pretty (Z.of_nat i))) <$> seq 0 12.
Definition answer_alone (p : prog response) (d : db) (t : Z) : option response := answer_in p (alone p (front_with d) (moments t)).
Definition after_alone (p : prog response) (d : db) (t : Z) : db :=
  match last (steps_in p (alone p (front_with d) (moments t))) with Some (_, _, fr) => front_db fr | None => d end.

Definition asking : request := {| rq_origin := true; rq_authorization := "Bearer sgk_ci-secret"; rq_orgs := []; rq_typed := true; rq_path := ""; rq_ref := "" |}.
Definition settings_here : settings := {|
  cf_Mail := false; cf_MaxOrgsPerUser := 5; cf_SSH := Some ("ssh.example.test", 22); cf_SSHAccessTTL := 3600 * second; cf_SSHAccessMaxTTL := 86400 * second |}.

Example the_account : size (db_keys tables) = 2%nat ∧ size (db_members tables) = 2%nat.
Proof. vm_compute. split; reflexivity. Qed.

(** ** Signing in *)
Definition old_password : open_call := C_login (Some ("ann@example.test", "correct horse", 0)%string).
Definition gave_login (r : option response) : option (string * Z) :=
  match r with Some (Gave_login secret k _) => Some (secret, default 0 (k_Expires k)) | _ => None end.

Lemma sign_in_is_proven_witness : ∃ k,
  answer_alone (handle_open stretch [9] old_password) tables 10000 = Some (Gave_login "sgk_secret-4" k "ann@example.test") ∧
  proven stretch [9] old_password (alone (handle_open stretch [9] old_password) (front_with tables) (moments 10000)) k.
Proof.
  eexists. assert (answer_alone (handle_open stretch [9] old_password) tables 10000 = Some (Gave_login "sgk_secret-4" _ "ann@example.test")) as Ha
    by (vm_compute; reflexivity).
  split; [exact Ha|]. exact (sign_in_is_proven stretch [9] old_password _ _ _ _ Ha).
Defined.

(** A reset of the password between a sign-in's look at the account and its
    transaction: the old password signs in, after the reset has ended every
    sign-in. *)
Definition reset : db := id_run plain_hash [
  (20000, Op_reset "2" "reset" "key_ann" (3600 * second));
  (30000, Op_redeem "unused" "unused" "sgi_reset" (hashed "battery staple"))] tables.
Definition racing : list (instant * front) :=
  (λ i, (at_ (40000 + Z.of_nat i) (pretty (Z.of_nat i)), front_with (if bool_decide (i < 2)%nat then tables else reset))) <$> seq 0 6.
Example old_password_survives_a_reset :
  gave_login (answer_in (handle_open stretch [9] old_password) racing) = Some ("sgk_secret-4"%string, 40000 + 12 * 3600 * second) ∧
  answer_alone (handle_open stretch [9] old_password) reset 40000 = Some (Refused 401).
Proof. vm_compute. split; reflexivity. Qed.

(** A lifetime whose nanoseconds are past what 64 bits hold passes the limit,
    and the sign-in that is answered is over. *)
Example huge_lifetime_is_over :
  gave_login (answer_alone (handle_open stretch [9] (C_login (Some ("ann@example.test", "correct horse", 9223372037)%string))) tables 10000)
  = Some ("sgk_secret-4"%string, -9223372036709541616).
Proof. vm_compute. reflexivity. Qed.

(** ** A leaked key *)
Definition leaked : Principal := match authenticate (front_store (front_with tables)) 5000 "Bearer sgk_ci-secret" with
  | Ok (Some p) => p | _ => {| p_User := ""; p_Tenant := ""; p_KeyTenant := ""; p_KeyID := ""; p_Scopes := []; p_Sandbox := ""; p_Bound := false; p_BoundOrg := "" |} end.
Definition mallory_owner : key_call := C_set_member "acme" (Some {| mr_User := "mallory"; mr_Tenant := "mallory"; mr_Role := RoleOwner |}).
Definition asked (c : key_call) : prog response := serve stretch digest (λ _, true) settings_here asking c leaked.

(** Bound to one organization, for reading and SSH, it makes an owner of
    another. *)
Example bound_key_makes_an_owner_elsewhere :
  (p_Bound leaked, p_BoundOrg leaked, p_Scopes leaked) = (true, "ann"%string, [ScopeRead; ScopeSSH]) ∧
  mb_Role <$> db_members (after_alone (asked mallory_owner) tables 10000) !! ("acme", ("mallory", "mallory"))%string = Some RoleOwner.
Proof. vm_compute. split; reflexivity. Qed.

(** ** Who changes the members *)
Definition adding : list (instant * front * front) :=
  steps_in (asked mallory_owner) (alone (asked mallory_owner) (front_with tables) (moments 10000)).

(** The member is added at the fourth step, where the organization's owner was
    looked up at the third. *)
Lemma members_change_by_owners_witness : ∃ m fr fr',
  adding = take 3 adding ++ (m, fr, fr') :: drop 4 adding ∧
  db_members (front_db fr) !! ("acme", ("mallory", "mallory"))%string = None ∧
  (was_owner leaked (take 3 adding).*1 "acme" ∨ makes_it leaked mallory_owner fr "acme" ("mallory", "mallory")%string).
Proof.
  assert (∃ m fr fr', adding !! 3%nat = Some (m, fr, fr')) as (m & fr & fr' & E) by (do 3 eexists; vm_compute; reflexivity).
  assert (adding = take 3 adding ++ (m, fr, fr') :: drop 4 adding) as Hs by (symmetry; apply (take_drop_middle _ _ _ E)).
  exists m, fr, fr'. split; [exact Hs|].
  assert ((λ s, (db_members (front_db s.1.2) !! ("acme", ("mallory", "mallory"))%string, db_members (front_db s.2) !! ("acme", ("mallory", "mallory"))%string)) <$>
    adding !! 3%nat = Some (None, Some {| mb_Role := RoleOwner; mb_Added := 10000 |})) as Em by (vm_compute; reflexivity).
  rewrite E in Em. injection Em as E1 E2. split; [exact E1|].
  apply (members_change_by_owners stretch digest (λ _, true) settings_here leaked asking mallory_owner
    (alone (asked mallory_owner) (front_with tables) (moments 10000)) (take 3 adding) m fr fr' (drop 4 adding)).
  - vm_compute. reflexivity.
  - exact Hs.
  - cbn [fst snd] in E1, E2. rewrite E1, E2. discriminate.
Defined.

(** ** An SSH key registered with a leaked key *)
Definition one_line : string := "ssh-ed25519 AAAAC3NzaC1lZDI1NTE5AAAAIAABAgMEBQYHCAkKCwwNDg8QERITFBUWFxgZGhscHR4f ann  laptop ".

(** It is the user's wherever the user may go: it logs in to a sandbox of
    another organization, after the key it was registered with is revoked. *)
Definition box_id : string := "sbx_n1_00000000000000aa".
Definition left_behind : gateway store :=
  match last (steps_in (asked (C_add_ssh_key (Some (one_line, ""%string))))
                (alone (asked (C_add_ssh_key (Some (one_line, ""%string)))) (front_with tables) (moments 10000))) with
  | Some (_, _, fr) => {|
      gw_store := store_run plain_hash [(30000, None, St_record box_id {| ow_User := "ann"; ow_Tenant := "acme"; ow_Node := "n1" |}
           {| nr_CPUs := float_of_Z 1; nr_MemoryMB := 512; nr_DiskMB := 1024; nr_GPUs := 0 |} None)]
        (on_db (id_run plain_hash [(20000, Op_revoke "key_ci")]) (front_store fr));
      gw_tombs := gw_tombs (fr_gw fr); gw_nodes := {["n1" := true]} |}
  | None => fr_gw (front_with tables)
  end.
Definition fingerprint_of (line : string) : string := match ParseAuthorizedKey digest line with Ok k => pk_Fingerprint k | Err _ => "" end.
Example bound_key_leaves_a_login_behind :
  kr_Revoked <$> db_keys (st_db (gw_store left_behind)) !! "key_ci"%string = Some true ∧
  match authKey Some fingerprint_of left_behind 40000 [] box_id "ssh-ed25519 AAAAC3NzaC1lZDI1NTE5AAAAIAABAgMEBQYHCAkKCwwNDg8QERITFBUWFxgZGhscHR4f ann laptop" with
  | Ok l => p_Tenant (lg_principal l) = "acme"%string
  | Err _ => False
  end.
Proof. vm_compute. split; reflexivity. Qed.

(** ** Guesses *)
Definition guessing (n : nat) : list throttle_call := (λ i, SignIns.Ask (Z.of_nat i) "ann@example.test") <$> seq 0 n.
Definition failing (n : nat) : list throttle_call := (λ i, SignIns.Fails (second + Z.of_nat i) "ann@example.test") <$> seq 0 n.

(** Nothing counts a sign-in that has not failed yet. *)
Example a_thousand_at_once_pass : guesses "ann@example.test" (guessing 1000 ++ failing 1000) (newSignInThrottle 0) = 1000.
Proof. vm_compute. reflexivity. Qed.

(** One after the other. *)
Definition in_turn : list throttle_call := (λ i, (if Nat.even i then SignIns.Ask else SignIns.Fails) (Z.of_nat i) "ann@example.test"%string) <$> seq 0 20.

(** ** Two requests at once: a sign-in, and an owner made with the leaked key *)
Definition next_step (w : gateway_world) (im : nat * instant) : gateway_world :=
  match gw_threads w !! im.1 with
  | Some (Serving (Step f k)) =>
      {| gw_front := (f im.2 (gw_front w)).1; gw_threads := <[im.1 := Serving (k (f im.2 (gw_front w)).2)]> (gw_threads w) |}
  | _ => w
  end.
Abbreviation gateway_step := (without_admin stretch digest (λ _, true) [9] settings_here).
Lemma next_steps w ims : rtc gateway_step w (foldl next_step w ims).
Proof.
  revert w. induction ims as [|[i m] ims IH]; intros w; [apply rtc_refl|]. cbn [foldl]. etrans; [|apply IH].
  unfold next_step. cbn [fst snd]. destruct (gw_threads w !! i) as [[| [| |B f k]|]|] eqn:E; try apply rtc_refl.
  apply rtc_once. exists None. split; [|done]. by apply (W_step _ _ _ _ _ i B f k m w).
Qed.

Lemma no_admin_in q : Can q ScopeAdmin = false → ∀ p, Some q = Some p → Can p ScopeAdmin = false.
Proof. by intros Hq p [= <-]. Qed.

Definition quiet : gateway_world := {| gw_front := front_with tables; gw_threads := ∅ |}.
Definition two_requests : gateway_world :=
  on_thread 2 (Serving (serve stretch digest (λ _, true) settings_here asking mallory_owner leaked))
    (on_thread 2 (Arrived asking mallory_owner) (on_thread 1 (Serving (serve_open stretch [9] asking old_password)) quiet)).
Definition in_turns : list (nat * instant) := m ← moments 10000; [(1%nat, m); (2%nat, m)].
Definition settled : gateway_world := foldl next_step two_requests in_turns.

